(* ===== verification/_CoqProject ===== *)
-Q . S2P
Prelude.v
Table.v
Storage.v
EngineSchema.v
EngineNext.v
InboxStore.v
OutboxStore.v
JobStore.v
EngineConfig.v
EngineEffects.v
Worker.v
Executor.v
Runtime.v
Engine.v
EngineBusiness.v
Sample.v
EngineRuns.v
WorkerProps.v
JobProps.v
InboxProps.v
OutboxProps.v
Bytes.v
Mmr.v
MerkleTree.v
HeaderChain.v
HeaderSpec.v
Transaction.v
Verifier.v
HeaderCircuit.v
PublisherSet.v
Spv.v
CommitChain.v
SequencerUpdate.v
Cbft.v
StateChain.v
WatchtowerCommitment.v
LightClient.v
LightClientSample.v
LightClientSpec.v
NodeSchema.v
LocalDb.v
NodeNext.v
NodeApply.v
InstanceDecide.v
InstanceAggregate.v
GraphPegout.v
GraphAggregate.v
NodeHandlers.v
ApplyFrames.v
InstanceProps.v
ApplyErrors.v
EffectProps.v
NodeSample.v
NodeProps.v
Float64.v
AdmissionGates.v
AdmissionRate.v
RateProps.v
PeerRegistry.v
GateProps.v
RegistryProps.v
Admission.v
AdmissionProps.v
AdmissionRuns.v
AdmissionQuota.v
Timelocks.v
Committee.v
CommitteeProps.v
RoundStore.v
KeyEnvelope.v
GraphDefs.v
PeginRound.v
GraphValidate.v
GraphChainState.v
GraphRound.v
RoundNext.v
RoundSafety.v
RoundSample.v
RoundProps.v
