(* ===== verification/Prelude.v ===== *)
(** * GOAT BitVM node: verification library

    A model of the GOAT BitVM node (the Rust workspace under src/) as Rocq
    functions and step relations, with the theorems that make its parts correct.

    ** The program

    Users move bitcoin to the Goat chain (peg-in) and back (peg-out).  A peg-in is
    an _instance_, signed by a committee; for every instance each operator prepares
    a _graph_ of transactions that lets it claim the bitcoin after it has paid a
    withdrawal.  A claim can be challenged; it is answered by zero-knowledge proofs
    about Bitcoin's headers, the publishers' commitments and the EVM chain.

    - crates/store persists everything in SQLite: the tables of the engine
      (engine/mod.rs) and the node's own tables (localdb/).
    - crates/engine runs the node: events arrive in an inbox; one worker per shard
      applies each to its aggregate in one transaction; an apply leaves jobs (run
      by an executor under leases) and messages (sent by a publisher until they
      are acknowledged).
    - node/src/aggregates holds the two aggregates, Instance and Graph: the state
      machines of the protocol.  engine_bridge.rs registers them with the engine.
    - node/src/p2p_admission and node/src/p2p_msg_handler.rs stand between the gossip
      network and the inbox: they decide which received messages become events.
    - The jobs of node/src/aggregates (instance_jobs.rs, graph_jobs.rs) run the
      committee's signing rounds, with the material in node/src/utils and the MuSig2
      code of crates/bitvm-gc.
    - circuits/ holds the guest programs of the proofs.

    ** The engine

    - [Storage]: programs of the store.  A program takes its state and an
      environment that decides which statements fail and what the clock reads, so a
      theorem over all environments covers every schedule of failures.
      Transactions work on a copy that only commit publishes.
    - [Table], [EngineSchema]: SQL tables as lists of rows in rowid order; the five
      tables of the engine next to the business tables, which are a parameter.
    - [InboxStore], [OutboxStore], [JobStore]: the methods of
      crates/store/src/engine/mod.rs, statement by statement.  [EngineNext] says
      how rows may change, and every method is shown to follow it; [JobStore] also
      shows that every method returns when no statement fails.
    - [EngineConfig], [EngineEffects], [Worker], [Executor], [Runtime] (the
      publisher included): crates/engine/src, one definition per function.
    - [Engine]: [engine_step] is one operation of any task, under any environment,
      purges and restarts included.  The class [NodeLaws] is what the engine
      expects of handlers and runners.
    - [EngineRuns], [WorkerProps], [JobProps], [InboxProps], [OutboxProps]: the
      theorems.  In every reachable state the
      constraints of the schema hold; an apply commits as a whole or leaves nothing
      but its own bookkeeping; ACKs leave after the outcome is durable; an ended
      event never changes; one live lease per aggregate, unless a renewal comes
      late ([late_renewal_breaks_exclusion]); a job generation finishes once;
      publisher passes end.

    ** The node

    - [NodeSchema], [LocalDb], [NodeNext]: instances and graphs with their
      statuses, the statements of localdb/instance.rs and localdb/graph.rs, and the
      order [node_next] of the rows they all follow.
    - [NodeApply]: the monad of an apply (transaction, effects, alerts, failure and
      panic) and aggregates/common.rs.
    - [InstanceDecide], [InstanceAggregate]: aggregates/instance.rs.
      [GraphPegout], [GraphAggregate]: aggregates/graph.rs and graph_pegout.rs.  Both are the whole apply.
    - [NodeHandlers]: the applies satisfy the laws of the engine's handlers.
      [EngineBusiness] lifts an order of the node's rows from handlers, runners and
      producers to every step of the engine.
    - [ApplyFrames], [InstanceProps], [EffectProps], [ApplyErrors], [NodeProps]: the
      theorems.  Along every run rows stay typed, instances only
      advance, closed graphs stay closed and definitions never change; a status
      changes only on evidence; projections mirror rows; keys are deleted, graphs
      kicked off and definitions built only when they may be; an event is poisoned
      only if it is malformed.

    ** Admission

    - [Float64]: the arithmetic of the rate limits, exact results rounded to 53 bits.
    - [AdmissionGates], [AdmissionRate], [PeerRegistry], [GateProps]: the
      gates of node/src/p2p_admission and middleware/connection_gate.rs, one state
      record and one function per operation.
    - [Admission]: messages.rs, the evaluation of a received message and what is done
      with it, up to the event that the engine's [submit] records.
    - [RateProps], [GateProps], [RegistryProps], [AdmissionProps], [AdmissionRuns],
      [AdmissionQuota]: the theorems.  A sender has a class only on the chain's
      evidence; a sequence number is accepted once; what is accepted over any time is
      bounded by bursts and rates, rounding included; bans are earned; only vetted
      messages are stored, and in every run of the event loop and the engine the
      inbox stays within its quotas.

    ** The committee's rounds

    - [Timelocks]: crates/bitvm-gc/src/timelocks.rs.  [Committee]: committee/api.rs,
      the nonce derivation of keys.rs and the parameters of types.rs.
    - [RoundStore]: the table of signing authorizations (crates/store/src/signing.rs)
      and the material of a round (utils/rounds.rs).  [KeyEnvelope]: the sealed keys of
      instances.  [GraphDefs]: graph definitions and their storage.
    - [PeginRound]: jobs.rs and instance_jobs.rs, runners included.  [GraphValidate]:
      graph_validate.rs and endorse.rs.  [GraphChainState]: graph_chain_state.rs.
      [GraphRound]: the jobs of graph_jobs.rs that make up a graph's signing round.
    - A program works on a [RoundNode]: the node's tables, the authorizations, the
      envelope files and a log of the uses of secret nonces with what the node held at
      that moment (committee, nonces, votes, row and tip).  The log is read by theorems
      only.  Before every statement other tasks may change the state ([Others]); the
      answers of the chains depend on the number of the call ([Outside]).
    - [CommitteeProps], [RoundNext], [RoundSafety], [RoundProps]: the theorems.  Along
      every run of the jobs one nonce signs one message, and every signature was made
      with the gate open, under an authorization, after every member had signed the
      transcript; accepted partial signatures cover every slot; a finalized graph has
      the whole committee behind it, is never replaced and loads back; a status read
      from the chains is what they show; deleted keys are never made again.

    ** The circuits

    - [Bytes], [Mmr], [MerkleTree], [HeaderChain], [HeaderSpec], [Transaction],
      [Spv], [HeaderCircuit]: circuits/crates/header-chain.  [HeaderSpec] states
      Bitcoin's rules on whole chains and shows that the incremental code accepts
      exactly the valid ones.
    - [Verifier]: circuits/crates/verifier.  [PublisherSet], [CommitChain]:
      circuits/crates/commit-chain.  [Cbft], [StateChain]:
      circuits/crates/state-chain.  [Spv], [SequencerUpdate],
      [WatchtowerCommitment], [LightClient]:
      circuits/crates/bitcoin-light-client-circuit.
    - [LightClientSpec] composes them: what an accepted operator or watchtower
      proof says, given that the proof system is sound for the verified programs.

    [Sample], [NodeSample], [RoundSample], [LightClientSample] and [Bytes] hold concrete
    instances of every parameter, on which the theorems are evaluated; those of
    admission are with its theorems.

    ** Conventions

    - Code outside the repository is a class of operations, with a class of laws
      where a theorem needs them: SHA-256, 256-bit integers, Groth16, Bitcoin and
      EVM encodings, signatures, serde and bincode, the transport.  The engine's
      theorems take runners as parameters with the law that they write through the
      store.  A theorem
      that would need the absence of SHA-256 collisions exhibits a collision
      instead.
    - Integers keep their width where the code can overflow, with the panic, the
      wrap-around or the cast the source has.  Sums of heights and timestamps of
      type i64 in the decisions of the aggregates and in the engine's schedules are
      unbounded integers.
    - The order in which a hash table is iterated is a parameter ([HashIter]).
    - Asynchronous functions are sequential programs between which other tasks may
      run: a task's held copy of a row is arbitrary in [engine_step].  The timeout
      of an apply is the parameter [cut].
    - Fuel: [drain_shard] and [drain_outbox] take fuel in the step relation, any
      amount; [drain_outbox_finishes] gives the amount that is enough.  Every other
      recursion is structural.

    ** Not modelled

    - The setup, verifier, fetch and peg-out jobs, the scan loops, event watchers and
      start-up code of node/src: they consist of calls to Bitcoin, Goat, garbled
      circuits and cryptographic libraries; the engine's theorems hold for any runner
      and producer that writes through the store.  How error.rs classifies a failure
      is a parameter of the runners.
    - The construction of the graph's transactions (operator/api.rs) and the garbled
      circuits of crates/bitvm-gc; crates/client, crates/cbft-rpc, crates/util:
      network clients.
    - The lookups and maintenance tasks of p2p_admission, which ask the chain and
      record its answers through the modelled registry; libp2p itself, the HTTP API,
      metrics and logging: they do not change the modelled tables other than by
      recording events.
    - The tables of proofs, swaps and statistics, and the hosts that build proofs:
      no modelled component reads them. *)

From stdpp Require Import base strings list gmap pretty.

(** ** Record update

    The stateful code of the repository updates single columns of wide rows.
    [Eta] lists the projections of a record once; [Setter] instances are then
    derived by abstracting one projection in the eta expansion. *)

Class Eta (R : Type) := eta : R → R.

Class Setter {R T : Type} (proj : R → T) := over : (T → T) → R → R.

Arguments over {R T} proj {_} _ _ /.

Ltac derive_setter :=
  lazymatch goal with
  | |- @Setter ?R ?T ?proj =>
      let inst := constr:(ltac:(typeclasses eauto) : Eta R) in
      let body := eval red in inst in
      lazymatch eval pattern proj in body with
      | ?g _ =>
          let s := eval cbv beta in
            (λ (u : T → T) (r : R), g (λ r' : R, u (proj r')) r) in
          exact s
      end
  end.

#[export] Hint Extern 0 (Setter _) => derive_setter : typeclass_instances.

Declare Scope record_scope.
Delimit Scope record_scope with rec.
Open Scope record_scope.

Notation "r <| f := v |>" := (over f (λ _, v) r)
  (at level 1, f at level 0, v at level 200, left associativity) : record_scope.
Notation "r <| f ::= u |>" := (over f u r)
  (at level 1, f at level 0, u at level 200, left associativity) : record_scope.

Local Open Scope Z_scope.

(** ** Results

    [anyhow::Error] is the chain of its causes' messages, outermost first. *)

Definition error : Type := list string.

Inductive outcome (A : Type) : Type :=
| Ok (a : A)
| Err (e : error).
Arguments Ok {A} a.
Arguments Err {A} e.

Definition is_ok {A} (o : outcome A) : bool :=
  match o with Ok _ => true | Err _ => false end.

(** A panic of pure code is an [Err] with the panic's message; the first one
    ends the computation. *)
#[export] Instance outcome_ret : MRet outcome := λ A a, Ok a.
#[export] Instance outcome_bind : MBind outcome := λ A B k m,
  match m with Ok a => k a | Err e => Err e end.

(** [assert!], [expect] and indexing. *)
Definition require (b : bool) (message : string) : outcome unit :=
  if b then Ok tt else Err [message].

Definition expect {A} (o : option A) (message : string) : outcome A :=
  match o with Some a => Ok a | None => Err [message] end.

Definition index {A} (l : list A) (i : nat) : outcome A :=
  expect (l !! i) "index out of bounds".

(** [Result::unwrap_or]. *)
Definition unwrap_or {A} (o : outcome A) (default : A) : A :=
  match o with Ok a => a | Err _ => default end.

Lemma Ok_inj {A} (a b : A) : Ok a = Ok b → a = b.
Proof. congruence. Qed.

Lemma outcome_bind_Ok {A B} (m : outcome A) (k : A → outcome B) b :
  m ≫= k = Ok b ↔ ∃ a, m = Ok a ∧ k a = Ok b.
Proof. destruct m as [a|e]; cbn; naive_solver. Qed.

Lemma require_Ok b message u : require b message = Ok u ↔ b = true.
Proof. destruct b, u; cbn; naive_solver. Qed.

Lemma expect_Ok {A} (o : option A) message a : expect o message = Ok a ↔ o = Some a.
Proof. destruct o; cbn; naive_solver. Qed.

Lemma index_Ok {A} (l : list A) i a : index l i = Ok a ↔ l !! i = Some a.
Proof. apply expect_Ok. Qed.

Lemma outcome_bind_assoc {A B C} (m : outcome A) (k : A → outcome B) (k' : B → outcome C) :
  (m ≫= k) ≫= k' = m ≫= (λ a, k a ≫= k').
Proof. by destruct m. Qed.

(** A [for] loop over a vector that updates a state and may panic. *)
Fixpoint for_each {S A} (f : S → A → outcome S) (s : S) (l : list A) : outcome S :=
  match l with
  | [] => Ok s
  | x :: l => s ← f s x; for_each f s l
  end.

Lemma for_each_app {S A} (f : S → A → outcome S) s l1 l2 :
  for_each f s (l1 ++ l2) = (s ← for_each f s l1; for_each f s l2).
Proof.
  revert s. induction l1 as [|x l1 IH]; intros s; cbn [for_each app]; [done|].
  rewrite outcome_bind_assoc. destruct (f s x); cbn; [apply IH|done].
Qed.

(** Follow a computation that did not panic, one call at a time. *)
Ltac ok_inv :=
  repeat match goal with
    | H : _ ≫= _ = Ok _ |- _ =>
        apply outcome_bind_Ok in H; let a := fresh "a" in let H1 := fresh "H" in
        destruct H as (a & H1 & H)
    | H : require _ _ = Ok _ |- _ => apply require_Ok in H
    | H : expect _ _ = Ok _ |- _ => apply expect_Ok in H
    | H : index _ _ = Ok _ |- _ => apply index_Ok in H
    | H : Ok _ = Ok _ |- _ => injection H as H; subst
    | H : Err _ = Ok _ |- _ => discriminate H
    | H : mret _ = Ok _ |- _ => injection H as H; subst
  end.

(** ** Byte strings and text

    A Rust [String] or [Vec<u8>] is a sequence of bytes, which is what
    [String.string] is. *)

Abbreviation bytes := string (only parsing).

(** [str::contains], and SQLite's [instr(text, sub) > 0]. *)
Fixpoint contains (sub s : string) : bool :=
  String.prefix sub s ||
  match s with
  | EmptyString => false
  | String _ s' => contains sub s'
  end.

Definition ascii_to_lower (c : Ascii.ascii) : Ascii.ascii :=
  let n := Ascii.nat_of_ascii c in
  if ((65 <=? n) && (n <=? 90))%nat then Ascii.ascii_of_nat (n + 32) else c.

(** [str::to_ascii_lowercase]. *)
Fixpoint to_ascii_lowercase (s : string) : string :=
  match s with
  | EmptyString => EmptyString
  | String c s' => String (ascii_to_lower c) (to_ascii_lowercase s')
  end.

Lemma prefix_app (a b : string) : String.prefix a (a +:+ b) = true.
Proof.
  induction a as [|c a IH]; [by destruct b|].
  change (String c a +:+ b) with (String c (a +:+ b)). cbn.
  destruct (Ascii.ascii_dec c c); [exact IH|congruence].
Qed.

Lemma contains_middle (a sub b : string) : contains sub (a +:+ sub +:+ b) = true.
Proof.
  induction a as [|c a IH]; cbn [contains].
  - change (EmptyString +:+ sub +:+ b) with (sub +:+ b).
    destruct (sub +:+ b) as [|x s] eqn:E; cbn [contains]; rewrite <- E.
    + by rewrite prefix_app.
    + by rewrite prefix_app.
  - change (String c a +:+ sub +:+ b) with (String c (a +:+ sub +:+ b)).
    cbn [contains]. by rewrite IH, orb_true_r.
Qed.

(** ** Machine integers

    [i64] and [u32] values are integers; the operations that saturate or wrap
    in the source are written out. *)

Definition i64_max : Z := 2 ^ 63 - 1.
Definition i64_min : Z := - 2 ^ 63.
Definition u32_max : Z := 2 ^ 32 - 1.
Definition u64_modulus : Z := 2 ^ 64.

Definition saturate (lo hi x : Z) : Z := Z.max lo (Z.min hi x).

Definition i64_saturating_add (a b : Z) : Z := saturate i64_min i64_max (a + b).
Definition i64_saturating_mul (a b : Z) : Z := saturate i64_min i64_max (a * b).
Definition u32_saturating_add (a b : Z) : Z := saturate 0 u32_max (a + b).
Definition u64_wrapping_mul (a b : Z) : Z := (a * b) mod u64_modulus.

Lemma saturate_id lo hi x : lo ≤ x ≤ hi → saturate lo hi x = x.
Proof. unfold saturate. lia. Qed.

Lemma saturate_bounds lo hi x : lo ≤ hi → lo ≤ saturate lo hi x ≤ hi.
Proof. unfold saturate. lia. Qed.

Lemma saturate_mono lo hi x y : x ≤ y → saturate lo hi x ≤ saturate lo hi y.
Proof. unfold saturate. lia. Qed.

(** The [u32] operators panic on overflow in a build with overflow checks and
    wrap in one without. *)
Class OverflowChecks := overflow_checks : bool.

Definition u32_modulus : Z := 2 ^ 32.
Definition u32_wrapping_add (a b : Z) : Z := (a + b) mod u32_modulus.
Definition u32_checked_add (a b : Z) : option Z :=
  if a + b <? u32_modulus then Some (a + b) else None.
Definition u32_saturating_sub (a b : Z) : Z := Z.max 0 (a - b).

Definition u32_add `{OverflowChecks} (a b : Z) : outcome Z :=
  if a + b <? u32_modulus then Ok (a + b)
  else if overflow_checks then Err ["attempt to add with overflow"]
  else Ok ((a + b) mod u32_modulus).

Definition u32_sub `{OverflowChecks} (a b : Z) : outcome Z :=
  if b <=? a then Ok (a - b)
  else if overflow_checks then Err ["attempt to subtract with overflow"]
  else Ok ((a - b) mod u32_modulus).

Definition u64_add `{OverflowChecks} (a b : Z) : outcome Z :=
  if a + b <? u64_modulus then Ok (a + b)
  else if overflow_checks then Err ["attempt to add with overflow"]
  else Ok ((a + b) mod u64_modulus).

Lemma u64_add_mod `{OverflowChecks} a b c :
  0 ≤ a → 0 ≤ b → u64_add a b = Ok c → c = (a + b) mod u64_modulus.
Proof.
  unfold u64_add, u64_modulus. intros Ha Hb H'. destruct (Z.ltb_spec (a + b) (2 ^ 64)).
  - injection H' as <-. rewrite Z.mod_small; lia.
  - destruct overflow_checks; [done|congruence].
Qed.

Lemma u32_add_exact `{OverflowChecks} a b : a + b < u32_modulus → u32_add a b = Ok (a + b).
Proof. unfold u32_add. intros Hab. by rewrite (proj2 (Z.ltb_lt _ _) Hab). Qed.

Lemma u32_sub_exact `{OverflowChecks} a b : b ≤ a → u32_sub a b = Ok (a - b).
Proof. unfold u32_sub. intros Hab. by rewrite (proj2 (Z.leb_le _ _) Hab). Qed.

(** ** Boolean reflection *)

Lemma bool_decide_false_ne `{Decision P} : bool_decide P = false ↔ ¬ P.
Proof. apply bool_decide_eq_false. Qed.

(** Turn the boolean guards of the hypotheses into propositions. *)
Ltac brefl :=
  repeat match goal with
    | H : _ && _ = true |- _ => apply andb_true_iff in H; destruct H
    | H : _ && _ = false |- _ => apply andb_false_iff in H
    | H : _ || _ = true |- _ => apply orb_true_iff in H
    | H : _ || _ = false |- _ => apply orb_false_iff in H; destruct H
    | H : negb _ = true |- _ => apply negb_true_iff in H
    | H : negb _ = false |- _ => apply negb_false_iff in H
    | H : bool_decide _ = true |- _ => apply bool_decide_eq_true_1 in H
    | H : bool_decide _ = false |- _ => apply bool_decide_eq_false_1 in H
    | H : (_ <=? _) = true |- _ => apply Z.leb_le in H
    | H : (_ <=? _) = false |- _ => apply Z.leb_gt in H
    | H : (_ <? _) = true |- _ => apply Z.ltb_lt in H
    | H : (_ <? _) = false |- _ => apply Z.ltb_ge in H
    | H : (_ =? _) = true |- _ => apply Z.eqb_eq in H
    | H : (_ =? _) = false |- _ => apply Z.eqb_neq in H
    end.

(** ** Lists *)

Section Lists.
Context {A K : Type}.
Implicit Types (l : list A) (p : A → bool).

Lemma In_filter_iff p l x : x ∈ List.filter p l ↔ x ∈ l ∧ p x = true.
Proof. rewrite !list_elem_of_In. apply filter_In. Qed.

Lemma In_map_iff {B} (f : A → B) l y : y ∈ map f l ↔ ∃ x, x ∈ l ∧ y = f x.
Proof.
  rewrite list_elem_of_In, in_map_iff.
  split; intros (x & H1 & H2); exists x; [by rewrite list_elem_of_In|].
  by rewrite <- list_elem_of_In.
Qed.

Lemma existsb_elem p l : existsb p l = true ↔ ∃ x, x ∈ l ∧ p x = true.
Proof.
  rewrite existsb_exists. by setoid_rewrite list_elem_of_In.
Qed.

Lemma existsb_none p l : existsb p l = false ↔ ∀ x, x ∈ l → p x = false.
Proof.
  rewrite <- not_true_iff_false, existsb_elem. split.
  - intros H x Hx. apply not_true_iff_false. intros Hp. eauto.
  - intros H (x & Hx & Hp). rewrite H in Hp by done. done.
Qed.

Lemma find_some_elem p l x : List.find p l = Some x → x ∈ l ∧ p x = true.
Proof. intros H%find_some. by rewrite list_elem_of_In. Qed.

Lemma find_none_elem p l : List.find p l = None ↔ ∀ x, x ∈ l → p x = false.
Proof.
  split.
  - intros H x Hx. apply (find_none _ _ H). by apply list_elem_of_In.
  - intros H. destruct (List.find p l) as [x|] eqn:E; [|done].
    apply find_some_elem in E as [Hx Hp]. rewrite H in Hp by done. done.
Qed.

Lemma find_is_some p l x : x ∈ l → p x = true → ∃ y, List.find p l = Some y.
Proof.
  intros Hx Hp. destruct (List.find p l) as [y|] eqn:E; [eauto|].
  rewrite find_none_elem in E. by rewrite E in Hp.
Qed.

Lemma NoDup_map_filter (f : A → K) p l :
  NoDup (map f l) → NoDup (map f (List.filter p l)).
Proof.
  induction l as [|x l IH]; cbn; [done|].
  intros [Hx Hl]%NoDup_cons. destruct (p x); cbn; [|auto].
  apply NoDup_cons. split; [|auto].
  contradict Hx. apply In_map_iff in Hx as (y & [Hy _]%In_filter_iff & ->).
  apply In_map_iff. eauto.
Qed.

(** Two rows of a table with the same unique key are the same row. *)
Lemma NoDup_map_inj (f : A → K) l x y :
  NoDup (map f l) → x ∈ l → y ∈ l → f x = f y → x = y.
Proof.
  induction l as [|z l IH]; cbn; [by intros ? ?%not_elem_of_nil|].
  intros [Hz Hl]%NoDup_cons [->|Hx]%elem_of_cons [->|Hy]%elem_of_cons Hf;
    [done| | |auto].
  - destruct Hz. apply In_map_iff. eauto.
  - destruct Hz. apply In_map_iff. eauto.
Qed.

Lemma length_filter_le p l : (length (List.filter p l) ≤ length l)%nat.
Proof. induction l as [|x l IH]; cbn; [lia|]. destruct (p x); cbn; lia. Qed.

End Lists.
