(* ===== verification/Table.v ===== *)
(** * SQL tables

    A table is the list of its rows in rowid order (every table of the engine
    gives a new row the largest rowid).  The statements the store issues are
    list functions: [UPDATE .. WHERE] maps, [DELETE .. WHERE] filters, [INSERT
    OR IGNORE] appends unless a row conflicts, [ORDER BY] is a stable sort and
    [LIMIT n] a prefix (SQLite reads a negative limit as none).  [evolves]
    relates a table before and after statements that delete nothing. *)

From stdpp Require Import base list sorting.
From S2P Require Import Prelude.

Local Open Scope Z_scope.

Section Table.
Context {A : Type}.
Implicit Types (t : list A) (p : A → bool) (f : A → A).

Definition update_where p f t : list A := map (λ r, if p r then f r else r) t.

Definition delete_where p t : list A := List.filter (λ r, negb (p r)) t.

Definition select_where p t : list A := List.filter p t.

Definition select_one p t : option A := List.find p t.

(** [rows_affected()] of a statement restricted by [p], and [COUNT( * )]. *)
Definition count_where p t : Z := Z.of_nat (length (select_where p t)).

Definition insert_or_ignore (conflict : A → bool) (r : A) t : bool * list A :=
  if existsb conflict t then (false, t) else (true, t ++ [r]).

Fixpoint insert_by (leb : A → A → bool) (x : A) t : list A :=
  match t with
  | [] => [x]
  | y :: t' => if leb x y then x :: t else y :: insert_by leb x t'
  end.

Definition order_by (leb : A → A → bool) t : list A :=
  foldr (insert_by leb) [] t.

Definition limit (n : Z) t : list A :=
  if n <? 0 then t else take (Z.to_nat n) t.

(** ** Lemmas on the statements *)

Lemma elem_of_update_where p f t r' :
  r' ∈ update_where p f t ↔ ∃ r, r ∈ t ∧ r' = if p r then f r else r.
Proof. apply In_map_iff. Qed.

Lemma elem_of_delete_where p t r : r ∈ delete_where p t ↔ r ∈ t ∧ p r = false.
Proof. unfold delete_where. rewrite In_filter_iff, negb_true_iff. done. Qed.

Lemma elem_of_select_where p t r : r ∈ select_where p t ↔ r ∈ t ∧ p r = true.
Proof. apply In_filter_iff. Qed.

Lemma update_where_none p f t :
  (∀ r, r ∈ t → p r = false) → update_where p f t = t.
Proof.
  intros H. unfold update_where. rewrite <- (map_id t) at 2.
  apply map_ext_in. intros r Hr. by rewrite H by (by apply list_elem_of_In).
Qed.

Lemma count_where_zero p t :
  count_where p t = 0 ↔ ∀ r, r ∈ t → p r = false.
Proof.
  unfold count_where. split.
  - intros H r Hr. apply not_true_iff_false. intros Hp.
    assert (Hin : r ∈ select_where p t) by by apply elem_of_select_where.
    destruct (select_where p t); [by apply not_elem_of_nil in Hin|cbn in H; lia].
  - intros H. destruct (select_where p t) as [|r l] eqn:E; [done|].
    assert (Hr : r ∈ select_where p t) by (rewrite E; left).
    apply elem_of_select_where in Hr as [Hr Hp]. by rewrite H in Hp.
Qed.

Lemma count_where_nonneg p t : 0 ≤ count_where p t.
Proof. unfold count_where. lia. Qed.

Lemma count_where_pos p t : 0 < count_where p t ↔ ∃ r, r ∈ t ∧ p r = true.
Proof.
  split.
  - intros H. destruct (existsb p t) eqn:E; [by apply existsb_elem|].
    rewrite existsb_none in E. apply count_where_zero in E. lia.
  - intros (r & Hr & Hp). pose proof (count_where_nonneg p t).
    enough (count_where p t ≠ 0) by lia. rewrite count_where_zero.
    intros H0. by rewrite H0 in Hp.
Qed.

Lemma existsb_update p q f t :
  (∀ r, p r = true → q (f r) = q r) → existsb q (update_where p f t) = existsb q t.
Proof.
  intros Hf. unfold update_where. induction t as [|r t IH]; [done|]. cbn. rewrite IH.
  destruct (p r) eqn:E; [by rewrite Hf|done].
Qed.

(** An update that takes the rows of [p] out of [q]. *)
Lemma count_update_out p q f t :
  (∀ r, p r = true → q r = true) → (∀ r, p r = true → q (f r) = false) →
  count_where q (update_where p f t) = count_where q t - count_where p t.
Proof.
  intros Hpq Hf. unfold count_where, select_where, update_where.
  induction t as [|r t IH]; [done|]. cbn. destruct (p r) eqn:E.
  - rewrite (Hf r E), (Hpq r E). cbn [length]. lia.
  - destruct (q r); cbn [length]; lia.
Qed.

(** An update that never puts a row into [q]. *)
Lemma count_update_le p q f t :
  (∀ r, p r = true → q (f r) = true → q r = true) →
  count_where q (update_where p f t) ≤ count_where q t.
Proof.
  intros Hf. unfold count_where, select_where, update_where.
  induction t as [|r t IH]; [done|]. cbn. destruct (p r) eqn:E.
  - destruct (q (f r)) eqn:E2; [rewrite (Hf r E E2); cbn [length]; lia|].
    destruct (q r); cbn [length]; lia.
  - destruct (q r); cbn [length]; lia.
Qed.

Lemma length_update_where p f t : length (update_where p f t) = length t.
Proof. apply length_map. Qed.

Lemma map_update_where {K} (key : A → K) p f t :
  (∀ r, p r = true → key (f r) = key r) →
  map key (update_where p f t) = map key t.
Proof.
  intros H. unfold update_where. rewrite map_map. apply map_ext.
  intros r. destruct (p r) eqn:E; [by apply H|done].
Qed.

Lemma elem_of_limit n t r : r ∈ limit n t → r ∈ t.
Proof.
  unfold limit. destruct (n <? 0); [done|]. intros H.
  rewrite <- (take_drop (Z.to_nat n) t). apply elem_of_app. by left.
Qed.

Lemma length_limit n t : 0 ≤ n → Z.of_nat (length (limit n t)) ≤ n.
Proof.
  intros Hn. unfold limit. destruct (Z.ltb_spec n 0); [lia|].
  rewrite length_take. lia.
Qed.

Lemma NoDup_map_limit {K} (f : A → K) n t : NoDup (map f t) → NoDup (map f (limit n t)).
Proof.
  unfold limit. destruct (n <? 0); [done|]. intros Hn.
  rewrite <- (take_drop (Z.to_nat n) t), map_app in Hn. by apply NoDup_app in Hn as [Hn _].
Qed.

Lemma insert_by_Permutation leb x t : insert_by leb x t ≡ₚ x :: t.
Proof.
  induction t as [|y t IH]; cbn; [done|].
  destruct (leb x y); [done|]. rewrite IH. apply Permutation_swap.
Qed.

Lemma order_by_Permutation leb t : order_by leb t ≡ₚ t.
Proof.
  induction t as [|x t IH]; cbn; [done|].
  by rewrite insert_by_Permutation, IH.
Qed.

Lemma elem_of_order_by leb t r : r ∈ order_by leb t ↔ r ∈ t.
Proof. by rewrite order_by_Permutation. Qed.

Section Sorted.
Context (leb : A → A → bool).
Context (leb_total : ∀ x y, leb x y = true ∨ leb y x = true).
Context (leb_trans : ∀ x y z, leb x y = true → leb y z = true → leb x z = true).

Lemma insert_by_sorted x t :
  StronglySorted (λ a b, leb a b = true) t →
  StronglySorted (λ a b, leb a b = true) (insert_by leb x t).
Proof.
  induction 1 as [|y t Ht IH Hy]; cbn; [by repeat constructor|].
  destruct (leb x y) eqn:E.
  - constructor; [by constructor|]. constructor; [done|].
    eapply Forall_impl; [exact Hy|]. intros z Hz. by apply (leb_trans _ y).
  - constructor; [done|]. rewrite insert_by_Permutation. constructor; [|done].
    destruct (leb_total x y) as [Hxy|]; [by rewrite Hxy in E|done].
Qed.

Lemma order_by_sorted t : StronglySorted (λ a b, leb a b = true) (order_by leb t).
Proof. induction t; cbn; [constructor|by apply insert_by_sorted]. Qed.

(** The first row of an ordered result is minimal. *)
Lemma order_by_head t x l y :
  order_by leb t = x :: l → y ∈ t → leb x y = true.
Proof.
  intros H Hy. pose proof (order_by_sorted t) as Hs. rewrite H in Hs.
  apply (elem_of_order_by leb) in Hy. rewrite H in Hy.
  apply StronglySorted_inv in Hs as [_ Hall].
  apply elem_of_cons in Hy as [->|Hy].
  - by destruct (leb_total x x).
  - rewrite Forall_forall in Hall. by apply Hall.
Qed.
End Sorted.

(** ** Evolution of a table

    [evolves key R new t t']: no row of [t] lost its key, every row of [t'] is
    either an [R]-successor of the row of [t] with its key or a [new] row with
    a key [t] did not have. *)

Section Evolves.
Context {K : Type} (key : A → K) (R : A → A → Prop) (new : A → Prop).

Record evolves t t' : Prop := {
  evolves_rows : ∀ r', r' ∈ t' →
    (∃ r, r ∈ t ∧ key r = key r' ∧ R r r') ∨ (new r' ∧ key r' ∉ map key t);
  evolves_keys : ∀ r, r ∈ t → key r ∈ map key t';
  evolves_nodup : NoDup (map key t) → NoDup (map key t');
}.

Context `{!PreOrder R}.

Lemma evolves_refl t : evolves t t.
Proof.
  split; [|intros r Hr; apply In_map_iff; eauto|done].
  intros r Hr. left. by exists r.
Qed.

Lemma evolves_preorder (new_closed : ∀ r r', new r → R r r' → new r') :
  PreOrder evolves.
Proof.
  split; [intros t; apply evolves_refl|].
  - intros t1 t2 t3 [Hr1 Hk1 Hn1] [Hr2 Hk2 Hn2]. split; [| |auto].
    + intros r3 Hr3. destruct (Hr2 _ Hr3) as [(r2 & H2 & K2 & R2)|[N2 K2]].
      * destruct (Hr1 _ H2) as [(r1 & H1 & K1 & R1)|[N1 K1]].
        { left. exists r1. split_and!; [done|congruence|by etrans]. }
        right. split; [by eapply new_closed|congruence].
      * right. split; [done|]. contradict K2.
        apply In_map_iff in K2 as (r1 & H1 & ->). by apply Hk1.
    + intros r Hr. apply Hk1, In_map_iff in Hr as (r2 & H2 & ->). by apply Hk2.
Qed.

Lemma evolves_update_where p f t :
  (∀ r, r ∈ t → p r = true → key (f r) = key r ∧ R r (f r)) →
  evolves t (update_where p f t).
Proof.
  intros H.
  assert (Hk : map key (update_where p f t) = map key t).
  { unfold update_where. rewrite map_map. apply map_ext_in.
    intros r Hr%list_elem_of_In. destruct (p r) eqn:E; [|done].
    by destruct (H r Hr E). }
  split.
  - intros r' (r & Hr & ->)%elem_of_update_where. left. exists r.
    destruct (p r) eqn:E; [|by split_and!]. by destruct (H r Hr E).
  - intros r Hr. rewrite Hk. apply In_map_iff. eauto.
  - by rewrite Hk.
Qed.

Lemma evolves_insert_or_ignore conflict r t :
  new r →
  (∀ x, x ∈ t → key x = key r → conflict x = true) →
  evolves t (insert_or_ignore conflict r t).2.
Proof.
  intros Hnew Hc. unfold insert_or_ignore.
  destruct (existsb conflict t) eqn:E; cbn; [apply evolves_refl|].
  assert (Hk : key r ∉ map key t).
  { intros (x & Hx & Heq)%In_map_iff. rewrite existsb_none in E.
    specialize (E x Hx). rewrite (Hc x Hx) in E; congruence. }
  split.
  - intros x [Hx| ->%list_elem_of_singleton]%elem_of_app; [left; by exists x|].
    by right.
  - intros x Hx. rewrite map_app. apply elem_of_app. left.
    apply In_map_iff. eauto.
  - intros Hn. rewrite map_app. apply NoDup_app. split_and!; [done| |].
    + intros k Hk1 Hk2%list_elem_of_singleton. by subst.
    + apply NoDup_singleton.
Qed.

(** With unique keys, the two rows of a key are related. *)
Lemma evolves_same_key t t' r r' :
  NoDup (map key t) → evolves t t' →
  r ∈ t → r' ∈ t' → key r = key r' → R r r'.
Proof.
  intros Hn [Hrows _ _] Hr Hr' Hk.
  destruct (Hrows _ Hr') as [(x & Hx & Hkx & HR)|[_ Hno]].
  - by rewrite (NoDup_map_inj key t r x Hn Hr Hx) by congruence.
  - destruct Hno. rewrite <- Hk. apply In_map_iff. eauto.
Qed.
End Evolves.
End Table.

#[global] Arguments update_where : simpl never.
#[global] Arguments delete_where : simpl never.
#[global] Arguments select_where : simpl never.
#[global] Arguments count_where : simpl never.
