(* ===== verification/Storage.v ===== *)
(** * Storage programs

    The store and the engine are asynchronous Rust functions that talk to
    SQLite; every statement can fail, and [?] propagates the failure.  A
    program over a state [S] is a function [S → Env → outcome A * S * Env]:
    [Env] holds what the outside world decides, which statements fail and what
    the clock reads, so a theorem over every [Env] covers every schedule of
    failures.  [LocalDB::start_immediate_transaction], [commit] and the
    rollback of a dropped transaction are [transaction] and [commit].

    Source: crates/store/src/localdb/mod.rs, crates/engine/src/clock.rs. *)

From stdpp Require Import base list strings.
From S2P Require Import Prelude.

Local Open Scope Z_scope.

(** What the environment decides: whether the next statements fail (beyond the
    list they succeed) and what the next clock readings are (beyond the list
    the clock stands still). *)
Record Env := mkEnv {
  faults : list bool;
  clock : Z;
  readings : list Z;
}.

#[export] Instance eta_Env : Eta Env := λ e, mkEnv (faults e) (clock e) (readings e).

Definition quiet (now : Z) : Env := mkEnv [] now [].

Definition ST (S A : Type) : Type := S → Env → outcome A * S * Env.

#[export] Instance st_ret S : MRet (ST S) := λ A a s e, (Ok a, s, e).

#[export] Instance st_bind S : MBind (ST S) := λ A B k m s e,
  match m s e with
  | (Ok a, s', e') => k a s' e'
  | (Err x, s', e') => (Err x, s', e')
  end.

Definition st_fail {S A} (x : error) : ST S A := λ s e, (Err x, s, e).

Definition st_get {S} : ST S S := λ s e, (Ok s, s, e).

(** A computed result that may already be an error ([result?]). *)
Definition st_lift {S A} (o : outcome A) : ST S A := λ s e, (o, s, e).

Definition storage_error : error := ["storage error"%string].

(** Whether the next statement fails. *)
Definition next_fault (e : Env) : bool * Env :=
  match faults e with
  | [] => (false, e)
  | b :: fs => (b, e <| faults := fs |>)
  end.

(** One SQL statement: it fails without effect, or takes effect as a whole. *)
Definition stmt {S A} (f : S → A * S) : ST S A := λ s e,
  let '(b, e') := next_fault e in
  if b then (Err storage_error, s, e')
  else let '(a, s') := f s in (Ok a, s', e').

(** A statement that only reads. *)
Definition query {S A} (f : S → A) : ST S A := stmt (λ s, (f s, s)).

(** [Clock::now]: the next reading. *)
Definition clock_now {S} : ST S Z := λ s e,
  match readings e with
  | [] => (Ok (clock e), s, e)
  | t :: ts => (Ok t, s, mkEnv (faults e) t ts)
  end.

Fixpoint st_iter {S X} (f : X → ST S unit) (xs : list X) : ST S unit :=
  match xs with
  | [] => mret tt
  | x :: xs' => f x;; st_iter f xs'
  end.

(** Run a program on a part of the state. *)
Definition focus {S T A} (get : S → T) (put : T → S → S) (m : ST T A) : ST S A :=
  λ s e, match m (get s) e with (o, t, e') => (o, put t s, e') end.

(** ** Transactions *)

(** A transaction's working copy, and the state it has committed. *)
Record Tx (D : Type) := mkTx { committed : D; working : D }.
Arguments mkTx {D}. Arguments committed {D}. Arguments working {D}.

#[export] Instance eta_Tx {D} : Eta (Tx D) := λ t, mkTx (committed t) (working t).

(** Statements of a transaction act on its working copy. *)
Definition in_tx {D A} (m : ST D A) : ST (Tx D) A :=
  focus working (λ d t, t <| working := d |>) m.

(** [StorageProcessor::commit]. *)
Definition commit {D} : ST (Tx D) unit := stmt (λ t, (tt, t <| committed := working t |>)).

(** [start_immediate_transaction]: [BEGIN IMMEDIATE] can fail; dropping the
    transaction discards the uncommitted working copy. *)
Definition transaction {D A} (body : ST (Tx D) A) : ST D A := λ d e,
  let '(b, e1) := next_fault e in
  if b then (Err storage_error, d, e1)
  else match body (mkTx d d) e1 with (o, t, e2) => (o, committed t, e2) end.

(** ** Guarantees

    [guarantee Rel m]: whatever the environment does, the state after [m] is
    related to the state before. *)

Definition final {S A} (x : outcome A * S * Env) : S := x.1.2.

Definition guarantee {S A} (Rel : S → S → Prop) (m : ST S A) : Prop :=
  ∀ s e, Rel s (final (m s e)).

(** Preservation of an invariant, as a preorder. *)
Definition keeps {S} (I : S → Prop) (s s' : S) : Prop := I s → I s'.

#[export] Instance keeps_preorder {S} (I : S → Prop) : PreOrder (keeps I).
Proof. split; [by intros s H|]. intros s1 s2 s3 H1 H2 H. auto. Qed.

(** The state itself is unchanged. *)
Definition read_only {S A} (m : ST S A) : Prop := guarantee eq m.

Create HintDb guar discriminated.

Section Guarantee.
Context {S : Type} (Rel : S → S → Prop) `{!PreOrder Rel}.

Lemma guarantee_ret {A} (a : A) : guarantee Rel (mret a : ST S A).
Proof. intros s e. cbn. reflexivity. Qed.

Lemma guarantee_fail {A} x : guarantee Rel (st_fail (A := A) x).
Proof. intros s e. cbn. reflexivity. Qed.

Lemma guarantee_get : guarantee Rel st_get.
Proof. intros s e. cbn. reflexivity. Qed.

Lemma guarantee_lift {A} (o : outcome A) : guarantee Rel (st_lift o).
Proof. intros s e. cbn. reflexivity. Qed.

Lemma guarantee_clock : guarantee Rel clock_now.
Proof. intros s e. unfold clock_now. destruct (readings e); cbn; reflexivity. Qed.

Lemma guarantee_bind {A B} (m : ST S A) (k : A → ST S B) :
  guarantee Rel m → (∀ a, guarantee Rel (k a)) → guarantee Rel (m ≫= k).
Proof.
  intros Hm Hk s e. specialize (Hm s e). unfold mbind, st_bind, final in *.
  destruct (m s e) as [[[a|x] s'] e']; cbn in *; [|done].
  etrans; [exact Hm|apply Hk].
Qed.

Lemma guarantee_stmt {A} (f : S → A * S) :
  (∀ s, Rel s (f s).2) → guarantee Rel (stmt f).
Proof.
  intros Hf s e. unfold stmt. destruct (next_fault e) as [[] e']; cbn; [reflexivity|].
  specialize (Hf s). by destruct (f s).
Qed.

Lemma guarantee_query {A} (f : S → A) : guarantee Rel (query f).
Proof. apply guarantee_stmt. intros s. cbn. reflexivity. Qed.

Lemma guarantee_iter {X} (f : X → ST S unit) xs :
  (∀ x, x ∈ xs → guarantee Rel (f x)) → guarantee Rel (st_iter f xs).
Proof.
  induction xs as [|x xs IH]; cbn; intros H; [apply guarantee_ret|].
  apply guarantee_bind; [apply H; left|]. intros _. apply IH.
  intros y Hy. apply H. by right.
Qed.
End Guarantee.

Lemma guarantee_focus {S T A} (Rel : S → S → Prop) (RelT : T → T → Prop)
    (get : S → T) (put : T → S → S) (m : ST T A) :
  guarantee RelT m →
  (∀ s t, RelT (get s) t → Rel s (put t s)) →
  guarantee Rel (focus get put m).
Proof.
  intros Hm Hp s e. specialize (Hm (get s) e). unfold focus, final in *.
  destruct (m (get s) e) as [[o t] e']; cbn in *. by apply Hp.
Qed.

Lemma guarantee_weaken {S A} (R1 R2 : S → S → Prop) (m : ST S A) :
  (∀ s s', R1 s s' → R2 s s') → guarantee R1 m → guarantee R2 m.
Proof. intros H Hm s e. apply H, Hm. Qed.

Lemma read_only_guarantee {S A} (Rel : S → S → Prop) `{!Reflexive Rel} (m : ST S A) :
  read_only m → guarantee Rel m.
Proof. intros H s e. rewrite <- (H s e). reflexivity. Qed.

(** A program that first reads and then decides: its guarantee only concerns the
    decision for the state it read. *)
Lemma guarantee_bind_query {S A B} (Rel : S → S → Prop) `{!PreOrder Rel}
    (f : S → A) (k : A → ST S B) :
  (∀ s e, Rel s (final (k (f s) s e))) → guarantee Rel (query f ≫= k).
Proof.
  intros Hk s e. unfold query, stmt, mbind, st_bind.
  destruct (next_fault e) as [[] e']; cbn; [reflexivity|apply Hk].
Qed.

(** A transaction whose statements guarantee [Rel] guarantees [Rel], whether
    it commits, fails or is dropped. *)
Section TxGuarantee.
Context {D : Type} (Rel : D → D → Prop) `{!PreOrder Rel}.

(** Both copies stay [Rel]-reachable from the state the transaction began in. *)
Definition tx_rel (t t' : Tx D) : Prop :=
  ∀ d, Rel d (committed t) → Rel d (working t) →
    Rel d (committed t') ∧ Rel d (working t').

#[export] Instance tx_rel_preorder : PreOrder tx_rel.
Proof.
  split; [by intros t d|]. intros t1 t2 t3 H1 H2 d Hc Hw.
  destruct (H1 d Hc Hw). by apply H2.
Qed.

Lemma guarantee_in_tx {A} (m : ST D A) : guarantee Rel m → guarantee tx_rel (in_tx m).
Proof.
  intros Hm. eapply guarantee_focus; [exact Hm|]. intros t d' Hd d Hc Hw. cbn.
  split; [done|by etrans].
Qed.

Lemma guarantee_commit : guarantee tx_rel commit.
Proof. apply guarantee_stmt; [apply _|]. by intros t d Hc Hw. Qed.

Lemma guarantee_transaction {A} (body : ST (Tx D) A) :
  guarantee tx_rel body → guarantee Rel (transaction body).
Proof.
  intros Hb d e. unfold transaction. destruct (next_fault e) as [[] e1]; cbn; [reflexivity|].
  specialize (Hb (mkTx d d) e1 d). unfold final in Hb.
  destruct (body (mkTx d d) e1) as [[o t] e2]; cbn in *. apply Hb; reflexivity.
Qed.
End TxGuarantee.

#[export] Hint Resolve guarantee_ret guarantee_fail guarantee_get guarantee_lift
  guarantee_clock guarantee_query guarantee_commit : guar.

(** Split a program along its control flow and close the pieces the [guar]
    database knows. *)
Ltac guar_step :=
  match goal with
  | |- ∀ _, _ => intro
  | |- guarantee _ (_ ≫= _) => apply guarantee_bind; [try apply _| |intro]
  | |- guarantee _ (st_iter _ _) => apply guarantee_iter; [try apply _|intros ? ?]
  | |- guarantee _ (in_tx _) => apply guarantee_in_tx; [try apply _|]
  | |- guarantee _ (transaction _) => apply guarantee_transaction; [try apply _|]
  | |- guarantee _ (let '_ := ?x in _) => destruct x
  | |- guarantee _ (match ?x with _ => _ end) => destruct x
  | |- guarantee _ (if ?x then _ else _) => destruct x
  | |- guarantee _ _ => solve [eauto with guar typeclass_instances]
  end.

Ltac guar := repeat guar_step.

(** ** Assertions

    [hoare P m Q]: from a state that satisfies [P], whatever the environment
    does, the outcome and the state after [m] satisfy [Q]. *)

Definition hoare {S A} (P : S → Prop) (m : ST S A) (Q : outcome A → S → Prop) : Prop :=
  ∀ s e, P s → Q (m s e).1.1 (final (m s e)).

(** [on_ok Q]: [Q] holds of a success, [R] of a failure. *)
Definition on_ok {S A} (Q : A → S → Prop) (R : S → Prop) (o : outcome A) (s : S) : Prop :=
  match o with Ok a => Q a s | Err _ => R s end.

Section Hoare.
Context {S : Type}.
Implicit Types P R : S → Prop.

Lemma hoare_run {A} P (m : ST S A) Q s e o s' e' :
  hoare P m Q → P s → m s e = (o, s', e') → Q o s'.
Proof. intros Hm HP Heq. specialize (Hm s e HP). by rewrite Heq in Hm. Qed.

Lemma hoare_ret {A} P (a : A) (Q : outcome A → S → Prop) :
  (∀ s, P s → Q (Ok a) s) → hoare P (mret a) Q.
Proof. intros H s e HP. by apply H. Qed.

Lemma hoare_bind {A B} P (m : ST S A) (k : A → ST S B) (Mid : A → S → Prop)
    (Q : outcome B → S → Prop) :
  hoare P m (λ o s, match o with Ok a => Mid a s | Err x => Q (Err x) s end) →
  (∀ a, hoare (Mid a) (k a) Q) → hoare P (m ≫= k) Q.
Proof.
  intros Hm Hk s e HP. specialize (Hm s e HP). unfold mbind, st_bind, final in *.
  destruct (m s e) as [[[a|x] s'] e']; cbn in *; [by apply Hk|done].
Qed.

Lemma hoare_stmt {A} P (f : S → A * S) (Q : outcome A → S → Prop) :
  (∀ s, P s → Q (Err storage_error) s ∧ Q (Ok (f s).1) (f s).2) → hoare P (stmt f) Q.
Proof.
  intros H s e HP. destruct (H s HP) as [Hf Hok]. unfold stmt.
  destruct (next_fault e) as [[] e']; cbn; [done|]. by destruct (f s).
Qed.

Lemma hoare_query {A} P (f : S → A) (Q : outcome A → S → Prop) :
  (∀ s, P s → Q (Err storage_error) s ∧ Q (Ok (f s)) s) → hoare P (query f) Q.
Proof. intros H. apply hoare_stmt. exact H. Qed.

Lemma hoare_clock P (Q : outcome Z → S → Prop) :
  (∀ s now, P s → Q (Ok now) s) → hoare P clock_now Q.
Proof. intros H s e HP. unfold clock_now. destruct (readings e); cbn; by apply H. Qed.

Lemma hoare_lift {A} P (o : outcome A) (Q : outcome A → S → Prop) :
  (∀ s, P s → Q o s) → hoare P (st_lift o) Q.
Proof. intros H s e HP. by apply H. Qed.

Lemma hoare_fail {A} P x (Q : outcome A → S → Prop) :
  (∀ s, P s → Q (Err x) s) → hoare P (st_fail x) Q.
Proof. intros H s e HP. by apply H. Qed.

Lemma hoare_conseq {A} P P' (m : ST S A) (Q Q' : outcome A → S → Prop) :
  (∀ s, P' s → P s) → (∀ o s, Q o s → Q' o s) → hoare P m Q → hoare P' m Q'.
Proof. intros HP HQ Hm s e Hs. by apply HQ, Hm, HP. Qed.

Lemma hoare_and {A} P (m : ST S A) (Q1 Q2 : outcome A → S → Prop) :
  hoare P m Q1 → hoare P m Q2 → hoare P m (λ o s, Q1 o s ∧ Q2 o s).
Proof. intros H1 H2 s e HP. split; [by apply H1|by apply H2]. Qed.

Lemma hoare_guarantee {A} (Rel : S → S → Prop) `{!PreOrder Rel} (m : ST S A) s0 :
  guarantee Rel m → hoare (Rel s0) m (λ _ s, Rel s0 s).
Proof. intros Hm s e Hs. etrans; [exact Hs|apply Hm]. Qed.

Lemma hoare_focus {T A} (get : S → T) (put : T → S → S) (m : ST T A) P
    (Q : outcome A → S → Prop) :
  (∀ s0, P s0 → hoare (λ t, t = get s0) m (λ o t, Q o (put t s0))) →
  hoare P (focus get put m) Q.
Proof.
  intros H s e HP. specialize (H s HP (get s) e eq_refl). unfold focus, final in *.
  by destruct (m (get s) e) as [[o t] e'].
Qed.
End Hoare.

(** The run itself, as a postcondition. *)
Lemma hoare_self {S A} (m : ST S A) s0 :
  hoare (λ s, s = s0) m (λ o s, ∃ e1 e2, m s0 e1 = (o, s, e2)).
Proof. intros s e ->. exists e, (m s0 e).2. unfold final. by destruct (m s0 e) as [[o s'] e']. Qed.

(** A transaction that fails before its commit leaves the state alone. *)
Lemma hoare_transaction {D A} (P : D → Prop) (body : ST (Tx D) A) (Q : outcome A → D → Prop) :
  (∀ d, P d → Q (Err storage_error) d) →
  (∀ d, P d → hoare (λ t, t = mkTx d d) body (λ o t, Q o (committed t))) →
  hoare P (transaction body) Q.
Proof.
  intros Hf Hb d e HP. unfold transaction. destruct (next_fault e) as [[] e1]; cbn; [by apply Hf|].
  specialize (Hb d HP (mkTx d d) e1 eq_refl). unfold final in *.
  by destruct (body (mkTx d d) e1) as [[o t] e2].
Qed.

(** The common shape of a transaction: it leaves the state alone, or its
    statements all succeeded and their result is the new state. *)
Lemma transaction_whole {D A} (m : ST D A) (d : D) e o d' e' :
  transaction (r ← in_tx m; commit;; mret r) d e = (o, d', e') →
  d' = d ∧ (∃ x, o = Err x) ∨ ∃ r e1 e2, o = Ok r ∧ m d e1 = (Ok r, d', e2).
Proof.
  unfold transaction. destruct (next_fault e) as [[] e1]; [intros [= <- <- <-]; left; eauto|].
  unfold in_tx, focus, commit, mbind, st_bind. cbn.
  destruct (m d e1) as [[[r|x] d1] e2] eqn:Hm; cbn; [|intros [= <- <- <-]; left; eauto].
  unfold stmt. destruct (next_fault e2) as [[] e3]; cbn; intros [= <- <- <-]; [left; eauto|right].
  by exists r, e1, e2.
Qed.

(** ** Inverting a successful run *)

Section Inversion.
Context {S : Type}.

Lemma bind_inv {A B} (m : ST S A) (k : A → ST S B) s e b s' e' :
  (m ≫= k) s e = (Ok b, s', e') →
  ∃ a s1 e1, m s e = (Ok a, s1, e1) ∧ k a s1 e1 = (Ok b, s', e').
Proof.
  unfold mbind, st_bind. destruct (m s e) as [[[a|x] s1] e1]; [|done]. intros H. by exists a, s1, e1.
Qed.

Lemma stmt_inv {A} (f : S → A * S) s e a s' e' :
  stmt f s e = (Ok a, s', e') → f s = (a, s').
Proof.
  unfold stmt. destruct (next_fault e) as [[] e1]; [done|]. destruct (f s). by intros [= -> -> _].
Qed.

Lemma query_inv {A} (f : S → A) s e a s' e' :
  query f s e = (Ok a, s', e') → a = f s ∧ s' = s.
Proof. intros H%stmt_inv. by injection H as <- <-. Qed.

Lemma clock_inv s e a s' e' : clock_now (S := S) s e = (Ok a, s', e') → s' = s.
Proof. unfold clock_now. destruct (readings e); by intros [= _ -> _]. Qed.

Lemma focus_inv {T A} (get : S → T) (put : T → S → S) (m : ST T A) s e a s' e' :
  focus get put m s e = (Ok a, s', e') → ∃ t, m (get s) e = (Ok a, t, e') ∧ s' = put t s.
Proof.
  unfold focus. destruct (m (get s) e) as [[o t] e1]. intros [= -> <- ->]. by exists t.
Qed.
End Inversion.

(** Split a successful run of a sequence into the runs of its parts. *)
Ltac st_inv :=
  repeat match goal with
    | H : (_ ≫= _) _ _ = (Ok _, _, _) |- _ =>
        let a := fresh "a" in let s := fresh "s" in let e := fresh "e" in
        let H1 := fresh "H" in
        apply bind_inv in H; destruct H as (a & s & e & H1 & H)
    | H : mret _ _ _ = (Ok _, _, _) |- _ => injection H as ? ? ?; subst
    | H : st_ret _ _ _ _ _ = (Ok _, _, _) |- _ => injection H as ? ? ?; subst
    | H : clock_now _ _ = (Ok _, _, _) |- _ => apply clock_inv in H; subst
    end.

(** ** Runs without faults *)

Section Quiet.
Context {S : Type}.

Lemma stmt_ok {A} (f : S → A * S) s e :
  faults e = [] → stmt f s e = (Ok (f s).1, (f s).2, e).
Proof.
  intros He. unfold stmt, next_fault. rewrite He. by destruct (f s).
Qed.

Lemma query_ok {A} (f : S → A) s e : faults e = [] → query f s e = (Ok (f s), s, e).
Proof. intros He. unfold query. by rewrite stmt_ok. Qed.

(** A statement that fails leaves the state alone. *)
Lemma stmt_fault {A} (f : S → A * S) s e fs :
  faults e = true :: fs → stmt f s e = (Err storage_error, s, e <| faults := fs |>).
Proof. intros He. unfold stmt, next_fault. by rewrite He. Qed.
End Quiet.

(** ** Total correctness without faults

    [succeeds now P m Q]: with no statement failing and the clock standing at
    [now], [m] returns from every state of [P], in a state of [Q]. *)

Definition succeeds {S A} (now : Z) (P : S → Prop) (m : ST S A) (Q : A → S → Prop) : Prop :=
  ∀ s, P s → ∃ a s', m s (quiet now) = (Ok a, s', quiet now) ∧ Q a s'.

(** [m] never fails by itself. *)
Definition total {S A} (now : Z) (m : ST S A) : Prop :=
  succeeds now (λ _, True) m (λ _ _, True).

Create HintDb total discriminated.

Section Succeeds.
Context {S : Type} (now : Z).
Implicit Types P : S → Prop.

Lemma succeeds_ret {A} P (a : A) (Q : A → S → Prop) :
  (∀ s, P s → Q a s) → succeeds now P (mret a) Q.
Proof. intros H s HP. exists a, s. split; [done|auto]. Qed.

Lemma succeeds_bind {A B} P (m : ST S A) (k : A → ST S B) Mid Q :
  succeeds now P m Mid → (∀ a, succeeds now (Mid a) (k a) Q) → succeeds now P (m ≫= k) Q.
Proof.
  intros Hm Hk s HP. destruct (Hm s HP) as (a & s1 & Hr & HM).
  destruct (Hk a s1 HM) as (b & s2 & Hr2 & HQ). exists b, s2. split; [|done].
  unfold mbind, st_bind. by rewrite Hr.
Qed.

Lemma succeeds_stmt {A} P (f : S → A * S) (Q : A → S → Prop) :
  (∀ s, P s → Q (f s).1 (f s).2) → succeeds now P (stmt f) Q.
Proof. intros H s HP. exists (f s).1, (f s).2. split; [by rewrite stmt_ok|auto]. Qed.

Lemma succeeds_query {A} P (f : S → A) (Q : A → S → Prop) :
  (∀ s, P s → Q (f s) s) → succeeds now P (query f) Q.
Proof. intros H. by apply succeeds_stmt. Qed.

Lemma succeeds_clock P (Q : Z → S → Prop) :
  (∀ s, P s → Q now s) → succeeds now P clock_now Q.
Proof. intros H s HP. exists now, s. auto. Qed.

Lemma succeeds_lift {A} P (a : A) (Q : A → S → Prop) :
  (∀ s, P s → Q a s) → succeeds now P (st_lift (Ok a)) Q.
Proof. intros H s HP. exists a, s. split; [done|auto]. Qed.

Lemma succeeds_conseq {A} P P' (m : ST S A) (Q Q' : A → S → Prop) :
  (∀ s, P' s → P s) → (∀ a s, Q a s → Q' a s) → succeeds now P m Q → succeeds now P' m Q'.
Proof. intros HP HQ Hm s Hs. destruct (Hm s (HP s Hs)) as (a & s' & ? & ?). exists a, s'. auto. Qed.

(** A total program with a partial-correctness postcondition. *)
Lemma succeeds_total {A} P (m : ST S A) (Q : A → S → Prop) :
  total now m → (∀ s a s' e', P s → m s (quiet now) = (Ok a, s', e') → Q a s') →
  succeeds now P m Q.
Proof.
  intros Ht HQ s HP. destruct (Ht s I) as (a & s' & Hr & _). exists a, s'. split; [done|eauto].
Qed.

Lemma total_succeeds {A} P (m : ST S A) : total now m → succeeds now P m (λ _ _, True).
Proof. intros Hm s _. by apply Hm. Qed.

Lemma total_ret {A} (a : A) : total now (mret a : ST S A).
Proof. by apply succeeds_ret. Qed.

Lemma total_bind {A B} (m : ST S A) (k : A → ST S B) :
  total now m → (∀ a, total now (k a)) → total now (m ≫= k).
Proof. intros Hm Hk. by eapply succeeds_bind. Qed.

Lemma total_stmt {A} (f : S → A * S) : total now (stmt f).
Proof. by apply succeeds_stmt. Qed.

Lemma total_clock : total now (clock_now (S := S)).
Proof. by apply succeeds_clock. Qed.

Lemma total_iter {X} (f : X → ST S unit) xs :
  (∀ x, x ∈ xs → total now (f x)) → total now (st_iter f xs).
Proof.
  induction xs as [|x xs IH]; cbn; intros H; [apply total_ret|].
  apply total_bind; [apply H; left|]. intros _. apply IH. intros y Hy. apply H. by right.
Qed.

Lemma total_focus {T A} (get : S → T) (put : T → S → S) (m : ST T A) :
  total now m → total now (focus get put m).
Proof.
  intros Hm s _. destruct (Hm (get s) I) as (a & t & Hr & _). exists a, (put t s).
  split; [|done]. unfold focus. by rewrite Hr.
Qed.
End Succeeds.

Lemma succeeds_transaction {D A} now (P : D → Prop) (body : ST (Tx D) A) (Q : A → D → Prop) :
  (∀ d, P d → succeeds now (λ t, t = mkTx d d) body (λ a t, Q a (committed t))) →
  succeeds now P (transaction body) Q.
Proof.
  intros Hb d HP. destruct (Hb d HP (mkTx d d) eq_refl) as (a & t & Hr & HQ).
  exists a, (committed t). split; [|done]. unfold transaction. cbn. by rewrite Hr.
Qed.

(** A total program that preserves an invariant. *)
Lemma succeeds_keeps {S A} now (I : S → Prop) (m : ST S A) :
  total now m → guarantee (keeps I) m → succeeds now I m (λ _, I).
Proof.
  intros Ht Hg. apply succeeds_total; [done|]. intros s a s' e' HI Hr.
  specialize (Hg s (quiet now) HI). by rewrite Hr in Hg.
Qed.

Lemma succeeds_in_tx {D A} now (P : D → Prop) (m : ST D A) (Q : A → D → Prop) :
  succeeds now P m Q →
  succeeds now (λ t, P (working t)) (in_tx m) (λ a t, Q a (working t)).
Proof.
  intros Hm t HP. destruct (Hm (working t) HP) as (a & d & Hr & HQ).
  exists a, (t <| working := d |>). split; [|done]. unfold in_tx, focus. by rewrite Hr.
Qed.

Lemma succeeds_commit {D} now (Q : D → Prop) :
  succeeds now (λ t, Q (working t)) commit (λ _ t, Q (committed t)).
Proof. by apply succeeds_stmt. Qed.

Lemma total_transaction {D A} now (body : ST (Tx D) A) :
  total now body → total now (transaction body).
Proof.
  intros Hb. apply succeeds_transaction. intros d _.
  eapply succeeds_conseq; [..|exact Hb]; done.
Qed.

#[export] Hint Resolve total_ret total_stmt total_clock : total.

Ltac total_step :=
  match goal with
  | |- ∀ _, _ => intro
  | |- total _ (_ ≫= _) => apply total_bind; [|intro]
  | |- total _ (st_iter _ _) => apply total_iter; intros ? ?
  | |- total _ (in_tx _) => apply total_focus
  | |- total _ (transaction _) => apply total_transaction
  | |- total _ (let '_ := ?x in _) => destruct x
  | |- total _ (match ?x with _ => _ end) => destruct x
  | |- total _ (if ?x then _ else _) => destruct x
  | |- total _ (query _) => apply total_stmt
  | |- total _ commit => apply total_stmt
  | |- total _ _ => solve [eauto with total]
  end.

Ltac total := repeat total_step.

Create Rewrite HintDb storage.
#[export] Hint Rewrite @stmt_ok @query_ok using done : storage.
