(* ===== verification/EngineSchema.v ===== *)
(** * The engine's tables

    The rows of [engine_inbox], [engine_aggregate], [engine_aggregate_poison],
    [engine_outbox] and [engine_job], the arguments and results of the store's
    methods, and the database that holds the five tables next to the business
    tables [B] of the node.  A [TEXT] state column is the enumeration whose
    names it holds.

    Source: crates/store/src/engine/mod.rs (types),
    crates/store/migrations/20261015000000_schema.sql. *)

From stdpp Require Import base list strings gmap.
From S2P Require Import Prelude Table Storage.

Local Open Scope Z_scope.

(** ** States *)

Inductive EngineInboxState := InboxPending | InboxApplied | InboxFailed | InboxPoisoned.

Inductive EngineOutboxState := OutboxOpen | OutboxClosed.

Inductive EngineJobState :=
  JobPending | JobRunning | JobDone | JobFailed | JobCancelled | JobPoisoned.

#[export] Instance EngineInboxState_eq_dec : EqDecision EngineInboxState.
Proof. solve_decision. Defined.
#[export] Instance EngineOutboxState_eq_dec : EqDecision EngineOutboxState.
Proof. solve_decision. Defined.
#[export] Instance EngineJobState_eq_dec : EqDecision EngineJobState.
Proof. solve_decision. Defined.

(** The terminal states of a job: [IN ('Done', 'Failed', 'Cancelled', 'Poisoned')]. *)
Definition job_terminal (s : EngineJobState) : bool :=
  match s with
  | JobDone | JobFailed | JobCancelled | JobPoisoned => true
  | JobPending | JobRunning => false
  end.

(** ** Shard keys *)

Definition fnv_offset : Z := 0xcbf29ce484222325.
Definition fnv_prime : Z := 0x00000100000001b3.

Fixpoint fnv1a (hash : Z) (s : string) : Z :=
  match s with
  | EmptyString => hash
  | String c s' =>
      fnv1a (u64_wrapping_mul (Z.lxor hash (Z.of_N (Ascii.N_of_ascii c))) fnv_prime) s'
  end.

Definition engine_shard_key (aggregate_kind aggregate_id : string) : Z :=
  Z.shiftr (fnv1a fnv_offset (aggregate_kind +:+ ":" +:+ aggregate_id)) 1.

(** ** Inbox *)

Record EngineAckTarget := mkAckTarget { at_peer : string; at_delivery_id : string }.

Record NewEngineInboxEvent := mkNewInboxEvent {
  ni_event_id : string;
  ni_aggregate_kind : string;
  ni_aggregate_id : string;
  ni_kind : string;
  ni_source : string;
  ni_author : string;
  ni_admission_class : string;
  ni_payload : bytes;
  ni_ack : option EngineAckTarget;
}.

Inductive EngineInboxInsert :=
| InboxInserted (seq : Z)
| InboxDuplicate (state : EngineInboxState) (ack_again rearmed : bool).

Record EngineInboxEvent := mkInboxEvent {
  ib_seq : Z;
  ib_event_id : string;
  ib_aggregate_kind : string;
  ib_aggregate_id : string;
  ib_shard_key : Z;
  ib_kind : string;
  ib_source : string;
  ib_author : string;
  ib_admission_class : string;
  ib_payload : option bytes;
  ib_payload_size : Z;
  ib_state : EngineInboxState;
  ib_attempts : Z;
  ib_next_at : Z;
  ib_waiting_ref : option string;
  ib_waiting_detail : option string;
  ib_ack_peer : option string;
  ib_ack_delivery_id : option string;
  ib_last_error : option string;
  ib_created_at : Z;
  ib_updated_at : Z;
  ib_applied_at : option Z;
}.

#[export] Instance eta_EngineInboxEvent : Eta EngineInboxEvent := λ r,
  mkInboxEvent (ib_seq r) (ib_event_id r) (ib_aggregate_kind r) (ib_aggregate_id r)
    (ib_shard_key r) (ib_kind r) (ib_source r) (ib_author r) (ib_admission_class r)
    (ib_payload r) (ib_payload_size r) (ib_state r) (ib_attempts r) (ib_next_at r)
    (ib_waiting_ref r) (ib_waiting_detail r) (ib_ack_peer r) (ib_ack_delivery_id r)
    (ib_last_error r) (ib_created_at r) (ib_updated_at r) (ib_applied_at r).

(** [EngineInboxEvent::ack_target]. *)
Definition ack_target (e : EngineInboxEvent) : option EngineAckTarget :=
  match ib_ack_peer e, ib_ack_delivery_id e with
  | Some peer, Some delivery_id => Some (mkAckTarget peer delivery_id)
  | _, _ => None
  end.

(** ** Aggregates *)

Record EngineAggregate := mkAggregate {
  ag_aggregate_kind : string;
  ag_aggregate_id : string;
  ag_status : string;
  ag_phase : string;
  ag_state : option string;
  ag_version : Z;
  ag_last_event_id : option string;
  ag_created_at : Z;
  ag_updated_at : Z;
}.

#[export] Instance eta_EngineAggregate : Eta EngineAggregate := λ r,
  mkAggregate (ag_aggregate_kind r) (ag_aggregate_id r) (ag_status r) (ag_phase r)
    (ag_state r) (ag_version r) (ag_last_event_id r) (ag_created_at r) (ag_updated_at r).

(** [None] leaves a field alone; [Some None] clears an optional field. *)
Record EngineAggregateUpdate := mkAggregateUpdate {
  up_status : option string;
  up_phase : option string;
  up_state : option (option string);
  up_last_event_id : option string;
}.

Record EnginePoison := mkPoison {
  po_aggregate_kind : string;
  po_aggregate_id : string;
  po_action : string;
  po_reason : string;
  po_poison_count : Z;
  po_poisoned_at : Z;
  po_blocked_until : Z;
}.

#[export] Instance eta_EnginePoison : Eta EnginePoison := λ r,
  mkPoison (po_aggregate_kind r) (po_aggregate_id r) (po_action r) (po_reason r)
    (po_poison_count r) (po_poisoned_at r) (po_blocked_until r).

(** The table row has an [updated_at] column the struct leaves out. *)
Record PoisonRow := mkPoisonRow { pr_poison : EnginePoison; pr_updated_at : Z }.

#[export] Instance eta_PoisonRow : Eta PoisonRow := λ r,
  mkPoisonRow (pr_poison r) (pr_updated_at r).

Record EngineWaitingEvent := mkWaitingEvent {
  we_event_id : string;
  we_aggregate_kind : string;
  we_aggregate_id : string;
  we_kind : string;
  we_waiting_ref : string;
  we_waiting_detail : option string;
  we_next_at : Z;
  we_created_at : Z;
  we_updated_at : Z;
}.

(** ** Outbox *)

Record NewEngineOutboxMessage := mkNewOutboxMessage {
  no_outbox_id : string;
  no_aggregate_kind : string;
  no_aggregate_id : string;
  no_phase_ref : string;
  no_kind : string;
  no_topic : string;
  no_payload : bytes;
  no_ack_set : option (gmap string string);
  no_first_at : Z;
}.

(** The outbox columns; [T] is the type of [ack_set], JSON text in the table
    and a map from peer to delivery id once decoded. *)
Record OutboxColumns (T : Type) := mkOutbox {
  ob_outbox_id : string;
  ob_aggregate_kind : string;
  ob_aggregate_id : string;
  ob_phase_ref : string;
  ob_kind : string;
  ob_topic : string;
  ob_payload : bytes;
  ob_ack_set : option T;
  ob_state : EngineOutboxState;
  ob_close_reason : option string;
  ob_publish_count : Z;
  ob_next_at : Z;
  ob_lease_until : Z;
  ob_last_error : option string;
  ob_created_at : Z;
  ob_updated_at : Z;
  ob_closed_at : option Z;
}.
Arguments mkOutbox {T}.
Arguments ob_outbox_id {T}. Arguments ob_aggregate_kind {T}. Arguments ob_aggregate_id {T}.
Arguments ob_phase_ref {T}. Arguments ob_kind {T}. Arguments ob_topic {T}.
Arguments ob_payload {T}. Arguments ob_ack_set {T}. Arguments ob_state {T}.
Arguments ob_close_reason {T}. Arguments ob_publish_count {T}. Arguments ob_next_at {T}.
Arguments ob_lease_until {T}. Arguments ob_last_error {T}. Arguments ob_created_at {T}.
Arguments ob_updated_at {T}. Arguments ob_closed_at {T}.

#[export] Instance eta_OutboxColumns {T} : Eta (OutboxColumns T) := λ r,
  mkOutbox (ob_outbox_id r) (ob_aggregate_kind r) (ob_aggregate_id r) (ob_phase_ref r)
    (ob_kind r) (ob_topic r) (ob_payload r) (ob_ack_set r) (ob_state r)
    (ob_close_reason r) (ob_publish_count r) (ob_next_at r) (ob_lease_until r)
    (ob_last_error r) (ob_created_at r) (ob_updated_at r) (ob_closed_at r).

Abbreviation OutboxRow := (OutboxColumns string).
Abbreviation EngineOutboxMessage := (OutboxColumns (gmap string string)).

(** serde_json on [BTreeMap<String, String>]. *)
Class AckSetJson := {
  ack_set_json : gmap string string → outcome string;
  ack_set_from_str : string → outcome (gmap string string);
}.

(** What the outbox relies on: a printed set parses back to itself, the literal
    the store writes for the empty set is the empty set, and a delivery id of
    hexadecimal digits appears unescaped in the text of every set that maps
    some peer to it. *)
Class AckSetJsonLaws `{AckSetJson} (plain : string → Prop) := {
  ack_set_json_total : ∀ m, ∃ txt, ack_set_json m = Ok txt;
  ack_set_json_roundtrip : ∀ m txt, ack_set_json m = Ok txt → ack_set_from_str txt = Ok m;
  ack_set_json_empty : ack_set_from_str "{}" = Ok ∅;
  ack_set_json_contains : ∀ m txt peer d,
    plain d → ack_set_json m = Ok txt → m !! peer = Some d → contains d txt = true;
}.

(** [engine_outbox_message_from_row]. *)
Definition engine_outbox_message_from_row `{AckSetJson} (row : OutboxRow) :
    outcome EngineOutboxMessage :=
  let decoded ack := mkOutbox (ob_outbox_id row) (ob_aggregate_kind row)
    (ob_aggregate_id row) (ob_phase_ref row) (ob_kind row) (ob_topic row)
    (ob_payload row) ack (ob_state row) (ob_close_reason row) (ob_publish_count row)
    (ob_next_at row) (ob_lease_until row) (ob_last_error row) (ob_created_at row)
    (ob_updated_at row) (ob_closed_at row) in
  match ob_ack_set row with
  | Some json =>
      match ack_set_from_str json with
      | Ok m => Ok (decoded (Some m))
      | Err e => Err ("ack_set"%string :: e)
      end
  | None => Ok (decoded None)
  end.

Inductive EngineOutboxCloseTarget :=
| CloseRow (outbox_id : string)
| ClosePhase (aggregate_kind aggregate_id phase_ref : string)
| CloseAggregate (aggregate_kind aggregate_id : string).

Inductive EngineOutboxAck :=
| AckMatched (outbox_id : string) (closed : bool)
| AckNoMatch.

(** ** Jobs *)

Record NewEngineJob := mkNewJob {
  nj_job_id : string;
  nj_aggregate_kind : string;
  nj_aggregate_id : string;
  nj_phase : string;
  nj_action : string;
  nj_pool : string;
  nj_params : bytes;
  nj_deadline_at : option Z;
  nj_first_at : Z;
}.

Record EngineJob := mkJob {
  jb_job_id : string;
  jb_aggregate_kind : string;
  jb_aggregate_id : string;
  jb_phase : string;
  jb_action : string;
  jb_pool : string;
  jb_params : option bytes;
  jb_state : EngineJobState;
  jb_generation : Z;
  jb_lease_until : Z;
  jb_attempts : Z;
  jb_next_at : Z;
  jb_deadline_at : option Z;
  jb_cancel_requested : bool;
  jb_result : option bytes;
  jb_last_error : option string;
  jb_created_at : Z;
  jb_updated_at : Z;
  jb_finished_at : option Z;
}.

#[export] Instance eta_EngineJob : Eta EngineJob := λ r,
  mkJob (jb_job_id r) (jb_aggregate_kind r) (jb_aggregate_id r) (jb_phase r) (jb_action r)
    (jb_pool r) (jb_params r) (jb_state r) (jb_generation r) (jb_lease_until r)
    (jb_attempts r) (jb_next_at r) (jb_deadline_at r) (jb_cancel_requested r)
    (jb_result r) (jb_last_error r) (jb_created_at r) (jb_updated_at r) (jb_finished_at r).

Inductive EngineJobInsert :=
| JobInserted
| JobExisting (state : EngineJobState).

Definition is_inserted (i : EngineJobInsert) : bool :=
  match i with JobInserted => true | JobExisting _ => false end.

Inductive EngineJobFinish :=
| FinishDone (result : bytes)
| FinishRetry (error : string) (next_at : Z)
| FinishFailed (error : string)
| FinishPoisoned (error : string).

Inductive EngineJobFinishOutcome :=
| FinishApplied (state : EngineJobState)
| FinishStale (current_generation : Z) (state : EngineJobState)
| FinishMissing.

Record InboxClassUsage := mkClassUsage {
  cu_admission_class : string;
  cu_rows : Z;
  cu_bytes : Z;
  cu_peer_rows : Z;
  cu_peer_bytes : Z;
}.

Record EngineStateCount := mkStateCount {
  sc_table : string;
  sc_state : string;
  sc_count : Z;
}.

(** ** The database *)

Record Db (B : Type) := mkDb {
  engine_inbox : list EngineInboxEvent;
  (** the AUTOINCREMENT counter of [engine_inbox.seq] *)
  inbox_sequence : Z;
  engine_aggregate : list EngineAggregate;
  engine_aggregate_poison : list PoisonRow;
  engine_outbox : list OutboxRow;
  engine_job : list EngineJob;
  business : B;
}.
Arguments mkDb {B}. Arguments engine_inbox {B}. Arguments inbox_sequence {B}.
Arguments engine_aggregate {B}. Arguments engine_aggregate_poison {B}.
Arguments engine_outbox {B}. Arguments engine_job {B}. Arguments business {B}.

#[export] Instance eta_Db {B} : Eta (Db B) := λ d,
  mkDb (engine_inbox d) (inbox_sequence d) (engine_aggregate d)
    (engine_aggregate_poison d) (engine_outbox d) (engine_job d) (business d).

Definition empty_db {B} (b : B) : Db B := mkDb [] 0 [] [] [] [] b.

(** Keys of the tables with a composite primary key. *)
Definition ag_key (r : EngineAggregate) : string * string :=
  (ag_aggregate_kind r, ag_aggregate_id r).
Definition pr_key (r : PoisonRow) : string * string * string :=
  (po_aggregate_kind (pr_poison r), po_aggregate_id (pr_poison r), po_action (pr_poison r)).

(** ** The schema's constraints

    Every table's primary key is unique, [event_id] is unique, and no inbox row
    has a sequence number the counter has not reached. *)
Record schema_ok {B} (d : Db B) : Prop := {
  inbox_event_id_unique : NoDup (map ib_event_id (engine_inbox d));
  inbox_seq_unique : NoDup (map ib_seq (engine_inbox d));
  inbox_seq_bound : ∀ r, r ∈ engine_inbox d → ib_seq r ≤ inbox_sequence d;
  aggregate_key_unique : NoDup (map ag_key (engine_aggregate d));
  poison_key_unique : NoDup (map pr_key (engine_aggregate_poison d));
  outbox_id_unique : NoDup (map ob_outbox_id (engine_outbox d));
  job_id_unique : NoDup (map jb_job_id (engine_job d));
}.

Lemma empty_db_schema_ok {B} (b : B) : schema_ok (empty_db b).
Proof. split; cbn; try constructor. by intros r ?%not_elem_of_nil. Qed.

(** A shard key is a non-negative [i64], so [shard_key % K] is a shard index. *)
Lemma fnv1a_bounds s h : 0 ≤ h < 2 ^ 64 → 0 ≤ fnv1a h s < 2 ^ 64.
Proof.
  revert h. induction s as [|c s IH]; intros h Hh; cbn [fnv1a]; [done|].
  apply IH. unfold u64_wrapping_mul, u64_modulus. apply Z.mod_pos_bound. lia.
Qed.

Lemma engine_shard_key_bounds kind id : 0 ≤ engine_shard_key kind id < 2 ^ 63.
Proof.
  unfold engine_shard_key. rewrite Z.shiftr_div_pow2 by lia. change (2 ^ 1) with 2.
  pose proof (fnv1a_bounds (kind +:+ ":" +:+ id) fnv_offset).
  assert (0 ≤ fnv_offset < 2 ^ 64) by (unfold fnv_offset; lia).
  split; [apply Z.div_pos; lia|]. apply Z.div_lt_upper_bound; lia.
Qed.
