(* ===== verification/EngineNext.v ===== *)
(** * How rows of the engine's tables may change

    Every statement of the store other than the purges is a step of
    [engine_next]: the schema's constraints keep holding, no row disappears
    from the inbox, the aggregates, the outbox or the jobs, and each row moves
    along its table's transition relation.  The relations say what the engine
    relies on: a terminal inbox event and a closed outbox row never change
    again, a job that ended keeps its state and generation, generations only
    grow, a cancel request is never taken back, an aggregate's version never
    decreases. *)

From stdpp Require Import base list strings gmap.
From S2P Require Import Prelude Table Storage EngineSchema.

Local Open Scope Z_scope.

(** ** Inbox *)

Definition inbox_terminal (s : EngineInboxState) : bool :=
  match s with InboxApplied | InboxPoisoned => true | _ => false end.

(** What an inbox row always satisfies: an event loses its payload exactly when
    it is applied, only a pending event waits, and the shard key is the hash
    of the aggregate. *)
Record inbox_row_ok (r : EngineInboxEvent) : Prop := {
  ir_payload : ib_payload r = None ↔ ib_state r = InboxApplied;
  ir_waiting : is_Some (ib_waiting_ref r) → ib_state r = InboxPending;
  ir_waiting_detail : is_Some (ib_waiting_ref r) ↔ is_Some (ib_waiting_detail r);
  ir_applied_at : is_Some (ib_applied_at r) ↔ ib_state r = InboxApplied;
  ir_shard : ib_shard_key r = engine_shard_key (ib_aggregate_kind r) (ib_aggregate_id r);
  ir_attempts : 0 ≤ ib_attempts r;
  ir_ack : is_Some (ib_ack_peer r) ↔ is_Some (ib_ack_delivery_id r);
}.

Record inbox_next (r r' : EngineInboxEvent) : Prop := {
  in_identity :
    (ib_event_id r', ib_seq r', ib_aggregate_kind r', ib_aggregate_id r', ib_shard_key r',
     ib_kind r', ib_source r', ib_author r', ib_admission_class r', ib_payload_size r',
     ib_ack_peer r', ib_ack_delivery_id r', ib_created_at r') =
    (ib_event_id r, ib_seq r, ib_aggregate_kind r, ib_aggregate_id r, ib_shard_key r,
     ib_kind r, ib_source r, ib_author r, ib_admission_class r, ib_payload_size r,
     ib_ack_peer r, ib_ack_delivery_id r, ib_created_at r);
  in_terminal : inbox_terminal (ib_state r) = true → r' = r;
  in_payload : ib_payload r' = ib_payload r ∨ ib_state r' = InboxApplied;
  in_attempts : ib_attempts r ≤ ib_attempts r';
  in_row_ok : inbox_row_ok r → inbox_row_ok r';
}.

#[export] Instance inbox_next_preorder : PreOrder inbox_next.
Proof.
  split; [intros r; split; auto; lia|].
  intros a b c [I1 T1 P1 A1 O1] [I2 T2 P2 A2 O2]. split; [congruence| | |lia|auto].
  - intros Ht. specialize (T1 Ht). subst. auto.
  - destruct P2 as [P2|P2]; [|by right]. rewrite P2. destruct P1 as [P1|P1]; [by left|].
    right. assert (c = b) as ->; [|done]. apply T2. by rewrite P1.
Qed.

(** ** Jobs *)

(** What a job row always satisfies: every claim is one attempt and one
    generation, only a running job holds a lease, a job is finished exactly in
    a terminal state, a cancel request is never pending, and only a job that
    ended by its runner keeps a result. *)
Record job_row_ok (r : EngineJob) : Prop := {
  jo_attempts : jb_attempts r = jb_generation r ∧ 0 ≤ jb_generation r;
  jo_running : jb_state r = JobRunning → 0 < jb_generation r;
  jo_lease : jb_state r ≠ JobRunning → jb_lease_until r = 0;
  jo_finished : is_Some (jb_finished_at r) ↔ job_terminal (jb_state r) = true;
  jo_cancel : jb_cancel_requested r = true → jb_state r ≠ JobPending ∧ jb_state r ≠ JobDone;
  jo_result : is_Some (jb_result r) → jb_state r = JobDone ∨ jb_state r = JobCancelled;
}.

Record job_next (r r' : EngineJob) : Prop := {
  jn_identity :
    (jb_job_id r', jb_aggregate_kind r', jb_aggregate_id r', jb_phase r', jb_action r',
     jb_pool r', jb_deadline_at r', jb_created_at r') =
    (jb_job_id r, jb_aggregate_kind r, jb_aggregate_id r, jb_phase r, jb_action r,
     jb_pool r, jb_deadline_at r, jb_created_at r);
  jn_terminal : job_terminal (jb_state r) = true →
    (jb_state r', jb_generation r', jb_attempts r', jb_finished_at r') =
    (jb_state r, jb_generation r, jb_attempts r, jb_finished_at r) ∧
    (jb_result r' = jb_result r ∨ jb_result r' = None);
  jn_generation : jb_generation r ≤ jb_generation r';
  jn_claim : jb_state r' = JobRunning → jb_state r ≠ JobRunning →
    jb_generation r < jb_generation r';
  jn_cancel : jb_cancel_requested r = true →
    jb_cancel_requested r' = true ∧ (jb_state r' = JobDone → jb_state r = JobDone);
  jn_row_ok : job_row_ok r → job_row_ok r';
}.

#[export] Instance job_next_preorder : PreOrder job_next.
Proof.
  split; [intros r; split; auto; try lia; congruence|].
  intros a b c [I1 T1 G1 C1 D1 O1] [I2 T2 G2 C2 D2 O2]. split; [congruence| |lia| | |auto].
  - intros Ht. destruct (T1 Ht) as [E1 R1]. injection E1 as Es Eg Ea Ef.
    rewrite <- Es in Ht. destruct (T2 Ht) as [E2 R2]. injection E2 as Es2 Eg2 Ea2 Ef2.
    split; [congruence|]. destruct R1, R2; [left|right|right|right]; congruence.
  - intros Hc Ha. destruct (decide (jb_state b = JobRunning)) as [Hb|Hb].
    + specialize (C1 Hb Ha). lia.
    + specialize (C2 Hc Hb). lia.
  - intros Ha. destruct (D1 Ha) as [Hb Hd]. destruct (D2 Hb). auto.
Qed.

(** ** Outbox *)

(** What an outbox row always satisfies: a closed row has a reason, a time, no
    payload and no lease; an open one has neither reason nor time. *)
Record outbox_row_ok (r : OutboxRow) : Prop := {
  oo_reason : is_Some (ob_close_reason r) ↔ ob_state r = OutboxClosed;
  oo_closed_at : is_Some (ob_closed_at r) ↔ ob_state r = OutboxClosed;
  oo_payload : ob_state r = OutboxClosed → ob_payload r = ""%string ∧ ob_lease_until r = 0;
  oo_publish : 0 ≤ ob_publish_count r;
}.

Record outbox_next (r r' : OutboxRow) : Prop := {
  on_identity :
    (ob_outbox_id r', ob_aggregate_kind r', ob_aggregate_id r', ob_phase_ref r', ob_kind r',
     ob_topic r', ob_created_at r') =
    (ob_outbox_id r, ob_aggregate_kind r, ob_aggregate_id r, ob_phase_ref r, ob_kind r,
     ob_topic r, ob_created_at r);
  on_closed : ob_state r = OutboxClosed → r' = r;
  on_payload : ob_payload r' = ob_payload r ∨ ob_state r' = OutboxClosed;
  on_publish : ob_publish_count r ≤ ob_publish_count r';
  on_ack_set : is_Some (ob_ack_set r) → is_Some (ob_ack_set r');
  on_row_ok : outbox_row_ok r → outbox_row_ok r';
}.

#[export] Instance outbox_next_preorder : PreOrder outbox_next.
Proof.
  split; [intros r; split; auto; lia|].
  intros a b c [I1 T1 P1 A1 K1 O1] [I2 T2 P2 A2 K2 O2]. split; [congruence| | |lia| |auto].
  - intros Ht. specialize (T1 Ht). subst. auto.
  - destruct P2 as [P2|P2]; [|by right]. rewrite P2. destruct P1 as [P1|P1]; [by left|].
    right. by rewrite (T2 P1).
  - auto.
Qed.

(** ** Aggregates *)

Record aggregate_next (r r' : EngineAggregate) : Prop := {
  an_version : ag_version r ≤ ag_version r';
  an_created : ag_created_at r' = ag_created_at r;
}.

#[export] Instance aggregate_next_preorder : PreOrder aggregate_next.
Proof.
  split; [intros r; split; [lia|done]|].
  intros a b c [V1 C1] [V2 C2]. split; [lia|congruence].
Qed.

(** ** The database *)

Definition any_new {A} (r : A) : Prop := True.

Record tables_next {B} (d d' : Db B) : Prop := {
  tn_schema : schema_ok d';
  tn_inbox : evolves ib_event_id inbox_next inbox_row_ok (engine_inbox d) (engine_inbox d');
  tn_aggregate : evolves ag_key aggregate_next any_new (engine_aggregate d) (engine_aggregate d');
  tn_outbox : evolves ob_outbox_id outbox_next outbox_row_ok (engine_outbox d) (engine_outbox d');
  tn_job : evolves jb_job_id job_next job_row_ok (engine_job d) (engine_job d');
  tn_sequence : inbox_sequence d ≤ inbox_sequence d';
  tn_fresh : ∀ r, r ∈ engine_inbox d' → ib_seq r ≤ inbox_sequence d →
    ib_seq r ∈ map ib_seq (engine_inbox d);
}.

Definition engine_next {B} (d d' : Db B) : Prop := schema_ok d → tables_next d d'.

#[export] Instance inbox_evolves_preorder :
  PreOrder (evolves ib_event_id inbox_next inbox_row_ok).
Proof. apply evolves_preorder; [apply _|]. intros r r' H [_ _ _ _ Hok]. by apply Hok. Qed.
#[export] Instance outbox_evolves_preorder :
  PreOrder (evolves ob_outbox_id outbox_next outbox_row_ok).
Proof. apply evolves_preorder; [apply _|]. intros r r' H HR. by apply (on_row_ok _ _ HR). Qed.
#[export] Instance job_evolves_preorder : PreOrder (evolves jb_job_id job_next job_row_ok).
Proof. apply evolves_preorder; [apply _|]. intros r r' H HR. by apply (jn_row_ok _ _ HR). Qed.
#[export] Instance any_evolves_preorder {A K} (key : A → K) R `{!PreOrder R} :
  PreOrder (evolves key R any_new).
Proof. by apply evolves_preorder. Qed.

#[export] Instance engine_next_preorder {B} : PreOrder (@engine_next B).
Proof.
  split.
  - intros d H. split; try done; try reflexivity.
    intros r Hr _. apply In_map_iff. eauto.
  - intros d1 d2 d3 H12 H23 H1. specialize (H12 H1).
    destruct H12 as [S2 I2 A2 O2 J2 Q2 F2]. destruct (H23 S2) as [S3 I3 A3 O3 J3 Q3 F3].
    split; [done|by etrans|by etrans|by etrans|by etrans|lia|].
    intros r Hr Hle. specialize (F3 r Hr ltac:(lia)).
    apply In_map_iff in F3 as (x & Hx & Heq). rewrite Heq in *. by apply F2.
Qed.

(** The rows' invariant is kept along [engine_next]. *)
Record rows_ok {B} (d : Db B) : Prop := {
  inbox_ok : ∀ r, r ∈ engine_inbox d → inbox_row_ok r;
  outbox_ok : ∀ r, r ∈ engine_outbox d → outbox_row_ok r;
  job_ok : ∀ r, r ∈ engine_job d → job_row_ok r;
}.

(** An invariant of rows that new rows satisfy and transitions keep holds of
    every row of the table. *)
Lemma evolves_invariant {A K} (key : A → K) R (ok : A → Prop) t t' :
  (∀ r r', R r r' → ok r → ok r') → evolves key R ok t t' →
  (∀ r, r ∈ t → ok r) → ∀ r, r ∈ t' → ok r.
Proof.
  intros HR [Hrows _ _] Hok r' Hr'.
  destruct (Hrows _ Hr') as [(r & Hr & _ & Hn)|[Hnew _]]; [|done].
  eapply HR; [exact Hn|by apply Hok].
Qed.

Lemma engine_next_rows_ok {B} (d d' : Db B) :
  schema_ok d → engine_next d d' → rows_ok d → rows_ok d'.
Proof.
  intros Hs Hn [Hi Ho Hj]. destruct (Hn Hs) as [_ Ei _ Eo Ej _ _]. split.
  - eapply evolves_invariant; [|exact Ei|done]. intros r r' HR. apply (in_row_ok _ _ HR).
  - eapply evolves_invariant; [|exact Eo|done]. intros r r' HR. apply (on_row_ok _ _ HR).
  - eapply evolves_invariant; [|exact Ej|done]. intros r r' HR. apply (jn_row_ok _ _ HR).
Qed.

(** ** Statements as steps *)

Section Steps.
Context {B : Type}.
Implicit Types d : Db B.

(** A statement that leaves the inbox alone brings no unknown sequence number. *)
Lemma same_inbox_fresh d d' :
  engine_inbox d' = engine_inbox d →
  ∀ r, r ∈ engine_inbox d' → ib_seq r ≤ inbox_sequence d →
    ib_seq r ∈ map ib_seq (engine_inbox d).
Proof. intros -> r Hr _. apply In_map_iff. eauto. Qed.

Lemma next_update_inbox p f d :
  (∀ r, p r = true → inbox_next r (f r)) →
  engine_next d (d <| engine_inbox ::= update_where p f |>).
Proof.
  intros H Hs. pose proof Hs as [Hev Hsq Hb Ha Hp Ho Hj].
  assert (Hid : ∀ r, p r = true → ib_event_id (f r) = ib_event_id r ∧ ib_seq (f r) = ib_seq r).
  { intros r Hr. destruct (H r Hr) as [Heq _ _ _ _]. split; congruence. }
  split; cbn; try reflexivity; try (by apply same_inbox_fresh).
  - split; cbn; try done.
    + rewrite map_update_where; [done|]. intros r Hr. by destruct (Hid r Hr).
    + rewrite map_update_where; [done|]. intros r Hr. by destruct (Hid r Hr).
    + intros r' (r & Hr & ->)%elem_of_update_where.
      destruct (p r) eqn:E; [|auto]. destruct (Hid r E) as [_ ->]. auto.
  - apply evolves_update_where; [apply _|]. intros r _ Hr. split; [by destruct (Hid r Hr)|auto].
  - intros r' (r & Hr & ->)%elem_of_update_where _. apply In_map_iff. exists r.
    split; [done|]. destruct (p r) eqn:E; [|done]. by destruct (Hid r E).
Qed.

Lemma next_update_outbox p f d :
  (∀ r, p r = true → outbox_next r (f r)) →
  engine_next d (d <| engine_outbox ::= update_where p f |>).
Proof.
  intros H Hs. pose proof Hs as [Hev Hsq Hb Ha Hp Ho Hj].
  assert (Hid : ∀ r, p r = true → ob_outbox_id (f r) = ob_outbox_id r).
  { intros r Hr. destruct (H r Hr) as [Heq _ _ _ _ _]. congruence. }
  split; cbn; try reflexivity; try (by apply same_inbox_fresh).
  - split; cbn; try done. by rewrite map_update_where.
  - apply evolves_update_where; [apply _|]. auto.
Qed.

Lemma next_update_job p f d :
  (∀ r, r ∈ engine_job d → p r = true → job_next r (f r)) →
  engine_next d (d <| engine_job ::= update_where p f |>).
Proof.
  intros H Hs. pose proof Hs as [Hev Hsq Hb Ha Hp Ho Hj].
  assert (He : evolves jb_job_id job_next job_row_ok (engine_job d)
                 (update_where p f (engine_job d))).
  { apply evolves_update_where; [apply _|]. intros r Hr Hpr. split; [|auto].
    destruct (H r Hr Hpr) as [Heq _ _ _ _ _]. congruence. }
  split; cbn; try reflexivity; try (by apply same_inbox_fresh); [|done].
  split; cbn; try done. by destruct He as [_ _ Hn]; apply Hn.
Qed.

Lemma next_update_aggregate p f d :
  (∀ r, p r = true → ag_key (f r) = ag_key r ∧ aggregate_next r (f r)) →
  engine_next d (d <| engine_aggregate ::= update_where p f |>).
Proof.
  intros H Hs. pose proof Hs as [Hev Hsq Hb Ha Hp Ho Hj]. split; cbn; try reflexivity; try (by apply same_inbox_fresh).
  - split; cbn; try done. rewrite map_update_where; [done|]. intros r Hr. by apply H.
  - apply evolves_update_where; [apply _|]. intros r _ Hr. by apply H.
Qed.

(** Any change of the poison table that keeps its key unique. *)
Lemma next_poison t d :
  (NoDup (map pr_key (engine_aggregate_poison d)) → NoDup (map pr_key t)) →
  engine_next d (d <| engine_aggregate_poison := t |>).
Proof.
  intros H Hs. pose proof Hs as [Hev Hsq Hb Ha Hp Ho Hj]. split; cbn; try reflexivity; try (by apply same_inbox_fresh).
  split; cbn; try done. auto.
Qed.

Lemma next_insert_inbox conflict r d :
  inbox_row_ok r →
  (∀ x, conflict x = bool_decide (ib_event_id x = ib_event_id r)) →
  ib_seq r = inbox_sequence d + 1 →
  existsb conflict (engine_inbox d) = false →
  engine_next d (d <| engine_inbox := engine_inbox d ++ [r] |>
                   <| inbox_sequence := inbox_sequence d + 1 |>).
Proof.
  intros Hok Hc Hseq E [Hev Hsq Hb Ha Hp Ho Hj].
  assert (Hins : engine_inbox d ++ [r] =
                 (insert_or_ignore conflict r (engine_inbox d)).2)
    by (unfold insert_or_ignore; by rewrite E).
  assert (He : evolves ib_event_id inbox_next inbox_row_ok (engine_inbox d)
                 (engine_inbox d ++ [r])).
  { rewrite Hins. apply evolves_insert_or_ignore; [apply _|done|].
    intros x _ Hx. rewrite Hc. by apply bool_decide_eq_true_2. }
  split; cbn; try reflexivity; [|done|lia|]; cycle 1.
  { intros x [Hx| ->%list_elem_of_singleton]%elem_of_app Hle; [|lia].
    apply In_map_iff. eauto. }
  split; cbn; try done.
  - by destruct He as [_ _ Hn]; apply Hn.
  - rewrite map_app. apply NoDup_app. split_and!; [done| |apply NoDup_singleton].
    intros k (x & Hx & ->)%In_map_iff Hk%list_elem_of_singleton.
    specialize (Hb x Hx). cbn in Hk. lia.
  - intros x [Hx| ->%list_elem_of_singleton]%elem_of_app; [|lia].
    specialize (Hb x Hx). lia.
Qed.

Lemma next_insert_outbox conflict r d :
  outbox_row_ok r →
  (∀ x, conflict x = bool_decide (ob_outbox_id x = ob_outbox_id r)) →
  engine_next d
    (d <| engine_outbox := (insert_or_ignore conflict r (engine_outbox d)).2 |>).
Proof.
  intros Hnew Hc [Hev Hsq Hb Ha Hp Ho Hj].
  assert (He : evolves ob_outbox_id outbox_next outbox_row_ok (engine_outbox d)
                 (insert_or_ignore conflict r (engine_outbox d)).2).
  { apply evolves_insert_or_ignore; [apply _|done|].
    intros x _ Hx. rewrite Hc. by apply bool_decide_eq_true_2. }
  split; cbn; try reflexivity; try (by apply same_inbox_fresh); [|done].
  split; cbn; try done. by destruct He as [_ _ Hn]; apply Hn.
Qed.

Lemma next_insert_job conflict r d :
  job_row_ok r →
  (∀ x, conflict x = bool_decide (jb_job_id x = jb_job_id r)) →
  engine_next d (d <| engine_job := (insert_or_ignore conflict r (engine_job d)).2 |>).
Proof.
  intros Hnew Hc [Hev Hsq Hb Ha Hp Ho Hj].
  assert (He : evolves jb_job_id job_next job_row_ok (engine_job d)
                 (insert_or_ignore conflict r (engine_job d)).2).
  { apply evolves_insert_or_ignore; [apply _|done|].
    intros x _ Hx. rewrite Hc. by apply bool_decide_eq_true_2. }
  split; cbn; try reflexivity; try (by apply same_inbox_fresh); [|done].
  split; cbn; try done. by destruct He as [_ _ Hn]; apply Hn.
Qed.

Lemma next_insert_aggregate conflict r d :
  (∀ x, conflict x = bool_decide (ag_key x = ag_key r)) →
  engine_next d
    (d <| engine_aggregate := (insert_or_ignore conflict r (engine_aggregate d)).2 |>).
Proof.
  intros Hc [Hev Hsq Hb Ha Hp Ho Hj].
  assert (He : evolves ag_key aggregate_next any_new (engine_aggregate d)
                 (insert_or_ignore conflict r (engine_aggregate d)).2).
  { apply evolves_insert_or_ignore; [apply _|done|].
    intros x _ Hx. rewrite Hc. by apply bool_decide_eq_true_2. }
  split; cbn; try reflexivity; try (by apply same_inbox_fresh); [|done].
  split; cbn; try done. by destruct He as [_ _ Hn]; apply Hn.
Qed.

(** The business tables are the node's own. *)
Lemma next_business b d : engine_next d (d <| business := b |>).
Proof.
  intros [Hev Hsq Hb Ha Hp Ho Hj]. split; cbn; try reflexivity; try (by apply same_inbox_fresh). by split.
Qed.
End Steps.
