(* ===== verification/InboxStore.v ===== *)
(** * The inbox statements of the store

    [StorageProcessor]'s inbox methods, statement by statement, and the inbox
    part of the purges and the quota queries.

    Source: crates/store/src/engine/mod.rs, "inbox" and "quota" sections. *)

From stdpp Require Import base list strings gmap.
From S2P Require Import Prelude Table Storage EngineSchema EngineNext.

Local Open Scope Z_scope.

Section InboxStore.
Context {B : Type}.

(** [UPDATE engine_inbox SET f WHERE p], returning [rows_affected()]. *)
Definition inbox_update (p : EngineInboxEvent → bool)
    (f : EngineInboxEvent → EngineInboxEvent) : ST (Db B) Z :=
  stmt (λ d, (count_where p (engine_inbox d), d <| engine_inbox ::= update_where p f |>)).

Definition inbox_delete (p : EngineInboxEvent → bool) : ST (Db B) Z :=
  stmt (λ d, (count_where p (engine_inbox d), d <| engine_inbox ::= delete_where p |>)).

Definition has_event_id (event_id : string) (r : EngineInboxEvent) : bool :=
  bool_decide (ib_event_id r = event_id).

Definition in_inbox_state (s : EngineInboxState) (r : EngineInboxEvent) : bool :=
  bool_decide (ib_state r = s).

(** The row [insert_engine_inbox_event] inserts. *)
Definition new_inbox_row (event : NewEngineInboxEvent) (seq now : Z) : EngineInboxEvent :=
  let '(ack_peer, ack_delivery_id) :=
    match ni_ack event with
    | Some ack => (Some (at_peer ack), Some (at_delivery_id ack))
    | None => (None, None)
    end in
  {| ib_seq := seq;
     ib_event_id := ni_event_id event;
     ib_aggregate_kind := ni_aggregate_kind event;
     ib_aggregate_id := ni_aggregate_id event;
     ib_shard_key := engine_shard_key (ni_aggregate_kind event) (ni_aggregate_id event);
     ib_kind := ni_kind event;
     ib_source := ni_source event;
     ib_author := ni_author event;
     ib_admission_class := ni_admission_class event;
     ib_payload := Some (ni_payload event);
     ib_payload_size := Z.of_nat (String.length (ni_payload event));
     ib_state := InboxPending;
     ib_attempts := 0;
     ib_next_at := now;
     ib_waiting_ref := None;
     ib_waiting_detail := None;
     ib_ack_peer := ack_peer;
     ib_ack_delivery_id := ack_delivery_id;
     ib_last_error := None;
     ib_created_at := now;
     ib_updated_at := now;
     ib_applied_at := None |}.

(** [UPDATE .. SET state = 'Pending', ..] of a duplicate's failed row. *)
Definition rearm_failed_row (now : Z) (r : EngineInboxEvent) : EngineInboxEvent :=
  r <| ib_state := InboxPending |> <| ib_next_at := now |> <| ib_waiting_ref := None |>
    <| ib_waiting_detail := None |> <| ib_last_error := None |> <| ib_updated_at := now |>.

Definition insert_engine_inbox_event (event : NewEngineInboxEvent) (now : Z) :
    ST (Db B) EngineInboxInsert :=
  inserted ← stmt (λ d,
    let seq := inbox_sequence d + 1 in
    match insert_or_ignore (has_event_id (ni_event_id event))
            (new_inbox_row event seq now) (engine_inbox d) with
    | (true, t) => (Some seq, d <| engine_inbox := t |> <| inbox_sequence := seq |>)
    | (false, _) => (None, d)
    end);
  match inserted with
  | Some seq => mret (InboxInserted seq)
  | None =>
      existing ← query (λ d, select_one (has_event_id (ni_event_id event)) (engine_inbox d));
      match existing with
      | None => st_fail ["no rows returned by a query that expected one"%string]
      | Some row =>
          let state := ib_state row in
          rearmed ←
            (if bool_decide (state = InboxFailed) then
               n ← inbox_update
                     (λ r, has_event_id (ni_event_id event) r && in_inbox_state InboxFailed r)
                     (rearm_failed_row now);
               mret (0 <? n)
             else mret false);
          let ack_again :=
            match state with
            | InboxApplied => true
            | InboxPending => bool_decide (is_Some (ib_waiting_ref row))
            | InboxFailed | InboxPoisoned => false
            end in
          mret (InboxDuplicate state ack_again rearmed)
      end
  end.

Definition find_engine_inbox_event (event_id : string) :
    ST (Db B) (option EngineInboxEvent) :=
  query (λ d, select_one (has_event_id event_id) (engine_inbox d)).

(** An unexpired poison of this aggregate's action
    ([SELECT 1 FROM engine_aggregate_poison p WHERE ..]). *)
Definition poison_blocks (kind id action : string) (now : Z) (poisons : list PoisonRow) : bool :=
  existsb (λ p,
    bool_decide (po_aggregate_kind (pr_poison p) = kind) &&
    bool_decide (po_aggregate_id (pr_poison p) = id) &&
    bool_decide (po_action (pr_poison p) = action) &&
    (now <? po_blocked_until (pr_poison p))) poisons.

(** The [WHERE] clause of [next_runnable_engine_inbox_event]. *)
Definition runnable (d : Db B) (shard_count shard now : Z) (e : EngineInboxEvent) : bool :=
  in_inbox_state InboxPending e && (ib_next_at e <=? now) &&
  (Z.rem (ib_shard_key e) shard_count =? shard) &&
  negb (poison_blocks (ib_aggregate_kind e) (ib_aggregate_id e) (ib_kind e) now
          (engine_aggregate_poison d)).

Definition seq_leb (a b : EngineInboxEvent) : bool := ib_seq a <=? ib_seq b.

Definition next_runnable_engine_inbox_event (shard_count shard now : Z) :
    ST (Db B) (option EngineInboxEvent) :=
  query (λ d, head (limit 1 (order_by seq_leb
    (select_where (runnable d shard_count shard now) (engine_inbox d))))).

(** [WHERE event_id = ? AND state = 'Pending'] of every mark. *)
Definition pending_event (event_id : string) (r : EngineInboxEvent) : bool :=
  has_event_id event_id r && in_inbox_state InboxPending r.

Definition mark_engine_inbox_applied (event_id : string) (now : Z) : ST (Db B) bool :=
  n ← inbox_update (pending_event event_id) (λ r,
    r <| ib_state := InboxApplied |> <| ib_payload := None |> <| ib_waiting_ref := None |>
      <| ib_waiting_detail := None |> <| ib_last_error := None |>
      <| ib_applied_at := Some now |> <| ib_updated_at := now |>);
  mret (0 <? n).

Definition mark_engine_inbox_waiting (event_id waiting_ref waiting_detail : string)
    (next_at now : Z) : ST (Db B) bool :=
  n ← inbox_update (pending_event event_id) (λ r,
    r <| ib_waiting_ref := Some waiting_ref |> <| ib_waiting_detail := Some waiting_detail |>
      <| ib_next_at := next_at |> <| ib_updated_at := now |>);
  mret (0 <? n).

Definition mark_engine_inbox_retry (event_id error : string) (next_at now : Z) :
    ST (Db B) bool :=
  n ← inbox_update (pending_event event_id) (λ r,
    r <| ib_attempts ::= Z.succ |> <| ib_next_at := next_at |>
      <| ib_last_error := Some error |> <| ib_waiting_ref := None |>
      <| ib_waiting_detail := None |> <| ib_updated_at := now |>);
  mret (0 <? n).

Definition mark_engine_inbox_failed (event_id reason : string) (now : Z) : ST (Db B) bool :=
  n ← inbox_update (pending_event event_id) (λ r,
    r <| ib_state := InboxFailed |> <| ib_attempts ::= Z.succ |>
      <| ib_last_error := Some reason |> <| ib_waiting_ref := None |>
      <| ib_waiting_detail := None |> <| ib_updated_at := now |>);
  mret (0 <? n).

Definition mark_engine_inbox_poisoned (event_id reason : string) (now : Z) : ST (Db B) bool :=
  n ← inbox_update (pending_event event_id) (λ r,
    r <| ib_state := InboxPoisoned |> <| ib_attempts ::= Z.succ |>
      <| ib_last_error := Some reason |> <| ib_waiting_ref := None |>
      <| ib_waiting_detail := None |> <| ib_updated_at := now |>);
  mret (0 <? n).

(** [WHERE state = 'Pending' AND waiting_ref = ? AND next_at > ?]. *)
Definition waits_on (waiting_ref : string) (now : Z) (r : EngineInboxEvent) : bool :=
  in_inbox_state InboxPending r && bool_decide (ib_waiting_ref r = Some waiting_ref) &&
  (now <? ib_next_at r).

Definition run_now (now : Z) (r : EngineInboxEvent) : EngineInboxEvent :=
  r <| ib_next_at := now |> <| ib_updated_at := now |>.

Fixpoint wake_engine_inbox_waiting (refs : list string) (now : Z) : ST (Db B) Z :=
  match refs with
  | [] => mret 0
  | waiting_ref :: refs' =>
      pending ← query (λ d, count_where (waits_on waiting_ref now) (engine_inbox d));
      woken ← (if pending =? 0 then mret 0
               else inbox_update (waits_on waiting_ref now) (run_now now));
      rest ← wake_engine_inbox_waiting refs' now;
      mret (woken + rest)
  end.

Definition parked (now : Z) (r : EngineInboxEvent) : bool :=
  in_inbox_state InboxPending r && bool_decide (is_Some (ib_waiting_ref r)) &&
  (now <? ib_next_at r).

Definition rearm_engine_inbox_waiting (now : Z) : ST (Db B) Z :=
  pending ← query (λ d, count_where (parked now) (engine_inbox d));
  if pending =? 0 then mret 0 else inbox_update (parked now) (run_now now).

Definition rearm_engine_inbox_pending (now : Z) : ST (Db B) Z :=
  inbox_update (λ r, in_inbox_state InboxPending r && (now <? ib_next_at r)) (run_now now).

Definition list_engine_inbox_events_for_aggregate (kind id : string) (n : Z) :
    ST (Db B) (list EngineInboxEvent) :=
  query (λ d, limit n (order_by (λ a b, seq_leb b a) (select_where (λ r,
    bool_decide (ib_aggregate_kind r = kind) && bool_decide (ib_aggregate_id r = id))
    (engine_inbox d)))).

(** The inbox statement of [purge_engine_terminal_rows]. *)
Definition purge_inbox_terminal (before : Z) : ST (Db B) Z :=
  inbox_delete (λ r,
    (in_inbox_state InboxApplied r || in_inbox_state InboxFailed r ||
     in_inbox_state InboxPoisoned r) && (ib_updated_at r <? before)).

Definition purge_rejected_network_inbox_rows (before : Z) : ST (Db B) Z :=
  inbox_delete (λ r,
    bool_decide (ib_source r = "network"%string) && in_inbox_state InboxFailed r &&
    (ib_updated_at r <? before)).

Definition updated_seq_leb (a b : EngineInboxEvent) : bool :=
  (ib_updated_at a <? ib_updated_at b) ||
  ((ib_updated_at a =? ib_updated_at b) && (ib_seq a <=? ib_seq b)).

(** Parked events, oldest park first. *)
Definition list_engine_inbox_waiting (n : Z) : ST (Db B) (list EngineWaitingEvent) :=
  query (λ d, omap (λ r, waiting_ref ← ib_waiting_ref r;
      mret (mkWaitingEvent (ib_event_id r) (ib_aggregate_kind r) (ib_aggregate_id r)
        (ib_kind r) waiting_ref (ib_waiting_detail r) (ib_next_at r) (ib_created_at r)
        (ib_updated_at r)))
    (limit n (order_by updated_seq_leb (select_where (λ r,
       in_inbox_state InboxPending r && bool_decide (is_Some (ib_waiting_ref r)))
       (engine_inbox d))))).

(** ** Quota queries *)

(** Network events that still hold a payload. *)
Definition charged (r : EngineInboxEvent) : bool :=
  bool_decide (ib_source r = "network"%string) &&
  (in_inbox_state InboxPending r || in_inbox_state InboxFailed r ||
   in_inbox_state InboxPoisoned r).

Definition sum_sizes (rows : list EngineInboxEvent) : Z :=
  foldr (λ r acc, ib_payload_size r + acc) 0 rows.

(** [SELECT admission_class, COUNT( * ), SUM(payload_size) .. GROUP BY admission_class]. *)
Definition group_by_class (rows : list EngineInboxEvent) : list (string * Z * Z) :=
  map (λ c, let rs := select_where (λ r, bool_decide (ib_admission_class r = c)) rows in
            (c, Z.of_nat (length rs), sum_sizes rs))
      (remove_dups (map ib_admission_class rows)).

Definition engine_inbox_class_totals : ST (Db B) (list InboxClassUsage) :=
  query (λ d, map (λ '(c, n, bytes), mkClassUsage c n bytes 0 0)
    (group_by_class (select_where charged (engine_inbox d)))).

Definition engine_inbox_peer_usage (author : string) : ST (Db B) (list InboxClassUsage) :=
  query (λ d, map (λ '(c, n, bytes), mkClassUsage c 0 0 n bytes)
    (group_by_class (select_where (λ r, charged r && bool_decide (ib_author r = author))
       (engine_inbox d)))).

(** ** Every inbox statement is a step of [engine_next] *)

(** A change of a live row that keeps its identity is a legal transition. *)
Ltac solve_inbox_next Hstate :=
  split; cbn;
  [reflexivity
  |by rewrite Hstate
  |first [by left|by right]
  |lia
  |intros [Hi1 Hi2 Hi3 Hi4 Hi5 Hi6 Hi7]; split; cbn; rewrite ?Hstate in *; try lia;
   naive_solver].

Lemma inbox_update_next p (f : EngineInboxEvent → EngineInboxEvent) s :
  (∀ r, p r = true → ib_state r = s) →
  (∀ r, ib_state r = s → inbox_next r (f r)) →
  guarantee engine_next (inbox_update p f).
Proof.
  intros Hp Hf. apply guarantee_stmt; [apply _|]. intros d. cbn.
  apply next_update_inbox. auto.
Qed.

Lemma pending_event_state id r : pending_event id r = true → ib_state r = InboxPending.
Proof. unfold pending_event, in_inbox_state. intros H. by brefl. Qed.

Lemma waits_on_state w now r : waits_on w now r = true → ib_state r = InboxPending.
Proof. unfold waits_on, in_inbox_state. intros H. by brefl. Qed.

Lemma parked_state now r : parked now r = true → ib_state r = InboxPending.
Proof. unfold parked, in_inbox_state. intros H. by brefl. Qed.

Lemma run_now_next now r : ib_state r = InboxPending → inbox_next r (run_now now r).
Proof. intros Hs. solve_inbox_next Hs. Qed.

Lemma mark_engine_inbox_applied_next id now :
  guarantee engine_next (mark_engine_inbox_applied id now).
Proof.
  unfold mark_engine_inbox_applied. guar.
  eapply inbox_update_next; [apply pending_event_state|]. intros r Hs. solve_inbox_next Hs.
Qed.

Lemma mark_engine_inbox_waiting_next id w detail next_at now :
  guarantee engine_next (mark_engine_inbox_waiting id w detail next_at now).
Proof.
  unfold mark_engine_inbox_waiting. guar.
  eapply inbox_update_next; [apply pending_event_state|]. intros r Hs. solve_inbox_next Hs.
Qed.

Lemma mark_engine_inbox_retry_next id err next_at now :
  guarantee engine_next (mark_engine_inbox_retry id err next_at now).
Proof.
  unfold mark_engine_inbox_retry. guar.
  eapply inbox_update_next; [apply pending_event_state|]. intros r Hs. solve_inbox_next Hs.
Qed.

Lemma mark_engine_inbox_failed_next id reason now :
  guarantee engine_next (mark_engine_inbox_failed id reason now).
Proof.
  unfold mark_engine_inbox_failed. guar.
  eapply inbox_update_next; [apply pending_event_state|]. intros r Hs. solve_inbox_next Hs.
Qed.

Lemma mark_engine_inbox_poisoned_next id reason now :
  guarantee engine_next (mark_engine_inbox_poisoned id reason now).
Proof.
  unfold mark_engine_inbox_poisoned. guar.
  eapply inbox_update_next; [apply pending_event_state|]. intros r Hs. solve_inbox_next Hs.
Qed.

Lemma wake_engine_inbox_waiting_next refs now :
  guarantee engine_next (wake_engine_inbox_waiting refs now).
Proof.
  induction refs as [|w refs IH]; cbn; guar.
  eapply inbox_update_next; [apply waits_on_state|apply run_now_next].
Qed.

Lemma rearm_engine_inbox_waiting_next now :
  guarantee engine_next (rearm_engine_inbox_waiting now).
Proof.
  unfold rearm_engine_inbox_waiting. guar.
  eapply inbox_update_next; [apply parked_state|apply run_now_next].
Qed.

Lemma rearm_engine_inbox_pending_next now :
  guarantee engine_next (rearm_engine_inbox_pending now).
Proof.
  eapply inbox_update_next; [|apply run_now_next].
  unfold in_inbox_state. intros r H. by brefl.
Qed.

Lemma new_inbox_row_ok event seq now : inbox_row_ok (new_inbox_row event seq now).
Proof.
  unfold new_inbox_row. destruct (ni_ack event); split; cbn; try done; try lia;
    naive_solver.
Qed.

Lemma insert_engine_inbox_event_next event now :
  guarantee engine_next (insert_engine_inbox_event event now).
Proof.
  unfold insert_engine_inbox_event. guar.
  - apply guarantee_stmt; [apply _|]. intros d. unfold insert_or_ignore.
    destruct (existsb _ _) eqn:E; cbn; [reflexivity|].
    eapply next_insert_inbox; [apply new_inbox_row_ok| | |exact E].
    + intros x. unfold new_inbox_row. by destruct (ni_ack event).
    + unfold new_inbox_row. by destruct (ni_ack event).
  - eapply inbox_update_next.
    + intros r H. unfold in_inbox_state in H. brefl. eassumption.
    + intros r Hs. unfold rearm_failed_row. solve_inbox_next Hs.
Qed.
End InboxStore.

#[export] Hint Resolve mark_engine_inbox_applied_next mark_engine_inbox_waiting_next
  mark_engine_inbox_retry_next mark_engine_inbox_failed_next
  mark_engine_inbox_poisoned_next wake_engine_inbox_waiting_next
  rearm_engine_inbox_waiting_next rearm_engine_inbox_pending_next
  insert_engine_inbox_event_next : guar.
