(* ===== verification/OutboxStore.v ===== *)
(** * The aggregate, poison and outbox statements of the store

    The rows of the aggregates and of poisoned events; for the outbox: insert once, claim due rows under a lease, record publishes, close by row,
    phase or aggregate, and apply ACKs to the outstanding set of a row.

    Source: crates/store/src/engine/mod.rs, "aggregate" and "outbox" sections. *)

From stdpp Require Import base list strings gmap.
From S2P Require Import Prelude Table Storage EngineSchema EngineNext.

(** * The aggregate and poison statements of the store

    [upsert_engine_aggregate] and the poison bookkeeping: an action (a job
    action or an event kind) of an aggregate that panicked is held back until
    [blocked_until]; the count of consecutive poisons grows until a clean run
    or a manual clear removes the row.

    Source: crates/store/src/engine/mod.rs, "aggregate" section. *)

Local Open Scope Z_scope.

Section AggregateStore.
Context {B : Type}.

Definition is_aggregate (kind id : string) (r : EngineAggregate) : bool :=
  bool_decide (ag_aggregate_kind r = kind) && bool_decide (ag_aggregate_id r = id).

Definition find_engine_aggregate (kind id : string) : ST (Db B) (option EngineAggregate) :=
  query (λ d, select_one (is_aggregate kind id) (engine_aggregate d)).

(** [COALESCE(x, y)]. *)
Definition coalesce {A} (x : option A) (y : A) : A := default y x.

(** The [UPDATE] of [upsert_engine_aggregate]. *)
Definition updated_aggregate (update : EngineAggregateUpdate) (now : Z) (r : EngineAggregate) :
    EngineAggregate :=
  r <| ag_version ::= Z.succ |> <| ag_updated_at := now |>
    <| ag_status := coalesce (up_status update) (ag_status r) |>
    <| ag_phase := coalesce (up_phase update) (ag_phase r) |>
    <| ag_state := match up_state update with Some s => s | None => ag_state r end |>
    <| ag_last_event_id :=
         match up_last_event_id update with Some e => Some e | None => ag_last_event_id r end |>.

Definition new_aggregate_row (kind id : string) (now : Z) : EngineAggregate :=
  {| ag_aggregate_kind := kind; ag_aggregate_id := id; ag_status := ""; ag_phase := "";
     ag_state := None; ag_version := 0; ag_last_event_id := None;
     ag_created_at := now; ag_updated_at := now |}.

Definition upsert_engine_aggregate (kind id : string) (update : EngineAggregateUpdate)
    (now : Z) : ST (Db B) EngineAggregate :=
  stmt (λ d, (tt, d <| engine_aggregate :=
    (insert_or_ignore (is_aggregate kind id) (new_aggregate_row kind id now)
       (engine_aggregate d)).2 |>));;
  stmt (λ d, (tt, d <| engine_aggregate ::=
    update_where (is_aggregate kind id) (updated_aggregate update now) |>));;
  found ← find_engine_aggregate kind id;
  match found with
  | Some row => mret row
  | None => st_fail [("engine aggregate " +:+ kind +:+ ":" +:+ id +:+ " vanished")%string]
  end.

(** ** Poison *)

Definition is_poison (kind id action : string) (r : PoisonRow) : bool :=
  bool_decide (po_aggregate_kind (pr_poison r) = kind) &&
  bool_decide (po_aggregate_id (pr_poison r) = id) &&
  bool_decide (po_action (pr_poison r) = action).

(** [INSERT .. ON CONFLICT(aggregate_kind, aggregate_id, action) DO UPDATE ..
    RETURNING poison_count]. *)
Definition upsert_poison (kind id action reason : string) (now : Z) (t : list PoisonRow) :
    Z * list PoisonRow :=
  let bump r :=
    r <| pr_poison := (pr_poison r) <| po_reason := reason |>
                        <| po_poison_count ::= Z.succ |> <| po_poisoned_at := now |> |>
      <| pr_updated_at := now |> in
  match select_one (is_poison kind id action) t with
  | Some r => (Z.succ (po_poison_count (pr_poison r)), update_where (is_poison kind id action) bump t)
  | None => (1, t ++ [mkPoisonRow (mkPoison kind id action reason 1 now now) now])
  end.

Definition mark_engine_aggregate_poisoned (kind id action reason : string) (now : Z)
    (backoff_secs : Z → Z) : ST (Db B) EnginePoison :=
  poison_count ← stmt (λ d,
    let '(n, t) := upsert_poison kind id action reason now (engine_aggregate_poison d) in
    (n, d <| engine_aggregate_poison := t |>));
  let blocked_until := i64_saturating_add now (Z.max (backoff_secs poison_count) 0) in
  stmt (λ d, (tt, d <| engine_aggregate_poison ::= update_where (is_poison kind id action)
    (λ r, r <| pr_poison ::= (λ p, p <| po_blocked_until := blocked_until |>) |>) |>));;
  mret (mkPoison kind id action reason poison_count now blocked_until).

Definition release_engine_poison (kind id action : string) : ST (Db B) bool :=
  n ← stmt (λ d, (count_where (is_poison kind id action) (engine_aggregate_poison d),
    d <| engine_aggregate_poison ::= delete_where (is_poison kind id action) |>));
  mret (0 <? n).

Definition clear_engine_aggregate_poison (kind id : string) (action : option string) :
    ST (Db B) Z :=
  let p r :=
    bool_decide (po_aggregate_kind (pr_poison r) = kind) &&
    bool_decide (po_aggregate_id (pr_poison r) = id) &&
    match action with
    | None => true
    | Some a => bool_decide (po_action (pr_poison r) = a)
    end in
  stmt (λ d, (count_where p (engine_aggregate_poison d),
    d <| engine_aggregate_poison ::= delete_where p |>)).

(** [ORDER BY poisoned_at, aggregate_kind, aggregate_id, action]; text compares
    by its bytes. *)
Definition then_by (c1 c2 : comparison) : comparison :=
  match c1 with Eq => c2 | _ => c1 end.

Definition poison_leb (a b : PoisonRow) : bool :=
  let a := pr_poison a in
  let b := pr_poison b in
  match then_by (Z.compare (po_poisoned_at a) (po_poisoned_at b))
         (then_by (String.compare (po_aggregate_kind a) (po_aggregate_kind b))
           (then_by (String.compare (po_aggregate_id a) (po_aggregate_id b))
             (String.compare (po_action a) (po_action b)))) with
  | Gt => false
  | _ => true
  end.

Definition list_engine_poisons (aggregate : option (string * string)) (n : Z) :
    ST (Db B) (list EnginePoison) :=
  query (λ d, limit n (map pr_poison (order_by poison_leb
    (select_where (λ r,
       match aggregate with
       | None => true
       | Some (kind, id) =>
           bool_decide (po_aggregate_kind (pr_poison r) = kind) &&
           bool_decide (po_aggregate_id (pr_poison r) = id)
       end) (engine_aggregate_poison d))))).

(** ** Steps *)

Lemma is_aggregate_key kind id r :
  is_aggregate kind id r = bool_decide (ag_key r = (kind, id)).
Proof.
  unfold is_aggregate, ag_key.
  destruct (decide (ag_aggregate_kind r = kind)), (decide (ag_aggregate_id r = id));
    subst; rewrite ?bool_decide_eq_true_2, ?bool_decide_eq_false_2 by congruence;
    cbn; symmetry; try apply bool_decide_eq_true_2; try apply bool_decide_eq_false_2; congruence.
Qed.

Lemma is_poison_key kind id action r :
  is_poison kind id action r = bool_decide (pr_key r = (kind, id, action)).
Proof.
  unfold is_poison, pr_key.
  destruct (decide (po_aggregate_kind (pr_poison r) = kind)),
    (decide (po_aggregate_id (pr_poison r) = id)),
    (decide (po_action (pr_poison r) = action));
    subst; rewrite ?bool_decide_eq_true_2, ?bool_decide_eq_false_2 by congruence;
    cbn; symmetry; try apply bool_decide_eq_true_2; try apply bool_decide_eq_false_2; congruence.
Qed.

Lemma upsert_engine_aggregate_next kind id update now :
  guarantee engine_next (upsert_engine_aggregate kind id update now).
Proof.
  unfold upsert_engine_aggregate, find_engine_aggregate. guar.
  - apply guarantee_stmt; [apply _|]. intros d. cbn. apply next_insert_aggregate.
    intros x. apply is_aggregate_key.
  - apply guarantee_stmt; [apply _|]. intros d. cbn. apply next_update_aggregate.
    intros r _. split; [done|]. split; cbn; [lia|done].
Qed.

Lemma upsert_poison_nodup kind id action reason now t :
  NoDup (map pr_key t) → NoDup (map pr_key (upsert_poison kind id action reason now t).2).
Proof.
  intros Hn. unfold upsert_poison, select_one.
  destruct (List.find _ t) as [r|] eqn:E; cbn; [by rewrite map_update_where|].
  rewrite map_app. apply NoDup_app. split_and!; [done| |apply NoDup_singleton].
  intros k (x & Hx & ->)%In_map_iff Hk%list_elem_of_singleton.
  rewrite find_none_elem in E. specialize (E x Hx). rewrite is_poison_key in E.
  apply bool_decide_eq_false in E. by apply E.
Qed.

Lemma mark_engine_aggregate_poisoned_next kind id action reason now backoff :
  guarantee engine_next (mark_engine_aggregate_poisoned kind id action reason now backoff).
Proof.
  unfold mark_engine_aggregate_poisoned. guar.
  - apply guarantee_stmt; [apply _|]. intros d.
    pose proof (upsert_poison_nodup kind id action reason now (engine_aggregate_poison d)) as Hn.
    destruct (upsert_poison _ _ _ _ _ _) as [n t]. cbn in *. by apply next_poison.
  - apply guarantee_stmt; [apply _|]. intros d. cbn. apply next_poison.
    intros Hn. by rewrite map_update_where.
Qed.

Lemma delete_poison_next p : guarantee engine_next (stmt (λ d : Db B,
  (count_where p (engine_aggregate_poison d),
   d <| engine_aggregate_poison ::= delete_where p |>))).
Proof.
  apply guarantee_stmt; [apply _|]. intros d. cbn. apply next_poison. apply NoDup_map_filter.
Qed.

Lemma release_engine_poison_next kind id action :
  guarantee engine_next (release_engine_poison kind id action).
Proof. unfold release_engine_poison. guar. apply delete_poison_next. Qed.

Lemma clear_engine_aggregate_poison_next kind id action :
  guarantee engine_next (clear_engine_aggregate_poison kind id action).
Proof. apply delete_poison_next. Qed.

Lemma find_engine_aggregate_next kind id :
  guarantee engine_next (find_engine_aggregate kind id).
Proof. unfold find_engine_aggregate. guar. Qed.
End AggregateStore.

#[export] Hint Resolve upsert_engine_aggregate_next mark_engine_aggregate_poisoned_next
  release_engine_poison_next clear_engine_aggregate_poison_next
  find_engine_aggregate_next : guar.

(** * The outbox statements of the store *)

Local Open Scope Z_scope.

Section OutboxStore.
Context {B : Type} `{AckSetJson}.

Definition outbox_update (p : OutboxRow → bool) (f : OutboxRow → OutboxRow) : ST (Db B) Z :=
  stmt (λ d, (count_where p (engine_outbox d), d <| engine_outbox ::= update_where p f |>)).

Definition has_outbox_id (outbox_id : string) (r : OutboxRow) : bool :=
  bool_decide (ob_outbox_id r = outbox_id).

Definition is_open (r : OutboxRow) : bool := bool_decide (ob_state r = OutboxOpen).

Definition new_outbox_row (message : NewEngineOutboxMessage) (ack_set : option string)
    (now : Z) : OutboxRow :=
  {| ob_outbox_id := no_outbox_id message;
     ob_aggregate_kind := no_aggregate_kind message;
     ob_aggregate_id := no_aggregate_id message;
     ob_phase_ref := no_phase_ref message;
     ob_kind := no_kind message;
     ob_topic := no_topic message;
     ob_payload := no_payload message;
     ob_ack_set := ack_set;
     ob_state := OutboxOpen;
     ob_close_reason := None;
     ob_publish_count := 0;
     ob_next_at := no_first_at message;
     ob_lease_until := 0;
     ob_last_error := None;
     ob_created_at := now;
     ob_updated_at := now;
     ob_closed_at := None |}.

Definition insert_engine_outbox_message (message : NewEngineOutboxMessage) (now : Z) :
    ST (Db B) bool :=
  ack_set ← match no_ack_set message with
            | Some m => json ← st_lift (ack_set_json m); mret (Some json)
            | None => mret None
            end;
  stmt (λ d,
    let '(inserted, t) := insert_or_ignore (has_outbox_id (no_outbox_id message))
      (new_outbox_row message ack_set now) (engine_outbox d) in
    (inserted, d <| engine_outbox := t |>)).

Definition find_engine_outbox_message (outbox_id : string) :
    ST (Db B) (option EngineOutboxMessage) :=
  row ← query (λ d, select_one (has_outbox_id outbox_id) (engine_outbox d));
  match row with
  | Some row => m ← st_lift (engine_outbox_message_from_row row); mret (Some m)
  | None => mret None
  end.

(** [state = 'Open' AND next_at <= ? AND lease_until <= ?]. *)
Definition outbox_due (now : Z) (r : OutboxRow) : bool :=
  is_open r && (ob_next_at r <=? now) && (ob_lease_until r <=? now).

Definition outbox_order (a b : OutboxRow) : bool :=
  (ob_next_at a <? ob_next_at b) ||
  ((ob_next_at a =? ob_next_at b) && (ob_created_at a <=? ob_created_at b)).

(** [UPDATE .. SET lease_until WHERE outbox_id = ? AND .. RETURNING ..]. *)
Definition claim_outbox_row (outbox_id : string) (now lease_until : Z) :
    ST (Db B) (option OutboxRow) :=
  let p r := has_outbox_id outbox_id r && outbox_due now r in
  let f r := r <| ob_lease_until := lease_until |> <| ob_updated_at := now |> in
  stmt (λ d, (f <$> select_one p (engine_outbox d), d <| engine_outbox ::= update_where p f |>)).

Fixpoint claim_outbox_rows (candidates : list string) (now lease_until : Z) :
    ST (Db B) (list EngineOutboxMessage) :=
  match candidates with
  | [] => mret []
  | outbox_id :: rest =>
      row ← claim_outbox_row outbox_id now lease_until;
      match row with
      | Some row =>
          m ← st_lift (engine_outbox_message_from_row row);
          ms ← claim_outbox_rows rest now lease_until;
          mret (m :: ms)
      | None => claim_outbox_rows rest now lease_until
      end
  end.

Definition claim_due_engine_outbox_messages (now lease_until n : Z) :
    ST (Db B) (list EngineOutboxMessage) :=
  candidates ← query (λ d, map ob_outbox_id
    (limit n (order_by outbox_order (select_where (outbox_due now) (engine_outbox d)))));
  claim_outbox_rows candidates now lease_until.

Definition open_row (outbox_id : string) (r : OutboxRow) : bool :=
  has_outbox_id outbox_id r && is_open r.

Definition record_engine_outbox_publish (outbox_id : string) (next_at now : Z) :
    ST (Db B) bool :=
  n ← outbox_update (open_row outbox_id) (λ r,
    r <| ob_publish_count ::= Z.succ |> <| ob_next_at := next_at |> <| ob_lease_until := 0 |>
      <| ob_last_error := None |> <| ob_updated_at := now |>);
  mret (0 <? n).

Definition record_engine_outbox_publish_failure (outbox_id error : string) (next_at now : Z) :
    ST (Db B) bool :=
  n ← outbox_update (open_row outbox_id) (λ r,
    r <| ob_next_at := next_at |> <| ob_lease_until := 0 |> <| ob_last_error := Some error |>
      <| ob_updated_at := now |>);
  mret (0 <? n).

(** The rows a close targets. *)
Definition close_matches (target : EngineOutboxCloseTarget) (r : OutboxRow) : bool :=
  match target with
  | CloseRow outbox_id => has_outbox_id outbox_id r
  | ClosePhase kind id phase_ref =>
      bool_decide (ob_aggregate_kind r = kind) && bool_decide (ob_aggregate_id r = id) &&
      bool_decide (ob_phase_ref r = phase_ref)
  | CloseAggregate kind id =>
      bool_decide (ob_aggregate_kind r = kind) && bool_decide (ob_aggregate_id r = id)
  end.

Definition closed_row (reason : string) (now : Z) (r : OutboxRow) : OutboxRow :=
  r <| ob_state := OutboxClosed |> <| ob_payload := ""%string |>
    <| ob_close_reason := Some reason |> <| ob_closed_at := Some now |>
    <| ob_lease_until := 0 |> <| ob_updated_at := now |>.

Definition close_engine_outbox (target : EngineOutboxCloseTarget) (reason : string) (now : Z) :
    ST (Db B) Z :=
  outbox_update (λ r, close_matches target r && is_open r) (closed_row reason now).

(** One candidate of [acknowledge_engine_outbox]: [None] moves on to the next. *)
Definition acknowledge_row (peer delivery_id : string) (now : Z) (row : OutboxRow) :
    ST (Db B) (option EngineOutboxAck) :=
  message ← st_lift (engine_outbox_message_from_row row);
  match ob_ack_set message with
  | None => mret None
  | Some ack_set =>
      if bool_decide (ack_set !! peer = Some delivery_id) then
        let ack_set := delete peer ack_set in
        let closed := bool_decide (ack_set = ∅) in
        updated ←
          (if closed then
             outbox_update (open_row (ob_outbox_id message)) (λ r,
               (closed_row "acked" now r) <| ob_ack_set := Some "{}"%string |>)
           else
             json ← st_lift (ack_set_json ack_set);
             outbox_update (open_row (ob_outbox_id message)) (λ r,
               r <| ob_ack_set := Some json |> <| ob_updated_at := now |>));
        mret (if 0 <? updated then Some (AckMatched (ob_outbox_id message) closed) else None)
      else mret None
  end.

Fixpoint acknowledge_rows (peer delivery_id : string) (now : Z) (rows : list OutboxRow) :
    ST (Db B) EngineOutboxAck :=
  match rows with
  | [] => mret AckNoMatch
  | row :: rest =>
      r ← acknowledge_row peer delivery_id now row;
      match r with
      | Some ack => mret ack
      | None => acknowledge_rows peer delivery_id now rest
      end
  end.

(** [state = 'Open' AND ack_set IS NOT NULL AND instr(ack_set, ?) > 0]. *)
Definition ack_candidate (delivery_id : string) (r : OutboxRow) : bool :=
  is_open r &&
  match ob_ack_set r with Some txt => contains delivery_id txt | None => false end.

Definition acknowledge_engine_outbox (peer delivery_id : string) (now : Z) :
    ST (Db B) EngineOutboxAck :=
  candidates ← query (λ d, select_where (ack_candidate delivery_id) (engine_outbox d));
  acknowledge_rows peer delivery_id now candidates.

Definition reset_engine_outbox_leases : ST (Db B) Z :=
  outbox_update (λ r, is_open r && (0 <? ob_lease_until r)) (λ r, r <| ob_lease_until := 0 |>).

(** The outbox statement of [purge_engine_terminal_rows]. *)
Definition purge_outbox_closed (before : Z) : ST (Db B) Z :=
  let p (r : OutboxRow) :=
    bool_decide (ob_state r = OutboxClosed) && (ob_updated_at r <? before) in
  stmt (λ d, (count_where p (engine_outbox d), d <| engine_outbox ::= delete_where p |>)).

(** ** Steps *)

Lemma outbox_update_next p f :
  (∀ r, p r = true → is_open r = true) →
  (∀ r, ob_state r = OutboxOpen → outbox_next r (f r)) →
  guarantee engine_next (outbox_update p f).
Proof.
  intros Hp Hf. apply guarantee_stmt; [apply _|]. intros d. cbn.
  apply next_update_outbox. intros r Hr%Hp. unfold is_open in Hr. brefl. auto.
Qed.

Ltac solve_outbox_next Hstate :=
  split; cbn;
  [reflexivity|by rewrite Hstate|first [by left|by right]|lia|by auto
  |intros [Ho1 Ho2 Ho3 Ho4]; split; cbn; rewrite ?Hstate in *; try lia; naive_solver].

Lemma open_row_open id r : open_row id r = true → is_open r = true.
Proof. unfold open_row. intros Hr. by brefl. Qed.

Lemma new_outbox_row_ok message ack_set now : outbox_row_ok (new_outbox_row message ack_set now).
Proof. split; cbn; try done; try lia; naive_solver. Qed.

Lemma insert_engine_outbox_message_next message now :
  guarantee engine_next (insert_engine_outbox_message message now).
Proof.
  unfold insert_engine_outbox_message. guar.
  apply guarantee_stmt; [apply _|]. intros d.
  match goal with |- context [insert_or_ignore ?c ?r ?t] =>
    pose proof (next_insert_outbox c r d (new_outbox_row_ok _ _ _) (λ x, eq_refl)) as Hn;
    destruct (insert_or_ignore c r t) end.
  exact Hn.
Qed.

Lemma claim_outbox_row_next id now lease_until :
  guarantee engine_next (claim_outbox_row id now lease_until).
Proof.
  apply guarantee_stmt; [apply _|]. intros d. cbn. apply next_update_outbox.
  intros r Hr. unfold outbox_due, is_open in Hr. brefl.
  match goal with Hs : ob_state _ = _ |- _ => solve_outbox_next Hs end.
Qed.

Lemma claim_due_engine_outbox_messages_next now lease_until n :
  guarantee engine_next (claim_due_engine_outbox_messages now lease_until n).
Proof.
  unfold claim_due_engine_outbox_messages. guar.
  match goal with |- context [claim_outbox_rows ?c] => induction c as [|id c IH] end;
    cbn; guar; apply claim_outbox_row_next.
Qed.

Lemma record_engine_outbox_publish_next id next_at now :
  guarantee engine_next (record_engine_outbox_publish id next_at now).
Proof.
  unfold record_engine_outbox_publish. guar.
  apply outbox_update_next; [apply open_row_open|]. intros r Hs. solve_outbox_next Hs.
Qed.

Lemma record_engine_outbox_publish_failure_next id err next_at now :
  guarantee engine_next (record_engine_outbox_publish_failure id err next_at now).
Proof.
  unfold record_engine_outbox_publish_failure. guar.
  apply outbox_update_next; [apply open_row_open|]. intros r Hs. solve_outbox_next Hs.
Qed.

Lemma close_engine_outbox_next target reason now :
  guarantee engine_next (close_engine_outbox target reason now).
Proof.
  apply outbox_update_next; [intros r Hr; by brefl|]. intros r Hs. solve_outbox_next Hs.
Qed.

Lemma reset_engine_outbox_leases_next : guarantee engine_next reset_engine_outbox_leases.
Proof.
  apply outbox_update_next; [intros r Hr; by brefl|]. intros r Hs. solve_outbox_next Hs.
Qed.

Lemma acknowledge_row_next peer delivery_id now row :
  guarantee engine_next (acknowledge_row peer delivery_id now row).
Proof.
  unfold acknowledge_row. guar;
    (apply outbox_update_next; [apply open_row_open|]); intros r Hs; solve_outbox_next Hs.
Qed.

Lemma acknowledge_engine_outbox_next peer delivery_id now :
  guarantee engine_next (acknowledge_engine_outbox peer delivery_id now).
Proof.
  unfold acknowledge_engine_outbox. guar.
  match goal with |- context [acknowledge_rows _ _ _ ?c] => induction c as [|row c IH] end;
    cbn; guar; apply acknowledge_row_next.
Qed.
End OutboxStore.

#[export] Hint Resolve insert_engine_outbox_message_next
  claim_due_engine_outbox_messages_next record_engine_outbox_publish_next
  record_engine_outbox_publish_failure_next close_engine_outbox_next
  reset_engine_outbox_leases_next acknowledge_engine_outbox_next : guar.
