(* ===== verification/JobStore.v ===== *)
(** * The job statements of the store

    A job is claimed under a lease with a new generation; only the current
    generation of a running job may finish it.  Last, every method of the four
    stores returns when no statement fails.

    Source: crates/store/src/engine/mod.rs, "jobs" section. *)

From stdpp Require Import base list strings gmap.
From S2P Require Import Prelude Table Storage EngineSchema EngineNext InboxStore OutboxStore.

Local Open Scope Z_scope.

Section JobStore.
Context {B : Type}.

Definition job_update (p : EngineJob → bool) (f : EngineJob → EngineJob) : ST (Db B) Z :=
  stmt (λ d, (count_where p (engine_job d), d <| engine_job ::= update_where p f |>)).

Definition has_job_id (job_id : string) (r : EngineJob) : bool :=
  bool_decide (jb_job_id r = job_id).

Definition in_job_state (s : EngineJobState) (r : EngineJob) : bool :=
  bool_decide (jb_state r = s).

Definition new_job_row (job : NewEngineJob) (now : Z) : EngineJob :=
  {| jb_job_id := nj_job_id job;
     jb_aggregate_kind := nj_aggregate_kind job;
     jb_aggregate_id := nj_aggregate_id job;
     jb_phase := nj_phase job;
     jb_action := nj_action job;
     jb_pool := nj_pool job;
     jb_params := Some (nj_params job);
     jb_state := JobPending;
     jb_generation := 0;
     jb_lease_until := 0;
     jb_attempts := 0;
     jb_next_at := nj_first_at job;
     jb_deadline_at := nj_deadline_at job;
     jb_cancel_requested := false;
     jb_result := None;
     jb_last_error := None;
     jb_created_at := now;
     jb_updated_at := now;
     jb_finished_at := None |}.

Definition find_engine_job (job_id : string) : ST (Db B) (option EngineJob) :=
  query (λ d, select_one (has_job_id job_id) (engine_job d)).

Definition insert_engine_job (job : NewEngineJob) (now : Z) : ST (Db B) EngineJobInsert :=
  inserted ← stmt (λ d,
    let '(b, t) := insert_or_ignore (has_job_id (nj_job_id job)) (new_job_row job now)
                     (engine_job d) in
    (b, d <| engine_job := t |>));
  if inserted : bool then mret JobInserted
  else
    existing ← find_engine_job (nj_job_id job);
    match existing with
    | Some row => mret (JobExisting (jb_state row))
    | None => st_fail ["no rows returned by a query that expected one"%string]
    end.

(** ** Claims *)

(** [(state = 'Pending' AND next_at <= ?) OR
     (state = 'Running' AND lease_until <= ? AND cancel_requested = 0)]. *)
Definition job_due (now : Z) (j : EngineJob) : bool :=
  (in_job_state JobPending j && (jb_next_at j <=? now)) ||
  (in_job_state JobRunning j && (jb_lease_until j <=? now) && negb (jb_cancel_requested j)).

(** Whether a job runs under a live lease. *)
Definition job_live (now : Z) (r : EngineJob) : bool :=
  in_job_state JobRunning r && (now <? jb_lease_until r).

Definition same_aggregate (r j : EngineJob) : bool :=
  bool_decide (jb_aggregate_kind r = jb_aggregate_kind j) &&
  bool_decide (jb_aggregate_id r = jb_aggregate_id j).

(** [EXISTS (SELECT 1 FROM engine_job r WHERE ..)]: another job of the same
    aggregate runs under a live lease. *)
Definition aggregate_busy (jobs : list EngineJob) (now : Z) (j : EngineJob) : bool :=
  existsb (λ r, same_aggregate r j && negb (has_job_id (jb_job_id j) r) && job_live now r) jobs.

Definition claim_candidate (d : Db B) (pool : string) (now : Z) (j : EngineJob) : bool :=
  bool_decide (jb_pool j = pool) && job_due now j &&
  negb (poison_blocks (jb_aggregate_kind j) (jb_aggregate_id j) (jb_action j) now
          (engine_aggregate_poison d)) &&
  negb (aggregate_busy (engine_job d) now j).

Definition job_order (a b : EngineJob) : bool :=
  (jb_next_at a <? jb_next_at b) ||
  ((jb_next_at a =? jb_next_at b) && (jb_created_at a <=? jb_created_at b)).

Definition claimed_job (now lease_until : Z) (j : EngineJob) : EngineJob :=
  j <| jb_state := JobRunning |> <| jb_generation ::= Z.succ |>
    <| jb_lease_until := lease_until |> <| jb_attempts ::= Z.succ |> <| jb_updated_at := now |>.

(** The claiming [UPDATE .. WHERE job_id = ? AND .. RETURNING ..]. *)
Definition claim_guard (jobs : list EngineJob) (job_id : string) (now : Z) (j : EngineJob) : bool :=
  has_job_id job_id j && job_due now j && negb (aggregate_busy jobs now j).

Definition claim_job (job_id : string) (now lease_until : Z) : ST (Db B) (option EngineJob) :=
  stmt (λ d,
    let p := claim_guard (engine_job d) job_id now in
    let f := claimed_job now lease_until in
    (f <$> select_one p (engine_job d), d <| engine_job ::= update_where p f |>)).

Fixpoint claim_jobs (candidates : list string) (now lease_until : Z) :
    ST (Db B) (list EngineJob) :=
  match candidates with
  | [] => mret []
  | job_id :: rest =>
      row ← claim_job job_id now lease_until;
      rows ← claim_jobs rest now lease_until;
      mret (match row with Some row => row :: rows | None => rows end)
  end.

Definition claim_due_engine_jobs (pool : string) (now lease_until n : Z) :
    ST (Db B) (list EngineJob) :=
  candidates ← query (λ d, map jb_job_id
    (limit n (order_by job_order (select_where (claim_candidate d pool now) (engine_job d)))));
  claim_jobs candidates now lease_until.

(** ** Leases, completion, cancellation *)

(** [WHERE state = 'Running' AND lease_until <= ? AND cancel_requested = 1]. *)
Definition lapsed_cancelled (now : Z) (j : EngineJob) : bool :=
  in_job_state JobRunning j && (jb_lease_until j <=? now) && jb_cancel_requested j.

Definition cancelled_lapsed_row (now : Z) (j : EngineJob) : EngineJob :=
  j <| jb_state := JobCancelled |> <| jb_last_error := Some "cancelled"%string |>
    <| jb_lease_until := 0 |> <| jb_finished_at := Some now |> <| jb_updated_at := now |>.

Definition finish_lapsed_cancelled_engine_jobs (now : Z) : ST (Db B) (list EngineJob) :=
  stmt (λ d, (map (cancelled_lapsed_row now) (select_where (lapsed_cancelled now) (engine_job d)),
    d <| engine_job ::= update_where (lapsed_cancelled now) (cancelled_lapsed_row now) |>)).

(** [WHERE job_id = ? AND generation = ? AND state = 'Running']. *)
Definition held_by (job_id : string) (generation : Z) (j : EngineJob) : bool :=
  has_job_id job_id j && (jb_generation j =? generation) && in_job_state JobRunning j.

Definition renew_engine_job_lease (job_id : string) (generation lease_until now : Z) :
    ST (Db B) bool :=
  n ← job_update (held_by job_id generation) (λ j,
    j <| jb_lease_until := lease_until |> <| jb_updated_at := now |>);
  mret (0 <? n).

(** State, result, error and [next_at] a completion writes. *)
Definition finish_columns (cancel_requested : bool) (finish : EngineJobFinish) :
    EngineJobState * option bytes * option string * Z :=
  match finish with
  | FinishDone result =>
      if cancel_requested then (JobCancelled, Some result, None, 0)
      else (JobDone, Some result, None, 0)
  | FinishRetry error next_at =>
      if cancel_requested then (JobCancelled, None, Some "cancelled"%string, 0)
      else (JobPending, None, Some error, next_at)
  | FinishFailed error => (JobFailed, None, Some error, 0)
  | FinishPoisoned error => (JobPoisoned, None, Some error, 0)
  end.

Definition finished_job (state : EngineJobState) (result : option bytes)
    (error : option string) (next_at now : Z) (j : EngineJob) : EngineJob :=
  let finished_at :=
    match state with JobPending | JobRunning => None | _ => Some now end in
  j <| jb_state := state |> <| jb_result := result |> <| jb_last_error := error |>
    <| jb_next_at := next_at |> <| jb_lease_until := 0 |> <| jb_finished_at := finished_at |>
    <| jb_updated_at := now |>.

Definition finish_engine_job (job_id : string) (generation : Z) (finish : EngineJobFinish)
    (now : Z) : ST (Db B) EngineJobFinishOutcome :=
  found ← find_engine_job job_id;
  match found with
  | None => mret FinishMissing
  | Some current =>
      if negb (jb_generation current =? generation) || negb (in_job_state JobRunning current)
      then mret (FinishStale (jb_generation current) (jb_state current))
      else
        let '(state, result, error, next_at) :=
          finish_columns (jb_cancel_requested current) finish in
        updated ← job_update (held_by job_id generation)
                    (finished_job state result error next_at now);
        if updated =? 0 then mret (FinishStale (jb_generation current) (jb_state current))
        else mret (FinishApplied state)
  end.

Definition cancelled_pending_row (now : Z) (j : EngineJob) : EngineJob :=
  j <| jb_state := JobCancelled |> <| jb_finished_at := Some now |> <| jb_updated_at := now |>.

Definition cancel_flagged_row (now : Z) (j : EngineJob) : EngineJob :=
  j <| jb_cancel_requested := true |> <| jb_updated_at := now |>.

Definition cancel_engine_job (job_id : string) (now : Z) : ST (Db B) bool :=
  cancelled ← job_update (λ j, has_job_id job_id j && in_job_state JobPending j)
                (cancelled_pending_row now);
  if 0 <? cancelled then mret true
  else
    n ← job_update (λ j, has_job_id job_id j && in_job_state JobRunning j)
          (cancel_flagged_row now);
    mret (0 <? n).

Definition job_of (kind id : string) (j : EngineJob) : bool :=
  bool_decide (jb_aggregate_kind j = kind) && bool_decide (jb_aggregate_id j = id).

Definition cancel_engine_jobs_for_aggregate (kind id : string) (now : Z) : ST (Db B) Z :=
  pending ← job_update (λ j, job_of kind id j && in_job_state JobPending j)
              (cancelled_pending_row now);
  running ← job_update (λ j, job_of kind id j && in_job_state JobRunning j)
              (cancel_flagged_row now);
  mret (pending + running).

Definition clear_engine_job_result (job_id : string) (now : Z) : ST (Db B) bool :=
  n ← job_update (λ j, has_job_id job_id j && job_terminal (jb_state j)) (λ j,
    j <| jb_result := None |> <| jb_params := None |> <| jb_updated_at := now |>);
  mret (0 <? n).

Fixpoint cancel_jobs (ids : list string) (now : Z) : ST (Db B) Z :=
  match ids with
  | [] => mret 0
  | job_id :: rest =>
      c ← cancel_engine_job job_id now;
      n ← cancel_jobs rest now;
      mret (if c : bool then 1 + n else n)
  end.

Definition cancel_engine_jobs_for_phase (kind id phase : string) (now : Z) : ST (Db B) Z :=
  rows ← query (λ d, map jb_job_id (select_where (λ j,
    job_of kind id j && bool_decide (jb_phase j = phase) &&
    (in_job_state JobPending j || in_job_state JobRunning j)) (engine_job d)));
  cancel_jobs rows now.

Definition list_engine_jobs_for_aggregate (kind id : string) : ST (Db B) (list EngineJob) :=
  query (λ d, order_by (λ a b, jb_created_at a <=? jb_created_at b)
    (select_where (job_of kind id) (engine_job d))).

Definition reset_engine_job_leases : ST (Db B) Z :=
  job_update (λ j, in_job_state JobRunning j && (0 <? jb_lease_until j))
    (λ j, j <| jb_lease_until := 0 |>).

(** The job statement of [purge_engine_terminal_rows]. *)
Definition purge_jobs_terminal (before : Z) : ST (Db B) Z :=
  let p j := job_terminal (jb_state j) && (jb_updated_at j <? before) in
  stmt (λ d, (count_where p (engine_job d), d <| engine_job ::= delete_where p |>)).

(** ** Steps *)

Ltac solve_job_next :=
  split; cbn;
  [reflexivity
  |intros Ht; try (split; [reflexivity|by auto]);
   exfalso; repeat match goal with Hs : jb_state _ = _ |- _ => rewrite Hs in Ht; clear Hs end;
   discriminate
  |lia
  |intros ??; try lia; congruence
  |by intros
  |intros [Hj1 Hj2 Hj3 Hj4 Hj5 Hj6]; split; cbn;
   repeat match goal with Hs : jb_state _ = _ |- _ => rewrite ?Hs in *; clear Hs end;
   try lia; naive_solver].

Lemma job_update_next p f :
  (∀ r, p r = true → job_next r (f r)) → guarantee engine_next (job_update p f).
Proof.
  intros Hf. apply guarantee_stmt; [apply _|]. intros d. cbn.
  apply next_update_job. intros r _. apply Hf.
Qed.

Lemma new_job_row_ok job now : job_row_ok (new_job_row job now).
Proof. split; cbn; try done; try lia; naive_solver. Qed.

Lemma insert_engine_job_next job now : guarantee engine_next (insert_engine_job job now).
Proof.
  unfold insert_engine_job, find_engine_job. guar.
  apply guarantee_stmt; [apply _|]. intros d.
  match goal with |- context [insert_or_ignore ?c ?r ?t] =>
    pose proof (next_insert_job c r d (new_job_row_ok _ _) (λ x, eq_refl)) as Hn;
    destruct (insert_or_ignore c r t) end.
  exact Hn.
Qed.

Lemma claimed_job_next now lease_until j :
  job_due now j = true → job_next j (claimed_job now lease_until j).
Proof.
  unfold job_due, in_job_state. intros Hd. brefl. destruct Hd as [Hd|Hd]; brefl; solve_job_next.
Qed.

Lemma claim_job_next id now lease_until : guarantee engine_next (claim_job id now lease_until).
Proof.
  apply guarantee_stmt; [apply _|]. intros d. cbn. apply next_update_job.
  intros r _ Hr. unfold claim_guard in Hr. brefl. by apply claimed_job_next.
Qed.

Lemma claim_due_engine_jobs_next pool now lease_until n :
  guarantee engine_next (claim_due_engine_jobs pool now lease_until n).
Proof.
  unfold claim_due_engine_jobs. guar.
  match goal with |- context [claim_jobs ?c] => induction c as [|id c IH] end;
    cbn; guar; apply claim_job_next.
Qed.

Lemma finish_lapsed_cancelled_engine_jobs_next now :
  guarantee engine_next (finish_lapsed_cancelled_engine_jobs now).
Proof.
  apply guarantee_stmt; [apply _|]. intros d. cbn. apply next_update_job.
  intros r _ Hr. unfold lapsed_cancelled, in_job_state in Hr. brefl. solve_job_next.
Qed.

Lemma held_by_running id g j : held_by id g j = true → jb_state j = JobRunning.
Proof. unfold held_by, in_job_state. intros Hh. by brefl. Qed.

Lemma renew_engine_job_lease_next id g lease_until now :
  guarantee engine_next (renew_engine_job_lease id g lease_until now).
Proof.
  unfold renew_engine_job_lease. guar. apply job_update_next.
  intros r Hr%held_by_running. solve_job_next.
Qed.

Lemma cancelled_pending_row_next now j :
  jb_state j = JobPending → job_next j (cancelled_pending_row now j).
Proof. intros Hs. solve_job_next. Qed.

Lemma cancel_flagged_row_next now j :
  jb_state j = JobRunning → job_next j (cancel_flagged_row now j).
Proof. intros Hs. solve_job_next. Qed.

Lemma cancel_engine_job_next id now : guarantee engine_next (cancel_engine_job id now).
Proof.
  unfold cancel_engine_job, in_job_state. guar; apply job_update_next; intros r Hr; brefl;
    auto using cancelled_pending_row_next, cancel_flagged_row_next.
Qed.

Lemma cancel_engine_jobs_for_aggregate_next kind id now :
  guarantee engine_next (cancel_engine_jobs_for_aggregate kind id now).
Proof.
  unfold cancel_engine_jobs_for_aggregate, in_job_state. guar; apply job_update_next;
    intros r Hr; brefl; auto using cancelled_pending_row_next, cancel_flagged_row_next.
Qed.

Lemma cancel_engine_jobs_for_phase_next kind id phase now :
  guarantee engine_next (cancel_engine_jobs_for_phase kind id phase now).
Proof.
  unfold cancel_engine_jobs_for_phase. guar.
  match goal with |- context [cancel_jobs ?c] => induction c as [|j c IH] end;
    cbn; guar; apply cancel_engine_job_next.
Qed.

Lemma clear_engine_job_result_next id now :
  guarantee engine_next (clear_engine_job_result id now).
Proof.
  unfold clear_engine_job_result. guar. apply job_update_next. intros r Hr. brefl.
  split; cbn; [reflexivity|by auto|lia|congruence|by auto|].
  intros [Hj1 Hj2 Hj3 Hj4 Hj5 Hj6]. split; cbn; naive_solver.
Qed.

Lemma reset_engine_job_leases_next : guarantee engine_next reset_engine_job_leases.
Proof.
  apply job_update_next. unfold in_job_state. intros r Hr. brefl. solve_job_next.
Qed.

Lemma find_engine_job_next id : guarantee engine_next (find_engine_job id).
Proof. unfold find_engine_job. guar. Qed.

Lemma finish_columns_cancelled cancel finish st res err next_at :
  finish_columns cancel finish = (st, res, err, next_at) → cancel = true → st ≠ JobDone.
Proof. intros Hf ->. destruct finish; cbn in Hf; congruence. Qed.

Lemma finish_columns_not_running cancel finish st res err next_at :
  finish_columns cancel finish = (st, res, err, next_at) → st ≠ JobRunning.
Proof. intros Hf. destruct finish, cancel; cbn in Hf; congruence. Qed.

Lemma finished_job_ok finish st res err next_at now j :
  finish_columns (jb_cancel_requested j) finish = (st, res, err, next_at) →
  job_row_ok j → job_row_ok (finished_job st res err next_at now j).
Proof.
  intros Hf [Hj1 Hj2 Hj3 Hj4 Hj5 Hj6].
  destruct finish, (jb_cancel_requested j) eqn:Hc; cbn in Hf; injection Hf as <- <- <- <-;
    split; cbn; rewrite ?Hc; try lia; naive_solver.
Qed.

Lemma finish_engine_job_next id g finish now :
  guarantee engine_next (finish_engine_job id g finish now).
Proof.
  unfold finish_engine_job, find_engine_job. apply guarantee_bind_query; [apply _|].
  intros d e. unfold select_one. destruct (List.find _ _) as [cur|] eqn:Hcur; [|cbn; reflexivity].
  destruct (_ || _) eqn:E; [cbn; reflexivity|].
  destruct (finish_columns _ _) as [[[st res] err] next_at] eqn:Hf.
  assert (Hn : engine_next d (d <| engine_job ::=
            update_where (held_by id g) (finished_job st res err next_at now) |>)).
  { intros Hs. apply next_update_job; [|done]. intros r Hr Hh.
    apply find_some_elem in Hcur as [Hin Hid].
    assert (r = cur) as ->.
    { unfold held_by, has_job_id in *. brefl.
      apply (NoDup_map_inj jb_job_id (engine_job d)); [apply Hs|done|done|congruence]. }
    pose proof (held_by_running _ _ _ Hh) as Hrun.
    split; cbn; [done|by rewrite Hrun|lia| | |].
    3: { by apply (finished_job_ok _ _ _ _ _ _ _ Hf). }
    - intros Hst. by apply finish_columns_not_running in Hf.
    - intros Hc. split; [done|]. intros Hst. by apply finish_columns_cancelled in Hf. }
  unfold job_update, mbind, st_bind, stmt.
  destruct (next_fault e) as [[] e']; cbn; [reflexivity|].
  by destruct (_ =? 0); cbn.
Qed.
End JobStore.

#[export] Hint Resolve insert_engine_job_next claim_due_engine_jobs_next
  finish_lapsed_cancelled_engine_jobs_next renew_engine_job_lease_next
  finish_engine_job_next cancel_engine_job_next cancel_engine_jobs_for_aggregate_next
  cancel_engine_jobs_for_phase_next clear_engine_job_result_next
  reset_engine_job_leases_next find_engine_job_next : guar.

(** * The store's methods return

    With no statement failing, every method of the store returns: the paths
    that report a missing row after a conflicting insert or an upsert are
    unreachable.

    Source: crates/store/src/engine/mod.rs. *)

Local Open Scope Z_scope.

(** A row that conflicts with an insert can be selected. *)
Lemma insert_conflict_found {A} (p : A → bool) r t t' :
  insert_or_ignore p r t = (false, t') → ∃ x, select_one p t = Some x ∧ x ∈ t ∧ p x = true.
Proof.
  unfold insert_or_ignore. destruct (existsb p t) eqn:E; [|done]. intros _.
  apply existsb_elem in E as (y & Hy & Hp).
  destruct (find_is_some p t y Hy Hp) as [x Hx]. exists x. split; [done|].
  by apply find_some_elem.
Qed.

(** An updated row is still selected when the update keeps the condition. *)
Lemma update_found {A} (p : A → bool) f t x :
  (∀ r, p r = true → p (f r) = true) → x ∈ t → p x = true →
  ∃ y, select_one p (update_where p f t) = Some y.
Proof.
  intros Hf Hx Hp. apply (find_is_some p _ (f x)); [|auto].
  apply elem_of_update_where. exists x. by rewrite Hp.
Qed.

Section Total.
Context {B : Type} (now0 : Z).

Lemma inbox_update_total p f : total now0 (inbox_update (B := B) p f).
Proof. apply total_stmt. Qed.
Lemma outbox_update_total p f : total now0 (outbox_update (B := B) p f).
Proof. apply total_stmt. Qed.
Lemma job_update_total p f : total now0 (job_update (B := B) p f).
Proof. apply total_stmt. Qed.
#[local] Hint Resolve inbox_update_total outbox_update_total job_update_total : total.

Lemma insert_engine_inbox_event_total event now :
  total now0 (insert_engine_inbox_event (B := B) event now).
Proof.
  unfold insert_engine_inbox_event.
  apply (succeeds_bind _ _ _ _ (λ ins (d : Db B), ins = None →
    ∃ x, select_one (has_event_id (ni_event_id event)) (engine_inbox d) = Some x)).
  - apply succeeds_stmt. intros d _.
    destruct (insert_or_ignore _ _ _) as [[] t] eqn:E; cbn; [done|]. intros _.
    destruct (insert_conflict_found _ _ _ _ E) as (x & Hx & _). eauto.
  - intros [seq|]; [by apply succeeds_ret|].
    apply (succeeds_bind _ _ _ _ (λ row _, is_Some row)).
    + apply succeeds_query. intros d Hd. by apply Hd.
    + intros [row|]; [|by intros d []]. apply total_succeeds. total.
Qed.

Lemma insert_engine_job_total job now : total now0 (insert_engine_job (B := B) job now).
Proof.
  unfold insert_engine_job, find_engine_job.
  apply (succeeds_bind _ _ _ _ (λ ins (d : Db B), ins = false →
    ∃ x, select_one (has_job_id (nj_job_id job)) (engine_job d) = Some x)).
  - apply succeeds_stmt. intros d _.
    destruct (insert_or_ignore _ _ _) as [[] t] eqn:E; cbn; [done|]. intros _.
    destruct (insert_conflict_found _ _ _ _ E) as (x & Hx & _). exists x.
    unfold insert_or_ignore in E. destruct (existsb _ _); [|done]. by injection E as <-.
  - intros []; [by apply succeeds_ret|].
    apply (succeeds_bind _ _ _ _ (λ row _, is_Some row)).
    + apply succeeds_query. intros d Hd. by apply Hd.
    + intros [row|]; [|by intros d []]. by apply succeeds_ret.
Qed.

Lemma insert_or_ignore_found {A} (p : A → bool) r t :
  p r = true → ∃ x, x ∈ (insert_or_ignore p r t).2 ∧ p x = true.
Proof.
  intros Hr. unfold insert_or_ignore. destruct (existsb p t) eqn:E; cbn.
  - apply existsb_elem in E as (x & Hx & Hp). eauto.
  - exists r. split; [|done]. apply elem_of_app. right. by apply list_elem_of_singleton.
Qed.

Lemma upsert_engine_aggregate_total kind id update now :
  total now0 (upsert_engine_aggregate (B := B) kind id update now).
Proof.
  unfold upsert_engine_aggregate, find_engine_aggregate.
  apply (succeeds_bind _ _ _ _ (λ _ (d : Db B),
    ∃ x, x ∈ engine_aggregate d ∧ is_aggregate kind id x = true)).
  { apply succeeds_stmt. intros d _. apply insert_or_ignore_found.
    unfold is_aggregate. cbn. by rewrite !bool_decide_eq_true_2. }
  intros _. apply (succeeds_bind _ _ _ _ (λ _ (d : Db B),
    ∃ x, select_one (is_aggregate kind id) (engine_aggregate d) = Some x)).
  { apply succeeds_stmt. intros d (x & Hx & Hp). by eapply update_found. }
  intros _. apply (succeeds_bind _ _ _ _ (λ row _, is_Some row)).
  { apply succeeds_query. intros d (x & Hx). by rewrite Hx. }
  intros [row|]; [|by intros d []]. by apply succeeds_ret.
Qed.

Lemma wake_engine_inbox_waiting_total refs now :
  total now0 (wake_engine_inbox_waiting (B := B) refs now).
Proof. induction refs as [|r refs IH]; cbn; total. Qed.

Lemma cancel_jobs_total ids now : total now0 (cancel_jobs (B := B) ids now).
Proof. induction ids as [|i ids IH]; cbn; unfold cancel_engine_job; total. Qed.

Section Outbox.
Context `{AckSetJsonLaws plain}.

Lemma insert_engine_outbox_message_total message now :
  total now0 (insert_engine_outbox_message (B := B) message now).
Proof.
  unfold insert_engine_outbox_message.
  apply total_bind; [|intro; total].
  destruct (no_ack_set message) as [set|]; [|total].
  destruct (ack_set_json_total set) as [txt Ht]. rewrite Ht.
  apply total_bind; [by apply succeeds_lift|intro; total].
Qed.
End Outbox.
End Total.

#[export] Hint Resolve inbox_update_total outbox_update_total job_update_total
  insert_engine_inbox_event_total insert_engine_job_total upsert_engine_aggregate_total
  wake_engine_inbox_waiting_total cancel_jobs_total insert_engine_outbox_message_total : total.
