(* ===== verification/EngineConfig.v ===== *)
(** * Engine configuration and retry schedules

    Source: crates/engine/src/config.rs. *)

From stdpp Require Import base list strings sorting.
From S2P Require Import Prelude.

Local Open Scope Z_scope.

(** ** Backoff *)

Inductive Backoff :=
| Steps (steps : list Z)
| Doubling (base cap : Z).

(** [usize::try_from(n).unwrap_or(usize::MAX).min(bound)] for [n >= 0]. *)
Definition clamped_index (n : Z) (bound : nat) : nat := Nat.min (Z.to_nat n) bound.

(** [u32::try_from(attempt - 1).unwrap_or(u32::MAX).min(30)]. *)
Definition doubling_shift (attempt : Z) : Z :=
  let n := attempt - 1 in
  Z.min (if (0 <=? n) && (n <=? u32_max) then n else u32_max) 30.

Definition delay (b : Backoff) (attempt : Z) : Z :=
  let attempt := Z.max attempt 1 in
  match b with
  | Steps steps =>
      match steps with
      | [] => 0
      | _ => nth (clamped_index (attempt - 1) (length steps - 1)) steps 0
      end
  | Doubling base cap =>
      Z.min (i64_saturating_mul base (Z.shiftl 1 (doubling_shift attempt))) cap
  end.

(** ** Configuration

    A [Duration] is its whole seconds. *)
Record EngineConfig := mkConfig {
  worker_count : nat;
  thread_stack_bytes : Z;
  apply_timeout : Z;
  worker_poll_interval : Z;
  recheck_interval : Z;
  inbox_retry_backoff : Backoff;
  outbox_backoff : Backoff;
  outbox_batch : Z;
  outbox_lease_secs : Z;
  outbox_poll_interval : Z;
  job_lease_secs : Z;
  job_lease_renew_interval : Z;
  job_retry_backoff : Backoff;
  job_poll_interval : Z;
  poison_backoff : Backoff;
  cpu_pool_slots : nat;
  pegout_pool_slots : nat;
  network_pool_slots : nat;
  ack_channel_capacity : nat;
  terminal_retention_secs : Z;
  housekeeping_interval : Z;
}.

Definition default_config : EngineConfig := {|
  worker_count := 1;
  thread_stack_bytes := 32 * 1024 * 1024;
  apply_timeout := 120;
  worker_poll_interval := 1;
  recheck_interval := 60;
  inbox_retry_backoff := Steps [10; 30; 60; 120; 300; 600];
  outbox_backoff := Doubling 30 600;
  outbox_batch := 16;
  outbox_lease_secs := 60;
  outbox_poll_interval := 1;
  job_lease_secs := 300;
  job_lease_renew_interval := 60;
  job_retry_backoff := Steps [10; 30; 60; 120; 300; 600];
  job_poll_interval := 1;
  poison_backoff := Steps [0; 600; 3600; 6 * 3600; 24 * 3600];
  cpu_pool_slots := 1;
  pegout_pool_slots := 1;
  network_pool_slots := 4;
  ack_channel_capacity := 256;
  terminal_retention_secs := 15 * 24 * 60 * 60;
  housekeeping_interval := 60 * 60;
|}.

Definition waiting_recheck_secs (c : EngineConfig) : Z := Z.max (recheck_interval c) 1.

(** The test vectors of config.rs. *)
Example backoff_schedules :
  let steps := Steps [10; 30; 60] in
  let doubling := Doubling 30 600 in
  delay steps 0 = 10 ∧ delay steps 1 = 10 ∧ delay steps 3 = 60 ∧ delay steps 99 = 60 ∧
  delay doubling 1 = 30 ∧ delay doubling 2 = 60 ∧ delay doubling 5 = 480 ∧
  delay doubling 6 = 600 ∧ delay doubling 40 = 600 ∧ delay (Steps []) 1 = 0.
Proof. by vm_compute. Qed.

(** ** What a schedule promises *)

(** A schedule whose delays are positive and never shrink. *)
Definition growing (b : Backoff) : Prop :=
  match b with
  | Steps steps => steps ≠ [] ∧ Forall (λ x, 0 < x) steps ∧ StronglySorted Z.le steps
  | Doubling base cap => 0 < base ∧ base ≤ i64_max ∧ base ≤ cap
  end.

(** The longest delay of a schedule. *)
Definition ceiling (b : Backoff) : Z :=
  match b with
  | Steps steps => List.last steps 0
  | Doubling _ cap => cap
  end.

Lemma doubling_shift_bounds a : 0 ≤ doubling_shift a ≤ 30.
Proof.
  unfold doubling_shift. destruct (_ && _) eqn:E; brefl; unfold u32_max; lia.
Qed.

Lemma doubling_shift_mono a b : 1 ≤ a → a ≤ b → doubling_shift a ≤ doubling_shift b.
Proof.
  unfold doubling_shift, u32_max. intros H1 Hab.
  destruct (_ && _) eqn:E1, ((0 <=? b - 1) && _) eqn:E2; brefl; lia.
Qed.

Lemma sorted_nth_mono (l : list Z) i j :
  StronglySorted Z.le l → (i ≤ j)%nat → (j < length l)%nat → nth i l 0 ≤ nth j l 0.
Proof.
  intros Hs. revert i j. induction Hs as [|x l Hs IH Hx]; intros i j Hij Hj; [cbn in Hj; lia|].
  destruct i as [|i], j as [|j]; cbn in *; [lia| |lia|apply IH; lia].
  rewrite Forall_forall in Hx. apply Hx, list_elem_of_In, nth_In. lia.
Qed.

Lemma last_is_nth (l : list Z) : List.last l 0 = nth (length l - 1) l 0.
Proof.
  induction l as [|x l IH]; [done|]. destruct l as [|y l]; [done|].
  change (List.last (x :: y :: l) 0) with (List.last (y :: l) 0). rewrite IH.
  cbn [length]. replace (S (S (length l)) - 1)%nat with (S (S (length l) - 1)) by lia. done.
Qed.

Lemma doubling_delay_mono base cap a b :
  0 < base → 1 ≤ a → a ≤ b →
  delay (Doubling base cap) a ≤ delay (Doubling base cap) b.
Proof.
  intros H0 Ha Hab. unfold delay. rewrite !Z.max_l by lia.
  apply Z.min_le_compat_r. unfold i64_saturating_mul. apply saturate_mono.
  pose proof (doubling_shift_mono a b Ha Hab). pose proof (doubling_shift_bounds a).
  rewrite !Z.shiftl_mul_pow2 by lia.
  pose proof (Z.pow_le_mono_r 2 (doubling_shift a) (doubling_shift b)). nia.
Qed.

Lemma delay_below_one b a : delay b a = delay b (Z.max a 1).
Proof. unfold delay. by replace (Z.max (Z.max a 1) 1) with (Z.max a 1) by lia. Qed.

(** The delays of a growing schedule are positive, never exceed the ceiling and
    never shrink from one attempt to the next. *)
Lemma growing_delay b a :
  growing b → 0 < delay b a ≤ ceiling b.
Proof.
  intros Hg. rewrite delay_below_one. set (n := Z.max a 1).
  assert (1 ≤ n) by (unfold n; lia). clearbody n.
  destruct b as [steps|base cap]; cbn [growing ceiling] in *.
  - destruct Hg as (Hne & Hpos & Hs). destruct steps as [|x l]; [done|].
    unfold delay. rewrite last_is_nth. unfold clamped_index. split.
    + rewrite Forall_forall in Hpos. apply Hpos, list_elem_of_In, nth_In. cbn; lia.
    + apply sorted_nth_mono; [done|lia|cbn; lia].
  - destruct Hg as (H0 & Hm & Hc). unfold delay. rewrite Z.max_l by lia.
    split; [|lia]. pose proof (doubling_shift_bounds n).
    unfold i64_saturating_mul. rewrite Z.shiftl_mul_pow2 by lia.
    assert (base ≤ saturate i64_min i64_max (base * (1 * 2 ^ doubling_shift n))); [|lia].
    rewrite <- (saturate_id i64_min i64_max base) at 1 by (unfold i64_min; lia).
    apply saturate_mono. pose proof (Z.pow_pos_nonneg 2 (doubling_shift n)). nia.
Qed.

Lemma growing_delay_mono b a a' :
  growing b → a ≤ a' → delay b a ≤ delay b a'.
Proof.
  intros Hg Haa. rewrite (delay_below_one b a), (delay_below_one b a').
  assert (1 ≤ Z.max a 1 ∧ Z.max a 1 ≤ Z.max a' 1) as (H1 & H2) by lia.
  revert H1 H2. generalize (Z.max a 1) (Z.max a' 1). intros n n' H1 H2.
  destruct b as [steps|base cap]; cbn [growing] in *.
  - destruct Hg as (Hne & Hpos & Hs). destruct steps as [|x l]; [done|].
    unfold delay. rewrite !Z.max_l by lia. unfold clamped_index.
    apply sorted_nth_mono; [done|lia|cbn; lia].
  - destruct Hg as (H0 & Hb & Hc). by apply doubling_delay_mono.
Qed.

Lemma default_schedules_growing :
  growing (inbox_retry_backoff default_config) ∧ growing (outbox_backoff default_config) ∧
  growing (job_retry_backoff default_config).
Proof.
  unfold growing, i64_max; cbn. split_and!; try done; try lia; repeat constructor; lia.
Qed.
