(* ===== verification/EngineEffects.v ===== *)
(** * Events, effects and the aggregate contract

    What producers submit, what an apply asks the engine to write besides the
    aggregate's own rows, and the interface between the engine and the node's
    aggregate handlers.

    Source: crates/engine/src/event.rs, effects.rs, aggregate.rs. *)

From stdpp Require Import base list strings gmap pretty.
From S2P Require Import Prelude Table Storage EngineSchema EngineNext.

Local Open Scope Z_scope.

(** ** Aggregate references *)

Record AggregateRef := mkRef { ar_kind : string; ar_id : string }.

Definition from_event (e : EngineInboxEvent) : AggregateRef :=
  mkRef (ib_aggregate_kind e) (ib_aggregate_id e).

Definition wake_ref (a : AggregateRef) : string := ar_kind a +:+ ":" +:+ ar_id a.

Definition shard_key (a : AggregateRef) : Z := engine_shard_key (ar_kind a) (ar_id a).

Definition shard (a : AggregateRef) (shard_count : nat) : nat :=
  Z.to_nat (Z.rem (shard_key a) (Z.of_nat (Nat.max shard_count 1))).

(** ** Events *)

Inductive EventSource := Network | Chain | Height | Job | Local_.

Definition source_str (s : EventSource) : string :=
  match s with
  | Network => "network"
  | Chain => "chain"
  | Height => "height"
  | Job => "job"
  | Local_ => "local"
  end.

Record NewEvent := mkNewEvent {
  ne_event_id : string;
  ne_aggregate : AggregateRef;
  ne_kind : string;
  ne_source : EventSource;
  ne_author : string;
  ne_admission_class : string;
  ne_payload : bytes;
  ne_ack : option EngineAckTarget;
}.

#[export] Instance eta_NewEvent : Eta NewEvent := λ e,
  mkNewEvent (ne_event_id e) (ne_aggregate e) (ne_kind e) (ne_source e) (ne_author e)
    (ne_admission_class e) (ne_payload e) (ne_ack e).

Definition new_event (event_id : string) (aggregate : AggregateRef) (kind : string)
    (source : EventSource) (payload : bytes) : NewEvent :=
  mkNewEvent event_id aggregate kind source "" "" payload None.

Definition with_author (author : string) (e : NewEvent) : NewEvent :=
  e <| ne_author := author |>.
Definition with_admission_class (class : string) (e : NewEvent) : NewEvent :=
  e <| ne_admission_class := class |>.
Definition with_ack (peer delivery_id : string) (e : NewEvent) : NewEvent :=
  e <| ne_ack := Some (mkAckTarget peer delivery_id) |>.

Definition into_store (e : NewEvent) : NewEngineInboxEvent := {|
  ni_event_id := ne_event_id e;
  ni_aggregate_kind := ar_kind (ne_aggregate e);
  ni_aggregate_id := ar_id (ne_aggregate e);
  ni_kind := ne_kind e;
  ni_source := source_str (ne_source e);
  ni_author := ne_author e;
  ni_admission_class := ne_admission_class e;
  ni_payload := ne_payload e;
  ni_ack := ne_ack e;
|}.

(** ** Job results *)

Definition JOB_RESULT_KIND : string := "job_result".

Inductive JobResultOutcome :=
| ResultDone (result : bytes)
| ResultFailed (error : string)
| ResultCancelled
| ResultPoisoned (error : string).

Record JobResultEvent := mkJobResult {
  jr_job_id : string;
  jr_phase : string;
  jr_action : string;
  jr_generation : Z;
  jr_stale : bool;
  jr_outcome : JobResultOutcome;
}.

(** serde_json on [JobResultEvent]. *)
Class JobResultJson := {
  job_result_to_vec : JobResultEvent → outcome bytes;
  job_result_decode : bytes → outcome JobResultEvent;
}.

Class JobResultJsonLaws `{JobResultJson} := {
  job_result_to_vec_total : ∀ r, ∃ b, job_result_to_vec r = Ok b;
  job_result_roundtrip : ∀ r b, job_result_to_vec r = Ok b → job_result_decode b = Ok r;
}.

Definition job_result_event_id (job_id : string) (generation : Z) : string :=
  "job-result:" +:+ job_id +:+ ":" +:+ pretty generation.

Definition into_new_event `{JobResultJson} (r : JobResultEvent) (aggregate : AggregateRef) :
    outcome NewEvent :=
  match job_result_to_vec r with
  | Ok payload =>
      Ok (new_event (job_result_event_id (jr_job_id r) (jr_generation r)) aggregate
            JOB_RESULT_KIND Job payload)
  | Err e => Err e
  end.

(** ** Jobs an apply asks for *)

Inductive JobPool := PoolCpu | PoolPegout | PoolNetwork.

Definition pool_str (p : JobPool) : string :=
  match p with PoolCpu => "cpu" | PoolPegout => "pegout" | PoolNetwork => "network" end.

(** SHA-256, and lowercase hexadecimal. *)
Class Sha256 := sha256 : bytes → bytes.

Definition hex_digit (n : nat) : Ascii.ascii :=
  Ascii.ascii_of_nat (if (n <? 10)%nat then 48 + n else 87 + n).

Fixpoint hex_encode (s : bytes) : string :=
  match s with
  | EmptyString => EmptyString
  | String c s' =>
      let n := Ascii.nat_of_ascii c in
      String (hex_digit (n / 16)) (String (hex_digit (n mod 16)) (hex_encode s'))
  end.

Definition stable_job_id `{Sha256} (aggregate : AggregateRef) (phase action : string)
    (params : bytes) : string :=
  hex_encode (sha256 (ar_kind aggregate +:+ ":" +:+ ar_id aggregate +:+ ":" +:+ phase +:+ ":"
    +:+ action +:+ ":" +:+ sha256 params)).

Record OutboxMessage := mkOutboxMessage {
  om_outbox_id : string;
  om_phase_ref : string;
  om_kind : string;
  om_topic : string;
  om_payload : bytes;
  om_ack_set : option (gmap string string);
}.

Record JobSpec := mkJobSpec {
  js_job_id : string;
  js_phase : string;
  js_action : string;
  js_pool : JobPool;
  js_params : bytes;
  js_deadline_at : option Z;
  js_run_after : option Z;
}.

#[export] Instance eta_JobSpec : Eta JobSpec := λ j,
  mkJobSpec (js_job_id j) (js_phase j) (js_action j) (js_pool j) (js_params j)
    (js_deadline_at j) (js_run_after j).

Definition job_spec `{Sha256} (aggregate : AggregateRef) (phase action : string) (pool : JobPool)
    (params : bytes) : JobSpec :=
  mkJobSpec (stable_job_id aggregate phase action params) phase action pool params None None.

Definition with_deadline (deadline_at : Z) (j : JobSpec) : JobSpec :=
  j <| js_deadline_at := Some deadline_at |>.
Definition with_run_after (run_after : Z) (j : JobSpec) : JobSpec :=
  j <| js_run_after := Some run_after |>.

Inductive JobCancel :=
| CancelJob (job_id : string)
| CancelPhase (phase : string)
| CancelAggregate (aggregate_kind aggregate_id : string)
| CancelAggregatePhase (aggregate_kind aggregate_id phase : string).

(** ** Effects *)

Record Effects := mkEffects {
  ef_status : option string;
  ef_phase : option string;
  ef_state : option (option string);
  ef_outbox : list OutboxMessage;
  ef_outbox_closes : list (EngineOutboxCloseTarget * string);
  ef_jobs : list JobSpec;
  ef_job_cancels : list JobCancel;
  ef_wake_refs : list string;
  ef_acks : list EngineAckTarget;
}.

#[export] Instance eta_Effects : Eta Effects := λ e,
  mkEffects (ef_status e) (ef_phase e) (ef_state e) (ef_outbox e) (ef_outbox_closes e)
    (ef_jobs e) (ef_job_cancels e) (ef_wake_refs e) (ef_acks e).

Definition no_effects : Effects := mkEffects None None None [] [] [] [] [] [].

Definition snoc {A} (x : A) (l : list A) : list A := l ++ [x].

Definition set_status (status : string) (e : Effects) := e <| ef_status := Some status |>.
Definition set_phase (phase : string) (e : Effects) := e <| ef_phase := Some phase |>.
Definition set_state (state : option string) (e : Effects) := e <| ef_state := Some state |>.
Definition send (message : OutboxMessage) (e : Effects) := e <| ef_outbox ::= snoc message |>.
Definition close_outbox (target : EngineOutboxCloseTarget) (reason : string) (e : Effects) :=
  e <| ef_outbox_closes ::= snoc (target, reason) |>.
Definition enqueue_job (job : JobSpec) (e : Effects) := e <| ef_jobs ::= snoc job |>.
Definition cancel_job (job_id : string) (e : Effects) :=
  e <| ef_job_cancels ::= snoc (CancelJob job_id) |>.
Definition cancel_phase_jobs (phase : string) (e : Effects) :=
  e <| ef_job_cancels ::= snoc (CancelPhase phase) |>.
Definition cancel_jobs_for_aggregate (a : AggregateRef) (e : Effects) :=
  e <| ef_job_cancels ::= snoc (CancelAggregate (ar_kind a) (ar_id a)) |>.
Definition cancel_phase_jobs_for_aggregate (a : AggregateRef) (phase : string) (e : Effects) :=
  e <| ef_job_cancels ::= snoc (CancelAggregatePhase (ar_kind a) (ar_id a) phase) |>.
Definition wake (r : string) (e : Effects) := e <| ef_wake_refs ::= snoc r |>.
Definition ack (peer delivery_id : string) (e : Effects) :=
  e <| ef_acks ::= snoc (mkAckTarget peer delivery_id) |>.

(** ** The aggregate contract *)

Record WaitingFor := mkWaitingFor { wf_wake_ref : string; wf_detail : string }.

Definition waiting_on (a : AggregateRef) (detail : string) : WaitingFor :=
  mkWaitingFor (wake_ref a) detail.

Inductive ApplyOutcome :=
| Applied
| Waiting (w : WaitingFor)
| Rejected (reason : string).

Inductive ApplyError :=
| Transient (e : error)
| Invariant (e : error).

(** How [handler.apply] ended, under [timeout] and [catch_unwind]. *)
Inductive ApplyExit :=
| Returned (r : ApplyOutcome + ApplyError)
| Elapsed
| Panicked (message : string).

Record ApplyContext := mkApplyContext {
  ac_now : Z;
  ac_aggregate : AggregateRef;
  ac_current : option EngineAggregate;
}.

Definition ctx_status (c : ApplyContext) : string :=
  match ac_current c with Some r => ag_status r | None => "" end.
Definition ctx_phase (c : ApplyContext) : string :=
  match ac_current c with Some r => ag_phase r | None => "" end.
Definition ctx_state (c : ApplyContext) : option string :=
  match ac_current c with Some r => ag_state r | None => None end.

(** A handler reads and writes the apply transaction and accumulates effects. *)
Definition Handler (B : Type) : Type :=
  ApplyContext → EngineInboxEvent → Db B → Env → ApplyExit * Effects * Db B * Env.

(** What the engine relies on: a handler changes the engine's own tables only
    through the store's statements, that is along [engine_next]. *)
Class HandlerLaws {B} (h : Handler B) : Prop :=
  handler_next : ∀ ctx event d e, engine_next d (h ctx event d e).1.2.

(** A shard index is smaller than the number of shards. *)
Lemma shard_lt a n : (shard a n < Nat.max n 1)%nat.
Proof.
  unfold shard. pose proof (engine_shard_key_bounds (ar_kind a) (ar_id a)) as Hk.
  unfold shard_key. rewrite Z.rem_mod_nonneg by lia.
  pose proof (Z.mod_pos_bound (engine_shard_key (ar_kind a) (ar_id a))
    (Z.of_nat (Nat.max n 1))). lia.
Qed.

(** The result events of different generations of a job, and of the same
    generation of jobs whose ids have the same length, have different ids. *)
Lemma string_app_inv_len (a b c d : string) :
  String.length a = String.length b → a +:+ c = b +:+ d → a = b ∧ c = d.
Proof.
  revert b. induction a as [|x a IH]; intros [|y b] Hl Heq; cbn in Hl; try discriminate.
  - done.
  - change (String x (a +:+ c) = String y (b +:+ d)) in Heq. injection Heq as -> Heq.
    injection Hl as Hl. destruct (IH b Hl Heq) as [-> ->]. done.
Qed.

Lemma job_result_event_id_inj id id' g g' :
  String.length id = String.length id' →
  job_result_event_id id g = job_result_event_id id' g' → id = id' ∧ g = g'.
Proof.
  intros Hl Heq. unfold job_result_event_id in Heq.
  apply string_app_inv_len in Heq as [_ Heq]; [|done].
  apply string_app_inv_len in Heq as [-> Heq]; [|done].
  apply string_app_inv_len in Heq as [_ Heq]; [|done].
  by apply (inj pretty) in Heq as ->.
Qed.
