(* ===== verification/Worker.v ===== *)
(** * Aggregate workers

    A worker takes the oldest runnable event of its shard, runs the aggregate's
    handler inside one transaction and lets the outcome decide: the event is
    applied or parked (the transaction commits, effects included), or the
    transaction is dropped and the event is rejected, retried or poisoned.

    Source: crates/engine/src/worker.rs, wake.rs, ack.rs. *)

From stdpp Require Import base list strings gmap pretty.
From S2P Require Import Prelude Table Storage EngineSchema EngineNext InboxStore OutboxStore JobStore.
From S2P Require Import EngineConfig EngineEffects.

Local Open Scope Z_scope.

(** ** Volatile state: the ACK channel and the wakeups *)

(** The bounded channel that hands ACKs to the network task. *)
Record AckChannel := mkAckChannel {
  ch_queue : list EngineAckTarget;
  ch_capacity : nat;
  ch_closed : bool;
}.

#[export] Instance eta_AckChannel : Eta AckChannel := λ c,
  mkAckChannel (ch_queue c) (ch_capacity c) (ch_closed c).

Definition ack_channel (capacity : nat) : AckChannel :=
  mkAckChannel [] (Nat.max capacity 1) false.

(** [AckSender::try_send]: false when the channel is full or closed. *)
Definition try_send (request : EngineAckTarget) (c : AckChannel) : bool * AckChannel :=
  if ch_closed c || (ch_capacity c <=? length (ch_queue c))%nat then (false, c)
  else (true, c <| ch_queue ::= snoc request |>).

(** [Notify] permits of the worker shards, the publisher and the executor. *)
Record EngineWake := mkWake {
  wk_workers : list bool;
  wk_publisher : bool;
  wk_executor : bool;
}.

#[export] Instance eta_EngineWake : Eta EngineWake := λ w,
  mkWake (wk_workers w) (wk_publisher w) (wk_executor w).

Definition engine_wake (shard_count : nat) : EngineWake :=
  mkWake (replicate (Nat.max shard_count 1) false) false false.

Definition wake_shard_count (w : EngineWake) : nat := length (wk_workers w).
Definition worker_for (a : AggregateRef) (w : EngineWake) : EngineWake :=
  w <| wk_workers := <[shard a (wake_shard_count w) := true]> (wk_workers w) |>.
Definition workers_all (w : EngineWake) : EngineWake :=
  w <| wk_workers ::= map (λ _, true) |>.
Definition wake_publisher (w : EngineWake) : EngineWake := w <| wk_publisher := true |>.
Definition wake_executor (w : EngineWake) : EngineWake := w <| wk_executor := true |>.

(** The database and what does not survive a restart. *)
Record World (B : Type) := mkWorld {
  w_db : Db B;
  w_acks : AckChannel;
  w_wake : EngineWake;
}.
Arguments mkWorld {B}. Arguments w_db {B}. Arguments w_acks {B}. Arguments w_wake {B}.

#[export] Instance eta_World {B} : Eta (World B) := λ w, mkWorld (w_db w) (w_acks w) (w_wake w).

(** [LocalDB::acquire] can fail. *)
Definition acquire {S} : ST S unit := stmt (λ s, (tt, s)).

(** Statements on a pooled connection take effect one by one. *)
Definition on_db {B A} (m : ST (Db B) A) : ST (World B) A :=
  focus w_db (λ d w, w <| w_db := d |>) m.

Definition modify {S} (f : S → S) : ST S unit := λ s e, (Ok tt, f s, e).

(** ** Outcomes *)

Inductive ProcessOutcome :=
  PApplied | PWaiting | PRejected | PTransient | PTimedOut | PPoisoned | PNoHandler.

Record PostCommit := mkPostCommit {
  pc_acks : list EngineAckTarget;
  pc_woke : bool;
  pc_outbox : bool;
  pc_jobs : bool;
}.

(** What the apply transaction decided: committed, or dropped for a reason. *)
Inductive Decision :=
| CommittedAs (outcome : ProcessOutcome) (post : PostCommit)
| DroppedFor (exit : ApplyExit).

Section Worker.
Context {B : Type} `{AckSetJson}.
Context (config : EngineConfig) (handlers : string → option (Handler B)).

(** [PostCommit::dispatch]. *)
Definition dispatch (post : PostCommit) : ST (World B) unit :=
  modify (λ w, w <| w_acks := foldl (λ c a, (try_send a c).2) (w_acks w) (pc_acks post) |>);;
  modify (λ w, if pc_woke post then w <| w_wake ::= workers_all |> else w);;
  modify (λ w, if pc_outbox post then w <| w_wake ::= wake_publisher |> else w);;
  modify (λ w, if pc_jobs post then w <| w_wake ::= wake_executor |> else w).

Definition insert_effect_outbox (a : AggregateRef) (now : Z) (m : OutboxMessage) :
    ST (Db B) unit :=
  insert_engine_outbox_message
    {| no_outbox_id := om_outbox_id m; no_aggregate_kind := ar_kind a;
       no_aggregate_id := ar_id a; no_phase_ref := om_phase_ref m; no_kind := om_kind m;
       no_topic := om_topic m; no_payload := om_payload m; no_ack_set := om_ack_set m;
       no_first_at := now |} now;;
  mret tt.

Definition insert_effect_job (a : AggregateRef) (now : Z) (j : JobSpec) : ST (Db B) unit :=
  insert_engine_job
    {| nj_job_id := js_job_id j; nj_aggregate_kind := ar_kind a; nj_aggregate_id := ar_id a;
       nj_phase := js_phase j; nj_action := js_action j; nj_pool := pool_str (js_pool j);
       nj_params := js_params j; nj_deadline_at := js_deadline_at j;
       nj_first_at := Z.max (default now (js_run_after j)) now |} now;;
  mret tt.

Definition apply_job_cancel (a : AggregateRef) (now : Z) (c : JobCancel) : ST (Db B) unit :=
  match c with
  | CancelJob job_id => cancel_engine_job job_id now;; mret tt
  | CancelPhase phase => cancel_engine_jobs_for_phase (ar_kind a) (ar_id a) phase now;; mret tt
  | CancelAggregate kind id => cancel_engine_jobs_for_aggregate kind id now;; mret tt
  | CancelAggregatePhase kind id phase =>
      cancel_engine_jobs_for_phase kind id phase now;; mret tt
  end.

(** The statements of [commit_apply] before its commit. *)
Definition write_effects (event : EngineInboxEvent) (a : AggregateRef)
    (current : option EngineAggregate) (effects : Effects) (waiting : option WaitingFor)
    (now : Z) : ST (Db B) PostCommit :=
  st_iter (insert_effect_outbox a now) (ef_outbox effects);;
  st_iter (λ '(target, reason), close_engine_outbox target reason now;; mret tt)
    (ef_outbox_closes effects);;
  st_iter (insert_effect_job a now) (ef_jobs effects);;
  st_iter (apply_job_cancel a now) (ef_job_cancels effects);;
  release_engine_poison (ar_kind a) (ar_id a) (ib_kind event);;
  updated ← upsert_engine_aggregate (ar_kind a) (ar_id a)
    (mkAggregateUpdate (ef_status effects) (ef_phase effects) (ef_state effects)
       (Some (ib_event_id event))) now;
  let changed :=
    match current with
    | Some c =>
        negb (bool_decide (ag_status c = ag_status updated)) ||
        negb (bool_decide (ag_phase c = ag_phase updated))
    | None => true
    end in
  let wake_refs := ef_wake_refs effects ++ (if changed then [wake_ref a] else []) in
  woke ← match wake_refs with
         | [] => mret 0
         | _ => wake_engine_inbox_waiting wake_refs now
         end;
  match waiting with
  | None => mark_engine_inbox_applied (ib_event_id event) now
  | Some w =>
      mark_engine_inbox_waiting (ib_event_id event) (wf_wake_ref w) (wf_detail w)
        (now + waiting_recheck_secs config) now
  end;;
  mret {| pc_acks := ef_acks effects ++ option_list (ack_target event);
          pc_woke := 0 <? woke;
          pc_outbox := negb (bool_decide (ef_outbox effects = []));
          pc_jobs := negb (bool_decide (ef_jobs effects = [])) |}.

Definition commit_apply (event : EngineInboxEvent) (a : AggregateRef)
    (current : option EngineAggregate) (effects : Effects) (waiting : option WaitingFor)
    (now : Z) : ST (Tx (Db B)) PostCommit :=
  post ← in_tx (write_effects event a current effects waiting now);
  commit;;
  mret post.

(** The handler inside the apply transaction. *)
Definition run_handler (h : Handler B) (ctx : ApplyContext) (event : EngineInboxEvent) :
    ST (Tx (Db B)) (ApplyExit * Effects) := λ t e,
  match h ctx event (working t) e with
  | (exit, effects, d, e') => (Ok (exit, effects), t <| working := d |>, e')
  end.

Definition apply_transaction (h : Handler B) (event : EngineInboxEvent) (now : Z) :
    ST (Tx (Db B)) Decision :=
  let a := from_event event in
  current ← in_tx (find_engine_aggregate (ar_kind a) (ar_id a));
  '(exit, effects) ← run_handler h (mkApplyContext now a current) event;
  match exit with
  | Returned (inl Applied) =>
      post ← commit_apply event a current effects None now;
      mret (CommittedAs PApplied post)
  | Returned (inl (Waiting w)) =>
      post ← commit_apply event a current effects (Some w) now;
      mret (CommittedAs PWaiting post)
  | _ => mret (DroppedFor exit)
  end.

(** [error.chain().any(..)] over the lowercased messages. *)
Definition is_busy_error (e : error) : bool :=
  existsb (λ cause,
    let message := to_ascii_lowercase cause in
    contains "database is locked" message || contains "database is busy" message ||
    contains "sqlite_busy" message) e.

(** [Display] of an error: its outermost message. *)
Definition error_to_string (e : error) : string := default ""%string (head e).

Definition schedule_retry_at (event : EngineInboxEvent) (err : string) (next_at : Z) :
    ST (World B) unit :=
  now ← clock_now;
  acquire;;
  on_db (mark_engine_inbox_retry (ib_event_id event) err next_at now);;
  mret tt.

Definition schedule_retry (event : EngineInboxEvent) (err : string) : ST (World B) unit :=
  now ← clock_now;
  schedule_retry_at event err (now + delay (inbox_retry_backoff config) (ib_attempts event + 1)).

Definition poison (event : EngineInboxEvent) (reason : string) : ST (World B) unit :=
  let a := from_event event in
  now ← clock_now;
  on_db (transaction (
    in_tx (mark_engine_inbox_poisoned (ib_event_id event) reason now);;
    in_tx (mark_engine_aggregate_poisoned (ar_kind a) (ar_id a) (ib_kind event) reason now
             (delay (poison_backoff config)));;
    commit)).

Definition ack_only (event : EngineInboxEvent) : PostCommit :=
  mkPostCommit (option_list (ack_target event)) false false false.

Definition process_event (event : EngineInboxEvent) : ST (World B) ProcessOutcome :=
  let a := from_event event in
  match handlers (ar_kind a) with
  | None =>
      now ← clock_now;
      acquire;;
      on_db (mark_engine_inbox_failed (ib_event_id event)
               ("no handler for aggregate kind " +:+ ar_kind a) now);;
      mret PNoHandler
  | Some h =>
      now ← clock_now;
      decision ← on_db (transaction (apply_transaction h event now));
      match decision with
      | CommittedAs outcome post => dispatch post;; mret outcome
      | DroppedFor (Returned (inl (Rejected reason))) =>
          now ← clock_now;
          acquire;;
          on_db (mark_engine_inbox_failed (ib_event_id event) reason now);;
          on_db (release_engine_poison (ar_kind a) (ar_id a) (ib_kind event));;
          dispatch (ack_only event);;
          mret PRejected
      | DroppedFor (Returned (inr (Transient err))) =>
          (if is_busy_error err then
             now ← clock_now;
             schedule_retry_at event (error_to_string err) (now + 1)
           else schedule_retry event (error_to_string err));;
          mret PTransient
      | DroppedFor (Returned (inr (Invariant err))) =>
          poison event ("invariant violated: " +:+ error_to_string err);;
          mret PPoisoned
      | DroppedFor Elapsed =>
          schedule_retry event ("apply timed out after " +:+ pretty (apply_timeout config) +:+ "s");;
          mret PTimedOut
      | DroppedFor (Panicked message) =>
          poison event ("panic: " +:+ message);;
          mret PPoisoned
      | DroppedFor (Returned (inl _)) => st_fail ["unreachable: committed above"%string]
      end
  end.

(** [drain_shard]: apply runnable events of [shard] until none is left; the
    engine is cancelled before the iteration after the [until_cancel]-th. *)
Fixpoint drain_shard (until_cancel : nat) (shard shard_count : Z) (processed : nat) :
    ST (World B) nat :=
  match until_cancel with
  | O => mret processed
  | S n =>
      now ← clock_now;
      acquire;;
      next ← on_db (next_runnable_engine_inbox_event shard_count shard now);
      match next with
      | None => mret processed
      | Some event =>
          process_event event;;
          drain_shard n shard shard_count (S processed)
      end
  end.
End Worker.

(** ** Every worker step is a step of [engine_next] *)

Definition world_next {B} (w w' : World B) : Prop := engine_next (w_db w) (w_db w').

#[export] Instance world_next_preorder {B} : PreOrder (@world_next B).
Proof.
  unfold world_next. split; [intros w; reflexivity|].
  intros w1 w2 w3 H1 H2. by etrans.
Qed.

Lemma on_db_next {B A} (m : ST (Db B) A) :
  guarantee engine_next m → guarantee world_next (on_db m).
Proof. intros Hm. eapply guarantee_focus; [exact Hm|]. done. Qed.

Lemma acquire_next {B} : guarantee (@world_next B) acquire.
Proof. apply guarantee_stmt; [apply _|]. intros w. cbn. reflexivity. Qed.

Lemma modify_next {B} (f : World B → World B) :
  (∀ w, w_db (f w) = w_db w) → guarantee world_next (modify f).
Proof. intros Hf w e. unfold world_next. cbn. rewrite Hf. reflexivity. Qed.

#[export] Hint Resolve on_db_next acquire_next : guar.

Section WorkerNext.
Context {B : Type} `{AckSetJson}.
Context (config : EngineConfig) (handlers : string → option (Handler B)).
Context (handlers_ok : ∀ k h, handlers k = Some h → HandlerLaws h).

Lemma dispatch_next post : guarantee world_next (dispatch (B := B) post).
Proof.
  unfold dispatch. guar; apply modify_next; intros w; try done.
  all: by match goal with |- context [if ?b then _ else _] => destruct b end.
Qed.

Lemma write_effects_next event a current effects waiting now :
  guarantee engine_next (write_effects (B := B) config event a current effects waiting now).
Proof.
  unfold write_effects. guar;
    unfold insert_effect_outbox, insert_effect_job, apply_job_cancel; guar.
Qed.

Lemma run_handler_next h ctx event :
  HandlerLaws h → guarantee (tx_rel (engine_next (B := B))) (run_handler h ctx event).
Proof.
  intros Hh t e d Hc Hw. unfold run_handler.
  pose proof (Hh ctx event (working t) e) as Hn.
  destruct (h ctx event (working t) e) as [[[x eff] d'] e']. cbn in *.
  split; [done|by etrans].
Qed.

Lemma commit_apply_next event a current effects waiting now :
  guarantee (tx_rel (engine_next (B := B))) (commit_apply (B := B) config event a current effects waiting now).
Proof. unfold commit_apply. guar. apply write_effects_next. Qed.

Lemma apply_transaction_next h event now :
  HandlerLaws h → guarantee (tx_rel (engine_next (B := B))) (apply_transaction config h event now).
Proof.
  intros Hh. unfold apply_transaction.
  guar; first [by apply run_handler_next|apply commit_apply_next].
Qed.

Lemma schedule_retry_at_next event err next_at :
  guarantee world_next (schedule_retry_at (B := B) event err next_at).
Proof. unfold schedule_retry_at. guar. Qed.

Lemma poison_next event reason : guarantee world_next (poison (B := B) config event reason).
Proof. unfold poison. guar. apply on_db_next. guar. Qed.

Lemma process_event_next event :
  guarantee world_next (process_event config handlers event).
Proof.
  unfold process_event.
  destruct (handlers (ar_kind (from_event event))) as [h|] eqn:Hh; guar;
    unfold schedule_retry; guar;
    try (apply on_db_next; guar; apply apply_transaction_next; eauto);
    auto using dispatch_next, schedule_retry_at_next, poison_next.
Qed.

Lemma drain_shard_next n shard count processed :
  guarantee world_next (drain_shard config handlers n shard count processed).
Proof.
  revert processed. induction n as [|n IH]; intros processed; cbn; guar.
  apply process_event_next.
Qed.
End WorkerNext.
