(* ===== verification/Executor.v ===== *)
(** * The job executor

    Jobs are claimed into pools with bounded slots, run by the node's runners
    under a lease that a side task renews, and completed by their generation:
    the completion, the poison bookkeeping and the [job_result] event are one
    transaction.  A holder that lost its lease is fenced by
    [finish_engine_job]; its external result still reaches the aggregate as a
    stale result.

    Source: crates/engine/src/jobs.rs. *)

From stdpp Require Import base list strings gmap pretty.
From S2P Require Import Prelude Table Storage EngineSchema EngineNext InboxStore OutboxStore JobStore.
From S2P Require Import EngineConfig EngineEffects Worker.

Local Open Scope Z_scope.

(** [match m.await { Ok(..) => .., Err(..) => .. }]. *)
Definition st_try {S A} (m : ST S A) : ST S (outcome A) := λ s e,
  match m s e with (o, s', e') => (Ok o, s', e') end.

Inductive JobOutcome :=
| OutcomeDone (result : bytes)
| OutcomeTransient (error : string) (retry_after_secs : option Z)
| OutcomeFailed (error : string).

(** How [runner.run] ended, under [catch_unwind]. *)
Inductive RunnerExit :=
| RunnerReturned (o : JobOutcome)
| RunnerPanicked (message : string).

(** A runner works on the node's storage and on the outside world. *)
Definition JobRunner (B : Type) : Type :=
  Z → EngineJob → World B → Env → RunnerExit * World B * Env.

Inductive RenewalStep := RenewContinue | RenewStop | RenewCancel.

Section Executor.
Context {B : Type} `{JobResultJson}.
Context (config : EngineConfig) (registry : string → string → option (JobRunner B)).

Definition job_aggregate (job : EngineJob) : AggregateRef :=
  mkRef (jb_aggregate_kind job) (jb_aggregate_id job).

(** Record one [job_result] event in the current transaction. *)
Definition insert_job_result (job : EngineJob) (generation : Z) (stale : bool)
    (result : JobResultOutcome) (now : Z) : ST (Db B) EngineInboxInsert :=
  event ← st_lift (into_new_event
    (mkJobResult (jb_job_id job) (jb_phase job) (jb_action job) generation stale result)
    (job_aggregate job));
  insert_engine_inbox_event (into_store event) now.

(** [finish_lapsed_cancelled]: a cancelled job whose holder went away is not
    run again, and its result reaches the aggregate. *)
Definition finish_lapsed_cancelled : ST (World B) unit :=
  now ← clock_now;
  jobs ← on_db (transaction (
    jobs ← in_tx (finish_lapsed_cancelled_engine_jobs now);
    in_tx (st_iter (λ job,
      insert_job_result job (jb_generation job) false ResultCancelled now;; mret tt) jobs);;
    commit;;
    mret jobs));
  st_iter (λ job, modify (λ w, w <| w_wake ::= worker_for (job_aggregate job) |>)) jobs.

(** [claim_and_spawn]: [permits] are the readings of [available_permits()], one
    per iteration; the claimed jobs are spawned in order. *)
Fixpoint claim_and_spawn (pool : JobPool) (permits : list nat) : ST (World B) (list EngineJob) :=
  match permits with
  | [] => mret []
  | available :: permits' =>
      if (available =? 0)%nat then mret []
      else
        now ← clock_now;
        acquire;;
        jobs ← on_db (claim_due_engine_jobs (pool_str pool) now (now + job_lease_secs config)
                        (Z.of_nat available));
        if bool_decide (jobs = []) then mret []
        else if (length jobs <? available)%nat then mret jobs
        else rest ← claim_and_spawn pool permits'; mret (jobs ++ rest)
  end.

(** The pass of [run_executor]: a failed sweep or claim is logged and the pass
    goes on; [permits] are each pool's readings. *)
Definition executor_pass (permits : JobPool → list nat) : ST (World B) unit :=
  st_try finish_lapsed_cancelled;;
  st_try (claim_and_spawn PoolCpu (permits PoolCpu));;
  st_try (claim_and_spawn PoolPegout (permits PoolPegout));;
  st_try (claim_and_spawn PoolNetwork (permits PoolNetwork));;
  mret tt.

(** The completion of a runner that ended; only a transient error reads the
    clock, for the time of the next attempt. *)
Definition finish_of_exit (job : EngineJob) (exit : RunnerExit) : ST (World B) EngineJobFinish :=
  match exit with
  | RunnerReturned (OutcomeDone result) => mret (FinishDone result)
  | RunnerReturned (OutcomeTransient error retry_after_secs) =>
      let secs :=
        match retry_after_secs with
        | Some secs => secs
        | None => delay (job_retry_backoff config) (jb_attempts job)
        end in
      now ← clock_now;
      mret (FinishRetry error (now + secs))
  | RunnerReturned (OutcomeFailed error) => mret (FinishFailed error)
  | RunnerPanicked message => mret (FinishPoisoned message)
  end.

Definition deadline_passed (job : EngineJob) (now : Z) : bool :=
  match jb_deadline_at job with Some deadline => deadline <? now | None => false end.

Definition run_runner (runner : JobRunner B) (now : Z) (job : EngineJob) :
    ST (World B) RunnerExit := λ w e,
  match runner now job w e with (exit, w', e') => (Ok exit, w', e') end.

(** The part of [execute_job] that produces the completion. *)
Definition run_job (job : EngineJob) : ST (World B) EngineJobFinish :=
  now ← clock_now;
  if deadline_passed job now then
    mret (FinishFailed ("deadline " +:+ pretty (default 0 (jb_deadline_at job)) +:+
                        " passed at " +:+ pretty now))
  else
    match registry (jb_aggregate_kind job) (jb_action job) with
    | None =>
        mret (FinishFailed ("no runner registered for " +:+ jb_aggregate_kind job +:+ ":" +:+
                            jb_action job))
    | Some runner =>
        exit ← run_runner runner now job;
        finish_of_exit job exit
    end.

(** Which result event a completion produces: whether it is stale, and its
    outcome ([None] for a retry or a vanished row). *)
Definition completion_result (outcome : EngineJobFinishOutcome) (finish : EngineJobFinish) :
    bool * option JobResultOutcome :=
  match outcome, finish with
  | FinishApplied state, finish =>
      (false,
       match state, finish with
       | JobDone, FinishDone result => Some (ResultDone result)
       | JobCancelled, _ => Some ResultCancelled
       | JobFailed, FinishFailed error => Some (ResultFailed error)
       | JobPoisoned, FinishPoisoned error => Some (ResultPoisoned error)
       | _, _ => None
       end)
  | FinishStale _ _, FinishDone result => (true, Some (ResultDone result))
  | FinishStale _ _, FinishFailed error => (true, Some (ResultFailed error))
  | FinishStale _ _, FinishPoisoned error => (true, Some (ResultPoisoned error))
  | FinishStale _ _, FinishRetry _ _ => (true, None)
  | FinishMissing, _ => (true, None)
  end.

(** The poison bookkeeping of a completion. *)
Definition completion_poison (job : EngineJob) (outcome : EngineJobFinishOutcome)
    (finish : EngineJobFinish) (now : Z) : ST (Db B) unit :=
  match outcome, finish with
  | FinishApplied _, FinishPoisoned reason =>
      mark_engine_aggregate_poisoned (jb_aggregate_kind job) (jb_aggregate_id job)
        (jb_action job) reason now (delay (poison_backoff config));;
      mret tt
  | FinishApplied _, _ =>
      release_engine_poison (jb_aggregate_kind job) (jb_aggregate_id job) (jb_action job);;
      mret tt
  | _, _ => mret tt
  end.

(** The statements of [record_job_finish] before its commit: the outcome of the
    fence, and whether an event was inserted. *)
Definition write_job_finish (job : EngineJob) (generation : Z) (finish : EngineJobFinish)
    (now : Z) : ST (Db B) (EngineJobFinishOutcome * bool) :=
  outcome ← finish_engine_job (jb_job_id job) generation finish now;
  completion_poison job outcome finish now;;
  match completion_result outcome finish with
  | (stale, Some result) =>
      inserted ← insert_job_result job generation stale result now;
      mret (outcome, match inserted with InboxInserted _ => true | InboxDuplicate _ _ _ => false end)
  | (_, None) => mret (outcome, false)
  end.

Definition record_job_finish (job : EngineJob) (generation : Z) (finish : EngineJobFinish) :
    ST (World B) unit :=
  now ← clock_now;
  '(_, wake_worker) ← on_db (transaction (
    r ← in_tx (write_job_finish job generation finish now);
    commit;;
    mret r));
  if wake_worker : bool then modify (λ w, w <| w_wake ::= worker_for (job_aggregate job) |>)
  else mret tt.

Definition JOB_FINISH_ATTEMPTS_AFTER_LEASE_LOSS : nat := 2.

(** The completion loop of [execute_job]: [cancelled n] is what
    [cancel.is_cancelled()] reads after the [n]-th failure.  [Some error]: the
    completion was given up. *)
Fixpoint finish_loop (fuel : nat) (cancelled : nat → bool) (attempt after_loss : nat)
    (job : EngineJob) (generation : Z) (finish : EngineJobFinish) :
    ST (World B) (option error) :=
  match fuel with
  | O => st_fail ["completion loop still running"%string]
  | S fuel' =>
      r ← st_try (record_job_finish job generation finish);
      match r with
      | Ok _ => mret None
      | Err error =>
          let attempt := S attempt in
          let after_loss := if cancelled attempt then S after_loss else after_loss in
          if (JOB_FINISH_ATTEMPTS_AFTER_LEASE_LOSS <=? after_loss)%nat then mret (Some error)
          else finish_loop fuel' cancelled attempt after_loss job generation finish
      end
  end.

Definition execute_job (fuel : nat) (cancelled : nat → bool) (job : EngineJob) :
    ST (World B) (option error) :=
  finish ← run_job job;
  finish_loop fuel cancelled 0 0 job (jb_generation job) finish.

(** One tick of [spawn_lease_renewal]. *)
Definition renewal_tick (job_id : string) (generation : Z) : ST (World B) RenewalStep :=
  now ← clock_now;
  renewed ← st_try (acquire;;
    on_db (renew_engine_job_lease job_id generation (now + job_lease_secs config) now));
  match renewed with
  | Ok true => mret RenewContinue
  | Ok false =>
      row ← st_try (acquire;; on_db (find_engine_job job_id));
      let finished :=
        match row with
        | Ok (Some row) =>
            (jb_generation row =? generation) && negb (in_job_state JobRunning row)
        | _ => false
        end in
      mret (if finished then RenewStop else RenewCancel)
  | Err _ => mret RenewContinue
  end.
End Executor.

(** ** Every executor step is a step of [engine_next] *)

Lemma guarantee_try {S A} (Rel : S → S → Prop) (m : ST S A) :
  guarantee Rel m → guarantee Rel (st_try m).
Proof.
  intros Hm s e. specialize (Hm s e). unfold st_try, final in *.
  by destruct (m s e) as [[o s'] e'].
Qed.

Section ExecutorNext.
Context {B : Type} `{JobResultJson}.
Context (config : EngineConfig) (registry : string → string → option (JobRunner B)).
Context (runners_ok : ∀ k a r, registry k a = Some r →
  ∀ now job w e, world_next w (r now job w e).1.2).

Lemma insert_job_result_next job g stale result now :
  guarantee (engine_next (B := B)) (insert_job_result job g stale result now).
Proof. unfold insert_job_result. guar. Qed.

Lemma wake_job_next job :
  guarantee (world_next (B := B)) (modify (λ w, w <| w_wake ::= worker_for (job_aggregate job) |>)).
Proof. by apply modify_next. Qed.

Lemma finish_lapsed_cancelled_next : guarantee (world_next (B := B)) finish_lapsed_cancelled.
Proof.
  unfold finish_lapsed_cancelled. guar; [|apply wake_job_next].
  apply on_db_next. guar. apply insert_job_result_next.
Qed.

Lemma claim_and_spawn_next pool permits :
  guarantee (world_next (B := B)) (claim_and_spawn config pool permits).
Proof. induction permits as [|n permits IH]; cbn; guar. Qed.

Lemma executor_pass_next permits :
  guarantee (world_next (B := B)) (executor_pass config permits).
Proof.
  unfold executor_pass.
  guar; apply guarantee_try; auto using finish_lapsed_cancelled_next, claim_and_spawn_next.
Qed.

Lemma run_job_next job : guarantee world_next (run_job config registry job).
Proof.
  unfold run_job. apply guarantee_bind; [apply _|guar|]. intros now.
  destruct (deadline_passed job now); [guar|].
  destruct (registry _ _) as [runner|] eqn:Hr; guar; [|unfold finish_of_exit; guar].
  intros w e. pose proof (runners_ok _ _ _ Hr now job w e) as Hok.
  unfold run_runner, final. by destruct (runner now job w e) as [[exit w'] e'].
Qed.

Lemma write_job_finish_next job g finish now :
  guarantee (engine_next (B := B)) (write_job_finish config job g finish now).
Proof.
  unfold write_job_finish, completion_poison. guar. apply insert_job_result_next.
Qed.

Lemma record_job_finish_next job g finish :
  guarantee (world_next (B := B)) (record_job_finish config job g finish).
Proof.
  unfold record_job_finish. guar; [|apply wake_job_next].
  apply on_db_next. guar. apply write_job_finish_next.
Qed.

Lemma finish_loop_next fuel cancelled attempt after_loss job g finish :
  guarantee (world_next (B := B)) (finish_loop config fuel cancelled attempt after_loss job g finish).
Proof.
  revert attempt after_loss. induction fuel as [|fuel IH]; intros attempt after_loss; cbn; guar.
  apply guarantee_try, record_job_finish_next.
Qed.

Lemma execute_job_next fuel cancelled job :
  guarantee world_next (execute_job config registry fuel cancelled job).
Proof.
  unfold execute_job. guar; [apply run_job_next|apply finish_loop_next].
Qed.

Lemma renewal_tick_next job_id g :
  guarantee (world_next (B := B)) (renewal_tick config job_id g).
Proof. unfold renewal_tick. guar; apply guarantee_try; guar. Qed.
End ExecutorNext.
