(* ===== verification/Runtime.v ===== *)
(** * The publisher and the engine runtime

    The publisher of the outbox; the producer-side handle (submit, acknowledge, notify, clear poison), the
    startup recovery, the periodic re-check and the housekeeping, and the whole
    engine as a step relation: any operation of any task, in any order, under
    any schedule of storage failures.

    Source: crates/engine/src/outbox.rs, crates/engine/src/runtime.rs, crates/store/src/engine/mod.rs. *)

From stdpp Require Import base list strings gmap pretty.
From S2P Require Import Prelude Table Storage EngineSchema EngineNext InboxStore OutboxStore JobStore.
From S2P Require Import EngineConfig EngineEffects Worker Executor.

(** * The publisher

    The only sender: it claims due open outbox rows under a lease, hands them to
    the transport and schedules the next publish with backoff, until an
    aggregate or the last ACK closes the row.

    Source: crates/engine/src/outbox.rs. *)

Local Open Scope Z_scope.

(** [Transport::publish]: the network decides whether it succeeds. *)
Class Transport := transport_publish : string → bytes → Env → outcome unit * Env.

Section Publisher.
Context {B : Type} `{AckSetJson} `{Transport}.
Context (config : EngineConfig).

Definition publish (topic : string) (payload : bytes) : ST (World B) (outcome unit) := λ w e,
  match transport_publish topic payload e with (o, e') => (Ok o, w, e') end.

(** Publish one claimed row and schedule its next publish; whether it succeeded. *)
Definition publish_row (row : EngineOutboxMessage) : ST (World B) bool :=
  result ← publish (ob_topic row) (ob_payload row);
  now ← clock_now;
  acquire;;
  match result with
  | Ok _ =>
      let next_at := now + delay (outbox_backoff config) (ob_publish_count row + 1) in
      on_db (record_engine_outbox_publish (ob_outbox_id row) next_at now);;
      mret true
  | Err error =>
      let next_at := now + delay (outbox_backoff config) 1 in
      on_db (record_engine_outbox_publish_failure (ob_outbox_id row) (error_to_string error)
               next_at now);;
      mret false
  end.

Fixpoint publish_batch (batch : list EngineOutboxMessage) : ST (World B) nat :=
  match batch with
  | [] => mret O
  | row :: rest =>
      b ← publish_row row;
      n ← publish_batch rest;
      mret (if b : bool then S n else n)
  end.

(** [drain_outbox]: publish every due row once.  The loop is unbounded in the
    source; [fuel] bounds its iterations. *)
Fixpoint drain_outbox (fuel published : nat) : ST (World B) nat :=
  match fuel with
  | O => st_fail ["outbox drain still running"%string]
  | S fuel' =>
      now ← clock_now;
      acquire;;
      batch ← on_db (claim_due_engine_outbox_messages now (now + outbox_lease_secs config)
                       (outbox_batch config));
      if bool_decide (length batch = O) then mret published
      else
        n ← publish_batch batch;
        if Z.of_nat (length batch) <? outbox_batch config then mret (published + n)%nat
        else drain_outbox fuel' (published + n)
  end.

(** ** Steps *)

Lemma publish_row_next row : guarantee (world_next (B := B)) (publish_row row).
Proof.
  unfold publish_row. guar. intros w e. unfold publish, final.
  destruct (transport_publish _ _ e) as [o e']. reflexivity.
Qed.

Lemma publish_batch_next batch : guarantee (world_next (B := B)) (publish_batch batch).
Proof. induction batch as [|row batch IH]; cbn; guar. apply publish_row_next. Qed.

Lemma drain_outbox_next fuel published :
  guarantee (world_next (B := B)) (drain_outbox fuel published).
Proof.
  revert published. induction fuel as [|fuel IH]; intros published; cbn; guar.
  apply publish_batch_next.
Qed.
End Publisher.

(** * The engine runtime *)

Local Open Scope Z_scope.

(** ** Row counts *)

Definition inbox_state_str (s : EngineInboxState) : string :=
  match s with
  | InboxPending => "Pending" | InboxApplied => "Applied"
  | InboxFailed => "Failed" | InboxPoisoned => "Poisoned"
  end.
Definition outbox_state_str (s : EngineOutboxState) : string :=
  match s with OutboxOpen => "Open" | OutboxClosed => "Closed" end.
Definition job_state_str (s : EngineJobState) : string :=
  match s with
  | JobPending => "Pending" | JobRunning => "Running" | JobDone => "Done"
  | JobFailed => "Failed" | JobCancelled => "Cancelled" | JobPoisoned => "Poisoned"
  end.

(** [SELECT state, COUNT( * ) .. GROUP BY state]. *)
Definition count_by (table : string) (states : list string) : list EngineStateCount :=
  map (λ s, mkStateCount table s (count_where (λ x, bool_decide (x = s)) states))
      (remove_dups states).

(** [COUNT(DISTINCT aggregate_kind || ':' || aggregate_id)]. *)
Definition count_distinct (ids : list (string * string)) : Z :=
  Z.of_nat (length (remove_dups (map (λ '(k, i), k +:+ ":" +:+ i) ids))).

Definition is_waiting (r : EngineInboxEvent) : bool :=
  in_inbox_state InboxPending r && bool_decide (is_Some (ib_waiting_ref r)).

Definition engine_state_counts {B} : ST (Db B) (list EngineStateCount) :=
  query (λ d,
    count_by "inbox" (map (λ r, inbox_state_str (ib_state r)) (engine_inbox d)) ++
    [mkStateCount "inbox_waiting" "Waiting" (count_where is_waiting (engine_inbox d))] ++
    count_by "outbox" (map (λ r, outbox_state_str (ob_state r)) (engine_outbox d)) ++
    count_by "job" (map (λ r, job_state_str (jb_state r)) (engine_job d)) ++
    [mkStateCount "aggregate" "Poisoned" (count_distinct
       (map (λ r, (po_aggregate_kind (pr_poison r), po_aggregate_id (pr_poison r)))
          (engine_aggregate_poison d)));
     mkStateCount "aggregate" "Waiting" (count_distinct
       (map (λ r, (ib_aggregate_kind r, ib_aggregate_id r))
          (select_where is_waiting (engine_inbox d))))]).

Definition purge_engine_terminal_rows {B} (before : Z) : ST (Db B) Z :=
  inbox ← purge_inbox_terminal before;
  outbox ← purge_outbox_closed before;
  jobs ← purge_jobs_terminal before;
  mret (inbox + outbox + jobs).

(** ** The handle *)

Inductive SubmitOutcome :=
| SubmitInserted
| SubmitDuplicate (state : EngineInboxState) (ack_sent rearmed : bool).

Record EngineSnapshot := mkSnapshot {
  sn_counts : list EngineStateCount;
  sn_waiting : list EngineWaitingEvent;
  sn_poisoned : list EnginePoison;
}.

Section Runtime.
Context {B : Type} `{AckSetJson} `{JobResultJson} `{Transport}.
Context (config : EngineConfig).

(** [EngineBuilder::build]: the volatile half of a fresh engine. *)
Definition build (d : Db B) : World B :=
  mkWorld d (ack_channel (ack_channel_capacity config)) (engine_wake (worker_count config)).

Definition submit (event : NewEvent) : ST (World B) SubmitOutcome :=
  now ← clock_now;
  acquire;;
  inserted ← on_db (insert_engine_inbox_event (into_store event) now);
  match inserted with
  | InboxInserted _ =>
      modify (λ w, w <| w_wake ::= worker_for (ne_aggregate event) |>);;
      mret SubmitInserted
  | InboxDuplicate state ack_again rearmed =>
      ack_sent ←
        match (if ack_again then ne_ack event else None) with
        | Some a => λ w e, let '(sent, c) := try_send a (w_acks w) in (Ok sent, w <| w_acks := c |>, e)
        | None => mret false
        end;
      (if rearmed then modify (λ w, w <| w_wake ::= worker_for (ne_aggregate event) |>)
       else mret tt);;
      mret (SubmitDuplicate state ack_sent rearmed)
  end.

(** [submit_in]: the caller's transaction commits the event. *)
Definition submit_in (event : NewEvent) : ST (Db B) SubmitOutcome :=
  now ← clock_now;
  inserted ← insert_engine_inbox_event (into_store event) now;
  match inserted with
  | InboxInserted _ => mret SubmitInserted
  | InboxDuplicate state _ rearmed => mret (SubmitDuplicate state false rearmed)
  end.

Definition wake_for (a : AggregateRef) : ST (World B) unit :=
  modify (λ w, w <| w_wake ::= worker_for a |>).

Definition acknowledge (peer delivery_id : string) : ST (World B) EngineOutboxAck :=
  now ← clock_now;
  on_db (transaction (
    ack ← in_tx (acknowledge_engine_outbox peer delivery_id now);
    commit;;
    mret ack)).

Definition notify (refs : list string) : ST (World B) Z :=
  now ← clock_now;
  acquire;;
  woken ← on_db (wake_engine_inbox_waiting refs now);
  (if 0 <? woken then modify (λ w, w <| w_wake ::= workers_all |>) else mret tt);;
  mret woken.

Definition wake_all : ST (World B) unit :=
  modify (λ w, w <| w_wake ::= (λ k, wake_executor (wake_publisher (workers_all k))) |>).

Definition clear_poison (a : AggregateRef) (action : option string) : ST (World B) Z :=
  acquire;;
  cleared ← on_db (clear_engine_aggregate_poison (ar_kind a) (ar_id a) action);
  (if 0 <? cleared then
     modify (λ w, w <| w_wake ::= (λ k, worker_for a (wake_executor k)) |>)
   else mret tt);;
  mret cleared.

Definition poisons (a : AggregateRef) : ST (World B) (list EnginePoison) :=
  acquire;; on_db (list_engine_poisons (Some (ar_kind a, ar_id a)) 256).

Definition aggregate (a : AggregateRef) : ST (World B) (option EngineAggregate) :=
  acquire;; on_db (find_engine_aggregate (ar_kind a) (ar_id a)).

Definition state_counts : ST (World B) (list EngineStateCount) :=
  acquire;; on_db engine_state_counts.

Definition snapshot : ST (World B) EngineSnapshot :=
  acquire;;
  counts ← on_db engine_state_counts;
  waiting ← on_db (list_engine_inbox_waiting 256);
  poisoned ← on_db (list_engine_poisons None 256);
  mret (mkSnapshot counts waiting poisoned).

(** ** Background tasks *)

Definition startup_recovery : ST (World B) (Z * Z * Z) :=
  now ← clock_now;
  acquire;;
  rearmed ← on_db (rearm_engine_inbox_pending now);
  outbox_leases ← on_db reset_engine_outbox_leases;
  job_leases ← on_db reset_engine_job_leases;
  mret (rearmed, outbox_leases, job_leases).

(** One tick of [run_recheck]; errors are logged and the loop goes on. *)
Definition recheck_tick : ST (World B) unit :=
  now ← clock_now;
  opened ← st_try acquire;
  match opened with
  | Ok _ =>
      rearmed ← st_try (on_db (rearm_engine_inbox_waiting now));
      (match rearmed with
       | Ok n => if 0 <? n then modify (λ w, w <| w_wake ::= workers_all |>) else mret tt
       | Err _ => mret tt
       end);;
      st_try (on_db engine_state_counts);;
      mret tt
  | Err _ => mret tt
  end.

(** One tick of [run_housekeeping]. *)
Definition housekeeping_tick : ST (World B) unit :=
  now ← clock_now;
  let before := now - terminal_retention_secs config in
  opened ← st_try acquire;
  match opened with
  | Ok _ => st_try (on_db (purge_engine_terminal_rows before));; mret tt
  | Err _ => mret tt
  end.

(** The network task drains the ACK channel; a [Notify] permit is consumed. *)
Definition take_ack : ST (World B) unit :=
  modify (λ w, w <| w_acks ::= (λ c, c <| ch_queue ::= tail |>) |>).
Definition take_permits : ST (World B) unit :=
  modify (λ w, w <| w_wake ::= (λ k, mkWake (map (λ _, false) (wk_workers k)) false false) |>).
End Runtime.
