(* ===== verification/Engine.v ===== *)
(** * The engine as a whole

    [engine_step] interleaves the operations of every task of the engine: a
    producer's submit, a received ACK, a worker's pass, a claim, a holder's
    completion at any later time, a lease renewal, a publish, the recovery, the
    re-check, the purges and a restart, each under any schedule of storage
    failures and clock readings.  The theorems are about all the states and
    runs of this system. *)

From stdpp Require Import base list strings gmap relations.
From S2P Require Import Prelude Table Storage EngineSchema EngineNext InboxStore OutboxStore JobStore.
From S2P Require Import EngineConfig EngineEffects Worker Executor Runtime.

Local Open Scope Z_scope.

(** ** Purges *)

Definition inbox_done (s : EngineInboxState) : bool :=
  match s with InboxPending => false | _ => true end.

(** A purge removes rows and changes none; what it removes is terminal. *)
Record purge_next {B} (d d' : Db B) : Prop := {
  pn_inbox : ∀ r, r ∈ engine_inbox d' → r ∈ engine_inbox d;
  pn_inbox_kept : ∀ r, r ∈ engine_inbox d → inbox_done (ib_state r) = false → r ∈ engine_inbox d';
  pn_outbox : ∀ r, r ∈ engine_outbox d' → r ∈ engine_outbox d;
  pn_outbox_kept : ∀ r, r ∈ engine_outbox d → ob_state r = OutboxOpen → r ∈ engine_outbox d';
  pn_job : ∀ r, r ∈ engine_job d' → r ∈ engine_job d;
  pn_job_kept : ∀ r, r ∈ engine_job d → job_terminal (jb_state r) = false → r ∈ engine_job d';
  pn_rest : (engine_aggregate d', engine_aggregate_poison d', business d', inbox_sequence d') =
            (engine_aggregate d, engine_aggregate_poison d, business d, inbox_sequence d);
  pn_schema : schema_ok d → schema_ok d';
}.

#[export] Instance purge_next_preorder {B} : PreOrder (@purge_next B).
Proof.
  split; [by intros d; split|].
  intros d1 d2 d3 [I1 K1 O1 L1 J1 M1 R1 S1] [I2 K2 O2 L2 J2 M2 R2 S2].
  split; auto. congruence.
Qed.

Section Purge.
Context {B : Type}.

Lemma inbox_delete_purge p :
  (∀ r, p r = true → inbox_done (ib_state r) = true) →
  guarantee (purge_next (B := B)) (inbox_delete p).
Proof.
  intros Hp. apply guarantee_stmt; [apply _|]. intros d. split; cbn; try done.
  - by intros r [Hr _]%elem_of_delete_where.
  - intros r Hr Hd. apply elem_of_delete_where. split; [done|].
    destruct (p r) eqn:E; [|done]. apply Hp in E. congruence.
  - intros [H1 H2 H3 H4 H5 H6 H7]. split; cbn; try done; try by apply NoDup_map_filter.
    intros r [Hr _]%elem_of_delete_where. auto.
Qed.

Lemma purge_inbox_terminal_purge before :
  guarantee (purge_next (B := B)) (purge_inbox_terminal before).
Proof.
  apply inbox_delete_purge. unfold in_inbox_state. intros r Hr.
  by destruct (ib_state r).
Qed.

Lemma purge_rejected_purge before :
  guarantee (purge_next (B := B)) (purge_rejected_network_inbox_rows before).
Proof.
  apply inbox_delete_purge. unfold in_inbox_state. intros r Hr. brefl.
  match goal with Hs : ib_state r = _ |- _ => by rewrite Hs end.
Qed.

Lemma purge_outbox_closed_purge before :
  guarantee (purge_next (B := B)) (purge_outbox_closed before).
Proof.
  apply guarantee_stmt; [apply _|]. intros d. split; cbn; try done.
  - by intros r [Hr _]%elem_of_delete_where.
  - intros r Hr Hd. apply elem_of_delete_where. split; [done|]. by rewrite Hd.
  - intros [H1 H2 H3 H4 H5 H6 H7]. split; cbn; try done. by apply NoDup_map_filter.
Qed.

Lemma purge_jobs_terminal_purge before :
  guarantee (purge_next (B := B)) (purge_jobs_terminal before).
Proof.
  apply guarantee_stmt; [apply _|]. intros d. split; cbn; try done.
  - by intros r [Hr _]%elem_of_delete_where.
  - intros r Hr Hd. apply elem_of_delete_where. split; [done|]. by rewrite Hd.
  - intros [H1 H2 H3 H4 H5 H6 H7]. split; cbn; try done. by apply NoDup_map_filter.
Qed.

Lemma purge_engine_terminal_rows_purge before :
  guarantee (purge_next (B := B)) (purge_engine_terminal_rows before).
Proof.
  unfold purge_engine_terminal_rows. guar;
    auto using purge_inbox_terminal_purge, purge_outbox_closed_purge, purge_jobs_terminal_purge.
Qed.

Definition world_purge (w w' : World B) : Prop := purge_next (w_db w) (w_db w').

#[export] Instance world_purge_preorder : PreOrder world_purge.
Proof.
  unfold world_purge. split; [intros w; reflexivity|]. intros w1 w2 w3 H1 H2. by etrans.
Qed.

Lemma on_db_purge {A} (m : ST (Db B) A) :
  guarantee purge_next m → guarantee world_purge (on_db m).
Proof. intros Hm. eapply guarantee_focus; [exact Hm|]. done. Qed.

Lemma housekeeping_tick_purge config : guarantee world_purge (housekeeping_tick config).
Proof.
  unfold housekeeping_tick. guar; apply guarantee_try.
  - apply guarantee_stmt; [apply _|]. intros w. cbn. reflexivity.
  - apply on_db_purge, purge_engine_terminal_rows_purge.
Qed.
End Purge.

(** ** The handle and the background tasks follow [engine_next] *)

Section RuntimeNext.
Context {B : Type} `{AckSetJson} `{JobResultJson} `{Transport}.

Ltac runtime :=
  guar; try (apply guarantee_try; guar); try (by apply modify_next); auto with guar.

Lemma submit_next event : guarantee (world_next (B := B)) (submit event).
Proof.
  unfold submit. runtime.
  intros w env. unfold world_next, final. destruct (try_send _ _). cbn. reflexivity.
Qed.

Lemma acknowledge_next peer delivery_id :
  guarantee (world_next (B := B)) (acknowledge peer delivery_id).
Proof. unfold acknowledge. runtime. apply on_db_next. guar. Qed.

Lemma notify_next refs : guarantee (world_next (B := B)) (notify refs).
Proof. unfold notify. runtime. Qed.

Lemma clear_poison_next a action : guarantee (world_next (B := B)) (clear_poison a action).
Proof. unfold clear_poison. runtime. Qed.

Lemma startup_recovery_next : guarantee (world_next (B := B)) startup_recovery.
Proof. unfold startup_recovery. runtime. Qed.

Lemma recheck_tick_next : guarantee (world_next (B := B)) recheck_tick.
Proof. unfold recheck_tick. runtime. Qed.
End RuntimeNext.

(** ** The step relation *)

Section Steps.
Context {B : Type} `{AckSetJson} `{JobResultJson} `{Transport}.
Context (config : EngineConfig).
Context (handlers : string → option (Handler B)).
Context (registry : string → string → option (JobRunner B)).

(** How a producer may change the node's rows in the transaction of its event. *)
Context (producer : B → B → Prop).

(** A step of a task that deletes nothing.  A holder's operations (processing an
    event, running and completing a job, renewing its lease, publishing a row)
    take any row as the copy the task holds: other steps may have come between
    the read and the operation. *)
Inductive task_step_in : World B → World B → Prop :=
| step_submit event w e : task_step_in w (final (submit event w e))
| step_acknowledge peer delivery_id w e :
    task_step_in w (final (acknowledge peer delivery_id w e))
| step_notify refs w e : task_step_in w (final (notify refs w e))
| step_clear_poison a action w e : task_step_in w (final (clear_poison a action w e))
| step_submit_in b event w e :
    producer (business (w_db w)) b →
    task_step_in w (final (on_db (transaction (
      in_tx (stmt (λ d, (tt, d <| business := b |>)));;
      in_tx (submit_in event);;
      commit)) w e))
| step_wake_for a w e : task_step_in w (final (wake_for a w e))
| step_wake_all w e : task_step_in w (final (wake_all w e))
| step_worker n shard count w e :
    task_step_in w (final (drain_shard config handlers n shard count 0 w e))
| step_process event w e : task_step_in w (final (process_event config handlers event w e))
| step_claim pool permits w e : task_step_in w (final (claim_and_spawn config pool permits w e))
| step_lapsed w e : task_step_in w (final (finish_lapsed_cancelled w e))
| step_executor permits w e : task_step_in w (final (executor_pass config permits w e))
| step_run job w e : task_step_in w (final (run_job config registry job w e))
| step_finish job generation finish w e :
    task_step_in w (final (record_job_finish config job generation finish w e))
| step_renew job_id generation w e :
    task_step_in w (final (renewal_tick config job_id generation w e))
| step_claim_outbox now lease_until n w e :
    task_step_in w (final (on_db (claim_due_engine_outbox_messages now lease_until n) w e))
| step_publish fuel w e : task_step_in w (final (drain_outbox config fuel 0 w e))
| step_publish_row row w e : task_step_in w (final (publish_row config row w e))
| step_recovery w e : task_step_in w (final (startup_recovery w e))
| step_recheck w e : task_step_in w (final (recheck_tick w e))
| step_take_ack w e : task_step_in w (final (take_ack w e))
| step_take_permits w e : task_step_in w (final (take_permits w e))
| step_restart w : task_step_in w (build config (w_db w)).

(** A step of the engine: a task's step or a purge. *)
Inductive engine_step_in : World B → World B → Prop :=
| step_task w w' : task_step_in w w' → engine_step_in w w'
| step_housekeeping w e : engine_step_in w (final (housekeeping_tick config w e))
| step_purge_rejected before w e :
    engine_step_in w (final (on_db (purge_rejected_network_inbox_rows before) w e)).

End Steps.

Section Engine.
Context {B : Type} `{AckSetJson} `{JobResultJson} `{Transport}.
Context (config : EngineConfig).
Context (handlers : string → option (Handler B)).
Context (registry : string → string → option (JobRunner B)).

(** With any producer. *)
Definition task_step : World B → World B → Prop :=
  task_step_in config handlers registry (λ _ _, True).
Definition engine_step : World B → World B → Prop :=
  engine_step_in config handlers registry (λ _ _, True).

(** The handlers and runners of the node change the engine's tables only
    through the store's statements. *)
Class NodeLaws : Prop := {
  node_handlers : ∀ k h, handlers k = Some h → HandlerLaws h;
  node_runners : ∀ k a r, registry k a = Some r →
    ∀ now job w e, world_next w (r now job w e).1.2;
}.

Context `{!NodeLaws}.

Lemma task_step_next w w' : task_step w w' → world_next w w'.
Proof.
  destruct 1.
  - apply submit_next.
  - apply acknowledge_next.
  - apply notify_next.
  - apply clear_poison_next.
  - apply on_db_next. guar; [|unfold submit_in; guar].
    apply guarantee_stmt; [apply _|]. intros d. apply next_business.
  - by apply modify_next.
  - by apply modify_next.
  - apply drain_shard_next, node_handlers.
  - apply process_event_next, node_handlers.
  - apply claim_and_spawn_next.
  - apply finish_lapsed_cancelled_next.
  - apply executor_pass_next.
  - apply run_job_next, node_runners.
  - apply record_job_finish_next.
  - apply renewal_tick_next.
  - apply on_db_next. auto with guar.
  - apply drain_outbox_next.
  - apply publish_row_next.
  - apply startup_recovery_next.
  - apply recheck_tick_next.
  - by apply modify_next.
  - by apply modify_next.
  - unfold world_next. cbn. reflexivity.
Qed.

Lemma engine_step_cases w w' : engine_step w w' → world_next w w' ∨ world_purge w w'.
Proof.
  destruct 1.
  - left. by apply task_step_next.
  - right. apply housekeeping_tick_purge.
  - right. apply on_db_purge, purge_rejected_purge.
Qed.

Lemma engine_step_schema_ok w w' : engine_step w w' → schema_ok (w_db w) → schema_ok (w_db w').
Proof.
  intros [Hn|Hp]%engine_step_cases Hs; [by destruct (Hn Hs)|by destruct Hp; auto].
Qed.

Lemma engine_step_rows_ok w w' :
  engine_step w w' → schema_ok (w_db w) → rows_ok (w_db w) → rows_ok (w_db w').
Proof.
  intros [Hn|Hp]%engine_step_cases Hs Hok; [by eapply engine_next_rows_ok|].
  destruct Hok, Hp. split; auto.
Qed.

Definition initial (b : B) : World B := build config (empty_db b).

Definition reachable (b : B) (w : World B) : Prop := rtc engine_step (initial b) w.

Lemma reachable_ok b w : reachable b w → schema_ok (w_db w) ∧ rows_ok (w_db w).
Proof.
  unfold reachable. intros Hr.
  cut (schema_ok (w_db (initial b)) ∧ rows_ok (w_db (initial b))).
  - induction Hr as [|w1 w2 w3 Hs Hr IH]; [done|]. intros [Ho Hi]. apply IH.
    split; [by eapply engine_step_schema_ok|by eapply engine_step_rows_ok].
  - split; [apply empty_db_schema_ok|]. split; by intros r Hr'%not_elem_of_nil.
Qed.
End Engine.
