(* ===== verification/EngineBusiness.v ===== *)
(** * The node's rows under the engine

    The engine's own statements leave the node's tables alone: they change only in
    a producer's transaction, in an apply and in a job.  So an order of the node's
    rows that those three follow is followed by every step of the engine. *)

From stdpp Require Import base list strings gmap relations.
From S2P Require Import Prelude Table Storage EngineSchema EngineNext InboxStore OutboxStore JobStore.
From S2P Require Import EngineConfig EngineEffects Worker Executor Runtime Engine.

Local Open Scope Z_scope.

Section Business.
Context {B : Type} (R : B → B → Prop) `{!PreOrder R}.
Context `{AckSetJson} `{JobResultJson} `{Transport}.

Definition rows_next (d d' : Db B) : Prop := R (business d) (business d').
Definition world_rows (w w' : World B) : Prop := rows_next (w_db w) (w_db w').

#[local] Instance rows_next_preorder : PreOrder rows_next.
Proof. unfold rows_next. split; [by intros d|]. intros a b c Hab Hbc. by etrans. Qed.
#[local] Instance world_rows_preorder : PreOrder world_rows.
Proof. unfold world_rows. split; [by intros w|]. intros a b c Hab Hbc. by etrans. Qed.

(** A statement that does not mention the node's rows. *)
Lemma stmt_rows {A} (f : Db B → A * Db B) :
  (∀ d, business (f d).2 = business d) → guarantee rows_next (stmt f).
Proof. intros Hf. apply guarantee_stmt; [apply _|]. intros d. unfold rows_next. by rewrite Hf. Qed.

Ltac rows :=
  guar; try (apply stmt_rows; intros ?; cbn; repeat case_match; by simplify_eq/=).

(** ** Statements *)

Lemma insert_inbox_rows event now : guarantee rows_next (insert_engine_inbox_event event now).
Proof. unfold insert_engine_inbox_event, inbox_update. rows. Qed.

Lemma inbox_update_rows p f : guarantee rows_next (inbox_update p f).
Proof. unfold inbox_update. rows. Qed.

Lemma outbox_update_rows p f : guarantee rows_next (outbox_update p f).
Proof. unfold outbox_update. rows. Qed.

Lemma job_update_rows p f : guarantee rows_next (job_update p f).
Proof. unfold job_update. rows. Qed.

Hint Resolve insert_inbox_rows inbox_update_rows outbox_update_rows job_update_rows : guar.

Lemma upsert_aggregate_rows kind id update now :
  guarantee rows_next (upsert_engine_aggregate kind id update now).
Proof. unfold upsert_engine_aggregate, find_engine_aggregate. rows. Qed.

Lemma mark_poisoned_rows kind id action reason now f :
  guarantee rows_next (mark_engine_aggregate_poisoned kind id action reason now f).
Proof. unfold mark_engine_aggregate_poisoned. rows. Qed.

Lemma release_poison_rows kind id action :
  guarantee rows_next (release_engine_poison kind id action).
Proof. unfold release_engine_poison. rows. Qed.

Lemma insert_outbox_rows message now :
  guarantee rows_next (insert_engine_outbox_message message now).
Proof. unfold insert_engine_outbox_message. rows. Qed.

Lemma claim_outbox_rows_rows ids now lease :
  guarantee rows_next (claim_outbox_rows ids now lease).
Proof. induction ids; cbn [claim_outbox_rows]; unfold claim_outbox_row; rows. Qed.

Lemma insert_job_rows job now : guarantee rows_next (insert_engine_job job now).
Proof. unfold insert_engine_job, find_engine_job. rows. Qed.

Lemma claim_jobs_rows ids now lease : guarantee rows_next (claim_jobs ids now lease).
Proof. induction ids; cbn [claim_jobs]; unfold claim_job; rows. Qed.

Lemma cancel_job_rows id now : guarantee rows_next (cancel_engine_job id now).
Proof. unfold cancel_engine_job. rows. Qed.

Lemma cancel_jobs_rows ids now : guarantee rows_next (cancel_jobs ids now).
Proof. induction ids; cbn [cancel_jobs]; rows. apply cancel_job_rows. Qed.

Lemma cancel_phase_rows kind id phase now :
  guarantee rows_next (cancel_engine_jobs_for_phase kind id phase now).
Proof. unfold cancel_engine_jobs_for_phase. rows. apply cancel_jobs_rows. Qed.

Lemma wake_waiting_rows refs now : guarantee rows_next (wake_engine_inbox_waiting refs now).
Proof. induction refs; cbn [wake_engine_inbox_waiting]; rows. Qed.

Lemma finish_job_rows id g finish now : guarantee rows_next (finish_engine_job id g finish now).
Proof. unfold finish_engine_job, find_engine_job. rows. Qed.

Lemma finish_lapsed_business now : guarantee rows_next (finish_lapsed_cancelled_engine_jobs now).
Proof. unfold finish_lapsed_cancelled_engine_jobs. rows. Qed.

Lemma acknowledge_rows_rows peer id now rows :
  guarantee rows_next (acknowledge_rows peer id now rows).
Proof. induction rows; cbn [acknowledge_rows]; unfold acknowledge_row; rows. Qed.

Hint Resolve upsert_aggregate_rows mark_poisoned_rows release_poison_rows insert_outbox_rows
  claim_outbox_rows_rows insert_job_rows claim_jobs_rows cancel_job_rows cancel_phase_rows
  wake_waiting_rows finish_job_rows finish_lapsed_business acknowledge_rows_rows : guar.

(** ** Tasks *)

Lemma on_db_rows {A} (m : ST (Db B) A) : guarantee rows_next m → guarantee world_rows (on_db m).
Proof. intros Hm. eapply guarantee_focus; [exact Hm|]. done. Qed.

Lemma acquire_rows : guarantee world_rows acquire.
Proof. apply guarantee_stmt; [apply _|]. intros w. cbn. reflexivity. Qed.

Lemma modify_rows (f : World B → World B) :
  (∀ w, w_db (f w) = w_db w) → guarantee world_rows (modify f).
Proof. intros Hf w e. unfold world_rows. cbn. rewrite Hf. reflexivity. Qed.

Hint Resolve acquire_rows : guar.

Ltac tasks :=
  repeat first
    [ progress guar
    | apply guarantee_try
    | apply on_db_rows
    | by apply modify_rows
    | progress rows ].

Lemma dispatch_rows post : guarantee world_rows (dispatch post).
Proof. unfold dispatch. guar; apply modify_rows; intros w; by repeat case_match. Qed.

Lemma write_effects_rows config event a current effects waiting now :
  guarantee rows_next (write_effects config event a current effects waiting now).
Proof.
  unfold write_effects, insert_effect_outbox, close_engine_outbox, insert_effect_job,
    apply_job_cancel, cancel_engine_jobs_for_aggregate, mark_engine_inbox_applied,
    mark_engine_inbox_waiting. rows.
Qed.

Lemma poison_rows config event reason : guarantee world_rows (poison config event reason).
Proof. unfold poison, mark_engine_inbox_poisoned. tasks. Qed.

Lemma retry_at_rows event err next_at : guarantee world_rows (schedule_retry_at event err next_at).
Proof. unfold schedule_retry_at, mark_engine_inbox_retry. tasks. Qed.

Lemma insert_result_rows job g stale result now :
  guarantee rows_next (insert_job_result job g stale result now).
Proof. unfold insert_job_result. rows. Qed.

Hint Resolve dispatch_rows write_effects_rows poison_rows retry_at_rows insert_result_rows : guar.

Lemma lapsed_rows : guarantee world_rows finish_lapsed_cancelled.
Proof. unfold finish_lapsed_cancelled. tasks. Qed.

Lemma claim_rows config pool permits : guarantee world_rows (claim_and_spawn config pool permits).
Proof.
  induction permits; cbn [claim_and_spawn]; unfold claim_due_engine_jobs; tasks.
Qed.

Lemma record_finish_rows config job g finish :
  guarantee world_rows (record_job_finish config job g finish).
Proof. unfold record_job_finish, write_job_finish, completion_poison. tasks. Qed.

Lemma renewal_rows config id g : guarantee world_rows (renewal_tick config id g).
Proof. unfold renewal_tick, renew_engine_job_lease, find_engine_job. tasks. Qed.

Lemma publish_row_rows config row : guarantee world_rows (publish_row config row).
Proof.
  unfold publish_row, record_engine_outbox_publish, record_engine_outbox_publish_failure. tasks.
  intros w e. unfold publish, final. by destruct (transport_publish _ _ e) as [o e'].
Qed.

Lemma drain_outbox_rows config fuel published :
  guarantee world_rows (drain_outbox config fuel published).
Proof.
  revert published. induction fuel as [|fuel IH]; intros published; cbn [drain_outbox];
    unfold claim_due_engine_outbox_messages; tasks.
  match goal with |- guarantee _ (publish_batch _ ?batch) => induction batch end;
    cbn [publish_batch]; tasks. apply publish_row_rows.
Qed.

Lemma housekeeping_rows config : guarantee world_rows (housekeeping_tick config).
Proof.
  unfold housekeeping_tick, purge_engine_terminal_rows, purge_inbox_terminal, inbox_delete,
    purge_outbox_closed, purge_jobs_terminal. tasks.
Qed.

Hint Resolve lapsed_rows claim_rows : guar.

Lemma executor_rows config permits : guarantee world_rows (executor_pass config permits).
Proof. unfold executor_pass. tasks. Qed.

Lemma runtime_rows :
  (∀ event, guarantee world_rows (submit event)) ∧
  (∀ peer id, guarantee world_rows (acknowledge peer id)) ∧
  (∀ refs, guarantee world_rows (notify refs)) ∧
  (∀ a action, guarantee world_rows (clear_poison a action)) ∧
  guarantee world_rows startup_recovery ∧ guarantee world_rows recheck_tick.
Proof.
  unfold submit, acknowledge, acknowledge_engine_outbox, notify, clear_poison,
    clear_engine_aggregate_poison, startup_recovery, recheck_tick, rearm_engine_inbox_pending,
    rearm_engine_inbox_waiting, reset_engine_outbox_leases, reset_engine_job_leases,
    engine_state_counts.
  split_and!; intros; tasks.
  intros w env. unfold world_rows, final. by destruct (try_send _ _).
Qed.

(** ** The engine *)

Context (config : EngineConfig).
Context (handlers : string → option (Handler B)).
Context (registry : string → string → option (JobRunner B)).

(** The applies and the jobs follow the order. *)
Class RowLaws : Prop := {
  rl_handlers : ∀ k h, handlers k = Some h →
    ∀ ctx event d e, rows_next d (h ctx event d e).1.2;
  rl_runners : ∀ k a r, registry k a = Some r →
    ∀ now job w e, world_rows w (r now job w e).1.2;
}.
Context `{!RowLaws}.

Lemma process_event_rows event : guarantee world_rows (process_event config handlers event).
Proof.
  unfold process_event, mark_engine_inbox_failed.
  destruct (handlers _) as [h|] eqn:Hh; unfold schedule_retry; tasks.
  unfold apply_transaction, commit_apply, find_engine_aggregate. tasks.
  intros t env d Hc Hw. unfold run_handler.
  match goal with |- context [h ?c ?ev ?d0 env] => pose proof (rl_handlers _ _ Hh c ev d0 env) as Hn;
    destruct (h c ev d0 env) as [[[x eff] d'] e'] end.
  cbn in *. split; [done|by etrans].
Qed.

Lemma run_job_rows job : guarantee world_rows (run_job config registry job).
Proof.
  unfold run_job. apply guarantee_bind; [apply _|guar|]. intros now.
  destruct (deadline_passed job now); [guar|].
  destruct (registry _ _) as [runner|] eqn:Hr; guar; [|unfold finish_of_exit; guar].
  intros w e. pose proof (rl_runners _ _ _ Hr now job w e) as Hok.
  unfold run_runner, final. by destruct (runner now job w e) as [[exit w'] e'].
Qed.

Lemma drain_shard_rows n shard count processed :
  guarantee world_rows (drain_shard config handlers n shard count processed).
Proof.
  revert processed. induction n as [|n IH]; intros processed; cbn [drain_shard];
    unfold next_runnable_engine_inbox_event; tasks. apply process_event_rows.
Qed.
End Business.

(** ** Producers *)

Section Producers.
Context {B : Type} `{AckSetJson} `{JobResultJson} `{Transport}.
Context (config : EngineConfig).
Context (handlers : string → option (Handler B)).
Context (registry : string → string → option (JobRunner B)).
Context (R : B → B → Prop) `{!PreOrder R} `{!RowLaws R handlers registry}.

(** A producer's transaction: its rows and an event. *)
Definition produce (b : B) (event : NewEvent) : ST (World B) unit :=
  on_db (transaction (
    in_tx (stmt (λ d, (tt, d <| business := b |>)));;
    in_tx (submit_in event);;
    commit)).

(** It leaves the old rows or the new ones. *)
Lemma produce_cases b event w e :
  let b' := business (w_db (final (produce b event w e))) in b' = business (w_db w) ∨ b' = b.
Proof.
  set (P := λ x, x = business (w_db w) ∨ x = b).
  assert (Hg : guarantee (world_rows (keeps P)) (produce b event)).
  { apply on_db_rows, guarantee_transaction; [apply rows_next_preorder, _|].
    assert (PreOrder (rows_next (B := B) (keeps P))) by apply rows_next_preorder, _.
    guar.
    - apply guarantee_stmt; [apply _|]. intros d _. by right.
    - unfold submit_in. guar. apply insert_inbox_rows, _. }
  apply Hg. by left.
Qed.

(** Every step of the engine follows the order, if the producers do. *)
Lemma engine_step_rows w w' :
  engine_step_in config handlers registry R w w' → world_rows R w w'.
Proof.
  pose proof (runtime_rows R) as (R1 & R2 & R3 & R4 & R5 & R6).
  destruct 1 as [w w' Ht| |].
  - destruct Ht;
      first [ apply R1 | apply R2 | apply R3 | apply R4 | apply R5 | apply R6
            | by apply modify_rows | by eapply drain_shard_rows | by eapply process_event_rows
            | by apply claim_rows | by apply lapsed_rows | by apply executor_rows
            | by eapply run_job_rows | by apply record_finish_rows | by apply renewal_rows
            | by apply drain_outbox_rows | by apply publish_row_rows | idtac ].
    + unfold world_rows, rows_next. fold (produce b event).
      by destruct (produce_cases b event w e) as [->| ->].
    + apply on_db_rows. unfold claim_due_engine_outbox_messages.
      assert (PreOrder (rows_next (B := B) R)) by apply rows_next_preorder, _.
      guar. by apply claim_outbox_rows_rows.
    + unfold world_rows, rows_next. cbn. reflexivity.
  - by apply housekeeping_rows.
  - apply on_db_rows. unfold purge_rejected_network_inbox_rows, inbox_delete. by apply stmt_rows.
Qed.

Lemma engine_steps_rows w w' :
  rtc (engine_step_in config handlers registry R) w w' →
  R (business (w_db w)) (business (w_db w')).
Proof.
  induction 1 as [w|w1 w2 w3 Hs _ IH]; [reflexivity|]. apply engine_step_rows in Hs.
  by etrans.
Qed.
End Producers.
