(* ===== verification/Sample.v ===== *)
(** * A concrete node

    Instances of what the engine takes as parameters (the JSON codecs, the
    transport, the handlers and the runners) with their laws, so that the
    theorems are evaluated on concrete inputs.  The codecs are not JSON: any
    codec that satisfies the laws will do. *)

From Stdlib Require Import Ascii.
From stdpp Require Import base list strings gmap pretty countable relations.
From S2P Require Import Prelude Table Storage EngineSchema EngineNext InboxStore OutboxStore JobStore.
From S2P Require Import EngineConfig EngineEffects Worker Executor Runtime Engine.

Local Open Scope Z_scope.
Local Open Scope string_scope.

(** ** Codecs *)

(** Bits of a positive, lowest first, closed by a dot. *)
Fixpoint bits (p : positive) : string :=
  match p with xH => "." | xO p' => "0" +:+ bits p' | xI p' => "1" +:+ bits p' end.

Fixpoint parse_bits (s : string) : option positive :=
  match s with
  | String "."%char _ => Some xH
  | String "0"%char s' => xO <$> parse_bits s'
  | String "1"%char s' => xI <$> parse_bits s'
  | _ => None
  end.

Lemma parse_bits_bits p t : parse_bits (bits p +:+ t) = Some p.
Proof.
  induction p as [p IH|p IH|]; [| |done].
  - change (xI <$> parse_bits (bits p +:+ t) = Some (xI p)). by rewrite IH.
  - change (xO <$> parse_bits (bits p +:+ t) = Some (xO p)). by rewrite IH.
Qed.

Definition concat_values (m : gmap string string) : string :=
  foldr (λ kv s, kv.2 +:+ s) "" (map_to_list m).

#[export] Instance sample_ack_json : AckSetJson := {
  ack_set_json m := Ok (bits (encode m) +:+ concat_values m);
  ack_set_from_str s :=
    if bool_decide (s = "{}") then Ok ∅
    else match parse_bits s ≫= decode with
         | Some m => Ok m
         | None => Err ["expected value"]
         end;
}.

Lemma app_string_nil s : s +:+ "" = s.
Proof. induction s as [|c s IH]; [done|]. change (String c (s +:+ "") = String c s). by rewrite IH. Qed.

Lemma app_string_assoc (a b c : string) : (a +:+ b) +:+ c = a +:+ b +:+ c.
Proof.
  induction a as [|x a IH]; [done|].
  change (String x ((a +:+ b) +:+ c) = String x (a +:+ b +:+ c)). by rewrite IH.
Qed.

Lemma concat_contains (kvs : list (string * string)) k d :
  (k, d) ∈ kvs → ∃ a b, foldr (λ kv s, kv.2 +:+ s) "" kvs = a +:+ d +:+ b.
Proof.
  induction kvs as [|[k' d'] kvs IH]; [by intros ?%not_elem_of_nil|].
  intros [Heq|Hin]%elem_of_cons; cbn [foldr snd].
  - injection Heq as -> ->. by eexists "", _.
  - destruct (IH Hin) as (a & b & ->). exists (d' +:+ a), b. by rewrite app_string_assoc.
Qed.

#[export] Instance sample_ack_json_laws : AckSetJsonLaws (λ _, True).
Proof.
  split.
  - by eexists.
  - intros m txt [= <-]. cbn.
    rewrite bool_decide_eq_false_2.
    + by rewrite parse_bits_bits; cbn; rewrite decode_encode.
    + intros Heq. by destruct (encode m).
  - by cbn.
  - intros m txt peer d _ [= <-] Hm.
    destruct (concat_contains (map_to_list m) peer d) as (a & b & Heq);
      [by apply elem_of_map_to_list|].
    unfold concat_values. rewrite Heq, <- app_string_assoc. apply contains_middle.
Qed.

(** ** Job results, one byte per outcome and the bits of the rest *)

Definition outcome_code (o : JobResultOutcome) : (string + string) + (option string) :=
  match o with
  | ResultDone r => inl (inl r)
  | ResultFailed r => inl (inr r)
  | ResultCancelled => inr None
  | ResultPoisoned r => inr (Some r)
  end.

Definition outcome_of_code (c : (string + string) + (option string)) : JobResultOutcome :=
  match c with
  | inl (inl r) => ResultDone r
  | inl (inr r) => ResultFailed r
  | inr None => ResultCancelled
  | inr (Some r) => ResultPoisoned r
  end.

#[export] Instance sample_job_json : JobResultJson := {
  job_result_to_vec r := Ok (bits (encode (jr_job_id r, jr_phase r, jr_action r,
    jr_generation r, jr_stale r, outcome_code (jr_outcome r))));
  job_result_decode b :=
    match parse_bits b ≫= decode with
    | Some (job_id, phase, action, generation, stale, o) =>
        Ok (mkJobResult job_id phase action generation stale (outcome_of_code o))
    | None => Err ["expected value"]
    end;
}.

#[export] Instance sample_job_json_laws : JobResultJsonLaws.
Proof.
  split; [by eexists|]. intros r b [= <-]. cbn.
  rewrite <- (app_string_nil (bits _)), parse_bits_bits. cbn. rewrite decode_encode.
  destruct r as [? ? ? ? ? []]; done.
Qed.

#[export] Instance sample_transport : Transport := λ topic _ e,
  (if bool_decide (topic = "down") then Err ["no peers"] else Ok tt, e).

(** ** Handlers and runners

    The business table is a counter; the kind of an event decides what its
    handler does. *)

Definition sample_message (id : string) : OutboxMessage :=
  mkOutboxMessage id "phase" "kind" "topic" "payload" (Some {["peer" := "d1"]}).

Definition sample_job : JobSpec := mkJobSpec "job" "phase" "act" PoolCpu "params" None None.

Definition sample_handler : Handler nat := λ ctx event d e,
  let kind := ib_kind event in
  let d' := d <| business ::= S |> in
  if bool_decide (kind = "apply") then
    (Returned (inl Applied),
     enqueue_job sample_job (send (sample_message "out") (set_status "active" no_effects)), d', e)
  else if bool_decide (kind = "wait") then
    (Returned (inl (Waiting (mkWaitingFor "chain:height" "later"))), no_effects, d', e)
  else if bool_decide (kind = "reject") then
    (Returned (inl (Rejected "bad signature")), no_effects, d', e)
  else if bool_decide (kind = "busy") then
    (Returned (inr (Transient ["database is locked"])), no_effects, d', e)
  else if bool_decide (kind = "slow") then (Elapsed, no_effects, d', e)
  else if bool_decide (kind = "panic") then (Panicked "index out of bounds", no_effects, d', e)
  else (Returned (inr (Transient ["rpc"])), no_effects, d', e).

Definition sample_handlers (kind : string) : option (Handler nat) :=
  if bool_decide (kind = "graph") then Some sample_handler else None.

Definition sample_runner : JobRunner nat := λ _ _ w e,
  (RunnerReturned (OutcomeDone "result"), w, e).

Definition sample_registry (kind action : string) : option (JobRunner nat) :=
  if bool_decide (action = "act") then Some sample_runner else None.

#[export] Instance sample_handler_laws : HandlerLaws sample_handler.
Proof.
  intros ctx event d e. unfold sample_handler.
  repeat match goal with |- context [bool_decide ?P] => destruct (bool_decide P) end;
    apply next_business.
Qed.

#[export] Instance sample_node_laws : NodeLaws sample_handlers sample_registry.
Proof.
  split.
  - unfold sample_handlers. intros k h Hk. destruct (bool_decide _); [|done].
    injection Hk as <-. apply _.
  - unfold sample_registry. intros k a r Hr now job w e. destruct (bool_decide _); [|done].
    injection Hr as <-. cbn. reflexivity.
Qed.

(** ** Events and states *)

Definition sample_event (id kind : string) : NewEvent :=
  with_ack "peer" "d0" (new_event id (mkRef "graph" "g1") kind Network "payload").

Definition sample_world : World nat := initial default_config O.

(** The world after submitting one event at time 100. *)
Definition submitted (kind : string) : World nat :=
  final (submit (sample_event "e1" kind) sample_world (quiet 100)).

Definition first_event (w : World nat) : EngineInboxEvent :=
  default (new_inbox_row (into_store (sample_event "none" "none")) 0 0) (head (engine_inbox (w_db w))).

(** The world after the worker's pass over the submitted event, after the job
    it asked for was claimed, and after the job was completed. *)
Definition drained (kind : string) : World nat :=
  final (drain_shard default_config sample_handlers 5 0 1 0 (submitted kind) (quiet 100)).

Definition claimed : World nat :=
  final (claim_and_spawn default_config PoolCpu [1%nat] (drained "apply") (quiet 110)).

Definition first_job (w : World nat) : EngineJob :=
  default (new_job_row (mkNewJob "none" "" "" "" "" "" "" None 0) 0) (head (engine_job (w_db w))).

Definition completed : World nat :=
  final (record_job_finish default_config (first_job claimed) 1 (FinishDone "result")
           claimed (quiet 120)).

Lemma sample_submit_reachable kind :
  reachable default_config sample_handlers sample_registry O (submitted kind).
Proof. eapply rtc_l; [apply step_task, step_submit|apply rtc_refl]. Qed.

Lemma sample_drain_step kind :
  task_step default_config sample_handlers sample_registry (submitted kind) (drained kind).
Proof. apply step_worker. Qed.

Lemma sample_claim_step :
  task_step default_config sample_handlers sample_registry (drained "apply") claimed.
Proof. apply step_claim. Qed.

Lemma sample_claimed_reachable :
  reachable default_config sample_handlers sample_registry O claimed.
Proof.
  eapply rtc_r; [eapply rtc_r; [apply (sample_submit_reachable "apply")|]|].
  - apply step_task, sample_drain_step.
  - apply step_task, sample_claim_step.
Qed.

(** The claimed world after its job's generation was completed by the store. *)
Definition fenced : World nat :=
  claimed <| w_db := (finish_engine_job "job" 1 (FinishDone "r") 120 (w_db claimed) (quiet 120)).1.2 |>.

(** The claimed world after the only peer acknowledged the message. *)
Definition acked : World nat := final (acknowledge "peer" "d1" claimed (quiet 115)).

Definition first_message (w : World nat) : OutboxRow :=
  default (new_outbox_row (mkNewOutboxMessage "" "" "" "" "" "" "" None 0) None 0)
    (head (engine_outbox (w_db w))).

Lemma sample_acked_reachable :
  reachable default_config sample_handlers sample_registry O acked.
Proof. eapply rtc_r; [apply sample_claimed_reachable|]. apply step_task, step_acknowledge. Qed.

(** One event of each kind, processed at time 100. *)
Definition processed (kind : string) : outcome ProcessOutcome * World nat * Env :=
  process_event default_config sample_handlers (first_event (submitted kind)) (submitted kind)
    (quiet 100).

Lemma run_eq {S A} (r : outcome A * S * Env) : r = (r.1.1, final r, r.2).
Proof. by destruct r as [[o s] e]. Qed.

Lemma sample_handlers_quiet k h :
  sample_handlers k = Some h → ∀ ctx event d now, (h ctx event d (quiet now)).2 = quiet now.
Proof.
  unfold sample_handlers. destruct (bool_decide _); [|done]. intros [= <-] ctx event d now.
  unfold sample_handler.
  by repeat match goal with |- context [bool_decide ?P] => destruct (bool_decide P) end.
Qed.

Lemma processed_eq kind :
  process_event default_config sample_handlers (first_event (submitted kind)) (submitted kind)
    (quiet 100) = ((processed kind).1.1, final (processed kind), (processed kind).2).
Proof. apply run_eq. Qed.
