(* ===== verification/EngineRuns.v ===== *)
(** * Properties of every run of the engine

    What holds in every reachable state, and how the rows of the tables change
    along every run: the purges and restarts included for the inbox (whose
    rows are identified by their sequence number), between purges for the
    outbox and the jobs (whose identifiers may be used again after a purge).  Then who may end a pending event.

    Source: crates/engine/src/, crates/store/src/engine/mod.rs. *)

From stdpp Require Import base list strings gmap relations pretty.
From S2P Require Import Prelude Table Storage EngineSchema EngineNext InboxStore OutboxStore JobStore.
From S2P Require Import EngineConfig EngineEffects Worker Executor Runtime Engine Sample.

Local Open Scope Z_scope.

(** ** One step *)

Lemma engine_next_origin {B} (d d' : Db B) r' :
  schema_ok d → engine_next d d' → r' ∈ engine_inbox d' → ib_seq r' ≤ inbox_sequence d →
  ∃ r, r ∈ engine_inbox d ∧ ib_seq r = ib_seq r' ∧ inbox_next r r'.
Proof.
  intros Hs Hn Hr' Hle. destruct (Hn Hs) as [Hs' Hi _ _ _ _ Hf].
  destruct (evolves_rows _ _ _ _ _ Hi _ Hr') as [(r & Hr & _ & HR)|[_ Hno]].
  { exists r. split_and!; [done| |done]. destruct HR as [Hid _ _ _ _]. congruence. }
  destruct Hno. specialize (Hf _ Hr' Hle). apply In_map_iff in Hf as (x & Hx & Hseq).
  pose proof (evolves_keys _ _ _ _ _ Hi x Hx) as (x' & Hx' & Hkey)%In_map_iff.
  assert (inbox_next x x') as [Hid _ _ _ _].
  { eapply (evolves_same_key ib_event_id); [apply Hs|exact Hi|done..]. }
  assert (r' = x') as ->.
  { apply (NoDup_map_inj ib_seq (engine_inbox d')); [apply Hs'|done|done|congruence]. }
  apply In_map_iff. exists x. split; [done|congruence].
Qed.

(** ** The completion fence *)

Lemma finish_applied_row {B} id g f now (d d' : Db B) e e' st :
  schema_ok d → finish_engine_job id g f now d e = (Ok (FinishApplied st), d', e') →
  ∃ j, j ∈ engine_job d' ∧ jb_job_id j = id ∧ jb_generation j = g ∧
    jb_state j ≠ JobRunning ∧ schema_ok d'.
Proof.
  intros Hs Hf. pose proof (finish_engine_job_next id g f now d e Hs) as Hn.
  rewrite Hf in Hn. destruct Hn as [Hs' _ _ _ _ _ _].
  unfold finish_engine_job, find_engine_job, query, job_update, mbind, st_bind, stmt in Hf.
  destruct (next_fault e) as [[] e1]; [done|]. unfold select_one in Hf.
  destruct (List.find _ _) as [c|] eqn:Hfind; [|done].
  apply find_some_elem in Hfind as [Hc Hid]. unfold has_job_id in Hid. brefl.
  destruct (negb _ || negb _) eqn:Hheld; [done|]. brefl.
  destruct (finish_columns _ _) as [[[s res] err] nx] eqn:Hcols.
  destruct (next_fault e1) as [[] e2]; [done|].
  destruct (count_where _ _ =? 0); [done|]. injection Hf as <- <- <-.
  exists (finished_job s res err nx now c). split_and!; cbn; try done.
  - apply elem_of_update_where. exists c. split; [done|].
    unfold held_by, has_job_id. rewrite bool_decide_eq_true_2 by done.
    match goal with Hx : in_job_state _ _ = true |- _ => rewrite Hx end.
    by rewrite (proj2 (Z.eqb_eq _ _)) by done.
  - by eapply finish_columns_not_running.
Qed.

Lemma finish_not_applied {B} id g f now (d : Db B) e :
  (∀ r, r ∈ engine_job d → jb_job_id r = id → jb_generation r ≠ g ∨ jb_state r ≠ JobRunning) →
  ∀ st, (finish_engine_job id g f now d e).1.1 ≠ Ok (FinishApplied st).
Proof.
  intros Hno st. unfold finish_engine_job, find_engine_job, query, mbind, st_bind, stmt.
  destruct (next_fault e) as [[] e1]; [done|]. unfold select_one.
  destruct (List.find _ _) as [c|] eqn:Hfind; [|done].
  apply find_some_elem in Hfind as [Hc Hid]. unfold has_job_id in Hid. brefl.
  destruct (negb _ || negb _) eqn:Hheld; [done|]. unfold in_job_state in Hheld. brefl.
  by destruct (Hno c Hc Hid).
Qed.

Section Runs.
Context {B : Type} `{AckSetJson} `{JobResultJson} `{Transport}.
Context (config : EngineConfig).
Context (handlers : string → option (Handler B)).
Context (registry : string → string → option (JobRunner B)).
Context {laws : NodeLaws handlers registry}.

Abbreviation estep := (engine_step config handlers registry).
Abbreviation tstep := (task_step config handlers registry).

Lemma engine_step_origin w w' r' :
  estep w w' → schema_ok (w_db w) →
  r' ∈ engine_inbox (w_db w') → ib_seq r' ≤ inbox_sequence (w_db w) →
  ∃ r, r ∈ engine_inbox (w_db w) ∧ ib_seq r = ib_seq r' ∧ inbox_next r r'.
Proof using laws.
  intros Hst Hs Hr' Hle.
  destruct (engine_step_cases _ _ _ _ _ Hst) as [Hn|Hp]; [by eapply engine_next_origin|].
  exists r'. split_and!; [by apply (pn_inbox _ _ Hp)|done|reflexivity].
Qed.

Lemma engine_step_sequence w w' :
  estep w w' → schema_ok (w_db w) → inbox_sequence (w_db w) ≤ inbox_sequence (w_db w').
Proof using laws.
  intros Hst Hs.
  destruct (engine_step_cases _ _ _ _ _ Hst) as [Hn|Hp]; [by destruct (Hn Hs)|].
  pose proof (pn_rest _ _ Hp). replace (inbox_sequence (w_db w')) with (inbox_sequence (w_db w));
    [lia|congruence].
Qed.

Lemma run_origin w w' r' :
  rtc estep w w' → schema_ok (w_db w) →
  r' ∈ engine_inbox (w_db w') → ib_seq r' ≤ inbox_sequence (w_db w) →
  ∃ r, r ∈ engine_inbox (w_db w) ∧ ib_seq r = ib_seq r' ∧ inbox_next r r'.
Proof using laws.
  induction 1 as [w|w1 w2 w3 H12 H23 IH]; intros Hs Hr' Hle; [exists r'; by split_and!|].
  pose proof (engine_step_sequence _ _ H12 Hs) as Hq.
  destruct IH as (r2 & Hr2 & Hs2 & HR2);
    [by eapply engine_step_schema_ok|done|lia|].
  destruct (engine_step_origin _ _ _ H12 Hs Hr2) as (r1 & Hr1 & Hs1 & HR1); [lia|].
  exists r1. split_and!; [done|congruence|by etrans].
Qed.

(** Along task steps the database follows [engine_next]. *)
Lemma task_run_next w w' : rtc tstep w w' → world_next w w'.
Proof using laws.
  induction 1 as [|w1 w2 w3 H12 _ IH]; [reflexivity|].
  etrans; [by eapply task_step_next|done].
Qed.

Lemma task_run_job w w' r r' :
  schema_ok (w_db w) → rtc tstep w w' →
  r ∈ engine_job (w_db w) → r' ∈ engine_job (w_db w') → jb_job_id r = jb_job_id r' →
  job_next r r'.
Proof using laws.
  intros Hs Hrun%task_run_next. destruct (Hrun Hs) as [_ _ _ _ Hj _ _].
  by apply (evolves_same_key _ _ _ _ _ _ _ (job_id_unique _ Hs) Hj).
Qed.

Lemma task_run_outbox w w' r r' :
  schema_ok (w_db w) → rtc tstep w w' →
  r ∈ engine_outbox (w_db w) → r' ∈ engine_outbox (w_db w') → ob_outbox_id r = ob_outbox_id r' →
  outbox_next r r'.
Proof using laws.
  intros Hs Hrun%task_run_next. destruct (Hrun Hs) as [_ _ _ Ho _ _ _].
  by apply (evolves_same_key _ _ _ _ _ _ _ (outbox_id_unique _ Hs) Ho).
Qed.

(** A task keeps every row of the inbox, a purge removes only finished ones. *)
Lemma engine_step_keeps w w' r :
  estep w w' → schema_ok (w_db w) → r ∈ engine_inbox (w_db w) →
  (∃ r', r' ∈ engine_inbox (w_db w') ∧ ib_seq r' = ib_seq r) ∨ inbox_done (ib_state r) = true.
Proof using laws.
  intros Hst Hs Hr. destruct (engine_step_cases _ _ _ _ _ Hst) as [Hn|Hp].
  - left. destruct (Hn Hs) as [_ Hi _ _ _ _ _].
    pose proof (evolves_keys _ _ _ _ _ Hi r Hr) as (r' & Hr' & Hk)%In_map_iff.
    exists r'. split; [done|].
    destruct (evolves_same_key _ _ _ _ _ _ _ (inbox_event_id_unique _ Hs) Hi Hr Hr' Hk)
      as [Hid _ _ _ _]. congruence.
  - destruct (inbox_done (ib_state r)) eqn:E; [by right|]. left. exists r.
    split; [by apply (pn_inbox_kept _ _ Hp)|done].
Qed.

(** ** The theorems *)

(** C5: In every state the engine can reach from an empty database, under any
    interleaving of its tasks, any storage failures, restarts and purges, the
    schema's uniqueness constraints hold and every inbox, outbox and job row is
    well-formed. *)
Theorem reachable_invariant b w :
  reachable config handlers registry b w → schema_ok (w_db w) ∧ rows_ok (w_db w).
Proof using laws. intros Hr. by eapply reachable_ok. Qed.

(** Along any run, purges and restarts included, two versions of the inbox
    row with one sequence number are related by the inbox life cycle: identity
    and attribution never change, the payload is dropped only on apply, and an
    applied or poisoned event never changes again. *)
Theorem inbox_history b w w' r r' :
  reachable config handlers registry b w → rtc estep w w' →
  r ∈ engine_inbox (w_db w) → r' ∈ engine_inbox (w_db w') → ib_seq r = ib_seq r' →
  inbox_next r r'.
Proof using laws.
  intros Hre Hrun Hr Hr' Hseq.
  destruct (reachable_ok _ _ _ _ _ Hre) as [Hs _].
  destruct (run_origin w w' r' Hrun Hs Hr') as (x & Hx & Hxs & HR).
  { rewrite <- Hseq. by apply (inbox_seq_bound _ Hs). }
  by rewrite (NoDup_map_inj ib_seq _ r x (inbox_seq_unique _ Hs) Hr Hx) by congruence.
Qed.

(** An accepted event is never lost: along any run its row is still in the
    inbox, or the run passed through a state in which the event was finished
    (applied, rejected or poisoned). *)
Theorem event_not_lost b w w' r :
  reachable config handlers registry b w → rtc estep w w' → r ∈ engine_inbox (w_db w) →
  (∃ r', r' ∈ engine_inbox (w_db w') ∧ ib_seq r' = ib_seq r) ∨
  (∃ w1 r1, rtc estep w w1 ∧ rtc estep w1 w' ∧ r1 ∈ engine_inbox (w_db w1) ∧
     ib_seq r1 = ib_seq r ∧ inbox_done (ib_state r1) = true).
Proof using laws.
  intros Hre Hrun. destruct (reachable_ok _ _ _ _ _ Hre) as [Hs _].
  clear Hre. revert r Hs.
  induction Hrun as [w|w1 w2 w3 H12 H23 IH]; intros r Hs Hr; [left; by exists r|].
  destruct (engine_step_keeps _ _ _ H12 Hs Hr) as [(r2 & Hr2 & Hq)|Hd].
  - destruct (IH r2) as [(r' & Hr' & Hq')|(wx & rx & Hr1 & Hr2' & Hin & Hq' & Hd)];
      [by eapply engine_step_schema_ok|done| |].
    + left. exists r'. split; [done|congruence].
    + right. exists wx, rx. split_and!; try done; [by eapply rtc_l|congruence].
  - right. exists w1, r. split_and!; try done. by eapply rtc_l.
Qed.

(** Completions are fenced by generation: once a completion of a job's
    generation was applied, no completion of the same generation is applied
    again, however the tasks interleave until the row is purged. *)
Theorem generation_finishes_once w d1 w2 id g f1 f2 n1 n2 e1 e1' e2 st1 :
  schema_ok (w_db w) →
  finish_engine_job id g f1 n1 (w_db w) e1 = (Ok (FinishApplied st1), d1, e1') →
  rtc tstep (w <| w_db := d1 |>) w2 →
  ∀ st2, (finish_engine_job id g f2 n2 (w_db w2) e2).1.1 ≠ Ok (FinishApplied st2).
Proof using laws.
  intros Hs Hf Hrun st2. apply finish_not_applied.
  destruct (finish_applied_row _ _ _ _ _ _ _ _ _ Hs Hf) as (j & Hj & Hid & Hg & Hst & Hs1).
  intros r Hr Hidr.
  assert (job_next j r) as [_ _ Hgen Hcl _ _].
  { eapply task_run_job; [|exact Hrun|..]; cbn; try done. congruence. }
  destruct (decide (jb_state r = JobRunning)) as [Hrr|]; [|by right].
  left. specialize (Hcl Hrr Hst). lia.
Qed.

(** A closed outbox row is final: whatever the tasks do until it is purged,
    the row stays in the table unchanged, so it is never published again. *)
Theorem closed_row_final w w' r :
  schema_ok (w_db w) → rtc tstep w w' →
  r ∈ engine_outbox (w_db w) → ob_state r = OutboxClosed →
  r ∈ engine_outbox (w_db w') ∧ outbox_due (ob_next_at r) r = false.
Proof using laws.
  intros Hs Hrun Hr Hc. split; [|unfold outbox_due, is_open; by rewrite Hc].
  pose proof (task_run_next _ _ Hrun Hs) as [_ _ _ Ho _ _ _].
  pose proof (evolves_keys _ _ _ _ _ Ho r Hr) as (r' & Hr' & Hk)%In_map_iff.
  destruct (task_run_outbox _ _ _ _ Hs Hrun Hr Hr' Hk) as [_ Hfin _ _ _ _].
  by rewrite <- (Hfin Hc).
Qed.
End Runs.

(** ** The theorems at concrete inputs *)

Lemma reachable_invariant_witness : schema_ok (w_db claimed) ∧ rows_ok (w_db claimed).
Proof.
  apply (reachable_invariant default_config sample_handlers sample_registry O).
  apply sample_claimed_reachable.
Defined.

Lemma inbox_history_witness :
  inbox_next (first_event (submitted "apply")) (first_event (drained "apply")).
Proof.
  apply (inbox_history default_config sample_handlers sample_registry O
           (submitted "apply") (drained "apply")).
  - apply sample_submit_reachable.
  - eapply rtc_l; [apply step_task, sample_drain_step|apply rtc_refl].
  - vm_compute. left.
  - vm_compute. left.
  - by vm_compute.
Defined.

Lemma event_not_lost_witness :
  let w := submitted "apply" in
  let w' := drained "apply" in
  (∃ r', r' ∈ engine_inbox (w_db w') ∧ ib_seq r' = ib_seq (first_event w)) ∨
  (∃ w1 r1, rtc (engine_step default_config sample_handlers sample_registry) w w1 ∧
     rtc (engine_step default_config sample_handlers sample_registry) w1 w' ∧
     r1 ∈ engine_inbox (w_db w1) ∧ ib_seq r1 = ib_seq (first_event w) ∧ inbox_done (ib_state r1) = true).
Proof.
  apply (event_not_lost default_config sample_handlers sample_registry O
           (submitted "apply") (drained "apply") (first_event (submitted "apply"))).
  - apply sample_submit_reachable.
  - eapply rtc_l; [apply step_task, sample_drain_step|apply rtc_refl].
  - vm_compute. left.
Defined.

(** The first completion of generation 1 is applied, and a second one of the
    same generation is refused. *)
Lemma generation_finishes_once_witness :
  (finish_engine_job "job" 1 (FinishFailed "late") 130 (w_db fenced) (quiet 130)).1.1 ≠
  Ok (FinishApplied JobFailed).
Proof.
  apply (generation_finishes_once default_config sample_handlers sample_registry
    claimed (w_db fenced) fenced "job" 1 (FinishDone "r") (FinishFailed "late")
    120 130 (quiet 120) (quiet 120) (quiet 130) JobDone).
  - apply (reachable_ok default_config sample_handlers sample_registry O claimed),
      sample_claimed_reachable.
  - by vm_compute.
  - apply rtc_refl.
Defined.

(** A row closed by the last ACK is untouched by a later publisher pass. *)
Lemma closed_row_final_witness :
  first_message acked ∈
    engine_outbox (w_db (final (drain_outbox default_config 3 0 acked (quiet 200)))) ∧
  outbox_due (ob_next_at (first_message acked)) (first_message acked) = false.
Proof.
  apply (closed_row_final default_config sample_handlers sample_registry acked).
  - apply (reachable_ok default_config sample_handlers sample_registry O acked),
      sample_acked_reachable.
  - eapply rtc_l; [apply step_publish|apply rtc_refl].
  - vm_compute. left.
  - by vm_compute.
Defined.

(** * Only a worker ends a pending event

    The engine takes no lease on inbox events: a shard has one worker, and
    between the worker's read of an event and its apply every other task may
    run.  None of them ends a pending event or touches its payload, so the
    event a worker read is still pending when its apply transaction begins.

    Source: crates/store/src/engine/mod.rs
    ([next_runnable_engine_inbox_event]), crates/engine/src/. *)

Local Open Scope Z_scope.

(** The same pending event, not yet attempted again. *)
Record same_pending (r r' : EngineInboxEvent) : Prop := {
  sp_pending : ib_state r' = InboxPending;
  sp_identity : (ib_seq r', ib_event_id r', ib_aggregate_kind r', ib_aggregate_id r', ib_kind r') =
                (ib_seq r, ib_event_id r, ib_aggregate_kind r, ib_aggregate_id r, ib_kind r);
  sp_payload : (ib_payload r', ib_attempts r') = (ib_payload r, ib_attempts r);
}.

Definition keeps_pending {B} (d d' : Db B) : Prop :=
  ∀ r, r ∈ engine_inbox d → ib_state r = InboxPending →
    ∃ r', r' ∈ engine_inbox d' ∧ same_pending r r'.

#[export] Instance keeps_pending_preorder {B} : PreOrder (@keeps_pending B).
Proof.
  split; [intros d r Hr Hs; by exists r|].
  intros d1 d2 d3 H1 H2 r Hr Hs. destruct (H1 r Hr Hs) as (r1 & Hr1 & [S1 I1 P1]).
  destruct (H2 r1 Hr1 S1) as (r2 & Hr2 & [S2 I2 P2]). exists r2.
  split; [done|]. split; congruence.
Qed.

Section Statements.
Context {B : Type}.

Lemma same_inbox_keeps (d d' : Db B) : engine_inbox d' = engine_inbox d → keeps_pending d d'.
Proof. intros He r Hr Hs. exists r. by rewrite He. Qed.

(** An inbox update that keeps pending rows pending. *)
Lemma update_keeps p f (d : Db B) :
  (∀ r, ib_state r = InboxPending → p r = true → same_pending r (f r)) →
  keeps_pending d (d <| engine_inbox ::= update_where p f |>).
Proof.
  intros Hf r Hr Hs. exists (if p r then f r else r). split.
  - apply elem_of_update_where. by exists r.
  - destruct (p r) eqn:E; [by apply Hf|by split].
Qed.

(** A purge that spares pending rows. *)
Lemma delete_keeps p (d : Db B) :
  (∀ r, ib_state r = InboxPending → p r = false) →
  keeps_pending d (d <| engine_inbox ::= delete_where p |>).
Proof.
  intros Hp r Hr Hs. exists r. split; [|by split]. apply elem_of_delete_where. auto.
Qed.

Lemma run_now_same now r : ib_state r = InboxPending → same_pending r (run_now now r).
Proof. by split. Qed.

Lemma insert_event_keeps event now :
  guarantee (keeps_pending (B := B)) (insert_engine_inbox_event event now).
Proof.
  unfold insert_engine_inbox_event, inbox_update. guar; apply guarantee_stmt; try apply _; intros d; cbn.
  - unfold insert_or_ignore. destruct (existsb _ _); cbn; [reflexivity|].
    intros r Hr Hs. exists r. split; [apply elem_of_app; by left|by split].
  - apply update_keeps. intros r Hs Hp. unfold in_inbox_state in Hp. brefl. congruence.
Qed.

Lemma wake_keeps refs now : guarantee (keeps_pending (B := B)) (wake_engine_inbox_waiting refs now).
Proof.
  induction refs as [|ref refs IH]; cbn; unfold inbox_update; guar.
  apply guarantee_stmt; [apply _|]. intros d. apply update_keeps. intros r Hs _. by apply run_now_same.
Qed.
End Statements.

(** Close a statement that leaves the inbox alone. *)
Ltac untouched :=
  apply guarantee_stmt; [apply _|]; intros ?; apply same_inbox_keeps; cbn;
  repeat match goal with |- context [let '_ := ?x in _] => destruct x end; reflexivity.

#[export] Hint Resolve insert_event_keeps wake_keeps : guar.

Section Tasks.
Context {B : Type} `{AckSetJson} `{JobResultJson} `{Transport}.
Context (config : EngineConfig).

Definition world_keeps (w w' : World B) : Prop := keeps_pending (w_db w) (w_db w').

#[export] Instance world_keeps_preorder : PreOrder world_keeps.
Proof. unfold world_keeps. split; [intros w; reflexivity|]. intros w1 w2 w3 H1' H2'. by etrans. Qed.

Lemma on_db_keeps {A} (m : ST (Db B) A) : guarantee keeps_pending m → guarantee world_keeps (on_db m).
Proof. intros Hm. eapply guarantee_focus; [exact Hm|]. done. Qed.

Lemma modify_keeps (f : World B → World B) :
  (∀ w, w_db (f w) = w_db w) → guarantee world_keeps (modify f).
Proof. intros Hf w e. unfold world_keeps. cbn. rewrite Hf. reflexivity. Qed.

Lemma claim_jobs_keeps ids now lease_until :
  guarantee (keeps_pending (B := B)) (claim_jobs ids now lease_until).
Proof. induction ids as [|i ids IH]; cbn; guar. unfold claim_job. untouched. Qed.

Lemma claim_outbox_rows_keeps ids now lease_until :
  guarantee (keeps_pending (B := B)) (claim_outbox_rows ids now lease_until).
Proof. induction ids as [|i ids IH]; cbn; guar; unfold claim_outbox_row; untouched. Qed.

Lemma acknowledge_rows_keeps peer delivery_id now rows :
  guarantee (keeps_pending (B := B)) (acknowledge_rows peer delivery_id now rows).
Proof.
  induction rows as [|row rows IH]; cbn; guar. unfold acknowledge_row, outbox_update. guar; untouched.
Qed.

Lemma finish_job_keeps id g finish now :
  guarantee (keeps_pending (B := B)) (finish_engine_job id g finish now).
Proof. unfold finish_engine_job, find_engine_job, job_update. guar. untouched. Qed.

Lemma write_job_finish_keeps job g finish now :
  guarantee (keeps_pending (B := B)) (write_job_finish config job g finish now).
Proof.
  unfold write_job_finish, completion_poison, mark_engine_aggregate_poisoned,
    release_engine_poison, insert_job_result.
  guar; try apply finish_job_keeps; untouched.
Qed.

(** The steps of every task but the workers (and the node's own runners and
    handlers): producers, executor, publisher, recovery, re-check, purges. *)
Inductive outside_step : World B → World B → Prop :=
| out_submit event w e : outside_step w (final (submit event w e))
| out_submit_in b event w e :
    outside_step w (final (on_db (transaction (
      in_tx (stmt (λ d, (tt, d <| business := b |>)));;
      in_tx (submit_in event);;
      commit)) w e))
| out_acknowledge peer delivery_id w e : outside_step w (final (acknowledge peer delivery_id w e))
| out_notify refs w e : outside_step w (final (notify refs w e))
| out_clear_poison a action w e : outside_step w (final (clear_poison a action w e))
| out_claim pool permits w e : outside_step w (final (claim_and_spawn config pool permits w e))
| out_lapsed w e : outside_step w (final (finish_lapsed_cancelled w e))
| out_finish job generation finish w e :
    outside_step w (final (record_job_finish config job generation finish w e))
| out_renew job_id generation w e :
    outside_step w (final (renewal_tick config job_id generation w e))
| out_claim_outbox now lease_until n w e :
    outside_step w (final (on_db (claim_due_engine_outbox_messages now lease_until n) w e))
| out_publish_row row w e : outside_step w (final (publish_row config row w e))
| out_recovery w e : outside_step w (final (startup_recovery w e))
| out_recheck w e : outside_step w (final (recheck_tick w e))
| out_housekeeping w e : outside_step w (final (housekeeping_tick config w e))
| out_purge_rejected before w e :
    outside_step w (final (on_db (purge_rejected_network_inbox_rows before) w e))
| out_restart w : outside_step w (build config (w_db w)).

Lemma outside_step_engine handlers registry w w' :
  outside_step w w' → engine_step config handlers registry w w'.
Proof. destruct 1; solve [apply step_task; eauto using task_step_in|apply step_housekeeping|apply step_purge_rejected].
Qed.

Ltac keeps :=
  guar; try (apply guarantee_try); guar; try (by apply modify_keeps); try (apply on_db_keeps); guar.

Lemma acquire_keeps : guarantee world_keeps acquire.
Proof. apply guarantee_stmt; [apply _|]. intros w. reflexivity. Qed.

Lemma outside_step_keeps w w' : outside_step w w' → world_keeps w w'.
Proof.
  destruct 1 as [event w e|b event w e|peer delivery_id w e|refs w e|a action w e|pool permits w e|w e
    |job g finish w e|job_id g w e|now lease_until n w e|row w e|w e|w e|w e|before w e|w].
  all: match goal with |- world_keeps _ (final (?m _ _)) =>
         assert (Hm : guarantee world_keeps m); [|apply Hm] | _ => idtac end.
  - unfold submit. keeps. intros wa ea. unfold world_keeps, final. destruct (try_send _ _). reflexivity.
  - keeps; [untouched|]. unfold submit_in. guar.
  - unfold acknowledge, acknowledge_engine_outbox. keeps. apply acknowledge_rows_keeps.
  - unfold notify. keeps.
  - unfold clear_poison, clear_engine_aggregate_poison. keeps. untouched.
  - induction permits as [|n permits IH]; cbn; unfold claim_due_engine_jobs; keeps. apply claim_jobs_keeps.
  - unfold finish_lapsed_cancelled, insert_job_result, finish_lapsed_cancelled_engine_jobs. keeps. untouched.
  - unfold record_job_finish. keeps. apply write_job_finish_keeps.
  - unfold renewal_tick, renew_engine_job_lease, job_update, find_engine_job. keeps; untouched.
  - unfold claim_due_engine_outbox_messages. keeps. apply claim_outbox_rows_keeps.
  - unfold publish_row, record_engine_outbox_publish, record_engine_outbox_publish_failure, outbox_update.
    keeps; try untouched. intros wa ea. unfold publish, final. destruct (transport_publish _ _ _). reflexivity.
  - unfold startup_recovery, rearm_engine_inbox_pending, reset_engine_outbox_leases,
      reset_engine_job_leases, inbox_update, outbox_update, job_update. keeps; try untouched.
    apply guarantee_stmt; [apply _|]. intros d. apply update_keeps. intros r Hs _. by apply run_now_same.
  - unfold recheck_tick, rearm_engine_inbox_waiting, inbox_update, engine_state_counts. keeps.
    apply guarantee_stmt; [apply _|]. intros d. apply update_keeps. intros r Hs _. by apply run_now_same.
  - unfold housekeeping_tick, purge_engine_terminal_rows, purge_inbox_terminal, purge_outbox_closed,
      purge_jobs_terminal, inbox_delete. keeps; try untouched.
    apply guarantee_stmt; [apply _|]. intros d. apply delete_keeps. intros r Hs.
    unfold in_inbox_state. by rewrite Hs.
  - unfold purge_rejected_network_inbox_rows, inbox_delete. keeps.
    apply guarantee_stmt; [apply _|]. intros d. apply delete_keeps. intros r Hs.
    unfold in_inbox_state. rewrite Hs. by rewrite andb_false_r.
  - unfold world_keeps. cbn. reflexivity.
Qed.

Lemma outside_run_keeps w w' : rtc outside_step w w' → world_keeps w w'.
Proof.
  induction 1 as [|w1 w2 w3 H12 _ IH]; [reflexivity|]. etrans; [by apply outside_step_keeps|done].
Qed.

(** C33: Only a worker ends a pending event: however producers, the executor,
    the publisher, recoveries, re-checks, purges and restarts interleave, a
    pending event stays pending, with its sequence number, payload and attempt
    count; so the event a worker has read is still pending when the worker
    applies it. *)
Theorem pending_event_owned w w' r :
  rtc outside_step w w' → r ∈ engine_inbox (w_db w) → ib_state r = InboxPending →
  ∃ r', r' ∈ engine_inbox (w_db w') ∧ same_pending r r'.
Proof. intros Hrun. by apply outside_run_keeps. Qed.
End Tasks.

(** The submitted event survives a restart and the recovery. *)
Lemma pending_event_owned_witness :
  let w' := final (startup_recovery (build default_config (w_db (submitted "apply"))) (quiet 500)) in
  ∃ r', r' ∈ engine_inbox (w_db w') ∧ same_pending (first_event (submitted "apply")) r'.
Proof.
  apply (pending_event_owned default_config (submitted "apply")).
  - eapply rtc_l; [apply out_restart|]. eapply rtc_l; [apply out_recovery|apply rtc_refl].
  - vm_compute. left.
  - by vm_compute.
Defined.
