(* ===== verification/WorkerProps.v ===== *)
(** * What a worker promises

    An apply commits as a whole or leaves no trace; an event that is rejected,
    retried, timed out or poisoned changes nothing but its own row and the
    poison of its kind; an ACK leaves the engine only after the event's outcome
    is durable; a processed event is never runnable again at once.

    Source: crates/engine/src/worker.rs. *)

From stdpp Require Import base list strings gmap pretty.
From S2P Require Import Prelude Table Storage EngineSchema EngineNext InboxStore OutboxStore JobStore.
From S2P Require Import EngineConfig EngineEffects Worker Executor Runtime Engine Sample.

Local Open Scope Z_scope.

(** ** Settled events *)

(** Every row of the event that is still pending satisfies [P]. *)
Definition still_pending {B} (id : string) (P : EngineInboxEvent → Prop) (d : Db B) : Prop :=
  ∀ r, r ∈ engine_inbox d → ib_event_id r = id → ib_state r = InboxPending → P r.

(** No pending row of the event is left. *)
Definition done_event {B} (id : string) (d : Db B) : Prop := still_pending id (λ _, False) d.

(** A pending row of the event waits for a dependency. *)
Definition parked_event {B} (id : string) (d : Db B) : Prop :=
  still_pending id (λ r, is_Some (ib_waiting_ref r)) d.

(** A pending row of the event is not due at [now]. *)
Definition deferred_event {B} (id : string) (now : Z) (d : Db B) : Prop :=
  still_pending id (λ r, now < ib_next_at r) d.

Section Marks.
Context {B : Type}.
Implicit Types d : Db B.

Lemma still_pending_weaken id (P Q : EngineInboxEvent → Prop) d :
  (∀ r, P r → Q r) → still_pending id P d → still_pending id Q d.
Proof. intros HPQ H r Hr Hid Hs. by apply HPQ, H. Qed.

(** Every mark writes exactly the pending rows of its event. *)
Lemma mark_settles id f (P : EngineInboxEvent → Prop) d e b d' e' :
  (n ← inbox_update (pending_event id) f; mret (0 <? n)) d e = (Ok b, d', e') →
  (∀ x, ib_event_id (f x) = ib_event_id x) →
  (∀ x, ib_state (f x) = InboxPending → P (f x)) →
  still_pending id P d'.
Proof.
  unfold inbox_update. intros H Hid HP. st_inv. apply stmt_inv in H0. injection H0 as _ <-.
  intros r (x & Hx & ->)%elem_of_update_where.
  unfold pending_event, has_event_id, in_inbox_state.
  destruct (_ && _) eqn:E; brefl; [intros _; apply HP|].
  intros Hi Hs. destruct E; by brefl.
Qed.

Lemma mark_applied_done id now d e b d' e' :
  mark_engine_inbox_applied id now d e = (Ok b, d', e') → done_event id d'.
Proof. intros H. by eapply mark_settles; [exact H|..]. Qed.

Lemma mark_failed_done id reason now d e b d' e' :
  mark_engine_inbox_failed id reason now d e = (Ok b, d', e') → done_event id d'.
Proof. intros H. by eapply mark_settles; [exact H|..]. Qed.

Lemma mark_poisoned_done id reason now d e b d' e' :
  mark_engine_inbox_poisoned id reason now d e = (Ok b, d', e') → done_event id d'.
Proof. intros H. by eapply mark_settles; [exact H|..]. Qed.

Lemma mark_waiting_parked id ref detail next_at now d e b d' e' :
  mark_engine_inbox_waiting id ref detail next_at now d e = (Ok b, d', e') →
  still_pending id (λ r, ib_waiting_ref r = Some ref ∧ ib_next_at r = next_at) d'.
Proof. intros H. by eapply mark_settles; [exact H|..]. Qed.

Lemma mark_retry_deferred id err next_at now d e b d' e' :
  mark_engine_inbox_retry id err next_at now d e = (Ok b, d', e') →
  still_pending id (λ r, ib_next_at r = next_at) d'.
Proof. intros H. by eapply mark_settles; [exact H|..]. Qed.
End Marks.

(** ** The apply transaction *)

Section Apply.
Context {B : Type} `{AckSetJson}.
Context (config : EngineConfig).

(** What a committed apply decided. *)
Definition decided (waiting : option WaitingFor) : ApplyOutcome :=
  match waiting with None => Applied | Some w => Waiting w end.

Definition outcome_of (waiting : option WaitingFor) : ProcessOutcome :=
  match waiting with None => PApplied | Some _ => PWaiting end.

(** [d'] is [d] after the handler's writes and then every effect it asked for. *)
Definition applied_whole (h : Handler B) (event : EngineInboxEvent) (now : Z)
    (waiting : option WaitingFor) (effects : Effects) (post : PostCommit) (d d' : Db B) : Prop :=
  ∃ e0 d1 e1 e2,
    let a := from_event event in
    let current := select_one (is_aggregate (ar_kind a) (ar_id a)) (engine_aggregate d) in
    h (mkApplyContext now a current) event d e0 = (Returned (inl (decided waiting)), effects, d1, e1) ∧
    write_effects config event a current effects waiting now d1 e1 = (Ok post, d', e2).

Lemma commit_apply_cases event a current effects waiting now (t : Tx (Db B)) e o t' e' :
  commit_apply config event a current effects waiting now t e = (o, t', e') →
  (committed t' = committed t ∧ ∃ x, o = Err x) ∨
  (∃ post e2, o = Ok post ∧
     write_effects config event a current effects waiting now (working t) e =
       (Ok post, committed t', e2)).
Proof.
  unfold commit_apply, in_tx, focus, commit, mbind at 1, st_bind at 1.
  destruct (write_effects _ _ _ _ _ _ _ _ e) as [[[post|x] d1] e1]; cbn.
  - unfold mbind, st_bind, stmt. destruct (next_fault e1) as [[] e2]; cbn.
    + intros [= <- <- <-]. left. eauto.
    + intros [= <- <- <-]. right. by exists post, e1.
  - intros [= <- <- <-]. left. eauto.
Qed.

Lemma apply_transaction_cases h event now d e o d' e' :
  transaction (apply_transaction config h event now) d e = (o, d', e') →
  (d' = d ∧ ∀ out post, o ≠ Ok (CommittedAs out post)) ∨
  (∃ waiting effects post, o = Ok (CommittedAs (outcome_of waiting) post) ∧
     applied_whole h event now waiting effects post d d').
Proof.
  unfold transaction. destruct (next_fault e) as [[] e1]; [intros [= <- <- <-]; by left|].
  destruct (apply_transaction _ _ _ _ _ e1) as [[o1 t1] e2] eqn:Ha. intros [= -> <- ->].
  unfold apply_transaction, in_tx, focus, find_engine_aggregate, query, stmt,
    mbind at 1, st_bind at 1 in Ha.
  destruct (next_fault e1) as [[] e3]; cbn in Ha; [injection Ha as <- <- <-; by left|].
  unfold run_handler at 1, mbind at 1, st_bind at 1 in Ha. cbn in Ha.
  destruct (h _ event d e3) as [[[exit effects] d1] e4] eqn:Hh.
  assert (Hcommit : ∀ waiting t4 (ow : outcome PostCommit) e5,
    exit = Returned (inl (decided waiting)) →
    commit_apply config event (from_event event)
      (select_one (is_aggregate (ar_kind (from_event event)) (ar_id (from_event event)))
         (engine_aggregate d)) effects waiting now (mkTx d d1) e4 = (ow, t4, e5) →
    match ow with
    | Ok post => applied_whole h event now waiting effects post d (committed t4)
    | Err _ => committed t4 = d
    end).
  { intros waiting t4 ow e5 -> Hc.
    destruct (commit_apply_cases _ _ _ _ _ _ _ _ _ _ _ Hc) as [[-> [x ->]]|(post & e6 & -> & Hw)];
      [done|]. exists e3, d1, e4, e6. split; [exact Hh|exact Hw]. }
  destruct exit as [[[|w|reason]|err]| |msg]; try (injection Ha as <- <- <-; by left).
  - unfold mbind, st_bind in Ha. cbn in Ha.
    destruct (commit_apply _ _ _ _ _ _ _ _ _) as [[[post|x] t4] e5] eqn:Hc;
      injection Ha as <- <- <-; specialize (Hcommit None _ _ _ eq_refl Hc); [right|by left].
    by exists None, effects, post.
  - unfold mbind, st_bind in Ha. cbn in Ha.
    destruct (commit_apply _ _ _ _ _ _ _ _ _) as [[[post|x] t4] e5] eqn:Hc;
      injection Ha as <- <- <-; specialize (Hcommit (Some w) _ _ _ eq_refl Hc); [right|by left].
    by exists (Some w), effects, post.
Qed.
End Apply.

(** ** Dropped applies *)

(** Nothing but the inbox rows and the poison table changed. *)
Definition same_tables {B} (d d' : Db B) : Prop :=
  (business d', engine_outbox d', engine_job d', engine_aggregate d', inbox_sequence d') =
  (business d, engine_outbox d, engine_job d, engine_aggregate d, inbox_sequence d).

#[export] Instance same_tables_preorder {B} : PreOrder (@same_tables B).
Proof. unfold same_tables. split; [by intros d|]. intros d1 d2 d3 H1 H2. congruence. Qed.

(** And no ACK was sent. *)
Definition silent {B} (w w' : World B) : Prop :=
  same_tables (w_db w) (w_db w') ∧ w_acks w' = w_acks w.

#[export] Instance silent_preorder {B} : PreOrder (@silent B).
Proof.
  unfold silent. split; [intros w; split; reflexivity|].
  intros w1 w2 w3 [H1 A1] [H2 A2]. split; [by etrans|congruence].
Qed.

Section Dropped.
Context {B : Type}.

Lemma on_db_silent {A} (m : ST (Db B) A) : guarantee same_tables m → guarantee silent (on_db m).
Proof. intros Hm. eapply guarantee_focus; [exact Hm|]. done. Qed.

Lemma acquire_silent : guarantee (@silent B) acquire.
Proof. apply guarantee_stmt; [apply _|]. intros w. cbn. reflexivity. Qed.

Lemma inbox_update_same p f : guarantee (@same_tables B) (inbox_update p f).
Proof. apply guarantee_stmt; [apply _|]. by intros d. Qed.

Lemma release_poison_same kind id action :
  guarantee (@same_tables B) (release_engine_poison kind id action).
Proof. unfold release_engine_poison. guar. apply guarantee_stmt; [apply _|]. by intros d. Qed.

Lemma mark_poisoned_same kind id action reason now backoff :
  guarantee (@same_tables B)
    (mark_engine_aggregate_poisoned kind id action reason now backoff).
Proof.
  unfold mark_engine_aggregate_poisoned. guar; apply guarantee_stmt; try apply _; intros d; [|done].
  by destruct (upsert_poison _ _ _ _ _ _).
Qed.

Lemma schedule_retry_at_silent event err next_at :
  guarantee (@silent B) (schedule_retry_at event err next_at).
Proof.
  unfold schedule_retry_at, mark_engine_inbox_retry.
  guar. apply on_db_silent. guar. apply inbox_update_same.
Qed.

Lemma poison_silent config event reason : guarantee (@silent B) (poison config event reason).
Proof.
  unfold poison, mark_engine_inbox_poisoned. guar. apply on_db_silent.
  guar; [apply inbox_update_same|apply mark_poisoned_same].
Qed.
End Dropped.

(** Every successful run returns [c]. *)
Definition returns {S C} (c : C) (m : ST S C) : Prop :=
  hoare (λ _, True) m (λ o _, o = Ok c ∨ ∃ x, o = Err x).

Lemma returns_ret {S C} (c : C) : returns c (mret c : ST S C).
Proof. intros s e _. by left. Qed.

Lemma returns_bind {S A C} (c : C) (m : ST S A) k : (∀ a, returns c (k a)) → returns c (m ≫= k).
Proof.
  intros Hk s e _. unfold mbind, st_bind. destruct (m s e) as [[[a|x] s'] e']; [by apply Hk|].
  right. by exists x.
Qed.

Section Process.
Context {B : Type} `{AckSetJson}.
Context (config : EngineConfig) (handlers : string → option (Handler B)).

(** How [process_event] ended: an apply was committed as a whole, or the
    transaction was dropped and an ACK was sent only after a recorded
    rejection. *)
Definition committed_event (event : EngineInboxEvent) (w w' : World B)
    (o : outcome ProcessOutcome) : Prop :=
  ∃ h now waiting effects post,
    handlers (ib_aggregate_kind event) = Some h ∧ o = Ok (outcome_of waiting) ∧
    applied_whole config h event now waiting effects post (w_db w) (w_db w') ∧
    w_acks w' = foldl (λ c a, (try_send a c).2) (w_acks w) (pc_acks post).

Definition dropped_event (event : EngineInboxEvent) (w w' : World B)
    (o : outcome ProcessOutcome) : Prop :=
  same_tables (w_db w) (w_db w') ∧ o ≠ Ok PApplied ∧ o ≠ Ok PWaiting ∧
  (w_acks w' = w_acks w ∨ o = Ok PRejected ∧ done_event (ib_event_id event) (w_db w')).

Lemma silent_dropped event (m : ST (World B) ProcessOutcome) out w :
  guarantee silent m → returns out m → out ≠ PApplied → out ≠ PWaiting →
  hoare (silent w) m (λ o w', dropped_event event w w' o).
Proof.
  intros Hm Hr H1 H2 s e Hs. pose proof (hoare_guarantee silent m w Hm s e Hs) as [Hw Ha].
  unfold dropped_event. destruct (Hr s e I) as [->|[x ->]]; split_and!; try done; try congruence; by left.
Qed.

Lemma release_poison_inbox kind id action (d : Db B) e :
  engine_inbox (final (release_engine_poison kind id action d e)) = engine_inbox d.
Proof.
  unfold release_engine_poison, mbind, st_bind, stmt. by destruct (next_fault e) as [[] e'].
Qed.

Lemma dispatch_run post (w : World B) e :
  ∃ w', dispatch post w e = (Ok tt, w', e) ∧ w_db w' = w_db w ∧
    w_acks w' = foldl (λ c a, (try_send a c).2) (w_acks w) (pc_acks post).
Proof.
  unfold dispatch, mbind, st_bind, modify. cbn. eexists. split; [done|].
  by destruct (pc_woke post), (pc_outbox post), (pc_jobs post).
Qed.

(** The branch of a rejected event. *)
Definition reject (event : EngineInboxEvent) (reason : string) : ST (World B) ProcessOutcome :=
  now ← clock_now;
  acquire;;
  on_db (mark_engine_inbox_failed (ib_event_id event) reason now);;
  on_db (release_engine_poison (ib_aggregate_kind event) (ib_aggregate_id event) (ib_kind event));;
  dispatch (ack_only event);;
  mret PRejected.

Lemma silent_failed event w w' x : silent w w' → dropped_event event w w' (Err x).
Proof. intros [Hs Ha]. split_and!; try done. by left. Qed.

Lemma rejected_dropped event reason w :
  hoare (silent w) (reject event reason) (λ o w', dropped_event event w w' o).
Proof.
  assert (Hm : ∀ now, guarantee (@silent B)
      (on_db (mark_engine_inbox_failed (ib_event_id event) reason now))).
  { intros now. apply on_db_silent. unfold mark_engine_inbox_failed. guar. apply inbox_update_same. }
  set (done w' := silent w w' ∧ done_event (ib_event_id event) (w_db w')).
  unfold reject. apply (hoare_bind _ _ _ (λ _, silent w)); [by apply hoare_clock|intros now].
  apply (hoare_bind _ _ _ (λ _, silent w)).
  { apply hoare_stmt. intros s Hs. split; [by apply silent_failed|done]. }
  intros _. apply (hoare_bind _ _ _ (λ _, done)).
  { intros s e Hs. pose proof (hoare_guarantee silent _ w (Hm now) s e Hs) as Hg. cbn in Hg.
    unfold final in *. destruct (on_db _ s e) as [[[b|x] s'] e'] eqn:Heq; cbn in *;
      [split; [done|]|by apply silent_failed].
    apply focus_inv in Heq as (d' & Hd & ->). by eapply mark_failed_done. }
  intros _. apply (hoare_bind _ _ _ (λ _, done)).
  { intros s e [Hs Hd].
    pose proof (hoare_guarantee silent _ w (on_db_silent _ (release_poison_same
      (ib_aggregate_kind event) (ib_aggregate_id event) (ib_kind event))) s e Hs) as Hg.
    pose proof (release_poison_inbox (ib_aggregate_kind event) (ib_aggregate_id event)
      (ib_kind event) (w_db s) e) as Hi. cbn in Hg. unfold on_db, focus, final in *.
    destruct (release_engine_poison _ _ _ _ e) as [[[b|x] d'] e']; cbn in *;
      [split; [done|]|by apply silent_failed].
    unfold done_event, still_pending. cbn. rewrite Hi. apply Hd. }
  intros _ s e [[Hs _] Hd]. destruct (dispatch_run (ack_only event) s e) as (w6 & He & Hdb & _).
  unfold mbind, st_bind. rewrite He. unfold dropped_event. cbn. rewrite Hdb. eauto 6.
Qed.

Lemma mark_failed_silent id reason now :
  guarantee (@silent B) (on_db (mark_engine_inbox_failed id reason now)).
Proof. apply on_db_silent. unfold mark_engine_inbox_failed. guar. apply inbox_update_same. Qed.

(** The world after the apply transaction. *)
Definition decided_world (h : Handler B) (event : EngineInboxEvent) (now : Z) (w : World B)
    (decision : Decision) (w' : World B) : Prop :=
  match decision with
  | CommittedAs out post =>
      ∃ waiting effects, out = outcome_of waiting ∧
        applied_whole config h event now waiting effects post (w_db w) (w_db w') ∧
        w_acks w' = w_acks w
  | DroppedFor _ => w = w'
  end.

Lemma process_event_cases event w :
  hoare (eq w) (process_event config handlers event)
    (λ o w', committed_event event w w' o ∨ dropped_event event w w' o).
Proof.
  assert (Hd : ∀ (m : ST (World B) ProcessOutcome) out,
    guarantee silent m → returns out m → out ≠ PApplied → out ≠ PWaiting →
    hoare (eq w) m (λ o w', committed_event event w w' o ∨ dropped_event event w w' o)).
  { intros m out Hm Hr H1 H2. eapply hoare_conseq;
      [..|by apply (silent_dropped event m out w)]; [by intros ? <-|by right]. }
  unfold process_event. destruct (handlers _) as [h|] eqn:Hh.
  2: { apply (Hd _ PNoHandler); [|by repeat (apply returns_bind; intro); apply returns_ret|done..].
       guar. apply mark_failed_silent. }
  apply (hoare_bind _ _ _ (λ _, eq w)); [by apply hoare_clock|intros now].
  apply (hoare_bind _ _ _ (decided_world h event now w)).
  { intros s e <-. unfold on_db, focus, final.
    destruct (transaction _ _ e) as [[o d'] e'] eqn:Ht.
    destruct (apply_transaction_cases _ _ _ _ _ _ _ _ _ Ht)
      as [[-> Hno]|(waiting & effects & post & -> & Hw)]; [|by exists waiting, effects].
    destruct o as [[out post|exit]|x]; cbn; [by edestruct Hno|by destruct w|].
    right. apply silent_failed. by destruct w. }
  intros [out post|exit]; cbn.
  { intros s e (waiting & effects & -> & Hw & Ha).
    destruct (dispatch_run post s e) as (w' & He & Hdb & Ha').
    left. unfold mbind, st_bind. rewrite He. cbn.
    exists h, now, waiting, effects, post. rewrite Hdb, Ha', Ha. by split_and!. }
  destruct exit as [[[|wt|reason]|[err|err]]| |msg].
  - apply (Hd _ PNoHandler); [guar|intros s0 e0 _; right; eauto|done..].
  - apply (Hd _ PNoHandler); [guar|intros s0 e0 _; right; eauto|done..].
  - eapply hoare_conseq; [..|apply (rejected_dropped event reason w)]; [by intros ? <-|by right].
  - apply (Hd _ PTransient); [|apply returns_bind; intro; apply returns_ret|done..].
    unfold schedule_retry. guar; apply schedule_retry_at_silent.
  - apply (Hd _ PPoisoned); [|apply returns_bind; intro; apply returns_ret|done..].
    guar. apply poison_silent.
  - apply (Hd _ PTimedOut); [|apply returns_bind; intro; apply returns_ret|done..].
    unfold schedule_retry. guar; apply schedule_retry_at_silent.
  - apply (Hd _ PPoisoned); [|apply returns_bind; intro; apply returns_ret|done..].
    guar. apply poison_silent.
Qed.

(** The marks at the end of a committed apply settle the event. *)
Lemma write_effects_settles event a current effects waiting now (d : Db B) e post d' e' :
  write_effects config event a current effects waiting now d e = (Ok post, d', e') →
  match waiting with
  | None => done_event (ib_event_id event) d'
  | Some w => still_pending (ib_event_id event) (λ r,
      ib_waiting_ref r = Some (wf_wake_ref w) ∧ ib_next_at r = now + waiting_recheck_secs config) d'
  end.
Proof.
  unfold write_effects. intros Hw. st_inv.
  destruct waiting; [by eapply mark_waiting_parked|by eapply mark_applied_done].
Qed.

Lemma applied_whole_settles h event now waiting effects post (d d' : Db B) :
  applied_whole config h event now waiting effects post d d' →
  match waiting with
  | None => done_event (ib_event_id event) d'
  | Some _ => parked_event (ib_event_id event) d'
  end.
Proof.
  intros (e0 & d1 & e1 & e2 & _ & Hw). apply write_effects_settles in Hw.
  destruct waiting; [|done]. eapply still_pending_weaken; [|exact Hw]. intros r [-> _]. eauto.
Qed.

(** C6: Processing an event is all or nothing under any storage failures: either
    the handler's writes and every effect it asked for are committed together
    and the event is applied or parked by the same commit, or the business
    tables, the outbox, the jobs, the aggregates and the inbox sequence are
    exactly as before. *)
Theorem process_event_atomic event w e o w' e' :
  process_event config handlers event w e = (o, w', e') →
  (∃ h now waiting effects post,
     handlers (ib_aggregate_kind event) = Some h ∧ o = Ok (outcome_of waiting) ∧
     applied_whole config h event now waiting effects post (w_db w) (w_db w') ∧
     match waiting with
     | None => done_event (ib_event_id event) (w_db w')
     | Some _ => parked_event (ib_event_id event) (w_db w')
     end) ∨
  (same_tables (w_db w) (w_db w') ∧ o ≠ Ok PApplied ∧ o ≠ Ok PWaiting).
Proof.
  intros Hp. destruct (hoare_run _ _ _ _ _ _ _ _ (process_event_cases event w) eq_refl Hp)
    as [(h & now & waiting & effects & post & Hh & Ho & Hw & _)|(Hs & H1 & H2 & _)]; [left|by right].
  exists h, now, waiting, effects, post. split_and!; try done. by eapply applied_whole_settles.
Qed.

(** C35: An ACK leaves the engine only for a durable outcome: if processing an
    event changed the ACK queue, then in the database no row of the event is
    pending any more, or the pending row is parked on a dependency. *)
Theorem ack_after_durable event w e o w' e' :
  process_event config handlers event w e = (o, w', e') →
  w_acks w' ≠ w_acks w →
  done_event (ib_event_id event) (w_db w') ∨ parked_event (ib_event_id event) (w_db w').
Proof.
  intros Hp Hne. destruct (hoare_run _ _ _ _ _ _ _ _ (process_event_cases event w) eq_refl Hp)
    as [(h & now & waiting & effects & post & _ & _ & Hw & _)|(_ & _ & _ & [Ha|[_ Hd]])].
  - apply applied_whole_settles in Hw. by destruct waiting; [right|left].
  - done.
  - by left.
Qed.
End Process.

(** ** Progress *)

(** A handler whose storage calls succeed while the environment is quiet. *)
Definition quiet_handler {B} (h : Handler B) : Prop :=
  ∀ ctx event d now, (h ctx event d (quiet now)).2 = quiet now.

Lemma succeeds_on_db {B A} now (m : ST (Db B) A) (P : Db B → Prop) Q :
  succeeds now P m Q → succeeds now (λ w, P (w_db w)) (on_db m) (λ a w, Q a (w_db w)).
Proof.
  intros Hm w HP. destruct (Hm (w_db w) HP) as (a & d & Hr & HQ).
  exists a, (w <| w_db := d |>). split; [|done]. unfold on_db, focus. by rewrite Hr.
Qed.

Section Progress.
Context {B : Type} `{AckSetJsonLaws plain}.
Context (config : EngineConfig) (handlers : string → option (Handler B)).
Context (retry_grows : growing (inbox_retry_backoff config)).
Context (handlers_quiet : ∀ k h, handlers k = Some h → quiet_handler h).

Lemma write_effects_total now0 event a current effects waiting now :
  total now0 (write_effects (B := B) config event a current effects waiting now).
Proof.
  unfold write_effects, insert_effect_outbox, insert_effect_job, apply_job_cancel,
    cancel_engine_job, cancel_engine_jobs_for_phase, cancel_engine_jobs_for_aggregate,
    close_engine_outbox, release_engine_poison, mark_engine_inbox_applied,
    mark_engine_inbox_waiting.
  total.
Qed.

(** A mark in the quiet environment. *)
Lemma succeeds_mark now id (m : ST (Db B) bool) (P : EngineInboxEvent → Prop) :
  total now m → (∀ d e b d' e', m d e = (Ok b, d', e') → still_pending id P d') →
  succeeds now (λ _, True) m (λ _, still_pending id P).
Proof. intros Ht HP. apply succeeds_total; [done|]. intros d b d' e' _ Hr. by eapply HP. Qed.

Lemma apply_transaction_progress (h : Handler B) event now :
  quiet_handler h →
  succeeds now (λ _, True) (transaction (apply_transaction config h event now)) (λ dec (d : Db B),
    match dec with
    | CommittedAs _ _ => deferred_event (ib_event_id event) now d
    | DroppedFor (Returned (inl (Applied | Waiting _))) => False
    | DroppedFor _ => True
    end).
Proof.
  intros Hq. apply succeeds_transaction. intros d _. unfold apply_transaction.
  apply (succeeds_bind _ _ _ _ (λ _ _, True)).
  { apply total_succeeds. unfold find_engine_aggregate. total. }
  intros current. apply (succeeds_bind _ _ _ _ (λ _ _, True)).
  { intros t _. unfold run_handler.
    pose proof (Hq (mkApplyContext now (from_event event) current) event (working t) now) as Hr.
    destruct (h _ event (working t) (quiet now)) as [[[x eff] d1] e1]. cbn in Hr. subst e1.
    by eexists _, _. }
  intros [exit effects].
  assert (Hc : ∀ waiting out, succeeds now (λ _ : Tx (Db B), True)
    (post ← commit_apply config event (from_event event) current effects waiting now;
     mret (CommittedAs out post))
    (λ dec t, match dec with
       | CommittedAs _ _ => deferred_event (ib_event_id event) now (committed t)
       | DroppedFor (Returned (inl (Applied | Waiting _))) => False
       | DroppedFor _ => True end)).
  { intros waiting out. unfold commit_apply.
    apply (succeeds_bind _ _ _ _ (λ _ t, deferred_event (ib_event_id event) now (committed t)));
      [|intros post; by apply succeeds_ret].
    apply (succeeds_bind _ _ _ _ (λ _ t, deferred_event (ib_event_id event) now (working t))).
    - intros t _. destruct (write_effects_total now event (from_event event) current effects
        waiting now (working t) I) as (post & d1 & Hr & _).
      exists post, (t <| working := d1 |>). split; [unfold in_tx, focus; by rewrite Hr|].
      apply write_effects_settles in Hr. cbn. unfold waiting_recheck_secs in Hr.
      destruct waiting; (eapply still_pending_weaken; [|exact Hr]); [intros r [_ ->]; lia|done].
    - intros post. eapply succeeds_bind; [apply succeeds_commit|intros ?; by apply succeeds_ret]. }
  destruct exit as [[[|w|reason]|err]| |msg]; try (by apply succeeds_ret); apply Hc.
Qed.

Lemma retry_at_progress event err next_at now :
  now < next_at →
  succeeds now (λ _, True) (schedule_retry_at (B := B) event err next_at)
    (λ _ w, deferred_event (ib_event_id event) now (w_db w)).
Proof.
  intros Hlt. unfold schedule_retry_at.
  apply (succeeds_bind _ _ _ _ (λ _ _, True)); [by apply succeeds_clock|intros n].
  apply (succeeds_bind _ _ _ _ (λ _ _, True)); [by apply succeeds_stmt|intros ?].
  apply (succeeds_bind _ _ _ _ (λ _ w, deferred_event (ib_event_id event) now (w_db w)));
    [|intros ?; by apply succeeds_ret].
  apply (succeeds_on_db _ _ (λ _, True) (λ _, deferred_event (ib_event_id event) now)).
  apply succeeds_mark; [unfold mark_engine_inbox_retry; total|].
  intros d e b d' e' Hr%mark_retry_deferred. eapply still_pending_weaken; [|exact Hr].
  intros r ->. done.
Qed.

Lemma mark_poisoned_inbox kind id action reason now backoff (I : list EngineInboxEvent → Prop) :
  guarantee (keeps (λ d : Db B, I (engine_inbox d)))
    (mark_engine_aggregate_poisoned kind id action reason now backoff).
Proof.
  unfold mark_engine_aggregate_poisoned. guar; apply guarantee_stmt; try apply _; intros d; [|by intros ?].
  destruct (upsert_poison _ _ _ _ _ _). by intros ?.
Qed.

Lemma poison_progress event reason now :
  succeeds now (λ _, True) (poison (B := B) config event reason)
    (λ _ w, deferred_event (ib_event_id event) now (w_db w)).
Proof.
  unfold poison. apply (succeeds_bind _ _ _ _ (λ _ _, True)); [by apply succeeds_clock|intros n].
  set (I := done_event (B := B) (ib_event_id event)).
  eapply succeeds_conseq; [| |apply (succeeds_on_db _ _ (λ _, True) (λ _, I))]; [done| |].
  { intros a w Hd. by eapply still_pending_weaken; [|exact Hd]. }
  apply succeeds_transaction. intros d _.
  apply (succeeds_bind _ _ _ _ (λ _ t, I (working t))).
  { eapply succeeds_conseq; [| |apply (succeeds_in_tx _ (λ _, True) _ (λ _, I))]; [done..|].
    apply succeeds_mark; [unfold mark_engine_inbox_poisoned; total|].
    intros d0 e b d' e'. apply mark_poisoned_done. }
  intros _. apply (succeeds_bind _ _ _ _ (λ _ t, I (working t))).
  { apply (succeeds_in_tx _ I _ (λ _, I)). apply succeeds_keeps.
    - unfold mark_engine_aggregate_poisoned. total.
    - apply (mark_poisoned_inbox _ _ _ _ _ _ (λ t, ∀ r, r ∈ t → _)). }
  intros _. apply succeeds_commit.
Qed.

(** A rejection or a missing handler finishes the event. *)
Lemma failed_progress event reason now :
  succeeds now (λ _, True) (on_db (mark_engine_inbox_failed (B := B) (ib_event_id event) reason now))
    (λ _ w, deferred_event (ib_event_id event) now (w_db w)).
Proof.
  apply (succeeds_on_db _ _ (λ _, True) (λ _, deferred_event (ib_event_id event) now)).
  apply succeeds_mark; [unfold mark_engine_inbox_failed; total|].
  intros d e b d' e' Hr%mark_failed_done. by eapply still_pending_weaken; [|exact Hr].
Qed.

Lemma release_keeps_inbox kind id action (I : list EngineInboxEvent → Prop) :
  guarantee (keeps (λ d : Db B, I (engine_inbox d))) (release_engine_poison kind id action).
Proof. unfold release_engine_poison. guar. apply guarantee_stmt; [apply _|]. by intros d ?. Qed.

Lemma dispatch_progress post now (P : Db B → Prop) :
  succeeds now (λ w, P (w_db w)) (dispatch post) (λ _ w, P (w_db w)).
Proof.
  intros w HP. destruct (dispatch_run post w (quiet now)) as (w' & Hr & Hdb & _).
  exists tt, w'. split; [done|]. by rewrite Hdb.
Qed.

(** C36: Processing an event makes progress: with a quiet storage, a growing
    retry schedule and handlers whose own storage calls succeed, processing any
    event returns, and afterwards no row of the event is due at the current
    time: it is finished or its next attempt lies in the future. *)
Theorem process_event_progress event now :
  succeeds now (λ _, True) (process_event config handlers event)
    (λ _ w, deferred_event (ib_event_id event) now (w_db w)).
Proof using retry_grows handlers_quiet H0.
  set (Q := λ w : World B, deferred_event (ib_event_id event) now (w_db w)).
  assert (Hret : ∀ (m : ST (World B) unit) (out : ProcessOutcome), succeeds now (λ _, True) m (λ _, Q) →
    succeeds now (λ _, True) (m;; mret out) (λ _, Q)).
  { intros m out Hm. eapply succeeds_bind; [exact Hm|intros ?; by apply succeeds_ret]. }
  assert (Hclock : ∀ {A} (k : Z → ST (World B) A), succeeds now (λ _, True) (k now) (λ _, Q) →
    succeeds now (λ _, True) (clock_now ≫= k) (λ _, Q)).
  { intros A k Hk w _. destruct (Hk w I) as (a & w' & Hr & HQ). by exists a, w'. }
  assert (Hretry : ∀ err, succeeds now (λ _, True) (schedule_retry config event err) (λ _, Q)).
  { intros err. apply Hclock, retry_at_progress.
    pose proof (growing_delay _ (ib_attempts event + 1) retry_grows). lia. }
  assert (Hacq : ∀ {A} (m : ST (World B) A), succeeds now (λ _, True) m (λ _, Q) →
    succeeds now (λ _, True) (acquire;; m) (λ _, Q)).
  { intros A m Hm. eapply succeeds_bind; [by apply (succeeds_stmt _ _ _ (λ _ _, True))|intros ?; exact Hm]. }
  unfold process_event. destruct (handlers _) as [h|] eqn:Hh; apply Hclock.
  2: { apply Hacq. eapply succeeds_bind; [apply failed_progress|intros ?; by apply succeeds_ret]. }
  eapply succeeds_bind.
  { apply (succeeds_on_db _ _ (λ _, True)), apply_transaction_progress; eauto. }
  intros [out post|exit].
  { eapply succeeds_bind; [apply dispatch_progress|intros ?; by apply succeeds_ret]. }
  destruct exit as [[[|w|reason]|[err|err]]| |msg]; try (by intros ? []).
  1: { apply Hclock, Hacq. eapply succeeds_bind; [apply failed_progress|intros ?].
       eapply succeeds_bind; [apply succeeds_on_db, succeeds_keeps|intros ?].
       - unfold release_engine_poison. total.
       - apply (release_keeps_inbox _ _ _ (λ t, ∀ r, r ∈ t → _)).
       - eapply succeeds_bind; [apply dispatch_progress|intros ?; by apply succeeds_ret]. }
  - apply Hret. destruct (is_busy_error err); [|apply Hretry].
    apply Hclock, retry_at_progress. lia.
  - apply Hret, poison_progress.
  - apply Hret, Hretry.
  - apply Hret, poison_progress.
Qed.
End Progress.

(** ** The theorems at concrete inputs *)

(** A rejected event leaves the other tables alone. *)
Lemma process_event_atomic_witness :
  same_tables (w_db (submitted "reject")) (w_db (final (processed "reject"))).
Proof.
  destruct (process_event_atomic default_config sample_handlers _ _ _ _ _ _
    (processed_eq "reject")) as [(h & now & waiting & eff & post & _ & Ho & _)|[Hs _]];
    [|exact Hs].
  assert (Hr : (processed "reject").1.1 = Ok PRejected) by by vm_compute.
  rewrite Hr in Ho. by destruct waiting.
Defined.

(** An applied event is acknowledged, and it is settled in the database. *)
Lemma ack_after_durable_witness :
  done_event (ib_event_id (first_event (submitted "apply"))) (w_db (final (processed "apply"))) ∨
  parked_event (ib_event_id (first_event (submitted "apply"))) (w_db (final (processed "apply"))).
Proof.
  apply (ack_after_durable default_config sample_handlers (first_event (submitted "apply")) _ _ _ _ _
    (processed_eq "apply")).
  by vm_compute.
Defined.

Lemma process_event_progress_witness :
  succeeds 100 (λ _, True)
    (process_event default_config sample_handlers (first_event (submitted "slow")))
    (λ _ w, 
       deferred_event (ib_event_id (first_event (submitted "slow"))) 100 (w_db w)).
Proof.
  apply (process_event_progress default_config sample_handlers).
  - apply default_schedules_growing.
  - exact sample_handlers_quiet.
Defined.
