(* ===== verification/JobProps.v ===== *)
(** * What the job table promises

    A claim hands out due jobs under a fresh generation and never a second job
    of an aggregate that has a live one; only the current generation of a
    running job completes it; a completion and its result event are one
    transaction.

    Source: crates/store/src/engine/mod.rs, crates/engine/src/jobs.rs. *)

From stdpp Require Import base list strings gmap pretty.
From S2P Require Import Prelude Table Storage EngineSchema EngineNext InboxStore OutboxStore JobStore.
From S2P Require Import EngineConfig EngineEffects Worker Executor Runtime Engine Sample.

Local Open Scope Z_scope.

(** ** Mutual exclusion of an aggregate's jobs *)

(** At [now] at most one job of every aggregate runs under a live lease. *)
Definition exclusive {B} (now : Z) (d : Db B) : Prop :=
  ∀ r1 r2, r1 ∈ engine_job d → r2 ∈ engine_job d →
    job_live now r1 = true → job_live now r2 = true → same_aggregate r1 r2 = true →
    jb_job_id r1 = jb_job_id r2.

Lemma job_live_spec now r :
  job_live now r = true ↔ jb_state r = JobRunning ∧ now < jb_lease_until r.
Proof. unfold job_live, in_job_state. rewrite andb_true_iff, bool_decide_eq_true, Z.ltb_lt. done. Qed.

Lemma same_aggregate_spec r1 r2 :
  same_aggregate r1 r2 = true ↔
  jb_aggregate_kind r1 = jb_aggregate_kind r2 ∧ jb_aggregate_id r1 = jb_aggregate_id r2.
Proof. unfold same_aggregate. by rewrite andb_true_iff, !bool_decide_eq_true. Qed.

(** A job table whose live jobs were live before keeps the exclusion. *)
Record live_shrinks (now : Z) (t t' : list EngineJob) : Prop := {
  ls_live : ∀ r', r' ∈ t' → job_live now r' = true →
    ∃ r, r ∈ t ∧ job_live now r = true ∧ jb_job_id r' = jb_job_id r ∧
      jb_aggregate_kind r' = jb_aggregate_kind r ∧ jb_aggregate_id r' = jb_aggregate_id r;
}.

#[export] Instance live_shrinks_preorder now : PreOrder (live_shrinks now).
Proof.
  split; [intros t; split; intros r Hr Hl; by exists r|].
  intros t1 t2 t3 [H1] [H2]. split. intros r3 Hr3 Hl3.
  destruct (H2 _ Hr3 Hl3) as (r2 & Hr2 & Hl2 & E1 & E2 & E3).
  destruct (H1 _ Hr2 Hl2) as (r1 & Hr1 & Hl1 & F1 & F2 & F3).
  exists r1. split_and!; congruence.
Qed.

Section Exclusion.
Context {B : Type}.
Implicit Types d : Db B.

Lemma exclusive_shrinks now d d' :
  live_shrinks now (engine_job d) (engine_job d') → exclusive now d → exclusive now d'.
Proof.
  intros [Hs] Hx r1 r2 H1 H2 L1 L2 [Hk Hi]%same_aggregate_spec.
  destruct (Hs r1 H1 L1) as (x1 & X1 & M1 & E1 & K1 & I1).
  destruct (Hs r2 H2 L2) as (x2 & X2 & M2 & E2 & K2 & I2).
  rewrite E1, E2. apply Hx; try done. apply same_aggregate_spec. split; congruence.
Qed.

(** Time passing only ends leases. *)
Lemma exclusive_later now now' d : now ≤ now' → exclusive now d → exclusive now' d.
Proof.
  intros Hle Hx r1 r2 H1 H2 [S1 L1]%job_live_spec [S2 L2]%job_live_spec Ha.
  apply Hx; try done; apply job_live_spec; split; try done; lia.
Qed.

Lemma update_shrinks now p f t :
  (∀ r, r ∈ t → p r = true → job_live now (f r) = true → job_live now r = true) →
  (∀ r, (jb_job_id (f r), jb_aggregate_kind (f r), jb_aggregate_id (f r)) =
        (jb_job_id r, jb_aggregate_kind r, jb_aggregate_id r)) →
  live_shrinks now t (update_where p f t).
Proof.
  intros Hf Hid. split. intros r' (r & Hr & ->)%elem_of_update_where. destruct (p r) eqn:E.
  - intros Hl. exists r. specialize (Hid r). injection Hid as -> -> ->. eauto 6.
  - intros Hl. by exists r.
Qed.

(** One claim keeps the exclusion: its guard saw no other live job of the
    aggregate, and every claimed row has the claimed id. *)
Lemma claim_update_exclusive now lease_until id d :
  exclusive now d →
  exclusive now (d <| engine_job ::= update_where (claim_guard (engine_job d) id now)
                                       (claimed_job now lease_until) |>).
Proof.
  intros Hx. set (p := claim_guard (engine_job d) id now).
  assert (Hg : ∀ r x, p r = true → x ∈ engine_job d → job_live now x = true →
    same_aggregate x r = true → jb_job_id x = jb_job_id r).
  { intros r x Hp Hin Hl Ha. unfold p, claim_guard in Hp.
    apply andb_true_iff in Hp as [_ Hp%negb_true_iff].
    destruct (decide (jb_job_id x = jb_job_id r)) as [|Hne]; [done|]. exfalso.
    assert (aggregate_busy (engine_job d) now r = true); [|congruence].
    apply existsb_elem. exists x. split; [done|]. unfold has_job_id.
    by rewrite Ha, Hl, bool_decide_eq_false_2. }
  assert (Hid : ∀ r, p r = true → jb_job_id r = id).
  { intros r Hp. unfold p, claim_guard, has_job_id in Hp. by brefl. }
  intros r1 r2 (x1 & H1 & ->)%elem_of_update_where (x2 & H2 & ->)%elem_of_update_where.
  destruct (p x1) eqn:P1, (p x2) eqn:P2; intros L1 L2 Ha.
  - cbn. by rewrite (Hid _ P1), (Hid _ P2).
  - symmetry. apply (Hg x1 x2 P1 H2 L2). apply same_aggregate_spec.
    apply same_aggregate_spec in Ha as [Hk Hi]. cbn in *. by rewrite Hk, Hi.
  - cbn. apply (Hg x2 x1 P2 H1 L1). apply same_aggregate_spec.
    by apply same_aggregate_spec in Ha as [Hk Hi].
  - by apply Hx.
Qed.

Lemma claim_job_exclusive now lease_until id :
  guarantee (keeps (exclusive (B := B) now)) (claim_job id now lease_until).
Proof.
  apply guarantee_stmt; [apply _|]. intros d. cbn. intros Hx. by apply claim_update_exclusive.
Qed.

Lemma claim_jobs_exclusive now lease_until ids :
  guarantee (keeps (exclusive (B := B) now)) (claim_jobs ids now lease_until).
Proof. induction ids as [|id ids IH]; cbn; guar. apply claim_job_exclusive. Qed.

(** The statements that start no job shrink the set of live ones. *)
Definition shrinks (now : Z) (d d' : Db B) : Prop :=
  live_shrinks now (engine_job d) (engine_job d').

#[export] Instance shrinks_preorder now : PreOrder (shrinks now).
Proof.
  unfold shrinks. split; [intros d; reflexivity|]. intros d1 d2 d3 H1 H2. by etrans.
Qed.

Lemma job_update_shrinks now p f :
  (∀ r, p r = true → job_live now (f r) = true → job_live now r = true) →
  (∀ r, (jb_job_id (f r), jb_aggregate_kind (f r), jb_aggregate_id (f r)) =
        (jb_job_id r, jb_aggregate_kind r, jb_aggregate_id r)) →
  guarantee (shrinks now) (job_update p f).
Proof.
  intros Hf Hid. apply guarantee_stmt; [apply _|]. intros d. apply update_shrinks; auto.
Qed.

Lemma insert_engine_job_shrinks now job now' :
  guarantee (shrinks now) (insert_engine_job job now').
Proof.
  unfold insert_engine_job, find_engine_job. guar.
  apply guarantee_stmt; [apply _|]. intros d. unfold insert_or_ignore.
  destruct (existsb _ _); unfold shrinks; cbn; [reflexivity|]. split.
  intros r [Hr| ->%list_elem_of_singleton]%elem_of_app Hl; [by exists r|].
  by apply job_live_spec in Hl as [Hl _].
Qed.

Lemma finish_engine_job_shrinks now id g finish now' :
  guarantee (shrinks now) (finish_engine_job id g finish now').
Proof.
  unfold finish_engine_job, find_engine_job. apply guarantee_bind; [apply _|guar|].
  intros [cur|]; [|guar]. destruct (_ || _); [guar|].
  destruct (finish_columns _ _) as [[[st res] err] next_at] eqn:Hf. guar.
  apply job_update_shrinks; [|done]. intros r _ [Hs _]%job_live_spec.
  by apply finish_columns_not_running in Hf.
Qed.

Lemma cancel_engine_job_shrinks now id now' :
  guarantee (shrinks now) (cancel_engine_job id now').
Proof. unfold cancel_engine_job. guar; by apply job_update_shrinks. Qed.

Lemma cancel_jobs_shrinks now ids now' : guarantee (shrinks now) (cancel_jobs ids now').
Proof. induction ids as [|i ids IH]; cbn; guar. apply cancel_engine_job_shrinks. Qed.

Lemma cancel_engine_jobs_for_aggregate_shrinks now kind id now' :
  guarantee (shrinks now) (cancel_engine_jobs_for_aggregate kind id now').
Proof. unfold cancel_engine_jobs_for_aggregate. guar; by apply job_update_shrinks. Qed.

Lemma finish_lapsed_shrinks now now' :
  guarantee (shrinks now) (finish_lapsed_cancelled_engine_jobs now').
Proof. apply guarantee_stmt; [apply _|]. intros d. by apply update_shrinks. Qed.

Lemma reset_engine_job_leases_shrinks now :
  0 ≤ now → guarantee (shrinks now) reset_engine_job_leases.
Proof.
  intros Hn. apply job_update_shrinks; [|done]. intros r _ [_ Hl]%job_live_spec. cbn in Hl. lia.
Qed.

(** A renewal by a holder whose lease is still live. *)
Lemma renew_live_shrinks now id g lease_until d e :
  (∀ r, r ∈ engine_job d → held_by id g r = true → job_live now r = true) →
  shrinks now d (final (renew_engine_job_lease id g lease_until now d e)).
Proof.
  intros Hl. unfold renew_engine_job_lease, job_update, mbind, st_bind, stmt.
  destruct (next_fault e) as [[] e']; [reflexivity|]. apply update_shrinks; [|done].
  intros r Hr Hh _. by apply Hl.
Qed.
End Exclusion.

(** One job statement at time [now], by any task; a renewal comes in time. *)
Inductive job_step {B} (now : Z) : Db B → Db B → Prop :=
| js_insert job d e : job_step now d (final (insert_engine_job job now d e))
| js_claim pool lease_until n d e :
    job_step now d (final (claim_due_engine_jobs pool now lease_until n d e))
| js_renew id g lease_until d e :
    (∀ r, r ∈ engine_job d → held_by id g r = true → job_live now r = true) →
    job_step now d (final (renew_engine_job_lease id g lease_until now d e))
| js_finish id g finish d e : job_step now d (final (finish_engine_job id g finish now d e))
| js_cancel id d e : job_step now d (final (cancel_engine_job id now d e))
| js_cancel_phase kind id phase d e :
    job_step now d (final (cancel_engine_jobs_for_phase kind id phase now d e))
| js_cancel_aggregate kind id d e :
    job_step now d (final (cancel_engine_jobs_for_aggregate kind id now d e))
| js_lapsed d e : job_step now d (final (finish_lapsed_cancelled_engine_jobs now d e))
| js_reset d e : job_step now d (final (reset_engine_job_leases d e))
| js_clear id d e : job_step now d (final (clear_engine_job_result id now d e))
| js_other d d' : engine_job d' = engine_job d → job_step now d d'.

(** Job statements at times that do not run backwards. *)
Inductive job_run {B} : Z → Db B → Z → Db B → Prop :=
| jr_nil t d : job_run t d t d
| jr_step t d t1 d1 t2 d2 :
    t ≤ t1 → job_step t1 d d1 → job_run t1 d1 t2 d2 → job_run t d t2 d2.

Lemma job_step_exclusive {B} now (d d' : Db B) :
  0 ≤ now → job_step now d d' → exclusive now d → exclusive now d'.
Proof.
  intros Hn Hs Hx. destruct Hs; cycle 1.
  { assert (Hg : guarantee (keeps (exclusive (B := B) now))
      (claim_due_engine_jobs pool now lease_until n)); [|by apply Hg].
    unfold claim_due_engine_jobs. guar. apply claim_jobs_exclusive. }
  all: eapply exclusive_shrinks; [|exact Hx].
  - by apply renew_live_shrinks.
  - apply finish_engine_job_shrinks.
  - apply cancel_engine_job_shrinks.
  - assert (Hg : guarantee (shrinks (B := B) now) (cancel_engine_jobs_for_phase kind id phase now)).
    { unfold cancel_engine_jobs_for_phase. guar. apply cancel_jobs_shrinks. }
    apply Hg.
  - apply cancel_engine_jobs_for_aggregate_shrinks.
  - apply finish_lapsed_shrinks.
  - by apply reset_engine_job_leases_shrinks.
  - assert (Hg : guarantee (shrinks (B := B) now) (clear_engine_job_result id now)).
    { unfold clear_engine_job_result. guar. by apply job_update_shrinks. }
    apply Hg.
  - match goal with He : engine_job _ = _ |- _ => rewrite He end. reflexivity.
  - apply insert_engine_job_shrinks.
Qed.

(** C14: The jobs of one aggregate exclude each other: as long as every lease
    renewal comes before the lease ran out and time does not run backwards, no
    interleaving of claims, completions, cancellations, recoveries and renewals
    lets two jobs of one aggregate run under live leases. *)
Theorem aggregate_jobs_exclusive {B} t t' (d d' : Db B) :
  0 ≤ t → exclusive t d → job_run t d t' d' → exclusive t' d'.
Proof.
  intros Hn Hx Hr. induction Hr as [|t d t1 d1 t2 d2 Hle Hs _ IH]; [done|].
  apply IH; [lia|]. eapply job_step_exclusive; [lia|exact Hs|]. by eapply exclusive_later.
Qed.

(** ** What a claim returns *)

(** [j] was claimed from a row of [d]: due, of the pool, not held back by poison. *)
Definition claimed_from {B} (d : Db B) (pool : string) (now lease_until : Z) (j : EngineJob) : Prop :=
  ∃ j0, j0 ∈ engine_job d ∧ j = claimed_job now lease_until j0 ∧ jb_pool j0 = pool ∧
    job_due now j0 = true ∧
    poison_blocks (jb_aggregate_kind j0) (jb_aggregate_id j0) (jb_action j0) now
      (engine_aggregate_poison d) = false.

Section Claim.
Context {B : Type}.
Implicit Types d : Db B.

Lemma claim_guard_id jobs id now j : claim_guard jobs id now j = true → jb_job_id j = id.
Proof. unfold claim_guard, has_job_id. intros H. by brefl. Qed.

Lemma claim_jobs_total ids now lease_until now0 :
  total now0 (claim_jobs (B := B) ids now lease_until).
Proof. induction ids as [|id ids IH]; cbn; unfold claim_job; total. Qed.

(** One claim touches only the row of its id. *)
Lemma claim_job_run id now lease_until d e o d' e' :
  claim_job id now lease_until d e = (Ok o, d', e') →
  o = claimed_job now lease_until <$> select_one (claim_guard (engine_job d) id now) (engine_job d) ∧
  d' = d <| engine_job ::= update_where (claim_guard (engine_job d) id now)
                             (claimed_job now lease_until) |>.
Proof. unfold claim_job. intros H%stmt_inv. by injection H as <- <-. Qed.

Lemma claimed_rows_elsewhere id now lease_until d r :
  jb_job_id r ≠ id →
  r ∈ update_where (claim_guard (engine_job d) id now) (claimed_job now lease_until) (engine_job d) ↔
  r ∈ engine_job d.
Proof.
  intros Hne. rewrite elem_of_update_where. split.
  - intros (x & Hx & ->). destruct (claim_guard _ _ _ x) eqn:E; [|done].
    apply claim_guard_id in E. by destruct Hne.
  - intros Hr. exists r. split; [done|]. destruct (claim_guard _ _ _ r) eqn:E; [|done].
    by apply claim_guard_id in E.
Qed.

Record claims (ids : list string) (now lease_until : Z) d d' (js : list EngineJob) : Prop := {
  cl_ids : sublist (map jb_job_id js) ids;
  cl_rows : ∀ j, j ∈ js → j ∈ engine_job d' ∧ ∃ j0, j0 ∈ engine_job d ∧
    j = claimed_job now lease_until j0 ∧ job_due now j0 = true;
  cl_others : ∀ r, jb_job_id r ∉ ids → r ∈ engine_job d' ↔ r ∈ engine_job d;
}.

Lemma claim_jobs_claims ids now lease_until d e js d' e' :
  NoDup ids → claim_jobs ids now lease_until d e = (Ok js, d', e') →
  claims ids now lease_until d d' js.
Proof.
  intros Hnd. revert d e js d' e'.
  induction Hnd as [|id ids Hni Hnd IH]; intros d e js d' e' Hr; cbn in Hr.
  { injection Hr as <- <- <-. split; [constructor|by intros j ?%not_elem_of_nil|done]. }
  st_inv. match goal with H1 : claim_job _ _ _ _ _ = _ |- _ =>
    apply claim_job_run in H1 as [-> ->] end.
  match goal with H1 : claim_jobs _ _ _ _ _ = _ |- _ =>
    destruct (IH _ _ _ _ _ H1) as [Hids Hrows Hoth] end.
  assert (Hkeep : ∀ r, jb_job_id r ∉ id :: ids → r ∈ engine_job d' ↔ r ∈ engine_job d).
  { intros r [Hne Hni']%not_elem_of_cons. rewrite Hoth by done. cbn. by apply claimed_rows_elsewhere. }
  assert (Hback : ∀ j, j ∈ a0 → j ∈ engine_job d' ∧ ∃ j0, j0 ∈ engine_job d ∧
    j = claimed_job now lease_until j0 ∧ job_due now j0 = true).
  { intros j Hj. destruct (Hrows _ Hj) as (Hin & x & Hx & -> & Hd). split; [done|]. exists x.
    split_and!; try done. apply (claimed_rows_elsewhere id now lease_until); [|done].
    assert (jb_job_id (claimed_job now lease_until x) ∈ ids) as Hin'.
    { eapply elem_of_sublist; [|exact Hids]. apply In_map_iff. eauto. }
    intros <-. by destruct Hni. }
  destruct (select_one _ _) as [j0|] eqn:Hsel; cbn [fmap option_fmap option_map];
    [|split; [by apply sublist_cons|exact Hback|exact Hkeep]].
  apply find_some_elem in Hsel as [Hj0 Hg]. pose proof (claim_guard_id _ _ _ _ Hg) as Hid0.
  split; [|intros j [->|Hj]%elem_of_cons; [|by apply Hback]|exact Hkeep].
  - cbn. rewrite Hid0. by apply sublist_skip.
  - split.
    + apply Hoth; cbn; [by rewrite Hid0|]. apply elem_of_update_where. exists j0. by rewrite Hg.
    + exists j0. split_and!; try done. unfold claim_guard in Hg. by brefl.
Qed.

(** The candidates of a claim: distinct ids of rows that satisfy its condition. *)
Definition claim_ids d (pool : string) (now n : Z) : list string :=
  map jb_job_id (limit n (order_by job_order (select_where (claim_candidate d pool now) (engine_job d)))).

Lemma claim_ids_candidate d pool now n id :
  id ∈ claim_ids d pool now n →
  ∃ c, c ∈ engine_job d ∧ jb_job_id c = id ∧ claim_candidate d pool now c = true.
Proof.
  intros (c & Hc%elem_of_limit & ->)%In_map_iff.
  rewrite elem_of_order_by in Hc. apply elem_of_select_where in Hc as [Hc Hp]. eauto.
Qed.

Lemma claim_ids_nodup d pool now n : schema_ok d → NoDup (claim_ids d pool now n).
Proof.
  intros Hs. apply NoDup_map_limit. rewrite order_by_Permutation.
  apply NoDup_map_filter, Hs.
Qed.

(** A claim hands out only what it may: at most the requested number of
    jobs, no job twice, and each is in the table as a running row with a new
    generation, one more attempt and the given lease, made from a row of the
    requested pool that was due and not held back by a poisoned action. *)
Theorem claim_hands_out_due_jobs pool now lease_until n d e js d' e' :
  schema_ok d → 0 ≤ n →
  claim_due_engine_jobs pool now lease_until n d e = (Ok js, d', e') →
  Z.of_nat (length js) ≤ n ∧ NoDup (map jb_job_id js) ∧
  ∀ j, j ∈ js → j ∈ engine_job d' ∧ claimed_from d pool now lease_until j.
Proof.
  intros Hs Hn Hr. unfold claim_due_engine_jobs in Hr. st_inv.
  match goal with H1 : query _ _ _ = _ |- _ => apply query_inv in H1 as [-> ->] end.
  pose proof (claim_ids_nodup d pool now n Hs) as Hnd.
  destruct (claim_jobs_claims _ _ _ _ _ _ _ _ Hnd Hr) as [Hids Hrows _].
  split_and!.
  - apply sublist_length in Hids. unfold claim_ids in Hids. rewrite !length_map in Hids.
    pose proof (length_limit n (order_by job_order
      (select_where (claim_candidate d pool now) (engine_job d))) Hn). lia.
  - by eapply sublist_NoDup.
  - intros j Hj. destruct (Hrows j Hj) as (Hin & j0 & Hj0 & -> & Hd). split; [done|].
    assert (jb_job_id j0 ∈ claim_ids d pool now n) as Hc.
    { eapply elem_of_sublist; [|exact Hids]. apply In_map_iff. by eexists. }
    apply claim_ids_candidate in Hc as (c & Hc & Hid & Hcand).
    assert (c = j0) as -> by (by apply (NoDup_map_inj jb_job_id _ _ _ (job_id_unique _ Hs))).
    exists j0. unfold claim_candidate in Hcand. brefl. by split_and!.
Qed.

(** A claim does not overlook work: with a quiet storage and at least one
    free slot, a claim of a pool that has a due, unblocked job whose aggregate is
    idle returns at least one job. *)
Theorem claim_finds_work pool now lease_until n d j now0 :
  schema_ok d → 0 < n → j ∈ engine_job d → claim_candidate d pool now j = true →
  ∃ j1 js d', claim_due_engine_jobs pool now lease_until n d (quiet now0) =
    (Ok (j1 :: js), d', quiet now0).
Proof.
  intros Hs Hn Hj Hc. unfold claim_due_engine_jobs, mbind, st_bind.
  rewrite query_ok by done. fold (claim_ids d pool now n).
  assert (∃ id rest, claim_ids d pool now n = id :: rest) as (id & rest & Hids).
  { unfold claim_ids, limit. destruct (Z.ltb_spec n 0); [lia|].
    destruct (order_by _ _) as [|x l] eqn:Ho.
    - assert (j ∈ order_by job_order (select_where (claim_candidate d pool now) (engine_job d)))
        as Hin by (by apply elem_of_order_by, elem_of_select_where).
      rewrite Ho in Hin. by apply not_elem_of_nil in Hin.
    - destruct (Z.to_nat n) eqn:Hz; [lia|]. cbn. eauto. }
  destruct (claim_ids_candidate d pool now n id) as (c & Hcin & Hid & Hcand);
    [rewrite Hids; left|].
  rewrite Hids. cbn [claim_jobs]. unfold mbind, st_bind, claim_job.
  rewrite stmt_ok by done. cbn [fst snd].
  assert (claim_guard (engine_job d) id now c = true) as Hg.
  { unfold claim_candidate in Hcand. brefl. unfold claim_guard, has_job_id.
    rewrite bool_decide_eq_true_2 by done. cbn. apply andb_true_iff. split; [done|].
    by apply negb_true_iff. }
  destruct (find_is_some _ _ c Hcin Hg) as [x Hx]. unfold select_one. rewrite Hx. cbn.
  match goal with |- context [claim_jobs rest now lease_until ?d1 _] =>
    destruct (claim_jobs_total rest now lease_until now0 d1 I) as (js & d' & Hr & _) end.
  exists (claimed_job now lease_until x), js, d'. by rewrite Hr.
Qed.
End Claim.

(** ** Completions and their result events *)

(** The inbox has the result event of this generation of the job. *)
Definition reported {B} (id : string) (g : Z) (d : Db B) : Prop :=
  ∃ x, x ∈ engine_inbox d ∧ ib_event_id x = job_result_event_id id g.

(** Every job that ended between [d] and [d'] has its result event in [d']. *)
Definition endings_reported {B} (d d' : Db B) : Prop :=
  ∀ r', r' ∈ engine_job d' → job_terminal (jb_state r') = true →
    r' ∈ engine_job d ∨ reported (jb_job_id r') (jb_generation r') d'.

Section Completion.
Context {B : Type} `{JobResultJson}.
Context (config : EngineConfig).
Implicit Types d : Db B.

Lemma insert_event_present event now d e r d' e' :
  insert_engine_inbox_event event now d e = (Ok r, d', e') →
  ∃ x, x ∈ engine_inbox d' ∧ ib_event_id x = ni_event_id event.
Proof.
  unfold insert_engine_inbox_event. intros Hr. st_inv.
  match goal with H1 : stmt _ _ _ = _ |- _ => apply stmt_inv in H1 as Hst; clear H1 end.
  destruct (insert_or_ignore _ _ _) as [[] t] eqn:Hi.
  - injection Hst as <- <-. injection Hr as _ <- _. cbn.
    unfold insert_or_ignore in Hi. destruct (existsb _ _); [done|]. injection Hi as <-.
    exists (new_inbox_row event (inbox_sequence d + 1) now). split.
    + apply elem_of_app. right. by apply list_elem_of_singleton.
    + unfold new_inbox_row. by destruct (ni_ack event).
  - injection Hst as <- <-. destruct (insert_conflict_found _ _ _ _ Hi) as (x & _ & Hx & Hid).
    unfold has_event_id in Hid. brefl. st_inv.
    match goal with H1 : query _ _ _ = _ |- _ => apply query_inv in H1 as [-> ->] end.
    destruct (select_one _ _) as [row|]; [|done]. st_inv.
    destruct (bool_decide (ib_state row = InboxFailed)); st_inv; [|by exists x].
    unfold inbox_update in *.
    match goal with H1 : stmt _ _ _ = _ |- _ => apply stmt_inv in H1; injection H1 as _ <- end.
    cbn. exists (if has_event_id (ni_event_id event) x && in_inbox_state InboxFailed x
                 then rearm_failed_row now x else x).
    split; [apply elem_of_update_where; by exists x|]. by destruct (_ && _).
Qed.

Lemma insert_job_result_reports job g stale result now d e r d' e' :
  insert_job_result job g stale result now d e = (Ok r, d', e') →
  reported (jb_job_id job) g d'.
Proof.
  unfold insert_job_result. intros Hr. st_inv.
  match goal with H1 : st_lift _ _ _ = _ |- _ => injection H1 as Hev <- <- end.
  destruct (insert_event_present _ _ _ _ _ _ _ Hr) as (x & Hx & Hid). exists x. split; [done|].
  rewrite Hid. unfold into_new_event in Hev. destruct (job_result_to_vec _); [|done].
  by injection Hev as <-.
Qed.

(** The inbox statements leave the job table alone. *)
Definition same_jobs (d d' : Db B) : Prop := engine_job d' = engine_job d.

#[local] Instance same_jobs_preorder : PreOrder same_jobs.
Proof. unfold same_jobs. split; [by intros d|]. intros d1 d2 d3 H1 H2. congruence. Qed.

Lemma insert_job_result_jobs job g stale result now :
  guarantee same_jobs (insert_job_result job g stale result now).
Proof.
  unfold insert_job_result, insert_engine_inbox_event. guar; apply guarantee_stmt; try apply _;
    intros d; [|done]. by destruct (insert_or_ignore _ _ _) as [[] t].
Qed.

Lemma completion_poison_jobs job outcome finish now :
  guarantee same_jobs (completion_poison config job outcome finish now).
Proof.
  unfold completion_poison, mark_engine_aggregate_poisoned, release_engine_poison.
  guar; apply guarantee_stmt; try apply _; intros d; try done.
  all: by destruct (upsert_poison _ _ _ _ _ _).
Qed.

(** The rows a completion writes. *)
Lemma finish_engine_job_rows id g finish now d e outcome d' e' :
  finish_engine_job id g finish now d e = (Ok outcome, d', e') →
  (d' = d ∧ ∀ st, outcome ≠ FinishApplied st) ∨
  (∃ st, outcome = FinishApplied st ∧
     (∃ c res err nx, finish_columns c finish = (st, res, err, nx)) ∧
     ∀ r', r' ∈ engine_job d' → r' ∈ engine_job d ∨
       (jb_job_id r' = id ∧ jb_generation r' = g ∧ jb_state r' = st)).
Proof.
  unfold finish_engine_job, find_engine_job. intros Hr. st_inv.
  match goal with H1 : query _ _ _ = _ |- _ => apply query_inv in H1 as [-> ->] end.
  destruct (select_one _ _) as [cur|]; [|st_inv; by left].
  destruct (_ || _); [st_inv; by left|].
  destruct (finish_columns _ _) as [[[st res] err] nx] eqn:Hf. st_inv. unfold job_update in *.
  match goal with H1 : stmt _ _ _ = _ |- _ => apply stmt_inv in H1; injection H1 as Hn <- end.
  destruct (Z.eqb_spec a 0) as [->|Hne]; st_inv.
  - left. split; [|done]. rewrite count_where_zero in Hn.
    destruct d. cbn in *. f_equal. exact (update_where_none (held_by id g) _ _ Hn).
  - right. exists st. split_and!; [done|by eexists _, _, _, _|].
    cbn. intros r' (r & Hrin & ->)%elem_of_update_where.
    destruct (held_by id g r) eqn:Hh; [right|by left].
    unfold held_by, has_job_id in Hh. brefl. cbn. by split_and!.
Qed.

Lemma completion_result_terminal c finish st res err nx stale o :
  finish_columns c finish = (st, res, err, nx) → job_terminal st = true →
  completion_result (FinishApplied st) finish = (stale, o) → is_Some o.
Proof. destruct finish, c; cbn; intros [= <- <- <- <-] Ht [= <- <-]; done. Qed.

Lemma write_job_finish_reports job g finish now d e r d' e' :
  write_job_finish config job g finish now d e = (Ok r, d', e') → endings_reported d d'.
Proof.
  unfold write_job_finish. intros Hr. st_inv.
  match goal with H1 : finish_engine_job _ _ _ _ _ _ = _ |- _ => rename H1 into Hfin end.
  match goal with H1 : completion_poison _ _ _ _ _ ?s0 ?e0 = _ |- _ =>
    pose proof (completion_poison_jobs job a finish now s0 e0) as Hp; rewrite H1 in Hp end.
  unfold same_jobs, final in Hp. cbn in Hp.
  assert (Hsame : engine_job d' = engine_job s ∧
    ∀ stale res, completion_result a finish = (stale, Some res) → reported (jb_job_id job) g d').
  { destruct (completion_result a finish) as [stale [res|]] eqn:Hc; st_inv; [|by rewrite Hp].
    match goal with H1 : insert_job_result _ _ _ _ _ ?s0 ?e0 = _ |- _ =>
      pose proof (insert_job_result_jobs job g stale res now s0 e0) as Hj; rewrite H1 in Hj;
      apply insert_job_result_reports in H1 end.
    unfold same_jobs, final in Hj. cbn in Hj. split; [congruence|]. done. }
  destruct Hsame as [Hjobs Hrep]. intros r' Hr' Ht. rewrite Hjobs in Hr'.
  destruct (finish_engine_job_rows _ _ _ _ _ _ _ _ _ Hfin)
    as [[-> _]|(st & -> & (c & res & err & nx & Hf) & Hrows)]; [by left|].
  destruct (Hrows _ Hr') as [Hold|(-> & -> & Hst)]; [by left|right].
  rewrite Hst in Ht. destruct (completion_result (FinishApplied st) finish) as [stale o] eqn:Hc.
  destruct (completion_result_terminal _ _ _ _ _ _ _ _ Hf Ht Hc) as [x ->]. by eapply Hrep.
Qed.

(** No job ends in silence: whatever fails while a holder records its
    completion, every job that is terminal afterwards was terminal before or
    the inbox has the result event of its current generation; the two are one
    commit. *)
Theorem completion_reported job g finish (w : World B) e o w' e' :
  record_job_finish config job g finish w e = (o, w', e') →
  endings_reported (w_db w) (w_db w').
Proof.
  intros Hr. assert (Hdb : ∃ o1 now e1 e2, transaction (
    r ← in_tx (write_job_finish config job g finish now); commit;; mret r) (w_db w) e1 =
      (o1, w_db w', e2)).
  { unfold record_job_finish, mbind at 1, st_bind at 1 in Hr.
    destruct (clock_now w e) as [[[now|x] w1] e1] eqn:Hc;
      [|unfold clock_now in Hc; by destruct (readings e)].
    apply clock_inv in Hc as ->. unfold mbind at 1, st_bind at 1, on_db at 1, focus in Hr.
    destruct (transaction _ (w_db w) e1) as [[[[x b]|x] d1] e2] eqn:Ht;
      exists (Ok (x, b)) || exists (Err x); exists now, e1, e2; rewrite Ht;
      [destruct b|]; by injection Hr as <- <- <-. }
  destruct Hdb as (o1 & now & e1 & e2 & Ht).
  apply transaction_whole in Ht as [[-> _]|(r & e3 & e4 & _ & Hw)].
  - intros r' Hr' _. by left.
  - by eapply write_job_finish_reports.
Qed.

(** Result events stay in the inbox while further ones are inserted. *)
Lemma insert_job_result_keeps id g job g' stale result now :
  guarantee (keeps (λ d, reported id g d)) (insert_job_result job g' stale result now).
Proof.
  unfold insert_job_result, insert_engine_inbox_event. guar; apply guarantee_stmt; try apply _;
    intros d (x & Hx & Hid); cbn.
  - unfold insert_or_ignore. destruct (existsb _ _); cbn; exists x; (split; [|done]); [done|].
    apply elem_of_app. by left.
  - eexists. split; [apply elem_of_update_where; exists x; by split|]. by destruct (_ && _).
Qed.

Lemma report_cancelled_all jobs now d e d' e' :
  st_iter (λ job, insert_job_result job (jb_generation job) false ResultCancelled now;; mret tt)
    jobs d e = (Ok tt, d', e') →
  engine_job d' = engine_job d ∧
  ∀ j, j ∈ jobs → reported (jb_job_id j) (jb_generation j) d'.
Proof.
  revert d e. induction jobs as [|j jobs IH]; intros d e Hr; cbn in Hr.
  { injection Hr as <- <-. split; [done|]. by intros j ?%not_elem_of_nil. }
  st_inv.
  match goal with H1 : insert_job_result _ _ _ _ _ ?s0 ?e0 = _ |- _ =>
    pose proof (insert_job_result_jobs j (jb_generation j) false ResultCancelled now s0 e0) as Hj;
    rewrite H1 in Hj; apply insert_job_result_reports in H1 as Hrep end.
  destruct (IH _ _ Hr) as [Hjobs Hall]. unfold same_jobs, final in Hj. cbn in Hj.
  split; [congruence|]. intros x [->|Hx]%elem_of_cons; [|by apply Hall].
  match type of Hr with st_iter ?f ?l ?s0 ?e0 = _ =>
    assert (Hg : guarantee (keeps (λ d, reported (jb_job_id j) (jb_generation j) d)) (st_iter f l)) end.
  { guar. apply insert_job_result_keeps. }
  match type of Hr with st_iter _ _ ?s0 ?e0 = _ => specialize (Hg s0 e0 Hrep) end.
  by rewrite Hr in Hg.
Qed.

(** The rows the sweep ends. *)
Lemma finish_lapsed_rows now d e jobs d' e' :
  finish_lapsed_cancelled_engine_jobs now d e = (Ok jobs, d', e') →
  ∀ r, r ∈ engine_job d' → r ∈ engine_job d ∨ r ∈ jobs.
Proof.
  unfold finish_lapsed_cancelled_engine_jobs. intros Hr%stmt_inv. injection Hr as <- <-. cbn.
  intros r (x & Hx & ->)%elem_of_update_where. destruct (lapsed_cancelled now x) eqn:E; [right|by left].
  apply In_map_iff. exists x. split; [|done]. by apply elem_of_select_where.
Qed.

(** A cancelled job whose holder went away ends as cancelled and is
    reported in the same commit: after the sweep of lapsed cancelled jobs, every
    job that is terminal was so before or has its result event in the inbox. *)
Theorem cancel_sweep_reported (w : World B) e o w' e' :
  finish_lapsed_cancelled w e = (o, w', e') → endings_reported (w_db w) (w_db w').
Proof.
  assert (Hrefl : ∀ d, endings_reported d d) by (intros d r Hr _; by left).
  set (Q := λ w' : World B, endings_reported (w_db w) (w_db w')).
  intros Hr. refine (hoare_run (λ w0, w0 = w) finish_lapsed_cancelled (λ _ w', Q w')
    _ _ _ _ _ _ eq_refl Hr). clear Hr. unfold finish_lapsed_cancelled.
  apply (hoare_bind _ _ _ (λ _ w0, w0 = w)); [by apply hoare_clock|intros now].
  apply (hoare_bind _ _ _ (λ _, Q)); [|intros jobs w0 e0 HQ].
  2: { match goal with |- context [st_iter ?f jobs w0 e0] =>
         assert (Hg : guarantee (keeps Q) (st_iter f jobs)) by (guar; intros w1 e1 HQ1; exact HQ1) end.
       by apply Hg. }
  apply hoare_focus. intros w0 ->.
  eapply hoare_conseq with (P := λ d, d = w_db w) (Q := λ _ d', endings_reported (w_db w) d');
    [done|by intros [] ?|].
  apply hoare_transaction; [by intros d ->|]. intros d ->.
  apply (hoare_bind _ _ _ (λ jobs t, committed t = w_db w ∧
    ∀ r, r ∈ engine_job (working t) → r ∈ engine_job (w_db w) ∨ r ∈ jobs)).
  { apply hoare_focus. intros t ->. eapply hoare_conseq; [| |apply hoare_self]; [intros s Hs; exact Hs|].
    intros [jobs|x] d1 (e1 & e2 & Hf); cbn; [|done]. split; [done|]. by eapply finish_lapsed_rows. }
  intros jobs. apply (hoare_bind _ _ _ (λ _ t, committed t = w_db w ∧
    endings_reported (w_db w) (working t))).
  { apply hoare_focus. intros t [Hc Hrows]. eapply hoare_conseq; [| |apply hoare_self]; [intros s Hs; exact Hs|].
    intros [[]|x] d1 (e1 & e2 & Hf); cbn; [|by rewrite Hc]. split; [done|].
    apply report_cancelled_all in Hf as [Hjobs Hall]. intros r Hr Ht. rewrite Hjobs in Hr.
    destruct (Hrows r Hr); [by left|right; by apply Hall]. }
  intros _. apply (hoare_bind _ _ _ (λ _ t, endings_reported (w_db w) (committed t)));
    [|intros _; by apply hoare_ret].
  apply hoare_stmt. intros t [Hc Hw]. cbn. by rewrite Hc.
Qed.
End Completion.

(** ** A renewal that comes too late *)

(** The exclusion, as a test. *)
Definition exclusiveb {B} (now : Z) (d : Db B) : bool :=
  forallb (λ r1, forallb (λ r2,
    negb (job_live now r1 && job_live now r2 && same_aggregate r1 r2) ||
    bool_decide (jb_job_id r1 = jb_job_id r2)) (engine_job d)) (engine_job d).

Lemma exclusiveb_spec {B} now (d : Db B) : exclusiveb now d = true ↔ exclusive now d.
Proof.
  unfold exclusiveb, exclusive. rewrite forallb_forall. setoid_rewrite forallb_forall.
  setoid_rewrite <- list_elem_of_In. split.
  - intros Hx r1 r2 H1 H2 L1 L2 Ha. specialize (Hx r1 H1 r2 H2). rewrite L1, L2, Ha in Hx.
    cbn in Hx. by brefl.
  - intros Hx r1 H1 r2 H2. destruct (_ && _) eqn:E; [|done]. cbn. brefl.
    apply bool_decide_eq_true_2. by apply Hx.
Qed.

(** Two jobs of one aggregate, in two pools. *)
Definition two_jobs : Db nat :=
  let job id pool := mkNewJob id "graph" "g1" "phase" id pool "params" None 0 in
  final (insert_engine_job (job "b" "network") 0
    (final (insert_engine_job (job "a" "cpu") 0 (empty_db O) (quiet 0))) (quiet 0)).

(** Job a is claimed at 0 for 300 seconds; its lease lapses, and job b of the
    same aggregate is claimed at 300. *)
Definition lapsed_then_claimed : Db nat :=
  final (claim_due_engine_jobs "network" 300 600 1
    (final (claim_due_engine_jobs "cpu" 0 300 1 two_jobs (quiet 0))) (quiet 300)).


(** ** The theorems at concrete inputs *)

Definition claimed_a : Db nat := final (claim_due_engine_jobs "cpu" 0 300 1 two_jobs (quiet 0)).

Lemma two_jobs_exclusive : exclusive 0 two_jobs.
Proof. apply exclusiveb_spec. by vm_compute. Qed.

Lemma two_jobs_schema : schema_ok two_jobs.
Proof.
  unfold two_jobs. apply insert_engine_job_next. apply insert_engine_job_next, empty_db_schema_ok.
Qed.

(** A claim of job a, and of job b while a is live, keep the exclusion. *)
Lemma aggregate_jobs_exclusive_witness :
  exclusive 10 (final (claim_due_engine_jobs "network" 10 310 1 claimed_a (quiet 10))).
Proof.
  apply (aggregate_jobs_exclusive 0 10 two_jobs); [lia|apply two_jobs_exclusive|].
  eapply jr_step; [|apply (js_claim 0 "cpu" 300 1 two_jobs (quiet 0))|]; [lia|].
  eapply jr_step; [|apply (js_claim 10 "network" 310 1 claimed_a (quiet 10))|]; [lia|].
  apply jr_nil.
Defined.

Definition claim_a_result : list EngineJob :=
  match (claim_due_engine_jobs "cpu" 0 300 1 two_jobs (quiet 0)).1.1 with Ok js => js | Err _ => [] end.

Lemma claim_hands_out_due_jobs_witness :
  Z.of_nat (length claim_a_result) ≤ 1 ∧ NoDup (map jb_job_id claim_a_result) ∧
  ∀ j, j ∈ claim_a_result → j ∈ engine_job claimed_a ∧ claimed_from two_jobs "cpu" 0 300 j.
Proof.
  apply (claim_hands_out_due_jobs "cpu" 0 300 1 two_jobs (quiet 0) claim_a_result claimed_a (quiet 0)).
  - apply two_jobs_schema.
  - lia.
  - by vm_compute.
Defined.

Lemma claim_finds_work_witness :
  ∃ j1 js d', claim_due_engine_jobs "cpu" 0 300 1 two_jobs (quiet 0) = (Ok (j1 :: js), d', quiet 0).
Proof.
  apply (claim_finds_work "cpu" 0 300 1 two_jobs
    (new_job_row (mkNewJob "a" "graph" "g1" "phase" "a" "cpu" "params" None 0) 0) 0).
  - apply two_jobs_schema.
  - lia.
  - vm_compute. left.
  - by vm_compute.
Defined.

(** The completion of the sample job is reported. *)
Lemma completion_reported_witness : endings_reported (w_db claimed) (w_db completed).
Proof.
  apply (completion_reported default_config (first_job claimed) 1 (FinishDone "result")
    claimed (quiet 120) _ completed _ (run_eq _)).
Defined.

(** The sample job is asked to cancel, and its holder never comes back. *)
Definition abandoned : World nat :=
  claimed <| w_db := final (cancel_engine_job "job" 200 (w_db claimed) (quiet 200)) |>.

Definition swept : outcome unit * World nat * Env := finish_lapsed_cancelled abandoned (quiet 900).

Lemma swept_eq : finish_lapsed_cancelled abandoned (quiet 900) = (swept.1.1, final swept, swept.2).
Proof. exact (run_eq (finish_lapsed_cancelled abandoned (quiet 900))). Qed.

Lemma cancel_sweep_reported_witness :
  jb_state (first_job (final swept)) = JobCancelled ∧
  endings_reported (w_db abandoned) (w_db (final swept)).
Proof.
  split; [by vm_compute|].
  exact (cancel_sweep_reported abandoned (quiet 900) _ _ _ swept_eq).
Defined.
