(* ===== verification/InboxProps.v ===== *)
(** * What the inbox promises

    An event id is recorded once; a worker is handed the oldest runnable event
    of its shard; every aggregate belongs to exactly one shard, the one that is
    woken for it; a wakeup reaches every waiting event; the recovery makes
    everything runnable again; the quota queries count every charged row once.

    Source: crates/store/src/engine/mod.rs, crates/engine/src/runtime.rs. *)

From stdpp Require Import base list strings gmap pretty sorting.
From S2P Require Import Prelude Table Storage EngineSchema EngineNext InboxStore OutboxStore JobStore.
From S2P Require Import EngineConfig EngineEffects Worker Executor Runtime Engine Sample.

Local Open Scope Z_scope.

Section Inbox.
Context {B : Type}.
Implicit Types d : Db B.

(** ** Dedup *)

(** What a duplicate of an event in this state is told. *)
Definition ack_again_for (row : EngineInboxEvent) : bool :=
  match ib_state row with
  | InboxApplied => true
  | InboxPending => bool_decide (is_Some (ib_waiting_ref row))
  | InboxFailed | InboxPoisoned => false
  end.

(** An event id is recorded once: a new id appends one pending row with the
    next sequence number; a known id adds no row, re-arms the row if the event
    had been rejected and otherwise changes nothing, and is acknowledged again
    exactly when the event is applied or parked. *)
Theorem insert_event_once event now d t :
  ∃ o d', insert_engine_inbox_event event now d (quiet t) = (Ok o, d', quiet t) ∧
  match select_one (has_event_id (ni_event_id event)) (engine_inbox d) with
  | None =>
      o = InboxInserted (inbox_sequence d + 1) ∧
      engine_inbox d' = engine_inbox d ++ [new_inbox_row event (inbox_sequence d + 1) now]
  | Some row =>
      o = InboxDuplicate (ib_state row) (ack_again_for row)
            (bool_decide (ib_state row = InboxFailed)) ∧
      length (engine_inbox d') = length (engine_inbox d) ∧
      (ib_state row ≠ InboxFailed → d' = d) ∧
      (ib_state row = InboxFailed → engine_inbox d' =
         update_where (λ r, has_event_id (ni_event_id event) r && in_inbox_state InboxFailed r)
           (rearm_failed_row now) (engine_inbox d))
  end.
Proof.
  unfold insert_engine_inbox_event, mbind, st_bind. rewrite stmt_ok by done. cbn [fst snd].
  unfold insert_or_ignore. destruct (existsb _ _) eqn:Hex; cbn [fst snd].
  - apply existsb_elem in Hex as (x & Hx & Hp). destruct (find_is_some _ _ x Hx Hp) as [row Hrow].
    unfold select_one in *. rewrite query_ok by done. rewrite Hrow.
    destruct (bool_decide_reflect (ib_state row = InboxFailed)) as [Hf|Hf].
    + unfold inbox_update. rewrite stmt_ok by done. cbn [fst snd].
      assert (Hn : 0 < count_where (λ r, has_event_id (ni_event_id event) r && in_inbox_state InboxFailed r)
        (engine_inbox d)).
      { apply count_where_pos. exists row. apply find_some_elem in Hrow as [Hin Hid].
        rewrite Hid. unfold in_inbox_state. by rewrite bool_decide_eq_true_2. }
      apply Z.ltb_lt in Hn. rewrite Hn. eexists _, _. split; [done|]. unfold ack_again_for. rewrite Hf.
      split_and!; [done|apply length_update_where|done|done].
    + eexists _, _. split; [done|]. unfold ack_again_for. destruct (ib_state row); try done.
  - assert (Hnone : select_one (has_event_id (ni_event_id event)) (engine_inbox d) = None).
    { apply find_none_elem. by apply existsb_none. }
    rewrite Hnone. by eexists _, _.
Qed.

(** ** Order *)

Lemma seq_leb_total x y : seq_leb x y = true ∨ seq_leb y x = true.
Proof. unfold seq_leb. rewrite !Z.leb_le. lia. Qed.

Lemma seq_leb_trans x y z : seq_leb x y = true → seq_leb y z = true → seq_leb x z = true.
Proof. unfold seq_leb. rewrite !Z.leb_le. lia. Qed.

(** A worker is handed the oldest runnable event of its shard: pending,
    due, of the shard, not held back by a poison of its kind, and with the
    smallest sequence number of all such events; it is told there is none only
    if there is none. *)
Theorem next_runnable_oldest count shard now d e o d' e' :
  next_runnable_engine_inbox_event count shard now d e = (Ok o, d', e') →
  d' = d ∧
  match o with
  | Some r => r ∈ engine_inbox d ∧ runnable d count shard now r = true ∧
      ∀ x, x ∈ engine_inbox d → runnable d count shard now x = true → ib_seq r ≤ ib_seq x
  | None => ∀ x, x ∈ engine_inbox d → runnable d count shard now x = false
  end.
Proof.
  unfold next_runnable_engine_inbox_event. intros [-> ->]%query_inv. split; [done|].
  set (t := select_where (runnable d count shard now) (engine_inbox d)).
  destruct (order_by seq_leb t) as [|r l] eqn:Ho; cbn.
  - intros x Hx. destruct (runnable d count shard now x) eqn:E; [|done].
    assert (x ∈ order_by seq_leb t) as Hin by by apply elem_of_order_by, elem_of_select_where.
    rewrite Ho in Hin. by apply not_elem_of_nil in Hin.
  - assert (r ∈ t) as Hr by (apply (elem_of_order_by seq_leb); rewrite Ho; left).
    apply elem_of_select_where in Hr as [Hr Hp]. split_and!; [done..|].
    intros x Hx Hpx. assert (Hle : seq_leb r x = true).
    { apply (order_by_head seq_leb seq_leb_total seq_leb_trans t r l x Ho).
      by apply elem_of_select_where. }
    unfold seq_leb in Hle. by brefl.
Qed.

(** ** Shards *)

(** The shard test of the query, for a row with a consistent shard key. *)
Lemma shard_test r n k :
  inbox_row_ok r →
  (Z.rem (ib_shard_key r) (Z.of_nat (Nat.max n 1)) =? Z.of_nat k) =
  bool_decide (k = shard (from_event r) n).
Proof.
  intros Hok. rewrite (ir_shard _ Hok). unfold shard, shard_key, from_event. cbn.
  pose proof (engine_shard_key_bounds (ib_aggregate_kind r) (ib_aggregate_id r)) as Hb.
  set (z := Z.rem _ _). assert (0 ≤ z).
  { unfold z. rewrite Z.rem_mod_nonneg by lia. apply Z.mod_pos_bound. lia. }
  destruct (Z.eqb_spec z (Z.of_nat k)), (bool_decide_reflect (k = Z.to_nat z)); try done; lia.
Qed.

(** A submitted event is woken where it will be picked up: of all worker
    shards exactly one sees the new event as runnable, the one whose wakeup the
    submit stored, and it sees it unless the event's kind is poisoned on the
    aggregate. *)
Theorem submit_wakes_owner event (w : World B) t n :
  length (wk_workers (w_wake w)) = Nat.max n 1 →
  select_one (has_event_id (ne_event_id event)) (engine_inbox (w_db w)) = None →
  let owner := shard (ne_aggregate event) n in
  let w' := final (submit event w (quiet t)) in
  ∃ r, r ∈ engine_inbox (w_db w') ∧ ib_event_id r = ne_event_id event ∧
    (owner < Nat.max n 1)%nat ∧ wk_workers (w_wake w') !! owner = Some true ∧
    ∀ k, runnable (w_db w') (Z.of_nat (Nat.max n 1)) (Z.of_nat k) t r =
      bool_decide (k = owner) &&
      negb (poison_blocks (ar_kind (ne_aggregate event)) (ar_id (ne_aggregate event)) (ne_kind event) t
              (engine_aggregate_poison (w_db w))).
Proof.
  intros Hlen Hnew owner. set (row := new_inbox_row (into_store event) (inbox_sequence (w_db w) + 1) t).
  assert (Hdb : final (submit event w (quiet t)) =
    w <| w_db := (w_db w) <| engine_inbox := engine_inbox (w_db w) ++ [row] |>
                          <| inbox_sequence := inbox_sequence (w_db w) + 1 |> |>
      <| w_wake ::= worker_for (ne_aggregate event) |>).
  { unfold submit, insert_engine_inbox_event, on_db, focus, mbind, st_bind, acquire, clock_now, modify.
    cbn. unfold insert_or_ignore.
    assert (Hex : existsb (has_event_id (ne_event_id event)) (engine_inbox (w_db w)) = false).
    { apply existsb_none. by apply find_none_elem. }
    rewrite Hex. done. }
  rewrite Hdb. exists row. cbn.
  assert (Hrow : (ib_event_id row, ib_state row, ib_next_at row, ib_kind row, from_event row) =
    (ne_event_id event, InboxPending, t, ne_kind event, ne_aggregate event)).
  { unfold row, new_inbox_row, into_store, from_event. cbn.
    destruct (ne_ack event), (ne_aggregate event); done. }
  injection Hrow as Hid Hst Hnx Hk Hfrom.
  assert (Hok : inbox_row_ok row) by apply new_inbox_row_ok.
  split_and!; [apply elem_of_app; right; by apply list_elem_of_singleton|done|apply shard_lt| |].
  - unfold worker_for, wake_shard_count. cbn. rewrite Hlen.
    unfold shard at 1. replace (Nat.max (Nat.max n 1) 1) with (Nat.max n 1) by lia.
    apply list_lookup_insert_eq. rewrite Hlen. apply shard_lt.
  - intros k. unfold runnable, in_inbox_state. rewrite Hst, Hnx, (shard_test row n k Hok), Hfrom, Hk.
    rewrite bool_decide_eq_true_2 by done. cbn. rewrite Z.leb_refl. cbn. do 2 f_equal.
    unfold from_event in Hfrom. by rewrite <- Hfrom.
Qed.

(** ** Wakeups *)

Definition wanted (refs : list string) (now : Z) (r : EngineInboxEvent) : bool :=
  existsb (λ ref, waits_on ref now r) refs.

Lemma waits_on_run_now ref now r : waits_on ref now (run_now now r) = false.
Proof. unfold waits_on, run_now. cbn. rewrite Z.ltb_irrefl. by rewrite andb_false_r. Qed.

Lemma wanted_run_now refs now r : wanted refs now (run_now now r) = false.
Proof. apply existsb_none. intros ref _. apply waits_on_run_now. Qed.

Lemma wanted_cons ref refs now r :
  wanted (ref :: refs) now r = waits_on ref now r || wanted refs now r.
Proof. done. Qed.

Lemma wake_update_compose ref refs now t :
  update_where (wanted refs now) (run_now now) (update_where (waits_on ref now) (run_now now) t) =
  update_where (wanted (ref :: refs) now) (run_now now) t.
Proof.
  unfold update_where. rewrite map_map. apply map_ext. intros r. cbn.
  destruct (waits_on ref now r); cbn; [by rewrite wanted_run_now|done].
Qed.

Lemma wake_count_compose ref refs now t :
  count_where (waits_on ref now) t +
    count_where (wanted refs now) (update_where (waits_on ref now) (run_now now) t) =
  count_where (wanted (ref :: refs) now) t.
Proof.
  unfold count_where, select_where, update_where. induction t as [|r t IH]; [done|].
  cbn [map List.filter]. rewrite wanted_cons.
  destruct (waits_on ref now r) eqn:E; cbn [orb length].
  - rewrite wanted_run_now. lia.
  - destruct (wanted refs now r); cbn [length]; lia.
Qed.

Lemma wake_run refs now d t :
  wake_engine_inbox_waiting refs now d (quiet t) =
  (Ok (count_where (wanted refs now) (engine_inbox d)),
   d <| engine_inbox ::= update_where (wanted refs now) (run_now now) |>, quiet t).
Proof.
  revert d. induction refs as [|ref refs IH]; intros d; cbn [wake_engine_inbox_waiting].
  - assert (Hw : ∀ x, x ∈ engine_inbox d → wanted [] now x = false) by done.
    apply count_where_zero in Hw as Hz. rewrite Hz. pose proof (update_where_none _ (run_now now) _ Hw) as Hu.
    destruct d. cbn in *. by rewrite Hu.
  - unfold mbind, st_bind. rewrite query_ok by done.
    pose proof (wake_count_compose ref refs now (engine_inbox d)) as Hc.
    pose proof (wake_update_compose ref refs now (engine_inbox d)) as Hu.
    destruct (Z.eqb_spec (count_where (waits_on ref now) (engine_inbox d)) 0) as [Hz|Hz].
    + pose proof (proj1 (count_where_zero _ _) Hz) as Hno. rewrite (update_where_none _ _ _ Hno) in Hc, Hu.
      cbn [mret st_ret]. rewrite IH. cbn. rewrite <- Hc, Hz. cbn. by rewrite Hu.
    + unfold inbox_update. rewrite stmt_ok by done. rewrite IH. cbn. rewrite <- Hc. by rewrite Hu.
Qed.

(** A notification wakes exactly the waiters: with a quiet storage, every
    pending event parked on one of the references becomes due now, no other
    event changes, the count returned is the number of events woken, and the
    workers are signalled when it is positive. *)
Theorem notify_wakes_waiters refs (w : World B) t :
  let p r := existsb (λ ref, waits_on ref t r) refs in
  let n := count_where p (engine_inbox (w_db w)) in
  ∃ w', notify refs w (quiet t) = (Ok n, w', quiet t) ∧
    w_db w' = (w_db w) <| engine_inbox ::= update_where p (run_now t) |> ∧
    w_wake w' = (if 0 <? n then workers_all (w_wake w) else w_wake w) ∧
    ∀ r ref, ref ∈ refs → r ∈ engine_inbox (w_db w') →
      ib_state r = InboxPending → ib_waiting_ref r = Some ref → ib_next_at r ≤ t.
Proof.
  intros p n. assert (Hrun : wake_engine_inbox_waiting refs t (w_db w) (quiet t) = _) by apply wake_run.
  fold (wanted refs t) in *. change (wanted refs t) with p in Hrun. fold n in Hrun.
  unfold notify, mbind, st_bind, acquire, on_db, focus, clock_now, stmt, next_fault.
  cbn [readings quiet faults clock].
  rewrite Hrun.
  assert (Hdue : ∀ r ref, ref ∈ refs → r ∈ update_where p (run_now t) (engine_inbox (w_db w)) →
    ib_state r = InboxPending → ib_waiting_ref r = Some ref → ib_next_at r ≤ t).
  { intros r ref Href (x & Hx & ->)%elem_of_update_where. destruct (p x) eqn:E; cbn; [lia|].
    intros Hs Hw. destruct (Z.le_gt_cases (ib_next_at x) t); [done|]. exfalso.
    apply (proj1 (existsb_none (λ ref, waits_on ref t x) refs)) with (x := ref) in E; [|done].
    unfold waits_on, in_inbox_state in E. rewrite Hs, Hw in E.
    rewrite !bool_decide_eq_true_2 in E by done. cbn in E. brefl. lia. }
  destruct (0 <? n); eexists; (split; [done|]); cbn; by split_and!.
Qed.

(** ** Recovery *)

Lemma startup_recovery_run (w : World B) t :
  let d := w_db w in
  ∃ c, startup_recovery w (quiet t) = (Ok c, w <| w_db :=
    d <| engine_inbox ::= update_where (λ r, in_inbox_state InboxPending r && (t <? ib_next_at r)) (run_now t) |>
      <| engine_outbox ::= update_where (λ r, is_open r && (0 <? ob_lease_until r)) (λ r, r <| ob_lease_until := 0 |>) |>
      <| engine_job ::= update_where (λ j, in_job_state JobRunning j && (0 <? jb_lease_until j))
                          (λ j, j <| jb_lease_until := 0 |>) |> |>, quiet t).
Proof.
  intros d. unfold startup_recovery, rearm_engine_inbox_pending, reset_engine_outbox_leases,
    reset_engine_job_leases, inbox_update, outbox_update, job_update, mbind, st_bind, acquire, on_db,
    focus, clock_now, stmt, next_fault. cbn. by eexists.
Qed.

(** After the startup recovery nothing is stuck on the previous process:
    every pending event is due, every open outbox row is free of its lease, and
    every job the old process left running is claimable at once or, if it was
    asked to cancel, finished by the next sweep. *)
Theorem startup_recovery_rearms (w : World B) t :
  0 ≤ t →
  ∃ c w', startup_recovery w (quiet t) = (Ok c, w', quiet t) ∧
    (∀ r, r ∈ engine_inbox (w_db w') → ib_state r = InboxPending → ib_next_at r ≤ t) ∧
    (∀ r, r ∈ engine_outbox (w_db w') → is_open r = true → ob_next_at r ≤ t → outbox_due t r = true) ∧
    (∀ j, j ∈ engine_job (w_db w') → jb_state j = JobRunning →
       job_due t j = negb (jb_cancel_requested j) ∧ lapsed_cancelled t j = jb_cancel_requested j).
Proof.
  intros Ht. destruct (startup_recovery_run w t) as [c Hr]. eexists c, _. split; [exact Hr|].
  cbn. split_and!.
  - intros r (x & Hx & ->)%elem_of_update_where.
    destruct (_ && _) eqn:E; cbn; [lia|]. unfold in_inbox_state in E. intros Hs. rewrite Hs in E.
    rewrite bool_decide_eq_true_2 in E by done. cbn in E. by brefl.
  - intros r (x & Hx & ->)%elem_of_update_where. unfold outbox_due.
    destruct (is_open x) eqn:Ho; cbn; [|by rewrite Ho]. destruct (0 <? ob_lease_until x) eqn:El; cbn; brefl;
      intros Hop Hn; rewrite Hop; cbn; apply andb_true_iff; split; apply Z.leb_le; lia.
  - intros j (x & Hx & ->)%elem_of_update_where Hs.
    assert (Hrun : in_job_state JobRunning x = true).
    { unfold in_job_state. apply bool_decide_eq_true_2. by destruct (_ && _). }
    rewrite Hrun in *. cbn in *. unfold job_due, lapsed_cancelled, in_job_state.
    destruct (0 <? jb_lease_until x) eqn:El; cbn in *; brefl; unfold in_job_state in *; brefl; rewrite Hrun;
      rewrite (bool_decide_eq_true_2 (JobRunning = JobRunning)) by done;
      rewrite (bool_decide_eq_false_2 (JobRunning = JobPending)) by done; cbn;
      rewrite (proj2 (Z.leb_le _ _)) by lia; by cbn.
Qed.

(** ** Quotas *)

Fixpoint total_of (w : EngineInboxEvent → Z) (rows : list EngineInboxEvent) : Z :=
  match rows with [] => 0 | r :: rows' => w r + total_of w rows' end.

Fixpoint sum_over {A} (g : A → Z) (cs : list A) : Z :=
  match cs with [] => 0 | c :: cs' => g c + sum_over g cs' end.

Definition of_class (c : string) (r : EngineInboxEvent) : bool := bool_decide (ib_admission_class r = c).

Lemma sum_over_zero {A} (g : A → Z) cs : (∀ c, c ∈ cs → g c = 0) → sum_over g cs = 0.
Proof.
  induction cs as [|c cs IH]; cbn; intros H; [done|]. rewrite H by left.
  rewrite IH; [done|]. intros x Hx. apply H. by right.
Qed.

Lemma sum_over_plus {A} (g h : A → Z) cs : sum_over (λ c, g c + h c) cs = sum_over g cs + sum_over h cs.
Proof. induction cs as [|c cs IH]; cbn; lia. Qed.

Lemma sum_over_ext {A} (g h : A → Z) cs : (∀ c, g c = h c) → sum_over g cs = sum_over h cs.
Proof. intros H. induction cs as [|c cs IH]; cbn; [done|]. by rewrite H, IH. Qed.

(** One row is counted in exactly one class. *)
Lemma sum_over_indicator (x : string) v cs :
  NoDup cs → x ∈ cs → sum_over (λ c, if bool_decide (x = c) then v else 0) cs = v.
Proof.
  induction 1 as [|c cs Hc Hnd IH]; [by intros ?%not_elem_of_nil|].
  intros [->|Hx]%elem_of_cons; cbn.
  - rewrite bool_decide_eq_true_2 by done. rewrite sum_over_zero; [lia|].
    intros c' Hc'. rewrite bool_decide_eq_false_2; [done|congruence].
  - rewrite bool_decide_eq_false_2 by congruence. rewrite IH by done. lia.
Qed.

(** Summing per class and then over the classes is summing over the rows. *)
Lemma sum_by_class w rows cs :
  NoDup cs → (∀ r, r ∈ rows → ib_admission_class r ∈ cs) →
  sum_over (λ c, total_of w (select_where (of_class c) rows)) cs = total_of w rows.
Proof.
  intros Hnd. induction rows as [|r rows IH]; intros Hin; [by apply sum_over_zero|].
  cbn [total_of]. rewrite <- IH by (intros x Hx; apply Hin; by right).
  rewrite <- (sum_over_indicator (ib_admission_class r) (w r) cs Hnd) at 1 by (apply Hin; left).
  rewrite <- sum_over_plus. apply sum_over_ext. intros c. unfold select_where, of_class. cbn.
  destruct (bool_decide _); cbn; lia.
Qed.

Lemma total_of_sizes rows : sum_sizes rows = total_of ib_payload_size rows.
Proof. induction rows as [|r rows IH]; cbn; [done|]. by rewrite <- IH. Qed.

Lemma total_of_count rows : Z.of_nat (length rows) = total_of (λ _, 1) rows.
Proof. induction rows as [|r rows IH]; cbn [length total_of]; lia. Qed.

Lemma sum_over_map {A C} (g : C → Z) (f : A → C) l : sum_over g (map f l) = sum_over (λ x, g (f x)) l.
Proof. induction l as [|x l IH]; cbn; [done|]. by rewrite IH. Qed.

(** The quota query is exact: it lists every admission class that holds a
    payload once, and the rows and bytes it reports add up to the number and the
    payload sizes of all queued, rejected and poisoned network events, so no
    stored network payload escapes the quota and none is charged twice. *)
Theorem class_totals_exact d e l d' e' :
  engine_inbox_class_totals d e = (Ok l, d', e') →
  let rows := select_where charged (engine_inbox d) in
  d' = d ∧ NoDup (map cu_admission_class l) ∧
  sum_over cu_rows l = count_where charged (engine_inbox d) ∧
  sum_over cu_bytes l = sum_sizes rows ∧
  ∀ u, u ∈ l → cu_rows u = count_where (of_class (cu_admission_class u)) rows.
Proof.
  intros Hr rows. unfold engine_inbox_class_totals in Hr. apply query_inv in Hr as [-> ->]. split; [done|].
  set (cs := remove_dups (map ib_admission_class rows)).
  set (usage c := let rs := select_where (of_class c) rows in
    mkClassUsage c (Z.of_nat (length rs)) (sum_sizes rs) 0 0).
  assert (Hl : map (λ '(c, n, bytes), mkClassUsage c n bytes 0 0) (group_by_class rows) = map usage cs).
  { unfold group_by_class. by rewrite map_map. }
  fold rows. rewrite Hl.
  assert (Hcs : ∀ r, r ∈ rows → ib_admission_class r ∈ cs).
  { intros r Hr. apply elem_of_remove_dups, In_map_iff. eauto. }
  assert (Hnd : NoDup cs) by apply NoDup_remove_dups. split_and!.
  - rewrite map_map. cbn. by rewrite map_id.
  - rewrite sum_over_map. cbn. unfold count_where. fold rows. rewrite total_of_count.
    rewrite <- (sum_by_class (λ _, 1) rows cs Hnd Hcs). apply sum_over_ext.
    intros c. apply total_of_count.
  - rewrite sum_over_map. cbn. rewrite total_of_sizes.
    rewrite <- (sum_by_class ib_payload_size rows cs Hnd Hcs). apply sum_over_ext.
    intros c. apply total_of_sizes.
  - intros u (c & Hc & ->)%In_map_iff. done.
Qed.
End Inbox.

(** ** The theorems at concrete inputs *)

(** The submitted event is the one the only worker is handed. *)
Lemma next_runnable_oldest_witness :
  first_event (submitted "apply") ∈ engine_inbox (w_db (submitted "apply")) ∧
  runnable (w_db (submitted "apply")) 1 0 100 (first_event (submitted "apply")) = true ∧
  ∀ x, x ∈ engine_inbox (w_db (submitted "apply")) →
    runnable (w_db (submitted "apply")) 1 0 100 x = true →
    ib_seq (first_event (submitted "apply")) ≤ ib_seq x.
Proof.
  apply (next_runnable_oldest 1 0 100 (w_db (submitted "apply")) (quiet 100)
    (Some (first_event (submitted "apply"))) (w_db (submitted "apply")) (quiet 100)).
  by vm_compute.
Defined.

Lemma submit_wakes_owner_witness :
  let event := sample_event "e2" "apply" in
  let w := submitted "apply" in
  let owner := shard (ne_aggregate event) 1 in
  let w' := final (submit event w (quiet 150)) in
  ∃ r, r ∈ engine_inbox (w_db w') ∧ ib_event_id r = ne_event_id event ∧
    (owner < Nat.max 1 1)%nat ∧ wk_workers (w_wake w') !! owner = Some true ∧
    ∀ k, runnable (w_db w') (Z.of_nat (Nat.max 1 1)) (Z.of_nat k) 150 r =
      bool_decide (k = owner) &&
      negb (poison_blocks (ar_kind (ne_aggregate event)) (ar_id (ne_aggregate event)) (ne_kind event) 150
              (engine_aggregate_poison (w_db w))).
Proof.
  apply (submit_wakes_owner (sample_event "e2" "apply") (submitted "apply") 150 1);
    by vm_compute.
Defined.

Lemma startup_recovery_rearms_witness :
  ∃ c w', startup_recovery claimed (quiet 500) = (Ok c, w', quiet 500) ∧
    (∀ r, r ∈ engine_inbox (w_db w') → ib_state r = InboxPending → ib_next_at r ≤ 500) ∧
    (∀ r, r ∈ engine_outbox (w_db w') → is_open r = true → ob_next_at r ≤ 500 →
       outbox_due 500 r = true) ∧
    (∀ j, j ∈ engine_job (w_db w') → jb_state j = JobRunning →
       job_due 500 j = negb (jb_cancel_requested j) ∧
       lapsed_cancelled 500 j = jb_cancel_requested j).
Proof. apply (startup_recovery_rearms claimed 500). lia. Defined.

(** Two events of one class: two rows, and the bytes of both payloads. *)
Definition two_submitted : Db nat := w_db (final (submit (sample_event "e2" "apply") (submitted "apply") (quiet 150))).

Definition sample_usage : list InboxClassUsage :=
  match (engine_inbox_class_totals two_submitted (quiet 150)).1.1 with Ok l => l | Err _ => [] end.

Lemma class_totals_exact_witness :
  sum_over cu_rows sample_usage = count_where charged (engine_inbox two_submitted) ∧
  sum_over cu_bytes sample_usage = sum_sizes (select_where charged (engine_inbox two_submitted)).
Proof.
  destruct (class_totals_exact two_submitted (quiet 150) sample_usage two_submitted (quiet 150))
    as (_ & _ & Hr & Hb & _); [by vm_compute|exact (conj Hr Hb)].
Defined.
