(* ===== verification/OutboxProps.v ===== *)
(** * What the outbox promises

    The ACKs of a message's recipients, in whatever order they arrive, close
    its row with the last one; a publisher pass ends and leaves no row due.
    Then the policies of retries, poison and completion.

    Source: crates/store/src/engine/mod.rs, crates/engine/src/outbox.rs,
    crates/engine/src/runtime.rs. *)

From stdpp Require Import base list strings gmap pretty sorting.
From S2P Require Import Prelude Table Storage EngineSchema EngineNext InboxStore OutboxStore JobStore.
From S2P Require Import EngineConfig EngineEffects Worker Executor Runtime Engine Sample.

Local Open Scope Z_scope.

(** A condition that holds of one row of a table with unique keys selects it. *)
Lemma select_unique {A K} (key : A → K) p (t : list A) r :
  NoDup (map key t) → r ∈ t → p r = true →
  (∀ x, x ∈ t → key x ≠ key r → p x = false) → select_where p t = [r].
Proof.
  unfold select_where. induction t as [|x t IH]; cbn; [by intros _ ?%not_elem_of_nil|].
  intros [Hx Hnd]%NoDup_cons Hr Hp Hoth. apply elem_of_cons in Hr as [<-|Hr].
  - rewrite Hp. f_equal.
    destruct (List.filter p t) as [|y l] eqn:E; [done|]. exfalso.
    assert (y ∈ List.filter p t) as [Hy Hpy]%In_filter_iff by (rewrite E; left).
    rewrite Hoth in Hpy; [done|by right|]. intros Hk. apply Hx. apply In_map_iff. by exists y.
  - rewrite Hoth; [|left|].
    + apply IH; try done. intros y Hy. apply Hoth. by right.
    + intros Hk. apply Hx. apply In_map_iff. by exists r.
Qed.

(** ** ACKs *)

Section Acks.
Context {B : Type} `{AckSetJsonLaws plain}.
Implicit Types d : Db B.

(** The open row [id] waits for the peers of [m]. *)
Definition awaiting (id : string) (m : gmap string string) d : Prop :=
  ∃ r txt, r ∈ engine_outbox d ∧ ob_outbox_id r = id ∧ is_open r = true ∧
    ob_ack_set r = Some txt ∧ ack_set_json m = Ok txt.

(** The row [id] was closed by its last ACK. *)
Definition closed_by_acks (id : string) d : Prop :=
  ∃ r, r ∈ engine_outbox d ∧ ob_outbox_id r = id ∧ ob_state r = OutboxClosed ∧
    ob_close_reason r = Some "acked"%string ∧ ob_ack_set r = Some "{}"%string.

(** No other row mentions the delivery id. *)
Definition private (id delivery_id : string) d : Prop :=
  ∀ r, r ∈ engine_outbox d → ob_outbox_id r ≠ id → ack_candidate delivery_id r = false.

(** The update of a counted ACK. *)
Definition acked_row (now : Z) (rest : gmap string string) (r : OutboxRow) : OutboxRow :=
  if bool_decide (rest = ∅) then (closed_row "acked" now r) <| ob_ack_set := Some "{}"%string |>
  else match ack_set_json rest with
       | Ok json => r <| ob_ack_set := Some json |> <| ob_updated_at := now |>
       | Err _ => r
       end.

Definition acked_db (id : string) (now : Z) (rest : gmap string string) d : Db B :=
  d <| engine_outbox ::= update_where (open_row id) (acked_row now rest) |>.

Lemma ack_counted id m peer dl now d t :
  schema_ok d → awaiting id m d → private id dl d → plain dl → m !! peer = Some dl →
  acknowledge_engine_outbox peer dl now d (quiet t) =
  (Ok (AckMatched id (bool_decide (delete peer m = ∅))), acked_db id now (delete peer m) d, quiet t).
Proof.
  intros Hs (r & txt & Hr & Hid & Hop & Hset & Htxt) Hpriv Hpl Hm.
  assert (Hsel : select_where (ack_candidate dl) (engine_outbox d) = [r]).
  { apply (select_unique ob_outbox_id); [apply Hs|done| |].
    - unfold ack_candidate. rewrite Hop, Hset. cbn. by eapply ack_set_json_contains.
    - intros x Hx Hne. apply Hpriv; [done|congruence]. }
  assert (Hmsg : ∃ msg, engine_outbox_message_from_row r = Ok msg ∧ ob_ack_set msg = Some m ∧
    ob_outbox_id msg = id).
  { unfold engine_outbox_message_from_row. rewrite Hset.
    rewrite (ack_set_json_roundtrip _ _ Htxt). by eexists. }
  destruct Hmsg as (msg & Hmsg & Hmset & Hmid).
  assert (Hcount : 0 < count_where (open_row id) (engine_outbox d)).
  { apply count_where_pos. exists r. split; [done|]. unfold open_row, has_outbox_id.
    by rewrite bool_decide_eq_true_2. }
  apply Z.ltb_lt in Hcount.
  unfold acknowledge_engine_outbox, mbind, st_bind. rewrite query_ok by done. rewrite Hsel. cbn [acknowledge_rows].
  unfold acknowledge_row, mbind, st_bind, st_lift. rewrite Hmsg. cbn [fst snd]. rewrite Hmset, Hmid.
  rewrite bool_decide_eq_true_2 by done. unfold acked_db, acked_row.
  destruct (bool_decide (delete peer m = ∅)) eqn:Hcl; unfold outbox_update.
  - rewrite stmt_ok by done. cbn [fst snd]. rewrite Hcount. done.
  - destruct (ack_set_json_total (delete peer m)) as [json Hj]. rewrite Hj.
    rewrite stmt_ok by done. cbn [fst snd]. rewrite Hcount. done.
Qed.

(** The other rows, and the schema, after a counted ACK. *)
Lemma acked_others id now rest d r :
  ob_outbox_id r ≠ id → r ∈ engine_outbox (acked_db id now rest d) → r ∈ engine_outbox d.
Proof.
  intros Hne (x & Hx & ->)%elem_of_update_where. destruct (open_row id x) eqn:E; [|done].
  unfold open_row, has_outbox_id in E. brefl. destruct Hne. unfold acked_row.
  destruct (bool_decide _); [done|]. by destruct (ack_set_json rest).
Qed.

Lemma acked_schema id now rest d : schema_ok d → schema_ok (acked_db id now rest d).
Proof.
  intros [H1' H2' H3' H4' H5' H6' H7']. split; cbn; try done.
  rewrite map_update_where; [done|]. intros r _. unfold acked_row.
  destruct (bool_decide _); [done|]. by destruct (ack_set_json rest).
Qed.

Lemma acked_row_found id m now rest d :
  awaiting id m d → ∃ r, r ∈ engine_outbox d ∧ ob_outbox_id r = id ∧ is_open r = true ∧
    acked_row now rest r ∈ engine_outbox (acked_db id now rest d).
Proof.
  intros (r & txt & Hr & Hid & Hop & _). exists r. split_and!; try done.
  apply elem_of_update_where. exists r. split; [done|].
  unfold open_row, has_outbox_id. by rewrite Hop, bool_decide_eq_true_2.
Qed.

Lemma acked_next id m now rest d :
  awaiting id m d →
  if bool_decide (rest = ∅) then closed_by_acks id (acked_db id now rest d)
  else awaiting id rest (acked_db id now rest d).
Proof.
  intros Ha. destruct (acked_row_found id m now rest d Ha) as (r & Hr & Hid & Hop & Hin).
  unfold acked_row in Hin. destruct (bool_decide (rest = ∅)).
  - eexists. split; [exact Hin|]. by cbn.
  - destruct (ack_set_json_total rest) as [txt Ht]. rewrite Ht in Hin. eexists _, txt.
    split; [exact Hin|]. by cbn.
Qed.

(** ACKs received one after the other. *)
Fixpoint acknowledge_all (acks : list (string * string)) : ST (World B) (list EngineOutboxAck) :=
  match acks with
  | [] => mret []
  | (peer, delivery_id) :: rest =>
      a ← acknowledge peer delivery_id;
      l ← acknowledge_all rest;
      mret (a :: l)
  end.

Lemma acknowledge_counted id m peer dl (w : World B) t :
  schema_ok (w_db w) → awaiting id m (w_db w) → private id dl (w_db w) → plain dl →
  m !! peer = Some dl →
  acknowledge peer dl w (quiet t) =
  (Ok (AckMatched id (bool_decide (delete peer m = ∅))),
   w <| w_db := acked_db id t (delete peer m) (w_db w) |>, quiet t).
Proof.
  intros Hs Ha Hp Hpl Hm. pose proof (ack_counted id m peer dl t (w_db w) t Hs Ha Hp Hpl Hm) as Hr.
  unfold acknowledge, on_db, focus, transaction, in_tx, focus, commit, mbind, st_bind. cbn.
  rewrite Hr. done.
Qed.

Lemma rest_of_acks peer dl rest (m : gmap string string) :
  (peer, dl) :: rest ≡ₚ map_to_list m →
  m !! peer = Some dl ∧ rest ≡ₚ map_to_list (delete peer m).
Proof.
  intros Hperm. assert (Hm : m !! peer = Some dl).
  { apply elem_of_map_to_list. rewrite <- Hperm. left. }
  split; [done|]. apply (Permutation_cons_inv (a := (peer, dl))). rewrite Hperm.
  rewrite <- (insert_delete_id m peer dl Hm) at 1. apply map_to_list_insert, lookup_delete_eq.
Qed.

(** The ACKs of a heavy message close it whatever their order: for an open
    row that waits for a set of peers whose delivery ids no other row mentions,
    the ACKs of all these peers in any order are each counted, the row stays
    open until the last one, and the last one closes it. *)
Theorem acks_close_row id acks m (w : World B) t :
  schema_ok (w_db w) → awaiting id m (w_db w) → acks ≠ [] → acks ≡ₚ map_to_list m →
  (∀ peer dl, (peer, dl) ∈ acks → plain dl ∧ private id dl (w_db w)) →
  ∃ w', acknowledge_all acks w (quiet t) =
    (Ok (replicate (length acks - 1) (AckMatched id false) ++ [AckMatched id true]), w', quiet t) ∧
    closed_by_acks id (w_db w').
Proof.
  revert m w. induction acks as [|[peer dl] rest IH]; intros m w Hs Ha Hne Hperm Hall; [done|].
  destruct (Hall peer dl) as [Hpl Hpr]; [left|]. destruct (rest_of_acks _ _ _ _ Hperm) as [Hm Hrest].
  pose proof (acknowledge_counted id m peer dl w t Hs Ha Hpr Hpl Hm) as Hr.
  pose proof (acked_next id m t (delete peer m) (w_db w) Ha) as Hn.
  cbn [acknowledge_all]. unfold mbind, st_bind. rewrite Hr. destruct rest as [|a rest'].
  - assert (Hem : delete peer m = ∅) by (apply map_to_list_empty_iff; symmetry; by apply Permutation_nil_l).
    rewrite bool_decide_eq_true_2 in * by done. cbn. eexists. split; [done|exact Hn].
  - assert (Hem : delete peer m ≠ ∅).
    { intros Hem. rewrite Hem, map_to_list_empty in Hrest. by apply Permutation_nil_r in Hrest. }
    rewrite bool_decide_eq_false_2 in * by done.
    destruct (IH (delete peer m) (w <| w_db := acked_db id t (delete peer m) (w_db w) |>))
      as (w' & Hrun & Hc); try done.
    + by apply acked_schema.
    + intros p d Hin. destruct (Hall p d) as [Hp1 Hp2]; [by right|]. split; [done|].
      intros r Hr' Hne'. apply Hp2; [|done]. by apply (acked_others id t (delete peer m)).
    + rewrite Hrun. exists w'. split; [|done]. cbn. by rewrite Nat.sub_0_r.
Qed.
End Acks.

(** ** A publisher pass *)

(** The stored ACK set of the row is readable. *)
Definition decodable `{AckSetJson} (r : OutboxRow) : Prop :=
  ∃ msg, engine_outbox_message_from_row r = Ok msg.

(** Every row of the outbox is readable. *)
Definition outbox_decodable {B} `{AckSetJson} (d : Db B) : Prop :=
  ∀ r, r ∈ engine_outbox d → decodable r.

(** A transport that leaves the storage and the clock alone. *)
Definition quiet_transport `{Transport} : Prop :=
  ∀ topic payload t, (transport_publish topic payload (quiet t)).2 = quiet t.

Section Drain.
Context {B : Type} `{AckSetJson} `{Transport}.
Context (config : EngineConfig).
Context (backoff_grows : growing (outbox_backoff config)).
Context (batch_positive : 0 < outbox_batch config).
Context (lease_positive : 0 < outbox_lease_secs config).
Context (transport_quiet : quiet_transport).
Implicit Types d : Db B.

Definition due_count (now : Z) d : Z := count_where (outbox_due now) (engine_outbox d).

(** What the pass keeps: unique ids and readable rows. *)
Definition pass_ok d : Prop := NoDup (map ob_outbox_id (engine_outbox d)) ∧ outbox_decodable d.

Lemma decodable_same_set (r r' : OutboxRow) : ob_ack_set r' = ob_ack_set r → decodable r → decodable r'.
Proof.
  intros Hs [msg Hm]. unfold decodable, engine_outbox_message_from_row in *. rewrite Hs.
  destruct (ob_ack_set r); [|eauto]. destruct (ack_set_from_str _); [eauto|done].
Qed.

Lemma update_pass_ok p f d :
  (∀ r, ob_outbox_id (f r) = ob_outbox_id r ∧ ob_ack_set (f r) = ob_ack_set r) →
  pass_ok d → pass_ok (d <| engine_outbox ::= update_where p f |>).
Proof.
  intros Hf [Hn Hd]. split; cbn.
  - rewrite map_update_where; [done|]. intros r _. apply Hf.
  - intros r (x & Hx & ->)%elem_of_update_where. destruct (p x); [|by apply Hd].
    eapply decodable_same_set; [apply Hf|by apply Hd].
Qed.

(** The ids of [ids] belong to due rows. *)
Definition all_due (ids : list string) (now : Z) d : Prop :=
  ∀ id, id ∈ ids → ∃ r, r ∈ engine_outbox d ∧ ob_outbox_id r = id ∧ outbox_due now r = true.

Lemma claim_row_due id now lease_until d t :
  now < lease_until → pass_ok d → all_due [id] now d →
  ∃ row d', claim_outbox_row id now lease_until d (quiet t) = (Ok (Some row), d', quiet t) ∧
    decodable row ∧ pass_ok d' ∧ due_count now d' = due_count now d - 1 ∧
    (∀ r, ob_outbox_id r ≠ id → r ∈ engine_outbox d → r ∈ engine_outbox d').
Proof.
  intros Hlt [Hn Hd] Hdue. destruct (Hdue id) as (r & Hr & Hid & Hdr); [left|].
  unfold claim_outbox_row. rewrite stmt_ok by done. cbn [fst snd].
  set (p := λ r, has_outbox_id id r && outbox_due now r).
  set (f := λ r : OutboxRow, r <| ob_lease_until := lease_until |> <| ob_updated_at := now |>).
  assert (Hp : p r = true) by (unfold p, has_outbox_id; by rewrite bool_decide_eq_true_2, Hdr).
  destruct (find_is_some p _ r Hr Hp) as [x Hx]. unfold select_one. rewrite Hx. cbn.
  eexists _, _. split; [done|]. apply find_some_elem in Hx as [Hxin Hpx].
  split_and!.
  - eapply decodable_same_set; [|by apply Hd]. done.
  - by apply update_pass_ok.
  - unfold due_count. cbn. rewrite count_update_out.
    + f_equal. unfold count_where. rewrite (select_unique ob_outbox_id p _ r); try done.
      intros y Hy Hne. unfold p, has_outbox_id. rewrite bool_decide_eq_false_2; [done|congruence].
    + intros y Hy. unfold p in Hy. by brefl.
    + intros y Hy. unfold outbox_due. cbn. rewrite (proj2 (Z.leb_gt lease_until now)) by lia.
      by rewrite andb_false_r.
  - intros y Hne Hy. apply elem_of_update_where. exists y. split; [done|].
    unfold p, has_outbox_id. by rewrite bool_decide_eq_false_2.
Qed.

Lemma claim_rows_due ids now lease_until d t :
  now < lease_until → NoDup ids → pass_ok d → all_due ids now d →
  ∃ batch d', claim_outbox_rows ids now lease_until d (quiet t) = (Ok batch, d', quiet t) ∧
    length batch = length ids ∧ pass_ok d' ∧ due_count now d' = due_count now d - Z.of_nat (length ids).
Proof.
  intros Hlt Hnd. revert d. induction Hnd as [|id ids Hni Hnd IH]; intros d Hok Hdue.
  { eexists [], d. split_and!; try done. cbn. lia. }
  destruct (claim_row_due id now lease_until d t Hlt Hok) as (row & d1 & Hr & [msg Hm] & Hok1 & Hc & Hoth).
  { intros i ->%list_elem_of_singleton. apply Hdue. left. }
  destruct (IH d1 Hok1) as (batch & d2 & Hr2 & Hlen & Hok2 & Hc2).
  { intros i Hi. destruct (Hdue i) as (r & Hrin & Hid & Hdr); [by right|]. exists r.
    split_and!; try done. apply Hoth; [|done]. intros <-. by subst. }
  exists (msg :: batch), d2. cbn [claim_outbox_rows]. unfold mbind, st_bind, st_lift.
  rewrite Hr, Hm, Hr2. split_and!; try done; cbn [length]; lia.
Qed.

Lemma length_filter_limit now n d :
  0 < n →
  let ids := map ob_outbox_id (limit n (order_by outbox_order
    (select_where (outbox_due now) (engine_outbox d)))) in
  Z.of_nat (length ids) = Z.min n (due_count now d).
Proof.
  intros Hn ids. unfold ids, due_count, count_where, limit. rewrite length_map.
  destruct (Z.ltb_spec n 0); [lia|]. rewrite length_take.
  rewrite (Permutation_length (order_by_Permutation outbox_order _)). lia.
Qed.

Lemma claim_due_batch now lease_until n d t :
  now < lease_until → 0 < n → pass_ok d →
  ∃ batch d', claim_due_engine_outbox_messages now lease_until n d (quiet t) = (Ok batch, d', quiet t) ∧
    Z.of_nat (length batch) = Z.min n (due_count now d) ∧ pass_ok d' ∧
    due_count now d' = due_count now d - Z.of_nat (length batch).
Proof.
  intros Hlt Hn Hok. unfold claim_due_engine_outbox_messages, mbind, st_bind. rewrite query_ok by done.
  set (ids := map _ _). pose proof (length_filter_limit now n d Hn) as Hlen.
  cbn zeta in Hlen. fold ids in Hlen.
  destruct (claim_rows_due ids now lease_until d t Hlt) as (batch & d' & Hr & Hl & Hok' & Hc); try done.
  - apply NoDup_map_limit. rewrite order_by_Permutation. apply NoDup_map_filter, Hok.
  - intros id (r & Hr%elem_of_limit & ->)%In_map_iff. rewrite elem_of_order_by in Hr.
    apply elem_of_select_where in Hr as [Hr Hd]. eauto.
  - exists batch, d'. rewrite Hr. split_and!; try done; lia.
Qed.

(** Publishing a row makes no row due. *)
Lemma publish_row_quiet row (w : World B) t :
  pass_ok (w_db w) →
  ∃ b w', publish_row config row w (quiet t) = (Ok b, w', quiet t) ∧ pass_ok (w_db w') ∧
    due_count t (w_db w') ≤ due_count t (w_db w).
Proof using backoff_grows transport_quiet.
  intros Hok. unfold publish_row, publish, mbind, st_bind.
  pose proof (transport_quiet (ob_topic row) (ob_payload row) t) as Ht.
  destruct (transport_publish _ _ (quiet t)) as [o e]. cbn in Ht. subst e.
  assert (Hdelay : ∀ n, 0 < delay (outbox_backoff config) n)
    by (intros n; apply (growing_delay _ n backoff_grows)).
  unfold clock_now, acquire, on_db, focus, record_engine_outbox_publish,
    record_engine_outbox_publish_failure, outbox_update, mbind, st_bind, stmt, next_fault.
  destruct o; cbn; eexists _, _; (split; [done|]); cbn; (split; [by apply update_pass_ok|]);
    unfold due_count; cbn; apply count_update_le; intros r _; unfold outbox_due; cbn;
    intros Hd; brefl; match goal with Hle : _ + delay _ ?n ≤ _ |- _ => specialize (Hdelay n); lia end.
Qed.

Lemma publish_batch_quiet batch (w : World B) t :
  pass_ok (w_db w) →
  ∃ n w', publish_batch config batch w (quiet t) = (Ok n, w', quiet t) ∧ pass_ok (w_db w') ∧
    due_count t (w_db w') ≤ due_count t (w_db w).
Proof using backoff_grows transport_quiet.
  revert w. induction batch as [|row batch IH]; intros w Hok; [by eexists _, _|].
  destruct (publish_row_quiet row w t Hok) as (b & w1 & Hr & Hok1 & Hle1).
  destruct (IH w1 Hok1) as (n & w2 & Hr2 & Hok2 & Hle2).
  eexists _, w2. cbn [publish_batch]. unfold mbind, st_bind. rewrite Hr, Hr2.
  split_and!; try done. lia.
Qed.

(** A publisher pass ends and leaves no work behind: with a quiet storage,
    a transport that does not touch it, readable rows, a growing backoff, and
    positive batch and lease, the pass returns after fewer rounds than there were
    due rows plus one, and afterwards no outbox row is due at the current time. *)
Theorem drain_outbox_finishes fuel published (w : World B) t :
  pass_ok (w_db w) → due_count t (w_db w) < Z.of_nat fuel →
  ∃ n w', drain_outbox config fuel published w (quiet t) = (Ok n, w', quiet t) ∧
    ∀ r, r ∈ engine_outbox (w_db w') → outbox_due t r = false.
Proof using backoff_grows transport_quiet batch_positive lease_positive.
  revert published w. induction fuel as [|fuel IH]; intros published w Hok Hfuel.
  { pose proof (count_where_nonneg (outbox_due t) (engine_outbox (w_db w))).
    unfold due_count in Hfuel. lia. }
  destruct (claim_due_batch t (t + outbox_lease_secs config) (outbox_batch config) (w_db w) t)
    as (batch & d1 & Hr & Hlen & Hok1 & Hc); [lia|done|done|].
  cbn [drain_outbox]. unfold mbind at 1 2 3, st_bind at 1 2 3, acquire, on_db, focus, clock_now, stmt, next_fault.
  cbn [readings quiet faults clock]. rewrite Hr.
  destruct (bool_decide_reflect (length batch = 0%nat)) as [Hz|Hz].
  { eexists _, _. split; [done|]. apply (count_where_zero (outbox_due t)). cbn.
    fold (due_count t d1). pose proof (count_where_nonneg (outbox_due t) (engine_outbox (w_db w))).
    unfold due_count in *. lia. }
  set (w1 := w <| w_db := d1 |>). destruct (publish_batch_quiet batch w1 t Hok1) as (n & w2 & Hr2 & Hok2 & Hle2).
  unfold mbind, st_bind. change (mkWorld d1 (w_acks w) (w_wake w)) with w1. rewrite Hr2. cbn in Hle2.
  pose proof (count_where_nonneg (outbox_due t) (engine_outbox (w_db w2))).
  destruct (Z.ltb_spec (Z.of_nat (length batch)) (outbox_batch config)) as [Hlt|Hge].
  - eexists _, _. split; [done|]. apply (count_where_zero (outbox_due t)). unfold due_count in *. lia.
  - apply IH; [done|]. lia.
Qed.
End Drain.

(** ** The theorems at concrete inputs *)

(** A message for two peers, in an otherwise empty database. *)
Definition two_peers : gmap string string := {["alice" := "d1"; "bob" := "d2"]}.

Definition heavy : World nat :=
  sample_world <| w_db := final (insert_engine_outbox_message
    (mkNewOutboxMessage "m" "graph" "g1" "phase" "kind" "topic" "payload" (Some two_peers) 0) 0
    (empty_db O) (quiet 0)) |>.

Lemma heavy_schema : schema_ok (w_db heavy).
Proof. apply insert_engine_outbox_message_next, empty_db_schema_ok. Qed.

(** Bob's ACK arrives first. *)
Lemma acks_close_row_witness :
  ∃ w', acknowledge_all [("bob", "d2"); ("alice", "d1")] heavy (quiet 50) =
    (Ok [AckMatched "m" false; AckMatched "m" true], w', quiet 50) ∧
    closed_by_acks "m" (w_db w').
Proof.
  apply (acks_close_row "m" [("bob", "d2"); ("alice", "d1")]%string two_peers heavy 50).
  - apply heavy_schema.
  - eexists _, _. split; [vm_compute; left|]. by vm_compute.
  - done.
  - replace (map_to_list two_peers) with [("alice", "d1"); ("bob", "d2")]%string by by vm_compute.
    apply Permutation_swap.
  - intros peer dl _. split; [done|]. intros r Hr Hne. exfalso. apply Hne. clear Hne.
    vm_compute in Hr. by apply list_elem_of_singleton in Hr as ->.
Defined.

Lemma drain_outbox_finishes_witness :
  ∃ n w', drain_outbox default_config 2 0 heavy (quiet 50) = (Ok n, w', quiet 50) ∧
    ∀ r, r ∈ engine_outbox (w_db w') → outbox_due 50 r = false.
Proof.
  apply (drain_outbox_finishes default_config).
  - apply default_schedules_growing.
  - done.
  - done.
  - by intros topic payload t.
  - split; [apply heavy_schema|]. intros r Hr. vm_compute in Hr.
    apply list_elem_of_singleton in Hr as ->. eexists. by vm_compute.
  - by vm_compute.
Defined.

(** * Retry, poison and completion policies

    The delays between attempts, the growing hold on an action that panics, and
    the end of the completion loop.

    Source: crates/engine/src/config.rs, crates/engine/src/jobs.rs,
    crates/store/src/engine/mod.rs. *)

Local Open Scope Z_scope.

(** ** Backoff *)

(** Retries back off: for a schedule of positive, non-shrinking delays (or a
    doubling one with a positive base and a cap above it), every delay is
    positive, later attempts never wait less than earlier ones, and no attempt
    waits longer than the schedule's ceiling, however large the attempt count. *)
Theorem backoff_schedule b a a' :
  growing b → a ≤ a' → 0 < delay b a ∧ delay b a ≤ delay b a' ∧ delay b a' ≤ ceiling b.
Proof.
  intros Hg Ha. pose proof (growing_delay b a Hg). pose proof (growing_delay b a' Hg).
  pose proof (growing_delay_mono b a a' Hg Ha). lia.
Qed.

(** The default outbox schedule at attempts 3 and 2^40. *)
Lemma backoff_schedule_witness :
  let b := outbox_backoff default_config in
  0 < delay b 3 ∧ delay b 3 ≤ delay b (2 ^ 40) ∧ delay b (2 ^ 40) ≤ ceiling b.
Proof. apply (backoff_schedule (outbox_backoff default_config)); [apply default_schedules_growing|lia]. Defined.

(** ** Poison *)

Section Poison.
Context {B : Type}.
Implicit Types d : Db B.

(** How often the action was poisoned in a row. *)
Definition poison_count_of (kind id action : string) d : Z :=
  match select_one (is_poison kind id action) (engine_aggregate_poison d) with
  | Some r => po_poison_count (pr_poison r)
  | None => 0
  end.

Definition blocks (kind id action : string) (now : Z) (r : PoisonRow) : bool :=
  is_poison kind id action r && (now <? po_blocked_until (pr_poison r)).

Lemma poison_blocks_rows kind id action now t :
  poison_blocks kind id action now t = existsb (blocks kind id action now) t.
Proof. done. Qed.

Lemma blocks_other kind id action k i a now r :
  (k, i, a) ≠ (kind, id, action) → is_poison kind id action r = true → blocks k i a now r = false.
Proof.
  intros Hne Hp. unfold blocks. destruct (is_poison k i a r) eqn:E; [|done].
  rewrite is_poison_key in *. brefl. congruence.
Qed.

(** The upsert: the new count, a row of the key, and the other keys alone. *)
Lemma upsert_poison_spec kind id action reason now d n t' :
  upsert_poison kind id action reason now (engine_aggregate_poison d) = (n, t') →
  n = poison_count_of kind id action d + 1 ∧
  (∃ r, r ∈ t' ∧ is_poison kind id action r = true) ∧
  ∀ k i a, (k, i, a) ≠ (kind, id, action) → ∀ u,
    existsb (blocks k i a u) t' = existsb (blocks k i a u) (engine_aggregate_poison d).
Proof.
  unfold upsert_poison, poison_count_of. destruct (select_one _ _) as [r|] eqn:E; intros [= <- <-].
  - apply find_some_elem in E as [Hr Hp]. split_and!; [lia| |].
    + eexists. split; [apply elem_of_update_where; exists r; by rewrite Hp|]. exact Hp.
    + intros k i a Hne u. apply existsb_update. intros x Hx.
      rewrite (blocks_other kind id action) by done. by rewrite (blocks_other kind id action).
  - split_and!; [done| |].
    + eexists. split; [apply elem_of_app; right; by apply list_elem_of_singleton|].
      unfold is_poison. cbn. by rewrite !bool_decide_eq_true_2.
    + intros k i a Hne u. rewrite existsb_app. cbn.
      rewrite (blocks_other kind id action); [by rewrite !orb_false_r|done|].
      unfold is_poison. cbn. by rewrite !bool_decide_eq_true_2.
Qed.

(** The hold of a row whose end was just set. *)
Lemma blocks_after_set kind id action until u t :
  (∃ r, r ∈ t ∧ is_poison kind id action r = true) →
  existsb (blocks kind id action u) (update_where (is_poison kind id action)
    (λ r, r <| pr_poison ::= (λ p, p <| po_blocked_until := until |>) |>) t) = (u <? until).
Proof.
  intros (r & Hr & Hp). destruct (u <? until) eqn:E.
  - apply existsb_elem. eexists. split; [apply elem_of_update_where; exists r; by rewrite Hp|].
    unfold blocks. cbn. rewrite E, andb_true_r. exact Hp.
  - apply existsb_none. intros x (y & Hy & ->)%elem_of_update_where.
    destruct (is_poison kind id action y) eqn:Ey; unfold blocks; cbn; [|by rewrite Ey].
    by rewrite E, andb_false_r.
Qed.

(** A panic holds back exactly its own action, for longer each time: the
    consecutive-panic count goes up by one, the action is blocked until the
    backoff for that count has passed (saturating at the largest time) and not a
    second longer, and no other action of any aggregate is affected. *)
Theorem poison_holds_action kind id action reason now backoff d t :
  let n := poison_count_of kind id action d + 1 in
  let until := i64_saturating_add now (Z.max (backoff n) 0) in
  ∃ d', mark_engine_aggregate_poisoned kind id action reason now backoff d (quiet t) =
    (Ok (mkPoison kind id action reason n now until), d', quiet t) ∧
    (∀ u, poison_blocks kind id action u (engine_aggregate_poison d') = (u <? until)) ∧
    (∀ k i a u, (k, i, a) ≠ (kind, id, action) →
       poison_blocks k i a u (engine_aggregate_poison d') =
       poison_blocks k i a u (engine_aggregate_poison d)).
Proof.
  intros n until. unfold mark_engine_aggregate_poisoned, mbind, st_bind, stmt, next_fault. cbn [faults quiet].
  destruct (upsert_poison _ _ _ _ _ _) as [m t1] eqn:Hu.
  destruct (upsert_poison_spec _ _ _ _ _ _ _ _ Hu) as (-> & Hex & Hoth). fold n. fold until.
  eexists. split; [done|]. cbn. setoid_rewrite poison_blocks_rows. split.
  - intros u. by apply blocks_after_set.
  - intros k i a u Hne. rewrite <- Hoth by done. apply existsb_update. intros x Hx.
    rewrite (blocks_other kind id action) by done. by rewrite (blocks_other kind id action).
Qed.
End Poison.

(** ** The completion loop *)

Section FinishLoop.
Context {B : Type} `{JobResultJson}.
Context (config : EngineConfig).

Lemma record_try (m : ST (World B) unit) w e :
  ∃ o w' e', st_try m w e = (Ok o, w', e').
Proof. unfold st_try. destruct (m w e) as [[o w'] e']. eauto. Qed.

Lemma finish_loop_stops fuel cancelled n attempt after_loss job g finish (w : World B) e :
  (∀ k, (n ≤ k)%nat → cancelled k = true) → (after_loss < 2)%nat →
  (n - attempt + (2 - after_loss) ≤ fuel)%nat →
  ∃ o w' e', finish_loop config fuel cancelled attempt after_loss job g finish w e = (Ok o, w', e').
Proof.
  intros Hc. revert attempt after_loss w e.
  induction fuel as [|fuel IH]; intros attempt after_loss w e Hl Hf; [lia|].
  cbn [finish_loop]. unfold mbind, st_bind.
  destruct (record_try (record_job_finish config job g finish) w e) as (o & w1 & e1 & ->).
  destruct o as [[]|err]; [by eexists _, _, _|].
  destruct (JOB_FINISH_ATTEMPTS_AFTER_LEASE_LOSS <=? _)%nat eqn:Hstop; [by eexists _, _, _|].
  apply Nat.leb_gt in Hstop. unfold JOB_FINISH_ATTEMPTS_AFTER_LEASE_LOSS in Hstop.
  apply IH; [done|].
  destruct (cancelled (S attempt)) eqn:E; [lia|].
  destruct (Nat.le_gt_cases n (S attempt)); [rewrite Hc in E by done; done|lia].
Qed.

(** A holder never retries its completion forever: if the lease is lost or
    the engine stops by the [n]-th failed attempt, the completion loop ends after
    at most [n + 2] attempts, whatever the storage does, either recorded or given
    up with the last error. *)
Theorem finish_loop_terminates cancelled n job g finish (w : World B) e :
  (∀ k, (n ≤ k)%nat → cancelled k = true) →
  ∃ o w' e', finish_loop config (n + 2) cancelled 0 0 job g finish w e = (Ok o, w', e').
Proof. intros Hc. eapply finish_loop_stops; [exact Hc|lia|lia]. Qed.
End FinishLoop.

(** The lease is lost at once and every statement fails. *)
Lemma finish_loop_terminates_witness :
  ∃ o w' e', finish_loop default_config (0 + 2) (λ _, true) 0 0 (first_job claimed) 1
    (FinishDone "result") claimed (mkEnv [true; true; true; true] 200 []) = (Ok o, w', e').
Proof. apply (finish_loop_terminates default_config (λ _, true) 0). done. Defined.
