(* ===== verification/Bytes.v ===== *)
(** * Byte arrays, hashes and 256-bit integers

    The circuits compute on [[u8; N]] arrays, on SHA-256 digests of them (crate
    [sha2]) and on [U256] integers (crate [crypto_bigint]).  A [[u8; 32]] is a
    vector of 32 bytes, so that lengths are correct by typing; SHA-256 and the
    big integers are the two interfaces [Sha256] and [U256], with the documented
    behaviour of the integers as the laws [U256Laws].  Last, an executable
    SHA-256 for concrete inputs. *)

From Stdlib Require Import Init.Byte.
From stdpp Require Import base list vector strings.
From S2P Require Import Prelude.

Local Open Scope Z_scope.

(** ** Bytes *)

#[export] Instance byte_eq_dec : EqDecision byte := Byte.byte_eq_dec.

Definition byte_val (b : byte) : Z := Z.of_N (Byte.to_N b).

Definition byte_of (z : Z) : byte :=
  match Byte.of_N (Z.to_N (z mod 256)) with Some b => b | None => Byte.x00 end.

Lemma byte_val_range b : 0 ≤ byte_val b < 256.
Proof. unfold byte_val. pose proof (Byte.to_N_bounded b). lia. Qed.

Lemma byte_of_val b : byte_of (byte_val b) = b.
Proof.
  unfold byte_of. rewrite Z.mod_small by apply byte_val_range.
  unfold byte_val. by rewrite N2Z.id, Byte.of_to_N.
Qed.

Lemma byte_val_of z : byte_val (byte_of z) = z mod 256.
Proof.
  unfold byte_of, byte_val. pose proof (Z.mod_pos_bound z 256).
  destruct (Byte.of_N _) as [b|] eqn:E.
  - apply Byte.to_of_N in E. rewrite E, Z2N.id; lia.
  - apply Byte.of_N_None_iff in E. lia.
Qed.

Lemma byte_val_inj a b : byte_val a = byte_val b → a = b.
Proof. intros H. by rewrite <- (byte_of_val a), H, byte_of_val. Qed.

(** ** Positional values *)

(** The number a little-endian byte string denotes. *)
Fixpoint le_value (l : list byte) : Z :=
  match l with
  | [] => 0
  | b :: l => byte_val b + 256 * le_value l
  end.

(** The number a big-endian byte string denotes. *)
Definition be_value (l : list byte) : Z := le_value (reverse l).

Arguments be_value : simpl never.

(** The [n] low bytes of [z], least significant first. *)
Fixpoint le_bytes (n : nat) (z : Z) : list byte :=
  match n with
  | O => []
  | S n => byte_of z :: le_bytes n (z / 256)
  end.

Lemma le_bytes_length n z : length (le_bytes n z) = n.
Proof. revert z. induction n as [|n IH]; intros z; cbn; [done|]. by rewrite IH. Qed.

Lemma le_value_range l : 0 ≤ le_value l < 256 ^ Z.of_nat (length l).
Proof.
  induction l as [|b l IH]; [done|]. cbn [le_value length].
  rewrite Nat2Z.inj_succ, Z.pow_succ_r by lia. pose proof (byte_val_range b). lia.
Qed.

Lemma le_value_bytes n z : le_value (le_bytes n z) = z mod 256 ^ Z.of_nat n.
Proof.
  revert z. induction n as [|n IH]; intros z; cbn [le_bytes le_value].
  - by rewrite Z.mod_1_r.
  - rewrite IH, byte_val_of, Nat2Z.inj_succ, Z.pow_succ_r by lia.
    rewrite Z.rem_mul_r; lia.
Qed.

Lemma le_value_inj l1 l2 :
  length l1 = length l2 → le_value l1 = le_value l2 → l1 = l2.
Proof.
  revert l2. induction l1 as [|a l1 IH]; intros [|b l2] Hl Hv; [done..|].
  cbn in Hl, Hv. pose proof (byte_val_range a). pose proof (byte_val_range b).
  assert (byte_val a = byte_val b) as Hab by lia.
  f_equal; [by apply byte_val_inj|]. apply IH; [congruence|lia].
Qed.

Lemma le_value_app l1 l2 :
  le_value (l1 ++ l2) = le_value l1 + 256 ^ Z.of_nat (length l1) * le_value l2.
Proof.
  induction l1 as [|b l1 IH]; cbn [le_value length app].
  - rewrite Z.pow_0_r. lia.
  - rewrite IH, Nat2Z.inj_succ, Z.pow_succ_r by lia. lia.
Qed.

(** The low bytes of an integer of the right width determine it. *)
Lemma le_bytes_inj n a b :
  le_bytes n a = le_bytes n b → a mod 256 ^ Z.of_nat n = b mod 256 ^ Z.of_nat n.
Proof. intros H. by rewrite <- !le_value_bytes, H. Qed.

(** ** 32-byte arrays *)

Abbreviation hash32 := (vec byte 32).

Definition zero32 : hash32 := vreplicate 32 Byte.x00.

(** A list of [n] bytes as an array. *)
Definition to_array (n : nat) (l : list byte) : vec byte n :=
  match decide (length l = n) with
  | left H => eq_rect _ (λ n, vec byte n) (list_to_vec l) _ H
  | right _ => vreplicate n Byte.x00
  end.
Definition to_hash32 (l : list byte) : hash32 := to_array 32 l.

Lemma to_array_list n l : length l = n → vec_to_list (to_array n l) = l.
Proof.
  intros Hl. unfold to_array. destruct (decide _) as [H|]; [|done].
  destruct H. apply vec_to_list_to_vec.
Qed.

Lemma to_array_vec n (v : vec byte n) : to_array n (vec_to_list v) = v.
Proof. apply vec_to_list_inj2, to_array_list, length_vec_to_list. Qed.

Lemma to_hash32_list l : length l = 32%nat → vec_to_list (to_hash32 l) = l.
Proof. apply to_array_list. Qed.

(** Concatenations of arrays of equal length split. *)
Lemma vec_app_inj {n} (a b : vec byte n) (l m : list byte) :
  vec_to_list a ++ l = vec_to_list b ++ m → a = b ∧ l = m.
Proof.
  intros H. apply app_inj_1 in H as [H1 H2]; [|by rewrite !length_vec_to_list].
  split; [by apply vec_to_list_inj2|done].
Qed.

(** ** SHA-256 *)

Class Sha256 := sha256 : list byte → hash32.

(** Two different messages with the same digest: what no attacker is able to
    exhibit.  The soundness theorems conclude "the claim holds, or here is a
    collision" instead of assuming the hash injective, which no function from
    messages to 32 bytes is. *)
Definition collision `{Sha256} : Prop :=
  ∃ m m' : list byte, m ≠ m' ∧ sha256 m = sha256 m'.

Section Hashing.
Context `{SHA : Sha256}.

Definition calculate_double_sha256 (input : list byte) : hash32 :=
  sha256 (vec_to_list (sha256 input)).

Definition hash_pair (left right : hash32) : hash32 :=
  sha256 (vec_to_list left ++ vec_to_list right).

Lemma sha256_binds m m' : sha256 m = sha256 m' → m = m' ∨ collision.
Proof.
  intros H. destruct (decide (m = m')) as [|Hne]; [by left|right]. by exists m, m'.
Qed.

Lemma hash_pair_binds a b c d :
  hash_pair a b = hash_pair c d → (a = c ∧ b = d) ∨ collision.
Proof.
  intros [H|H]%sha256_binds; [|by right]. left.
  apply vec_app_inj in H as [-> H]. split; [done|]. by apply vec_to_list_inj2.
Qed.

Lemma double_sha256_binds m m' :
  calculate_double_sha256 m = calculate_double_sha256 m' → m = m' ∨ collision.
Proof.
  intros [H|H]%sha256_binds; [|by right].
  apply vec_to_list_inj2 in H. by apply sha256_binds.
Qed.
End Hashing.

(** ** Hexadecimal literals *)

Definition hex_value (c : Ascii.ascii) : Z :=
  let n := Z.of_nat (Ascii.nat_of_ascii c) in
  if (48 <=? n) && (n <=? 57) then n - 48
  else if (97 <=? n) && (n <=? 102) then n - 87
  else if (65 <=? n) && (n <=? 70) then n - 55
  else 0.

Fixpoint hex (s : string) : list byte :=
  match s with
  | String.String a (String.String b s) => byte_of (16 * hex_value a + hex_value b) :: hex s
  | _ => []
  end.

Definition hex32 (s : string) : hash32 := to_hash32 (hex s).

(** ** 256-bit integers *)

Definition u256_modulus : Z := 2 ^ 256.

(** The operations of [crypto_bigint::U256] the circuits use.  [u256_val] is
    the number a value denotes; a shift may panic. *)
Class U256 := {
  u256 : Type;
  u256_val : u256 → Z;
  u256_from_u32 : Z → u256;
  from_be_bytes : hash32 → u256;
  to_be_bytes : u256 → hash32;
  u256_shl : u256 → Z → outcome u256;
  u256_wrapping_add : u256 → u256 → u256;
  u256_saturating_add : u256 → u256 → u256;
  u256_wrapping_div : u256 → u256 → u256;
  u256_MAX : u256;
  u256_ONE : u256;
}.

(** Their documented behaviour.  What a shift by 256 or more does is left open. *)
Class U256Laws `{U : U256} := {
  u256_range x : 0 ≤ u256_val x < u256_modulus;
  u256_val_inj x y : u256_val x = u256_val y → x = y;
  u256_from_u32_val n : 0 ≤ n < u32_modulus → u256_val (u256_from_u32 n) = n;
  from_be_bytes_val b : u256_val (from_be_bytes b) = be_value (vec_to_list b);
  to_be_bytes_val x : be_value (vec_to_list (to_be_bytes x)) = u256_val x;
  u256_shl_val x n : 0 ≤ n < 256 →
    ∃ y, u256_shl x n = Ok y ∧ u256_val y = (u256_val x * 2 ^ n) mod u256_modulus;
  u256_wrapping_add_val x y :
    u256_val (u256_wrapping_add x y) = (u256_val x + u256_val y) mod u256_modulus;
  u256_saturating_add_val x y :
    u256_val (u256_saturating_add x y) = Z.min (u256_val x + u256_val y) (u256_modulus - 1);
  u256_wrapping_div_val x y : u256_val y ≠ 0 →
    u256_val (u256_wrapping_div x y) = u256_val x / u256_val y;
  u256_MAX_val : u256_val u256_MAX = u256_modulus - 1;
  u256_ONE_val : u256_val u256_ONE = 1;
}.

Lemma from_to_be_bytes `{U256Laws} x : from_be_bytes (to_be_bytes x) = x.
Proof. apply u256_val_inj. by rewrite from_be_bytes_val, to_be_bytes_val. Qed.

Lemma be_value_inj (a b : hash32) :
  be_value (vec_to_list a) = be_value (vec_to_list b) → a = b.
Proof.
  intros H. apply vec_to_list_inj2. apply (inj reverse), le_value_inj; [|exact H].
  by rewrite !length_reverse, !length_vec_to_list.
Qed.

Lemma be_value_range (a : hash32) : 0 ≤ be_value (vec_to_list a) < u256_modulus.
Proof.
  unfold be_value. pose proof (le_value_range (reverse (vec_to_list a))) as H.
  by rewrite length_reverse, length_vec_to_list in H.
Qed.

(** The integers as big-endian arrays, the instance the examples compute with. *)
Definition be_hash32 (z : Z) : hash32 := to_hash32 (reverse (le_bytes 32 z)).

Definition u256_bytes : U256 := {|
  u256 := hash32;
  u256_val x := be_value (vec_to_list x);
  u256_from_u32 := be_hash32;
  from_be_bytes b := b;
  to_be_bytes x := x;
  u256_shl x n := Ok (be_hash32 (be_value (vec_to_list x) * 2 ^ n));
  u256_wrapping_add x y := be_hash32 (be_value (vec_to_list x) + be_value (vec_to_list y));
  u256_saturating_add x y :=
    be_hash32 (Z.min (be_value (vec_to_list x) + be_value (vec_to_list y)) (u256_modulus - 1));
  u256_wrapping_div x y := be_hash32 (be_value (vec_to_list x) / be_value (vec_to_list y));
  u256_MAX := be_hash32 (u256_modulus - 1);
  u256_ONE := be_hash32 1;
|}.

Lemma be_hash32_val z : be_value (vec_to_list (be_hash32 z)) = z mod u256_modulus.
Proof.
  unfold be_hash32, be_value.
  rewrite to_hash32_list by by rewrite length_reverse, le_bytes_length.
  by rewrite reverse_involutive, le_value_bytes.
Qed.

Lemma u256_bytes_laws : @U256Laws u256_bytes.
Proof.
  split; cbn; intros; rewrite ?be_hash32_val; try done.
  - apply be_value_range.
  - by apply be_value_inj.
  - apply Z.mod_small. unfold u256_modulus, u32_modulus in *. lia.
  - eexists. split; [done|]. by rewrite be_hash32_val.
  - apply Z.mod_small.
    pose proof (be_value_range x). pose proof (be_value_range y). lia.
  - apply Z.mod_small. pose proof (be_value_range x). pose proof (be_value_range y).
    split; [apply Z.div_pos; lia|].
    pose proof (Z.div_le_upper_bound (be_value x) (be_value y) (be_value x)). nia.
Qed.

(** ** A generic encoding

    A self-delimiting encoding of data; the examples use it where the code calls a
    serialisation library. *)

Class Serial (A : Type) := {
  ser : A → list byte;
  de : list byte → outcome (A * list byte);
  de_ser a rest : de (ser a ++ rest) = Ok (a, rest);
}.

Definition encode_bytes `{Serial A} (a : A) : list byte := ser a.
Definition decode_bytes `{Serial A} (l : list byte) : outcome A :=
  '(a, rest) ← de l; if decide (rest = []) then Ok a else Err ["trailing bytes"].

Lemma decode_encode_bytes `{Serial A} (a : A) : decode_bytes (encode_bytes a) = Ok a.
Proof.
  unfold decode_bytes, encode_bytes. rewrite <- (app_nil_r (ser a)), de_ser. by cbn.
Qed.

#[export, refine] Instance serial_byte : Serial byte := {|
  ser b := [b];
  de l := match l with b :: l => Ok (b, l) | [] => Err ["unexpected end"] end;
|}.
Proof. done. Defined.

#[export, refine] Instance serial_array n : Serial (vec byte n) := {|
  ser v := vec_to_list v;
  de l := if decide (n ≤ length l)%nat then Ok (to_array n (take n l), drop n l)
          else Err ["unexpected end"];
|}.
Proof.
  intros v rest. rewrite decide_True by (rewrite length_app, length_vec_to_list; lia).
  by rewrite take_app_length', drop_app_length', to_array_vec by by rewrite length_vec_to_list.
Defined.

Fixpoint ser_pos (p : positive) : list byte :=
  match p with
  | xH => [Byte.x00]
  | xO p => Byte.x01 :: ser_pos p
  | xI p => Byte.x02 :: ser_pos p
  end.
Fixpoint de_pos (l : list byte) : outcome (positive * list byte) :=
  match l with
  | Byte.x00 :: l => Ok (xH, l)
  | Byte.x01 :: l => '(p, l) ← de_pos l; Ok (xO p, l)
  | Byte.x02 :: l => '(p, l) ← de_pos l; Ok (xI p, l)
  | _ => Err ["malformed integer"]
  end.
#[export, refine] Instance serial_Z : Serial Z := {|
  ser z := match z with Z0 => [Byte.x00] | Zpos p => Byte.x01 :: ser_pos p
           | Zneg p => Byte.x02 :: ser_pos p end;
  de l := match l with
          | Byte.x00 :: l => Ok (Z0, l)
          | Byte.x01 :: l => '(p, l) ← de_pos l; Ok (Zpos p, l)
          | Byte.x02 :: l => '(p, l) ← de_pos l; Ok (Zneg p, l)
          | _ => Err ["malformed integer"]
          end;
|}.
Proof.
  assert (∀ p rest, de_pos (ser_pos p ++ rest) = Ok (p, rest)) as Hp
    by (intros p rest; induction p as [p IH|p IH|]; cbn; rewrite ?IH; done).
  intros [|p|p] rest; cbn; rewrite ?Hp; done.
Defined.

#[export, refine] Instance serial_prod `{Serial A, Serial B} : Serial (A * B) := {|
  ser '(a, b) := ser a ++ ser b;
  de l := '(a, l) ← de l; '(b, l) ← de l; Ok ((a, b), l);
|}.
Proof. intros [a b] rest. rewrite <- app_assoc, de_ser. cbn. by rewrite de_ser. Defined.

#[export, refine] Instance serial_option `{Serial A} : Serial (option A) := {|
  ser o := match o with None => [Byte.x00] | Some a => Byte.x01 :: ser a end;
  de l := match l with
          | Byte.x00 :: l => Ok (None, l)
          | Byte.x01 :: l => '(a, l) ← de l; Ok (Some a, l)
          | _ => Err ["malformed option"]
          end;
|}.
Proof. intros [a|] rest; cbn; [by rewrite de_ser|done]. Defined.

Fixpoint ser_list `{Serial A} (l : list A) : list byte :=
  match l with [] => [Byte.x00] | a :: l => Byte.x01 :: ser a ++ ser_list l end.
Fixpoint de_list `{Serial A} (fuel : nat) (l : list byte) : outcome (list A * list byte) :=
  match fuel, l with
  | _, Byte.x00 :: l => Ok ([], l)
  | S fuel, Byte.x01 :: l => '(a, l) ← de l; '(r, l) ← de_list fuel l; Ok (a :: r, l)
  | _, _ => Err ["malformed list"]
  end.
#[export, refine] Instance serial_list `{Serial A} : Serial (list A) := {|
  ser := ser_list;
  de l := de_list (length l) l;
|}.
Proof.
  assert (∀ (l : list A) fuel rest, (length l ≤ fuel)%nat →
    de_list fuel (ser_list l ++ rest) = Ok (l, rest)) as Hl.
  { induction l as [|a l IH]; intros [|fuel] rest Hf; cbn in *; [done|done|lia|].
    rewrite <- app_assoc, de_ser. cbn. by rewrite IH by lia. }
  assert (∀ l : list A, (length l ≤ length (ser_list l))%nat) as Hlen
    by (induction l; cbn; rewrite ?length_app; lia).
  intros l rest. apply Hl. rewrite length_app. specialize (Hlen l). lia.
Defined.

(** A type with an embedding. *)
Definition serial_inj `{Serial B} {A} (f : A → B) (g : B → A) (Hg : ∀ a, g (f a) = a) : Serial A.
Proof.
  refine {| ser a := ser (f a); de l := '(b, l) ← de l; Ok (g b, l) |}.
  intros a rest. rewrite de_ser. cbn. by rewrite Hg.
Defined.

#[export] Instance serial_N : Serial N := serial_inj Z.of_N Z.to_N N2Z.id.

(** * An executable SHA-256

    The theorems about the circuits hold for every function in place of SHA-256
    ([Bytes.Sha256]).  This file gives the function itself (FIPS 180-4), so that
    the examples evaluate the models on real Bitcoin data. *)

Local Open Scope Z_scope.

Definition word_mask : Z := 2 ^ 32 - 1.
Definition add32 (a b : Z) : Z := Z.land (a + b) word_mask.
Definition rotr (n x : Z) : Z :=
  Z.land (Z.lor (Z.shiftr x n) (Z.shiftl x (32 - n))) word_mask.

(** The largest [r] below [2 ^ n] whose [k]-th power is at most [v], bit by bit. *)
Fixpoint root_bits (k v : Z) (n : nat) (r : Z) : Z :=
  match n with
  | O => r
  | S n => root_bits k v n (if (r + 2 ^ Z.of_nat n) ^ k <=? v then r + 2 ^ Z.of_nat n else r)
  end.

Definition primes_below_312 : list Z :=
  filter (λ p, Forall (λ d, p mod d ≠ 0) (seqZ 2 (p - 2))) (seqZ 2 310).

(** The first 32 bits of the fractional parts of the cube roots of the first 64
    primes, and of the square roots of the first eight. *)
Definition round_constants : list Z := Eval vm_compute in
  map (λ p, Z.land (root_bits 3 (p * 2 ^ 96) 36 0) word_mask) primes_below_312.

Definition initial_words : list Z := Eval vm_compute in
  map (λ p, Z.land (root_bits 2 (p * 2 ^ 64) 36 0) word_mask) (take 8 primes_below_312).

(** The message schedule, newest word first. *)
Fixpoint schedule (n : nat) (w : list Z) : list Z :=
  match n with
  | O => w
  | S n =>
      let w2 := nth 1 w 0 in let w7 := nth 6 w 0 in
      let w15 := nth 14 w 0 in let w16 := nth 15 w 0 in
      let s0 := Z.lxor (Z.lxor (rotr 7 w15) (rotr 18 w15)) (Z.shiftr w15 3) in
      let s1 := Z.lxor (Z.lxor (rotr 17 w2) (rotr 19 w2)) (Z.shiftr w2 10) in
      schedule n (add32 (add32 w16 s0) (add32 w7 s1) :: w)
  end.

Fixpoint rounds (kw : list (Z * Z)) (a b c d e f g h : Z) : list Z :=
  match kw with
  | [] => [a; b; c; d; e; f; g; h]
  | (k, w) :: kw =>
      let s1 := Z.lxor (Z.lxor (rotr 6 e) (rotr 11 e)) (rotr 25 e) in
      let ch := Z.lxor (Z.land e f) (Z.land (Z.lxor e word_mask) g) in
      let t1 := Z.land (h + s1 + ch + k + w) word_mask in
      let s0 := Z.lxor (Z.lxor (rotr 2 a) (rotr 13 a)) (rotr 22 a) in
      let maj := Z.lxor (Z.lxor (Z.land a b) (Z.land a c)) (Z.land b c) in
      rounds kw (Z.land (t1 + s0 + maj) word_mask) a b c (add32 d t1) e f g
  end.

Definition compress (st block : list Z) : list Z :=
  let w := reverse (schedule 48 (reverse block)) in
  match st with
  | [a; b; c; d; e; f; g; h] =>
      zip_with add32 st (rounds (zip round_constants w) a b c d e f g h)
  | _ => st
  end.

Fixpoint words (l : list byte) : list Z :=
  match l with
  | a :: b :: c :: d :: l => be_value [a; b; c; d] :: words l
  | _ => []
  end.

Fixpoint blocks (n : nat) (ws st : list Z) : list Z :=
  match n with
  | O => st
  | S n => blocks n (drop 16 ws) (compress st (take 16 ws))
  end.

Definition pad (m : list byte) : list byte :=
  let len := Z.of_nat (length m) in
  m ++ [byte_of 0x80] ++ replicate (Z.to_nat ((55 - len) mod 64)) (byte_of 0) ++
  reverse (le_bytes 8 (8 * len)).

Definition sha256_bytes (m : list byte) : list byte :=
  let p := pad m in
  mjoin ((λ w, reverse (le_bytes 4 w)) <$> blocks (length p / 64) (words p) initial_words).

Definition sha256_exec : Sha256 := λ m, to_hash32 (sha256_bytes m).

(** The digest of the three letters "abc", from the standard. *)
Example sha256_abc :
  sha256_exec [Byte.x61; Byte.x62; Byte.x63] =
  hex32 "ba7816bf8f01cfea414140de5dae2223b00361a396177a9cb410ff61f20015ad".
Proof. vm_compute. reflexivity. Qed.
