(* ===== verification/Mmr.v ===== *)
(** * Merkle mountain ranges

    Source: circuits/crates/header-chain/src/mmr.rs and utils.rs.  The native
    side ([MMRHost]) keeps every level of the mountains and produces inclusion
    proofs; the circuit ([MMRGuest]) keeps the peaks only.  The theorems relate
    both to the plain list of appended leaves: the peaks agree, every leaf has a
    proof the circuit accepts, and the circuit accepts no other leaf at an index
    unless a SHA-256 collision is exhibited. *)

From Stdlib Require Import Init.Byte.
From stdpp Require Import base list vector strings.
From S2P Require Import Prelude Bytes.

Local Open Scope Z_scope.

(** ** Bit counting on [u32] *)

Definition u32_leading_zeros (x : Z) : Z := if x =? 0 then 32 else 31 - Z.log2 x.

Fixpoint pos_ones (p : positive) : nat :=
  match p with
  | xH => 1
  | xO p => pos_ones p
  | xI p => S (pos_ones p)
  end.

Definition count_ones (x : Z) : nat :=
  match x with Zpos p => pos_ones p | _ => 0 end.

Definition u32_checked_shr (x n : Z) : option Z :=
  if n <? 32 then Some (Z.shiftr x n) else None.

(** ** Data *)

Record MMRInclusionProof := mkMmrProof {
  leaf_index : Z;
  inclusion_proof : list hash32;
}.

Record MMRHost := mkHost { nodes : list (list hash32) }.

Record MMRGuest := mkGuest {
  subroots : list hash32;
  size : Z;
}.

#[export] Instance MMRGuest_eq_dec : EqDecision MMRGuest.
Proof. solve_decision. Defined.

Section Mmr.
Context `{SHA : Sha256} `{OC : OverflowChecks}.
Implicit Types (l : list hash32) (ls : list (list hash32)) (x leaf : hash32).

(** ** The native side *)

Definition MMRHost_new : MMRHost := mkHost [[]].

(** [self.nodes[level].push(node)]. *)
Definition push_at ls (level : nat) (node : hash32) : outcome (list (list hash32)) :=
  l ← index ls level;
  Ok (<[level := l ++ [node]]> ls).

(** The loop of [recalculate_peaks], [n] levels from [level] on. *)
Fixpoint peaks_loop (n level : nat) ls : outcome (list (list hash32)) :=
  match n with
  | O => Ok ls
  | S n =>
      l ← index ls level;
      if Nat.odd (length l) then Ok ls
      else
        a ← index l (length l - 2);
        b ← index l (length l - 1);
        ls ← push_at ls (level + 1) (hash_pair a b);
        peaks_loop n (S level) ls
  end.

(** The new topmost level of [recalculate_peaks]. *)
Definition grow_top (depth : nat) ls : outcome (list (list hash32)) :=
  top ← index ls (depth - 1);
  if (1 <? length top)%nat then
    a ← index top 0;
    b ← index top 1;
    Ok (ls ++ [[hash_pair a b]])
  else Ok ls.

Definition recalculate_peaks ls : outcome (list (list hash32)) :=
  let depth := length ls in
  ls ← peaks_loop (depth - 1) 0 ls;
  grow_top depth ls.

Definition MMRHost_append (m : MMRHost) leaf : outcome MMRHost :=
  ls ← push_at (nodes m) 0 leaf;
  ls ← recalculate_peaks ls;
  Ok (mkHost ls).

(** The last node of every level of odd length, lowest level first. *)
Fixpoint odd_tops ls : list hash32 :=
  match ls with
  | [] => []
  | l :: ls =>
      if Nat.odd (length l)
      then match last l with Some x => x :: odd_tops ls | None => odd_tops ls end
      else odd_tops ls
  end.

Definition get_subroots (m : MMRHost) : list hash32 := reverse (odd_tops (nodes m)).

(** The loop of [generate_proof] over the levels from [current_level] up. *)
Fixpoint proof_loop ls (current_index : Z) : outcome (list hash32) :=
  match ls with
  | [] => Err ["index out of bounds"]
  | l :: ls =>
      last_index ← u32_sub (Z.of_nat (length l) mod u32_modulus) 1;
      if (current_index =? last_index) && Nat.odd (length l) then Ok []
      else
        sibling_index ← (if Z.even current_index then u32_add current_index 1
                         else u32_sub current_index 1);
        sibling ← index l (Z.to_nat sibling_index);
        proof ← proof_loop ls (current_index / 2);
        Ok (sibling :: proof)
  end.

Definition generate_proof (m : MMRHost) (idx : Z) : outcome (hash32 * MMRInclusionProof) :=
  l ← index (nodes m) 0;
  _ ← require (negb (bool_decide (l = []))) "MMR is empty";
  _ ← require (idx <? Z.of_nat (length l)) "Index out of bounds";
  proof ← proof_loop (nodes m) idx;
  leaf ← index l (Z.to_nat idx);
  Ok (leaf, mkMmrProof idx proof).

(** ** Inclusion proofs *)

(** The peak, the index below the peak and the path length. *)
Definition position (p : MMRInclusionProof) (mmr_size : Z) : option (nat * Z * nat) :=
  if (mmr_size =? 0) || (mmr_size <=? leaf_index p) then None
  else
    let peak_level := 31 - u32_leading_zeros (Z.lxor mmr_size (leaf_index p)) in
    let internal_mask := (Z.shiftl 1 peak_level - 1) mod u32_modulus in
    let internal_index := Z.land (leaf_index p) internal_mask in
    let subroot_idx :=
      count_ones (default 0 (u32_checked_shr mmr_size (peak_level + 1))) in
    Some (subroot_idx, internal_index, Z.to_nat peak_level).

(** The loop of [get_subroot] over the siblings from number [i] on. *)
Fixpoint path_loop (i : nat) (internal_index : Z) (path : list hash32) (current : hash32) : hash32 :=
  match path with
  | [] => current
  | sibling :: path =>
      path_loop (S i) internal_index path
        (if Z.land internal_index (Z.shiftl 1 (Z.of_nat i)) =? 0
         then hash_pair current sibling else hash_pair sibling current)
  end.

Definition get_subroot (p : MMRInclusionProof) (mmr_size : Z) leaf : option (nat * hash32) :=
  '(subroot_idx, internal_index, expected_path_len) ← position p mmr_size;
  if decide (length (inclusion_proof p) = expected_path_len)
  then Some (subroot_idx, path_loop 0 internal_index (inclusion_proof p) leaf)
  else None.

Definition MMRHost_verify_proof (m : MMRHost) leaf (p : MMRInclusionProof) : outcome bool :=
  l ← index (nodes m) 0;
  Ok match get_subroot p (Z.of_nat (length l) mod u32_modulus) leaf with
     | None => false
     | Some (subroot_idx, sub_root) => bool_decide (get_subroots m !! subroot_idx = Some sub_root)
     end.

(** ** The circuit side *)

Definition MMRGuest_new : MMRGuest := mkGuest [] 0.

(** The loop of [append]: the vector is a stack, its last element first. *)
Fixpoint merge_peaks (stack : list hash32) (n : Z) (current : hash32) : outcome (list hash32) :=
  if Z.odd n then
    match stack with
    | [] => Err ["called `Option::unwrap()` on a `None` value"]
    | sibling :: stack => merge_peaks stack (n / 2) (hash_pair sibling current)
    end
  else Ok (current :: stack).

Definition MMRGuest_append (m : MMRGuest) leaf : outcome MMRGuest :=
  stack ← merge_peaks (reverse (subroots m)) (size m) leaf;
  size ← u32_add (size m) 1;
  Ok (mkGuest (reverse stack) size).

Definition MMRGuest_verify_proof (m : MMRGuest) leaf (p : MMRInclusionProof) : bool :=
  match get_subroot p (size m) leaf with
  | None => false
  | Some (subroot_idx, subroot) => bool_decide (subroots m !! subroot_idx = Some subroot)
  end.

(** A range built from its leaves. *)
Definition host_of (leaves : list hash32) : outcome MMRHost :=
  for_each MMRHost_append MMRHost_new leaves.
Definition guest_of (leaves : list hash32) : outcome MMRGuest :=
  for_each MMRGuest_append MMRGuest_new leaves.

(** ** The mountains of a list of leaves *)

(** One level up: the hashes of the complete pairs. *)
Fixpoint pair_up l : list hash32 :=
  match l with
  | a :: b :: l => hash_pair a b :: pair_up l
  | _ => []
  end.

(** [tower l ls]: [ls] are the levels above and including [l]. *)
Inductive tower : list hash32 → list (list hash32) → Prop :=
| tower_top l : (length l ≤ 1)%nat → tower l [l]
| tower_level l ls : (2 ≤ length l)%nat → tower (pair_up l) ls → tower l (l :: ls).

(** Appending a leaf, level by level. *)
Fixpoint push_up ls x : list (list hash32) :=
  match ls with
  | [] => [[x]]
  | l :: ls =>
      (l ++ [x]) ::
      match last l with
      | Some y => if Nat.odd (length l) then push_up ls (hash_pair y x) else ls
      | None => ls
      end
  end.

(** The root of the path above node number [i]. *)
Fixpoint climb (i : Z) (path : list hash32) (current : hash32) : hash32 :=
  match path with
  | [] => current
  | sibling :: path =>
      climb (i / 2) path
        (if Z.even i then hash_pair current sibling else hash_pair sibling current)
  end.

(** *** Levels *)

Lemma pair_ind (P : list hash32 → Prop) :
  P [] → (∀ a, P [a]) → (∀ a b l, P l → P (a :: b :: l)) → ∀ l, P l.
Proof.
  intros H0 H1 H2. fix IH 1. intros [|a [|b l]]; [done|done|]. apply H2, IH.
Qed.

Lemma odd_SS n : Nat.odd (S (S n)) = Nat.odd n.
Proof. unfold Nat.odd. done. Qed.

Lemma pair_up_length l : length (pair_up l) = (length l / 2)%nat.
Proof.
  induction l as [|a|a b l IH] using pair_ind; [done..|]. cbn [pair_up length].
  rewrite IH. change (S (S (length l))) with (2 + length l)%nat.
  replace (2 + length l)%nat with (1 * 2 + length l)%nat by lia.
  rewrite Nat.div_add_l; lia.
Qed.

Lemma pair_up_snoc_even l x : Nat.odd (length l) = false → pair_up (l ++ [x]) = pair_up l.
Proof.
  induction l as [|a|a b l IH] using pair_ind; [done..|]. cbn [length]. rewrite odd_SS.
  intros H. cbn. by rewrite IH.
Qed.

Lemma pair_up_snoc_odd l x y :
  Nat.odd (length l) = true → last l = Some y → pair_up (l ++ [x]) = pair_up l ++ [hash_pair y x].
Proof.
  induction l as [|a|a b l IH] using pair_ind; [done| |].
  - intros _ [= ->]. done.
  - cbn [length]. rewrite odd_SS. intros Ho Hy. destruct l as [|c l]; [done|].
    change (hash_pair a b :: pair_up ((c :: l) ++ [x]) =
            hash_pair a b :: (pair_up (c :: l) ++ [hash_pair y x])).
    by rewrite IH.
Qed.

Lemma odd_has_last l : Nat.odd (length l) = true → ∃ y, last l = Some y.
Proof. destruct l as [|a l] using rev_ind; [done|]. rewrite last_snoc. eauto. Qed.

Lemma tower_base l ls : tower l ls → ∃ ls', ls = l :: ls'.
Proof. destruct 1; eauto. Qed.

Lemma tower_push l ls x : tower l ls → tower (l ++ [x]) (push_up ls x).
Proof.
  intros H. revert x. induction H as [l Hl|l ls Hl H IH]; intros x; cbn [push_up].
  - destruct l as [|y [|? ?]]; cbn in *; [apply tower_top; cbn; lia| |lia].
    apply tower_level; [cbn; lia|]. apply tower_top; cbn; lia.
  - assert (2 ≤ length (l ++ [x]))%nat by (rewrite length_app; lia).
    destruct (last l) as [y|] eqn:Ey; [|apply last_None in Ey as ->; cbn in Hl; lia].
    apply tower_level; [done|]. destruct (Nat.odd (length l)) eqn:Eo.
    + rewrite (pair_up_snoc_odd _ _ _ Eo Ey). apply IH.
    + by rewrite pair_up_snoc_even.
Qed.

Lemma tower_top_short l ls : tower l ls → ∃ top, last ls = Some top ∧ (length top ≤ 1)%nat.
Proof.
  induction 1 as [l Hl|l ls Hl H (top & Ht & Hs)]; [eauto|].
  exists top. split; [|done]. destruct ls; [done|]. done.
Qed.

(** *** The native append *)

Lemma push_at_middle pre l ls x :
  push_at (pre ++ l :: ls) (length pre) x = Ok (pre ++ (l ++ [x]) :: ls).
Proof.
  unfold push_at, index. rewrite list_lookup_middle by done. cbn.
  by rewrite insert_app_r_alt, Nat.sub_diag by done.
Qed.

Lemma index_snoc_even l x y :
  Nat.odd (length (l ++ [x])) = false → last l = Some y →
  index (l ++ [x]) (length (l ++ [x]) - 2) = Ok y ∧
  index (l ++ [x]) (length (l ++ [x]) - 1) = Ok x.
Proof.
  intros _ Hy. rewrite !index_Ok, length_app. cbn [length].
  destruct l as [|z l _] using rev_ind; [done|]. rewrite last_snoc in Hy. injection Hy as ->.
  rewrite length_app. cbn [length]. split.
  - rewrite <- app_assoc. apply list_lookup_middle. lia.
  - apply list_lookup_middle. rewrite length_app. cbn. lia.
Qed.

Lemma odd_snoc l x : Nat.odd (length (l ++ [x])) = negb (Nat.odd (length l)).
Proof. by rewrite length_app, Nat.add_comm, Nat.odd_succ, <- Nat.negb_odd. Qed.

Lemma recalculate_push l ls pre x :
  tower l (l :: ls) →
  (nodes ← peaks_loop (length ls) (length pre) (pre ++ (l ++ [x]) :: ls);
   grow_top (length pre + S (length ls)) nodes) = Ok (pre ++ push_up (l :: ls) x).
Proof.
  intros H. remember (l :: ls) as lss eqn:E. revert ls E pre x.
  induction H as [l Hl|l lss Hl H IH]; intros ls [= <-] pre x.
  - cbn. unfold grow_top, index.
    rewrite list_lookup_middle by lia. cbn.
    destruct l as [|y [|? ?]]; cbn in *; [done| |lia].
    by rewrite <- app_assoc.
  - destruct (tower_base _ _ H) as (ls' & ->). cbn [length peaks_loop push_up].
    rewrite (proj2 (index_Ok _ _ (l ++ [x]))) by by apply list_lookup_middle.
    cbn [mbind outcome_bind].
    destruct (last l) as [y|] eqn:Ey; [|apply last_None in Ey as ->; cbn in Hl; lia].
    rewrite odd_snoc. destruct (Nat.odd (length l)) eqn:Eo; cbn [negb].
    + destruct (index_snoc_even l x y) as [-> ->]; [by rewrite odd_snoc, Eo|done|].
      cbn [mbind outcome_bind].
      replace (length pre + 1)%nat with (length (pre ++ [l ++ [x]])) by (rewrite length_app; done).
      rewrite cons_middle, app_assoc, push_at_middle. cbn [mbind outcome_bind].
      replace (S (length pre)) with (length (pre ++ [l ++ [x]])) by (rewrite length_app; cbn; lia).
      replace (length pre + S (S (length ls')))%nat
        with (length (pre ++ [l ++ [x]]) + S (length ls'))%nat by (rewrite length_app; cbn; lia).
      rewrite (IH ls') by done. by rewrite <- app_assoc.
    + cbn. destruct (tower_top_short _ _ H) as (top & Ht & Hs). unfold grow_top, index.
      replace (pre ++ (l ++ [x]) :: pair_up l :: ls') with
        ((pre ++ [l ++ [x]]) ++ pair_up l :: ls') by by rewrite <- app_assoc.
      rewrite last_lookup in Ht. rewrite lookup_app_r by (rewrite length_app; cbn; lia).
      rewrite length_app. cbn [length] in *.
      replace (_ - 1 - _)%nat with (pred (S (length ls'))) by lia. rewrite Ht. cbn.
      destruct top as [|a [|b top]]; cbn in Hs |- *; [done|done|lia].
Qed.

Lemma MMRHost_append_tower l ls x :
  tower l ls → MMRHost_append (mkHost ls) x = Ok (mkHost (push_up ls x)).
Proof.
  intros H. destruct (tower_base _ _ H) as (ls' & ->). unfold MMRHost_append. cbn [nodes].
  pose proof (push_at_middle [] l ls' x) as Hp. cbn [app length] in Hp. rewrite Hp.
  cbn [mbind outcome_bind].
  pose proof (recalculate_push l ls' [] x H) as Hr. cbn [app length Nat.add] in Hr.
  unfold recalculate_peaks. cbn [length Nat.sub]. rewrite Nat.sub_0_r. by rewrite Hr.
Qed.

Lemma host_of_tower l : ∃ ls, host_of l = Ok (mkHost ls) ∧ tower l ls.
Proof.
  unfold host_of. induction l as [|x l (ls & IH & H)] using rev_ind.
  - exists [[]]. split; [done|]. apply tower_top. cbn. lia.
  - exists (push_up ls x). rewrite for_each_app, IH. cbn.
    rewrite (MMRHost_append_tower _ _ _ H). split; [done|]. by apply tower_push.
Qed.

(** *** The circuit's append *)

Lemma Z_odd_of_nat n : Z.odd (Z.of_nat n) = Nat.odd n.
Proof.
  induction n as [|n IH]; [done|].
  by rewrite Nat2Z.inj_succ, Z.odd_succ, <- Z.negb_odd, IH, Nat.odd_succ, <- Nat.negb_odd.
Qed.

Lemma pair_up_length_Z l : Z.of_nat (length (pair_up l)) = Z.of_nat (length l) / 2.
Proof. rewrite pair_up_length, Nat2Z.inj_div. done. Qed.

Lemma merge_peaks_tower l ls x :
  tower l ls →
  merge_peaks (odd_tops ls) (Z.of_nat (length l)) x = Ok (odd_tops (push_up ls x)).
Proof.
  intros H. revert x. induction H as [l Hl|l ls Hl H IH]; intros x.
  - destruct l as [|y [|? ?]]; cbn in *; [done|done|lia].
  - cbn [odd_tops push_up].
    destruct (last l) as [y|] eqn:Ey; [|apply last_None in Ey as ->; cbn in Hl; lia].
    rewrite odd_snoc, last_snoc. destruct (Nat.odd (length l)) eqn:Eo; cbn [negb].
    + cbn [merge_peaks]. by rewrite Z_odd_of_nat, Eo, <- pair_up_length_Z, IH.
    + destruct (odd_tops ls) as [|z st]; cbn [merge_peaks]; by rewrite Z_odd_of_nat, Eo.
Qed.

Lemma guest_of_tower l ls :
  Z.of_nat (length l) < u32_modulus → host_of l = Ok (mkHost ls) →
  guest_of l = Ok (mkGuest (get_subroots (mkHost ls)) (Z.of_nat (length l))).
Proof.
  revert ls. induction l as [|x l IH] using rev_ind; intros ls Hlen Hh; [by injection Hh as <-|].
  destruct (host_of_tower l) as (ls' & Hh' & Ht). rewrite length_app in *. cbn [length] in *.
  unfold host_of in Hh. rewrite for_each_app in Hh. fold (host_of l) in Hh. rewrite Hh' in Hh.
  cbn in Hh. rewrite (MMRHost_append_tower _ _ _ Ht) in Hh. cbn in Hh. injection Hh as <-.
  unfold guest_of. rewrite for_each_app. fold (guest_of l).
  rewrite (IH ls') by (try done; lia). cbn [mbind outcome_bind for_each].
  unfold MMRGuest_append, get_subroots. cbn [subroots size nodes].
  rewrite reverse_involutive, (merge_peaks_tower _ _ _ Ht). cbn [mbind outcome_bind].
  rewrite u32_add_exact by lia. cbn [mbind outcome_bind]. do 3 f_equal. lia.
Qed.

(** *** Positions *)

Lemma count_ones_half n : 0 ≤ n → count_ones n = (count_ones (n / 2) + Nat.b2n (Z.odd n))%nat.
Proof.
  intros Hn. rewrite <- Z.div2_div. destruct n as [|[p|p|]|p]; cbn; try lia.
Qed.

Lemma lxor_half n i : Z.lxor n i / 2 = Z.lxor (n / 2) (i / 2).
Proof. rewrite <- !Z.div2_div, !Z.div2_spec. apply Z.shiftr_lxor. Qed.

Lemma log2_half (x : Z) : 2 ≤ x → Z.log2 x = 1 + Z.log2 (x / 2).
Proof.
  intros Hx. rewrite <- Z.div2_div, Z.div2_spec, Z.log2_shiftr by lia.
  pose proof (Z.log2_le_mono 2 x Hx). change (Z.log2 2) with 1 in *. lia.
Qed.

(** [peak_level n i]: the level of the peak above leaf [i] of [n];
    [peak_rank n i]: the number of higher peaks. *)
Definition peak_level (n i : Z) : Z := Z.log2 (Z.lxor n i).
Definition peak_rank (n i : Z) : nat := count_ones (Z.shiftr n (peak_level n i + 1)).

(** The level of the peak above leaf [i] of [n], from that of node [i / 2] of the
    next level. *)
Lemma peak_level_step n i :
  0 ≤ i < n →
  (Z.odd n = true ∧ i = n - 1 ∧ peak_level n i = 0) ∨
  ((i =? n - 1) && Z.odd n = false ∧ 0 ≤ i / 2 < n / 2 ∧
   peak_level n i = 1 + peak_level (n / 2) (i / 2)).
Proof.
  unfold peak_level. intros Hi. assert (0 ≤ Z.lxor n i) as H0 by (apply Z.lxor_nonneg; lia).
  assert (Z.lxor n i ≠ 0) as Hne by (rewrite Z.lxor_eq_0_iff; lia).
  pose proof (lxor_half n i) as Hh.
  pose proof (Z.div_mod n 2). pose proof (Z.div_mod i 2).
  pose proof (Z.mod_pos_bound n 2). pose proof (Z.mod_pos_bound i 2).
  pose proof (Zmod_odd n) as Hodd.
  destruct (decide (n / 2 = i / 2)) as [He|Hn].
  - left. rewrite He, Z.lxor_nilpotent in Hh. destruct (Z.odd n); [|lia].
    split; [done|]. split; [lia|]. replace (Z.lxor n i) with 1; [done|].
    pose proof (Z.div_small_iff (Z.lxor n i) 2). lia.
  - right. assert (Z.lxor (n / 2) (i / 2) ≠ 0) by by rewrite Z.lxor_eq_0_iff.
    split; [|split].
    + apply andb_false_iff. destruct (Z.odd n); [|by right]. left. apply Z.eqb_neq. lia.
    + lia.
    + rewrite <- Hh. apply log2_half. pose proof (Z.div_small_iff (Z.lxor n i) 2). lia.
Qed.

Lemma odd_tops_length l ls :
  tower l ls → length (odd_tops ls) = count_ones (Z.of_nat (length l)).
Proof.
  induction 1 as [l Hl|l ls Hl H IH].
  - destruct l as [|y [|? ?]]; cbn in *; [done|done|lia].
  - cbn [odd_tops]. rewrite count_ones_half by lia.
    rewrite <- pair_up_length_Z, <- IH, Z_odd_of_nat.
    destruct (Nat.odd (length l)) eqn:Eo; cbn; [|lia].
    destruct (odd_has_last _ Eo) as (y & ->). cbn. lia.
Qed.

Lemma pair_up_lookup l j h :
  pair_up l !! j = Some h →
  ∃ a b, l !! (2 * j)%nat = Some a ∧ l !! (2 * j + 1)%nat = Some b ∧ h = hash_pair a b.
Proof.
  revert j. induction l as [|a|a b l IH] using pair_ind; intros [|j] Hj; try done.
  - injection Hj as <-. by exists a, b.
  - destruct (IH j Hj) as (c & d & Hc & Hd & ->). exists c, d.
    replace (2 * S j)%nat with (S (S (2 * j))) by lia. done.
Qed.

Lemma peak_rank_step n i :
  peak_level n i = 1 + peak_level (n / 2) (i / 2) → peak_rank n i = peak_rank (n / 2) (i / 2).
Proof.
  intros H. unfold peak_rank. rewrite H. f_equal.
  assert (0 ≤ peak_level (n / 2) (i / 2)) by apply Z.log2_nonneg.
  set (k := peak_level (n / 2) (i / 2)) in *. clearbody k.
  rewrite <- Z.div2_div, Z.div2_spec, Z.shiftr_shiftr by lia. f_equal. lia.
Qed.

(** The node of a level above a pair is bound to the pair. *)
Lemma climb_step l i s x h :
  0 ≤ i → pair_up l !! Z.to_nat (i / 2) = Some h →
  (if Z.even i then hash_pair x s else hash_pair s x) = h →
  l !! Z.to_nat i = Some x ∨ collision.
Proof.
  intros Hi (a & b & Ha & Hb & ->)%pair_up_lookup Hh.
  pose proof (Z.div_mod i 2). pose proof (Zmod_even i) as He.
  destruct (Z.even i); apply hash_pair_binds in Hh as [[-> ->]|]; auto; left.
  - rewrite <- Ha. f_equal. lia.
  - rewrite <- Hb. f_equal. lia.
Qed.

(** The siblings along the way up. *)
Lemma sibling_step l i :
  0 ≤ i → i / 2 < Z.of_nat (length l) / 2 → Z.of_nat (length l) < u32_modulus →
  ∃ j s h,
    (if Z.even i then u32_add i 1 else u32_sub i 1) = Ok j ∧
    index l (Z.to_nat j) = Ok s ∧ pair_up l !! Z.to_nat (i / 2) = Some h ∧
    ∀ x, l !! Z.to_nat i = Some x →
      (if Z.even i then hash_pair x s else hash_pair s x) = h.
Proof.
  intros Hi Hlt Hn. pose proof (Z.div_mod i 2). pose proof (Zmod_even i) as He.
  pose proof (Z.div_mod (Z.of_nat (length l)) 2).
  pose proof (Z.mod_pos_bound (Z.of_nat (length l)) 2).
  destruct (lookup_lt_is_Some_2 (pair_up l) (Z.to_nat (i / 2))) as (h & Hh).
  { pose proof (pair_up_length_Z l). pose proof (Z.div_pos i 2). lia. }
  destruct (pair_up_lookup _ _ _ Hh) as (a & b & Ha & Hb & Hab).
  destruct (Z.even i).
  - exists (i + 1), b, h. rewrite u32_add_exact by lia. split_and!; [done| |done|].
    + apply index_Ok. rewrite <- Hb. f_equal. lia.
    + intros x Hx. replace (Z.to_nat i) with (2 * Z.to_nat (i / 2))%nat in Hx by lia. congruence.
  - exists (i - 1), a, h. rewrite u32_sub_exact by lia. split_and!; [done| |done|].
    + apply index_Ok. rewrite <- Ha. f_equal. lia.
    + intros x Hx. replace (Z.to_nat i) with (2 * Z.to_nat (i / 2) + 1)%nat in Hx by lia. congruence.
Qed.

Lemma peak_level_nonneg n i : 0 ≤ peak_level n i.
Proof. apply Z.log2_nonneg. Qed.

(** The peak above leaf [i]: no other leaf is below it at that index, and the
    native side finds the path to it. *)
Lemma tower_peak l ls i :
  tower l ls → 0 ≤ i < Z.of_nat (length l) → Z.of_nat (length l) < u32_modulus →
  ∃ root,
    reverse (odd_tops ls) !! peak_rank (Z.of_nat (length l)) i = Some root ∧
    (∀ path x, length path = Z.to_nat (peak_level (Z.of_nat (length l)) i) →
       climb i path x = root → l !! Z.to_nat i = Some x ∨ collision) ∧
    (∃ path, proof_loop ls i = Ok path ∧
       length path = Z.to_nat (peak_level (Z.of_nat (length l)) i) ∧
       ∀ x, l !! Z.to_nat i = Some x → climb i path x = root).
Proof.
  intros H. revert i. induction H as [l Hl|l ls Hl H IH]; intros i Hi Hn.
  - destruct l as [|y [|? ?]]; cbn in Hl, Hi; [lia| |lia]. assert (i = 0) as -> by lia.
    exists y. split_and!; [done| |exists []; split_and!; [|done|]].
    + intros [|? ?] x Hp Hx; [|done]. left. cbn in Hx. by subst.
    + cbn [proof_loop]. by rewrite Z.mod_small, (u32_sub_exact (Z.of_nat _)) by (cbn in *; lia).
    + intros x Hx. by injection Hx as <-.
  - destruct (peak_level_step _ _ Hi) as [(Ho & -> & Hk)|(Hlast & Hi2 & Hk)];
      cbn [odd_tops proof_loop];
      rewrite Z.mod_small, (u32_sub_exact (Z.of_nat _)) by lia; cbn [mbind outcome_bind].
    + rewrite Z_odd_of_nat in Ho. rewrite Ho. destruct (odd_has_last _ Ho) as (y & Ey).
      rewrite Ey. exists y. unfold peak_rank. rewrite Hk.
      assert (l !! Z.to_nat (Z.of_nat (length l) - 1) = Some y) as Hy.
      { rewrite last_lookup in Ey. rewrite <- Ey. f_equal. lia. }
      rewrite Z.eqb_refl, reverse_cons. cbn. split_and!.
      * apply lookup_snoc_Some. right. split; [|done].
        rewrite length_reverse, (odd_tops_length _ _ H), pair_up_length_Z.
        by rewrite Z.shiftr_div_pow2.
      * intros [|? ?] x Hp Hx; [|done]. left. cbn in Hx. by subst.
      * exists []. split_and!; [done..|]. cbn. congruence.
    + rewrite Z_odd_of_nat in Hlast. rewrite Hlast.
      destruct (IH (i / 2)) as (root & Hr & Hsound & path & Hp & Hpl & Hc);
        [rewrite pair_up_length_Z; pose proof (Z.div_lt (Z.of_nat (length l)) 2); lia..|].
      rewrite pair_up_length_Z in *.
      destruct (sibling_step l i) as (j & s & h & -> & Hs & Hh & Hx); [lia..|].
      exists root. rewrite (peak_rank_step _ _ Hk), Hk.
      pose proof (peak_level_nonneg (Z.of_nat (length l) / 2) (i / 2)). split_and!.
      * destruct (Nat.odd (length l)); [|done]. destruct (last l); [|done].
        rewrite reverse_cons. by apply lookup_app_l_Some.
      * intros [|s' path'] x Hl' Hx'; cbn in Hl'; [lia|].
        destruct (Hsound path' _ ltac:(lia) Hx') as [Hh'|]; [|by right].
        eapply climb_step; [lia|exact Hh'|done].
      * exists (s :: path). cbn [mbind outcome_bind]. rewrite Hs. cbn [mbind outcome_bind].
        rewrite Hp. split_and!; [done|cbn; lia|].
        intros x Hxi. cbn. rewrite (Hx x Hxi). by apply Hc.
Qed.

(** *** Reading a proof *)

Lemma path_loop_climb i0 k path x :
  ∀ j : nat, 0 ≤ i0 → Z.of_nat j + Z.of_nat (length path) ≤ k →
  path_loop j (Z.land i0 (2 ^ k - 1)) path x = climb (Z.shiftr i0 (Z.of_nat j)) path x.
Proof.
  revert x. induction path as [|s path IH]; intros x j Hi Hj; [done|].
  cbn [path_loop climb length] in *.
  rewrite IH by lia. rewrite <- Z.div2_div, Z.div2_spec, Z.shiftr_shiftr by lia.
  replace (Z.of_nat (S j)) with (Z.of_nat j + 1) by lia. f_equal.
  rewrite <- Z.negb_odd, <- Z.bit0_odd, Z.shiftr_spec, Z.add_0_l by lia.
  replace (2 ^ k - 1) with (Z.ones k) by by rewrite Z.ones_equiv, Z.sub_1_r.
  rewrite Z.land_ones by lia.
  replace (Z.land _ _ =? 0) with (negb (Z.testbit i0 (Z.of_nat j))); [by destruct (Z.testbit _ _)|].
  rewrite <- (Z.mod_pow2_bits_low i0 k) by lia.
  rewrite Z.shiftl_1_l. set (m := i0 mod 2 ^ k).
  destruct (Z.testbit m (Z.of_nat j)) eqn:E; symmetry; cbn.
  - apply Z.eqb_neq. intros Hz. apply (f_equal (λ z, Z.testbit z (Z.of_nat j))) in Hz.
    rewrite Z.land_spec, E, Z.pow2_bits_true, Z.bits_0 in Hz by lia. done.
  - apply Z.eqb_eq. apply Z.bits_inj'. intros n Hn. rewrite Z.land_spec, Z.bits_0.
    destruct (decide (n = Z.of_nat j)) as [->|Hne]; [by rewrite E|].
    by rewrite Z.pow2_bits_false, andb_false_r by lia.
Qed.

Lemma peak_level_bound n i : 0 ≤ i < n → n < u32_modulus → peak_level n i < 32.
Proof.
  intros Hi Hn. unfold peak_level. destruct (decide (Z.lxor n i = 0)) as [->|Hne]; [done|].
  assert (0 ≤ Z.lxor n i) by (apply Z.lxor_nonneg; lia).
  pose proof (Z.log2_lxor n i ltac:(lia) ltac:(lia)).
  assert (Z.log2 n < 32) by (apply Z.log2_lt_pow2; [lia|exact Hn]).
  pose proof (Z.log2_le_mono i n ltac:(lia)). lia.
Qed.

Lemma get_subroot_out p n x : n ≤ leaf_index p → get_subroot p n x = None.
Proof.
  intros H. unfold get_subroot, position. apply Z.leb_le in H. by rewrite H, orb_true_r.
Qed.

Lemma get_subroot_in p n x :
  0 ≤ leaf_index p < n → n < u32_modulus →
  get_subroot p n x =
    if decide (length (inclusion_proof p) = Z.to_nat (peak_level n (leaf_index p)))
    then Some (peak_rank n (leaf_index p), climb (leaf_index p) (inclusion_proof p) x)
    else None.
Proof.
  intros Hi Hn. unfold get_subroot, position.
  replace (n =? 0) with false by (symmetry; apply Z.eqb_neq; lia).
  replace (n <=? leaf_index p) with false by (symmetry; apply Z.leb_gt; lia). cbn [orb].
  unfold u32_leading_zeros.
  replace (Z.lxor n (leaf_index p) =? 0) with false
    by (symmetry; apply Z.eqb_neq; rewrite Z.lxor_eq_0_iff; lia).
  fold (peak_level n (leaf_index p)).
  pose proof (peak_level_bound _ _ Hi Hn) as Hb. pose proof (peak_level_nonneg n (leaf_index p)).
  replace (31 - (31 - peak_level n (leaf_index p))) with (peak_level n (leaf_index p)) by lia.
  cbn [mbind option_bind].
  destruct (decide _) as [Hl|]; [|done]. do 2 f_equal.
  - unfold peak_rank, u32_checked_shr. destruct (_ <? 32) eqn:E; [done|]. brefl. cbn.
    rewrite Z.shiftr_div_pow2, Z.div_small by
      (pose proof (Z.pow_le_mono_r 2 32 (peak_level n (leaf_index p) + 1));
       unfold u32_modulus in *; lia).
    done.
  - rewrite Z.shiftl_1_l, Z.mod_small.
    + rewrite path_loop_climb; [|lia..]. by rewrite Z.shiftr_0_r.
    + pose proof (Z.pow_pos_nonneg 2 (peak_level n (leaf_index p))).
      pose proof (Z.pow_lt_mono_r 2 (peak_level n (leaf_index p)) 32).
      unfold u32_modulus. lia.
Qed.

(** A range and its peaks, from its leaves. *)
Lemma range_of l :
  Z.of_nat (length l) < u32_modulus →
  ∃ ls, tower l ls ∧ host_of l = Ok (mkHost ls) ∧
    guest_of l = Ok (mkGuest (reverse (odd_tops ls)) (Z.of_nat (length l))).
Proof.
  intros Hn. destruct (host_of_tower l) as (ls & Hh & Ht). exists ls.
  split_and!; [done..|]. by rewrite (guest_of_tower l ls).
Qed.

Lemma range_proofs (leaves : list hash32) :
  Z.of_nat (length leaves) < u32_modulus →
  ∃ host guest,
    host_of leaves = Ok host ∧ guest_of leaves = Ok guest ∧
    subroots guest = get_subroots host ∧ size guest = Z.of_nat (length leaves) ∧
    ∀ i : nat,
      match leaves !! i with
      | Some leaf =>
          ∃ path, let proof := mkMmrProof (Z.of_nat i) path in
          generate_proof host (Z.of_nat i) = Ok (leaf, proof) ∧
          MMRHost_verify_proof host leaf proof = Ok true ∧
          MMRGuest_verify_proof guest leaf proof = true
      | None => ∃ e, generate_proof host (Z.of_nat i) = Err e
      end.
Proof.
  intros Hn. destruct (range_of leaves Hn) as (ls & Ht & Hh & Hg).
  destruct (tower_base _ _ Ht) as (ls' & Els).
  eexists _, _. split_and!; [exact Hh|exact Hg|done|done|]. intros i.
  unfold generate_proof, index. cbn [nodes]. rewrite Els. cbn [lookup list_lookup expect mbind outcome_bind].
  destruct (leaves !! i) as [leaf|] eqn:El.
  - assert (0 ≤ Z.of_nat i < Z.of_nat (length leaves)) as Hi
      by (apply lookup_lt_Some in El; lia).
    destruct (tower_peak _ _ (Z.of_nat i) Ht Hi Hn) as (root & Hr & _ & path & Hp & Hl & Hc).
    rewrite Nat2Z.id in Hc. specialize (Hc _ El). exists path.
    rewrite bool_decide_eq_false_2 by (intros ->; done).
    rewrite (proj2 (Z.ltb_lt _ _)) by lia. cbn [negb require mbind outcome_bind].
    rewrite <- Els, Hp. cbn [mbind outcome_bind]. rewrite Nat2Z.id, El. cbn [expect mbind outcome_bind].
    unfold MMRHost_verify_proof, MMRGuest_verify_proof, index. cbn [nodes subroots size].
    assert (ls !! 0%nat = Some leaves) as -> by by rewrite Els.
    cbn [expect mbind outcome_bind]. rewrite Z.mod_small by lia.
    rewrite get_subroot_in by done. cbn [leaf_index inclusion_proof].
    rewrite decide_True by done. unfold get_subroots. cbn [nodes]. rewrite Hc.
    by rewrite !bool_decide_eq_true_2 by done.
  - apply lookup_ge_None in El. destruct (bool_decide _); cbn; [eauto|].
    rewrite (proj2 (Z.ltb_ge _ _)) by lia. cbn. eauto.
Qed.

Lemma guest_verify_sound (leaves : list hash32) guest leaf proof :
  Z.of_nat (length leaves) < u32_modulus → guest_of leaves = Ok guest →
  0 ≤ leaf_index proof → MMRGuest_verify_proof guest leaf proof = true →
  leaves !! Z.to_nat (leaf_index proof) = Some leaf ∨ collision.
Proof.
  intros Hn Hg Hi Hv. destruct (range_of leaves Hn) as (ls & Ht & _ & Hg').
  rewrite Hg' in Hg. injection Hg as <-. unfold MMRGuest_verify_proof in Hv.
  cbn [subroots size] in Hv.
  destruct (decide (leaf_index proof < Z.of_nat (length leaves))) as [Hlt|];
    [|by rewrite get_subroot_out in Hv by lia].
  rewrite get_subroot_in in Hv by done. destruct (decide _) as [Hl|]; [|done]. brefl.
  destruct (tower_peak _ _ (leaf_index proof) Ht ltac:(lia) Hn) as (root & Hr & Hs & _).
  apply (Hs _ _ Hl). congruence.
Qed.

(** ** Correctness *)

(** C37: the circuit's range is the native one without its inner levels.  From
    any leaves (fewer than 2^32) both sides build a range without panicking, with
    the same peaks and the number of leaves as size; the native side produces a
    proof for every leaf, at its index, that both sides accept, and panics for
    an index that has no leaf. *)
Theorem mmr_proofs_complete (leaves : list hash32) :
  Z.of_nat (length leaves) < u32_modulus →
  ∃ host guest,
    host_of leaves = Ok host ∧ guest_of leaves = Ok guest ∧
    subroots guest = get_subroots host ∧ size guest = Z.of_nat (length leaves) ∧
    ∀ i : nat,
      match leaves !! i with
      | Some leaf =>
          ∃ path, let proof := mkMmrProof (Z.of_nat i) path in
          generate_proof host (Z.of_nat i) = Ok (leaf, proof) ∧
          MMRHost_verify_proof host leaf proof = Ok true ∧
          MMRGuest_verify_proof guest leaf proof = true
      | None => ∃ e, generate_proof host (Z.of_nat i) = Err e
      end.
Proof. apply range_proofs. Qed.

(** The circuit authenticates index and leaf.  A proof that the circuit
    accepts against the peaks of [leaves] names an index of [leaves], and the
    leaf is the one at that index -- or the proof exhibits a SHA-256 collision. *)
Theorem mmr_proofs_sound (leaves : list hash32) guest leaf proof :
  Z.of_nat (length leaves) < u32_modulus → guest_of leaves = Ok guest →
  0 ≤ leaf_index proof → MMRGuest_verify_proof guest leaf proof = true →
  leaves !! Z.to_nat (leaf_index proof) = Some leaf ∨ collision.
Proof. apply guest_verify_sound. Qed.

End Mmr.

#[local] Existing Instance sha256_exec.
#[local] Instance sample_checks : OverflowChecks := true.

(** Three leaves: peaks above two and above one. *)
Definition sample_leaves : list hash32 :=
  [sha256 []; sha256 [Byte.x01]; sha256 [Byte.x02]].


Definition sample_range : MMRGuest :=
  match guest_of sample_leaves with Ok g => g | Err _ => MMRGuest_new end.
Definition sample_leaf_proof : MMRInclusionProof := mkMmrProof 1 [sha256 []].

Lemma mmr_proofs_complete_witness :
  ∃ host guest, host_of sample_leaves = Ok host ∧ guest_of sample_leaves = Ok guest ∧
    subroots guest = get_subroots host.
Proof.
  destruct (mmr_proofs_complete sample_leaves) as (h & g & H1 & H2 & H3 & _); [done|].
  by exists h, g.
Defined.

Lemma mmr_proofs_sound_witness :
  sample_leaves !! Z.to_nat (leaf_index sample_leaf_proof) = Some (sha256 [Byte.x01]) ∨ collision.
Proof.
  apply (mmr_proofs_sound sample_leaves sample_range (sha256 [Byte.x01]) sample_leaf_proof);
    by vm_compute.
Defined.
