(* ===== verification/MerkleTree.v ===== *)
(** * Bitcoin's transaction Merkle tree

    Source: circuits/crates/header-chain/src/merkle_tree.rs.  A level of odd
    length pairs its last node with itself. *)

From Stdlib Require Import Init.Byte.
From stdpp Require Import base list vector strings.
From S2P Require Import Prelude Bytes.

Local Open Scope Z_scope.

Record BitcoinMerkleTree := mkTree { tree_nodes : list (list hash32) }.

Record BlockInclusionProof := mkBlockProof {
  idx : Z;
  merkle_proof : list hash32;
}.

Section Tree.
Context `{SHA : Sha256}.
Implicit Types (l : list hash32) (ls : list (list hash32)) (x : hash32).

(** The double hash of a 64-byte preimage made of two nodes. *)
Definition node_hash (left right : hash32) : hash32 :=
  calculate_double_sha256 (vec_to_list left ++ vec_to_list right).

(** ** Construction *)

(** The inner loop of [new], [n] pairs from number [i] on. *)
Fixpoint level_pairs (n i : nat) l : outcome (list hash32) :=
  match n with
  | O => Ok []
  | S n =>
      a ← index l (i * 2);
      b ← index l (i * 2 + 1);
      hs ← level_pairs n (S i) l;
      Ok (node_hash a b :: hs)
  end.

Definition next_level l (prev_level_size : nat) : outcome (list hash32) :=
  hs ← level_pairs (prev_level_size / 2) 0 l;
  if Nat.odd prev_level_size then
    c ← index l (prev_level_size - 1);
    Ok (hs ++ [node_hash c c])
  else Ok hs.

(** The outer loop of [new]; the level size halves, so as many rounds as there
    are transactions are enough. *)
Fixpoint tree_loop (fuel : nat) ls (curr_level_offset prev_level_size : nat)
    : outcome (list (list hash32)) :=
  if (1 <? prev_level_size)%nat then
    match fuel with
    | O => Err ["out of fuel"]
    | S fuel =>
        l ← index ls (curr_level_offset - 1);
        hs ← next_level l prev_level_size;
        tree_loop fuel (ls ++ [hs]) (curr_level_offset + 1) ((prev_level_size + 1) / 2)
    end
  else Ok ls.

Definition BitcoinMerkleTree_new (transactions : list hash32) : outcome BitcoinMerkleTree :=
  if (length transactions =? 1)%nat then Ok (mkTree [transactions])
  else
    ls ← tree_loop (length transactions) [transactions] 1 (length transactions);
    Ok (mkTree ls).

Definition tree_root (t : BitcoinMerkleTree) : outcome hash32 :=
  l ← index (tree_nodes t) (length (tree_nodes t) - 1);
  index l 0.

(** ** Proofs *)

(** The loop of [get_idx_path], from a level up to the one below the root. *)
Fixpoint path_up ls (i : Z) : outcome (list hash32) :=
  match ls with
  | [] => Ok []
  | l :: ls =>
      match ls with
      | [] => Ok []
      | _ =>
          sibling ←
            (if i mod 2 =? 1 then index l (Z.to_nat (i - 1))
             else if Z.of_nat (length l - 1) mod u32_modulus =? i then index l (Z.to_nat i)
             else index l (Z.to_nat (i + 1)));
          path ← path_up ls (i / 2);
          Ok (sibling :: path)
      end
  end.

Definition get_idx_path (t : BitcoinMerkleTree) (i : Z) : outcome (list hash32) :=
  l ← index (tree_nodes t) 0;
  _ ← require (i <? Z.of_nat (length l) mod u32_modulus) "Index out of bounds";
  path_up (tree_nodes t) i.

Definition tree_generate_proof (t : BitcoinMerkleTree) (i : Z) : outcome BlockInclusionProof :=
  path ← get_idx_path t i;
  Ok (mkBlockProof i path).

(** The loop of [get_root]. *)
Fixpoint root_loop (i : Z) (path : list hash32) (combined_hash : hash32) : hash32 :=
  match path with
  | [] => combined_hash
  | sibling :: path =>
      root_loop (i / 2) path
        (if i mod 2 =? 0 then node_hash combined_hash sibling
         else node_hash sibling combined_hash)
  end.

(** The loop bound is the length of the proof as a [u32]. *)
Definition get_root (p : BlockInclusionProof) (txid : hash32) : hash32 :=
  let n := Z.of_nat (length (merkle_proof p)) mod u32_modulus in
  root_loop (idx p) (take (Z.to_nat n) (merkle_proof p)) txid.

Definition verify_merkle_proof (txid : hash32) (p : BlockInclusionProof) (root : hash32) : bool :=
  bool_decide (get_root p txid = root).

(** ** The levels of a tree *)

Fixpoint pair_dup l : list hash32 :=
  match l with
  | [] => []
  | [a] => [node_hash a a]
  | a :: b :: l => node_hash a b :: pair_dup l
  end.

Inductive levels : list hash32 → list (list hash32) → Prop :=
| levels_root x : levels [x] [[x]]
| levels_up l ls : (2 ≤ length l)%nat → levels (pair_dup l) ls → levels l (l :: ls).

Lemma node_hash_binds a b c d :
  node_hash a b = node_hash c d → (a = c ∧ b = d) ∨ collision.
Proof.
  intros [H|H]%double_sha256_binds; [|by right]. left.
  apply vec_app_inj in H as [-> H]. split; [done|]. by apply vec_to_list_inj2.
Qed.

Lemma two_ind (P : list hash32 → Prop) :
  P [] → (∀ a, P [a]) → (∀ a b l, P l → P (a :: b :: l)) → ∀ l, P l.
Proof.
  intros H0 H1 H2. fix IH 1. intros [|a [|b l]]; [done|done|]. apply H2, IH.
Qed.

Lemma pair_dup_length l : length (pair_dup l) = ((length l + 1) / 2)%nat.
Proof.
  induction l as [|a|a b l IH] using two_ind; [done..|]. cbn [pair_dup length].
  rewrite IH. replace (S (S (length l)) + 1)%nat with (1 * 2 + (length l + 1))%nat by lia.
  rewrite Nat.div_add_l; lia.
Qed.

(** The last pair of a level: two neighbours, or the last node twice. *)
Lemma pair_dup_lookup l j h :
  pair_dup l !! j = Some h →
  ∃ a b, l !! (2 * j)%nat = Some a ∧ h = node_hash a b ∧
    (l !! (2 * j + 1)%nat = Some b ∨ (l !! (2 * j + 1)%nat = None ∧ b = a)).
Proof.
  revert j. induction l as [|a|a b l IH] using two_ind; intros [|j] Hj; try done.
  - injection Hj as <-. exists a, a. auto.
  - injection Hj as <-. exists a, b. auto.
  - destruct (IH j Hj) as (c & d & H). exists c, d.
    replace (2 * S j)%nat with (S (S (2 * j))) by lia. done.
Qed.

(** *** Construction *)

Lemma next_level_from l pre i :
  length pre = (i * 2)%nat →
  (hs ← level_pairs (length l / 2) i (pre ++ l);
   if Nat.odd (length (pre ++ l)) then
     c ← index (pre ++ l) (length (pre ++ l) - 1);
     Ok (hs ++ [node_hash c c])
   else Ok hs) = Ok (pair_dup l).
Proof.
  revert pre i. induction l as [|a|a b l IH] using two_ind; intros pre i Hp.
  - cbn. rewrite app_nil_r, Hp, Nat.odd_mul, andb_false_r. done.
  - cbn [length Nat.div Nat.divmod fst level_pairs mbind outcome_bind]. rewrite length_app. cbn [length].
    rewrite (Nat.add_comm (length pre)), Nat.odd_succ, Hp, Nat.even_mul, orb_true_r.
    unfold index. rewrite list_lookup_middle by lia. done.
  - replace (length (a :: b :: l) / 2)%nat with (S (length l / 2)).
    2:{ cbn [length]. replace (S (S (length l))) with (1 * 2 + length l)%nat by lia.
        rewrite Nat.div_add_l by lia. lia. }
    cbn [level_pairs]. rewrite (proj2 (index_Ok _ (i * 2) a)) by (apply list_lookup_middle; lia).
    cbn [mbind outcome_bind].
    rewrite cons_middle, app_assoc.
    rewrite (proj2 (index_Ok _ (i * 2 + 1) b)) by (apply list_lookup_middle; rewrite length_app; cbn; lia).
    cbn [mbind outcome_bind]. rewrite cons_middle, app_assoc.
    specialize (IH ((pre ++ [a]) ++ [b]) (S i)).
    destruct (level_pairs _ (S i) _) as [hs|e]; cbn [mbind outcome_bind] in *.
    + cbn [pair_dup]. rewrite !length_app in IH. cbn [length] in IH. specialize (IH ltac:(lia)).
      rewrite !length_app. cbn [length]. destruct (Nat.odd _); [|by injection IH as ->].
      destruct (index _ _); cbn in *; [|done]. by injection IH as <-.
    + rewrite !length_app in IH. cbn in IH. specialize (IH ltac:(lia)). done.
Qed.

Lemma next_level_pair_dup l : next_level l (length l) = Ok (pair_dup l).
Proof. apply (next_level_from l [] 0). done. Qed.

Lemma tree_loop_levels fuel pre l :
  (0 < length l ≤ fuel)%nat →
  ∃ ls, levels l ls ∧
    tree_loop fuel (pre ++ [l]) (length pre + 1) (length l) = Ok (pre ++ ls).
Proof.
  revert pre l. induction fuel as [|fuel IH]; intros pre l Hl; [lia|]. cbn [tree_loop].
  destruct (1 <? length l)%nat eqn:E.
  - apply Nat.ltb_lt in E. rewrite Nat.add_sub.
    rewrite (proj2 (index_Ok _ _ l)) by by apply list_lookup_middle.
    cbn [mbind outcome_bind]. rewrite next_level_pair_dup. cbn [mbind outcome_bind].
    rewrite <- pair_dup_length. destruct (IH (pre ++ [l]) (pair_dup l)) as (ls & Hls & Ht).
    { rewrite pair_dup_length. pose proof (Nat.div_mod (length l + 1) 2).
      pose proof (Nat.mod_upper_bound (length l + 1) 2). lia. }
    exists (l :: ls). split; [by apply levels_up|].
    rewrite length_app in Ht. cbn [length] in Ht. rewrite Ht. by rewrite <- app_assoc.
  - apply Nat.ltb_ge in E. destruct l as [|x [|y l]]; cbn in *; [lia| |lia].
    exists [[x]]. split; [constructor|done].
Qed.

Lemma new_levels l :
  l ≠ [] → ∃ ls, levels l ls ∧ BitcoinMerkleTree_new l = Ok (mkTree ls).
Proof.
  intros Hne. unfold BitcoinMerkleTree_new. destruct (length l =? 1)%nat eqn:E.
  - apply Nat.eqb_eq in E. destruct l as [|x [|y l]]; try done.
    exists [[x]]. split; [constructor|done].
  - destruct (tree_loop_levels (length l) [] l) as (ls & Hls & Ht); [destruct l; cbn in *; [done|lia]|].
    exists ls. cbn in Ht. by rewrite Ht.
Qed.

Lemma levels_head l ls : levels l ls → ∃ ls', ls = l :: ls'.
Proof. destruct 1; eauto. Qed.

Lemma levels_root_index l ls : levels l ls → ∃ root, tree_root (mkTree ls) = Ok root ∧ last ls = Some [root].
Proof.
  intros H. assert (∃ root, last ls = Some [root]) as (root & Hr).
  { induction H as [x|l ls Hl H (root & IH)]; [by exists x|]. exists root. by destruct ls. }
  exists root. split; [|done]. unfold tree_root, index. cbn [tree_nodes].
  rewrite last_lookup, <- Nat.sub_1_r in Hr. by rewrite Hr.
Qed.

Lemma levels_suffix l ls j l' : levels l ls → ls !! j = Some l' → levels l' (drop j ls).
Proof.
  intros H. revert j. induction H as [x|l ls Hl H IH]; intros [|j] Hj; cbn in Hj |- *.
  - injection Hj as <-. constructor.
  - done.
  - injection Hj as <-. by constructor.
  - by apply IH.
Qed.

(** *** Paths *)

Lemma pair_dup_above l i :
  0 ≤ i → (Z.to_nat i < length l)%nat → is_Some (pair_dup l !! Z.to_nat (i / 2)).
Proof.
  intros Hi Hlt. apply lookup_lt_is_Some_2. rewrite pair_dup_length.
  pose proof (Z.div_mod i 2). pose proof (Z.mod_pos_bound i 2).
  pose proof (Nat.div_mod (length l + 1) 2).
  pose proof (Nat.mod_upper_bound (length l + 1) 2). lia.
Qed.

(** The sibling found on the way up completes the pair. *)
Lemma sibling_up l i x :
  0 ≤ i → Z.of_nat (length l) < u32_modulus → l !! Z.to_nat i = Some x →
  ∃ s h,
    (if i mod 2 =? 1 then index l (Z.to_nat (i - 1))
     else if Z.of_nat (length l - 1) mod u32_modulus =? i then index l (Z.to_nat i)
     else index l (Z.to_nat (i + 1))) = Ok s ∧
    pair_dup l !! Z.to_nat (i / 2) = Some h ∧
    (if i mod 2 =? 0 then node_hash x s else node_hash s x) = h.
Proof.
  intros Hi Hn Hx. pose proof (lookup_lt_Some _ _ _ Hx) as Hlt.
  pose proof (Z.div_mod i 2). pose proof (Z.mod_pos_bound i 2).
  destruct (pair_dup_above l i Hi Hlt) as (h & Hh).
  destruct (pair_dup_lookup _ _ _ Hh) as (a & b & Ha & -> & Hb).
  rewrite (Z.mod_small (Z.of_nat _)) by lia.
  destruct (decide (i mod 2 = 1)) as [Ho|Ho].
  - rewrite (proj2 (Z.eqb_eq _ _) Ho), (proj2 (Z.eqb_neq (i mod 2) 0)) by lia.
    replace (Z.to_nat i) with (2 * Z.to_nat (i / 2) + 1)%nat in Hx by lia.
    exists a, (node_hash a b). split; [apply index_Ok; rewrite <- Ha; f_equal; lia|].
    split; [done|]. destruct Hb as [Hb|[Hb _]]; congruence.
  - rewrite (proj2 (Z.eqb_neq _ _) Ho), (proj2 (Z.eqb_eq (i mod 2) 0)) by lia.
    replace (Z.to_nat i) with (2 * Z.to_nat (i / 2))%nat in Hx by lia.
    assert (a = x) as -> by congruence. exists b, (node_hash x b). split; [|done].
    destruct (_ =? i) eqn:E; brefl; apply index_Ok; destruct Hb as [Hb|[Hb ->]].
    + apply lookup_lt_Some in Hb. lia.
    + rewrite <- Hx. f_equal. lia.
    + rewrite <- Hb. f_equal. lia.
    + apply lookup_ge_None in Hb. lia.
Qed.

Lemma pair_dup_shorter l : (2 ≤ length l)%nat → (length (pair_dup l) < length l)%nat.
Proof.
  intros Hl. rewrite pair_dup_length. pose proof (Nat.div_mod (length l + 1) 2).
  pose proof (Nat.mod_upper_bound (length l + 1) 2). lia.
Qed.

Lemma path_up_cons l ls i :
  ls ≠ [] →
  path_up (l :: ls) i =
    (sibling ←
       (if i mod 2 =? 1 then index l (Z.to_nat (i - 1))
        else if Z.of_nat (length l - 1) mod u32_modulus =? i then index l (Z.to_nat i)
        else index l (Z.to_nat (i + 1)));
     path ← path_up ls (i / 2);
     Ok (sibling :: path)).
Proof. by destruct ls. Qed.

Lemma path_up_root l ls root i x :
  levels l ls → last ls = Some [root] → Z.of_nat (length l) < u32_modulus →
  0 ≤ i → l !! Z.to_nat i = Some x →
  ∃ path, path_up ls i = Ok path ∧ S (length path) = length ls ∧ root_loop i path x = root.
Proof.
  intros H. revert i x. induction H as [y|l ls Hl H IH]; intros i x Hr Hn Hi Hx.
  - exists []. injection Hr as <-. split_and!; [done..|].
    destruct (Z.to_nat i); [by injection Hx|done].
  - destruct (levels_head _ _ H) as (ls' & ->). rewrite path_up_cons by done.
    destruct (sibling_up l i x Hi Hn Hx) as (s & h & -> & Hh & Hxs).
    pose proof (pair_dup_shorter l Hl).
    destruct (IH (i / 2) h) as (path & Hp & Hpl & Hroot); [done|lia|by apply Z.div_pos|done|].
    cbn [mbind outcome_bind]. rewrite Hp. exists (s :: path). cbn. rewrite Hxs.
    split_and!; [done|cbn in Hpl; lia|done].
Qed.

(** A path as long as the tree is deep starts at a leaf... *)
Lemma root_loop_leaf l ls root i path x :
  levels l ls → last ls = Some [root] → 0 ≤ i → S (length path) = length ls →
  root_loop i path x = root → x ∈ l ∨ collision.
Proof.
  intros H. revert i path x. induction H as [y|l ls Hl H IH]; intros i path x Hr Hi Hp Hx.
  - destruct path; [|done]. injection Hr as <-. cbn in Hx. subst. left. by apply list_elem_of_singleton.
  - destruct path as [|s path]; [by destruct (levels_head _ _ H) as (? & ->)|]. cbn in Hp, Hx.
    edestruct (IH (i / 2) path) as [Hin|];
      [by destruct ls|by apply Z.div_pos|lia|exact Hx| |by right].
    apply list_elem_of_lookup in Hin as (j & (a & b & Ha & Hh & Hb)%pair_dup_lookup).
    assert (b ∈ l) as Hbl by (destruct Hb as [Hb|[_ ->]]; eapply list_elem_of_lookup_2; eauto).
    apply list_elem_of_lookup_2 in Ha.
    destruct (i mod 2 =? 0); apply node_hash_binds in Hh as [[-> ->]|]; auto.
Qed.

(** ... and at the leaf of its index, where the index names one. *)
Lemma root_loop_index l ls root i path x y :
  levels l ls → last ls = Some [root] → 0 ≤ i → S (length path) = length ls →
  root_loop i path x = root → l !! Z.to_nat i = Some y → y = x ∨ collision.
Proof.
  intros H. revert i path x y. induction H as [z|l ls Hl H IH]; intros i path x y Hr Hi Hp Hx Hy.
  - destruct path; [|done]. injection Hr as <-. cbn in Hx. subst. left.
    destruct (Z.to_nat i); [by injection Hy|done].
  - destruct path as [|s path]; [by destruct (levels_head _ _ H) as (? & ->)|]. cbn in Hp, Hx.
    pose proof (Z.div_mod i 2). pose proof (Z.mod_pos_bound i 2).
    destruct (pair_dup_above l i Hi (lookup_lt_Some _ _ _ Hy)) as (h & Hh).
    edestruct (λ x, IH (i / 2) path x h) as [Heq|];
      [by destruct ls|by apply Z.div_pos|lia|exact Hx|done| |by right].
    destruct (pair_dup_lookup _ _ _ Hh) as (a & b & Ha & Hn & Hb). rewrite Heq in Hn.
    destruct (i mod 2 =? 0) eqn:E; brefl; apply node_hash_binds in Hn as [[-> ->]|]; auto; left.
    + replace (Z.to_nat i) with (2 * Z.to_nat (i / 2))%nat in Hy by lia. congruence.
    + replace (Z.to_nat i) with (2 * Z.to_nat (i / 2) + 1)%nat in Hy by lia.
      destruct Hb as [Hb|[Hb _]]; congruence.
Qed.

Lemma levels_depth l ls : levels l ls → (length ls ≤ length l)%nat.
Proof.
  induction 1 as [x|l ls Hl H IH]; cbn; [lia|]. pose proof (pair_dup_shorter l Hl). lia.
Qed.

Lemma get_root_loop i path x :
  Z.of_nat (length path) < u32_modulus → get_root (mkBlockProof i path) x = root_loop i path x.
Proof.
  intros H. unfold get_root. cbn [idx merkle_proof].
  by rewrite Z.mod_small, Nat2Z.id, take_ge by lia.
Qed.

Lemma tree_proofs (txids : list hash32) :
  txids ≠ [] → Z.of_nat (length txids) < u32_modulus →
  ∃ tree root,
    BitcoinMerkleTree_new txids = Ok tree ∧ tree_root tree = Ok root ∧
    tree_nodes tree !! 0%nat = Some txids ∧
    ∀ (i : nat) txid, txids !! i = Some txid →
      ∃ path, let proof := mkBlockProof (Z.of_nat i) path in
      tree_generate_proof tree (Z.of_nat i) = Ok proof ∧
      S (length path) = length (tree_nodes tree) ∧
      verify_merkle_proof txid proof root = true.
Proof.
  intros Hne Hn. destruct (new_levels txids Hne) as (ls & Hls & Ht).
  destruct (levels_root_index _ _ Hls) as (root & Hr & Hlast).
  destruct (levels_head _ _ Hls) as (ls' & Els).
  exists (mkTree ls), root. split_and!; [done|done|by rewrite Els|].
  intros i txid Hi. pose proof (lookup_lt_Some _ _ _ Hi) as Hlt.
  destruct (path_up_root _ _ _ (Z.of_nat i) txid Hls Hlast Hn) as (path & Hp & Hl & Hx);
    [lia|by rewrite Nat2Z.id|].
  pose proof (levels_depth _ _ Hls). exists path. split_and!; [|done|].
  2:{ apply bool_decide_eq_true_2. rewrite get_root_loop by lia. done. }
  unfold tree_generate_proof, get_idx_path, index. cbn [tree_nodes].
  assert (ls !! 0%nat = Some txids) as -> by by rewrite Els. cbn [expect mbind outcome_bind].
  rewrite Z.mod_small by lia. rewrite (proj2 (Z.ltb_lt _ _)) by lia. cbn. by rewrite Hp.
Qed.

Lemma tree_verify_sound (txids : list hash32) tree root txid proof k :
  Z.of_nat (length txids) < u32_modulus →
  BitcoinMerkleTree_new txids = Ok tree → tree_root tree = Ok root →
  0 ≤ idx proof → (length (merkle_proof proof) + k + 1 = length (tree_nodes tree))%nat →
  verify_merkle_proof txid proof root = true →
  (∃ level, tree_nodes tree !! k = Some level ∧ (k = 0%nat → level = txids) ∧ txid ∈ level ∧
     (Z.to_nat (idx proof) < length level → level !! Z.to_nat (idx proof) = Some txid)%nat) ∨
  collision.
Proof.
  intros Hn Hnew Hroot Hi Hk Hv. destruct (decide (txids = [])) as [->|Hne].
  { by injection Hnew as <-. }
  destruct (new_levels txids Hne) as (ls & Hls & Ht). rewrite Ht in Hnew. injection Hnew as <-.
  destruct (levels_root_index _ _ Hls) as (root' & Hr & Hlast).
  rewrite Hr in Hroot. injection Hroot as ->. cbn [tree_nodes] in *.
  destruct (levels_head _ _ Hls) as (ls' & Els). pose proof (levels_depth _ _ Hls).
  destruct (lookup_lt_is_Some_2 ls k) as (level & Hlevel); [lia|].
  pose proof (levels_suffix _ _ _ _ Hls Hlevel) as Hsub.
  assert (last (drop k ls) = Some [root]) as Hl'.
  { rewrite last_lookup, lookup_drop, length_drop in *. rewrite <- Hlast. f_equal. lia. }
  assert (S (length (merkle_proof proof)) = length (drop k ls)) as Hpath
    by (rewrite length_drop; lia).
  destruct proof as [i path]. apply bool_decide_eq_true_1 in Hv. cbn [idx merkle_proof] in *.
  rewrite get_root_loop in Hv by lia.
  destruct (root_loop_leaf _ _ _ _ _ _ Hsub Hl' Hi Hpath Hv) as [Hin|]; [|by right].
  destruct (decide (Z.to_nat i < length level)%nat) as [Hlt|Hge].
  - destruct (lookup_lt_is_Some_2 level (Z.to_nat i) Hlt) as (y & Hy).
    destruct (root_loop_index _ _ _ _ _ _ _ Hsub Hl' Hi Hpath Hv Hy) as [->|]; [|by right].
    left. exists level. split_and!; [done| |done|done]. intros ->. rewrite Els in Hlevel. by injection Hlevel.
  - left. exists level. split_and!; [done| |done|lia]. intros ->. rewrite Els in Hlevel. by injection Hlevel.
Qed.

(** ** Correctness *)

(** Every transaction of a block has an inclusion proof.  From a non-empty
    list of transaction ids the construction terminates without panicking, the
    tree has a root, and the proof generated for each position makes
    [verify_merkle_proof] accept the id at that position; it has one sibling per
    level below the root. *)
Theorem merkle_proofs_complete (txids : list hash32) :
  txids ≠ [] → Z.of_nat (length txids) < u32_modulus →
  ∃ tree root,
    BitcoinMerkleTree_new txids = Ok tree ∧ tree_root tree = Ok root ∧
    tree_nodes tree !! 0%nat = Some txids ∧
    ∀ (i : nat) txid, txids !! i = Some txid →
      ∃ path, let proof := mkBlockProof (Z.of_nat i) path in
      tree_generate_proof tree (Z.of_nat i) = Ok proof ∧
      S (length path) = length (tree_nodes tree) ∧
      verify_merkle_proof txid proof root = true.
Proof. apply tree_proofs. Qed.

(** What an accepted inclusion proof authenticates.  A proof with [k]
    siblings that [verify_merkle_proof] accepts against the root of a block's
    tree shows that the id is a node of the level [k] below the root, the node at
    the proof's index where the level has one -- a transaction of the block when
    [k] is the depth of the tree -- or it exhibits a SHA-256 collision.  The code
    does not fix [k]. *)
Theorem merkle_proofs_sound (txids : list hash32) tree root txid proof k :
  Z.of_nat (length txids) < u32_modulus →
  BitcoinMerkleTree_new txids = Ok tree → tree_root tree = Ok root →
  0 ≤ idx proof → (length (merkle_proof proof) + k + 1 = length (tree_nodes tree))%nat →
  verify_merkle_proof txid proof root = true →
  (∃ level, tree_nodes tree !! k = Some level ∧ (k = 0%nat → level = txids) ∧ txid ∈ level ∧
     (Z.to_nat (idx proof) < length level → level !! Z.to_nat (idx proof) = Some txid)%nat) ∨
  collision.
Proof. apply tree_verify_sound. Qed.

End Tree.

#[local] Existing Instance sha256_exec.

Definition sample_txids : list hash32 := [sha256 []; sha256 [Byte.x01]; sha256 [Byte.x02]].
Definition sample_tree : BitcoinMerkleTree :=
  match BitcoinMerkleTree_new sample_txids with Ok t => t | Err _ => mkTree [] end.
Definition sample_root : hash32 :=
  match tree_root sample_tree with Ok r => r | Err _ => zero32 end.
Definition sample_tx_proof : BlockInclusionProof :=
  match tree_generate_proof sample_tree 2 with Ok p => p | Err _ => mkBlockProof 0 [] end.

Lemma merkle_proofs_complete_witness :
  ∃ tree root, BitcoinMerkleTree_new sample_txids = Ok tree ∧ tree_root tree = Ok root.
Proof.
  destruct (merkle_proofs_complete sample_txids) as (t & r & H1 & H2 & _); [done|done|].
  by exists t, r.
Defined.

Lemma merkle_proofs_sound_witness :
  (∃ level, tree_nodes sample_tree !! 0%nat = Some level ∧ sha256 [Byte.x02] ∈ level) ∨ collision.
Proof.
  destruct (merkle_proofs_sound sample_txids sample_tree sample_root (sha256 [Byte.x02])
              sample_tx_proof 0) as [(level & H1 & _ & H2 & _)|H]; [by vm_compute..|left|by right].
  by exists level.
Defined.
