(* ===== verification/HeaderChain.v ===== *)
(** * The header chain

    Source: circuits/crates/header-chain/src/header_chain.rs.  [apply_blocks]
    extends a chain state by a batch of block headers, panicking on the first
    header that breaks a consensus rule.  The network is fixed when the circuit
    is built; Bitcoin's retarget formula ([CompactTarget::from_next_work_required]
    of crate [bitcoin]) is a parameter. *)

From Stdlib Require Import Init.Byte.
From stdpp Require Import base list vector strings sorting.
From S2P Require Import Prelude Bytes Mmr.

Local Open Scope Z_scope.

(** ** Networks *)

Inductive Network := Bitcoin | Testnet4 | Signet | Regtest.

#[export] Instance Network_eq_dec : EqDecision Network.
Proof. solve_decision. Defined.

(** The build's network, from the environment variable [BITCOIN_NETWORK]. *)
Definition network_of_env (v : option string) : outcome Network :=
  match v with
  | None => Ok Bitcoin
  | Some n =>
      if decide (n = "mainnet") then Ok Bitcoin
      else if decide (n = "testnet4") then Ok Testnet4
      else if decide (n = "signet") then Ok Signet
      else if decide (n = "regtest") then Ok Regtest
      else Err ["Invalid network type"]
  end.

Class BuildNetwork := NETWORK : Network.

(** [CompactTarget::from_next_work_required(last, timespan, Params::new(network))],
    on consensus-encoded targets. *)
Class NextWork := from_next_work_required : Z → Z → Network → Z.

Record NetworkConstants `{U256} := mkConstants {
  max_bits : Z;
  max_target : u256;
  max_target_bytes : hash32;
}.

(** ** Headers and chain states *)

Record CircuitBlockHeader := mkHeader {
  version : Z;
  prev_block_hash : hash32;
  merkle_root : hash32;
  time : Z;
  bits : Z;
  nonce : Z;
}.

#[export] Instance CircuitBlockHeader_eq_dec : EqDecision CircuitBlockHeader.
Proof. solve_decision. Defined.

Record ChainState := mkChain {
  block_height : Z;
  total_work : hash32;
  best_block_hash : hash32;
  current_target_bits : Z;
  epoch_start_time : Z;
  prev_11_timestamps : list Z;
  block_hashes_mmr : MMRGuest;
}.

#[export] Instance ChainState_eta : Eta ChainState := λ c,
  mkChain (block_height c) (total_work c) (best_block_hash c) (current_target_bits c)
    (epoch_start_time c) (prev_11_timestamps c) (block_hashes_mmr c).

Definition BLOCKS_PER_EPOCH : Z := 2016.

Section Chain.
Context `{SHA : Sha256} `{OC : OverflowChecks} `{U : U256} `{BN : BuildNetwork} `{NW : NextWork}.

Definition IS_REGTEST : bool := bool_decide (NETWORK = Regtest).
Definition IS_TESTNET4 : bool := bool_decide (NETWORK = Testnet4).

Definition from_be_hex (s : string) : u256 := from_be_bytes (hex32 s).

Definition MINIMUM_WORK_TESTNET : u256 :=
  from_be_hex "0000000000000000000000000000000000000000000000000000000100010001".

Definition NETWORK_CONSTANTS : NetworkConstants :=
  match NETWORK with
  | Signet => {|
      max_bits := 0x1E0377AE;
      max_target := from_be_hex "00000377AE000000000000000000000000000000000000000000000000000000";
      max_target_bytes := hex32 "00000377ae000000000000000000000000000000000000000000000000000000";
    |}
  | Regtest => {|
      max_bits := 0x207FFFFF;
      max_target := from_be_hex "7FFFFF0000000000000000000000000000000000000000000000000000000000";
      max_target_bytes := hex32 "7fffff0000000000000000000000000000000000000000000000000000000000";
    |}
  | Testnet4 | Bitcoin => {|
      max_bits := 0x1D00FFFF;
      max_target := from_be_hex "00000000FFFF0000000000000000000000000000000000000000000000000000";
      max_target_bytes := hex32 "00000000ffff0000000000000000000000000000000000000000000000000000";
    |}
  end.

Definition header_preimage (h : CircuitBlockHeader) : list byte :=
  le_bytes 4 (version h) ++ vec_to_list (prev_block_hash h) ++ vec_to_list (merkle_root h) ++
  le_bytes 4 (time h) ++ le_bytes 4 (bits h) ++ le_bytes 4 (nonce h).

Definition compute_block_hash (h : CircuitBlockHeader) : hash32 :=
  sha256 (vec_to_list (sha256 (header_preimage h))).

Definition ChainState_new : ChainState := {|
  block_height := u32_max;
  total_work := zero32;
  best_block_hash := zero32;
  current_target_bits := max_bits NETWORK_CONSTANTS;
  epoch_start_time := 0;
  prev_11_timestamps := replicate 11 0;
  block_hashes_mmr := MMRGuest_new;
|}.

(** ** The rules *)

Definition median (arr : list Z) : outcome Z := index (merge_sort Z.le arr) 5.

Definition validate_timestamp (block_time : Z) (prev_11 : list Z) : outcome bool :=
  median_time ← median prev_11;
  Ok (median_time <? block_time).

Definition bits_to_target (b : Z) : outcome hash32 :=
  let size := Z.shiftr b 24 in
  let mantissa := Z.land b 0x00ffffff in
  target ←
    (if size <=? 3 then Ok (u256_from_u32 (Z.shiftr mantissa (8 * (3 - size))))
     else u256_shl (u256_from_u32 mantissa) (8 * (size - 3)));
  Ok (to_be_bytes target).

Definition calculate_new_difficulty (epoch_start last_timestamp current_target : Z) : Z :=
  let actual_timespan := u32_saturating_sub last_timestamp epoch_start in
  from_next_work_required current_target actual_timespan NETWORK.

(** The loop of [check_hash_valid]: the hash's bytes last first, the target's
    first first. *)
Fixpoint hash_check_loop (hash target : list byte) : outcome unit :=
  match hash, target with
  | h :: hash, t :: target =>
      if byte_val h <? byte_val t then Ok tt
      else if byte_val t <? byte_val h then Err ["Hash is not valid"]
      else hash_check_loop hash target
  | _, _ => Ok tt
  end.

Definition check_hash_valid (hash target : hash32) : outcome unit :=
  hash_check_loop (reverse (vec_to_list hash)) (vec_to_list target).

Definition calculate_work (target : hash32) : u256 :=
  let target_plus_one := u256_saturating_add (from_be_bytes target) u256_ONE in
  u256_wrapping_div u256_MAX target_plus_one.

(** ** Applying headers *)

(** The locals of [apply_blocks] beside [self]. *)
Record Cursor := mkCursor {
  chain : ChainState;
  current_target_bytes : hash32;
  current_work : u256;
  last_block_time : Z;
}.

(** The locals before the first header. *)
Definition start_cursor (self : ChainState) : outcome Cursor :=
  target ← (if IS_REGTEST then Ok (to_be_bytes (max_target NETWORK_CONSTANTS))
            else bits_to_target (current_target_bits self));
  last ← (if IS_TESTNET4 then
            if block_height self =? u32_max then Ok 0
            else index (prev_11_timestamps self) (Z.to_nat (block_height self mod 11))
          else Ok 0);
  Ok (mkCursor self target (from_be_bytes (total_work self)) last).

(** Target, bits and work of a block at [height]; testnet4 lets a block that is
    twenty minutes late, other than an epoch's first, use the minimum difficulty. *)
Definition block_rule (target : hash32) (current_bits last_time height block_time : Z)
    : outcome (hash32 * Z * u256) :=
  let regular := (target, current_bits, calculate_work target) in
  if IS_TESTNET4 then
    limit ← u32_add last_time 1200;
    if limit <? block_time then
      if height mod BLOCKS_PER_EPOCH =? 0 then Ok regular
      else Ok (max_target_bytes NETWORK_CONSTANTS, max_bits NETWORK_CONSTANTS, MINIMUM_WORK_TESTNET)
    else Ok regular
  else Ok regular.

(** One iteration of the loop. *)
Definition apply_block (c : Cursor) (h : CircuitBlockHeader) : outcome Cursor :=
  let self := chain c in
  let height := u32_wrapping_add (block_height self) 1 in
  '(target_to_use, expected_bits, work_to_add) ←
    block_rule (current_target_bytes c) (current_target_bits self) (last_block_time c)
      height (time h);
  let new_block_hash := compute_block_hash h in
  _ ← require (bool_decide (prev_block_hash h = best_block_hash self)) "prev_block_hash";
  _ ← require (if IS_REGTEST then bits h =? max_bits NETWORK_CONSTANTS
               else bits h =? expected_bits) "bits";
  _ ← check_hash_valid new_block_hash target_to_use;
  valid_time ← validate_timestamp (time h) (prev_11_timestamps self);
  _ ← require valid_time "Timestamp is not valid";
  mmr ← MMRGuest_append (block_hashes_mmr self) new_block_hash;
  let work := u256_wrapping_add (current_work c) work_to_add in
  let epoch_start :=
    if negb IS_REGTEST && (height mod BLOCKS_PER_EPOCH =? 0) then time h
    else epoch_start_time self in
  _ ← index (prev_11_timestamps self) (Z.to_nat (height mod 11));
  let ring := <[Z.to_nat (height mod 11) := time h]> (prev_11_timestamps self) in
  let last := if IS_TESTNET4 then time h else last_block_time c in
  let self' := {|
    block_height := height;
    total_work := total_work self;
    best_block_hash := new_block_hash;
    current_target_bits := current_target_bits self;
    epoch_start_time := epoch_start;
    prev_11_timestamps := ring;
    block_hashes_mmr := mmr;
  |} in
  if negb IS_REGTEST && (height mod BLOCKS_PER_EPOCH =? BLOCKS_PER_EPOCH - 1) then
    let new_bits := calculate_new_difficulty epoch_start (time h) (current_target_bits self) in
    target ← bits_to_target new_bits;
    Ok (mkCursor (self' <| current_target_bits := new_bits |>) target work last)
  else Ok (mkCursor self' (current_target_bytes c) work last).

(** After the last header. *)
Definition finish_cursor (c : Cursor) : outcome ChainState :=
  let self := (chain c) <| total_work := to_be_bytes (current_work c) |> in
  next ← expect (u32_checked_add (block_height self) 1) "invalid empty header chain state";
  _ ← require (size (block_hashes_mmr self) =? next)
        "header MMR size must equal block height plus one";
  Ok self.

Definition apply_blocks (self : ChainState) (block_headers : list CircuitBlockHeader)
    : outcome ChainState :=
  c ← start_cursor self;
  c ← for_each apply_block c block_headers;
  finish_cursor c.

End Chain.
