(* ===== verification/HeaderSpec.v ===== *)
(** * Valid header chains

    The consensus rules [apply_blocks] enforces, stated on the whole list of
    headers since genesis instead of on the running state: [valid_next hs b]
    says when [b] may follow the chain [hs], [summary hs s] which state the
    chain has.  The theorems show that the incremental code accepts exactly the
    valid chains, ends in their summary, and may be run batch by batch. *)

From Stdlib Require Import Init.Byte.
From stdpp Require Import base list vector strings sorting.
From S2P Require Import Prelude Bytes Mmr HeaderChain.

Local Open Scope Z_scope.

Section Spec.
Context `{SHA : Sha256} `{OC : OverflowChecks} `{UL : U256Laws} `{BN : BuildNetwork} `{NW : NextWork}.
Implicit Types (hs : list CircuitBlockHeader) (b : CircuitBlockHeader).

(** ** The rules *)

Definition len hs : Z := Z.of_nat (length hs).

Definition time_at hs (height : Z) : Z := from_option time 0 (hs !! Z.to_nat height).

Definition tip_hash hs : hash32 := from_option compute_block_hash zero32 (last hs).
Definition tip_time hs : Z := from_option time 0 (last hs).

(** The compact target of epoch [e]. *)
Fixpoint epoch_bits hs (e : nat) : Z :=
  match e with
  | O => max_bits NETWORK_CONSTANTS
  | S e =>
      calculate_new_difficulty (time_at hs (BLOCKS_PER_EPOCH * Z.of_nat e))
        (time_at hs (BLOCKS_PER_EPOCH * Z.of_nat e + BLOCKS_PER_EPOCH - 1)) (epoch_bits hs e)
  end.

(** Compact target and target of the block after [hs]. *)
Definition chain_bits hs : Z :=
  if IS_REGTEST then max_bits NETWORK_CONSTANTS
  else epoch_bits hs (Z.to_nat (len hs / BLOCKS_PER_EPOCH)).
Definition chain_target hs : outcome hash32 :=
  if IS_REGTEST then Ok (to_be_bytes (max_target NETWORK_CONSTANTS))
  else bits_to_target (chain_bits hs).

(** Testnet4's exception: a block more than twenty minutes after its parent. *)
Definition minimum_allowed hs b : bool :=
  IS_TESTNET4 && negb (len hs mod BLOCKS_PER_EPOCH =? 0) && (tip_time hs + 1200 <? time b).

Definition required_bits hs b : Z :=
  if minimum_allowed hs b then max_bits NETWORK_CONSTANTS else chain_bits hs.
Definition required_target hs b (target : hash32) : hash32 :=
  if minimum_allowed hs b then max_target_bytes NETWORK_CONSTANTS else target.

(** The last eleven timestamps; zeros stand for the blocks before genesis. *)
Definition window hs : list Z := drop (length hs) (replicate 11 0 ++ map time hs).
Definition median_time_past hs : Z := nth 5 (merge_sort Z.le (window hs)) 0.

Record valid_next hs b (target : hash32) : Prop := {
  vn_parent : prev_block_hash b = tip_hash hs;
  vn_bits : bits b = required_bits hs b;
  vn_pow : le_value (vec_to_list (compute_block_hash b)) ≤
             be_value (vec_to_list (required_target hs b target));
  vn_time : median_time_past hs < time b;
}.

Inductive valid_chain : list CircuitBlockHeader → Prop :=
| valid_nil : valid_chain []
| valid_snoc hs b target target' :
    valid_chain hs → chain_target hs = Ok target → valid_next hs b target →
    chain_target (hs ++ [b]) = Ok target' → valid_chain (hs ++ [b]).

(** ** The state of a chain *)

(** The work of a block: the number of hashes its target takes, rounded down. *)
Definition block_work hs b : Z :=
  if minimum_allowed hs b then 0x100010001
  else match chain_target hs with
       | Ok target => u256_val (calculate_work target)
       | Err _ => 0
       end.

Fixpoint work_from hs rest : Z :=
  match rest with
  | [] => 0
  | b :: rest => block_work hs b + work_from (hs ++ [b]) rest
  end.
Definition chain_work hs : Z := work_from [] hs.

(** The time of block [h] is at index [h mod 11]. *)
Definition ring hs : list Z := rotate (11 - length hs mod 11) (window hs).

Definition epoch_start hs : Z :=
  if IS_REGTEST then 0
  else if decide (hs = []) then 0
  else time_at hs (BLOCKS_PER_EPOCH * ((len hs - 1) / BLOCKS_PER_EPOCH)).

Record summary hs (s : ChainState) : Prop := {
  sum_height : block_height s = (len hs - 1) mod u32_modulus;
  sum_work : be_value (vec_to_list (total_work s)) = chain_work hs mod u256_modulus;
  sum_tip : best_block_hash s = tip_hash hs;
  sum_bits : current_target_bits s = chain_bits hs;
  sum_epoch : epoch_start_time s = epoch_start hs;
  sum_ring : prev_11_timestamps s = ring hs;
  sum_mmr : guest_of (map compute_block_hash hs) = Ok (block_hashes_mmr s);
}.

(** What the locals of the loop are after [hs]. *)
Record tracks hs (c : Cursor) : Prop := {
  tr_height : block_height (chain c) = (len hs - 1) mod u32_modulus;
  tr_tip : best_block_hash (chain c) = tip_hash hs;
  tr_bits : current_target_bits (chain c) = chain_bits hs;
  tr_epoch : epoch_start_time (chain c) = epoch_start hs;
  tr_ring : prev_11_timestamps (chain c) = ring hs;
  tr_mmr : guest_of (map compute_block_hash hs) = Ok (block_hashes_mmr (chain c));
  tr_target : chain_target hs = Ok (current_target_bytes c);
  tr_work : u256_val (current_work c) = chain_work hs mod u256_modulus;
  tr_last : last_block_time c = if IS_TESTNET4 then tip_time hs else 0;
}.

(** ** Proof of work *)

Lemma be_value_cons h l :
  be_value (h :: l) = byte_val h * 256 ^ Z.of_nat (length l) + be_value l.
Proof.
  unfold be_value. rewrite reverse_cons, le_value_app, length_reverse. cbn. lia.
Qed.

Lemma be_value_list_range l : 0 ≤ be_value l < 256 ^ Z.of_nat (length l).
Proof. unfold be_value. rewrite <- length_reverse. apply le_value_range. Qed.

Lemma hash_check_loop_Ok l t u :
  length l = length t → hash_check_loop l t = Ok u ↔ be_value l ≤ be_value t.
Proof.
  destruct u. revert t. induction l as [|h l IH]; intros [|x t] Hl; try done.
  cbn [hash_check_loop]. injection Hl as Hl. rewrite !be_value_cons, <- Hl.
  pose proof (be_value_list_range l). pose proof (be_value_list_range t) as Ht. rewrite <- Hl in Ht.
  destruct (byte_val h <? byte_val x) eqn:E1; brefl; [split; [nia|done]|].
  destruct (byte_val x <? byte_val h) eqn:E2; brefl; [split; [done|nia]|].
  rewrite IH by done. assert (byte_val h = byte_val x) as -> by lia. lia.
Qed.

(** A hash passes against a target exactly if the number it denotes, read as
    Bitcoin does least significant byte first, does not exceed the target. *)
Lemma check_hash_valid_Ok (hash target : hash32) u :
  check_hash_valid hash target = Ok u ↔
  le_value (vec_to_list hash) ≤ be_value (vec_to_list target).
Proof.
  unfold check_hash_valid.
  rewrite hash_check_loop_Ok by by rewrite length_reverse, !length_vec_to_list.
  unfold be_value at 1. by rewrite reverse_involutive.
Qed.

(** ** Timestamps *)

Lemma window_length hs : length (window hs) = 11%nat.
Proof. unfold window. rewrite length_drop, length_app, length_map, length_replicate. lia. Qed.

Lemma window_snoc hs b : window (hs ++ [b]) = tail (window hs) ++ [time b].
Proof.
  unfold window. rewrite length_app, map_app, app_assoc. cbn [length map].
  rewrite drop_app_le by (rewrite length_app, length_map, length_replicate; lia).
  f_equal. rewrite <- drop_drop. by destruct (drop (length hs) _).
Qed.

(** Overwriting the oldest entry of the rotated window. *)
Lemma rotate_window (w : list Z) (t : Z) (r : nat) :
  length w = 11%nat → (r < 11)%nat →
  rotate (11 - S r mod 11) (tail w ++ [t]) = <[r := t]> (rotate (11 - r) w).
Proof.
  intros Hw Hr. do 12 (destruct w as [|? w]; try discriminate Hw).
  do 11 (destruct r as [|r]; [reflexivity|]). lia.
Qed.

Lemma ring_snoc hs b : ring (hs ++ [b]) = <[(length hs mod 11)%nat := time b]> (ring hs).
Proof.
  unfold ring. rewrite window_snoc, length_app, Nat.add_1_r.
  rewrite <- rotate_window; [|apply window_length|by apply Nat.mod_upper_bound].
  f_equal. f_equal. rewrite <- (Nat.add_1_r (length hs)), <- (Nat.add_1_r (length hs mod 11)).
  by rewrite Nat.Div0.add_mod_idemp_l.
Qed.

Lemma ring_window hs : ring hs ≡ₚ window hs.
Proof.
  unfold ring, rotate. by rewrite (comm (++)), take_drop.
Qed.

Lemma ring_length hs : length (ring hs) = 11%nat.
Proof. by rewrite ring_window, window_length. Qed.

Lemma merge_sort_permutation (l l' : list Z) :
  l ≡ₚ l' → merge_sort Z.le l = merge_sort Z.le l'.
Proof.
  intros H. apply (StronglySorted_unique Z.le).
  - apply StronglySorted_merge_sort; apply _.
  - apply StronglySorted_merge_sort; apply _.
  - by rewrite !merge_sort_Permutation.
Qed.

Lemma validate_ring hs (t : Z) : validate_timestamp t (ring hs) = Ok (median_time_past hs <? t).
Proof.
  unfold validate_timestamp, median, median_time_past.
  rewrite (merge_sort_permutation _ _ (ring_window hs)).
  assert (length (merge_sort Z.le (window hs)) = 11%nat) as Hl
    by by rewrite merge_sort_Permutation, window_length.
  destruct (lookup_lt_is_Some_2 (merge_sort Z.le (window hs)) 5) as (m & Hm); [lia|].
  unfold index. rewrite Hm. cbn. by rewrite (nth_lookup_Some _ _ 0 _ Hm).
Qed.

(** ** Difficulty *)

Lemma len_snoc hs b : len (hs ++ [b]) = len hs + 1.
Proof. unfold len. rewrite length_app. cbn. lia. Qed.

Lemma len_nonneg hs : 0 ≤ len hs.
Proof. unfold len. lia. Qed.

Lemma time_at_prefix hs b h : 0 ≤ h < len hs → time_at (hs ++ [b]) h = time_at hs h.
Proof. unfold time_at, len. intros Hh. f_equal. apply lookup_app_l. lia. Qed.

Lemma time_at_last hs b : time_at (hs ++ [b]) (len hs) = time b.
Proof. unfold time_at, len. by rewrite Nat2Z.id, list_lookup_middle. Qed.

Lemma epoch_bits_prefix hs b e :
  BLOCKS_PER_EPOCH * Z.of_nat e ≤ len hs → epoch_bits (hs ++ [b]) e = epoch_bits hs e.
Proof.
  unfold BLOCKS_PER_EPOCH. induction e as [|e IH]; intros H; [done|]. cbn [epoch_bits].
  unfold BLOCKS_PER_EPOCH. rewrite IH, !time_at_prefix by lia. done.
Qed.

Lemma epoch_start_snoc hs b :
  epoch_start (hs ++ [b]) =
    if negb IS_REGTEST && (len hs mod BLOCKS_PER_EPOCH =? 0) then time b else epoch_start hs.
Proof.
  unfold epoch_start. destruct IS_REGTEST; [done|]. cbn [negb andb].
  rewrite decide_False by (intros E; by apply app_nil in E as [_ ?]).
  rewrite len_snoc, Z.add_simpl_r. pose proof (len_nonneg hs).
  destruct (_ =? 0) eqn:E; brefl; unfold BLOCKS_PER_EPOCH in *.
  - replace (2016 * (len hs / 2016)) with (len hs) by (Z.div_mod_to_equations; lia).
    apply time_at_last.
  - rewrite decide_False by (intros ->; done).
    replace ((len hs - 1) / 2016) with (len hs / 2016) by (Z.div_mod_to_equations; lia).
    apply time_at_prefix. Z.div_mod_to_equations; lia.
Qed.

Lemma chain_bits_snoc hs b :
  chain_bits (hs ++ [b]) =
    if negb IS_REGTEST && (len hs mod BLOCKS_PER_EPOCH =? BLOCKS_PER_EPOCH - 1)
    then calculate_new_difficulty (epoch_start (hs ++ [b])) (time b) (chain_bits hs)
    else chain_bits hs.
Proof.
  unfold chain_bits, epoch_start. destruct IS_REGTEST; [done|]. cbn [negb andb].
  rewrite decide_False by (intros E; by apply app_nil in E as [_ ?]).
  rewrite len_snoc, Z.add_simpl_r. pose proof (len_nonneg hs).
  destruct (_ =? _) eqn:E; brefl.
  - replace (Z.to_nat ((len hs + 1) / BLOCKS_PER_EPOCH))
      with (S (Z.to_nat (len hs / BLOCKS_PER_EPOCH)))
      by (unfold BLOCKS_PER_EPOCH in *; Z.div_mod_to_equations; lia).
    cbn [epoch_bits]. rewrite Z2Nat.id by (unfold BLOCKS_PER_EPOCH; Z.div_mod_to_equations; lia).
    rewrite epoch_bits_prefix
      by (unfold BLOCKS_PER_EPOCH in *; Z.div_mod_to_equations; lia).
    replace (_ + BLOCKS_PER_EPOCH - 1) with (len hs)
      by (unfold BLOCKS_PER_EPOCH in *; Z.div_mod_to_equations; lia).
    by rewrite time_at_last.
  - replace ((len hs + 1) / BLOCKS_PER_EPOCH) with (len hs / BLOCKS_PER_EPOCH)
      by (unfold BLOCKS_PER_EPOCH in *; Z.div_mod_to_equations; lia).
    apply epoch_bits_prefix. unfold BLOCKS_PER_EPOCH in *; Z.div_mod_to_equations; lia.
Qed.

Lemma minimum_work_val : u256_val MINIMUM_WORK_TESTNET = 0x100010001.
Proof. unfold MINIMUM_WORK_TESTNET, from_be_hex. rewrite from_be_bytes_val. by vm_compute. Qed.

Lemma work_from_snoc pre hs b :
  work_from pre (hs ++ [b]) = work_from pre hs + block_work (pre ++ hs) b.
Proof.
  revert pre. induction hs as [|x hs IH]; intros pre; cbn.
  - rewrite app_nil_r. lia.
  - rewrite IH, <- app_assoc. cbn. lia.
Qed.

(** ** One header *)

Section Step.
Context (hs : list CircuitBlockHeader) (b : CircuitBlockHeader) (c : Cursor).
Context (Htr : tracks hs c).
Context (Hlen : len hs + 1 < u32_modulus) (Htime : tip_time hs + 1200 < u32_modulus).

Lemma step_height : u32_wrapping_add (block_height (chain c)) 1 = len hs.
Proof.
  rewrite (tr_height _ _ Htr). unfold u32_wrapping_add. rewrite Z.add_mod_idemp_l by done.
  rewrite Z.sub_add. apply Z.mod_small. pose proof (len_nonneg hs). lia.
Qed.

Lemma step_rule :
  ∃ w,
    block_rule (current_target_bytes c) (current_target_bits (chain c)) (last_block_time c)
      (len hs) (time b) =
      Ok (required_target hs b (current_target_bytes c), required_bits hs b, w) ∧
    u256_val w = block_work hs b.
Proof.
  unfold block_rule, required_target, required_bits, block_work, minimum_allowed.
  rewrite (tr_last _ _ Htr), (tr_bits _ _ Htr), (tr_target _ _ Htr).
  destruct IS_TESTNET4; cbn [andb]; [|eauto].
  rewrite u32_add_exact by done. cbn [mbind outcome_bind].
  destruct (_ =? 0); cbn [negb andb].
  - destruct (_ <? _); eauto.
  - destruct (_ <? _); [|eauto]. eexists. split; [done|]. apply minimum_work_val.
Qed.

Lemma step_bits :
  (if IS_REGTEST then bits b =? max_bits NETWORK_CONSTANTS else bits b =? required_bits hs b) =
  (bits b =? required_bits hs b).
Proof.
  unfold required_bits, minimum_allowed, chain_bits.
  destruct IS_REGTEST eqn:E; [|done].
  assert (IS_TESTNET4 = false) as ->; [|done].
  unfold IS_REGTEST, IS_TESTNET4 in *. brefl. apply bool_decide_eq_false_2. congruence.
Qed.

Lemma step_mmr : ∃ mmr,
  MMRGuest_append (block_hashes_mmr (chain c)) (compute_block_hash b) = Ok mmr ∧
  guest_of (map compute_block_hash (hs ++ [b])) = Ok mmr.
Proof.
  assert (Z.of_nat (length (map compute_block_hash (hs ++ [b]))) < u32_modulus) as Hn
    by (rewrite length_map, length_app; unfold len in *; cbn; lia).
  destruct (range_of _ Hn) as (ls & _ & _ & Hg). eexists. split; [|exact Hg].
  rewrite map_app in Hg. unfold guest_of in Hg. rewrite for_each_app in Hg.
  fold (guest_of (map compute_block_hash hs)) in Hg. rewrite (tr_mmr _ _ Htr) in Hg.
  cbn in Hg. destruct (MMRGuest_append _ _) eqn:E; cbn in Hg; [|done].
  by rewrite map_app.
Qed.

Lemma step_ring_index :
  ∃ t, index (prev_11_timestamps (chain c)) (Z.to_nat (len hs mod 11)) = Ok t.
Proof.
  rewrite (tr_ring _ _ Htr). destruct (lookup_lt_is_Some_2 (ring hs) (Z.to_nat (len hs mod 11))) as (t & Ht).
  - rewrite ring_length. pose proof (Z.mod_pos_bound (len hs) 11). lia.
  - exists t. by apply index_Ok.
Qed.

(** The loop accepts a header only if it may follow the chain... *)
Lemma apply_block_sound c' :
  apply_block c b = Ok c' →
  valid_next hs b (current_target_bytes c) ∧ tracks (hs ++ [b]) c'.
Proof.
  unfold apply_block. rewrite step_height.
  destruct step_rule as (w & -> & Hw). destruct step_mmr as (mmr & -> & Hm).
  destruct step_ring_index as (t & ->). cbn [mbind outcome_bind].
  rewrite step_bits, (tr_ring _ _ Htr), validate_ring, (tr_epoch _ _ Htr), (tr_bits _ _ Htr),
    (tr_tip _ _ Htr).
  rewrite <- epoch_start_snoc. intros H. ok_inv. brefl.
  match goal with H : check_hash_valid _ _ = Ok _ |- _ => apply check_hash_valid_Ok in H end.
  split; [by split|].
  assert (Z.to_nat (len hs mod 11) = (length hs mod 11)%nat) as Hi
    by (unfold len; by rewrite <- (Nat2Z.inj_mod _ 11), Nat2Z.id).
  rewrite Hi, <- ring_snoc in H.
  assert (u256_val (u256_wrapping_add (current_work c) w) =
            chain_work (hs ++ [b]) mod u256_modulus) as Hwork.
  { rewrite u256_wrapping_add_val, (tr_work _ _ Htr), Hw, Z.add_mod_idemp_l by done.
    unfold chain_work. by rewrite work_from_snoc. }
  assert (len hs = (len (hs ++ [b]) - 1) mod u32_modulus) as Hh.
  { rewrite len_snoc, Z.add_simpl_r, Z.mod_small; [done|]. pose proof (len_nonneg hs). lia. }
  assert ((if IS_TESTNET4 then time b else last_block_time c) =
          (if IS_TESTNET4 then tip_time (hs ++ [b]) else 0)) as Hlast.
  { unfold tip_time. rewrite last_snoc, (tr_last _ _ Htr). by destruct IS_TESTNET4. }
  pose proof (chain_bits_snoc hs b) as Hb.
  assert (tip_hash (hs ++ [b]) = compute_block_hash b) as Ht by (unfold tip_hash; by rewrite last_snoc).
  pose proof (tr_target _ _ Htr) as Htt. unfold chain_target in Htt.
  destruct (negb IS_REGTEST && _) eqn:E; ok_inv; split; cbn; try done; unfold chain_target.
  - apply andb_true_iff in E as [->%negb_true_iff _]. by rewrite Hb.
  - by rewrite Hb.
Qed.

(** ... and accepts it if it may. *)
Lemma apply_block_complete target' :
  valid_next hs b (current_target_bytes c) → chain_target (hs ++ [b]) = Ok target' →
  ∃ c', apply_block c b = Ok c'.
Proof.
  intros [Hp Hb Hw Ht] Htarget. unfold apply_block. rewrite step_height.
  destruct step_rule as (w & -> & _). destruct step_mmr as (mmr & -> & _).
  destruct step_ring_index as (t & ->). cbn [mbind outcome_bind].
  rewrite step_bits, (tr_ring _ _ Htr), validate_ring, (tr_epoch _ _ Htr), (tr_bits _ _ Htr),
    (tr_tip _ _ Htr), <- epoch_start_snoc.
  rewrite (bool_decide_eq_true_2 _ Hp), (proj2 (Z.eqb_eq _ _) Hb), (proj2 (Z.ltb_lt _ _) Ht).
  cbn [require mbind outcome_bind].
  rewrite (proj2 (check_hash_valid_Ok _ _ tt) Hw). cbn [mbind outcome_bind].
  destruct (negb IS_REGTEST && _) eqn:E; [|eauto].
  pose proof (chain_bits_snoc hs b) as Hc. rewrite E in Hc.
  apply andb_true_iff in E as [E%negb_true_iff _].
  unfold chain_target in Htarget. rewrite E, Hc in Htarget. rewrite Htarget. cbn. eauto.
Qed.

End Step.

(** ** Whole chains *)

Lemma bits_to_target_shifted size mantissa (target : hash32) :
  3 < size < 35 → 0 ≤ mantissa < 2 ^ 24 →
  be_value (vec_to_list target) = (mantissa * 2 ^ (8 * (size - 3))) mod u256_modulus →
  bits_to_target (size * 2 ^ 24 + mantissa) = Ok target.
Proof.
  intros Hs Hm Ht. unfold bits_to_target.
  assert (Z.shiftr (size * 2 ^ 24 + mantissa) 24 = size) as ->.
  { rewrite Z.shiftr_div_pow2, Z.div_add_l, (Z.div_small mantissa) by lia. lia. }
  change 0x00ffffff with (Z.ones 24). rewrite Z.land_ones by done.
  replace ((size * 2 ^ 24 + mantissa) mod 2 ^ 24) with mantissa.
  2:{ rewrite Z.add_comm, Z_mod_plus_full. symmetry. apply Z.mod_small. lia. }
  rewrite (proj2 (Z.leb_gt _ _)) by lia.
  destruct (u256_shl_val (u256_from_u32 mantissa) (8 * (size - 3))) as (y & -> & Hy); [lia|].
  cbn. f_equal. apply be_value_inj.
  rewrite to_be_bytes_val, Hy, u256_from_u32_val by (unfold u32_modulus; lia). congruence.
Qed.

(** The three spellings of a network's easiest target agree. *)
Lemma network_targets_agree :
  bits_to_target (max_bits NETWORK_CONSTANTS) = Ok (max_target_bytes NETWORK_CONSTANTS) ∧
  to_be_bytes (max_target NETWORK_CONSTANTS) = max_target_bytes NETWORK_CONSTANTS.
Proof.
  split.
  - unfold NETWORK_CONSTANTS. destruct NETWORK; cbn [max_bits max_target_bytes].
    + apply (bits_to_target_shifted 0x1D 0x00FFFF); [done|done|by vm_compute].
    + apply (bits_to_target_shifted 0x1D 0x00FFFF); [done|done|by vm_compute].
    + apply (bits_to_target_shifted 0x1E 0x0377AE); [done|done|by vm_compute].
    + apply (bits_to_target_shifted 0x20 0x7FFFFF); [done|done|by vm_compute].
  - apply be_value_inj. rewrite to_be_bytes_val. unfold NETWORK_CONSTANTS, from_be_hex.
    destruct NETWORK; cbn [max_target max_target_bytes]; rewrite from_be_bytes_val; by vm_compute.
Qed.

Lemma start_tracks : ∃ c, start_cursor ChainState_new = Ok c ∧ tracks [] c.
Proof.
  assert (chain_target [] = Ok (max_target_bytes NETWORK_CONSTANTS)) as Ht.
  { destruct network_targets_agree as [H1 H2]. unfold chain_target, chain_bits.
    destruct IS_REGTEST; [by rewrite H2|done]. }
  unfold start_cursor. cbn [current_target_bits ChainState_new prev_11_timestamps block_height total_work].
  replace (if IS_REGTEST then _ else _) with (Ok (max_target_bytes NETWORK_CONSTANTS)).
  2:{ rewrite <- Ht. unfold chain_target, chain_bits. by destruct IS_REGTEST. }
  replace (if IS_TESTNET4 then _ else _) with (@Ok Z 0) by by destruct IS_TESTNET4.
  eexists. split; [done|]. split; cbn; try done.
  - unfold chain_bits. by destruct IS_REGTEST.
  - unfold epoch_start. by destruct IS_REGTEST.
  - rewrite from_be_bytes_val. by vm_compute.
  - unfold tip_time. by destruct IS_TESTNET4.
Qed.

Definition times_ok hs : Prop := Forall (λ b, time b + 1200 < u32_modulus) hs.

Lemma times_ok_tip hs : times_ok hs → tip_time hs + 1200 < u32_modulus.
Proof.
  intros H. unfold tip_time. destruct (last hs) as [b|] eqn:E; [|done]. cbn.
  apply last_Some in E as (l & ->). apply Forall_app in H as [_ H]. by inversion H.
Qed.

Lemma run_sound c0 hs c :
  tracks [] c0 → len hs < u32_modulus → times_ok hs →
  for_each apply_block c0 hs = Ok c → valid_chain hs ∧ tracks hs c.
Proof.
  intros H0. revert c. induction hs as [|b hs IH] using rev_ind; intros c Hl Ht Hr.
  { injection Hr as <-. split; [constructor|done]. }
  rewrite len_snoc in Hl. apply Forall_app in Ht as [Ht _].
  rewrite for_each_app in Hr. apply outcome_bind_Ok in Hr as (c1 & H1 & Hr).
  destruct (IH c1 ltac:(lia) Ht H1) as [Hv Htr]. cbn in Hr. ok_inv.
  destruct (apply_block_sound hs b c1 Htr Hl (times_ok_tip _ Ht) c) as [Hn Htr']; [done|].
  split; [|done]. eapply valid_snoc; [done|apply Htr|done|apply Htr'].
Qed.

Lemma run_complete c0 hs :
  tracks [] c0 → len hs < u32_modulus → times_ok hs → valid_chain hs →
  ∃ c, for_each apply_block c0 hs = Ok c.
Proof.
  intros H0 Hl Ht Hv. induction Hv as [|hs b target target' Hv IH H1 H2 H3]; [by exists c0|].
  rewrite len_snoc in Hl. apply Forall_app in Ht as [Ht _].
  destruct (IH ltac:(lia) Ht) as (c & Hc).
  destruct (run_sound c0 hs c H0 ltac:(lia) Ht Hc) as [_ Htr].
  assert (target = current_target_bytes c) as -> by (pose proof (tr_target _ _ Htr); congruence).
  destruct (apply_block_complete hs b c Htr Hl (times_ok_tip _ Ht) target' H2 H3) as (c' & Hc').
  exists c'. rewrite for_each_app, Hc. cbn. by rewrite Hc'.
Qed.

(** The end of the loop: a non-empty chain has its summary, an empty one panics. *)
Lemma finish_tracks hs c :
  tracks hs c → hs ≠ [] → len hs < u32_modulus →
  ∃ s, finish_cursor c = Ok s ∧ summary hs s.
Proof.
  intros H Hne Hl. assert (1 ≤ len hs) as H1 by (unfold len; destruct hs; [done|cbn; lia]).
  assert (block_height (chain c) = len hs - 1) as Hh
    by (rewrite (tr_height _ _ H), Z.mod_small; lia).
  assert (size (block_hashes_mmr (chain c)) = len hs) as Hs.
  { pose proof (tr_mmr _ _ H) as Hm.
    destruct (range_of (map compute_block_hash hs)) as (ls & _ & _ & Hg);
      [by rewrite length_map|]. rewrite Hg in Hm. injection Hm as <-. cbn.
    by rewrite length_map. }
  unfold finish_cursor, u32_checked_add. cbn [over block_height block_hashes_mmr].
  rewrite Hh, Z.sub_add, (proj2 (Z.ltb_lt _ _) Hl). cbn. rewrite Hs, Z.eqb_refl. cbn.
  eexists. split; [done|]. destruct H. split; cbn; try done. 
  - rewrite Z.mod_small; lia.
  - by rewrite to_be_bytes_val.
Qed.

Lemma finish_empty c : tracks [] c → ∃ e, finish_cursor c = Err e.
Proof.
  intros H. unfold finish_cursor, u32_checked_add. cbn [over block_height].
  rewrite (tr_height _ _ H). cbn. eauto.
Qed.

Lemma summary_unique hs s s' : summary hs s → summary hs s' → s = s'.
Proof.
  intros [] []. destruct s, s'; cbn in *. f_equal; try congruence.
  apply be_value_inj. congruence.
Qed.

Lemma apply_blocks_spec hs s :
  len hs < u32_modulus → times_ok hs →
  apply_blocks ChainState_new hs = Ok s ↔ hs ≠ [] ∧ valid_chain hs ∧ summary hs s.
Proof.
  intros Hl Ht. unfold apply_blocks. destruct start_tracks as (c0 & -> & H0). cbn. split.
  - intros (c & Hc & Hf)%outcome_bind_Ok.
    destruct (run_sound c0 hs c H0 Hl Ht Hc) as [Hv Htr].
    destruct (decide (hs = [])) as [->|Hne]; [destruct (finish_empty c Htr); congruence|].
    destruct (finish_tracks hs c Htr Hne Hl) as (s' & Hs' & Hsum).
    split_and!; [done|done|congruence].
  - intros (Hne & Hv & Hsum). destruct (run_complete c0 hs H0 Hl Ht Hv) as (c & Hc).
    rewrite Hc. cbn. destruct (run_sound c0 hs c H0 Hl Ht Hc) as [_ Htr].
    destruct (finish_tracks hs c Htr Hne Hl) as (s' & Hs' & Hsum').
    rewrite Hs'. by rewrite (summary_unique hs s s').
Qed.

(** C8: the header circuit implements the consensus rules.  Starting from the
    empty state, [apply_blocks] accepts a batch of headers exactly if it is a
    non-empty valid chain -- every block names its parent, carries the compact
    target the epoch (or testnet4's exception) prescribes, has a hash not above
    that target and a time after the median of the eleven times before it -- and
    the state it returns is that chain's: its height, work, tip, next target,
    epoch start, recent times and the peaks of its block hashes. *)
Theorem apply_blocks_refines hs s :
  len hs < u32_modulus → times_ok hs →
  apply_blocks ChainState_new hs = Ok s ↔ hs ≠ [] ∧ valid_chain hs ∧ summary hs s.
Proof. apply apply_blocks_spec. Qed.

(** ** Work *)

(** An odd number above one does not divide a power of two. *)
Lemma odd_not_divides_pow2 d n : 1 < d → Z.odd d = true → 0 ≤ n → (2 ^ n) mod d ≠ 0.
Proof.
  intros Hd Ho Hn Hm. apply Z.mod_divide in Hm; [|lia].
  assert (Z.gcd d 2 = 1) as Hg.
  { pose proof (Z.gcd_nonneg d 2). pose proof (Z.gcd_divide_r d 2) as Hr.
    apply Z.divide_pos_le in Hr; [|done].
    destruct (decide (Z.gcd d 2 = 2)) as [E|].
    - pose proof (Z.gcd_divide_l d 2) as Hl. rewrite E in Hl. destruct Hl as (k & ->).
      by rewrite Z.odd_mul, andb_false_r in Ho.
    - destruct (decide (Z.gcd d 2 = 0)) as [E%Z.gcd_eq_0_r|]; [done|lia]. }
  revert Hm. pattern n. apply natlike_ind; [| |done].
  - intros H1. apply Z.divide_pos_le in H1; [cbn in *; lia|done].
  - intros m Hm IH Hdiv. rewrite Z.pow_succ_r in Hdiv by done. by apply IH, (Z.gauss _ 2).
Qed.

(** Targets and work are Bitcoin's.  A compact target with exponent above 3
    that does not overflow 256 bits decodes, without panicking, to mantissa times
    256 to the exponent minus 3, and the work credited for it is exactly
    2^256 / (target + 1), Bitcoin's expected number of hashes, although the code
    divides 2^256 - 1. *)
Theorem work_is_expected_hashes size mantissa :
  3 < size < 35 → 0 < mantissa < 2 ^ 24 →
  mantissa * 2 ^ (8 * (size - 3)) < u256_modulus →
  ∃ target,
    bits_to_target (size * 2 ^ 24 + mantissa) = Ok target ∧
    be_value (vec_to_list target) = mantissa * 2 ^ (8 * (size - 3)) ∧
    u256_val (calculate_work target) = 2 ^ 256 / (mantissa * 2 ^ (8 * (size - 3)) + 1).
Proof.
  intros Hs Hm Hf. pose proof (Z.pow_pos_nonneg 2 (8 * (size - 3)) ltac:(lia) ltac:(lia)) as Hp.
  set (t := mantissa * 2 ^ (8 * (size - 3))) in *.
  assert (0 < t) as Ht by (unfold t; lia).
  assert (Z.odd (t + 1) = true) as Ho.
  { unfold t. replace (8 * (size - 3)) with (Z.succ (8 * (size - 3) - 1)) by lia.
    rewrite Z.pow_succ_r, Z.add_1_r, Z.odd_succ by lia.
    by rewrite Z.mul_assoc, (Z.mul_comm mantissa), <- Z.mul_assoc, Z.even_mul. }
  assert (be_value (vec_to_list (be_hash32 t)) = t) as Hv
    by (rewrite be_hash32_val; apply Z.mod_small; lia).
  exists (be_hash32 t). split_and!; [|done|].
  - apply bits_to_target_shifted; [done|lia|]. rewrite Hv. symmetry. apply Z.mod_small. lia.
  - unfold calculate_work.
    assert (u256_val (u256_saturating_add (from_be_bytes (be_hash32 t)) u256_ONE) = t + 1) as Hd.
    { rewrite u256_saturating_add_val, from_be_bytes_val, Hv, u256_ONE_val. apply Z.min_l.
      assert (t ≠ u256_modulus - 1); [|lia]. intros E. rewrite E in Ho. done. }
    rewrite u256_wrapping_div_val, Hd, u256_MAX_val by lia. unfold u256_modulus in *.
    pose proof (odd_not_divides_pow2 (t + 1) 256 ltac:(lia) Ho ltac:(lia)).
    pose proof (Z.mod_pos_bound (2 ^ 256) (t + 1) ltac:(lia)).
    symmetry. apply (Z.div_unique _ _ _ ((2 ^ 256) mod (t + 1) - 1)); [lia|].
    pose proof (Z.div_mod (2 ^ 256) (t + 1) ltac:(lia)). lia.
Qed.

(** ** Batches *)

(** The state as the loop sees it when its work field is not up to date. *)
Definition stale (w : hash32) (c : Cursor) : Cursor :=
  mkCursor ((chain c) <| total_work := w |>) (current_target_bytes c) (current_work c)
    (last_block_time c).

Lemma apply_block_stale w c b :
  apply_block (stale w c) b = (c' ← apply_block c b; Ok (stale w c')).
Proof.
  unfold apply_block, stale. cbn.
  repeat match goal with
    | |- context [?m ≫= _] =>
        lazymatch m with
        | _ ≫= _ => fail
        | _ => destruct m; cbn; [|done]
        end
    | |- context [match ?p with (_, _) => _ end] => destruct p; cbn
    | |- context [if ?x then _ else _] =>
        lazymatch x with negb _ && (_ =? BLOCKS_PER_EPOCH - 1) => destruct x; cbn end
    end; done.
Qed.

Lemma for_each_stale w c hs :
  for_each apply_block (stale w c) hs = (c' ← for_each apply_block c hs; Ok (stale w c')).
Proof.
  revert c. induction hs as [|b hs IH]; intros c; cbn; [done|].
  rewrite apply_block_stale. destruct (apply_block c b); cbn; [apply IH|done].
Qed.

(** The locals are functions of the state. *)
Record settled (c : Cursor) : Prop := {
  st_target : (if IS_REGTEST then Ok (to_be_bytes (max_target NETWORK_CONSTANTS))
               else bits_to_target (current_target_bits (chain c))) = Ok (current_target_bytes c);
  st_last : if IS_TESTNET4
            then block_height (chain c) ≠ u32_max →
                 index (prev_11_timestamps (chain c)) (Z.to_nat (block_height (chain c) mod 11)) =
                   Ok (last_block_time c)
            else last_block_time c = 0;
}.

Lemma start_settled s c : start_cursor s = Ok c → settled c ∧ chain c = s.
Proof.
  unfold start_cursor. intros H. apply outcome_bind_Ok in H as (t & Ht & H).
  apply outcome_bind_Ok in H as (l & Hlast & H). injection H as <-. split; [|done].
  split; [done|]. cbn. destruct IS_TESTNET4; [|congruence].
  intros Hne. by rewrite (proj2 (Z.eqb_neq _ _) Hne) in Hlast.
Qed.

Lemma apply_block_settled c b c' : apply_block c b = Ok c' → settled c → settled c'.
Proof.
  unfold apply_block. set (h := u32_wrapping_add _ _). intros H [Ht Hl].
  apply outcome_bind_Ok in H as ([[t bs] w] & _ & H). ok_inv.
  assert (∀ x, index (<[Z.to_nat (h mod 11) := x]> (prev_11_timestamps (chain c)))
                 (Z.to_nat (h mod 11)) = Ok x) as Hi.
  { intros x. apply index_Ok, list_lookup_insert_eq.
    match goal with H : prev_11_timestamps _ !! _ = Some _ |- _ => by apply lookup_lt_Some in H end. }
  destruct (negb IS_REGTEST && _) eqn:E; ok_inv; split; cbn; try done.
  - apply andb_true_iff in E as [E%negb_true_iff _]. by rewrite E in *.
  - by destruct IS_TESTNET4.
  - by destruct IS_TESTNET4.
Qed.

Lemma for_each_settled hs c c' : for_each apply_block c hs = Ok c' → settled c → settled c'.
Proof.
  revert c. induction hs as [|b hs IH]; intros c H Hs; cbn in H; [by injection H as <-|].
  apply outcome_bind_Ok in H as (c1 & H1 & H). eauto using apply_block_settled.
Qed.

Lemma restart c s : settled c → finish_cursor c = Ok s → start_cursor s = Ok (stale (total_work s) c).
Proof.
  intros [Ht Hl] H. unfold finish_cursor in H. apply outcome_bind_Ok in H as (n & Hn & H). ok_inv.
  unfold u32_checked_add in Hn. cbn in *. destruct (_ <? _) eqn:E; [|done]. brefl.
  unfold start_cursor, stale. cbn. rewrite Ht. cbn.
  assert (block_height (chain c) ≠ u32_max) as Hne by (unfold u32_max, u32_modulus in *; lia).
  rewrite (proj2 (Z.eqb_neq _ _) Hne), from_to_be_bytes.
  destruct IS_TESTNET4; [by rewrite (Hl Hne)|by rewrite Hl].
Qed.

Lemma apply_blocks_resume s batch s1 rest :
  apply_blocks s batch = Ok s1 → apply_blocks s1 rest = apply_blocks s (batch ++ rest).
Proof.
  unfold apply_blocks. intros H. apply outcome_bind_Ok in H as (c0 & H0 & H).
  apply outcome_bind_Ok in H as (c & Hc & Hf).
  destruct (start_settled _ _ H0) as [Hs0 _]. pose proof (for_each_settled _ _ _ Hc Hs0) as Hs.
  rewrite (restart c s1 Hs Hf), H0. cbn. rewrite for_each_app, Hc, for_each_stale. cbn.
  rewrite outcome_bind_assoc. by destruct (for_each _ c rest).
Qed.

(** A chain may be proved batch by batch.  Applying headers to the state
    that an earlier batch produced gives the same result -- the same state or the
    same panic -- as applying both batches at once: the target, the work and the
    last block time the loop keeps in locals are recovered from the state. *)
Theorem apply_blocks_batches s batch s1 rest :
  apply_blocks s batch = Ok s1 → apply_blocks s1 rest = apply_blocks s (batch ++ rest).
Proof. apply apply_blocks_resume. Qed.

End Spec.

(** ** Bitcoin's first blocks *)

#[local] Existing Instances sha256_exec u256_bytes u256_bytes_laws.
#[local] Instance mainnet : BuildNetwork := Bitcoin.
#[local] Instance release_build : OverflowChecks := false.
#[local] Instance no_retarget : NextWork := λ bits _ _, bits.

Definition block_0 : CircuitBlockHeader := {|
  version := 1;
  prev_block_hash := zero32;
  merkle_root := hex32 "3ba3edfd7a7b12b27ac72c3e67768f617fc81bc3888a51323a9fb8aa4b1e5e4a";
  time := 1231006505;
  bits := 486604799;
  nonce := 2083236893;
|}.

Definition block_1 : CircuitBlockHeader := {|
  version := 1;
  prev_block_hash := hex32 "6fe28c0ab6f1b372c1a6a246ae63f74f931e8365e15a089c68d6190000000000";
  merkle_root := hex32 "982051fd1e4ba744bbbe680e1fee14677ba1a3c3540bf7b1cdb606e857233e0e";
  time := 0x4966bc61;
  bits := 486604799;
  nonce := 0x9962e301;
|}.

(** The hash the repository's test expects of the genesis block. *)
Example block_0_hash :
  compute_block_hash block_0 =
  hex32 "6fe28c0ab6f1b372c1a6a246ae63f74f931e8365e15a089c68d6190000000000".
Proof. by vm_compute. Qed.

Definition after_blocks (hs : list CircuitBlockHeader) : ChainState :=
  match apply_blocks ChainState_new hs with Ok s => s | Err _ => ChainState_new end.

Lemma apply_blocks_refines_witness :
  [block_0; block_1] ≠ [] ∧ valid_chain [block_0; block_1] ∧
  summary [block_0; block_1] (after_blocks [block_0; block_1]).
Proof.
  apply apply_blocks_refines; [by vm_compute|by repeat constructor|by vm_compute].
Defined.

Lemma apply_blocks_batches_witness :
  apply_blocks (after_blocks [block_0]) [block_1] = apply_blocks ChainState_new ([block_0] ++ [block_1]).
Proof. apply apply_blocks_batches. by vm_compute. Defined.

Lemma work_is_expected_hashes_witness :
  ∃ target, bits_to_target (0x1D * 2 ^ 24 + 0xFFFF) = Ok target.
Proof.
  destruct (work_is_expected_hashes 0x1D 0xFFFF) as (t & H & _); [done|done|done|]. by exists t.
Defined.
