(* ===== verification/Transaction.v ===== *)
(** * Transactions in the circuits

    Source: circuits/crates/header-chain/src/transaction.rs.  A
    [CircuitTransaction] wraps a transaction of crate [bitcoin]; its id is the
    double SHA-256 of the consensus encoding without witnesses, and it has a
    Borsh encoding of its own.  The consensus encoders and the Borsh encodings of
    the primitive types are the interfaces [ConsensusEncode] and [Borsh]. *)

From Stdlib Require Import Init.Byte.
From stdpp Require Import base vector strings list.
From S2P Require Import Prelude Bytes.

Local Open Scope Z_scope.

(** ** Data *)

Record OutPoint := mkOutPoint { op_txid : hash32; vout : Z }.

Record TxIn := mkTxIn {
  previous_output : OutPoint;
  script_sig : list byte;
  sequence : Z;
  witness : list (list byte);
}.

Record TxOut := mkTxOut {
  value : Z;
  script_pubkey : list byte;
}.

Record CircuitTransaction := mkTx {
  tx_version : Z;
  lock_time : Z;
  input : list TxIn;
  output : list TxOut;
}.

#[export] Instance OutPoint_eq_dec : EqDecision OutPoint.
Proof. solve_decision. Defined.
#[export] Instance TxIn_eq_dec : EqDecision TxIn.
Proof. solve_decision. Defined.
#[export] Instance TxOut_eq_dec : EqDecision TxOut.
Proof. solve_decision. Defined.
#[export] Instance CircuitTransaction_eq_dec : EqDecision CircuitTransaction.
Proof. solve_decision. Defined.

#[export] Instance serial_OutPoint : Serial OutPoint.
Proof.
  by refine (serial_inj (λ o, (op_txid o, vout o)) (λ '(a, b), mkOutPoint a b) _); intros [].
Defined.
#[export] Instance serial_TxIn : Serial TxIn.
Proof.
  by refine (serial_inj (λ i, (previous_output i, script_sig i, sequence i, witness i))
               (λ '(a, b, c, d), mkTxIn a b c d) _); intros [].
Defined.
#[export] Instance serial_TxOut : Serial TxOut.
Proof.
  by refine (serial_inj (λ o, (value o, script_pubkey o)) (λ '(a, b), mkTxOut a b) _); intros [].
Defined.
#[export] Instance serial_CircuitTransaction : Serial CircuitTransaction.
Proof.
  by refine (serial_inj (λ t, (tx_version t, lock_time t, input t, output t))
               (λ '(a, b, c, d), mkTx a b c d) _); intros [].
Defined.

(** ** Transaction ids *)

(** [Encodable::consensus_encode] of the four parts; writing to a vector does
    not fail. *)
Class ConsensusEncode := {
  encode_version : Z → list byte;
  encode_inputs : list TxIn → list byte;
  encode_outputs : list TxOut → list byte;
  encode_lock_time : Z → list byte;
}.

Definition txid `{Sha256} `{ConsensusEncode} (tx : CircuitTransaction) : hash32 :=
  calculate_double_sha256
    (encode_version (tx_version tx) ++ encode_inputs (input tx) ++
     encode_outputs (output tx) ++ encode_lock_time (lock_time tx)).

(** ** Borsh *)

(** An encoding: what is written for a value, and a reader that returns the value
    and the rest of the input.  [codec_ok] are the values of the Rust type. *)
Class Codec (A : Type) := {
  codec_write : A → list byte;
  codec_read : list byte → outcome (A * list byte);
  codec_ok : A → Prop;
}.

Class CodecLaws (A : Type) `{Codec A} :=
  codec_round x rest : codec_ok x → codec_read (codec_write x ++ rest) = Ok (x, rest).

(** The encodings of the primitive types, from crate [borsh]. *)
Class Borsh := {
  borsh_i32 : Codec Z;
  borsh_u32 : Codec Z;
  borsh_u64 : Codec Z;
  borsh_usize : Codec Z;
  borsh_hash : Codec hash32;
  borsh_bytes : Codec (list byte);
  borsh_bytes_list : Codec (list (list byte));
}.

Class BorshLaws `{B : Borsh} := {
  #[global] borsh_i32_laws :: @CodecLaws Z borsh_i32;
  #[global] borsh_u32_laws :: @CodecLaws Z borsh_u32;
  #[global] borsh_u64_laws :: @CodecLaws Z borsh_u64;
  #[global] borsh_usize_laws :: @CodecLaws Z borsh_usize;
  #[global] borsh_hash_laws :: @CodecLaws hash32 borsh_hash;
  #[global] borsh_bytes_laws :: @CodecLaws (list byte) borsh_bytes;
  #[global] borsh_bytes_list_laws :: @CodecLaws (list (list byte)) borsh_bytes_list;
}.

Definition write {A} (C : Codec A) : A → list byte := codec_write.
Definition read {A} (C : Codec A) : list byte → outcome (A * list byte) := codec_read.
Definition well_typed {A} (C : Codec A) : A → Prop := codec_ok.

(** [isize::MAX] on the 64-bit targets. *)
Definition isize_max : Z := 2 ^ 63 - 1.

Section Transactions.
(** The sizes in memory of an input and an output. *)
Context `{B : Borsh} (txin_size txout_size : Z).

Definition serialize_txin (i : TxIn) : list byte :=
  write borsh_hash (op_txid (previous_output i)) ++
  write borsh_u32 (vout (previous_output i)) ++
  write borsh_bytes (script_sig i) ++
  write borsh_u32 (sequence i) ++
  write borsh_bytes_list (witness i).

Definition deserialize_txin (l : list byte) : outcome (TxIn * list byte) :=
  '(id, l) ← read borsh_hash l;
  '(vout, l) ← read borsh_u32 l;
  '(script, l) ← read borsh_bytes l;
  '(sequence, l) ← read borsh_u32 l;
  '(witness, l) ← read borsh_bytes_list l;
  Ok (mkTxIn (mkOutPoint id vout) script sequence witness, l).

Definition serialize_txout (o : TxOut) : list byte :=
  write borsh_u64 (value o) ++ write borsh_bytes (script_pubkey o).

Definition deserialize_txout (l : list byte) : outcome (TxOut * list byte) :=
  '(value, l) ← read borsh_u64 l;
  '(script, l) ← read borsh_bytes l;
  Ok (mkTxOut value script, l).

Definition serialize (tx : CircuitTransaction) : list byte :=
  write borsh_i32 (tx_version tx) ++ write borsh_u32 (lock_time tx) ++
  write borsh_usize (Z.of_nat (length (input tx))) ++ concat (map serialize_txin (input tx)) ++
  write borsh_usize (Z.of_nat (length (output tx))) ++ concat (map serialize_txout (output tx)).

(** [for _ in 0..n { v.push(item(reader)?) }]. *)
Fixpoint read_items {A} (item : list byte → outcome (A * list byte)) (n : nat) (l : list byte)
    : outcome (list A * list byte) :=
  match n with
  | O => Ok ([], l)
  | S n =>
      '(x, l) ← item l;
      '(xs, l) ← read_items item n l;
      Ok (x :: xs, l)
  end.

(** [Vec::with_capacity(n)] panics if the allocation exceeds [isize::MAX]. *)
Definition with_capacity (n item_size : Z) : outcome unit :=
  require (n * item_size <=? isize_max) "capacity overflow".

Definition deserialize_reader (l : list byte) : outcome (CircuitTransaction * list byte) :=
  '(version, l) ← read borsh_i32 l;
  '(lock_time, l) ← read borsh_u32 l;
  '(input_len, l) ← read borsh_usize l;
  _ ← with_capacity input_len txin_size;
  '(input, l) ← read_items deserialize_txin (Z.to_nat input_len) l;
  '(output_len, l) ← read borsh_usize l;
  _ ← with_capacity output_len txout_size;
  '(output, l) ← read_items deserialize_txout (Z.to_nat output_len) l;
  Ok (mkTx version lock_time input output, l).

(** ** The round trip *)

Definition txin_ok (i : TxIn) : Prop :=
  well_typed borsh_hash (op_txid (previous_output i)) ∧
  well_typed borsh_u32 (vout (previous_output i)) ∧
  well_typed borsh_bytes (script_sig i) ∧ well_typed borsh_u32 (sequence i) ∧
  well_typed borsh_bytes_list (witness i).

Definition txout_ok (o : TxOut) : Prop :=
  well_typed borsh_u64 (value o) ∧ well_typed borsh_bytes (script_pubkey o).

(** A transaction that fits in memory, with fields of their types. *)
Record tx_ok (tx : CircuitTransaction) : Prop := {
  tok_version : well_typed borsh_i32 (tx_version tx);
  tok_lock_time : well_typed borsh_u32 (lock_time tx);
  tok_input_len : well_typed borsh_usize (Z.of_nat (length (input tx)));
  tok_output_len : well_typed borsh_usize (Z.of_nat (length (output tx)));
  tok_input : Forall txin_ok (input tx);
  tok_output : Forall txout_ok (output tx);
  tok_input_mem : Z.of_nat (length (input tx)) * txin_size ≤ isize_max;
  tok_output_mem : Z.of_nat (length (output tx)) * txout_size ≤ isize_max;
}.

Lemma read_write {A} (C : Codec A) (L : @CodecLaws A C) x rest :
  well_typed C x → read C (write C x ++ rest) = Ok (x, rest).
Proof. apply codec_round. Qed.

Lemma read_items_round {A} (item : list byte → outcome (A * list byte)) (f : A → list byte)
    (P : A → Prop) xs rest :
  (∀ x rest, P x → item (f x ++ rest) = Ok (x, rest)) → Forall P xs →
  read_items item (length xs) (concat (map f xs) ++ rest) = Ok (xs, rest).
Proof.
  intros Hi H. induction H as [|x xs Hx H IH]; [done|]. cbn.
  rewrite <- app_assoc, Hi by done. cbn. by rewrite IH.
Qed.

Context `{BL : !BorshLaws}.

Lemma txin_round i rest :
  txin_ok i → deserialize_txin (serialize_txin i ++ rest) = Ok (i, rest).
Proof.
  intros (H1 & H2 & H3 & H4 & H5). unfold deserialize_txin, serialize_txin.
  rewrite <- !app_assoc. repeat (rewrite read_write by (apply _ || done); cbn).
  by destruct i as [[] ? ? ?].
Qed.

Lemma txout_round o rest :
  txout_ok o → deserialize_txout (serialize_txout o ++ rest) = Ok (o, rest).
Proof.
  intros (H1 & H2). unfold deserialize_txout, serialize_txout.
  rewrite <- !app_assoc. repeat (rewrite read_write by (apply _ || done); cbn).
  by destruct o.
Qed.

(** The Borsh encoding of a transaction round-trips.  Reading what was
    written for a transaction returns that transaction, its inputs, outputs and
    witnesses included, and leaves what follows it in the stream. *)
Theorem borsh_round_trip tx rest :
  tx_ok tx → deserialize_reader (serialize tx ++ rest) = Ok (tx, rest).
Proof.
  intros []. unfold deserialize_reader, serialize, with_capacity. rewrite <- !app_assoc.
  do 3 (rewrite read_write by (apply _ || done); cbn).
  rewrite (proj2 (Z.leb_le _ _)) by done. cbn.
  rewrite Nat2Z.id, (read_items_round _ serialize_txin txin_ok) by eauto using txin_round.
  cbn. rewrite read_write by (apply _ || done). cbn.
  rewrite (proj2 (Z.leb_le _ _)) by done. cbn.
  rewrite Nat2Z.id, (read_items_round _ serialize_txout txout_ok) by eauto using txout_round.
  by destruct tx.
Qed.

End Transactions.

(** ** The primitive encodings, executable

    Little-endian integers of fixed width, and vectors behind a 32-bit length. *)

Definition read_n (n : nat) (l : list byte) : outcome (list byte * list byte) :=
  if (n <=? length l)%nat then Ok (take n l, drop n l) else Err ["unexpected end of input"].

Definition le_codec (n : nat) : Codec Z := {|
  codec_write := le_bytes n;
  codec_read l := '(b, l) ← read_n n l; Ok (le_value b, l);
  codec_ok z := 0 ≤ z < 256 ^ Z.of_nat n;
|}.

Definition i32_codec : Codec Z := {|
  codec_write := le_bytes 4;
  codec_read l :=
    '(b, l) ← read_n 4 l;
    let z := le_value b in Ok (if z <? 2 ^ 31 then z else z - 2 ^ 32, l);
  codec_ok z := - 2 ^ 31 ≤ z < 2 ^ 31;
|}.

Definition hash_codec : Codec hash32 := {|
  codec_write h := vec_to_list h;
  codec_read l := '(b, l) ← read_n 32 l; Ok (to_hash32 b, l);
  codec_ok _ := True;
|}.

Definition bytes_codec : Codec (list byte) := {|
  codec_write b := le_bytes 4 (Z.of_nat (length b)) ++ b;
  codec_read l :=
    '(n, l) ← read (le_codec 4) l;
    read_n (Z.to_nat n) l;
  codec_ok b := Z.of_nat (length b) < 256 ^ 4;
|}.

Definition bytes_list_codec : Codec (list (list byte)) := {|
  codec_write bs := le_bytes 4 (Z.of_nat (length bs)) ++ concat (map (write bytes_codec) bs);
  codec_read l :=
    '(n, l) ← read (le_codec 4) l;
    read_items (read bytes_codec) (Z.to_nat n) l;
  codec_ok bs := Z.of_nat (length bs) < 256 ^ 4 ∧ Forall (well_typed bytes_codec) bs;
|}.

Definition borsh_exec : Borsh := {|
  borsh_i32 := i32_codec;
  borsh_u32 := le_codec 4;
  borsh_u64 := le_codec 8;
  borsh_usize := le_codec 8;
  borsh_hash := hash_codec;
  borsh_bytes := bytes_codec;
  borsh_bytes_list := bytes_list_codec;
|}.

Lemma read_n_app n l rest : length l = n → read_n n (l ++ rest) = Ok (l, rest).
Proof.
  intros <-. unfold read_n. rewrite length_app.
  rewrite (proj2 (Nat.leb_le _ _)) by lia. by rewrite take_app_length, drop_app_length.
Qed.

Lemma le_codec_laws n : @CodecLaws Z (le_codec n).
Proof.
  intros x rest Hx. cbn in *. rewrite read_n_app by apply le_bytes_length. cbn.
  by rewrite le_value_bytes, Z.mod_small.
Qed.

Lemma i32_codec_laws : @CodecLaws Z i32_codec.
Proof.
  intros x rest Hx. cbn -[le_bytes le_value read_n Z.pow] in *.
  rewrite read_n_app by apply le_bytes_length. cbn -[le_bytes le_value read_n Z.pow].
  rewrite le_value_bytes. change (256 ^ Z.of_nat 4) with (2 ^ 32).
  do 2 f_equal. destruct (decide (0 ≤ x)).
  - rewrite Z.mod_small by lia. rewrite (proj2 (Z.ltb_lt _ _)); lia.
  - replace (x mod 2 ^ 32) with (x + 2 ^ 32).
    + rewrite (proj2 (Z.ltb_ge _ _)); lia.
    + rewrite <- (Z_mod_plus_full x 1), Z.mul_1_l. symmetry. apply Z.mod_small. lia.
Qed.

Lemma hash_codec_laws : @CodecLaws hash32 hash_codec.
Proof.
  intros x rest _. cbn -[read_n]. rewrite read_n_app by apply length_vec_to_list. cbn.
  do 2 f_equal. apply vec_to_list_inj2, to_hash32_list, length_vec_to_list.
Qed.

Lemma bytes_codec_laws : @CodecLaws (list byte) bytes_codec.
Proof.
  intros x rest Hx. cbn -[le_bytes read_n Z.pow read write] in *. rewrite <- app_assoc.
  change (le_bytes 4) with (write (le_codec 4)). rewrite read_write by (apply le_codec_laws || (cbn -[Z.pow]; lia)).
  cbn. rewrite Nat2Z.id. by apply read_n_app.
Qed.

Lemma bytes_list_codec_laws : @CodecLaws (list (list byte)) bytes_list_codec.
Proof.
  intros x rest [Hx Hf]. cbn -[le_bytes read_n Z.pow read write] in *. rewrite <- app_assoc.
  change (le_bytes 4) with (write (le_codec 4)). rewrite read_write by (apply le_codec_laws || (cbn -[Z.pow]; lia)).
  cbn -[write]. rewrite Nat2Z.id.
  apply (read_items_round _ _ (well_typed bytes_codec)); [|done].
  intros y rest' Hy. by apply (read_write bytes_codec bytes_codec_laws).
Qed.

Lemma borsh_exec_laws : @BorshLaws borsh_exec.
Proof.
  split.
  - exact i32_codec_laws.
  - exact (le_codec_laws 4).
  - exact (le_codec_laws 8).
  - exact (le_codec_laws 8).
  - exact hash_codec_laws.
  - exact bytes_codec_laws.
  - exact bytes_list_codec_laws.
Qed.

Definition sample_tx : CircuitTransaction := {|
  tx_version := 2;
  lock_time := 500000;
  input := [mkTxIn (mkOutPoint zero32 1) [Byte.x76; Byte.xa9] 0xffffffff [[Byte.x01]; []]];
  output := [mkTxOut 50000 [Byte.x6a]];
|}.

Lemma borsh_round_trip_witness :
  @deserialize_reader borsh_exec 104 32 (@serialize borsh_exec sample_tx ++ [Byte.x00]) =
  Ok (sample_tx, [Byte.x00]).
Proof.
  apply (@borsh_round_trip borsh_exec 104 32 borsh_exec_laws).
  split; try done; repeat constructor; done.
Defined.

(** The consensus encoding, executable. *)

Definition compact_size (n : Z) : list byte :=
  if n <? 0xfd then [byte_of n]
  else if n <=? 0xffff then byte_of 0xfd :: le_bytes 2 n
  else if n <=? 0xffffffff then byte_of 0xfe :: le_bytes 4 n
  else byte_of 0xff :: le_bytes 8 n.

Definition with_size (l : list byte) : list byte := compact_size (Z.of_nat (length l)) ++ l.

Definition consensus_exec : ConsensusEncode := {|
  encode_version v := le_bytes 4 v;
  encode_inputs l :=
    compact_size (Z.of_nat (length l)) ++
    concat (map (λ i, vec_to_list (op_txid (previous_output i)) ++
                      le_bytes 4 (vout (previous_output i)) ++ with_size (script_sig i) ++
                      le_bytes 4 (sequence i)) l);
  encode_outputs l :=
    compact_size (Z.of_nat (length l)) ++
    concat (map (λ o, le_bytes 8 (value o) ++ with_size (script_pubkey o)) l);
  encode_lock_time t := le_bytes 4 t;
|}.
