(* ===== verification/Verifier.v ===== *)
(** * Proof verification and program histories

    Source: circuits/crates/verifier/src/lib.rs.  Every circuit proof is tied to
    the identity of the program that produced it; recursive circuits fold the
    identities of superseded programs into a history hash.  The Groth16 verifier
    of crate [zkm_verifier] is the interface [Groth16]. *)

From Stdlib Require Import Init.Byte.
From stdpp Require Import base list vector strings.
From S2P Require Import Prelude Bytes.

Local Open Scope Z_scope.

(** ** UTF-8 *)

Definition in_range (lo hi : Z) (b : byte) : bool := (lo <=? byte_val b) && (byte_val b <=? hi).
Definition continuation : byte → bool := in_range 0x80 0xBF.

(** The byte strings [String::from_utf8] accepts. *)
Fixpoint valid_utf8 (l : list byte) : bool :=
  match l with
  | [] => true
  | a :: l1 =>
      if byte_val a <? 0x80 then valid_utf8 l1
      else
        match l1 with
        | [] => false
        | b :: l2 =>
            if in_range 0xC2 0xDF a then continuation b && valid_utf8 l2
            else
              match l2 with
              | [] => false
              | c :: l3 =>
                  if in_range 0xE0 0xEF a then
                    (if byte_val a =? 0xE0 then in_range 0xA0 0xBF b
                     else if byte_val a =? 0xED then in_range 0x80 0x9F b
                     else continuation b) && continuation c && valid_utf8 l3
                  else
                    match l3 with
                    | [] => false
                    | d :: l4 =>
                        in_range 0xF0 0xF4 a &&
                        (if byte_val a =? 0xF0 then in_range 0x90 0xBF b
                         else if byte_val a =? 0xF4 then in_range 0x80 0x8F b
                         else continuation b) &&
                        continuation c && continuation d && valid_utf8 l4
                    end
              end
        end
  end.

Definition from_utf8 (l : list byte) : outcome (list byte) :=
  if valid_utf8 l then Ok l else Err ["invalid utf-8 sequence"].

(** ** Programs *)

Abbreviation ProgramId := hash32.

Inductive ProgramType := Header | State.

(** [program_type as u8], as the one-byte slice that is hashed. *)
Definition type_byte (t : ProgramType) : list byte :=
  match t with Header => [Byte.x01] | State => [Byte.x02] end.

Definition tag (s : string) : list byte := String.list_byte_of_string s.

(** Crate [zkm_verifier]: the partial verifying keys it bundles, the decoding of
    a program's key hash, and the Groth16 check against the bundled wrap key. *)
Class Groth16 := {
  try_get_part_stark_vk : list byte → option (list byte);
  decode_zkm_vkey_hash : list byte → outcome hash32;
  verify_by_imm_groth16_vk :
    list byte → list byte → list byte → list byte → outcome unit;
}.

Section Verifier.
Context `{SHA : Sha256}.

Definition tagged_hash (t : list byte) (parts : list (list byte)) : hash32 :=
  sha256 (t ++ concat parts).

Definition initial_history (program_type : ProgramType) : hash32 :=
  tagged_hash (tag "bitvm/vk-history-seed/v1") [type_byte program_type].

Definition next_history (program_type : ProgramType) (previous_history : hash32)
    (previous_program_id current_program_id : ProgramId) : hash32 :=
  if decide (previous_program_id = current_program_id) then previous_history
  else
    tagged_hash (tag "bitvm/vk-history-step/v1")
      [type_byte program_type; vec_to_list previous_history; vec_to_list previous_program_id].

Definition finalize_history (program_type : ProgramType) (history : hash32)
    (current_program_id : ProgramId) : hash32 :=
  tagged_hash (tag "bitvm/vk-history-final/v1")
    [type_byte program_type; vec_to_list history; vec_to_list current_program_id].

Definition program_history_root (header_history state_history : hash32) : hash32 :=
  tagged_hash (tag "bitvm/program-history/v1")
    [vec_to_list header_history; vec_to_list state_history].

Definition proof_checkpoint (program_type : ProgramType) (previous_checkpoint : hash32)
    (previous_program_id current_program_id : ProgramId) (previous_public_values : list byte)
    : hash32 :=
  tagged_hash (tag "bitvm/proof-upgrade/v1")
    [type_byte program_type; vec_to_list previous_checkpoint; vec_to_list previous_program_id;
     vec_to_list current_program_id; vec_to_list (sha256 previous_public_values)].

Definition proof_checkpoint_root (header_checkpoint state_checkpoint : hash32) : hash32 :=
  tagged_hash (tag "bitvm/proof-checkpoint-root/v1")
    [vec_to_list header_checkpoint; vec_to_list state_checkpoint].

Section Proofs.
Context `{G : Groth16}.

Definition bundled_part_stark_vk (zkm_version : list byte) : outcome (list byte) :=
  expect (try_get_part_stark_vk zkm_version) "no partial STARK verifying key is bundled".

Definition program_id_with_part_vk (zkm_vk_hash part_stark_vk : list byte) : outcome ProgramId :=
  vk_hash ← decode_zkm_vkey_hash zkm_vk_hash;
  let part_vk_hash := sha256 part_stark_vk in
  Ok (tagged_hash (tag "bitvm/program-id/v1") [vec_to_list vk_hash; vec_to_list part_vk_hash]).

Definition program_id (zkm_vk_hash zkm_version : list byte) : outcome ProgramId :=
  vk_hash ← from_utf8 zkm_vk_hash;
  part ← bundled_part_stark_vk zkm_version;
  program_id_with_part_vk vk_hash part.

Definition verify_groth16_proof (proof zkm_public_values zkm_vk_hash zkm_version : list byte)
    : outcome ProgramId :=
  vk_hash ← from_utf8 zkm_vk_hash;
  part_stark_vk ← bundled_part_stark_vk zkm_version;
  _ ← verify_by_imm_groth16_vk proof zkm_public_values vk_hash part_stark_vk;
  program_id_with_part_vk vk_hash part_stark_vk.

(** A proof is accepted only under the id its verifying key determines. *)
Lemma verify_groth16_proof_id proof pv vk version id :
  verify_groth16_proof proof pv vk version = Ok id → program_id vk version = Ok id.
Proof.
  unfold verify_groth16_proof, program_id. intros H.
  destruct (from_utf8 vk); [|done]. cbn in *. destruct (bundled_part_stark_vk version); [|done].
  cbn in *. by destruct (verify_by_imm_groth16_vk _ _ _ _).
Qed.

(** ** What proofs of a recursive guest attest

    A guest reads an input and commits public values; [previous] is the earlier
    proof a run continues.  [attested p v]: a run of the guest committed [v], and
    so did one for the values it continued, if these were verified as program
    [p]'s. *)
Section Recursion.
Context {I : Type} (guest : I → outcome (list byte)).
Context (previous : I → option (list byte * list byte * list byte * list byte)).

Inductive attested (p : ProgramId) : list byte → Prop :=
| attested_run i v :
    guest i = Ok v →
    (∀ proof w vk zkm_version,
       previous i = Some (proof, w, vk, zkm_version) →
       verify_groth16_proof proof w vk zkm_version = Ok p → attested p w) →
    attested p v.

(** Soundness of the proof system for the guest with id [p]. *)
Definition groth16_sound (p : ProgramId) : Prop :=
  ∀ proof v vk zkm_version, verify_groth16_proof proof v vk zkm_version = Ok p → attested p v.
End Recursion.

End Proofs.

(** ** Histories *)

Lemma tagged_hash_binds t ps t' ps' :
  tagged_hash t ps = tagged_hash t' ps' → t ++ concat ps = t' ++ concat ps' ∨ collision.
Proof. apply sha256_binds. Qed.

(** A history is only ever the initial one if no program was superseded. *)
Lemma next_history_initial pt pt' previous p q :
  next_history pt previous p q = initial_history pt' →
  (p = q ∧ previous = initial_history pt') ∨ collision.
Proof.
  unfold next_history. destruct (decide (p = q)) as [->|]; [auto|].
  intros [H|]%tagged_hash_binds; [|auto]. apply (f_equal length) in H.
  rewrite !length_app in H. cbn in H. rewrite !length_app, !length_vec_to_list in H. by destruct pt, pt'.
Qed.

(** A history step binds the history before it and the superseded program. *)
Lemma next_history_binds pt previous previous' p p' q q' :
  p ≠ q → p' ≠ q' → next_history pt previous p q = next_history pt previous' p' q' →
  (previous = previous' ∧ p = p') ∨ collision.
Proof.
  intros Hp Hp'. unfold next_history. rewrite !decide_False by done.
  intros [H|]%tagged_hash_binds; [left|by right].
  apply app_inv_head in H. cbn in H. apply app_inv_head in H.
  apply vec_app_inj in H as [-> H]. apply vec_app_inj in H as [-> _]. done.
Qed.

(** A root of final histories binds both of them and the current programs. *)
Lemma program_history_root_binds h p s q h' p' s' q' :
  program_history_root (finalize_history Header h p) (finalize_history State s q) =
  program_history_root (finalize_history Header h' p') (finalize_history State s' q') →
  (h = h' ∧ p = p' ∧ s = s' ∧ q = q') ∨ collision.
Proof.
  assert (∀ pt a b a' b', finalize_history pt a b = finalize_history pt a' b' →
    (a = a' ∧ b = b') ∨ collision) as Hfin.
  { intros pt a b a' b' [H|]%tagged_hash_binds; [left|by right].
    apply app_inv_head in H. cbn [concat] in H. apply app_inv_head in H.
    apply vec_app_inj in H as [-> H]. by apply vec_app_inj in H as [-> _]. }
  intros [H|]%tagged_hash_binds; [|by right]. apply app_inv_head in H. cbn [concat] in H.
  apply vec_app_inj in H as [H1 H]. apply vec_app_inj in H as [H2 _].
  apply Hfin in H1 as [[-> ->]|]; [|by right]. apply Hfin in H2 as [[-> ->]|]; [by left|by right].
Qed.

End Verifier.

(** ** A verifier that accepts one statement *)

#[local] Existing Instance sha256_exec.

Definition sample_program : ProgramId :=
  tagged_hash (tag "bitvm/program-id/v1") [vec_to_list zero32; vec_to_list (sha256 [])].

Definition one_proof (accepted : list byte) : Groth16 := {|
  try_get_part_stark_vk _ := Some [];
  decode_zkm_vkey_hash _ := Ok zero32;
  verify_by_imm_groth16_vk _ v _ _ :=
    if decide (v = accepted) then Ok tt else Err ["invalid proof"];
|}.

Lemma one_proof_verified v :
  verify_groth16_proof (G := one_proof v) [] v [] [] = Ok sample_program.
Proof.
  unfold verify_groth16_proof, one_proof, bundled_part_stark_vk, program_id_with_part_vk, from_utf8.
  cbn [valid_utf8 try_get_part_stark_vk decode_zkm_vkey_hash verify_by_imm_groth16_vk expect
       mbind outcome_bind].
  rewrite decide_True by reflexivity. cbn [mbind outcome_bind].
  unfold sample_program. reflexivity.
Qed.

Lemma one_proof_only accepted proof v vk zkm_version p :
  verify_groth16_proof (G := one_proof accepted) proof v vk zkm_version = Ok p → v = accepted.
Proof.
  unfold verify_groth16_proof. intros H.
  apply outcome_bind_Ok in H as (? & _ & H). apply outcome_bind_Ok in H as (? & _ & H).
  apply outcome_bind_Ok in H as (? & Hv & _). cbn in Hv. by destruct (decide _).
Qed.
