(* ===== verification/HeaderCircuit.v ===== *)
(** * The header-chain circuit

    Source: circuits/crates/header-chain/src/lib.rs (the circuit) and the output
    decoding of header_chain.rs; circuits/header-chain-proof/guest/src/main.rs
    commits what the circuit returns.  A run either starts at Bitcoin's genesis
    block or continues from the verified output of an earlier run.  The genesis
    block (crate [bitcoin]) and the encoding of the public values (crate
    [bincode]) are parameters. *)

From Stdlib Require Import Init.Byte.
From stdpp Require Import base list vector strings.
From S2P Require Import Prelude Bytes Mmr HeaderChain HeaderSpec Verifier.

Local Open Scope Z_scope.

Record BlockHeaderCircuitOutput := mkHeaderOutput {
  ho_chain_state : ChainState;
  ho_self_program_id : ProgramId;
  ho_program_history_hash : hash32;
  ho_upgrade_checkpoint_hash : hash32;
}.

Inductive HeaderChainPrevProofType := GenesisBlock | PrevProof.

Record HeaderChainCircuitInput := mkHeaderInput {
  hi_zkm_proof : list byte;
  hi_zkm_public_values : list byte;
  hi_zkm_vk_hash : list byte;
  hi_zkm_version : list byte;
  hi_self_program_id : ProgramId;
  hi_prev_proof : HeaderChainPrevProofType;
  hi_block_headers : list CircuitBlockHeader;
}.

(** [bincode] with fixed-width integers and no trailing bytes, and what the
    guest commits. *)
Class HeaderOutputCodec := {
  deserialize_header_chain_output : list byte → outcome BlockHeaderCircuitOutput;
  commit_header_output : BlockHeaderCircuitOutput → list byte;
}.

Class HeaderOutputLaws `{HeaderOutputCodec} :=
  header_output_round o : deserialize_header_chain_output (commit_header_output o) = Ok o.

(** [bitcoin::blockdata::constants::genesis_block(network).header]. *)
Class GenesisBlocks := genesis_header : Network → CircuitBlockHeader.

Section Circuit.
Context `{SHA : Sha256} `{OC : OverflowChecks} `{UL : U256Laws} `{BN : BuildNetwork} `{NW : NextWork}.
Context `{G : Groth16} `{HC : HeaderOutputCodec} `{GB : GenesisBlocks}.

Definition classify_header_chain_output (public_values : list byte)
    : outcome HeaderChainPrevProofType :=
  if is_ok (deserialize_header_chain_output public_values) then Ok PrevProof
  else Err ["unknown header-chain public output format"].

(** [expect]: a decoding error is a panic. *)
Definition decode_header_chain_circuit_output (public_values : list byte)
    : outcome BlockHeaderCircuitOutput :=
  match deserialize_header_chain_output public_values with
  | Ok o => Ok o
  | Err _ => Err ["failed to decode current header chain circuit output"]
  end.

Definition header_chain_circuit (i : HeaderChainCircuitInput) : outcome BlockHeaderCircuitOutput :=
  let self_program_id := hi_self_program_id i in
  '(chain_state, history, checkpoint) ←
    match hi_prev_proof i with
    | GenesisBlock =>
        first ← expect (head (hi_block_headers i)) "genesis header batch must be non-empty";
        _ ← require (bool_decide (first = genesis_header NETWORK))
              "header chain must start at the configured Bitcoin genesis";
        Ok (ChainState_new, initial_history Header, zero32)
    | PrevProof =>
        previous_program_id ←
          verify_groth16_proof (hi_zkm_proof i) (hi_zkm_public_values i) (hi_zkm_vk_hash i)
            (hi_zkm_version i);
        out ← decode_header_chain_circuit_output (hi_zkm_public_values i);
        _ ← require (bool_decide (ho_self_program_id out = previous_program_id))
              "self_program_id";
        let history :=
          next_history Header (ho_program_history_hash out) previous_program_id self_program_id in
        let checkpoint :=
          if decide (previous_program_id = self_program_id) then ho_upgrade_checkpoint_hash out
          else proof_checkpoint Header (ho_upgrade_checkpoint_hash out) previous_program_id
                 self_program_id (hi_zkm_public_values i) in
        Ok (ho_chain_state out, history, checkpoint)
    end;
  chain_state ← apply_blocks chain_state (hi_block_headers i);
  Ok (mkHeaderOutput chain_state self_program_id history checkpoint).

(** The guest program. *)
Definition header_guest (i : HeaderChainCircuitInput) : outcome (list byte) :=
  out ← header_chain_circuit i;
  Ok (commit_header_output out).

(** The proof a run continues. *)
Definition header_previous (i : HeaderChainCircuitInput) :=
  match hi_prev_proof i with
  | GenesisBlock => None
  | PrevProof => Some (hi_zkm_proof i, hi_zkm_public_values i, hi_zkm_vk_hash i, hi_zkm_version i)
  end.

(** ** What a proof attests *)

Lemma attested_from_genesis `{HL : !HeaderOutputLaws} p v :
  attested header_guest header_previous p v → ∀ out,
  deserialize_header_chain_output v = Ok out →
  ho_self_program_id out = p → ho_program_history_hash out = initial_history Header →
  (∃ hs, head hs = Some (genesis_header NETWORK) ∧
     apply_blocks ChainState_new hs = Ok (ho_chain_state out)) ∨ collision.
Proof.
  induction 1 as [i v Hrun Hprev IH]; intros out Hd Hself Hhist.
  unfold header_guest in Hrun. apply outcome_bind_Ok in Hrun as (out' & Hc & Hv).
  injection Hv as <-. rewrite header_output_round in Hd. injection Hd as ->.
  unfold header_chain_circuit in Hc. apply outcome_bind_Ok in Hc as ([[s hist] chk] & Hs & Hc).
  apply outcome_bind_Ok in Hc as (s' & Ha & Hc). injection Hc as <-. cbn in *. subst hist.
  destruct (hi_prev_proof i) eqn:Ep.
  - apply outcome_bind_Ok in Hs as (first & Hf & Hs). apply expect_Ok in Hf.
    apply outcome_bind_Ok in Hs as (u & Hg & Hs). apply require_Ok in Hg. brefl.
    injection Hs as <- _. left. exists (hi_block_headers i). split; [congruence|done].
  - apply outcome_bind_Ok in Hs as (q & Hq & Hs).
    apply outcome_bind_Ok in Hs as (prev & Hdec & Hs).
    apply outcome_bind_Ok in Hs as (u & Hid & Hs). apply require_Ok in Hid. brefl.
    injection Hs as <- Hh _.
    unfold decode_header_chain_circuit_output in Hdec.
    destruct (deserialize_header_chain_output (hi_zkm_public_values i)) as [o|] eqn:Ed; [|done].
    injection Hdec as ->. apply next_history_initial in Hh as [[Hqp Hh]|]; [|by right].
    rewrite Hself in Hqp. rewrite Hqp in Hq.
    unfold header_previous in IH. rewrite Ep in IH.
    destruct (IH _ _ _ _ eq_refl Hq prev Ed ltac:(congruence) Hh) as [(hs & Hhd & Hap)|]; [left|by right].
    exists (hs ++ hi_block_headers i). split; [by destruct hs|].
    by rewrite <- (apply_blocks_resume _ _ _ _ Hap).
Qed.


End Circuit.

(** ** A proof of the genesis block

    The run over block 0, and a verifier that accepts its proof only. *)

Definition output_tuple (o : BlockHeaderCircuitOutput) :=
  let s := ho_chain_state o in
  ((block_height s, total_work s, best_block_hash s, current_target_bits s),
   (epoch_start_time s, prev_11_timestamps s, subroots (block_hashes_mmr s),
    size (block_hashes_mmr s)),
   (ho_self_program_id o, ho_program_history_hash o, ho_upgrade_checkpoint_hash o)).

Definition output_of_tuple t : BlockHeaderCircuitOutput :=
  let '((h, w, b, c), (e, r, m, n), (p, hist, chk)) := t in
  mkHeaderOutput (mkChain h w b c e r (mkGuest m n)) p hist chk.

#[local] Existing Instances sha256_exec u256_bytes u256_bytes_laws.
#[local] Instance circuit_network : BuildNetwork := Bitcoin.
#[local] Instance circuit_checks : OverflowChecks := false.
#[local] Instance circuit_retarget : NextWork := λ bits _ _, bits.
#[local] Instance circuit_genesis : GenesisBlocks := λ _, block_0.

#[local] Instance sample_output_codec : HeaderOutputCodec := {|
  deserialize_header_chain_output l := t ← decode_bytes l; Ok (output_of_tuple t);
  commit_header_output o := encode_bytes (output_tuple o);
|}.

Lemma sample_output_laws : HeaderOutputLaws.
Proof.
  intros [[? ? ? ? ? ? []] ? ? ?]. cbn [deserialize_header_chain_output commit_header_output sample_output_codec].
  by rewrite decode_encode_bytes.
Qed.

Definition genesis_output : BlockHeaderCircuitOutput :=
  mkHeaderOutput (after_blocks [block_0]) sample_program (initial_history Header) zero32.

Definition genesis_input : HeaderChainCircuitInput :=
  mkHeaderInput [] [] [] [] sample_program GenesisBlock [block_0].

Lemma genesis_run v : header_chain_circuit (G := one_proof v) genesis_input = Ok genesis_output.
Proof. by vm_compute. Qed.

#[local] Instance genesis_verifier : Groth16 := one_proof (commit_header_output genesis_output).

Lemma genesis_attested :
  attested header_guest header_previous sample_program (commit_header_output genesis_output).
Proof.
  apply (attested_run _ _ _ genesis_input); [|intros ? ? ? ? Hp; discriminate Hp].
  unfold header_guest, genesis_verifier. rewrite genesis_run. cbn [mbind outcome_bind]. reflexivity.
Qed.

Lemma genesis_sound : groth16_sound header_guest header_previous sample_program.
Proof. intros proof v vk zkm_version ->%one_proof_only. exact genesis_attested. Qed.

