(* ===== verification/PublisherSet.v ===== *)
(** * Publisher multisig

    Source: circuits/crates/commit-chain/src/publisher.rs.  The publishers of a
    commitment jointly hold the output that the next commitment spends: a P2WSH
    output with an m-of-n CHECKMULTISIG script.  Keys, signatures, script encoding
    and signature hashes (crates [bitcoin] and [secp256k1]) are the interface
    [BitcoinCrypto]. *)

From Stdlib Require Import Init.Byte.
From stdpp Require Import base list vector strings.
From S2P Require Import Prelude Bytes Transaction.

Local Open Scope Z_scope.

(** One element of a decoded script. *)
Inductive Instruction :=
| PushBytes (data : list byte)
| Op (opcode : Z).

Definition OP_RETURN : Z := 0x6a.

Class BitcoinCrypto := {
  PublicKey : Type;
  PublicKey_eq_dec :: EqDecision PublicKey;
  pk_serialize : PublicKey → list byte;
  EcdsaSignature : Type;
  sig_from_der : list byte → outcome EcdsaSignature;
  SighashType : Type;
  sighash_from_consensus : Z → SighashType;
  p2wsh_signature_hash :
    CircuitTransaction → nat → list byte → Z → SighashType → outcome hash32;
  verify_ecdsa : hash32 → EcdsaSignature → PublicKey → bool;
  (* [ScriptBuf::new_p2wsh(&script.wscript_hash())] *)
  p2wsh_script : list byte → list byte;
  (* the bytes [Builder] appends *)
  push_int : Z → list byte;
  push_slice : list byte → list byte;
  push_opcode_checkmultisig : list byte;
  instructions_minimal : list byte → outcome (list Instruction);
  compute_txid : CircuitTransaction → hash32;
}.

(** A transaction without its witnesses. *)
Definition strip_witness (tx : CircuitTransaction) : CircuitTransaction :=
  mkTx (tx_version tx) (lock_time tx)
    (map (λ i, mkTxIn (previous_output i) (script_sig i) (sequence i) []) (input tx)) (output tx).

(** Transaction ids do not cover witnesses; equal encodings are of equal keys. *)
Class BitcoinLaws `{BC : BitcoinCrypto} := {
  compute_txid_strip tx : compute_txid (strip_witness tx) = compute_txid tx;
  pk_serialize_inj k k' : pk_serialize k = pk_serialize k' → k = k';
}.

Section Publisher.
Context `{BC : BitcoinCrypto}.
Implicit Types (public_keys : list PublicKey) (tx : CircuitTransaction).

(** The loop over the keys with the set of the encodings seen so far. *)
Fixpoint unique_loop (seen : list (list byte)) public_keys : outcome unit :=
  match public_keys with
  | [] => Ok tt
  | k :: ks =>
      if decide (pk_serialize k ∈ seen) then Err ["Duplicate Publisher public key"]
      else unique_loop (pk_serialize k :: seen) ks
  end.

Definition validate_publisher_set public_keys (threshold : N) : outcome unit :=
  let total := Z.of_nat (length public_keys) in
  if (total =? 0) || (20 <? total) || (Z.of_N threshold =? 0) || (total <? Z.of_N threshold)
  then Err ["Invalid Publisher set"]
  else unique_loop [] public_keys.

Definition create_sequencer_update_script public_keys (threshold : N) : outcome (list byte) :=
  _ ← validate_publisher_set public_keys threshold;
  Ok (push_int (Z.of_N threshold) ++ concat (map (λ k, push_slice (pk_serialize k)) public_keys) ++
      push_int (Z.of_nat (length public_keys)) ++ push_opcode_checkmultisig).

(** [finalize]: the dummy element, the signatures, the script. *)
Definition finalize tx (sigs : list (list byte)) (redeem_script : list byte)
    : outcome CircuitTransaction :=
  match input tx with
  | [] => Err ["index out of bounds"]
  | i :: rest =>
      let wtns := [[]] ++ sigs ++ [redeem_script] in
      Ok (mkTx (tx_version tx) (lock_time tx)
            (mkTxIn (previous_output i) (script_sig i) (sequence i) wtns :: rest) (output tx))
  end.

(** The signatures of a witness: DER bytes and a trailing sighash flag. *)
Fixpoint parse_sigs (raw_sigs : list (list byte)) : outcome (list (EcdsaSignature * SighashType)) :=
  match raw_sigs with
  | [] => Ok []
  | raw :: raws =>
      flag ← expect (last raw) "signature too short";
      sig ← sig_from_der (take (length raw - 1) raw);
      rest ← parse_sigs raws;
      Ok ((sig, sighash_from_consensus (byte_val flag)) :: rest)
  end.

(** The CHECKMULTISIG loop: each key either consumes the current signature or is
    skipped. *)
Fixpoint match_sigs (sighash : SighashType → outcome hash32) (threshold : nat)
    public_keys (sigs : list (EcdsaSignature * SighashType)) (matched : nat) : outcome nat :=
  match public_keys with
  | [] => Ok matched
  | k :: ks =>
      match sigs with
      | [] => Ok matched
      | (sig, ty) :: sigs' =>
          msg ← sighash ty;
          if verify_ecdsa msg sig k then
            if (threshold <=? matched + 1)%nat then Ok (matched + 1)%nat
            else match_sigs sighash threshold ks sigs' (matched + 1)
          else match_sigs sighash threshold ks sigs matched
      end
  end.

Definition verify_p2wsh_multisig_witness tx (input_index : nat) (prevout : TxOut)
    (redeem_script : list byte) public_keys (threshold : N) : outcome bool :=
  txin ← index (input tx) input_index;
  let w := witness txin in
  if decide (script_pubkey prevout ≠ p2wsh_script redeem_script)
  then Err ["prevout script_pubkey does not match redeem_script"]
  else if (length w <? 2)%nat then Err ["witness too short"]
  else if decide (last w ≠ Some redeem_script)
  then Err ["redeem_script mismatch with witness last element"]
  else
    let raw_sigs := take (length w - 2) (drop 1 w) in
    if decide (raw_sigs = []) then Ok false
    else
      sigs ← parse_sigs raw_sigs;
      matched ← match_sigs (p2wsh_signature_hash tx input_index redeem_script (value prevout))
                  (N.to_nat threshold) public_keys sigs 0;
      Ok (Z.of_N threshold <=? Z.of_nat matched).

(** ** What the multisig shows *)

Lemma unique_loop_NoDup `{BL : !BitcoinLaws} seen public_keys u :
  unique_loop seen public_keys = Ok u →
  NoDup public_keys ∧ ∀ k, k ∈ public_keys → pk_serialize k ∉ seen.
Proof.
  revert seen. induction public_keys as [|k ks IH]; intros seen H.
  - split; [constructor|]. by intros k ?%not_elem_of_nil.
  - cbn in H. destruct (decide _) as [|Hk]; [done|]. destruct (IH _ H) as [Hn Hs]. split.
    + constructor; [|done]. intros Hin. destruct (Hs k Hin). by left.
    + intros k' [->|Hin]%elem_of_cons; [done|]. intros Hx. destruct (Hs k' Hin). by right.
Qed.

Lemma validate_publisher_set_Ok `{BL : !BitcoinLaws} public_keys threshold u :
  validate_publisher_set public_keys threshold = Ok u →
  NoDup public_keys ∧ 1 ≤ Z.of_N threshold ≤ Z.of_nat (length public_keys) ≤ 20.
Proof.
  unfold validate_publisher_set. intros H. destruct (_ || _) eqn:E; [done|].
  apply unique_loop_NoDup in H as [H _]. brefl. split; [done|]. lia.
Qed.

(** A signature of [tx]'s input by key [k], under the flag it carries. *)
Definition signs (sighash : SighashType → outcome hash32)
    (st : EcdsaSignature * SighashType) (k : PublicKey) : Prop :=
  ∃ msg, sighash st.2 = Ok msg ∧ verify_ecdsa msg st.1 k = true.

Lemma match_sigs_sound sighash threshold public_keys sigs matched n :
  match_sigs sighash threshold public_keys sigs matched = Ok n →
  ∃ k signers, n = (matched + k)%nat ∧ signers `sublist_of` public_keys ∧
    Forall2 (signs sighash) (take k sigs) signers ∧ length signers = k.
Proof.
  revert sigs matched. induction public_keys as [|p ks IH]; intros sigs matched H.
  { injection H as <-. exists 0%nat, []. split_and!; [lia|done|done|done]. }
  cbn in H. destruct sigs as [|[sig ty] sigs].
  { injection H as <-. exists 0%nat, []. split_and!; [lia| |done|done].
    apply sublist_nil_l. }
  apply outcome_bind_Ok in H as (msg & Hm & H).
  destruct (verify_ecdsa msg sig p) eqn:Ev.
  - destruct (_ <=? _)%nat.
    + injection H as <-. exists 1%nat, [p]. split_and!; [done| | |done].
      * apply sublist_skip. apply sublist_nil_l.
      * constructor; [by exists msg|]. constructor.
    + destruct (IH _ _ H) as (k & signers & -> & Hs & Hf & <-).
      exists (S (length signers)), (p :: signers). split_and!; [lia| | |done].
      * by apply sublist_skip.
      * cbn. constructor; [by exists msg|done].
  - destruct (IH _ _ H) as (k & signers & -> & Hs & Hf & Hl).
    exists k, signers. split_and!; [done| |done|done]. by apply sublist_cons.
Qed.

(** The loop finds the signers if there are enough, in the order of the keys. *)
Lemma match_sigs_complete sighash threshold public_keys sigs matched need signers :
  (0 < need)%nat → (matched + need = threshold)%nat → signers `sublist_of` public_keys →
  Forall2 (signs sighash) (take need sigs) signers → length signers = need →
  match_sigs sighash threshold public_keys sigs matched = Ok threshold.
Proof.
  revert sigs matched need signers.
  induction public_keys as [|p ks IH]; intros sigs matched need signers Hn Ht Hs Hf Hl.
  { apply sublist_nil_r in Hs as ->. cbn in Hl. lia. }
  destruct signers as [|s1 rest]; [cbn in Hl; lia|].
  destruct need as [|need]; [lia|]. destruct sigs as [|[sig ty] sigs]; [by inversion Hf|].
  cbn [take] in Hf. apply Forall2_cons in Hf as [(msg & Hm & Hv) Hf]. cbn in Hm, Hv, Hl. cbn.
  rewrite Hm. cbn.
  assert (rest `sublist_of` ks) as Hrest.
  { inversion Hs as [| |]; subst; [done|]. etrans; [|done]. by apply sublist_cons. }
  destruct (verify_ecdsa msg sig p) eqn:Ev.
  - destruct (threshold <=? matched + 1)%nat eqn:E.
    + apply Nat.leb_le in E. f_equal. lia.
    + apply Nat.leb_gt in E. apply (IH sigs (matched + 1)%nat need rest); [lia|lia|done|done|lia].
  - apply (IH ((sig, ty) :: sigs) matched (S need) (s1 :: rest)); [lia|lia| | |cbn; lia].
    + inversion Hs; subst; [congruence|done].
    + cbn. constructor; [by exists msg|done].
Qed.

Lemma verify_multisig_sound tx i prevout redeem_script public_keys threshold :
  verify_p2wsh_multisig_witness tx i prevout redeem_script public_keys threshold = Ok true →
  ∃ txin sigs signers,
    input tx !! i = Some txin ∧ script_pubkey prevout = p2wsh_script redeem_script ∧
    last (witness txin) = Some redeem_script ∧
    parse_sigs (take (length (witness txin) - 2) (drop 1 (witness txin))) = Ok sigs ∧
    signers `sublist_of` public_keys ∧ Z.of_N threshold ≤ Z.of_nat (length signers) ∧
    Forall2 (signs (p2wsh_signature_hash tx i redeem_script (value prevout)))
      (take (length signers) sigs) signers.
Proof.
  intros H. unfold verify_p2wsh_multisig_witness in H.
  apply outcome_bind_Ok in H as (txin & Hi & H). apply index_Ok in Hi.
  destruct (decide _) as [|Hp%dec_stable]; [done|]. destruct (_ <? 2)%nat; [done|].
  destruct (decide _) as [|Hlast%dec_stable]; [done|]. destruct (decide _) as [|_]; [done|].
  apply outcome_bind_Ok in H as (sigs & Hs & H). apply outcome_bind_Ok in H as (n & Hm & H).
  injection H as H. brefl.
  destruct (match_sigs_sound _ _ _ _ _ _ Hm) as (k & signers & -> & Hsub & Hf & <-).
  exists txin, sigs, signers. split_and!; try done; lia.
Qed.

Lemma verify_multisig_complete tx prevout redeem_script public_keys threshold unsigned raw sigs
    signers :
  1 ≤ Z.of_N threshold → finalize unsigned raw redeem_script = Ok tx →
  script_pubkey prevout = p2wsh_script redeem_script →
  parse_sigs raw = Ok sigs → signers `sublist_of` public_keys →
  length signers = N.to_nat threshold →
  Forall2 (signs (p2wsh_signature_hash tx 0 redeem_script (value prevout)))
    (take (length signers) sigs) signers →
  verify_p2wsh_multisig_witness tx 0 prevout redeem_script public_keys threshold = Ok true.
Proof.
  intros Hr Hfin Hp Hparse Hsub Hl Hf.
  unfold finalize in Hfin. destruct (input unsigned) as [|i0 rest]; [done|]. injection Hfin as <-.
  unfold verify_p2wsh_multisig_witness. cbn [input index lookup list_lookup expect mbind outcome_bind
    witness]. set (w := [] :: raw ++ [redeem_script]).
  assert (take (length w - 2) (drop 1 w) = raw) as Hw.
  { unfold w. cbn [app length drop]. rewrite length_app. cbn [length].
    replace (S (length raw + 1) - 2)%nat with (length raw) by lia. apply take_app_length. }
  assert (last w = Some redeem_script) as Hlast by (unfold w; rewrite app_comm_cons; apply last_snoc).
  assert ((length w <? 2)%nat = false) as Hlen
    by (apply Nat.ltb_ge; unfold w; cbn [length]; rewrite length_app; cbn; lia).
  rewrite decide_False by (intros Hn; by apply Hn).
  rewrite Hlen, Hw, decide_False by (intros Hn; by apply Hn).
  rewrite decide_False by (intros ->; injection Hparse as <-;
    destruct signers; [cbn in Hl; lia|by inversion Hf]).
  rewrite Hparse. cbn [mbind outcome_bind].
  rewrite (match_sigs_complete _ _ _ _ 0 (length signers) signers); try done; try lia.
  cbn. f_equal. apply Z.leb_le. lia.
Qed.

(** What the publisher multisig decides.  The check accepts only witnesses in
    which at least the threshold of publishers -- a sublist of the committed keys,
    hence different ones -- each signed the transaction under the flag their
    signature carries, for an output locked to that very script.  Conversely it
    accepts every witness built by [finalize] from the signatures of a threshold
    of publishers, given in the order of the keys. *)
Theorem multisig_threshold `{BL : !BitcoinLaws} tx prevout redeem_script public_keys threshold u :
  validate_publisher_set public_keys threshold = Ok u →
  (∀ i, verify_p2wsh_multisig_witness tx i prevout redeem_script public_keys threshold = Ok true →
     script_pubkey prevout = p2wsh_script redeem_script ∧
     ∃ signers, signers `sublist_of` public_keys ∧ NoDup signers ∧
       1 ≤ Z.of_N threshold ≤ Z.of_nat (length signers) ∧
       ∀ k, k ∈ signers →
         ∃ st, signs (p2wsh_signature_hash tx i redeem_script (value prevout)) st k) ∧
  (∀ unsigned raw_sigs sigs signers,
     finalize unsigned raw_sigs redeem_script = Ok tx →
     script_pubkey prevout = p2wsh_script redeem_script →
     parse_sigs raw_sigs = Ok sigs → signers `sublist_of` public_keys →
     length signers = N.to_nat threshold →
     Forall2 (signs (p2wsh_signature_hash tx 0 redeem_script (value prevout)))
       (take (length signers) sigs) signers →
     verify_p2wsh_multisig_witness tx 0 prevout redeem_script public_keys threshold = Ok true).
Proof.
  intros Hval. destruct (validate_publisher_set_Ok _ _ _ Hval) as [Hnd Hr]. split.
  - intros i Hv.
    destruct (verify_multisig_sound _ _ _ _ _ _ Hv) as (txin & sigs & signers & H).
    destruct H as (_ & Hp & _ & _ & Hsub & Hl & Hf). split; [done|].
    exists signers. split_and!; [done|by eapply sublist_NoDup|lia|done|].
    intros k (j & Hk)%list_elem_of_lookup.
    destruct (Forall2_lookup_r _ _ _ _ _ Hf Hk) as (st & _ & Hst). eauto.
  - intros unsigned raw sigs signers Hfin Hp Hparse Hsub Hl Hf.
    eapply verify_multisig_complete; try done. lia.
Qed.

End Publisher.

(** ** A two-of-three set

    Keys are byte strings, and a key's signature is the key itself. *)

Definition key_crypto : BitcoinCrypto := {|
  PublicKey := list byte;
  PublicKey_eq_dec := _;
  pk_serialize k := k;
  EcdsaSignature := list byte;
  sig_from_der s := Ok s;
  SighashType := Z;
  sighash_from_consensus z := z;
  p2wsh_signature_hash _ _ _ _ _ := Ok zero32;
  verify_ecdsa _ sig k := bool_decide (sig = k);
  p2wsh_script s := Byte.x00 :: Byte.x20 :: vec_to_list (@sha256 sha256_exec s);
  push_int n := [byte_of (0x50 + n)];
  push_slice s := byte_of (Z.of_nat (length s)) :: s;
  push_opcode_checkmultisig := [Byte.xae];
  instructions_minimal s :=
    match s with
    | Byte.x6a :: _ :: data => Ok [Op OP_RETURN; PushBytes data]
    | _ => Err ["not a data output"]
    end;
  compute_txid tx := @txid sha256_exec consensus_exec tx;
|}.

Lemma key_crypto_laws : @BitcoinLaws key_crypto.
Proof.
  split; [|done]. intros [v l ins outs]. unfold compute_txid, key_crypto, txid, consensus_exec, strip_witness.
  cbn [tx_version lock_time input output encode_version encode_inputs encode_outputs encode_lock_time].
  by rewrite length_map, map_map.
Qed.

#[local] Existing Instance key_crypto.

Definition three_keys : list (list byte) := [[Byte.x01]; [Byte.x02]; [Byte.x03]].
Definition two_of_three : list byte := Eval vm_compute in
  match create_sequencer_update_script (BC := key_crypto) three_keys 2 with Ok s => s | Err _ => [] end.
Definition connector : TxOut := Eval vm_compute in mkTxOut 1000 (p2wsh_script two_of_three).
Definition unsigned_update : CircuitTransaction :=
  mkTx 2 0 [mkTxIn (mkOutPoint zero32 0) [] 0xffffffff []] [].
(** Signed by the first and the third key, under SIGHASH_ALL. *)
Definition signed_update : CircuitTransaction := Eval vm_compute in
  match finalize unsigned_update [[Byte.x01; Byte.x01]; [Byte.x03; Byte.x01]] two_of_three with
  | Ok t => t | Err _ => unsigned_update end.

Lemma multisig_threshold_witness :
  verify_p2wsh_multisig_witness (BC := key_crypto) signed_update 0 connector two_of_three three_keys 2 = Ok true.
Proof.
  destruct (multisig_threshold (BL := key_crypto_laws) signed_update connector two_of_three
              three_keys 2 tt) as [_ H]; [by vm_compute|].
  apply (H unsigned_update [[Byte.x01; Byte.x01]; [Byte.x03; Byte.x01]]
           [([Byte.x01], 1); ([Byte.x03], 1)] [[Byte.x01]; [Byte.x03]]);
    [by vm_compute|reflexivity|by vm_compute| |reflexivity|].
  - apply sublist_skip, sublist_cons, sublist_skip, sublist_nil_l.
  - repeat constructor; by exists zero32.
Defined.
