(* ===== verification/Spv.v ===== *)
(** * Simplified payment verification

    Source: circuits/crates/header-chain/src/spv.rs, and the building of proofs in
    circuits/crates/bitcoin-light-client-circuit.  An [SPV] ties a
    transaction to a block header by a Merkle path and the header to a chain
    state by a path in the chain's Merkle mountain range. *)

From Stdlib Require Import Init.Byte.
From stdpp Require Import base list vector strings.
From S2P Require Import Prelude Bytes Mmr MerkleTree HeaderChain HeaderSpec Transaction PublisherSet.

Local Open Scope Z_scope.

Record SPV := mkSpv {
  transaction : CircuitTransaction;
  block_inclusion_proof : BlockInclusionProof;
  block_header : CircuitBlockHeader;
  mmr_inclusion_proof : MMRInclusionProof;
}.

Section Spv.
Context `{SHA : Sha256} `{OC : OverflowChecks} `{CE : ConsensusEncode}.

(** The authenticated height, if the proofs hold. *)
Definition SPV_verify (p : SPV) (mmr_guest : MMRGuest) : option Z :=
  let id := txid (transaction p) in
  let block_merkle_root := get_root (block_inclusion_proof p) id in
  if decide (block_merkle_root ≠ merkle_root (block_header p)) then None
  else
    let block_hash := compute_block_hash (block_header p) in
    if MMRGuest_verify_proof mmr_guest block_hash (mmr_inclusion_proof p)
    then Some (leaf_index (mmr_inclusion_proof p)) else None.

(** ** Headers are bound by their hashes *)

(** The fields are of their machine types. *)
Definition header_ok (h : CircuitBlockHeader) : Prop :=
  - 2 ^ 31 ≤ version h < 2 ^ 31 ∧ 0 ≤ time h < 2 ^ 32 ∧ 0 ≤ bits h < 2 ^ 32 ∧
  0 ≤ nonce h < 2 ^ 32.

Lemma le_bytes_app_inj n a b l m :
  le_bytes n a ++ l = le_bytes n b ++ m →
  a mod 256 ^ Z.of_nat n = b mod 256 ^ Z.of_nat n ∧ l = m.
Proof.
  intros H. apply app_inj_1 in H as [H ->]; [|by rewrite !le_bytes_length].
  split; [by apply le_bytes_inj|done].
Qed.

Lemma header_preimage_inj h h' :
  header_ok h → header_ok h' → header_preimage h = header_preimage h' → h = h'.
Proof.
  intros (Hv & Ht & Hb & Hn) (Hv' & Ht' & Hb' & Hn') H. unfold header_preimage in H.
  apply le_bytes_app_inj in H as [E1 H]. apply vec_app_inj in H as [E2 H].
  apply vec_app_inj in H as [E3 H]. apply le_bytes_app_inj in H as [E4 H].
  apply le_bytes_app_inj in H as [E5 H]. apply le_bytes_inj in H as E6.
  change (256 ^ Z.of_nat 4) with (2 ^ 32) in *.
  rewrite !Z.mod_small in E4, E5, E6 by done.
  assert (version h = version h') as E1'.
  { assert ((version h + 2 ^ 31) mod 2 ^ 32 = (version h' + 2 ^ 31) mod 2 ^ 32) as E'
      by (rewrite <- Z.add_mod_idemp_l, E1, Z.add_mod_idemp_l by done; done).
    rewrite !Z.mod_small in E' by lia. lia. }
  destruct h, h'; cbn in *; congruence.
Qed.

Lemma block_hash_binds h h' :
  header_ok h → header_ok h' → compute_block_hash h = compute_block_hash h' →
  h = h' ∨ collision.
Proof.
  intros H H' [E|]%double_sha256_binds; [|by right]. left. by apply header_preimage_inj.
Qed.

(** ** Correctness *)

(** The header of a verified proof is the one at the height. *)
Lemma spv_at_height (hs : list CircuitBlockHeader) mmr p height :
  len hs < u32_modulus → Forall header_ok hs → header_ok (block_header p) →
  0 ≤ leaf_index (mmr_inclusion_proof p) →
  guest_of (map compute_block_hash hs) = Ok mmr → SPV_verify p mmr = Some height →
  (hs !! Z.to_nat height = Some (block_header p) ∧
   get_root (block_inclusion_proof p) (txid (transaction p)) = merkle_root (block_header p)) ∨
  collision.
Proof.
  intros Hl Hok Hok' Hi Hg Hv. unfold SPV_verify in Hv.
  destruct (decide _) as [|Hroot%dec_stable]; [done|].
  destruct (MMRGuest_verify_proof _ _ _) eqn:Hm; [injection Hv as <-|done].
  destruct (guest_verify_sound _ _ _ _ ltac:(by rewrite length_map) Hg Hi Hm) as [Hat|]; [|by right].
  rewrite list_lookup_fmap in Hat. apply fmap_Some in Hat as (h & Hh & Heq).
  assert (header_ok h) as Hokh by (by apply (Forall_lookup_1 _ _ _ _ Hok Hh)).
  by destruct (block_hash_binds _ _ Hok' Hokh Heq) as [<-|]; [left|right].
Qed.


(** Every transaction of every block has a payment proof.  For a chain of
    headers, a block of it and the ids of its transactions, the proofs the native
    side generates -- from its range of block hashes and from the block's tree --
    form an [SPV] that verifies against the circuit's range, at the height of the
    block. *)
Theorem spv_complete (hs : list CircuitBlockHeader) h header (txs : list CircuitTransaction) i tx :
  len hs < u32_modulus → Z.of_nat (length txs) < u32_modulus →
  hs !! h = Some header → txs !! i = Some tx →
  (∃ tree, BitcoinMerkleTree_new (map txid txs) = Ok tree ∧ tree_root tree = Ok (merkle_root header)) →
  ∃ host guest tree leaf mmr_proof tx_proof,
    host_of (map compute_block_hash hs) = Ok host ∧
    guest_of (map compute_block_hash hs) = Ok guest ∧
    BitcoinMerkleTree_new (map txid txs) = Ok tree ∧
    generate_proof host (Z.of_nat h) = Ok (leaf, mmr_proof) ∧
    tree_generate_proof tree (Z.of_nat i) = Ok tx_proof ∧
    SPV_verify (mkSpv tx tx_proof header mmr_proof) guest = Some (Z.of_nat h).
Proof.
  intros Hl Hn Hh Hi (tree & Hnew & Hroot).
  destruct (range_proofs (map compute_block_hash hs)) as (host & guest & Hho & Hgu & _ & _ & Hp);
    [by rewrite length_map|].
  specialize (Hp h). rewrite list_lookup_fmap, Hh in Hp. cbn in Hp. destruct Hp as (path & Hg & _ & Hv).
  assert (map txid txs ≠ []) as Hne by (by destruct txs).
  destruct (tree_proofs (map txid txs) Hne) as (tree' & root & Hnew' & Hroot' & _ & Ht);
    [by rewrite length_map|].
  assert (tree' = tree) as -> by congruence.
  destruct (Ht i (txid tx)) as (tpath & Htp & _ & Htv); [by rewrite list_lookup_fmap, Hi|].
  exists host, guest, tree, (compute_block_hash header), (mkMmrProof (Z.of_nat h) path),
    (mkBlockProof (Z.of_nat i) tpath).
  split_and!; [done..|]. unfold SPV_verify. cbn -[get_root].
  apply bool_decide_eq_true_1 in Htv. rewrite decide_False by (intros Hx; apply Hx; congruence).
  by rewrite Hv.
Qed.

End Spv.

(** ** The first payment proof

    The coinbase of block 1. *)

#[local] Existing Instance consensus_exec.
#[local] Existing Instance sha256_exec.
#[local] Instance spv_checks : OverflowChecks := true.

Definition coinbase_1 : CircuitTransaction := {|
  tx_version := 1;
  lock_time := 0;
  input := [mkTxIn (mkOutPoint zero32 0xffffffff) (hex "04ffff001d0104") 0xffffffff []];
  output := [mkTxOut 5000000000 (hex
    "410496b538e853519c726a2c91e61ec11600ae1390813a627c66fb8be7947be63c52da7589379515d4e0a604f8141781e62294721166bf621e73a82cbf2342c858eeac")];
|}.

Example coinbase_1_id : txid coinbase_1 = merkle_root block_1.
Proof. by vm_compute. Qed.

Definition first_headers : list CircuitBlockHeader := [block_0; block_1].
Definition first_range : MMRGuest :=
  match guest_of (map compute_block_hash first_headers) with Ok g => g | Err _ => MMRGuest_new end.
Definition first_spv : SPV :=
  mkSpv coinbase_1 (mkBlockProof 0 []) block_1 (mkMmrProof 1 [compute_block_hash block_0]).


Lemma spv_complete_witness :
  ∃ guest mmr_proof tx_proof,
    SPV_verify (mkSpv coinbase_1 tx_proof block_1 mmr_proof) guest = Some (Z.of_nat 1).
Proof.
  destruct (spv_complete first_headers 1 block_1 [coinbase_1] 0 coinbase_1)
    as (host & guest & tree & leaf & mp & tp & H & H1 & H2 & H3 & H4 & H5);
    [by vm_compute..| |by exists guest, mp, tp].
  exists (mkTree [[txid coinbase_1]]). split; by vm_compute.
Defined.

(** * Building payment proofs

    Source: circuits/crates/bitcoin-light-client-circuit/src/lib.rs,
    [build_spv].  The native side builds the payment proof of a transaction from
    the headers of the chain and the block's transactions. *)

Local Open Scope Z_scope.

Section Build.
Context `{SHA : Sha256} `{OC : OverflowChecks} `{CE : ConsensusEncode} `{BC : BitcoinCrypto}.

(** [txdata] are the transactions of the target block. *)
Definition build_spv (raw_txn : CircuitTransaction) (target_block_pos : nat)
    (txdata : list CircuitTransaction) (block_headers : list CircuitBlockHeader) : outcome SPV :=
  let latest_sequencer_commit_txid := compute_txid raw_txn in
  mmr_native ← host_of (map compute_block_hash block_headers);
  target_block_header ← index block_headers target_block_pos;
  let tx_pos := fst <$> list_find (λ x, compute_txid x = latest_sequencer_commit_txid) txdata in
  tx_pos ← expect tx_pos "tx_pos.is_some()";
  bitcoin_merkle_tree ← BitcoinMerkleTree_new (map compute_txid txdata);
  bitcoin_inclusion_proof ← tree_generate_proof bitcoin_merkle_tree (Z.of_nat tx_pos);
  root ← tree_root bitcoin_merkle_tree;
  _ ← require (verify_merkle_proof latest_sequencer_commit_txid bitcoin_inclusion_proof root)
        "Can not verify merkle proof";
  '(_, mmr_inclusion_proof) ← generate_proof mmr_native (Z.of_nat target_block_pos);
  Ok (mkSpv raw_txn bitcoin_inclusion_proof target_block_header mmr_inclusion_proof).

(** The id of crate [bitcoin] is the one the circuit computes. *)
Class TxidLaw := compute_txid_txid tx : compute_txid tx = txid tx.

(** Every confirmed transaction has a payment proof.  For a chain of headers,
    a block of it whose Merkle root is that of its transactions and a transaction
    of the block, [build_spv] returns a proof, and the circuit's [SPV::verify]
    accepts it against the chain's range of block hashes, at the block's height. *)
Theorem build_spv_verifies `{TL : !TxidLaw} (hs : list CircuitBlockHeader) pos header
    (txs : list CircuitTransaction) tx :
  len hs < u32_modulus → Z.of_nat (length txs) < u32_modulus →
  hs !! pos = Some header → tx ∈ txs →
  (∃ tree, BitcoinMerkleTree_new (map compute_txid txs) = Ok tree ∧
     tree_root tree = Ok (merkle_root header)) →
  ∃ spv guest, build_spv tx pos txs hs = Ok spv ∧
    guest_of (map compute_block_hash hs) = Ok guest ∧
    transaction spv = tx ∧ SPV_verify spv guest = Some (Z.of_nat pos).
Proof.
  intros Hl Hn Hh Htx (tree & Hnew & Hroot).
  destruct (range_proofs (map compute_block_hash hs)) as (host & guest & Hho & Hgu & _ & _ & Hp);
    [by rewrite length_map|].
  specialize (Hp pos). rewrite list_lookup_fmap, Hh in Hp. destruct Hp as (path & Hg & _ & Hv).
  destruct (list_find_elem_of (λ x, compute_txid x = compute_txid tx) txs tx Htx eq_refl)
    as [[i tx'] Hf].
  pose proof (proj1 (list_find_Some _ _ _ _) Hf) as (Hi & Hid & _).
  assert (map compute_txid txs ≠ []) as Hne by (by destruct txs).
  destruct (tree_proofs (map compute_txid txs) Hne) as (tree' & root & Hnew' & Hroot' & _ & Ht);
    [by rewrite length_map|].
  assert (tree' = tree) as -> by congruence.
  destruct (Ht i (compute_txid tx)) as (tpath & Htp & _ & Htv); [by rewrite list_lookup_fmap, Hi; cbn; rewrite Hid|].
  exists (mkSpv tx (mkBlockProof (Z.of_nat i) tpath) header (mkMmrProof (Z.of_nat pos) path)), guest.
  split_and!; [|done|done|].
  - unfold build_spv, index. rewrite Hho, Hh, Hf. cbn [mbind outcome_bind expect fmap option_fmap option_map fst].
    rewrite Hnew. cbn [mbind outcome_bind]. rewrite Htp. cbn [mbind outcome_bind].
    rewrite Hroot'. cbn [mbind outcome_bind]. rewrite Htv. cbn [mbind outcome_bind require].
    by rewrite Hg.
  - unfold SPV_verify. cbn -[get_root]. apply bool_decide_eq_true_1 in Htv.
    rewrite <- compute_txid_txid. rewrite decide_False by (intros Hx; apply Hx; congruence).
    by rewrite Hv.
Qed.

End Build.

(** ** The first transaction of block 1 *)

#[local] Existing Instances sha256_exec consensus_exec key_crypto.
#[local] Instance build_release : OverflowChecks := false.

Lemma key_crypto_txid : TxidLaw.
Proof. intros tx. reflexivity. Qed.

Lemma build_spv_verifies_witness :
  ∃ spv guest, build_spv coinbase_1 1 [coinbase_1] first_headers = Ok spv ∧
    guest_of (map compute_block_hash first_headers) = Ok guest ∧
    transaction spv = coinbase_1 ∧ SPV_verify spv guest = Some (Z.of_nat 1).
Proof.
  apply (build_spv_verifies (TL := key_crypto_txid) first_headers 1 block_1 [coinbase_1] coinbase_1).
  - reflexivity.
  - reflexivity.
  - reflexivity.
  - by left.
  - exists (unwrap_or (BitcoinMerkleTree_new [compute_txid coinbase_1]) (mkTree [])).
    split; [vm_cast_no_check (eq_refl (BitcoinMerkleTree_new [compute_txid coinbase_1]))|].
    vm_cast_no_check (eq_refl (Ok (merkle_root block_1))).
Defined.
