(* ===== verification/CommitChain.v ===== *)
(** * The commit chain

    Source: circuits/crates/commit-chain/src/commit_chain.rs and lib.rs.  The
    publishers commit on Bitcoin, transaction after transaction, to the sequencer
    set, the genesis block of the state chain and the identities of the circuits;
    each commitment spends the connector output of the one before it.  The circuit
    checks a list of such commitments from the genesis transaction on.  The hash of
    a sequencer set (crate [tendermint]) and the encoding of the public values
    (crate [bincode]) are parameters. *)

From Stdlib Require Import Init.Byte.
From stdpp Require Import base vector strings list.
From S2P Require Import Prelude Bytes Transaction Verifier PublisherSet.

Local Open Scope Z_scope.

(** ** Data *)

Record AuthorizedProgramIds := mkAuthorized {
  ap_header : ProgramId;
  ap_state : ProgramId;
  ap_commit : ProgramId;
  ap_watchtower : ProgramId;
}.

#[export] Instance AuthorizedProgramIds_eq_dec : EqDecision AuthorizedProgramIds.
Proof. solve_decision. Defined.

Definition AuthorizedProgramIds_default : AuthorizedProgramIds :=
  mkAuthorized zero32 zero32 zero32 zero32.

Definition AuthorizedProgramIds_validate (a : AuthorizedProgramIds) : outcome unit :=
  if decide (zero32 ∈ [ap_header a; ap_state a; ap_commit a; ap_watchtower a])
  then Err ["authorized ProgramIds must be non-zero"] else Ok tt.

Record SequencerInfo := mkSequencer {
  sq_address : list byte;
  sq_pub_key : list byte;
  sq_power : Z;
  sq_name : option (list byte);
}.

(** The publishers' view of a commitment. *)
Record CommitInfo := mkCommitInfo {
  ci_threshold : N;
  ci_publisher_public_keys : list (list byte);
  ci_next_threshold : option N;
  ci_next_publisher_public_keys : option (list (list byte));
  ci_txid : list byte;
  ci_genesis_txid : list byte;
  ci_sequencers : list SequencerInfo;
  ci_genesis_evm_block_hash : hash32;
  ci_program_history_root : hash32;
  ci_proof_checkpoint_root : hash32;
  ci_authorized_program_ids : AuthorizedProgramIds;
}.

Definition CommitInfo_active_publisher_set (c : CommitInfo) : list (list byte) * N :=
  match ci_next_publisher_public_keys c, ci_next_threshold c with
  | Some next_keys, Some next_threshold => (next_keys, next_threshold)
  | _, _ => (ci_publisher_public_keys c, ci_threshold c)
  end.

Section Commit.
Context `{SHA : Sha256} `{BC : BitcoinCrypto}.

Record CircuitCommit := mkCommit {
  cc_commit_txn : CircuitTransaction;
  cc_genesis_txid : hash32;
  cc_publisher_public_keys : list PublicKey;
  cc_threshold : N;
  cc_next_publisher_public_keys : option (list PublicKey);
  cc_next_threshold : option N;
  cc_sequencers : list SequencerInfo;
  cc_genesis_evm_block_hash : hash32;
  cc_program_history_root : hash32;
  cc_block_height : Z;
  cc_proof_checkpoint_root : hash32;
  cc_authorized_program_ids : AuthorizedProgramIds;
}.

Record CommitChainState := mkCommitState {
  cs_block_height : Z;
  cs_commit_txn : CircuitTransaction;
  cs_genesis_txid : hash32;
  cs_sequencers : list SequencerInfo;
  cs_publisher_public_keys : list PublicKey;
  cs_threshold : N;
  cs_proof_checkpoint_root : hash32;
  cs_authorized_program_ids : AuthorizedProgramIds;
}.

(** The set that the transaction's own connector commits to. *)
Definition active_publisher_set (c : CircuitCommit) : list PublicKey * N :=
  match cc_next_publisher_public_keys c, cc_next_threshold c with
  | Some next_keys, Some next_threshold => (next_keys, next_threshold)
  | _, _ => (cc_publisher_public_keys c, cc_threshold c)
  end.

(** ** Commitments *)

Definition commit_chain_commitment_digest (sequencer_set_hash genesis_evm_block_hash
    program_history_root proof_checkpoint_root : hash32) (a : AuthorizedProgramIds)
    : outcome hash32 :=
  _ ← require (bool_decide (program_history_root ≠ zero32)) "program history root must be non-zero";
  _ ← require (bool_decide (proof_checkpoint_root ≠ zero32)) "proof checkpoint root must be non-zero";
  _ ← AuthorizedProgramIds_validate a;
  Ok (sha256 (tag "bitvm/commit-chain/v2" ++
              vec_to_list sequencer_set_hash ++ vec_to_list genesis_evm_block_hash ++
              vec_to_list program_history_root ++ vec_to_list proof_checkpoint_root ++
              vec_to_list (ap_header a) ++ vec_to_list (ap_state a) ++
              vec_to_list (ap_commit a) ++ vec_to_list (ap_watchtower a))).

Definition extract_commit_chain_commitment (tx_output : list TxOut) : outcome hash32 :=
  match tx_output with
  | [_; out] =>
      if value out =? 0 then
        instructions ← instructions_minimal (script_pubkey out);
        match instructions with
        | [first; second] =>
            match first with
            | Op op =>
                if op =? OP_RETURN then
                  match second with
                  | PushBytes data =>
                      if decide (length data = 32%nat) then Ok (to_hash32 data)
                      else Err ["commitment must be 32 bytes"]
                  | Op _ => Err ["commitment must be pushed bytes"]
                  end
                else Err ["commitment output must start with OP_RETURN"]
            | PushBytes _ => Err ["commitment output must start with OP_RETURN"]
            end
        | _ => Err ["commitment script must be OP_RETURN followed by one push"]
        end
      else Err ["commitment output must have zero value"]
  | _ => Err ["commit transaction must have 2 outputs"]
  end.

(** Pushed chunks up to the one behind an OP_RETURN. *)
Fixpoint extract_data_from_commitment_outputs (txouts : list TxOut) : outcome (list byte) :=
  match txouts with
  | [] => Err ["challenge commitment is missing OP_RETURN terminator"]
  | o :: txouts =>
      instructions ← instructions_minimal (script_pubkey o);
      match instructions !! 1%nat with
      | Some (PushBytes data) =>
          match head instructions with
          | Some (Op op) =>
              if op =? OP_RETURN then Ok data
              else rest ← extract_data_from_commitment_outputs txouts; Ok (data ++ rest)
          | _ => rest ← extract_data_from_commitment_outputs txouts; Ok (data ++ rest)
          end
      | _ => Err ["challenge commitment output must contain pushed bytes"]
      end
  end.

(** ** The chain *)

(** [ValidatorSet::without_proposer(..).hash()] of the sequencers; [None] is
    tendermint's empty hash, an error an unreadable key. *)
Class SequencerHash := sequencer_hash : list SequencerInfo → outcome (option hash32).

Definition CommitChainState_new (genesis_txid : hash32) : CommitChainState := {|
  cs_block_height := u32_max;
  cs_commit_txn := mkTx 2 0 [] [];
  cs_genesis_txid := genesis_txid;
  cs_sequencers := [];
  cs_publisher_public_keys := [];
  cs_threshold := 65535;
  cs_proof_checkpoint_root := zero32;
  cs_authorized_program_ids := AuthorizedProgramIds_default;
|}.

Section Apply.
Context `{SQ : SequencerHash}.

(** The commitment in the transaction is the digest of the commit's data. *)
Definition check_commitment (c : CircuitCommit) : outcome unit :=
  actual_commitment ← extract_commit_chain_commitment (output (cc_commit_txn c));
  h ← sequencer_hash (cc_sequencers c);
  match h with
  | Some latest_sequencer_set_hash =>
      expected_commitment ←
        commit_chain_commitment_digest latest_sequencer_set_hash (cc_genesis_evm_block_hash c)
          (cc_program_history_root c) (cc_proof_checkpoint_root c) (cc_authorized_program_ids c);
      require (bool_decide (actual_commitment = expected_commitment)) "commitment"
  | None => Err ["Invalid latest sequencer set hash"]
  end.

(** The transaction spends the previous connector, with the witness of the
    publishers committed there. *)
Definition check_spends (self : CommitChainState) (c : CircuitCommit) : outcome unit :=
  update_connector ← index (input (cc_commit_txn c)) 0;
  _ ← require (bool_decide (op_txid (previous_output update_connector) =
                            compute_txid (cs_commit_txn self))) "previous txid";
  _ ← require (vout (previous_output update_connector) =? 0) "previous vout";
  prevout ← index (output (cs_commit_txn self)) 0;
  redeem_script ← create_sequencer_update_script (cs_publisher_public_keys self) (cs_threshold self);
  valid ← verify_p2wsh_multisig_witness (cc_commit_txn c) 0 prevout redeem_script
            (cs_publisher_public_keys self) (cs_threshold self);
  require valid "Publisher multisig witness does not meet threshold".

(** The first output pays to the script of the publishers that come next. *)
Definition check_connector (c : CircuitCommit) : outcome unit :=
  let '(next_keys, next_threshold) := active_publisher_set c in
  script ← create_sequencer_update_script next_keys next_threshold;
  out ← index (output (cc_commit_txn c)) 0;
  require (bool_decide (script_pubkey out = p2wsh_script script)) "next connector script".

(** One iteration of [apply_commit]. *)
Definition apply_one (self : CommitChainState) (c : CircuitCommit) : outcome CommitChainState :=
  let has_prev_commit := negb (bool_decide (output (cs_commit_txn self) = [])) in
  _ ← require (bool_decide (cc_genesis_txid c = cs_genesis_txid self)) "genesis_txid";
  _ ← (if has_prev_commit then Ok tt
       else require (bool_decide (compute_txid (cc_commit_txn c) = cs_genesis_txid self)) "genesis");
  _ ← check_commitment c;
  _ ← (if has_prev_commit then check_spends self c else Ok tt);
  _ ← check_connector c;
  let '(next_keys, next_threshold) := active_publisher_set c in
  Ok {|
    cs_block_height := cc_block_height c;
    cs_commit_txn := strip_witness (cc_commit_txn c);
    cs_genesis_txid := cs_genesis_txid self;
    cs_sequencers := cc_sequencers c;
    cs_publisher_public_keys := next_keys;
    cs_threshold := next_threshold;
    cs_proof_checkpoint_root := cc_proof_checkpoint_root c;
    cs_authorized_program_ids := cc_authorized_program_ids c;
  |}.

Definition apply_commit (self : CommitChainState) (commits : list CircuitCommit)
    : outcome CommitChainState :=
  for_each apply_one self commits.

(** ** The circuit *)

Inductive CommitChainPrevProofType := CommitGenesisBlock | CommitPrevProof.

Record CommitChainCircuitOutput := mkCommitOutput {
  co_chain_state : CommitChainState;
  co_self_program_id : ProgramId;
}.

Record CommitChainCircuitInput := mkCommitInput {
  coi_prev_proof : CommitChainPrevProofType;
  coi_zkm_proof : list byte;
  coi_zkm_public_values : list byte;
  coi_zkm_vk_hash : list byte;
  coi_zkm_version : list byte;
  coi_self_program_id : ProgramId;
  coi_commits : list CircuitCommit;
}.

Class CommitOutputCodec := {
  deserialize_commit_chain_output : list byte → outcome CommitChainCircuitOutput;
  commit_commit_output : CommitChainCircuitOutput → list byte;
}.

Class CommitOutputLaws `{CommitOutputCodec} :=
  commit_output_round o : deserialize_commit_chain_output (commit_commit_output o) = Ok o.

Section Circuit.
Context `{G : Groth16} `{CC : CommitOutputCodec}.

Definition classify_commit_chain_output (public_values : list byte)
    : outcome CommitChainPrevProofType :=
  if is_ok (deserialize_commit_chain_output public_values) then Ok CommitPrevProof
  else Err ["unknown commit-chain public output format"].

Definition decode_commit_chain_circuit_output (public_values : list byte)
    : outcome CommitChainCircuitOutput :=
  match deserialize_commit_chain_output public_values with
  | Ok o => Ok o
  | Err _ => Err ["failed to decode current commit chain circuit output"]
  end.

Definition commit_chain_circuit (i : CommitChainCircuitInput) : outcome CommitChainCircuitOutput :=
  let self_program_id := coi_self_program_id i in
  _ ← require (negb (bool_decide (coi_commits i = []))) "commit batch must be non-empty";
  chain_state ←
    match coi_prev_proof i with
    | CommitGenesisBlock =>
        first ← index (coi_commits i) 0;
        Ok (CommitChainState_new (cc_genesis_txid first))
    | CommitPrevProof =>
        previous_program_id ←
          verify_groth16_proof (coi_zkm_proof i) (coi_zkm_public_values i) (coi_zkm_vk_hash i)
            (coi_zkm_version i);
        out ← decode_commit_chain_circuit_output (coi_zkm_public_values i);
        _ ← require (bool_decide (co_self_program_id out = previous_program_id)) "self_program_id";
        _ ← require (bool_decide (previous_program_id = self_program_id))
              "commit predecessor ProgramId must match current ProgramId";
        Ok (co_chain_state out)
    end;
  chain_state ← apply_commit chain_state (coi_commits i);
  Ok (mkCommitOutput chain_state self_program_id).

(** The guest program. *)
Definition commit_guest (i : CommitChainCircuitInput) : outcome (list byte) :=
  out ← commit_chain_circuit i;
  Ok (commit_commit_output out).

(** ** Lineages *)

(** The publishers of [a]'s connector that authorised the spending of it. *)
Definition authorised (a : CircuitCommit) (b : CircuitCommit) (signers : list PublicKey) : Prop :=
  ∃ prevout script,
    output (cc_commit_txn a) !! 0%nat = Some prevout ∧
    create_sequencer_update_script (active_publisher_set a).1 (active_publisher_set a).2 = Ok script ∧
    script_pubkey prevout = p2wsh_script script ∧
    signers `sublist_of` (active_publisher_set a).1 ∧ NoDup signers ∧
    1 ≤ Z.of_N (active_publisher_set a).2 ≤ Z.of_nat (length signers) ∧
    ∀ k, k ∈ signers →
      ∃ st, signs (p2wsh_signature_hash (cc_commit_txn b) 0 script (value prevout)) st k.

(** [b] spends the connector of [a] with its publishers' consent. *)
Definition extends (a b : CircuitCommit) : Prop :=
  (∃ i, input (cc_commit_txn b) !! 0%nat = Some i ∧
     previous_output i = mkOutPoint (compute_txid (cc_commit_txn a)) 0) ∧
  ∃ signers, authorised a b signers.

(** The transaction commits to the data and to the next publishers. *)
Definition commits_to (c : CircuitCommit) : Prop :=
  (∃ h digest,
     sequencer_hash (cc_sequencers c) = Ok (Some h) ∧
     extract_commit_chain_commitment (output (cc_commit_txn c)) = Ok digest ∧
     commit_chain_commitment_digest h (cc_genesis_evm_block_hash c) (cc_program_history_root c)
       (cc_proof_checkpoint_root c) (cc_authorized_program_ids c) = Ok digest) ∧
  ∃ script out,
    create_sequencer_update_script (active_publisher_set c).1 (active_publisher_set c).2 = Ok script ∧
    output (cc_commit_txn c) !! 0%nat = Some out ∧ script_pubkey out = p2wsh_script script.

(** The state after commit [c]. *)
Definition state_after (genesis_txid : hash32) (c : CircuitCommit) : CommitChainState := {|
  cs_block_height := cc_block_height c;
  cs_commit_txn := strip_witness (cc_commit_txn c);
  cs_genesis_txid := genesis_txid;
  cs_sequencers := cc_sequencers c;
  cs_publisher_public_keys := (active_publisher_set c).1;
  cs_threshold := (active_publisher_set c).2;
  cs_proof_checkpoint_root := cc_proof_checkpoint_root c;
  cs_authorized_program_ids := cc_authorized_program_ids c;
|}.

Record lineage (genesis_txid : hash32) (commits : list CircuitCommit) (s : CommitChainState) : Prop := {
  ln_root : ∃ c, head commits = Some c ∧ compute_txid (cc_commit_txn c) = genesis_txid;
  ln_each : Forall (λ c, cc_genesis_txid c = genesis_txid ∧ commits_to c) commits;
  ln_links : ∀ i a b, commits !! i = Some a → commits !! S i = Some b → extends a b;
  ln_state : ∃ c, last commits = Some c ∧ s = state_after genesis_txid c;
}.

(** *** One commit *)

Lemma apply_one_common self c s :
  apply_one self c = Ok s →
  cc_genesis_txid c = cs_genesis_txid self ∧ commits_to c ∧ s = state_after (cs_genesis_txid self) c.
Proof.
  unfold apply_one. intros H. apply outcome_bind_Ok in H as (u1 & Hg & H).
  apply outcome_bind_Ok in H as (u2 & _ & H). apply outcome_bind_Ok in H as (u3 & Hc & H).
  apply outcome_bind_Ok in H as (u4 & _ & H). apply outcome_bind_Ok in H as (u5 & Hn & H).
  ok_inv. brefl. split; [done|]. split.
  - unfold check_commitment in Hc. apply outcome_bind_Ok in Hc as (actual & Ha & Hc).
    apply outcome_bind_Ok in Hc as (h & Hh & Hc). destruct h as [h|]; [|done].
    apply outcome_bind_Ok in Hc as (expected & He & Hc). ok_inv. brefl. subst expected.
    split; [by exists h, actual|].
    unfold check_connector in Hn. destruct (active_publisher_set c) as [ks t].
    apply outcome_bind_Ok in Hn as (script & Hs & Hn). apply outcome_bind_Ok in Hn as (o & Ho & Hn).
    ok_inv. brefl. by exists script, o.
  - unfold state_after. destruct (active_publisher_set c). by injection H as <-.
Qed.

Lemma commits_to_outputs c : commits_to c → output (cc_commit_txn c) ≠ [].
Proof. intros [(h & d & _ & He & _) _] E. by rewrite E in He. Qed.

Context `{BL : !BitcoinLaws}.

Lemma check_spends_extends g a b u :
  check_spends (state_after g a) b = Ok u → commits_to a → extends a b.
Proof.
  intros H [_ (script & out & Hs & Ho & Hp)]. unfold check_spends in H. cbn in H.
  apply outcome_bind_Ok in H as (i & Hi & H). apply outcome_bind_Ok in H as (u1 & H1 & H).
  apply outcome_bind_Ok in H as (u2 & H2 & H). apply outcome_bind_Ok in H as (prevout & H3 & H).
  rewrite Hs in H. cbn in H. apply outcome_bind_Ok in H as (valid & Hv & H). ok_inv. brefl.
  subst valid. rewrite compute_txid_strip in H1. assert (prevout = out) as -> by congruence. split.
  - exists i. split; [done|]. destruct (previous_output i); cbn in *; congruence.
  - unfold create_sequencer_update_script in Hs. pose proof Hs as Hs'.
    apply outcome_bind_Ok in Hs as (u3 & Hval & _). apply validate_publisher_set_Ok in Hval as [Hnd Hr].
    destruct (verify_multisig_sound _ _ _ _ _ _ Hv) as (txin & sigs & signers & H).
    destruct H as (_ & _ & _ & _ & Hsub & Hl & Hf).
    exists signers, out, script. split_and!; try done; [by eapply sublist_NoDup|lia|].
    intros k (j & Hk)%list_elem_of_lookup.
    destruct (Forall2_lookup_r _ _ _ _ _ Hf Hk) as (st & _ & Hst). eauto.
Qed.

Lemma apply_one_next g a b s :
  commits_to a → apply_one (state_after g a) b = Ok s → extends a b.
Proof.
  intros Ha H. unfold apply_one in H. cbn [cs_commit_txn state_after strip_witness output] in H.
  rewrite bool_decide_eq_false_2 in H by by apply commits_to_outputs. cbn [negb] in H.
  apply outcome_bind_Ok in H as (u1 & _ & H). apply outcome_bind_Ok in H as (u2 & _ & H).
  apply outcome_bind_Ok in H as (u3 & _ & H). apply outcome_bind_Ok in H as (u4 & Hs & _).
  by eapply check_spends_extends.
Qed.

Lemma apply_one_first g c s :
  apply_one (CommitChainState_new g) c = Ok s → compute_txid (cc_commit_txn c) = g.
Proof.
  unfold apply_one. cbn -[check_commitment check_connector]. intros H.
  apply outcome_bind_Ok in H as (u1 & _ & H). apply outcome_bind_Ok in H as (u2 & H1 & _).
  ok_inv. by brefl.
Qed.

(** *** Many *)

Lemma lineage_first g c s : apply_one (CommitChainState_new g) c = Ok s → lineage g [c] s.
Proof.
  intros H. destruct (apply_one_common _ _ _ H) as (Hg & Hc & ->). split.
  - exists c. split; [done|]. by eapply apply_one_first.
  - by apply Forall_singleton.
  - intros [|i] a b; done.
  - by exists c.
Qed.

Lemma lineage_snoc g commits s c s' :
  lineage g commits s → apply_one s c = Ok s' → lineage g (commits ++ [c]) s'.
Proof.
  intros [(r & Hr & Hid) He Hl (a & Ha & ->)] H.
  destruct (apply_one_common _ _ _ H) as (Hg & Hc & ->). cbn in Hg |- *. split.
  - exists r. by destruct commits.
  - apply Forall_app. split; [done|]. by apply Forall_singleton.
  - intros i x y Hx Hy. destruct (decide (S i < length commits)%nat) as [Hlt|Hge].
    + rewrite lookup_app_l in Hx, Hy by lia. eauto.
    + pose proof (lookup_lt_Some _ _ _ Hy) as Hlen. rewrite length_app in Hlen. cbn in Hlen.
      rewrite last_lookup in Ha. rewrite lookup_app_l in Hx by lia.
      replace i with (pred (length commits)) in Hx by lia.
      assert (x = a) as -> by congruence.
      rewrite list_lookup_middle in Hy by lia. injection Hy as <-.
      eapply apply_one_next; [|exact H].
      rewrite Forall_lookup in He. by destruct (He _ _ Ha).
  - exists c. by rewrite last_snoc.
Qed.

Lemma lineage_grows g commits s more s' :
  lineage g commits s → apply_commit s more = Ok s' → lineage g (commits ++ more) s'.
Proof.
  revert commits s. induction more as [|c more IH]; intros commits s Hl H.
  - injection H as <-. by rewrite app_nil_r.
  - cbn in H. apply outcome_bind_Ok in H as (s1 & H1 & H).
    rewrite cons_middle, app_assoc. eapply IH; [|exact H]. by eapply lineage_snoc.
Qed.

Lemma apply_commit_lineage g commits s :
  commits ≠ [] → apply_commit (CommitChainState_new g) commits = Ok s → lineage g commits s.
Proof.
  destruct commits as [|c commits]; [done|]. intros _ H. cbn in H.
  apply outcome_bind_Ok in H as (s1 & H1 & H).
  apply (lineage_grows g [c] s1 commits s); [by apply lineage_first|done].
Qed.

(** *** Proofs *)

(** The proof a run continues. *)
Definition commit_previous (i : CommitChainCircuitInput) :=
  match coi_prev_proof i with
  | CommitGenesisBlock => None
  | CommitPrevProof =>
      Some (coi_zkm_proof i, coi_zkm_public_values i, coi_zkm_vk_hash i, coi_zkm_version i)
  end.

Lemma attested_lineage `{CL : !CommitOutputLaws} p v :
  attested commit_guest commit_previous p v → ∀ out,
  deserialize_commit_chain_output v = Ok out → co_self_program_id out = p →
  ∃ commits, lineage (cs_genesis_txid (co_chain_state out)) commits (co_chain_state out).
Proof.
  induction 1 as [i v Hrun Hprev IH]; intros out Hd Hself.
  unfold commit_guest in Hrun. apply outcome_bind_Ok in Hrun as (out' & Hc & Hv).
  injection Hv as <-. rewrite commit_output_round in Hd. injection Hd as ->.
  unfold commit_chain_circuit in Hc. apply outcome_bind_Ok in Hc as (u & Hne & Hc).
  apply outcome_bind_Ok in Hc as (s0 & Hs & Hc). apply outcome_bind_Ok in Hc as (s & Ha & Hc).
  injection Hc as <-. cbn in *. ok_inv. brefl.
  assert (∀ g commits, lineage g commits s → lineage (cs_genesis_txid s) commits s) as Hgen.
  { intros g commits Hl. pose proof (ln_state _ _ _ Hl) as (c & _ & ->). done. }
  destruct (coi_prev_proof i) eqn:Ep.
  - apply outcome_bind_Ok in Hs as (first & _ & Hs). injection Hs as <-.
    exists (coi_commits i). eapply Hgen. by apply apply_commit_lineage.
  - apply outcome_bind_Ok in Hs as (q & Hq & Hs). apply outcome_bind_Ok in Hs as (prev & Hdec & Hs).
    apply outcome_bind_Ok in Hs as (u1 & H1 & Hs). apply outcome_bind_Ok in Hs as (u2 & H2 & Hs).
    apply require_Ok in H1, H2. brefl. injection Hs as <-.
    unfold decode_commit_chain_circuit_output in Hdec.
    destruct (deserialize_commit_chain_output (coi_zkm_public_values i)) as [o|] eqn:Ed; [|done].
    injection Hdec as ->. rewrite Hself in H2. rewrite H2 in Hq.
    unfold commit_previous in IH. rewrite Ep in IH.
    destruct (IH _ _ _ _ eq_refl Hq prev Ed ltac:(congruence)) as (commits & Hl).
    exists (commits ++ coi_commits i). eapply Hgen, lineage_grows; done.
Qed.

(** C11: a commit-chain proof attests an authorised lineage.  If the proof system
    is sound for the program, accepted public values that carry the program's own
    id hold the state after a list of commitments that starts with the genesis
    transaction; each commits to its sequencers, state-chain genesis, histories
    and circuit identities and to the next publishers, and each spends the
    connector of the one before it with the signatures of at least the threshold
    of different publishers committed there. *)
Theorem commit_proof_lineage `{CL : !CommitOutputLaws} p proof v vk zkm_version out :
  groth16_sound commit_guest commit_previous p →
  verify_groth16_proof proof v vk zkm_version = Ok p →
  deserialize_commit_chain_output v = Ok out → co_self_program_id out = p →
  ∃ commits, lineage (cs_genesis_txid (co_chain_state out)) commits (co_chain_state out).
Proof. intros Hs Hv. eapply attested_lineage. by eapply Hs. Qed.

(** The digest binds everything that is hashed into it. *)
Lemma commitment_digest_binds s g h c a s' g' h' c' a' d :
  commit_chain_commitment_digest s g h c a = Ok d →
  commit_chain_commitment_digest s' g' h' c' a' = Ok d →
  (s = s' ∧ g = g' ∧ h = h' ∧ c = c' ∧ a = a') ∨ collision.
Proof.
  unfold commit_chain_commitment_digest. intros H H'.
  repeat (apply outcome_bind_Ok in H as (? & _ & H); apply outcome_bind_Ok in H' as (? & _ & H')).
  injection H as H. injection H' as H'. rewrite <- H' in H. apply sha256_binds in H as [H|]; [left|by right].
  injection H as H. repeat (apply vec_app_inj in H as [? H]).
  apply vec_to_list_inj2 in H. destruct a, a'; cbn in *. split_and!; congruence.
Qed.

End Circuit.

End Apply.

End Commit.

(** ** Two commitments

    The genesis commitment of a two-of-three set, and the next one, which the first
    and the third key sign. *)

#[local] Existing Instances sha256_exec key_crypto key_crypto_laws.
#[local] Instance no_sequencers : SequencerHash := λ _, Ok (Some (sha256 [])).

Definition one_id : hash32 := Eval vm_compute in sha256 [Byte.x01].
Definition sample_ids : AuthorizedProgramIds := mkAuthorized one_id one_id one_id one_id.
Definition sample_digest : hash32 := Eval vm_compute in
  match commit_chain_commitment_digest (sha256 []) one_id one_id one_id sample_ids with
  | Ok d => d | Err _ => zero32 end.
Definition data_output : TxOut := Eval vm_compute in mkTxOut 0 (Byte.x6a :: Byte.x20 :: vec_to_list sample_digest).

Definition sample_commit (tx : CircuitTransaction) (genesis : hash32) : CircuitCommit := {|
  cc_commit_txn := tx;
  cc_genesis_txid := genesis;
  cc_publisher_public_keys := three_keys : list (PublicKey (BitcoinCrypto := key_crypto));
  cc_threshold := 2;
  cc_next_publisher_public_keys := None;
  cc_next_threshold := None;
  cc_sequencers := [];
  cc_genesis_evm_block_hash := one_id;
  cc_program_history_root := one_id;
  cc_block_height := 100;
  cc_proof_checkpoint_root := one_id;
  cc_authorized_program_ids := sample_ids;
|}.

Definition genesis_commit_tx : CircuitTransaction := Eval vm_compute in
  mkTx 2 0 [mkTxIn (mkOutPoint zero32 7) [] 0xffffffff []] [connector; data_output].
Definition genesis_commit_txid : hash32 := Eval vm_compute in compute_txid genesis_commit_tx.
Definition second_commit_tx : CircuitTransaction := Eval vm_compute in
  match
    finalize
      (mkTx 2 0 [mkTxIn (mkOutPoint genesis_commit_txid 0) [] 0xffffffff []] [connector; data_output])
      [[Byte.x01; Byte.x01]; [Byte.x03; Byte.x01]] two_of_three
  with Ok t => t | Err _ => genesis_commit_tx end.
Definition two_commits : list CircuitCommit :=
  [sample_commit genesis_commit_tx genesis_commit_txid;
   sample_commit second_commit_tx genesis_commit_txid].

Definition two_commits_output : CommitChainCircuitOutput :=
  mkCommitOutput
    (state_after genesis_commit_txid (sample_commit second_commit_tx genesis_commit_txid))
    sample_program.

(** The encoding of the public values. *)
Definition commit_output_tuple (o : CommitChainCircuitOutput) :=
  let s := co_chain_state o in
  let a := cs_authorized_program_ids s in
  ((cs_block_height s, cs_commit_txn s, cs_genesis_txid s,
    map (λ q, (sq_address q, sq_pub_key q, sq_power q, sq_name q)) (cs_sequencers s)),
   (cs_publisher_public_keys s : list (list byte), cs_threshold s, cs_proof_checkpoint_root s),
   (ap_header a, ap_state a, ap_commit a, ap_watchtower a), co_self_program_id o).
Definition commit_output_of_tuple t : CommitChainCircuitOutput :=
  let '((h, tx, g, sq), (ks, t, r), (a1, a2, a3, a4), p) := t in
  mkCommitOutput
    (mkCommitState h tx g (map (λ '(a, b, c, d), mkSequencer a b c d) sq) ks t r
       (mkAuthorized a1 a2 a3 a4)) p.

#[local] Instance commit_output_codec : CommitOutputCodec := {|
  deserialize_commit_chain_output l := t ← decode_bytes l; Ok (commit_output_of_tuple t);
  commit_commit_output o := encode_bytes (commit_output_tuple o);
|}.

Lemma commit_output_codec_laws : CommitOutputLaws.
Proof.
  intros [[h tx g sq ks t r []] p].
  cbn [deserialize_commit_chain_output commit_commit_output commit_output_codec].
  rewrite decode_encode_bytes. unfold commit_output_tuple, commit_output_of_tuple. cbn.
  do 3 f_equal. rewrite map_map. rewrite <- (map_id sq) at 2. apply map_ext. by intros [].
Qed.

#[local] Instance commit_verifier : Groth16 := one_proof (commit_commit_output two_commits_output).

Definition two_commits_input : CommitChainCircuitInput :=
  mkCommitInput CommitGenesisBlock [] [] [] [] sample_program two_commits.

Lemma two_commits_run v :
  commit_chain_circuit (G := one_proof v) two_commits_input = Ok two_commits_output.
Proof. vm_cast_no_check (eq_refl (Ok two_commits_output)). Qed.

Lemma two_commits_sound : groth16_sound commit_guest commit_previous sample_program.
Proof.
  intros proof v vk zkm_version ->%one_proof_only.
  apply (attested_run _ _ _ two_commits_input); [|intros ? ? ? ? Hp; discriminate Hp].
  unfold commit_guest, commit_verifier. rewrite two_commits_run. cbn [mbind outcome_bind]. reflexivity.
Qed.

Lemma commit_proof_lineage_witness :
  ∃ commits, lineage (cs_genesis_txid (co_chain_state two_commits_output)) commits
    (co_chain_state two_commits_output).
Proof.
  apply (commit_proof_lineage sample_program [] (commit_commit_output two_commits_output) [] []
           two_commits_output (CL := commit_output_codec_laws)).
  - exact two_commits_sound.
  - apply one_proof_verified.
  - apply commit_output_codec_laws.
  - reflexivity.
Defined.
