(* ===== verification/SequencerUpdate.v ===== *)
(** * The publishers' transactions

    Source: circuits/crates/bitcoin-light-client-circuit/src/utils.rs.  The
    publishers pay for and build the transactions that the commit chain consists
    of; the circuit of [CommitChain] accepts what they build. *)

From Stdlib Require Import Init.Byte.
From stdpp Require Import base vector strings list.
From S2P Require Import Prelude Bytes Transaction Verifier PublisherSet CommitChain.

Local Open Scope Z_scope.

(** ** Sizes *)

Section Sizes.
Context `{OC : OverflowChecks}.

Definition u32_mul (a b : Z) : outcome Z :=
  if a * b <? u32_modulus then Ok (a * b)
  else if overflow_checks then Err ["attempt to multiply with overflow"]
  else Ok ((a * b) mod u32_modulus).

(** The sum of terms, from the left. *)
Definition u32_sum (first : Z) (terms : list Z) : outcome Z := for_each u32_add first terms.

Definition multisig_script_len (n : Z) : outcome Z :=
  keys ← u32_mul n 34;
  u32_sum 1 [keys; 1; 1].

Definition p2wsh_input_vbytes (m n siglen : Z) : outcome Z :=
  l ← multisig_script_len n;
  per_sig ← u32_add 1 siglen;
  sigs ← u32_mul m per_sig;
  script ← u32_add 1 l;
  witness_bytes ← u32_sum 1 [1; sigs; script];
  weight ← u32_add (4 * 41) witness_bytes;
  rounded ← u32_add weight 3;
  Ok (rounded / 4).

Definition output_vbytes (ty : string) : outcome Z :=
  if decide (ty = "p2wpkh") then Ok 31
  else if decide (ty = "p2wsh") then Ok 43
  else if decide (ty = "p2tr") then Ok 43
  else if decide (ty = "p2pkh") then Ok 34
  else Err ["unknown output type"].

Definition estimate_tx_vbytes (inputs : list (Z * Z)) (outputs : list (string * Z)) (siglen : Z)
    : outcome Z :=
  v ← for_each (λ v '(m, n), s ← p2wsh_input_vbytes m n siglen; u32_add v s) 10 inputs;
  for_each (λ v '(ty, count), size ← output_vbytes ty; s ← u32_mul size count; u32_add v s) v outputs.

Lemma u32_mul_exact a b : a * b < u32_modulus → u32_mul a b = Ok (a * b).
Proof. unfold u32_mul. intros H. by rewrite (proj2 (Z.ltb_lt _ _) H). Qed.

(** The number a P2WSH input is estimated at, while it fits. *)
Lemma p2wsh_input_vbytes_exact m n siglen :
  0 ≤ m → 0 ≤ n → 0 ≤ siglen < u32_modulus - 1 →
  173 + m * (1 + siglen) + n * 34 < u32_modulus →
  p2wsh_input_vbytes m n siglen = Ok ((173 + m * (1 + siglen) + n * 34) / 4).
Proof.
  intros Hm Hn Hs Hlt. assert (0 ≤ m * (1 + siglen)) by nia.
  unfold p2wsh_input_vbytes, multisig_script_len, u32_sum.
  rewrite u32_mul_exact by lia. cbn [mbind outcome_bind for_each].
  do 3 (rewrite u32_add_exact by lia; cbn [mbind outcome_bind]).
  rewrite u32_add_exact by lia. cbn [mbind outcome_bind].
  rewrite u32_mul_exact by lia. cbn [mbind outcome_bind].
  do 6 (rewrite u32_add_exact by lia; cbn [mbind outcome_bind]).
  do 2 f_equal. lia.
Qed.
End Sizes.

(** ** The fee transaction *)

(** [Amount]'s subtraction panics below zero. *)
Definition amount_sub (a b : Z) : outcome Z :=
  if b <=? a then Ok (a - b) else Err ["Amount subtraction error"].

(** Addresses are the scripts they pay to. *)
Definition plain_input (previous : OutPoint) : TxIn := mkTxIn previous [] 0xffffffff [].

Section Update.
Context `{SHA : Sha256} `{BC : BitcoinCrypto}.

(** [Builder::new().push_opcode(OP_RETURN).push_slice(data)]. *)
Definition op_return_script (data : list byte) : list byte := Byte.x6a :: push_slice data.

Definition create_fee_tx (evm_address : vec byte 20) (input : OutPoint)
    (input_value replennish_fee : Z) (destination change : list byte) (relayer_fee : Z)
    : outcome CircuitTransaction :=
  rest ← amount_sub input_value replennish_fee;
  change_value ← amount_sub rest relayer_fee;
  Ok (mkTx 2 0 [plain_input input]
        [mkTxOut replennish_fee destination;
         mkTxOut 0 (op_return_script (vec_to_list evm_address));
         mkTxOut change_value change]).

(** The outputs and the relayer's fee use up the input. *)
Lemma create_fee_tx_conserves evm_address i v fee dst chg relayer tx :
  create_fee_tx evm_address i v fee dst chg relayer = Ok tx →
  foldr Z.add 0 (map value (output tx)) + relayer = v.
Proof.
  unfold create_fee_tx, amount_sub. intros H.
  destruct (fee <=? v) eqn:E1; [|done]. cbn in H. destruct (relayer <=? v - fee) eqn:E2; [|done].
  cbn in H. injection H as <-. cbn. lia.
Qed.

(** ** The update transaction *)

Definition create_sequencer_update_partial_tx (commitment : hash32)
    (update_connector replenish_fee_connector : option OutPoint) (next_update_connector : list byte)
    (relayer_fee : Z) : outcome CircuitTransaction :=
  _ ← require (bool_decide (is_Some update_connector) || bool_decide (is_Some replenish_fee_connector))
        "At least one of update_connector or replenish_fee_connector must be provided";
  let txout_next_connector := mkTxOut relayer_fee next_update_connector in
  let txout_op_return := mkTxOut 0 (op_return_script (vec_to_list commitment)) in
  let input :=
    match update_connector with Some uc => [plain_input uc] | None => [] end ++
    match replenish_fee_connector with Some rfc => [plain_input rfc] | None => [] end in
  Ok (mkTx 2 0 input [txout_next_connector; txout_op_return]).

(** Decoding a script that pushes 32 bytes after OP_RETURN. *)
Class ScriptLaws :=
  instructions_op_return data : length data = 32%nat →
    instructions_minimal (op_return_script data) = Ok [Op OP_RETURN; PushBytes data].

Context `{SL : !ScriptLaws} `{SQ : SequencerHash}.

(** What was committed to is read back. *)
Lemma partial_tx_commitment commitment uc rfc next fee tx :
  create_sequencer_update_partial_tx commitment uc rfc next fee = Ok tx →
  extract_commit_chain_commitment (output tx) = Ok commitment.
Proof.
  unfold create_sequencer_update_partial_tx. intros H. apply outcome_bind_Ok in H as (u & _ & H).
  injection H as <-. cbn [output extract_commit_chain_commitment value script_pubkey].
  rewrite Z.eqb_refl, instructions_op_return by apply length_vec_to_list.
  cbn [mbind outcome_bind]. rewrite Z.eqb_refl, length_vec_to_list. cbn.
  unfold to_hash32. by rewrite to_array_vec.
Qed.

(** Signing changes nothing but a witness. *)
Lemma finalize_parts tx sigs script tx' :
  finalize tx sigs script = Ok tx' →
  output tx' = output tx ∧ previous_output <$> head (input tx') = previous_output <$> head (input tx).
Proof. unfold finalize. destruct (input tx) as [|i rest]; [done|]. by intros [= <-]. Qed.

(** The circuit accepts what the publishers build.  Take a state whose
    connector pays to the script of its publishers.  If the next commit's
    transaction is the partial update transaction for the digest of the commit's
    data, spending that connector and paying to the script of the next publishers,
    completed with the signatures of a threshold of the current publishers in key
    order, then the commit chain accepts it and moves to the new publishers. *)
Theorem publishers_update_accepted self c prevout script next_script sequencers digest
    rfc relayer_fee partial raw_sigs sigs signers :
  cc_genesis_txid c = cs_genesis_txid self →
  output (cs_commit_txn self) !! 0%nat = Some prevout →
  create_sequencer_update_script (cs_publisher_public_keys self) (cs_threshold self) = Ok script →
  script_pubkey prevout = p2wsh_script script →
  create_sequencer_update_script (active_publisher_set c).1 (active_publisher_set c).2 =
    Ok next_script →
  sequencer_hash (cc_sequencers c) = Ok (Some sequencers) →
  commit_chain_commitment_digest sequencers (cc_genesis_evm_block_hash c) (cc_program_history_root c)
    (cc_proof_checkpoint_root c) (cc_authorized_program_ids c) = Ok digest →
  create_sequencer_update_partial_tx digest
    (Some (mkOutPoint (compute_txid (cs_commit_txn self)) 0)) rfc (p2wsh_script next_script)
    relayer_fee = Ok partial →
  finalize partial raw_sigs script = Ok (cc_commit_txn c) →
  parse_sigs raw_sigs = Ok sigs → signers `sublist_of` cs_publisher_public_keys self →
  length signers = N.to_nat (cs_threshold self) → (0 < cs_threshold self)%N →
  Forall2 (signs (p2wsh_signature_hash (cc_commit_txn c) 0 script (value prevout)))
    (take (length signers) sigs) signers →
  apply_one self c = Ok (state_after (cs_genesis_txid self) c).
Proof.
  intros Hg Hprev Hscript Hlock Hnext Hsq Hdig Hpart Hfin Hparse Hsub Hlen Hpos Hsigs.
  pose proof (partial_tx_commitment _ _ _ _ _ _ Hpart) as Hx.
  destruct (finalize_parts _ _ _ _ Hfin) as [Hout Hin]. rewrite <- Hout in Hx.
  assert (1 ≤ Z.of_N (cs_threshold self)) as H1 by lia.
  pose proof (verify_multisig_complete _ _ _ _ _ _ _ _ _ H1 Hfin Hlock Hparse Hsub Hlen Hsigs) as Hv.
  unfold create_sequencer_update_partial_tx in Hpart. apply outcome_bind_Ok in Hpart as (u & _ & Hpart).
  injection Hpart as <-. cbn in Hin, Hout.
  destruct (input (cc_commit_txn c)) as [|i0 rest] eqn:Hi; [done|]. injection Hin as Hin.
  assert (output (cs_commit_txn self) ≠ []) as Hne by (intros E; by rewrite E in Hprev).
  assert (check_commitment c = Ok tt) as Hc1.
  { unfold check_commitment. rewrite Hx, Hsq. cbn [mbind outcome_bind].
    rewrite Hdig. cbn [mbind outcome_bind]. by rewrite bool_decide_eq_true_2. }
  assert (check_spends self c = Ok tt) as Hc2.
  { unfold check_spends, index. rewrite Hi, Hprev. cbn [lookup list_lookup expect mbind outcome_bind].
    rewrite Hin, Hscript. cbn [op_txid vout mbind outcome_bind].
    rewrite bool_decide_eq_true_2, Hv by done. done. }
  assert (check_connector c = Ok tt) as Hc3.
  { unfold check_connector, index. destruct (active_publisher_set c) as [ks t]. cbn in Hnext.
    rewrite Hnext, Hout. cbn. by rewrite bool_decide_eq_true_2. }
  unfold apply_one, state_after. rewrite Hc1, Hc2, Hc3, (bool_decide_eq_false_2 _ Hne).
  rewrite (bool_decide_eq_true_2 _ Hg). cbn. by destruct (active_publisher_set c).
Qed.

End Update.

(** ** An update

    The second of [CommitChain]'s two commitments, built by the publishers. *)

#[local] Existing Instances sha256_exec key_crypto key_crypto_laws.
#[local] Existing Instance no_sequencers.

Lemma key_crypto_scripts : ScriptLaws.
Proof. intros data _. reflexivity. Qed.

Definition first_commit : CircuitCommit := sample_commit genesis_commit_tx genesis_commit_txid.
Definition second_commit : CircuitCommit := sample_commit second_commit_tx genesis_commit_txid.
Definition first_state : CommitChainState :=
  state_after genesis_commit_txid first_commit.
Definition partial_update : CircuitTransaction := Eval vm_compute in
  unwrap_or
    (create_sequencer_update_partial_tx sample_digest (Some (mkOutPoint genesis_commit_txid 0)) None
       (p2wsh_script two_of_three) 1000) genesis_commit_tx.

Lemma first_state_keys :
  cs_publisher_public_keys first_state = three_keys ∧ cs_threshold first_state = 2%N.
Proof.
  split; [vm_cast_no_check (eq_refl (three_keys : list PublicKey))|].
  vm_cast_no_check (eq_refl 2%N).
Qed.

Lemma publishers_update_accepted_witness :
  apply_one first_state second_commit = Ok (state_after genesis_commit_txid second_commit).
Proof.
  apply (publishers_update_accepted (SL := key_crypto_scripts) first_state second_commit connector
           two_of_three two_of_three (sha256 []) sample_digest None 1000 partial_update
           [[Byte.x01; Byte.x01]; [Byte.x03; Byte.x01]]
           [([Byte.x01], 1); ([Byte.x03], 1)] [[Byte.x01]; [Byte.x03]]).
  - vm_cast_no_check (eq_refl genesis_commit_txid).
  - vm_cast_no_check (eq_refl (Some connector)).
  - vm_cast_no_check (eq_refl (Ok two_of_three)).
  - reflexivity.
  - vm_cast_no_check (eq_refl (Ok two_of_three)).
  - reflexivity.
  - vm_cast_no_check (eq_refl (Ok sample_digest)).
  - vm_cast_no_check (eq_refl (Ok partial_update)).
  - vm_cast_no_check (eq_refl (Ok second_commit_tx)).
  - reflexivity.
  - rewrite (proj1 first_state_keys). apply sublist_skip, sublist_cons, sublist_skip, sublist_nil_l.
  - rewrite (proj2 first_state_keys). reflexivity.
  - rewrite (proj2 first_state_keys). reflexivity.
  - repeat constructor; by exists zero32.
Defined.
