(* ===== verification/Cbft.v ===== *)
(** * The consensus layer of the state chain

    Source: circuits/crates/state-chain/src/cbft.rs.  A CometBFT block carries the
    EVM payload in its first transaction, and its header the Merkle root of the
    transactions' hashes.  The Merkle root and the payload check are the
    repository's; the protobuf messages (crates [prost] and [cosmos_sdk_proto]),
    the light block and its JSON (crate [tendermint]) and the light-client
    verifier are parameters. *)

From Stdlib Require Import Init.Byte.
From stdpp Require Import base vector strings list.
From S2P Require Import Prelude Bytes Verifier.

Local Open Scope Z_scope.

(** ** The Merkle root of RFC 6962 *)

Section Root.
Context `{SHA : Sha256}.

Definition merkle_leaf_hash (leaf : list byte) : hash32 := sha256 (Byte.x00 :: leaf).

Definition merkle_inner_node_hash (left right : hash32) : hash32 :=
  sha256 (Byte.x01 :: vec_to_list left ++ vec_to_list right).

(** [while (k << 1) < n { k <<= 1 }]; the number of items of a slice leaves the
    shift room in a [usize], and [k] doubles, so [n] rounds are enough. *)
Fixpoint double_below (fuel k n : nat) : nat :=
  match fuel with
  | O => k
  | S fuel => if (2 * k <? n)%nat then double_below fuel (2 * k) n else k
  end.
Definition largest_power_of_two_less_than (n : nat) : nat := double_below n 1 n.

(** Both halves of two or more items are shorter, so the number of items is fuel
    enough. *)
Fixpoint merkle_root_loop (fuel : nat) (items : list hash32) : hash32 :=
  match fuel, items with
  | _, [] => sha256 []
  | _, [item] => merkle_leaf_hash item
  | O, _ => zero32
  | S fuel, _ =>
      let k := largest_power_of_two_less_than (length items) in
      let left := merkle_root_loop fuel (take k items) in
      let right := merkle_root_loop fuel (drop k items) in
      merkle_inner_node_hash left right
  end.
Definition compute_merkle_root (items : list hash32) : hash32 :=
  merkle_root_loop (length items) items.

Definition merkle_root_from_base64_txns (txns : list (list byte)) : hash32 :=
  compute_merkle_root (map sha256 txns).

Lemma double_below_bounds fuel k n :
  (1 ≤ k → k < n → 1 ≤ double_below fuel k n < n)%nat.
Proof.
  revert k. induction fuel as [|fuel IH]; intros k Hk Hn; cbn [double_below]; [lia|].
  destruct (Nat.ltb_spec (2 * k) n); [apply IH|]; lia.
Qed.

Lemma double_below_power fuel k n :
  (∃ i, k = 2 ^ i)%nat → (k ≤ 2 ^ fuel * k ∧ n ≤ 2 ^ fuel * k)%nat → (k < n)%nat →
  (∃ i, double_below fuel k n = 2 ^ i ∧ n ≤ 2 * 2 ^ i)%nat.
Proof.
  revert k. induction fuel as [|fuel IH]; intros k [i ->] Hf Hk; cbn [double_below].
  - cbn in Hf. lia.
  - destruct (Nat.ltb_spec (2 * 2 ^ i) n).
    + apply IH; [by exists (S i)|cbn [Nat.pow] in Hf; nia|lia].
    + by exists i.
Qed.

(** The split point is the largest power of two below the number of items. *)
Lemma largest_power_spec n :
  (2 ≤ n → ∃ i, largest_power_of_two_less_than n = 2 ^ i ∧ 2 ^ i < n ≤ 2 * 2 ^ i)%nat.
Proof.
  intros Hn. unfold largest_power_of_two_less_than.
  destruct (double_below_power n 1 n) as (i & Hi & Hle); [by exists 0%nat| |lia|].
  - pose proof (Nat.pow_gt_lin_r 2 n). lia.
  - pose proof (double_below_bounds n 1 n). exists i. lia.
Qed.

Lemma split_halves (items : list hash32) :
  (2 ≤ length items)%nat →
  let k := largest_power_of_two_less_than (length items) in
  (length (take k items) < length items ∧ length (drop k items) < length items)%nat.
Proof.
  intros Hn k. pose proof (double_below_bounds (length items) 1 (length items)) as Hb.
  fold (largest_power_of_two_less_than (length items)) in Hb. fold k in Hb.
  rewrite length_take, length_drop. lia.
Qed.

Lemma merkle_root_step fuel items :
  (2 ≤ length items)%nat →
  let k := largest_power_of_two_less_than (length items) in
  merkle_root_loop (S fuel) items =
    merkle_inner_node_hash (merkle_root_loop fuel (take k items))
      (merkle_root_loop fuel (drop k items)).
Proof. destruct items as [|a [|b items]]; cbn [length]; intros; [lia..|done]. Qed.

Lemma merkle_root_fuel items : ∀ f1 f2,
  (length items ≤ f1 → length items ≤ f2 →
  merkle_root_loop f1 items = merkle_root_loop f2 items)%nat.
Proof.
  induction (Nat.lt_wf_0_projected (length (A := hash32)) items) as [items _ IH].
  intros f1 f2 H1 H2. destruct items as [|a [|b items]]; [by destruct f1, f2..|].
  destruct f1 as [|f1], f2 as [|f2]; cbn [length] in H1, H2; [lia..|].
  destruct (split_halves (a :: b :: items)) as [Hl Hr]; [cbn; lia|].
  rewrite !merkle_root_step by (cbn; lia).
  f_equal; apply IH; try done; cbn [length] in *; lia.
Qed.

(** The equation of the source's recursion. *)
Lemma compute_merkle_root_split items :
  (2 ≤ length items)%nat →
  let k := largest_power_of_two_less_than (length items) in
  compute_merkle_root items =
    merkle_inner_node_hash (compute_merkle_root (take k items)) (compute_merkle_root (drop k items)).
Proof.
  intros Hn k. unfold compute_merkle_root at 1.
  rewrite (merkle_root_fuel items _ (S (length items))) by lia.
  destruct (split_halves items Hn) as [Hl Hr]. fold k in Hl, Hr.
  rewrite (merkle_root_step _ _ Hn). fold k. unfold compute_merkle_root.
  f_equal; apply merkle_root_fuel; lia.
Qed.

(** The three shapes of a list and what its root hashes. *)
Lemma merkle_root_shape items :
  (items = [] ∧ compute_merkle_root items = sha256 []) ∨
  (∃ a, items = [a] ∧ compute_merkle_root items = merkle_leaf_hash a) ∨
  (∃ l r, items = l ++ r ∧ (length l < length items ∧ length r < length items)%nat ∧
     compute_merkle_root items =
       merkle_inner_node_hash (compute_merkle_root l) (compute_merkle_root r)).
Proof.
  destruct items as [|a [|b items]]; [by left|by right; left; exists a|right; right].
  set (k := largest_power_of_two_less_than (length (a :: b :: items))).
  exists (take k (a :: b :: items)), (drop k (a :: b :: items)).
  rewrite take_drop. split_and!; [done|apply split_halves; cbn; lia..|].
  apply compute_merkle_root_split. cbn. lia.
Qed.

(** Lists with one root are one list. *)
Lemma merkle_root_binds l : ∀ m,
  compute_merkle_root l = compute_merkle_root m → l = m ∨ collision.
Proof.
  induction (Nat.lt_wf_0_projected (length (A := hash32)) l) as [l _ IH]. intros m H.
  destruct (merkle_root_shape l) as [[-> E]|[(a & -> & E)|(l1 & l2 & -> & [Hl1 Hl2] & E)]];
    destruct (merkle_root_shape m) as [[-> F]|[(b & -> & F)|(m1 & m2 & -> & _ & F)]];
    rewrite E in H; rewrite ?F in H; unfold merkle_leaf_hash, merkle_inner_node_hash in H;
    try (by apply sha256_binds in H as [[=]|]; right); [by left| |].
  - apply sha256_binds in H as [H|]; [left|by right].
    injection H as H. apply vec_to_list_inj2 in H. by subst.
  - apply sha256_binds in H as [H|]; [|by right]. injection H as H.
    apply vec_app_inj in H as [H1 H2]. apply vec_to_list_inj2 in H2.
    destruct (IH l1 Hl1 m1 H1) as [->|]; [|by right].
    destruct (IH l2 Hl2 m2 H2) as [->|]; [by left|by right].
Qed.

Lemma map_sha256_binds (l m : list (list byte)) :
  map sha256 l = map sha256 m → l = m ∨ collision.
Proof.
  revert m. induction l as [|a l IH]; intros [|b m] H; [by left|done..|].
  injection H as Ha H. apply sha256_binds in Ha as [->|]; [|by right].
  destruct (IH _ H) as [->|]; [by left|by right].
Qed.

(** The data hash of a consensus block commits to its transactions.  Two
    lists of transactions -- of any lengths -- with one Merkle root are the same
    list, or a SHA-256 collision is exhibited: the prefix bytes keep the hash of
    a leaf, of an inner node and of the empty list apart. *)
Theorem data_hash_binds (txns txns' : list (list byte)) :
  merkle_root_from_base64_txns txns = merkle_root_from_base64_txns txns' →
  txns = txns' ∨ collision.
Proof.
  intros H. apply merkle_root_binds in H as [H|]; [|by right]. by apply map_sha256_binds.
Qed.

End Root.

(** ** The payload of a block *)

(** [google.protobuf.Any]. *)
Record AnyMessage := mkAny { type_url : list byte; msg_value : list byte }.

(** The fields of [proto::ExecutionPayload] the circuit compares. *)
Record ExecutionPayload := mkPayload {
  ep_parent_hash : list byte;
  ep_block_number : Z;
  ep_block_hash : list byte;
}.

(** [Tx_decode] gives the messages of the body, if there is one;
    [MsgNewEthBlock_decode] the payload, if there is one. *)
Class CosmosTx := {
  Tx_decode : list byte → outcome (option (list AnyMessage));
  MsgNewEthBlock_decode : list byte → outcome (option ExecutionPayload);
}.

(** The light block: what the circuits read of it and the verdicts of
    [ProdVerifier] on it, [true] for [Verdict::Success]. *)
Class LightBlocks := {
  LightBlock : Type;
  light_block_from_slice : list byte → outcome LightBlock;
  lb_data_hash : LightBlock → option (list byte);
  lb_validators_hash : LightBlock → option hash32;
  lb_next_validators : LightBlock → option hash32;
  lb_next_validators_hash : LightBlock → option hash32;
  lb_time_plus : LightBlock → Z → option Z;
  verify_validator_sets : LightBlock → bool;
  verify_commit : LightBlock → bool;
  verify_update_header : LightBlock → LightBlock → Z → Z → bool;
}.

Section Payload.
Context `{SHA : Sha256} `{CT : CosmosTx} `{LB : LightBlocks}.

(** Both verdicts are computed before the first is looked at. *)
Definition verify_sequencer_commit (light_block : LightBlock) : outcome unit :=
  for_each (λ _ verdict, require verdict "invalid sequencer commit") tt
    [verify_validator_sets light_block; verify_commit light_block].

Definition verify_sequencer_set (light_block_1 light_block_2 : LightBlock) : outcome unit :=
  _ ← require
        (bool_decide (lb_next_validators light_block_1 = lb_next_validators_hash light_block_1))
        "next_validators.hash() == next_validators_hash";
  verify_time ← expect (lb_time_plus light_block_2 20) "verify_time";
  require (verify_update_header light_block_2 light_block_1 500 verify_time) "expected success".

Definition parse_cbft_tx_payload (tx_bytes : list byte) : outcome (option ExecutionPayload) :=
  body ← Tx_decode tx_bytes;
  match body with
  | Some messages =>
      first_message ← expect (messages !! 0%nat) "index out of bounds";
      _ ← require (bool_decide (type_url first_message = tag "/goat.goat.v1.MsgNewEthBlock"))
            "type_url == /goat.goat.v1.MsgNewEthBlock";
      payload ← MsgNewEthBlock_decode (msg_value first_message);
      payload ← expect payload "payload";
      Ok (Some payload)
  | None => Ok None
  end.

Definition check_el_block_from_payload (el_block_number : Z)
    (el_block_hash el_parent_block_hash : hash32) (txs : list (list byte))
    (actual_data_hash : hash32) : outcome unit :=
  first ← expect (txs !! 0%nat) "cosmos block carries no txs";
  payload ← parse_cbft_tx_payload first;
  payload ← expect payload "missing MsgNewEthBlock payload";
  _ ← require (ep_block_number payload =? el_block_number) "block_number";
  _ ← require (bool_decide (ep_block_hash payload = vec_to_list el_block_hash)) "block_hash";
  _ ← require (bool_decide (ep_parent_hash payload = vec_to_list el_parent_block_hash))
        "parent_hash";
  let computed_data_hash := merkle_root_from_base64_txns txs in
  require (bool_decide (actual_data_hash = computed_data_hash)) "data_hash".

(** What an accepted block's transactions say. *)
Lemma check_el_block_Ok number hash parent txs data_hash u :
  check_el_block_from_payload number hash parent txs data_hash = Ok u →
  data_hash = merkle_root_from_base64_txns txs ∧
  ∃ tx, head txs = Some tx ∧
    parse_cbft_tx_payload tx =
      Ok (Some (mkPayload (vec_to_list parent) number (vec_to_list hash))).
Proof.
  intros H. unfold check_el_block_from_payload in H.
  apply outcome_bind_Ok in H as (tx & Htx & H). apply expect_Ok in Htx.
  apply outcome_bind_Ok in H as (found & Hp & H).
  apply outcome_bind_Ok in H as ([p n h] & Hf & H). apply expect_Ok in Hf as ->. cbn in H.
  ok_inv. brefl. cbn in *. subst. split; [done|]. exists tx. by destruct txs.
Qed.

End Payload.

(** ** A root of three transactions *)

#[local] Existing Instance sha256_exec.

Lemma data_hash_binds_witness :
  (merkle_root_from_base64_txns [[Byte.x01]; [Byte.x02]; [Byte.x03]] =
     merkle_root_from_base64_txns ([[Byte.x01]] ++ [[Byte.x02]; [Byte.x03]])) ∧
  ([[Byte.x01]; [Byte.x02]; [Byte.x03]] = [[Byte.x01]] ++ [[Byte.x02]; [Byte.x03]] ∨ collision).
Proof.
  assert (merkle_root_from_base64_txns [[Byte.x01]; [Byte.x02]; [Byte.x03]] =
     merkle_root_from_base64_txns ([[Byte.x01]] ++ [[Byte.x02]; [Byte.x03]])) as H by reflexivity.
  exact (conj H (data_hash_binds _ _ H)).
Defined.
