(* ===== verification/StateChain.v ===== *)
(** * The state chain

    Source: circuits/crates/state-chain/src/state_chain.rs and lib.rs;
    circuits/state-chain-proof/guest/src/main.rs commits what the circuit returns.
    The circuit re-executes EVM blocks, links each to the one before, checks that
    consensus committed to it and collects the withdrawals whose storage slots the
    execution found set.  The EVM (crate [guest_executor]), Keccak and the
    encoding of the public values are parameters. *)

From Stdlib Require Import Init.Byte.
From stdpp Require Import base vector strings list.
From S2P Require Import Prelude Bytes Verifier Cbft.

Local Open Scope Z_scope.

(** Contract address, base slot and graph ids. *)
Definition WithdrawalSlot : Type := vec byte 20 * hash32 * list (vec byte 16).

Class Keccak := keccak256 : list byte → hash32.

(** [EthClientExecutorInput] and the header of a block.  [executor_execute] builds
    the executor of the input's genesis, runs the block and fails if a storage
    slot -- address, slot and expected value -- does not hold at the end. *)
Class EvmExecutor := {
  ExecutorInput : Type;
  EvmHeader : Type;
  executor_execute : ExecutorInput → list (vec byte 20 * Z * Z) → outcome EvmHeader;
  current_block : ExecutorInput → EvmHeader;
  eh_number : EvmHeader → Z;
  eh_parent_hash : EvmHeader → hash32;
  hash_slow : EvmHeader → hash32;
}.

(** Block numbers are [u64]. *)
Class EvmLaws `{EvmExecutor} := eh_number_u64 h : 0 ≤ eh_number h < u64_modulus.

Inductive StateChainPrevProofType := StateGenesisBlock | StatePrevProof.

Record StateChainState := mkStateChain {
  ss_evm_block_height : Z;
  ss_genesis_evm_block_hash : hash32;
  ss_latest_evm_block_hash : hash32;
  ss_latest_cosmos_block : list byte;
  ss_withdrawals : list WithdrawalSlot;
}.

Record StateChainCircuitOutput := mkStateOutput {
  so_chain_state : StateChainState;
  so_self_program_id : ProgramId;
  so_program_history_hash : hash32;
  so_upgrade_checkpoint_hash : hash32;
}.

Class StateOutputCodec := {
  deserialize_state_chain_output : list byte → outcome StateChainCircuitOutput;
  commit_state_output : StateChainCircuitOutput → list byte;
}.

Class StateOutputLaws `{StateOutputCodec} :=
  state_output_round o : deserialize_state_chain_output (commit_state_output o) = Ok o.

Section StateChain.
Context `{SHA : Sha256} `{OC : OverflowChecks} `{KE : Keccak} `{EX : EvmExecutor}.
Context `{CT : CosmosTx} `{LB : LightBlocks} `{G : Groth16} `{SC : StateOutputCodec}.

Record CircuitStateBlock := mkStateBlock {
  sb_cosmos_txns : list (list byte);
  sb_cosmos_block : list byte;
  sb_evm_block : ExecutorInput;
  sb_withdrawals : list WithdrawalSlot;
}.

Record StateChainCircuitInput := mkStateInput {
  si_zkm_proof : list byte;
  si_zkm_public_values : list byte;
  si_zkm_vk_hash : list byte;
  si_zkm_version : list byte;
  si_self_program_id : ProgramId;
  si_prev_proof : StateChainPrevProofType;
  si_blocks : list CircuitStateBlock;
}.

Definition classify_state_chain_output (public_values : list byte)
    : outcome StateChainPrevProofType :=
  if is_ok (deserialize_state_chain_output public_values) then Ok StatePrevProof
  else Err ["unknown state-chain public output format"].

Definition decode_state_chain_circuit_output (public_values : list byte)
    : outcome StateChainCircuitOutput :=
  match deserialize_state_chain_output public_values with
  | Ok o => Ok o
  | Err _ => Err ["failed to decode current state chain circuit output"]
  end.

Definition StateChainState_new (evm_block_height : Z) (genesis_evm_block_hash : hash32)
    (latest_cosmos_block : list byte) : StateChainState :=
  mkStateChain evm_block_height genesis_evm_block_hash genesis_evm_block_hash
    latest_cosmos_block [].

(** The storage slot of a graph id: the hash of the id padded to 32 bytes and the
    base slot, as for a Solidity mapping. *)
Definition slot_id (graph_id : vec byte 16) (base_slot : hash32) : Z :=
  be_value (vec_to_list (keccak256
    (vec_to_list graph_id ++ replicate 16 Byte.x00 ++ vec_to_list base_slot))).

Definition storage_info (withdrawals : list WithdrawalSlot) : list (vec byte 20 * Z * Z) :=
  '(address, base_slot, graph_ids) ← withdrawals;
  graph_id ← graph_ids;
  [(address, slot_id graph_id base_slot, 1)].

Definition execute_el_block_and_check_withdraw_tx (withdrawals : list WithdrawalSlot)
    (input : ExecutorInput) : outcome EvmHeader :=
  executor_execute input (storage_info withdrawals).

(** [data_hash.unwrap().as_bytes().try_into().unwrap()]. *)
Definition data_hash_of (cosmos_block : LightBlock) : outcome hash32 :=
  h ← expect (lb_data_hash cosmos_block) "data_hash";
  _ ← require (length h =? 32)%nat "TryFromSliceError";
  Ok (to_hash32 h).

(** One round of [StateChainState::apply_blocks]. *)
Definition StateChainState_apply_block (s : StateChainState) (block : CircuitStateBlock)
    : outcome StateChainState :=
  let number := eh_number (current_block (sb_evm_block block)) in
  evm_header ← execute_el_block_and_check_withdraw_tx (sb_withdrawals block) (sb_evm_block block);
  _ ← require (eh_number evm_header =? number) "number";
  _ ← require (eh_number evm_header =? ss_evm_block_height s) "evm_block_height";
  let current_block_hash := hash_slow evm_header in
  cosmos_block ← light_block_from_slice (sb_cosmos_block block);
  withdrawals ←
    (if decide (current_block_hash ≠ ss_genesis_evm_block_hash s) then
       _ ← require (bool_decide (eh_parent_hash evm_header = ss_latest_evm_block_hash s))
             "evm block does not extend the current chain tip";
       data_hash ← data_hash_of cosmos_block;
       _ ← check_el_block_from_payload number current_block_hash (ss_latest_evm_block_hash s)
             (sb_cosmos_txns block) data_hash;
       Ok (ss_withdrawals s ++ sb_withdrawals block)
     else Ok (ss_withdrawals s));
  height ← u64_add (ss_evm_block_height s) 1;
  Ok (mkStateChain height (ss_genesis_evm_block_hash s) current_block_hash
        (sb_cosmos_block block) withdrawals).

Definition StateChainState_apply_blocks (s : StateChainState) (blocks : list CircuitStateBlock)
    : outcome StateChainState :=
  for_each StateChainState_apply_block s blocks.

Definition state_chain_circuit (i : StateChainCircuitInput) : outcome StateChainCircuitOutput :=
  let self_program_id := si_self_program_id i in
  '(chain_state, history, checkpoint) ←
    match si_prev_proof i with
    | StateGenesisBlock =>
        first ← expect (head (si_blocks i)) "state chain genesis batch must be non-empty";
        let block_hash := hash_slow (current_block (sb_evm_block first)) in
        let block_height := eh_number (current_block (sb_evm_block first)) in
        Ok (StateChainState_new block_height block_hash (sb_cosmos_block first),
            initial_history State, zero32)
    | StatePrevProof =>
        previous_program_id ←
          verify_groth16_proof (si_zkm_proof i) (si_zkm_public_values i) (si_zkm_vk_hash i)
            (si_zkm_version i);
        out ← decode_state_chain_circuit_output (si_zkm_public_values i);
        _ ← require (bool_decide (so_self_program_id out = previous_program_id))
              "self_program_id";
        let history :=
          next_history State (so_program_history_hash out) previous_program_id self_program_id in
        let checkpoint :=
          if decide (previous_program_id = self_program_id) then so_upgrade_checkpoint_hash out
          else proof_checkpoint State (so_upgrade_checkpoint_hash out) previous_program_id
                 self_program_id (si_zkm_public_values i) in
        Ok (so_chain_state out, history, checkpoint)
    end;
  chain_state ← StateChainState_apply_blocks chain_state (si_blocks i);
  Ok (mkStateOutput chain_state self_program_id history checkpoint).

(** The guest program. *)
Definition state_guest (i : StateChainCircuitInput) : outcome (list byte) :=
  out ← state_chain_circuit i;
  Ok (commit_state_output out).

(** The proof a run continues. *)
Definition state_previous (i : StateChainCircuitInput) :=
  match si_prev_proof i with
  | StateGenesisBlock => None
  | StatePrevProof =>
      Some (si_zkm_proof i, si_zkm_public_values i, si_zkm_vk_hash i, si_zkm_version i)
  end.

(** ** The chain of blocks behind a state *)

(** The consensus block commits to its transactions, and the first of these to
    the EVM block [h] as the child of [parent]. *)
Definition committed (b : CircuitStateBlock) (h : EvmHeader) (parent : hash32) : Prop :=
  ∃ lb tx, light_block_from_slice (sb_cosmos_block b) = Ok lb ∧
    lb_data_hash lb = Some (vec_to_list (merkle_root_from_base64_txns (sb_cosmos_txns b))) ∧
    head (sb_cosmos_txns b) = Some tx ∧
    parse_cbft_tx_payload tx =
      Ok (Some (mkPayload (vec_to_list parent) (eh_number h) (vec_to_list (hash_slow h)))).

(** Block [b] executes to [h] with all its withdrawals' slots set, at height
    [height]; unless it is the genesis block [g] it extends [parent]. *)
Record accepts (g : hash32) (height : Z) (parent : hash32) (b : CircuitStateBlock)
    (h : EvmHeader) : Prop := {
  ac_executed : executor_execute (sb_evm_block b) (storage_info (sb_withdrawals b)) = Ok h;
  ac_number : eh_number h = height;
  ac_linked : hash_slow h ≠ g → eh_parent_hash h = parent ∧ committed b h parent;
}.

(** The hash before position [i]. *)
Definition hash_before (g : hash32) (hs : list EvmHeader) (i : nat) : hash32 :=
  match i with O => g | S i => default g (hash_slow <$> hs !! i) end.

(** What a block adds to the withdrawals. *)
Definition collected (g : hash32) (b : CircuitStateBlock) (h : EvmHeader) : list WithdrawalSlot :=
  if decide (hash_slow h = g) then [] else sb_withdrawals b.

(** State [s] is the result of blocks [bs], executed to [hs], from genesis hash
    [g] at height [n]. *)
Record evm_chain (g : hash32) (n : Z) (bs : list CircuitStateBlock) (hs : list EvmHeader)
    (s : StateChainState) : Prop := {
  ch_length : length bs = length hs;
  ch_accepts : ∀ i b h, bs !! i = Some b → hs !! i = Some h →
    accepts g ((n + Z.of_nat i) mod u64_modulus) (hash_before g hs i) b h;
  ch_height : ss_evm_block_height s = (n + Z.of_nat (length hs)) mod u64_modulus;
  ch_genesis : ss_genesis_evm_block_hash s = g;
  ch_tip : ss_latest_evm_block_hash s = hash_before g hs (length hs);
  ch_cosmos : ∀ b, last bs = Some b → ss_latest_cosmos_block s = sb_cosmos_block b;
  ch_withdrawals : ss_withdrawals s = mjoin (zip_with (collected g) bs hs);
}.

Lemma data_hash_of_Ok lb h : data_hash_of lb = Ok h → lb_data_hash lb = Some (vec_to_list h).
Proof.
  unfold data_hash_of. intros H. ok_inv.
  match goal with H : (_ =? _)%nat = true |- _ => apply Nat.eqb_eq in H end.
  by rewrite to_hash32_list.
Qed.

(** What one accepted block does. *)
Lemma apply_block_Ok s b s' :
  0 ≤ ss_evm_block_height s →
  StateChainState_apply_block s b = Ok s' →
  ∃ h, accepts (ss_genesis_evm_block_hash s) (ss_evm_block_height s) (ss_latest_evm_block_hash s) b h ∧
    s' = mkStateChain ((ss_evm_block_height s + 1) mod u64_modulus) (ss_genesis_evm_block_hash s)
           (hash_slow h) (sb_cosmos_block b)
           (ss_withdrawals s ++ collected (ss_genesis_evm_block_hash s) b h).
Proof.
  intros Hpos H. unfold StateChainState_apply_block, execute_el_block_and_check_withdraw_tx in H.
  apply outcome_bind_Ok in H as (h & Hx & H). apply outcome_bind_Ok in H as (u1 & Hn & H).
  apply outcome_bind_Ok in H as (u2 & Hh & H). apply require_Ok in Hn, Hh. brefl.
  apply outcome_bind_Ok in H as (lb & Hlb & H). apply outcome_bind_Ok in H as (ws & Hw & H).
  apply outcome_bind_Ok in H as (n & Hnext & H). injection H as <-.
  apply u64_add_mod in Hnext; [|lia..]. subst n. exists h. unfold collected.
  destruct (decide (hash_slow h ≠ _)) as [Hne|Heq%dec_stable].
  - rewrite decide_False by done. ok_inv. brefl.
    match goal with H : check_el_block_from_payload _ _ _ _ _ = Ok _ |- _ =>
      apply check_el_block_Ok in H as (Hd & tx & Htx & Hp) end.
    match goal with H : data_hash_of _ = Ok _ |- _ => apply data_hash_of_Ok in H as Hdata end.
    split; [|done]. constructor; [done..|]. intros _. split; [done|].
    exists lb, tx. rewrite <- Hd. split_and!; [done..|]. by rewrite Hn.
  - rewrite decide_True by done. injection Hw as <-. rewrite app_nil_r.
    split; [|done]. by constructor.
Qed.

Lemma hash_before_app g hs h i :
  (i ≤ length hs)%nat → hash_before g (hs ++ [h]) i = hash_before g hs i.
Proof. intros Hi. destruct i as [|i]; [done|]. cbn. by rewrite lookup_app_l by lia. Qed.

Lemma evm_chain_snoc g n bs hs s b s' :
  0 ≤ n → evm_chain g n bs hs s → StateChainState_apply_block s b = Ok s' →
  ∃ h, evm_chain g n (bs ++ [b]) (hs ++ [h]) s'.
Proof.
  intros Hn [Hl Ha Hh Hg Ht _ Hw] H. apply apply_block_Ok in H as (h & Hacc & ->);
    [|rewrite Hh; by apply Z.mod_pos_bound]. rewrite Hg in *. exists h. constructor; cbn.
  - rewrite !length_app. cbn. lia.
  - intros i b' h' Hb Hh'. destruct (decide (i < length hs)%nat) as [Hi|Hi].
    + rewrite lookup_app_l in Hb by lia. rewrite lookup_app_l in Hh' by lia. rewrite hash_before_app by lia. by apply Ha.
    + pose proof (lookup_lt_Some _ _ _ Hh') as Hlt. rewrite length_app in Hlt. cbn in Hlt.
      assert (i = length hs) as -> by lia. rewrite list_lookup_middle in Hh' by lia.
      rewrite list_lookup_middle in Hb by lia. injection Hb as <-. injection Hh' as <-.
      rewrite hash_before_app, <- Hh, <- Ht by lia. done.
  - rewrite Hh, length_app, Z.add_mod_idemp_l by done. cbn. f_equal. lia.
  - done.
  - rewrite length_app. cbn. rewrite Nat.add_comm. cbn. by rewrite list_lookup_middle.
  - intros b'. rewrite last_snoc. by intros [= <-].
  - rewrite zip_with_app by done. cbn. rewrite join_app. cbn. by rewrite app_nil_r, <- Hw.
Qed.

Lemma evm_chain_grows g n bs hs s more s' :
  0 ≤ n → evm_chain g n bs hs s → StateChainState_apply_blocks s more = Ok s' →
  ∃ hs', evm_chain g n (bs ++ more) hs' s'.
Proof.
  intros Hn. revert bs hs s. induction more as [|b more IH]; intros bs hs s Hc H.
  - injection H as <-. exists hs. by rewrite app_nil_r.
  - cbn in H. apply outcome_bind_Ok in H as (s1 & H1 & H).
    destruct (evm_chain_snoc _ _ _ _ _ _ _ Hn Hc H1) as [h Hc'].
    rewrite cons_middle, app_assoc. by eapply IH.
Qed.

Lemma evm_chain_new g n c : 0 ≤ n < u64_modulus → evm_chain g n [] [] (StateChainState_new n g c).
Proof. intros Hn. constructor; try done. cbn. by rewrite Z.add_0_r, Z.mod_small. Qed.

(** Two headers of different numbers with one hash. *)
Definition header_collision : Prop :=
  ∃ h h', eh_number h ≠ eh_number h' ∧ hash_slow h = hash_slow h'.

(** After the first block every block extends the one before it: a later block
    with the genesis hash would have another number. *)
Lemma evm_chain_linked h0 bs hs s i b h h' :
  (∀ h, 0 ≤ eh_number h < u64_modulus) →
  evm_chain (hash_slow h0) (eh_number h0) bs hs s →
  Z.of_nat (S i) < u64_modulus →
  hs !! i = Some h → bs !! S i = Some b → hs !! S i = Some h' →
  (eh_parent_hash h' = hash_slow h ∧ committed b h' (hash_slow h)) ∨ header_collision.
Proof.
  intros Hu Hc Hi Hh Hb Hh'. destruct (ch_accepts _ _ _ _ _ Hc _ _ _ Hb Hh') as [_ Hn Hl].
  destruct (decide (hash_slow h' = hash_slow h0)) as [Heq|Hne]; [right|left].
  - exists h', h0. split; [|done]. rewrite Hn. pose proof (Hu h0).
    intros E. pose proof (Z.div_mod (eh_number h0 + Z.of_nat (S i)) u64_modulus ltac:(done)) as D.
    rewrite E in D. unfold u64_modulus in *. nia.
  - destruct (Hl Hne) as [Hp Hcm]. cbn [hash_before] in Hp, Hcm.
    rewrite Hh in Hp, Hcm. done.
Qed.

Lemma attested_chain `{SL : !StateOutputLaws} `{EL : !EvmLaws} p v :
  attested state_guest state_previous p v → ∀ out,
  deserialize_state_chain_output v = Ok out →
  so_self_program_id out = p → so_program_history_hash out = initial_history State →
  (∃ b bs hs, let h0 := current_block (sb_evm_block b) in
     evm_chain (hash_slow h0) (eh_number h0) (b :: bs) hs (so_chain_state out)) ∨ collision.
Proof.
  induction 1 as [i v Hrun Hprev IH]; intros out Hd Hself Hhist.
  unfold state_guest in Hrun. apply outcome_bind_Ok in Hrun as (out' & Hc & Hv).
  injection Hv as <-. rewrite state_output_round in Hd. injection Hd as ->.
  unfold state_chain_circuit in Hc. apply outcome_bind_Ok in Hc as ([[s hist] chk] & Hs & Hc).
  apply outcome_bind_Ok in Hc as (s' & Ha & Hc). injection Hc as <-. cbn in *. subst hist.
  destruct (si_prev_proof i) eqn:Ep.
  - apply outcome_bind_Ok in Hs as (first & Hf & Hs). apply expect_Ok in Hf.
    destruct (si_blocks i) as [|b bs] eqn:Eb; [done|]. injection Hf as ->. injection Hs as <- _.
    left. exists first, bs. pose proof (eh_number_u64 (current_block (sb_evm_block first))).
    eapply (evm_chain_grows _ _ [] []); [lia|by apply evm_chain_new|exact Ha].
  - apply outcome_bind_Ok in Hs as (q & Hq & Hs).
    apply outcome_bind_Ok in Hs as (prev & Hdec & Hs).
    apply outcome_bind_Ok in Hs as (u & Hid & Hs). apply require_Ok in Hid. brefl.
    injection Hs as <- Hh _.
    unfold decode_state_chain_circuit_output in Hdec.
    destruct (deserialize_state_chain_output (si_zkm_public_values i)) as [o|] eqn:Ed; [|done].
    injection Hdec as ->. apply next_history_initial in Hh as [[Hqp Hh]|]; [|by right].
    rewrite Hself in Hqp. rewrite Hqp in Hq. unfold state_previous in IH. rewrite Ep in IH.
    destruct (IH _ _ _ _ eq_refl Hq prev Ed ltac:(congruence) Hh) as [(b & bs & hs & Hch)|];
      [left|by right].
    exists b, (bs ++ si_blocks i). pose proof (eh_number_u64 (current_block (sb_evm_block b))).
    eapply (evm_chain_grows _ _ (b :: bs)); [|exact Hch|exact Ha]. lia.
Qed.


End StateChain.

(** ** Two blocks

    The genesis block 5 and block 6 with one withdrawal, over an executor that
    runs every block whose slots are all expected to hold one. *)

#[local] Existing Instance sha256_exec.
#[local] Instance state_checks : OverflowChecks := false.
#[local] Instance sample_keccak : Keccak := sha256.

Record SampleHeader := mkSampleHeader { sh_number : Z; sh_parent : hash32 }.

#[local] Instance sample_executor : EvmExecutor := {|
  ExecutorInput := SampleHeader;
  EvmHeader := SampleHeader;
  executor_execute h infos := if forallb (λ '(_, _, v), v =? 1) infos then Ok h else Err [];
  current_block h := h;
  eh_number h := sh_number h mod u64_modulus;
  eh_parent_hash := sh_parent;
  hash_slow h := sha256 (vec_to_list (sh_parent h) ++ le_bytes 8 (sh_number h));
|}.

Lemma sample_executor_laws : EvmLaws.
Proof. intros h. by apply Z.mod_pos_bound. Qed.

(** A transaction is its payload, a consensus block its data hash. *)
#[local] Instance sample_cosmos : CosmosTx := {|
  Tx_decode l := Ok (Some [mkAny (tag "/goat.goat.v1.MsgNewEthBlock") l]);
  MsgNewEthBlock_decode l := '(p, n, h) ← decode_bytes l; Ok (Some (mkPayload p n h));
|}.
#[local] Instance sample_light_blocks : LightBlocks := {|
  LightBlock := list byte;
  light_block_from_slice := Ok;
  lb_data_hash := Some;
  lb_validators_hash _ := None;
  lb_next_validators _ := None;
  lb_next_validators_hash _ := None;
  lb_time_plus _ := Some;
  verify_validator_sets _ := true;
  verify_commit _ := true;
  verify_update_header _ _ _ _ := true;
|}.

Definition state_output_tuple (o : StateChainCircuitOutput) :=
  let s := so_chain_state o in
  ((ss_evm_block_height s, ss_genesis_evm_block_hash s, ss_latest_evm_block_hash s,
    ss_latest_cosmos_block s, ss_withdrawals s : list (vec byte 20 * hash32 * list (vec byte 16))),
   (so_self_program_id o, so_program_history_hash o, so_upgrade_checkpoint_hash o)).
Definition state_output_of_tuple t : StateChainCircuitOutput :=
  let '((h, g, l, c, w), (p, hist, chk)) := t in
  mkStateOutput (mkStateChain h g l c w) p hist chk.

#[local] Instance sample_state_codec : StateOutputCodec := {|
  deserialize_state_chain_output l := t ← decode_bytes l; Ok (state_output_of_tuple t);
  commit_state_output o := encode_bytes (state_output_tuple o);
|}.

Lemma sample_state_laws : StateOutputLaws.
Proof.
  intros [[] ? ? ?].
  cbn [deserialize_state_chain_output commit_state_output sample_state_codec].
  by rewrite decode_encode_bytes.
Qed.

Definition evm_5 : SampleHeader := mkSampleHeader 5 zero32.
Definition evm_genesis : hash32 := Eval vm_compute in hash_slow (EvmExecutor := sample_executor) evm_5.
Definition evm_6 : SampleHeader := mkSampleHeader 6 evm_genesis.
Definition tx_6 : list byte := Eval vm_compute in
  encode_bytes (vec_to_list (sh_parent evm_6), 6,
                vec_to_list (hash_slow (EvmExecutor := sample_executor) evm_6)).
Definition sample_withdrawal : WithdrawalSlot :=
  (vreplicate 20 Byte.x11, zero32, [vreplicate 16 Byte.x07]).
Definition data_root_6 : list byte := Eval vm_compute in
  vec_to_list (merkle_root_from_base64_txns [tx_6]).
Definition two_blocks : list CircuitStateBlock :=
  [mkStateBlock [] [] (evm_5 : ExecutorInput) [];
   mkStateBlock [tx_6] data_root_6 (evm_6 : ExecutorInput)
     [sample_withdrawal]].

Definition two_blocks_state : StateChainState := Eval vm_compute in
     match StateChainState_apply_blocks
             (StateChainState_new 5 evm_genesis []) two_blocks with
     | Ok s => s | Err _ => StateChainState_new 0 zero32 [] end.
Definition two_blocks_output : StateChainCircuitOutput :=
  mkStateOutput two_blocks_state sample_program (initial_history State) zero32.

Definition two_blocks_input : StateChainCircuitInput :=
  mkStateInput [] [] [] [] sample_program StateGenesisBlock two_blocks.

Lemma two_blocks_run v :
  state_chain_circuit (G := one_proof v) two_blocks_input = Ok two_blocks_output.
Proof. vm_cast_no_check (eq_refl (Ok two_blocks_output)). Qed.

Lemma two_blocks_withdraw : ss_withdrawals (so_chain_state two_blocks_output) = [sample_withdrawal].
Proof. by vm_compute. Qed.

#[local] Instance state_verifier : Groth16 := one_proof (commit_state_output two_blocks_output).

Lemma two_blocks_sound : groth16_sound state_guest state_previous sample_program.
Proof.
  intros proof v vk zkm_version ->%one_proof_only.
  apply (attested_run _ _ _ two_blocks_input); [|intros ? ? ? ? Hp; discriminate Hp].
  unfold state_guest, state_verifier. rewrite two_blocks_run. cbn [mbind outcome_bind]. reflexivity.
Qed.

