(* ===== verification/WatchtowerCommitment.v ===== *)
(** * The watchtowers' commitments

    Source: circuits/crates/bitcoin-light-client-circuit/src/lib.rs, the functions
    that encode: the commitment a watchtower publishes with its challenge, the
    bitmap of the included watchtowers, the indices of the challenges, and the
    constant an operator's proof is bound to. *)

From Stdlib Require Import Init.Byte.
From stdpp Require Import base vector strings sets list.
From S2P Require Import Prelude Bytes Verifier.

Local Open Scope Z_scope.

Definition GRAPH_ID_SIZE : nat := 16.
Definition PROOF_SIZE : nat := 260.
Definition PUBLIC_INPUTS_SIZE : nat := 36.
Definition ZKM_VERSION_LEN_SIZE : nat := 4.
Definition VK_HASH_SIZE : nat := 66.
Definition TOTAL_WORK_SIZE : nat := 32.
Definition CONSENSUS_BLOCK_HEIGHT_SIZE : nat := 4.

Record WatchtowerCommitment := mkWatchtowerCommitment {
  wc_graph_id : vec byte GRAPH_ID_SIZE;
  wc_proof : vec byte PROOF_SIZE;
  wc_public_values : vec byte PUBLIC_INPUTS_SIZE;
  wc_vk_hash : vec byte VK_HASH_SIZE;
  wc_total_work : vec byte TOTAL_WORK_SIZE;
  wc_consensus_block_height : vec byte CONSENSUS_BLOCK_HEIGHT_SIZE;
  wc_zkm_version : list byte;
}.

(** ** The commitment's format *)

(** The assertion on the key hash is a panic. *)
Definition build_watchtower_commitment (graph_id : vec byte GRAPH_ID_SIZE)
    (proof : vec byte PROOF_SIZE) (public_inputs : vec byte PUBLIC_INPUTS_SIZE)
    (vk_hash zkm_version : list byte) : outcome (list byte) :=
  _ ← require (length vk_hash =? VK_HASH_SIZE)%nat "vk_hash.len() == VK_HASH_SIZE";
  Ok (vec_to_list graph_id ++ vec_to_list proof ++ vec_to_list public_inputs ++ vk_hash ++
      le_bytes 4 (Z.of_nat (length zkm_version)) ++ zkm_version).

(** A [usize] of the guest's target has 32 bits, of the nodes' 64. *)
Class UsizeBits := usize_bits : Z.

Section Usize.
Context `{OC : OverflowChecks} `{UB : UsizeBits}.

Definition usize_modulus : Z := 2 ^ usize_bits.

Definition usize_add (a b : Z) : outcome Z :=
  if a + b <? usize_modulus then Ok (a + b)
  else if overflow_checks then Err ["attempt to add with overflow"]
  else Ok ((a + b) mod usize_modulus).

Definition slice (l : list byte) (from size : nat) : list byte := take size (drop from l).

(** Outside the [Err] of a panic, inside the function's own result.  After the
    first check the slices up to the version's length are in range, after the
    last one all are. *)
Definition parse_watchtower_commitment (commitment : list byte)
    : outcome (outcome WatchtowerCommitment) :=
  let size := Z.of_nat (length commitment) in
  let min_commitment_size :=
    (GRAPH_ID_SIZE + PROOF_SIZE + PUBLIC_INPUTS_SIZE + VK_HASH_SIZE + ZKM_VERSION_LEN_SIZE)%nat in
  if size <? Z.of_nat min_commitment_size then Ok (Err ["invalid commitment size"])
  else
    let graph_id := to_array GRAPH_ID_SIZE (slice commitment 0 GRAPH_ID_SIZE) in
    let at_proof := GRAPH_ID_SIZE in
    let proof := to_array PROOF_SIZE (slice commitment at_proof PROOF_SIZE) in
    let at_values := (at_proof + PROOF_SIZE)%nat in
    let zkm_public_values :=
      to_array PUBLIC_INPUTS_SIZE (slice commitment at_values PUBLIC_INPUTS_SIZE) in
    let at_vk := (at_values + PUBLIC_INPUTS_SIZE)%nat in
    let zkm_vk_hash_bytes := to_array VK_HASH_SIZE (slice commitment at_vk VK_HASH_SIZE) in
    let at_len := (at_vk + VK_HASH_SIZE)%nat in
    let zkm_version_len := le_value (slice commitment at_len ZKM_VERSION_LEN_SIZE) in
    if zkm_version_len =? 0 then Ok (Err ["zkm_version must not be empty"])
    else
      let at_version := (at_len + ZKM_VERSION_LEN_SIZE)%nat in
      expected_size ← usize_add (Z.of_nat min_commitment_size) zkm_version_len;
      if negb (size =? expected_size) then Ok (Err ["invalid commitment size"])
      else
        match from_utf8 (slice commitment at_version (Z.to_nat zkm_version_len)) with
        | Err _ => Ok (Err ["invalid zkm_version UTF-8"])
        | Ok zkm_version =>
            Ok (Ok {|
              wc_graph_id := graph_id;
              wc_proof := proof;
              wc_public_values := zkm_public_values;
              wc_vk_hash := zkm_vk_hash_bytes;
              wc_total_work :=
                to_array TOTAL_WORK_SIZE (slice (vec_to_list zkm_public_values) 0 TOTAL_WORK_SIZE);
              wc_consensus_block_height :=
                to_array CONSENSUS_BLOCK_HEIGHT_SIZE
                  (slice (vec_to_list zkm_public_values) TOTAL_WORK_SIZE CONSENSUS_BLOCK_HEIGHT_SIZE);
              wc_zkm_version := zkm_version;
            |})
        end.

(** The middle part of a list. *)
Lemma slice_at c pre l post from size :
  c = pre ++ l ++ post → length pre = from → length l = size → slice c from size = l.
Proof.
  intros -> <- <-. unfold slice. by rewrite drop_app_length, take_app_length.
Qed.

Lemma slice_length l from size :
  (from + size ≤ length l)%nat → length (slice l from size) = size.
Proof. intros H. unfold slice. rewrite length_take, length_drop. lia. Qed.

Ltac solve_slice :=
  rewrite ?app_nil_r, <- ?app_assoc, ?length_app, ?length_vec_to_list; reflexivity.

Lemma split_vec n (l : list byte) :
  (n ≤ length l)%nat → ∃ (v : vec byte n) m, l = vec_to_list v ++ m.
Proof.
  intros H. exists (to_array n (take n l)), (drop n l).
  rewrite to_array_list by (rewrite length_take; lia). by rewrite take_drop.
Qed.

(** The parser on the parts of a commitment. *)
Lemma parse_parts (g : vec byte GRAPH_ID_SIZE) (p : vec byte PROOF_SIZE)
    (t : vec byte TOTAL_WORK_SIZE) (h : vec byte CONSENSUS_BLOCK_HEIGHT_SIZE)
    (v : vec byte PUBLIC_INPUTS_SIZE) (k : vec byte VK_HASH_SIZE) (n : vec byte ZKM_VERSION_LEN_SIZE)
    (rest : list byte) :
  vec_to_list v = vec_to_list t ++ vec_to_list h →
  parse_watchtower_commitment
    (vec_to_list g ++ vec_to_list p ++ vec_to_list v ++ vec_to_list k ++ vec_to_list n ++ rest) =
  let len := le_value (vec_to_list n) in
  if len =? 0 then Ok (Err ["zkm_version must not be empty"])
  else
    expected_size ← usize_add 382 len;
    if negb (382 + Z.of_nat (length rest) =? expected_size)
    then Ok (Err ["invalid commitment size"])
    else
      match from_utf8 (take (Z.to_nat len) rest) with
      | Err _ => Ok (Err ["invalid zkm_version UTF-8"])
      | Ok zkm_version => Ok (Ok (mkWatchtowerCommitment g p v k t h zkm_version))
      end.
Proof.
  intros Hv. unfold parse_watchtower_commitment.
  rewrite !length_app, !length_vec_to_list.
  destruct (Z.ltb_spec (Z.of_nat (GRAPH_ID_SIZE + (PROOF_SIZE + (PUBLIC_INPUTS_SIZE + (VK_HASH_SIZE +
    (ZKM_VERSION_LEN_SIZE + length rest)))))%nat)
    (Z.of_nat (GRAPH_ID_SIZE + PROOF_SIZE + PUBLIC_INPUTS_SIZE + VK_HASH_SIZE + ZKM_VERSION_LEN_SIZE)))
    as [Hlt|_]; [lia|].
  set (c := vec_to_list g ++ _).
  rewrite (slice_at c [] (vec_to_list g) (vec_to_list p ++ vec_to_list v ++ vec_to_list k ++ vec_to_list n ++ rest) 0 GRAPH_ID_SIZE) by solve_slice.
  rewrite (slice_at c (vec_to_list g) (vec_to_list p) (vec_to_list v ++ vec_to_list k ++ vec_to_list n ++ rest) GRAPH_ID_SIZE PROOF_SIZE)
    by solve_slice.
  rewrite (slice_at c (vec_to_list g ++ vec_to_list p) (vec_to_list v)
             (vec_to_list k ++ vec_to_list n ++ rest) (GRAPH_ID_SIZE + PROOF_SIZE)
             PUBLIC_INPUTS_SIZE) by solve_slice.
  rewrite (slice_at c (vec_to_list g ++ vec_to_list p ++ vec_to_list v) (vec_to_list k)
             (vec_to_list n ++ rest) (GRAPH_ID_SIZE + PROOF_SIZE + PUBLIC_INPUTS_SIZE)
             VK_HASH_SIZE) by solve_slice.
  rewrite (slice_at c (vec_to_list g ++ vec_to_list p ++ vec_to_list v ++ vec_to_list k)
             (vec_to_list n) rest (GRAPH_ID_SIZE + PROOF_SIZE + PUBLIC_INPUTS_SIZE + VK_HASH_SIZE)
             ZKM_VERSION_LEN_SIZE) by solve_slice.
  rewrite !to_array_vec, Hv.
  rewrite (slice_at _ [] (vec_to_list t) (vec_to_list h) 0 TOTAL_WORK_SIZE) by solve_slice.
  rewrite (slice_at _ (vec_to_list t) (vec_to_list h) [] TOTAL_WORK_SIZE
             CONSENSUS_BLOCK_HEIGHT_SIZE) by solve_slice.
  rewrite !to_array_vec. cbn zeta. destruct (_ =? 0); [done|].
  change (Z.of_nat (GRAPH_ID_SIZE + _ + _ + _ + _)) with 382.
  destruct (usize_add 382 _) as [e|]; [|done]. cbn [mbind outcome_bind].
  replace (Z.of_nat _ =? e) with (382 + Z.of_nat (length rest) =? e) by (f_equal; cbn; lia).
  destruct (_ =? e); [|done]. cbn [negb].
  unfold slice. subst c. rewrite !app_assoc, drop_app_length' by (rewrite !length_app, !length_vec_to_list; done).
  done.
Qed.

(** With a size that a slice of the target can have, the wrapped sum is below the
    minimum and so below every size that is compared with it. *)
Lemma usize_add_size size len e :
  32 ≤ usize_bits → 382 ≤ size < usize_modulus → 0 ≤ len < 2 ^ 32 →
  usize_add 382 len = Ok e → (size =? e) = (size =? 382 + len).
Proof.
  unfold usize_add. intros Hb Hs Hl H.
  destruct (Z.ltb_spec (382 + len) usize_modulus) as [|Hge]; [by injection H as <-|].
  destruct overflow_checks; [done|]. injection H as <-.
  assert (2 ^ 32 ≤ usize_modulus) by (apply Z.pow_le_mono_r; lia).
  replace ((382 + len) mod usize_modulus) with (382 + len - usize_modulus)
    by (apply Z.mod_unique with 1; lia).
  destruct (Z.eqb_spec size (382 + len - usize_modulus)), (Z.eqb_spec size (382 + len)); lia.
Qed.

Definition well_formed (w : WatchtowerCommitment) : Prop :=
  wc_zkm_version w ≠ [] ∧ valid_utf8 (wc_zkm_version w) = true ∧
  Z.of_nat (length (wc_zkm_version w)) < 2 ^ 32 ∧
  vec_to_list (wc_public_values w) =
    vec_to_list (wc_total_work w) ++ vec_to_list (wc_consensus_block_height w).

Definition build_of (w : WatchtowerCommitment) : outcome (list byte) :=
  build_watchtower_commitment (wc_graph_id w) (wc_proof w) (wc_public_values w)
    (vec_to_list (wc_vk_hash w)) (wc_zkm_version w).

Lemma build_of_Ok w c :
  build_of w = Ok c ↔
  c = vec_to_list (wc_graph_id w) ++ vec_to_list (wc_proof w) ++ vec_to_list (wc_public_values w) ++
      vec_to_list (wc_vk_hash w) ++ le_bytes 4 (Z.of_nat (length (wc_zkm_version w))) ++
      wc_zkm_version w.
Proof.
  unfold build_of, build_watchtower_commitment. rewrite length_vec_to_list. cbn. naive_solver.
Qed.

Lemma from_utf8_Ok l m : from_utf8 l = Ok m ↔ m = l ∧ valid_utf8 l = true.
Proof. unfold from_utf8. destruct (valid_utf8 l); naive_solver. Qed.

(** The parts of a string that is long enough. *)
Lemma split_commitment c :
  (382 ≤ length c)%nat →
  ∃ (g : vec byte GRAPH_ID_SIZE) (p : vec byte PROOF_SIZE) (v : vec byte PUBLIC_INPUTS_SIZE)
    (k : vec byte VK_HASH_SIZE) (n : vec byte ZKM_VERSION_LEN_SIZE) rest
    (t : vec byte TOTAL_WORK_SIZE) (h : vec byte CONSENSUS_BLOCK_HEIGHT_SIZE),
    c = vec_to_list g ++ vec_to_list p ++ vec_to_list v ++ vec_to_list k ++ vec_to_list n ++ rest ∧
    vec_to_list v = vec_to_list t ++ vec_to_list h.
Proof.
  intros Hmin. destruct (split_vec GRAPH_ID_SIZE c) as (g & c1 & ->); [unfold GRAPH_ID_SIZE; lia|].
  rewrite length_app, length_vec_to_list in Hmin. unfold GRAPH_ID_SIZE in Hmin.
  destruct (split_vec PROOF_SIZE c1) as (p & c2 & ->); [unfold PROOF_SIZE; lia|].
  rewrite length_app, length_vec_to_list in Hmin. unfold PROOF_SIZE in Hmin.
  destruct (split_vec PUBLIC_INPUTS_SIZE c2) as (v & c3 & ->); [unfold PUBLIC_INPUTS_SIZE; lia|].
  rewrite length_app, length_vec_to_list in Hmin. unfold PUBLIC_INPUTS_SIZE in Hmin.
  destruct (split_vec VK_HASH_SIZE c3) as (k & c4 & ->); [unfold VK_HASH_SIZE; lia|].
  rewrite length_app, length_vec_to_list in Hmin. unfold VK_HASH_SIZE in Hmin.
  destruct (split_vec ZKM_VERSION_LEN_SIZE c4) as (n & rest & ->); [unfold ZKM_VERSION_LEN_SIZE; lia|].
  destruct (split_vec TOTAL_WORK_SIZE (vec_to_list v)) as (t & hl & Hv);
    [rewrite length_vec_to_list; unfold TOTAL_WORK_SIZE, PUBLIC_INPUTS_SIZE; lia|].
  exists g, p, v, k, n, rest, t, (to_array _ hl). split; [done|]. rewrite to_array_list; [done|].
  apply (f_equal length) in Hv. rewrite length_app, !length_vec_to_list in Hv.
  unfold PUBLIC_INPUTS_SIZE, TOTAL_WORK_SIZE, CONSENSUS_BLOCK_HEIGHT_SIZE in *. lia.
Qed.

(** A commitment that parses is the encoding of what it parses to. *)
Lemma parse_sound c w :
  32 ≤ usize_bits → Z.of_nat (length c) < usize_modulus →
  parse_watchtower_commitment c = Ok (Ok w) → build_of w = Ok c ∧ well_formed w.
Proof.
  intros Hb Hc H. assert (382 ≤ length c)%nat as Hmin.
  { unfold parse_watchtower_commitment in H. destruct (Z.ltb_spec (Z.of_nat (length c))
      (Z.of_nat (GRAPH_ID_SIZE + PROOF_SIZE + PUBLIC_INPUTS_SIZE + VK_HASH_SIZE + ZKM_VERSION_LEN_SIZE)))
      as [|Hle]; [done|]. change (Z.of_nat (_ + _ + _ + _ + _)) with 382 in Hle. lia. }
  destruct (split_commitment c Hmin) as (g & p & v & k & n & rest & t & h & -> & Hv).
  rewrite (parse_parts _ _ _ _ _ _ _ _ Hv) in H.
  pose proof (le_value_range (vec_to_list n)) as Hn. rewrite length_vec_to_list in Hn.
  change (256 ^ Z.of_nat ZKM_VERSION_LEN_SIZE) with (2 ^ 32) in Hn. cbn zeta in H.
  destruct (Z.eqb_spec (le_value (vec_to_list n)) 0) as [|Hne]; [done|].
  destruct (usize_add 382 _) as [e|] eqn:Ee; [|done]. cbn [mbind outcome_bind] in H.
  rewrite (usize_add_size (382 + Z.of_nat (length rest)) _ _ Hb ltac:(revert Hc; rewrite !length_app, !length_vec_to_list;
    unfold GRAPH_ID_SIZE, PROOF_SIZE, PUBLIC_INPUTS_SIZE, VK_HASH_SIZE, ZKM_VERSION_LEN_SIZE; lia)
    Hn Ee) in H.
  destruct (Z.eqb_spec (382 + Z.of_nat (length rest)) (382 + le_value (vec_to_list n))) as [El|]; [|done].
  cbn [negb] in H. rewrite take_ge in H by lia.
  destruct (from_utf8 rest) as [ver|] eqn:Ef; [|done]. apply from_utf8_Ok in Ef as [-> Hu].
  injection H as <-. split.
  - apply build_of_Ok. cbn -[le_bytes]. do 4 f_equal. f_equal.
    apply le_value_inj; [by rewrite le_bytes_length, length_vec_to_list|].
    rewrite le_value_bytes, Z.mod_small; lia.
  - split_and!; cbn; [|done|lia|done]. intros ->. cbn in El. lia.
Qed.

(** A well-formed commitment's encoding parses to it. *)
Lemma parse_complete c w :
  32 ≤ usize_bits → Z.of_nat (length c) < usize_modulus →
  build_of w = Ok c → well_formed w → parse_watchtower_commitment c = Ok (Ok w).
Proof.
  intros Hb Hc ->%build_of_Ok (Hne & Hu & Hl & Hv). destruct w as [g p v k t h ver]; cbn -[le_bytes] in *.
  assert (length (le_bytes 4 (Z.of_nat (length ver))) = ZKM_VERSION_LEN_SIZE) as H4
    by apply le_bytes_length.
  rewrite <- (to_array_list _ _ H4), (parse_parts _ _ _ _ _ _ _ _ Hv), (to_array_list _ _ H4).
  rewrite le_value_bytes. change (256 ^ Z.of_nat 4) with (2 ^ 32). rewrite Z.mod_small by lia.
  cbn zeta. destruct (Z.eqb_spec (Z.of_nat (length ver)) 0); [by destruct ver|].
  unfold usize_add. rewrite (proj2 (Z.ltb_lt _ _)).
  2: { revert Hc. rewrite !length_app, !length_vec_to_list, le_bytes_length.
       unfold GRAPH_ID_SIZE, PROOF_SIZE, PUBLIC_INPUTS_SIZE, VK_HASH_SIZE. lia. }
  cbn [mbind outcome_bind]. rewrite Z.eqb_refl. cbn [negb].
  rewrite Nat2Z.id, firstn_all. by rewrite (proj2 (from_utf8_Ok ver ver) (conj eq_refl Hu)).
Qed.

(** The commitment's encoding and parser are inverse.  On every byte string
    that fits the target's address space, [parse_watchtower_commitment] returns a
    commitment exactly when the string is what [build_watchtower_commitment]
    writes for it and the commitment is well-formed; so no two strings parse to
    one commitment, and trailing or missing bytes are refused also where the size
    computation wraps around. *)
Theorem commitment_round_trip c w :
  32 ≤ usize_bits → Z.of_nat (length c) < usize_modulus →
  parse_watchtower_commitment c = Ok (Ok w) ↔ build_of w = Ok c ∧ well_formed w.
Proof.
  intros Hb Hc. split; [by apply parse_sound|]. intros [H Hw]. by apply parse_complete.
Qed.

End Usize.

(** ** The bitmap of included watchtowers

    A [U256] is the number it denotes. *)

Definition u256_to_le_bits (u : Z) : list bool := map (λ i, Z.testbit u (Z.of_nat i)) (seq 0 256).

(** The sum wraps, and shifting by 256 or more gives zero. *)
Fixpoint le_bits_loop (i : nat) (u : Z) (bits : list bool) : Z :=
  match bits with
  | [] => u
  | bit :: bits =>
      le_bits_loop (S i)
        (if bit then (u + (if (i <? 256)%nat then 2 ^ Z.of_nat i else 0)) mod u256_modulus else u) bits
  end.
Definition le_bits_to_u256 (bits : list bool) : Z := le_bits_loop 0 0 bits.

Lemma testbit_split u i :
  0 ≤ u → u mod 2 ^ Z.of_nat i + (if Z.testbit u (Z.of_nat i) then 2 ^ Z.of_nat i else 0) =
  u mod 2 ^ Z.of_nat (S i).
Proof.
  intros Hu. rewrite Nat2Z.inj_succ, Z.pow_succ_r, (Z.mul_comm 2) by lia.
  rewrite Z.rem_mul_r by lia.
  pose proof (Z.testbit_spec' u (Z.of_nat i) ltac:(lia)) as E.
  rewrite <- E. destruct (Z.testbit u (Z.of_nat i)); cbn; lia.
Qed.

(** The loop over the bits from [i] on. *)
Lemma le_bits_loop_low u n i :
  0 ≤ u → (i + n ≤ 256)%nat →
  le_bits_loop i (u mod 2 ^ Z.of_nat i) (map (λ j, Z.testbit u (Z.of_nat j)) (seq i n)) =
  u mod 2 ^ Z.of_nat (i + n).
Proof.
  intros Hu. revert i. induction n as [|n IH]; intros i Hi; cbn [seq map le_bits_loop].
  - by rewrite Nat.add_0_r.
  - rewrite (proj2 (Nat.ltb_lt _ _)) by lia.
    replace (if Z.testbit u _ then _ else _) with (u mod 2 ^ Z.of_nat (S i)).
    + rewrite IH by lia. do 2 f_equal. lia.
    + rewrite <- testbit_split by done. destruct (Z.testbit u (Z.of_nat i)) eqn:E; [|lia].
      rewrite (Z.mod_small (_ + _)); [done|]. pose proof (testbit_split u i Hu) as T. rewrite E in T.
      pose proof (Z.mod_pos_bound u (2 ^ Z.of_nat (S i)) ltac:(lia)).
      pose proof (Z.mod_pos_bound u (2 ^ Z.of_nat i) ltac:(lia)).
      pose proof (Z.pow_le_mono_r 2 (Z.of_nat (S i)) 256 ltac:(lia) ltac:(lia)).
      unfold u256_modulus. lia.
Qed.

Lemma bits_round_trip u : 0 ≤ u < u256_modulus → le_bits_to_u256 (u256_to_le_bits u) = u.
Proof.
  intros [Hu Hlt]. unfold le_bits_to_u256, u256_to_le_bits.
  pose proof (le_bits_loop_low u 256 0 Hu ltac:(done)) as H. cbn [Z.of_nat] in H.
  rewrite Z.mod_1_r in H. rewrite H. apply Z.mod_small. exact (conj Hu Hlt).
Qed.

(** ** The indices of the challenges *)

Fixpoint indices_loop (count : nat) (seen : list bool) (indices : list nat) : outcome (list bool) :=
  match indices with
  | [] => Ok seen
  | index :: indices =>
      if (count <=? index)%nat then Err ["watchtower challenge index out of bounds"]
      else if decide (seen !! index = Some true) then Err ["duplicate watchtower challenge index"]
      else indices_loop count (<[index := true]> seen) indices
  end.

Definition validate_watchtower_challenge_indices (included_watchtowers : list bool)
    (graph_watchtower_count : nat) (challenge_indices : list nat) : outcome unit :=
  if (graph_watchtower_count =? 0)%nat || (256 <? graph_watchtower_count)%nat
  then Err ["invalid graph watchtower count"]
  else
    seen ← indices_loop graph_watchtower_count (replicate 256 false) challenge_indices;
    if decide (included_watchtowers ≠ seen)
    then Err ["watchtower challenge indices do not match included bitmap"] else Ok tt.

(** The flags set by a list of indices. *)
Definition marks (prior : list nat) : list bool :=
  map (λ i, bool_decide (i ∈ prior)) (seq 0 256).

Lemma lookup_marks prior i : (i < 256)%nat → marks prior !! i = Some (bool_decide (i ∈ prior)).
Proof.
  intros Hi. unfold marks. rewrite list_lookup_fmap.
  by rewrite lookup_seq_lt.
Qed.

Lemma marks_insert prior i : (i < 256)%nat → <[i := true]> (marks prior) = marks (i :: prior).
Proof.
  intros Hi. apply list_eq. intros j. destruct (decide (j < 256)%nat) as [Hj|Hj].
  - destruct (decide (i = j)) as [->|Hne].
    + rewrite list_lookup_insert_eq by (unfold marks; rewrite length_map, length_seq; done).
      rewrite lookup_marks by done. by rewrite bool_decide_eq_true_2 by set_solver.
    + rewrite list_lookup_insert_ne, !lookup_marks by done.
      f_equal. apply bool_decide_ext. set_solver.
  - rewrite !lookup_ge_None_2; [done| |];
      rewrite ?length_insert; unfold marks; rewrite length_map, length_seq; lia.
Qed.

Lemma indices_loop_Ok count prior indices seen :
  (count ≤ 256)%nat →
  indices_loop count (marks prior) indices = Ok seen ↔
  Forall (λ i, i < count)%nat indices ∧ NoDup indices ∧ (∀ i, i ∈ indices → i ∉ prior) ∧
  seen = marks (indices ++ prior).
Proof.
  intros Hc. revert prior. induction indices as [|i indices IH]; intros prior; cbn [indices_loop app].
  - split; [intros [= <-]|intros (_ & _ & _ & ->); done]. split_and!; [constructor|constructor|set_solver|done].
  - destruct (Nat.leb_spec count i) as [Hge|Hlt].
    { split; [done|]. intros (Hf & _). apply Forall_cons in Hf as [? _]. lia. }
    rewrite lookup_marks by lia. destruct (decide _) as [Hin|Hnin].
    { injection Hin as Hin%bool_decide_eq_true_1. split; [done|].
      intros (_ & _ & Hd & _). destruct (Hd i); set_solver. }
    assert (i ∉ prior) as Hni by (intros H; apply Hnin; by rewrite bool_decide_eq_true_2).
    rewrite marks_insert, IH by lia. rewrite Forall_cons, NoDup_cons.
    assert (marks (indices ++ i :: prior) = marks (i :: indices ++ prior)) as Hm.
    { unfold marks. apply map_ext. intros j. apply bool_decide_ext. set_solver. }
    rewrite Hm. split.
    + intros (Hf & Hnd & Hd & ->). clear Hm IH. split; [done|]. split.
      { split; [|done]. intros Hi. apply (Hd i Hi). set_solver. }
      split; [|done]. intros j [->|Hj]%elem_of_cons; [done|].
      intros Hp. apply (Hd j Hj). set_solver.
    + intros ((_ & Hf) & (Hn & Hnd) & Hd & ->). split; [done|]. split; [done|].
      split; [|done]. intros j Hj [->|Hp]%elem_of_cons; [done|]. by apply (Hd j); [right|].
Qed.

Lemma indices_exact bits count indices :
  length bits = 256%nat →
  validate_watchtower_challenge_indices bits count indices = Ok tt ↔
  (1 ≤ count ≤ 256)%nat ∧ NoDup indices ∧ Forall (λ i, i < count)%nat indices ∧
  ∀ i, (i < 256)%nat → bits !! i = Some (bool_decide (i ∈ indices)).
Proof.
  intros Hlen. unfold validate_watchtower_challenge_indices.
  destruct (Nat.eqb_spec count 0), (Nat.ltb_spec 256 count); cbn [orb]; [split; [done|lia]..|].
  change (replicate 256 false) with (marks []).
  assert (bits = marks (indices ++ []) ↔
    ∀ i, (i < 256)%nat → bits !! i = Some (bool_decide (i ∈ indices))) as Hbits.
  { rewrite app_nil_r. split; [intros -> i Hi; by apply lookup_marks|].
    intros Hall. apply list_eq. intros i. destruct (decide (i < 256)%nat) as [Hi|Hi].
    - by rewrite Hall, lookup_marks.
    - rewrite !lookup_ge_None_2; [done| |lia]. unfold marks. rewrite length_map, length_seq. lia. }
  split.
  - intros Hv. apply outcome_bind_Ok in Hv as (seen & Hs & Hv).
    apply indices_loop_Ok in Hs as (Hf & Hnd & _ & ->); [|lia].
    destruct (decide _) as [|Heq%dec_stable]; [done|]. split_and!; [lia..|done|done|by apply Hbits].
  - intros (_ & Hnd & Hf & Hall). apply Hbits in Hall.
    rewrite (proj2 (indices_loop_Ok count [] indices (marks (indices ++ [])) ltac:(lia)))
      by (split_and!; [done|done|intros ? _; apply not_elem_of_nil|done]).
    cbn [mbind outcome_bind]. by rewrite decide_False by (intros []; done).
Qed.

(** The challenge indices are exactly the bitmap.  The check succeeds if and
    only if the graph has between 1 and 256 watchtowers and the challenges'
    indices are different watchtowers of the graph, one for every bit set in the
    bitmap and none besides. *)
Theorem challenge_indices_exact bits count indices :
  length bits = 256%nat →
  validate_watchtower_challenge_indices bits count indices = Ok tt ↔
  (1 ≤ count ≤ 256)%nat ∧ NoDup indices ∧ Forall (λ i, i < count)%nat indices ∧
  ∀ i, (i < 256)%nat → bits !! i = Some (bool_decide (i ∈ indices)).
Proof. apply indices_exact. Qed.

(** ** What an operator's proof is bound to *)

Section Constants.
Context `{SHA : Sha256}.

Definition hash_operator_constant (graph_id : vec byte GRAPH_ID_SIZE)
    (operator_genesis_sequencer_commit_txid watchtower_challenge_init_txid : hash32)
    (watchtower_xonly_public_keys : list hash32) : hash32 :=
  sha256 (tag "bitvm/operator-constant/v3" ++ vec_to_list graph_id ++
          vec_to_list operator_genesis_sequencer_commit_txid ++
          vec_to_list watchtower_challenge_init_txid ++
          reverse (le_bytes 2 (Z.of_nat (length watchtower_xonly_public_keys))) ++
          concat (map vec_to_list watchtower_xonly_public_keys)).

Definition hash_partial_binding_witness (constant btc_best_block_hash included_watchtowers : hash32)
    : hash32 :=
  sha256 (vec_to_list constant ++ vec_to_list btc_best_block_hash ++
          vec_to_list included_watchtowers).

Lemma concat_vec_inj {n} (l m : list (vec byte (S n))) :
  concat (map vec_to_list l) = concat (map vec_to_list m) → l = m.
Proof.
  revert m. induction l as [|a l IH]; intros [|b m] H; cbn [map concat] in H; [done| | |].
  - apply (f_equal length) in H. rewrite length_app, length_vec_to_list in H. cbn in H. lia.
  - apply (f_equal length) in H. rewrite length_app, length_vec_to_list in H. cbn in H. lia.
  - apply vec_app_inj in H as [-> H]. f_equal. by apply IH.
Qed.

(** The constant determines the graph, both transactions and the ordered keys,
    whatever the number of keys. *)
Lemma operator_constant_binds g t c ks g' t' c' ks' :
  hash_operator_constant g t c ks = hash_operator_constant g' t' c' ks' →
  (g = g' ∧ t = t' ∧ c = c' ∧ ks = ks') ∨ collision.
Proof.
  unfold hash_operator_constant. intros [H|]%sha256_binds; [left|by right].
  apply app_inv_head in H. apply vec_app_inj in H as [-> H]. apply vec_app_inj in H as [-> H].
  apply vec_app_inj in H as [-> H]. apply app_inj_1 in H as [_ H].
  - split_and!; [done..|]. by apply concat_vec_inj.
  - by rewrite !length_reverse, !le_bytes_length.
Qed.

(** The binding witness fixes everything the operator proved.  Two operator
    outputs with one partial binding witness agree on the best block and on the
    included watchtowers, and if their constants are hashes of graph data, on the
    graph, the sequencers' genesis transaction, the challenge transaction and the
    ordered list of watchtower keys; or a SHA-256 collision is exhibited. *)
Theorem binding_witness_binds g t c ks g' t' c' ks' best best' incl incl' :
  hash_partial_binding_witness (hash_operator_constant g t c ks) best incl =
  hash_partial_binding_witness (hash_operator_constant g' t' c' ks') best' incl' →
  (g = g' ∧ t = t' ∧ c = c' ∧ ks = ks' ∧ best = best' ∧ incl = incl') ∨ collision.
Proof.
  unfold hash_partial_binding_witness. intros [H|]%sha256_binds; [|by right].
  apply vec_app_inj in H as [Hc H]. apply vec_app_inj in H as [-> H].
  apply vec_to_list_inj2 in H as ->.
  destruct (operator_constant_binds _ _ _ _ _ _ _ _ Hc) as [(-> & -> & -> & ->)|]; [by left|by right].
Qed.

End Constants.

(** ** Words *)

Definition words_to_bytes_be (words : list Z) : list byte :=
  concat (map (λ w, reverse (le_bytes 4 w)) words).

Fixpoint words_loop (n : nat) (bytes : list byte) : list Z :=
  match n with
  | O => []
  | S n => be_value (take 4 bytes) :: words_loop n (drop 4 bytes)
  end.
Definition words_from_bytes_be (bytes : hash32) : list Z := words_loop 8 (vec_to_list bytes).

Lemma words_loop_bytes words :
  Forall (λ w, 0 ≤ w < 2 ^ 32) words →
  words_loop (length words) (words_to_bytes_be words) = words.
Proof.
  induction 1 as [|w words Hw _ IH]; [done|].
  cbn [length words_loop]. unfold words_to_bytes_be. cbn [map concat].
  assert (length (reverse (le_bytes 4 w)) = 4%nat) as Hl by by rewrite length_reverse, le_bytes_length.
  rewrite take_app_length', drop_app_length' by done.
  unfold words_to_bytes_be in IH. rewrite IH. f_equal.
  unfold be_value. rewrite reverse_involutive, le_value_bytes. by apply Z.mod_small.
Qed.

(** Eight words to bytes and back. *)
Lemma words_round_trip words :
  length words = 8%nat → Forall (λ w, 0 ≤ w < 2 ^ 32) words →
  words_from_bytes_be (to_hash32 (words_to_bytes_be words)) = words.
Proof.
  intros Hl Hw. unfold words_from_bytes_be. rewrite to_hash32_list.
  - rewrite <- Hl at 1. by apply words_loop_bytes.
  - clear Hw. unfold words_to_bytes_be. do 9 (destruct words as [|? words]; [done|]). done.
Qed.

(** ** Examples *)

#[local] Instance sample_target : UsizeBits := 32.
#[local] Instance sample_overflow : OverflowChecks := false.
#[local] Existing Instance sha256_exec.

Definition sample_watchtower_commitment : WatchtowerCommitment := {|
  wc_graph_id := vreplicate _ Byte.x07;
  wc_proof := vreplicate _ Byte.x01;
  wc_public_values := vreplicate _ Byte.x02;
  wc_vk_hash := vreplicate _ Byte.x61;
  wc_total_work := vreplicate _ Byte.x02;
  wc_consensus_block_height := vreplicate _ Byte.x02;
  wc_zkm_version := tag "v1.2.4";
|}.
Definition sample_commitment_bytes : list byte :=
  match build_of sample_watchtower_commitment with Ok c => c | Err _ => [] end.

Lemma commitment_round_trip_witness :
  parse_watchtower_commitment sample_commitment_bytes = Ok (Ok sample_watchtower_commitment) ↔
  build_of sample_watchtower_commitment = Ok sample_commitment_bytes ∧
  well_formed sample_watchtower_commitment.
Proof. apply (commitment_round_trip sample_commitment_bytes); by vm_compute. Defined.

Lemma challenge_indices_exact_witness :
  validate_watchtower_challenge_indices (u256_to_le_bits 6) 3 [2; 1]%nat = Ok tt ↔
  (1 ≤ 3 ≤ 256)%nat ∧ NoDup [2; 1]%nat ∧ Forall (λ i, i < 3)%nat [2; 1]%nat ∧
  ∀ i, (i < 256)%nat → u256_to_le_bits 6 !! i = Some (bool_decide (i ∈ [2; 1]%nat)).
Proof. apply (challenge_indices_exact (u256_to_le_bits 6) 3 [2; 1]%nat). reflexivity. Defined.

Definition sample_graph_id : vec byte GRAPH_ID_SIZE := vreplicate _ Byte.x07.

Lemma binding_witness_binds_witness :
  (sample_graph_id = sample_graph_id ∧ zero32 = zero32 ∧ zero32 = zero32 ∧
   [zero32] = [zero32] ∧ zero32 = zero32 ∧ zero32 = zero32) ∨ collision.
Proof.
  apply (binding_witness_binds sample_graph_id zero32 zero32 [zero32] sample_graph_id zero32 zero32
           [zero32] zero32 zero32 zero32 zero32).
  reflexivity.
Defined.
