(* ===== verification/LightClient.v ===== *)
(** * The watchtowers' and the operators' light client

    Source: circuits/crates/bitcoin-light-client-circuit/src/lib.rs and
    signature.rs; the guests are circuits/watchtower-proof/guest/src/main.rs and
    circuits/operator-proof/guest/src/main.rs.  Both circuits verify a proof of
    each of the three chains and that the latest commitment of the publishers
    authorises the programs that produced them.  A watchtower publishes the work
    of its header chain; an operator proves that its own chain has at least the
    work of every valid challenge and that its graph is withdrawn.  Schnorr
    signatures and taproot (crates [bitcoin] and [secp256k1]) are the interface
    [Taproot]. *)

From Stdlib Require Import Init.Byte.
From stdpp Require Import base vector strings list.
From S2P Require Import Prelude Bytes Mmr MerkleTree HeaderChain HeaderSpec Transaction Spv Verifier.
From S2P Require Import HeaderCircuit PublisherSet CommitChain Cbft StateChain WatchtowerCommitment.

Local Open Scope Z_scope.

Definition ROOT_COMMIT_PROGRAM_ID : ProgramId :=
  hex32 "4dc626c63149074f261a81b2719491482d112e2564e1f68b948237f679a1f3fc".

Record OperatorPublicOutputs := mkOperatorOutputs {
  oo_btc_best_block_hash : hash32;
  oo_constant : hash32;
  oo_included_watchtowers : hash32;
}.

Record IndexedWatchtowerChallenge := mkChallenge {
  node_index : nat;
  challenge_spv : SPV;
}.

(** [bincode] of the operator's outputs, and [ZKMPublicValues::read], which
    decodes a prefix of the public values. *)
Class PublicValues := {
  bincode_operator_outputs : list byte → outcome OperatorPublicOutputs;
  read_header_output : list byte → outcome BlockHeaderCircuitOutput;
  read_state_output : list byte → outcome StateChainCircuitOutput;
}.

(** Reading what a guest committed gives it back. *)
Class PublicValuesLaws `{PV : PublicValues} `{HC : HeaderOutputCodec} `{SC : StateOutputCodec} := {
  read_header_round o : read_header_output (commit_header_output o) = Ok o;
  read_state_round o : read_state_output (commit_state_output o) = Ok o;
}.

(** ** Taproot signatures *)

Class Taproot := {
  XOnlyPublicKey : Type;
  xonly_from_slice : list byte → outcome XOnlyPublicKey;
  TaprootSignature : Type;
  taproot_sig_from_slice : list byte → outcome TaprootSignature;
  (* the sighash type is [AllPlusAnyoneCanPay] *)
  sig_all_plus_anyone : TaprootSignature → bool;
  ControlBlock : Type;
  control_block_decode : list byte → outcome ControlBlock;
  verify_taproot_commitment : ControlBlock → XOnlyPublicKey → list byte → bool;
  tap_leaf_hash : list byte → hash32;
  (* transaction, input, its previous output, leaf *)
  taproot_script_spend_signature_hash :
    CircuitTransaction → nat → TxOut → hash32 → outcome hash32;
  verify_schnorr : TaprootSignature → hash32 → XOnlyPublicKey → outcome unit;
  push_x_only_key : XOnlyPublicKey → list byte;
  push_opcode_checksig : list byte;
}.

Section Signature.
Context `{TR : Taproot}.

Definition verify_taproot_leaf_schnorr_signature (script : list byte)
    (spending_tx : CircuitTransaction) (input_index : nat) (prev_out : TxOut)
    (pubkey : XOnlyPublicKey) : outcome unit :=
  txin ← expect (input spending_tx !! input_index) "Invalid input index";
  raw ← expect (witness txin !! 0%nat) "Missing Taproot signature";
  sig ← taproot_sig_from_slice raw;
  if negb (sig_all_plus_anyone sig) then Err ["Invalid sig type"]
  else
    let witness_len := length (witness txin) in
    if (witness_len <? 3)%nat then Err ["Invalid Taproot script-path witness"]
    else
      witness_script ← expect (witness txin !! (witness_len - 2)%nat) "Missing Taproot witness script";
      if decide (witness_script ≠ script) then Err ["Taproot witness script mismatch"]
      else
        raw_control ← expect (witness txin !! (witness_len - 1)%nat) "Missing Taproot control block";
        control_block ← control_block_decode raw_control;
        let spk := script_pubkey prev_out in
        if negb (length spk =? 34)%nat || negb (bool_decide (take 2 spk = [Byte.x51; Byte.x20]))
        then Err ["Prevout is not P2TR"]
        else
          output_key ← xonly_from_slice (drop 2 spk);
          if negb (verify_taproot_commitment control_block output_key script)
          then Err ["Taproot control block does not commit to the witness script"]
          else
            let leaf_hash := tap_leaf_hash script in
            sighash ← taproot_script_spend_signature_hash spending_tx input_index prev_out leaf_hash;
            verify_schnorr sig sighash pubkey.

(** The script of a watchtower's connector. *)
Definition watchtower_script (xonly : XOnlyPublicKey) : list byte :=
  push_x_only_key xonly ++ push_opcode_checksig.

End Signature.

(** ** Authorisation *)

Section LightClient.
Context `{SHA : Sha256} `{OC : OverflowChecks} `{UB : UsizeBits} `{UL : U256Laws} `{BN : BuildNetwork} `{NW : NextWork}.
Context `{CE : ConsensusEncode} `{BC : BitcoinCrypto} `{TR : Taproot} `{G : Groth16}.
Context `{KE : Keccak} `{EX : EvmExecutor} `{CT : CosmosTx} `{LB : LightBlocks} `{SQ : SequencerHash}.
Context `{HC : HeaderOutputCodec} `{CC : !CommitOutputCodec} `{SC : StateOutputCodec} `{PV : PublicValues}.

Definition check_program_id (actual_program_id output_program_id authorized_program_id : ProgramId)
    : outcome unit :=
  _ ← require (bool_decide (actual_program_id = authorized_program_id))
        "unauthorized proof program id";
  require (bool_decide (output_program_id = actual_program_id)) "proof output program id mismatch".

Definition checked_history_root (program_type : ProgramType)
    (actual_program_id output_program_id authorized_program_id : ProgramId) (history : hash32)
    : outcome hash32 :=
  _ ← check_program_id actual_program_id output_program_id authorized_program_id;
  Ok (finalize_history program_type history actual_program_id).

Definition verify_commitment_authorization (commit_chain_output : CommitChainCircuitOutput)
    (header_chain_output : BlockHeaderCircuitOutput) (state_chain_output : StateChainCircuitOutput)
    (header_program_id state_program_id commit_program_id root_commit_program_id : ProgramId)
    (sequencer_set_hash : hash32) : outcome AuthorizedProgramIds :=
  _ ← require (bool_decide (commit_program_id = root_commit_program_id))
        "commit proof program id does not match the pinned root anchor";
  let authorized := cs_authorized_program_ids (co_chain_state commit_chain_output) in
  _ ← AuthorizedProgramIds_validate authorized;
  _ ← check_program_id commit_program_id (co_self_program_id commit_chain_output)
        (ap_commit authorized);
  header_root ← checked_history_root Header header_program_id
        (ho_self_program_id header_chain_output) (ap_header authorized)
        (ho_program_history_hash header_chain_output);
  state_root ← checked_history_root State state_program_id
        (so_self_program_id state_chain_output) (ap_state authorized)
        (so_program_history_hash state_chain_output);
  let program_history_root := program_history_root header_root state_root in
  let checkpoint_root :=
    proof_checkpoint_root (ho_upgrade_checkpoint_hash header_chain_output)
      (so_upgrade_checkpoint_hash state_chain_output) in
  _ ← require (bool_decide (checkpoint_root =
                 cs_proof_checkpoint_root (co_chain_state commit_chain_output)))
        "proof checkpoint root mismatch";
  commitment ← extract_commit_chain_commitment
                 (output (cs_commit_txn (co_chain_state commit_chain_output)));
  digest ← commit_chain_commitment_digest sequencer_set_hash
             (ss_genesis_evm_block_hash (so_chain_state state_chain_output))
             program_history_root checkpoint_root authorized;
  _ ← require (bool_decide (commitment = digest)) "commitment == digest";
  Ok authorized.

Definition decode_operator_public_outputs (public_values : list byte)
    : outcome OperatorPublicOutputs :=
  if negb (length public_values =? 96)%nat then Err ["operator public values must be 96 bytes"]
  else bincode_operator_outputs public_values.

(** ** The three chains

    The part that both circuits have in common: the proofs of the commit, header
    and state chains are verified, the commit transaction is found in the header
    chain, and the last consensus block is one the sequencers signed. *)

Record VerifiedChains := mkChains {
  vc_commit_id : ProgramId;
  vc_commit : CommitChainCircuitOutput;
  vc_header_id : ProgramId;
  vc_header : BlockHeaderCircuitOutput;
  vc_commitment_height : Z;
  vc_state_id : ProgramId;
  vc_state : StateChainCircuitOutput;
  vc_sequencers : option hash32;
  vc_validators : option hash32;
}.

Definition verify_chains (genesis_sequencer_commit_txid : hash32)
    (header_chain : HeaderChainCircuitInput) (commit_chain : CommitChainCircuitInput)
    (state_chain : StateChainCircuitInput) (spv : SPV) : outcome VerifiedChains :=
  commit_program_id ←
    verify_groth16_proof (coi_zkm_proof commit_chain) (coi_zkm_public_values commit_chain)
      (coi_zkm_vk_hash commit_chain) (coi_zkm_version commit_chain);
  commit_out ← decode_commit_chain_circuit_output (coi_zkm_public_values commit_chain);
  _ ← require (bool_decide (compute_txid (cs_commit_txn (co_chain_state commit_out)) =
                            compute_txid (transaction spv))) "commit_txn";
  _ ← require (bool_decide (genesis_sequencer_commit_txid =
                            cs_genesis_txid (co_chain_state commit_out))) "genesis_txid";
  header_program_id ←
    verify_groth16_proof (hi_zkm_proof header_chain) (hi_zkm_public_values header_chain)
      (hi_zkm_vk_hash header_chain) (hi_zkm_version header_chain);
  header_out ← read_header_output (hi_zkm_public_values header_chain);
  expected_size ← u32_add (block_height (ho_chain_state header_out)) 1;
  _ ← require (size (block_hashes_mmr (ho_chain_state header_out)) =? expected_size)
        "header MMR size mismatch";
  commitment_block_height ←
    expect (SPV_verify spv (block_hashes_mmr (ho_chain_state header_out)))
      "sequencer commitment SPV verification failed";
  state_program_id ←
    verify_groth16_proof (si_zkm_proof state_chain) (si_zkm_public_values state_chain)
      (si_zkm_vk_hash state_chain) (si_zkm_version state_chain);
  state_out ← read_state_output (si_zkm_public_values state_chain);
  cosmos_block ← light_block_from_slice (ss_latest_cosmos_block (so_chain_state state_out));
  _ ← verify_sequencer_commit cosmos_block;
  commit_sequencer_set_hash ← sequencer_hash (cs_sequencers (co_chain_state commit_out));
  Ok (mkChains commit_program_id commit_out header_program_id header_out commitment_block_height
        state_program_id state_out commit_sequencer_set_hash (lb_validators_hash cosmos_block)).

(** The authorisation for the consensus block's validators. *)
Definition authorize (c : VerifiedChains) : outcome AuthorizedProgramIds :=
  match vc_validators c with
  | Some sequencer_set_hash =>
      verify_commitment_authorization (vc_commit c) (vc_header c) (vc_state c) (vc_header_id c)
        (vc_state_id c) (vc_commit_id c) ROOT_COMMIT_PROGRAM_ID sequencer_set_hash
  | None => Err ["Invalid commitment: inconsistent sequencer set hash"]
  end.

(** ** The watchtower *)

Definition watch_longest_chain (genesis_sequencer_commit_txid : hash32)
    (header_chain : HeaderChainCircuitInput) (commit_chain : CommitChainCircuitInput)
    (state_chain : StateChainCircuitInput) (spv : SPV) : outcome (hash32 * Z) :=
  c ← verify_chains genesis_sequencer_commit_txid header_chain commit_chain state_chain spv;
  _ ← require (bool_decide (vc_sequencers c = vc_validators c)) "sequencer set hash";
  _ ← authorize c;
  Ok (total_work (ho_chain_state (vc_header c)), vc_commitment_height c).

(** The guest commits the 32 bytes of the work and the height, little-endian. *)
Definition watchtower_guest (genesis_sequencer_commit_txid : hash32)
    (header_chain : HeaderChainCircuitInput) (commit_chain : CommitChainCircuitInput)
    (state_chain : StateChainCircuitInput) (spv : SPV) : outcome (list byte) :=
  '(work, height) ←
    watch_longest_chain genesis_sequencer_commit_txid header_chain commit_chain state_chain spv;
  Ok (vec_to_list work ++ le_bytes 4 height).

(** ** The operator *)

Definition checked_challenge_init_transaction (expected_txid : hash32)
    (txn : option CircuitTransaction) (challenges_present : bool)
    : outcome (option CircuitTransaction) :=
  _ ← match txn with
      | Some t =>
          require (bool_decide (compute_txid t = expected_txid))
            "watchtower challenge init transaction txid mismatch"
      | None => Ok tt
      end;
  _ ← require (negb challenges_present || bool_decide (is_Some txn))
        "watchtower challenge init transaction is required when challenges exist";
  Ok txn.

(** The first half of the loop: the challenge is on the chain and signed by its
    watchtower. *)
Definition authenticate_challenge (chain_state : ChainState) (watchtower_challenge_init_txid : hash32)
    (init_txn : option CircuitTransaction) (keys : list hash32)
    (challenge : IndexedWatchtowerChallenge) : outcome unit :=
  let i := node_index challenge in
  challenge_height ← expect (SPV_verify (challenge_spv challenge) (block_hashes_mmr chain_state))
      "watchtower challenge SPV verification failed";
  _ ← require (challenge_height <=? block_height chain_state)
        "challenge height exceeds authenticated header chain";
  let tx := transaction (challenge_spv challenge) in
  txin ← expect (head (input tx)) "watchtower challenge must have input 0";
  let expected_vout := Z.of_nat i * 2 in
  _ ← require (bool_decide (op_txid (previous_output txin) = watchtower_challenge_init_txid)) "txid";
  _ ← require (vout (previous_output txin) =? expected_vout) "vout";
  init ← expect init_txn "watchtower challenge init transaction is required";
  prev_out ← expect (output init !! Z.to_nat expected_vout) "watchtower challenge prevout is missing";
  key ← index keys i;
  xonly ← xonly_from_slice (vec_to_list key);
  verify_taproot_leaf_schnorr_signature (watchtower_script xonly) tx 0 prev_out xonly.

(** The second half: what the challenge commits to, if it is a proof of the
    authorised program for this graph, does not beat the operator. *)
Definition weigh_challenge (graph_id : vec byte GRAPH_ID_SIZE) (watchtower_program : ProgramId)
    (operator_total_work : hash32) (operator_consensus_block_height : Z)
    (challenge : IndexedWatchtowerChallenge) : outcome unit :=
  match extract_data_from_commitment_outputs (output (transaction (challenge_spv challenge))) with
  | Err _ => Ok tt
  | Ok commitment =>
      parsed ← parse_watchtower_commitment commitment;
      match parsed with
      | Err _ => Ok tt
      | Ok w =>
          match verify_groth16_proof (vec_to_list (wc_proof w)) (vec_to_list (wc_public_values w))
                  (vec_to_list (wc_vk_hash w)) (wc_zkm_version w) with
          | Err _ => Ok tt
          | Ok program_id =>
              if bool_decide (program_id ≠ watchtower_program) ||
                 bool_decide (wc_graph_id w ≠ graph_id)
              then Ok tt
              else
                _ ← require (be_value (vec_to_list (wc_total_work w)) <=?
                             be_value (vec_to_list operator_total_work))
                      "valid watchtower challenge has more work than operator";
                require (le_value (vec_to_list (wc_consensus_block_height w)) <=?
                         operator_consensus_block_height)
                  "valid watchtower challenge has a later commitment than operator"
          end
      end
  end.

Definition propose_longest_chain (included_watchtowers : Z) (graph_id : vec byte GRAPH_ID_SIZE)
    (operator_genesis_sequencer_commit_txid watchtower_challenge_init_txid : hash32)
    (watchtower_challenge_init_txn : option CircuitTransaction)
    (watchtower_challenges : list IndexedWatchtowerChallenge)
    (graph_watchtower_xonly_public_keys : list hash32)
    (operator_header_chain : HeaderChainCircuitInput) (commit_chain : CommitChainCircuitInput)
    (state_chain : StateChainCircuitInput) (spv_ss_commit : SPV)
    (operator_committed_blockhash : hash32) : outcome (hash32 * hash32 * hash32) :=
  c ← verify_chains operator_genesis_sequencer_commit_txid operator_header_chain commit_chain
        state_chain spv_ss_commit;
  let chain_state := ho_chain_state (vc_header c) in
  authorized ← authorize c;
  _ ← require (bool_decide (vc_sequencers c = vc_validators c)) "sequencer set hash";
  _ ← validate_watchtower_challenge_indices (u256_to_le_bits included_watchtowers)
        (length graph_watchtower_xonly_public_keys) (map node_index watchtower_challenges);
  init_txn ← checked_challenge_init_transaction watchtower_challenge_init_txid
               watchtower_challenge_init_txn (negb (bool_decide (watchtower_challenges = [])));
  _ ← for_each (λ _ challenge,
        _ ← authenticate_challenge chain_state watchtower_challenge_init_txid init_txn
              graph_watchtower_xonly_public_keys challenge;
        weigh_challenge graph_id (ap_watchtower authorized) (total_work chain_state)
          (vc_commitment_height c) challenge) tt watchtower_challenges;
  let is_found :=
    existsb (λ withdrawal : WithdrawalSlot, bool_decide (graph_id ∈ withdrawal.2))
      (ss_withdrawals (so_chain_state (vc_state c))) in
  _ ← require is_found "Graph id is not included in current state chain";
  let constant :=
    hash_operator_constant graph_id operator_genesis_sequencer_commit_txid
      watchtower_challenge_init_txid graph_watchtower_xonly_public_keys in
  _ ← require (bool_decide (operator_committed_blockhash = best_block_hash chain_state))
        "operator committed blockhash is not included in header chain";
  Ok (operator_committed_blockhash, constant, to_hash32 (le_bytes 32 included_watchtowers)).

End LightClient.
