(* ===== verification/LightClientSample.v ===== *)
(** * A run of the light client

    A world in which the circuits of the light client run to the end: one block
    that confirms the publishers' commitment and one watchtower's challenge, the
    EVM chain of two blocks, and a verifier that accepts one statement per
    program.  SHA-256 is the real function except on one string, the preimage of
    the pinned program id, which no known string hashes to. *)

From Stdlib Require Import Init.Byte.
From stdpp Require Import base vector strings list.
From S2P Require Import Prelude Bytes Mmr MerkleTree HeaderChain HeaderSpec Transaction Spv Verifier.
From S2P Require Import HeaderCircuit PublisherSet CommitChain Cbft StateChain WatchtowerCommitment.
From S2P Require Import LightClient.

Local Open Scope Z_scope.

Definition root_preimage : list byte := Eval vm_compute in
  tag "bitvm/program-id/v1" ++ replicate 32 Byte.x00 ++ vec_to_list (@sha256 sha256_exec []).

Definition sample_sha : Sha256 := λ m,
  if decide (m = root_preimage) then ROOT_COMMIT_PROGRAM_ID else @sha256 sha256_exec m.

#[local] Existing Instances sample_sha u256_bytes u256_bytes_laws key_crypto key_crypto_laws.
#[local] Existing Instances sample_executor sample_executor_laws sample_keccak sample_cosmos consensus_exec.
#[local] Existing Instances sample_output_codec sample_state_codec commit_output_codec.

Definition sample_network : BuildNetwork := Regtest.
Definition sample_checks_off : OverflowChecks := false.
Definition sample_usize : UsizeBits := 32.
Definition sample_retarget : NextWork := λ bits _ _, bits.
Definition sample_validators : hash32 := Eval vm_compute in @sha256 sha256_exec [].
Definition sample_sequencers : SequencerHash := λ _, Ok (Some sample_validators).
#[local] Existing Instances sample_network sample_checks_off sample_usize sample_retarget sample_sequencers.

Definition sample_blocks : LightBlocks := {|
  LightBlock := list byte;
  light_block_from_slice := Ok;
  lb_data_hash := Some;
  lb_validators_hash _ := Some sample_validators;
  lb_next_validators _ := None;
  lb_next_validators_hash _ := None;
  lb_time_plus _ := Some;
  verify_validator_sets _ := true;
  verify_commit _ := true;
  verify_update_header _ _ _ _ := true;
|}.
#[local] Existing Instance sample_blocks.

Definition sample_public_values : PublicValues := {|
  bincode_operator_outputs _ := Err ["not used"];
  read_header_output := deserialize_header_chain_output;
  read_state_output := deserialize_state_chain_output;
|}.
#[local] Existing Instance sample_public_values.

Lemma sample_public_values_laws : PublicValuesLaws.
Proof. split; [apply sample_output_laws|apply sample_state_laws]. Qed.

(** A key's signature is the key itself. *)
Definition sample_taproot : Taproot := {|
  XOnlyPublicKey := list byte;
  xonly_from_slice := Ok;
  TaprootSignature := list byte;
  taproot_sig_from_slice := Ok;
  sig_all_plus_anyone _ := true;
  ControlBlock := list byte;
  control_block_decode := Ok;
  verify_taproot_commitment _ _ _ := true;
  tap_leaf_hash := @sha256 sha256_exec;
  taproot_script_spend_signature_hash _ _ _ h := Ok h;
  verify_schnorr sig _ key := if decide (sig = key) then Ok tt else Err ["invalid signature"];
  push_x_only_key key := Byte.x20 :: key;
  push_opcode_checksig := [Byte.xac];
|}.
#[local] Existing Instance sample_taproot.

(** ** Programs

    The program with key hash [b ... b]; 0 is the commit program, 1 the header, 2
    the state and 3 the watchtower program. *)

Definition program_of (b : byte) : ProgramId :=
  tagged_hash (tag "bitvm/program-id/v1") [vec_to_list (vreplicate 32 b); vec_to_list (sha256 [])].

Definition four_proofs (cv hv sv wv : list byte) : Groth16 := {|
  try_get_part_stark_vk _ := Some [];
  decode_zkm_vkey_hash vk := b ← expect (head vk) "empty key hash"; Ok (vreplicate 32 b);
  verify_by_imm_groth16_vk _ v vk _ :=
    accepted ← match head vk with
               | Some Byte.x00 => Ok cv | Some Byte.x01 => Ok hv
               | Some Byte.x02 => Ok sv | Some Byte.x03 => Ok wv
               | _ => Err ["unknown program"]
               end;
    require (bool_decide (v = accepted)) "invalid proof";
|}.

Lemma program_0 : program_of Byte.x00 = ROOT_COMMIT_PROGRAM_ID.
Proof. by vm_compute. Qed.
Lemma programs_differ :
  NoDup [program_of Byte.x00; program_of Byte.x01; program_of Byte.x02; program_of Byte.x03].
Proof. by apply (bool_decide_eq_true_1 _); vm_compute. Qed.

Lemma four_proofs_Ok cv hv sv wv proof v vk version p :
  verify_groth16_proof (G := four_proofs cv hv sv wv) proof v vk version = Ok p →
  (p = program_of Byte.x00 ∧ v = cv) ∨ (p = program_of Byte.x01 ∧ v = hv) ∨
  (p = program_of Byte.x02 ∧ v = sv) ∨ (p = program_of Byte.x03 ∧ v = wv).
Proof.
  unfold verify_groth16_proof, program_id_with_part_vk. intros H.
  apply outcome_bind_Ok in H as (vk' & Hvk & H). apply outcome_bind_Ok in H as (part & Hp & H).
  cbn in Hp. injection Hp as <-. apply outcome_bind_Ok in H as (u & Hv & H).
  apply outcome_bind_Ok in H as (id & Hid & H).
  cbn [decode_zkm_vkey_hash verify_by_imm_groth16_vk four_proofs] in Hid, Hv.
  apply outcome_bind_Ok in Hid as (b & Hb & Hid). apply expect_Ok in Hb. rewrite Hb in Hv.
  apply Ok_inj in Hid as <-. apply Ok_inj in H as <-. apply outcome_bind_Ok in Hv as (acc & Hacc & Hv).
  apply require_Ok in Hv. apply bool_decide_eq_true_1 in Hv as ->.
  assert ((b = Byte.x00 ∧ acc = cv) ∨ (b = Byte.x01 ∧ acc = hv) ∨ (b = Byte.x02 ∧ acc = sv) ∨
    (b = Byte.x03 ∧ acc = wv)) as Hcase
    by (clear -Hacc; destruct b; try discriminate Hacc; injection Hacc as <-; auto).
  fold (program_of b). clear -Hcase. revert Hcase.
  intros [[-> ->]|[[-> ->]|[[-> ->]|[-> ->]]]].
  - left. split; reflexivity.
  - right; left. split; reflexivity.
  - right; right; left. split; reflexivity.
  - right; right; right. split; reflexivity.
Qed.

(** The statement registered under each of the three chains' programs is accepted. *)
Lemma four_proofs_accept cv hv sv wv :
  verify_groth16_proof (G := four_proofs cv hv sv wv) [] cv [Byte.x00] [] = Ok (program_of Byte.x00) ∧
  verify_groth16_proof (G := four_proofs cv hv sv wv) [] hv [Byte.x01] [] = Ok (program_of Byte.x01) ∧
  verify_groth16_proof (G := four_proofs cv hv sv wv) [] sv [Byte.x02] [] = Ok (program_of Byte.x02).
Proof.
  unfold verify_groth16_proof, program_id_with_part_vk.
  replace (from_utf8 [Byte.x00]) with (Ok [Byte.x00]) by reflexivity.
  replace (from_utf8 [Byte.x01]) with (Ok [Byte.x01]) by reflexivity.
  replace (from_utf8 [Byte.x02]) with (Ok [Byte.x02]) by reflexivity.
  cbn [bundled_part_stark_vk try_get_part_stark_vk decode_zkm_vkey_hash verify_by_imm_groth16_vk
         four_proofs head expect mbind outcome_bind].
  rewrite !bool_decide_eq_true_2 by reflexivity. cbn [require mbind outcome_bind].
  unfold program_of. split_and!; reflexivity.
Qed.

(** ** The commitment and the challenge *)

Definition sample_programs : AuthorizedProgramIds :=
  mkAuthorized (program_of Byte.x01) (program_of Byte.x02) (program_of Byte.x00)
    (program_of Byte.x03).
Definition sample_history : hash32 := Eval vm_compute in
  program_history_root
    (finalize_history Header (initial_history Header) (program_of Byte.x01))
    (finalize_history State (initial_history State) (program_of Byte.x02)).
Definition sample_checkpoint : hash32 := Eval vm_compute in proof_checkpoint_root zero32 zero32.
Definition sample_evm_genesis : hash32 := evm_genesis.
Definition light_digest : hash32 := Eval vm_compute in
  unwrap_or (commit_chain_commitment_digest sample_validators sample_evm_genesis sample_history
               sample_checkpoint sample_programs) zero32.

Definition light_commit_tx : CircuitTransaction := Eval vm_compute in
  mkTx 2 0 [mkTxIn (mkOutPoint zero32 7) [] 0xffffffff []]
    [connector; mkTxOut 0 (Byte.x6a :: Byte.x20 :: vec_to_list light_digest)].
Definition light_genesis_txid : hash32 := Eval vm_compute in compute_txid light_commit_tx.
Definition light_commit : CircuitCommit := {|
  cc_commit_txn := light_commit_tx;
  cc_genesis_txid := light_genesis_txid;
  cc_publisher_public_keys := three_keys : list PublicKey;
  cc_threshold := 2;
  cc_next_publisher_public_keys := None;
  cc_next_threshold := None;
  cc_sequencers := [];
  cc_genesis_evm_block_hash := sample_evm_genesis;
  cc_program_history_root := sample_history;
  cc_block_height := 0;
  cc_proof_checkpoint_root := sample_checkpoint;
  cc_authorized_program_ids := sample_programs;
|}.

(** The watchtower of the graph claims no work at height 0. *)
Definition watchtower_key : hash32 := vreplicate 32 Byte.x05.
Definition init_tx : CircuitTransaction :=
  mkTx 2 0 [] [mkTxOut 1000 (Byte.x51 :: Byte.x20 :: vec_to_list watchtower_key)].
Definition light_claim : WatchtowerCommitment := {|
  wc_graph_id := sample_graph_id;
  wc_proof := vreplicate _ Byte.x00;
  wc_public_values := vreplicate _ Byte.x00;
  wc_vk_hash := vreplicate _ Byte.x03;
  wc_total_work := vreplicate _ Byte.x00;
  wc_consensus_block_height := vreplicate _ Byte.x00;
  wc_zkm_version := tag "v1.2.4";
|}.
Definition challenge_tx : CircuitTransaction := Eval vm_compute in
  mkTx 2 0
    [mkTxIn (mkOutPoint (compute_txid init_tx) 0) [] 0xffffffff
       [vec_to_list watchtower_key;
        watchtower_script (vec_to_list watchtower_key : XOnlyPublicKey); [Byte.xc0]]]
    [mkTxOut 0 (Byte.x6a :: Byte.x4d ::
       unwrap_or (build_of light_claim) [])].

(** ** The block *)

Definition light_tree : BitcoinMerkleTree := Eval vm_compute in
  unwrap_or (BitcoinMerkleTree_new [txid light_commit_tx; txid challenge_tx]) (mkTree []).
Definition light_root : hash32 := Eval vm_compute in unwrap_or (tree_root light_tree) zero32.
Definition light_header : CircuitBlockHeader := {|
  version := 2;
  prev_block_hash := zero32;
  merkle_root := light_root;
  time := 1700000000;
  bits := 0x207fffff;
  nonce := 1;
|}.
Definition light_genesis : GenesisBlocks := λ _, light_header.
#[local] Existing Instance light_genesis.

Definition proof_at (i : Z) : BlockInclusionProof :=
  unwrap_or (tree_generate_proof light_tree i) (mkBlockProof 0 []).
Definition light_spv : SPV :=
  mkSpv light_commit_tx (proof_at 0) light_header (mkMmrProof 0 []).
Definition light_challenge : IndexedWatchtowerChallenge :=
  mkChallenge 0 (mkSpv challenge_tx (proof_at 1) light_header (mkMmrProof 0 [])).

(** ** The outputs of the three chains *)

Definition light_chain_state : ChainState := Eval vm_compute in
  unwrap_or (apply_blocks ChainState_new [light_header]) ChainState_new.
Definition light_header_output : BlockHeaderCircuitOutput :=
  mkHeaderOutput
    light_chain_state (program_of Byte.x01) (initial_history Header) zero32.
Definition light_commit_output : CommitChainCircuitOutput :=
  mkCommitOutput (state_after light_genesis_txid light_commit) (program_of Byte.x00).
Definition light_state_output : StateChainCircuitOutput :=
  mkStateOutput
    two_blocks_state (program_of Byte.x02) (initial_history State) zero32.

Definition light_verifier : Groth16 :=
  four_proofs (commit_commit_output light_commit_output) (commit_header_output light_header_output)
    (commit_state_output light_state_output) (vec_to_list (wc_public_values light_claim)).
#[local] Existing Instance light_verifier.

(** The runs that produced them. *)
Definition header_start : HeaderChainCircuitInput :=
  mkHeaderInput [] [] [] [] (program_of Byte.x01) GenesisBlock [light_header].
Definition commit_start : CommitChainCircuitInput :=
  mkCommitInput CommitGenesisBlock [] [] [] [] (program_of Byte.x00) [light_commit].
Definition state_start : StateChainCircuitInput :=
  mkStateInput [] [] [] [] (program_of Byte.x02) StateGenesisBlock two_blocks.

Lemma header_start_run : header_chain_circuit header_start = Ok light_header_output.
Proof. vm_cast_no_check (eq_refl (Ok light_header_output)). Qed.
Lemma commit_start_run : commit_chain_circuit commit_start = Ok light_commit_output.
Proof. vm_cast_no_check (eq_refl (Ok light_commit_output)). Qed.
Lemma state_start_run : state_chain_circuit state_start = Ok light_state_output.
Proof. vm_cast_no_check (eq_refl (Ok light_state_output)). Qed.

(** The proofs of the three chains, as the light client's circuits get them. *)
Definition header_proof : HeaderChainCircuitInput :=
  mkHeaderInput [] (commit_header_output light_header_output) [Byte.x01] [] zero32 PrevProof [].
Definition commit_proof : CommitChainCircuitInput :=
  mkCommitInput CommitPrevProof [] (commit_commit_output light_commit_output) [Byte.x00] [] zero32 [].
Definition state_proof : StateChainCircuitInput :=
  mkStateInput [] (commit_state_output light_state_output) [Byte.x02] [] zero32 StatePrevProof [].

(** ** The two circuits *)

Lemma watchtower_run :
  watch_longest_chain light_genesis_txid header_proof commit_proof state_proof light_spv =
  Ok (total_work (ho_chain_state light_header_output), 0).
Proof. vm_cast_no_check (eq_refl (Ok (total_work (ho_chain_state light_header_output), 0))). Qed.

Definition operator_outputs : hash32 * hash32 * hash32 :=
  (compute_block_hash light_header,
   hash_operator_constant sample_graph_id light_genesis_txid (compute_txid init_tx) [watchtower_key],
   to_hash32 (le_bytes 32 1)).

Lemma operator_run :
  propose_longest_chain 1 sample_graph_id light_genesis_txid (compute_txid init_tx) (Some init_tx)
    [light_challenge] [watchtower_key] header_proof commit_proof state_proof light_spv
    (compute_block_hash light_header) = Ok operator_outputs.
Proof. vm_cast_no_check (eq_refl (Ok operator_outputs)). Qed.

(** The challenge is one that is weighed. *)
Lemma challenge_counts :
  weigh_challenge sample_graph_id (program_of Byte.x03) (to_hash32 []) (-1) light_challenge ≠ Ok tt.
Proof. by vm_compute. Qed.

(** ** Soundness of the verifier *)

Lemma light_verifier_only proof v vk version b p :
  verify_groth16_proof proof v vk version = Ok p → p = program_of b →
  (b = Byte.x00 → v = commit_commit_output light_commit_output) ∧
  (b = Byte.x01 → v = commit_header_output light_header_output) ∧
  (b = Byte.x02 → v = commit_state_output light_state_output).
Proof.
  intros Hv Hp. pose proof programs_differ as Hd. rewrite !NoDup_cons in Hd.
  destruct Hd as (H0 & H1 & H2 & _). rewrite !not_elem_of_cons in H0.
  rewrite !not_elem_of_cons in H1. rewrite not_elem_of_cons in H2.
  apply four_proofs_Ok in Hv. clear vk version proof. revert Hv H0 H1 H2 Hp.
  generalize (commit_commit_output light_commit_output) (commit_header_output light_header_output)
    (commit_state_output light_state_output) (vec_to_list (wc_public_values light_claim)).
  generalize program_of as f. intros f cv hv sv wv Hv H0 H1 H2 ->.
  destruct H0 as (? & ? & ? & _), H1 as (? & ? & _), H2 as (? & _).
  split_and!; intros ->; destruct Hv as [[E ->]|[[E ->]|[[E ->]|[E ->]]]]; congruence.
Qed.

Lemma light_header_attested :
  attested header_guest header_previous (program_of Byte.x01) (commit_header_output light_header_output).
Proof.
  apply (attested_run _ _ _ header_start); [|intros ? ? ? ? Hp; discriminate Hp].
  unfold header_guest. rewrite header_start_run. cbn [mbind outcome_bind]. reflexivity.
Qed.
Lemma light_commit_attested :
  attested commit_guest commit_previous (program_of Byte.x00) (commit_commit_output light_commit_output).
Proof.
  apply (attested_run _ _ _ commit_start); [|intros ? ? ? ? Hp; discriminate Hp].
  unfold commit_guest. rewrite commit_start_run. cbn [mbind outcome_bind]. reflexivity.
Qed.
Lemma light_state_attested :
  attested state_guest state_previous (program_of Byte.x02) (commit_state_output light_state_output).
Proof.
  apply (attested_run _ _ _ state_start); [|intros ? ? ? ? Hp; discriminate Hp].
  unfold state_guest. rewrite state_start_run. cbn [mbind outcome_bind]. reflexivity.
Qed.

(** The programs under which the proofs of the three chains verify. *)
Lemma header_proof_id :
  verify_groth16_proof (hi_zkm_proof header_proof) (hi_zkm_public_values header_proof)
    (hi_zkm_vk_hash header_proof) (hi_zkm_version header_proof) = Ok (program_of Byte.x01).
Proof.
  unfold header_proof, light_verifier. cbn [hi_zkm_proof hi_zkm_public_values hi_zkm_vk_hash hi_zkm_version].
  exact (proj1 (proj2 (four_proofs_accept _ _ _ _))).
Qed.
Lemma state_proof_id :
  verify_groth16_proof (si_zkm_proof state_proof) (si_zkm_public_values state_proof)
    (si_zkm_vk_hash state_proof) (si_zkm_version state_proof) = Ok (program_of Byte.x02).
Proof.
  unfold state_proof, light_verifier. cbn [si_zkm_proof si_zkm_public_values si_zkm_vk_hash si_zkm_version].
  exact (proj2 (proj2 (four_proofs_accept _ _ _ _))).
Qed.

(** The commitment was made for programs without predecessors. *)
Lemma light_commitment :
  extract_commit_chain_commitment (output (cs_commit_txn (co_chain_state light_commit_output))) =
    Ok light_digest ∧
  commit_chain_commitment_digest sample_validators sample_evm_genesis
    (program_history_root
       (finalize_history Header (initial_history Header) (program_of Byte.x01))
       (finalize_history State (initial_history State) (program_of Byte.x02)))
    sample_checkpoint sample_programs = Ok light_digest.
Proof.
  split; vm_cast_no_check (eq_refl (Ok light_digest)).
Qed.
