(* ===== verification/LightClientSpec.v ===== *)
(** * What the light client's proofs mean

    The composition of the four circuits: what an accepted run of the watchtower's
    or the operator's circuit says about Bitcoin's headers, the publishers'
    commitments, the EVM chain and the challenges, given that the proof system is
    sound for the programs whose proofs were verified. *)

From Stdlib Require Import Init.Byte.
From stdpp Require Import base vector strings list.
From S2P Require Import Prelude Bytes Mmr MerkleTree HeaderChain HeaderSpec Transaction Spv Verifier.
From S2P Require Import HeaderCircuit PublisherSet CommitChain Cbft StateChain WatchtowerCommitment.
From S2P Require Import LightClient LightClientSample.

Local Open Scope Z_scope.

Section Spec.
Context `{SHA : Sha256} `{OC : OverflowChecks} `{UB : UsizeBits} `{UL : U256Laws} `{BN : BuildNetwork} `{NW : NextWork}.
Context `{CE : ConsensusEncode} `{BC : BitcoinCrypto} `{BL : !BitcoinLaws} `{TR : Taproot} `{G : Groth16}.
Context `{KE : Keccak} `{EX : EvmExecutor} `{EL : !EvmLaws} `{CT : CosmosTx} `{LB : LightBlocks}.
Context `{SQ : SequencerHash} `{GB : GenesisBlocks}.
Context `{HC : HeaderOutputCodec} `{HL : !HeaderOutputLaws} `{CC : !CommitOutputCodec} `{CL : !CommitOutputLaws}.
Context `{SC : StateOutputCodec} `{SL : !StateOutputLaws} `{PV : PublicValues} `{PL : !PublicValuesLaws}.

(** ** Chains *)

(** The headers' fields are of their machine types, and their number. *)
Definition typed_chain (hs : list CircuitBlockHeader) : Prop :=
  len hs < u32_modulus ∧ times_ok hs ∧ Forall header_ok hs.
Definition typed_spv (p : SPV) : Prop :=
  header_ok (block_header p) ∧ 0 ≤ leaf_index (mmr_inclusion_proof p).

(** The proof's block is at [height] of the chain, with the proof's transaction
    below its Merkle root. *)
Definition confirmed (hs : list CircuitBlockHeader) (p : SPV) (height : Z) : Prop :=
  hs !! Z.to_nat height = Some (block_header p) ∧
  get_root (block_inclusion_proof p) (txid (transaction p)) = merkle_root (block_header p).

(** A chain of headers from Bitcoin's genesis block with state [s]. *)
Definition header_chain_of (hs : list CircuitBlockHeader) (s : ChainState) : Prop :=
  head hs = Some (genesis_header NETWORK) ∧
  (typed_chain hs → valid_chain hs ∧ summary hs s).

(** The last commitment [last] of [commits] names the genesis of the EVM chain,
    the validators of its last block and the programs. *)
Definition commitment_of (last : CircuitCommit) (c : VerifiedChains) : Prop :=
  cc_genesis_evm_block_hash last = ss_genesis_evm_block_hash (so_chain_state (vc_state c)) ∧
  sequencer_hash (cc_sequencers last) = Ok (vc_validators c) ∧
  cc_authorized_program_ids last =
    mkAuthorized (vc_header_id c) (vc_state_id c) (vc_commit_id c)
      (ap_watchtower (cc_authorized_program_ids last)).

Record justified (genesis_txid : hash32) (spv : SPV) (c : VerifiedChains) : Prop := {
  ju_headers : ∃ hs, header_chain_of hs (ho_chain_state (vc_header c)) ∧
    (typed_chain hs → typed_spv spv → confirmed hs spv (vc_commitment_height c) ∨ collision);
  ju_commits : ∃ commits last_commit,
    lineage genesis_txid commits (co_chain_state (vc_commit c)) ∧
    last commits = Some last_commit ∧
    compute_txid (cc_commit_txn last_commit) = compute_txid (transaction spv) ∧
    commitment_of last_commit c;
  ju_blocks : ∃ b bs hs, let h0 := current_block (sb_evm_block b) in
    evm_chain (hash_slow h0) (eh_number h0) (b :: bs) hs (so_chain_state (vc_state c));
}.

(** ** Histories *)

(** The commit transaction was made for programs that superseded no others. *)
Definition no_upgrade (out : CommitChainCircuitOutput) : Prop :=
  ∃ digest sequencers genesis checkpoint ids p q,
    extract_commit_chain_commitment (output (cs_commit_txn (co_chain_state out))) = Ok digest ∧
    commit_chain_commitment_digest sequencers genesis
      (program_history_root (finalize_history Header (initial_history Header) p)
         (finalize_history State (initial_history State) q)) checkpoint ids = Ok digest.

(** What the authorisation establishes. *)
Lemma authorize_Ok c a :
  authorize c = Ok a →
  vc_commit_id c = ROOT_COMMIT_PROGRAM_ID ∧ co_self_program_id (vc_commit c) = vc_commit_id c ∧
  ho_self_program_id (vc_header c) = vc_header_id c ∧
  so_self_program_id (vc_state c) = vc_state_id c ∧
  a = cs_authorized_program_ids (co_chain_state (vc_commit c)) ∧
  a = mkAuthorized (vc_header_id c) (vc_state_id c) (vc_commit_id c) (ap_watchtower a) ∧
  ∃ h digest, vc_validators c = Some h ∧
    extract_commit_chain_commitment (output (cs_commit_txn (co_chain_state (vc_commit c)))) = Ok digest ∧
    commit_chain_commitment_digest h (ss_genesis_evm_block_hash (so_chain_state (vc_state c)))
      (program_history_root
         (finalize_history Header (ho_program_history_hash (vc_header c)) (vc_header_id c))
         (finalize_history State (so_program_history_hash (vc_state c)) (vc_state_id c)))
      (proof_checkpoint_root (ho_upgrade_checkpoint_hash (vc_header c))
         (so_upgrade_checkpoint_hash (vc_state c))) a = Ok digest.
Proof.
  unfold authorize. destruct (vc_validators c) as [h|]; [|done].
  unfold verify_commitment_authorization, checked_history_root, check_program_id.
  intros H. ok_inv. brefl. destruct (cs_authorized_program_ids _) eqn:Ea; cbn in *.
  split_and!; try congruence. subst. eauto 10.
Qed.

(** What the verification of the chains establishes. *)
Lemma verify_chains_Ok genesis hi ci si spv c :
  verify_chains genesis hi ci si spv = Ok c →
  verify_groth16_proof (coi_zkm_proof ci) (coi_zkm_public_values ci) (coi_zkm_vk_hash ci)
    (coi_zkm_version ci) = Ok (vc_commit_id c) ∧
  deserialize_commit_chain_output (coi_zkm_public_values ci) = Ok (vc_commit c) ∧
  compute_txid (cs_commit_txn (co_chain_state (vc_commit c))) = compute_txid (transaction spv) ∧
  cs_genesis_txid (co_chain_state (vc_commit c)) = genesis ∧
  verify_groth16_proof (hi_zkm_proof hi) (hi_zkm_public_values hi) (hi_zkm_vk_hash hi)
    (hi_zkm_version hi) = Ok (vc_header_id c) ∧
  read_header_output (hi_zkm_public_values hi) = Ok (vc_header c) ∧
  SPV_verify spv (block_hashes_mmr (ho_chain_state (vc_header c))) = Some (vc_commitment_height c) ∧
  verify_groth16_proof (si_zkm_proof si) (si_zkm_public_values si) (si_zkm_vk_hash si)
    (si_zkm_version si) = Ok (vc_state_id c) ∧
  read_state_output (si_zkm_public_values si) = Ok (vc_state c) ∧
  sequencer_hash (cs_sequencers (co_chain_state (vc_commit c))) = Ok (vc_sequencers c).
Proof.
  unfold verify_chains. intros H. ok_inv. brefl. cbn in *.
  match goal with H : decode_commit_chain_circuit_output ?v = Ok _ |- _ =>
    unfold decode_commit_chain_circuit_output in H;
    destruct (deserialize_commit_chain_output v) eqn:?; [injection H as ->|done] end.
  split_and!; try done; congruence.
Qed.

(** Public values a guest committed. *)
Lemma attested_header_output p v :
  attested header_guest header_previous p v → ∃ o, v = commit_header_output o.
Proof.
  intros [i w H _]. unfold header_guest in H. apply outcome_bind_Ok in H as (o & _ & H).
  injection H as <-. by exists o.
Qed.
Lemma attested_state_output p v :
  attested state_guest state_previous p v → ∃ o, v = commit_state_output o.
Proof.
  intros [i w H _]. unfold state_guest in H. apply outcome_bind_Ok in H as (o & _ & H).
  injection H as <-. by exists o.
Qed.

(** The proof system is sound for the pinned commit program and for the programs
    that proved the given header and state chain, and these superseded no others. *)
Record sound_inputs (hi : HeaderChainCircuitInput) (ci : CommitChainCircuitInput)
    (si : StateChainCircuitInput) : Prop := {
  sd_commit : groth16_sound commit_guest commit_previous ROOT_COMMIT_PROGRAM_ID;
  sd_header p :
    verify_groth16_proof (hi_zkm_proof hi) (hi_zkm_public_values hi) (hi_zkm_vk_hash hi)
      (hi_zkm_version hi) = Ok p → groth16_sound header_guest header_previous p;
  sd_state p :
    verify_groth16_proof (si_zkm_proof si) (si_zkm_public_values si) (si_zkm_vk_hash si)
      (si_zkm_version si) = Ok p → groth16_sound state_guest state_previous p;
  sd_upgrade out :
    deserialize_commit_chain_output (coi_zkm_public_values ci) = Ok out → no_upgrade out;
}.

Lemma initial_histories c a :
  authorize c = Ok a → no_upgrade (vc_commit c) →
  (ho_program_history_hash (vc_header c) = initial_history Header ∧
   so_program_history_hash (vc_state c) = initial_history State) ∨ collision.
Proof.
  intros (_ & _ & _ & _ & _ & _ & h & d & _ & Hx & Hd)%authorize_Ok
    (d' & sq & g & chk & ids & p & q & Hx' & Hd').
  assert (d' = d) as -> by congruence.
  destruct (commitment_digest_binds _ _ _ _ _ _ _ _ _ _ _ Hd Hd') as [(_ & _ & Hr & _)|]; [|by right].
  apply program_history_root_binds in Hr as [(-> & _ & -> & _)|]; [by left|by right].
Qed.

(** The chain of headers behind a verified header output. *)
Lemma justified_headers p proof v vk version spv height out :
  groth16_sound header_guest header_previous p → verify_groth16_proof proof v vk version = Ok p →
  read_header_output v = Ok out → ho_self_program_id out = p →
  ho_program_history_hash out = initial_history Header →
  SPV_verify spv (block_hashes_mmr (ho_chain_state out)) = Some height →
  (∃ hs, header_chain_of hs (ho_chain_state out) ∧
     (typed_chain hs → typed_spv spv → confirmed hs spv height ∨ collision)) ∨ collision.
Proof.
  intros Hs Hv Hr Hid Hh Hspv. pose proof (Hs _ _ _ _ Hv) as Ha.
  destruct (attested_header_output _ _ Ha) as [o ->].
  rewrite read_header_round in Hr. injection Hr as ->.
  destruct (attested_from_genesis _ _ Ha out (header_output_round out) Hid Hh)
    as [(hs & Hhd & Hap)|]; [left|by right].
  exists hs. assert (typed_chain hs → valid_chain hs ∧ summary hs (ho_chain_state out)) as Hval.
  { intros (Hl & Ht & _). by apply (apply_blocks_spec hs _ Hl Ht) in Hap as (_ & ? & ?). }
  split; [by split|]. intros Htc [Hok Hi]. destruct (Hval Htc) as [_ Hsum].
  destruct Htc as (Hl & _ & Hf). by apply (spv_at_height hs _ _ _ Hl Hf Hok Hi (sum_mmr _ _ Hsum)).
Qed.

(** The lineage of commitments behind a verified commit output, and what the last
    one commits to. *)
Lemma justified_commits proof v vk version c a spv :
  groth16_sound commit_guest commit_previous (vc_commit_id c) →
  verify_groth16_proof proof v vk version = Ok (vc_commit_id c) →
  deserialize_commit_chain_output v = Ok (vc_commit c) → authorize c = Ok a →
  compute_txid (cs_commit_txn (co_chain_state (vc_commit c))) = compute_txid (transaction spv) →
  (∃ commits last_commit,
     lineage (cs_genesis_txid (co_chain_state (vc_commit c))) commits (co_chain_state (vc_commit c)) ∧
     last commits = Some last_commit ∧
     compute_txid (cc_commit_txn last_commit) = compute_txid (transaction spv) ∧
     commitment_of last_commit c) ∨ collision.
Proof.
  intros Hs Hv Hd Ha Htx.
  apply authorize_Ok in Ha as (_ & Hself & _ & _ & Ea & Hids & h & d & Hval & Hx & Hdig).
  destruct (attested_lineage _ _ (Hs _ _ _ _ Hv) _ Hd Hself) as (commits & Hl).
  destruct (ln_state _ _ _ Hl) as (l & Hlast & Hst).
  pose proof (proj1 (Forall_lookup _ _) (ln_each _ _ _ Hl)) as Heach.
  rewrite last_lookup in Hlast. destruct (Heach _ _ Hlast) as (_ & (h' & d' & Hsq & Hx' & Hdig') & _).
  rewrite <- last_lookup in Hlast.
  rewrite Hst in Hx. cbn in Hx. assert (d' = d) as -> by congruence.
  destruct (commitment_digest_binds _ _ _ _ _ _ _ _ _ _ _ Hdig Hdig') as [(-> & Hg & _ & _ & Haa)|];
    [left|by right].
  exists commits, l. split; [done|]. split; [done|]. split.
  { rewrite <- Htx, Hst. cbn. by rewrite compute_txid_strip. }
  split_and!; [done|by rewrite Hsq, Hval|]. by rewrite <- Haa.
Qed.

Lemma chains_justified genesis hi ci si spv c a :
  sound_inputs hi ci si → verify_chains genesis hi ci si spv = Ok c → authorize c = Ok a →
  justified genesis spv c ∨ collision.
Proof.
  intros [Sc Sh Ss Su] Hc Ha.
  destruct (verify_chains_Ok _ _ _ _ _ _ Hc) as (Vc & Dc & Htx & Hg & Vh & Rh & Hspv & Vs & Rs & _).
  destruct (initial_histories _ _ Ha (Su _ Dc)) as [[Hh Hst]|]; [|by right].
  pose proof (authorize_Ok _ _ Ha) as (Hroot & _ & Hhid & Hsid & _).
  destruct (justified_headers _ _ _ _ _ _ _ _ (Sh _ Vh) Vh Rh Hhid Hh Hspv) as [JH|]; [|by right].
  assert (groth16_sound commit_guest commit_previous (vc_commit_id c)) as Sc' by by rewrite Hroot.
  destruct (justified_commits _ _ _ _ _ _ _ Sc' Vc Dc Ha Htx) as [JC|]; [|by right].
  pose proof (Ss _ Vs _ _ _ _ Vs) as Has. destruct (attested_state_output _ _ Has) as [o Eo].
  rewrite Eo, read_state_round in Rs. injection Rs as ->. rewrite Eo in Has.
  destruct (attested_chain _ _ Has _ (state_output_round _) Hsid Hst) as [JB|]; [|by right].
  left. split; [done| |done]. by rewrite Hg in JC.
Qed.

(** ** The watchtower *)

Lemma watchtower_chain genesis hi ci si spv work height :
  sound_inputs hi ci si →
  watch_longest_chain genesis hi ci si spv = Ok (work, height) →
  (∃ c, justified genesis spv c ∧ total_work (ho_chain_state (vc_header c)) = work ∧
     vc_commitment_height c = height) ∨ collision.
Proof.
  intros Hs H. unfold watch_longest_chain in H.
  apply outcome_bind_Ok in H as (c & Hc & H). apply outcome_bind_Ok in H as (u & _ & H).
  apply outcome_bind_Ok in H as (a & Ha & H). injection H as <- <-.
  destruct (chains_justified _ _ _ _ _ _ _ Hs Hc Ha) as [J|]; [left|by right]. by exists c.
Qed.

(** A watchtower's public values are justified.  If the circuit returns a
    work and a height and the proof system is sound for the programs involved,
    then there is a chain of headers from Bitcoin's genesis with that total work
    that confirms, at that height, the last of a lineage of authorised
    commitments from the given genesis transaction, and the EVM chain whose
    genesis and validators that commitment names; or a SHA-256 collision is
    exhibited. *)
Theorem watchtower_justified genesis hi ci si spv work height :
  sound_inputs hi ci si →
  watch_longest_chain genesis hi ci si spv = Ok (work, height) →
  (∃ c, justified genesis spv c ∧ total_work (ho_chain_state (vc_header c)) = work ∧
     vc_commitment_height c = height) ∨ collision.
Proof. apply watchtower_chain. Qed.

(** ** The operator *)

(** A withdrawal of the state is one that a block of the chain executed with the
    graph's slot set. *)
Definition withdrawn_on (graph_id : vec byte 16) (bs : list CircuitStateBlock) : Prop :=
  ∃ b h address base_slot, b ∈ bs ∧
    executor_execute (sb_evm_block b) (storage_info (sb_withdrawals b)) = Ok h ∧
    (address, slot_id graph_id base_slot, 1) ∈ storage_info (sb_withdrawals b).

Lemma elem_of_storage_info address base ids graph_id withdrawals :
  (address, base, ids) ∈ withdrawals → graph_id ∈ ids →
  (address, slot_id graph_id base, 1) ∈ storage_info withdrawals.
Proof.
  intros Hw Hid. unfold storage_info. apply list_elem_of_bind. exists (address, base, ids).
  split; [|done]. apply list_elem_of_bind. exists graph_id. split; [by left|done].
Qed.

Lemma evm_chain_withdrawn g n bs hs s w graph_id :
  evm_chain g n bs hs s → w ∈ ss_withdrawals s → graph_id ∈ w.2 → withdrawn_on graph_id bs.
Proof.
  intros Hc Hw Hid. rewrite (ch_withdrawals _ _ _ _ _ Hc) in Hw.
  apply list_elem_of_join in Hw as (ws & Hw & Hz). apply elem_of_lookup_zip_with in Hz
    as (i & b & h & -> & Hb & Hh).
  destruct (ch_accepts _ _ _ _ _ Hc _ _ _ Hb Hh) as [Hx _ _].
  unfold collected in Hw. destruct (decide _); [by apply elem_of_nil in Hw|].
  destruct w as [[address base] ids]. exists b, h, address, base.
  split; [by eapply list_elem_of_lookup_2|]. split; [done|]. by eapply elem_of_storage_info.
Qed.

Lemma for_each_unit {A} (f : unit → A → outcome unit) l u :
  for_each f tt l = Ok u → ∀ x, x ∈ l → f tt x = Ok tt.
Proof.
  induction l as [|y l IH]; intros H x Hx; [by apply elem_of_nil in Hx|].
  cbn in H. apply outcome_bind_Ok in H as ([] & Hy & H).
  apply elem_of_cons in Hx as [->|Hx]; [done|by apply IH].
Qed.

(** What an accepted run of the operator's circuit went through. *)
Lemma propose_Ok included graph_id genesis init_txid init_txn challenges keys hi ci si spv committed
    best constant bitmap :
  propose_longest_chain included graph_id genesis init_txid init_txn challenges keys hi ci si spv
    committed = Ok (best, constant, bitmap) →
  best = committed ∧ constant = hash_operator_constant graph_id genesis init_txid keys ∧
  bitmap = to_hash32 (le_bytes 32 included) ∧
  ∃ c a, verify_chains genesis hi ci si spv = Ok c ∧ authorize c = Ok a ∧
    best_block_hash (ho_chain_state (vc_header c)) = committed ∧
    validate_watchtower_challenge_indices (u256_to_le_bits included) (length keys)
      (map node_index challenges) = Ok tt ∧
    (challenges ≠ [] → ∃ t, init_txn = Some t ∧ compute_txid t = init_txid) ∧
    (∀ ch, ch ∈ challenges →
       authenticate_challenge (ho_chain_state (vc_header c)) init_txid init_txn keys ch = Ok tt ∧
       weigh_challenge graph_id (ap_watchtower a) (total_work (ho_chain_state (vc_header c)))
         (vc_commitment_height c) ch = Ok tt) ∧
    ∃ w, w ∈ ss_withdrawals (so_chain_state (vc_state c)) ∧ graph_id ∈ w.2.
Proof.
  unfold propose_longest_chain. intros H.
  apply outcome_bind_Ok in H as (c & Hc & H). apply outcome_bind_Ok in H as (a & Ha & H).
  apply outcome_bind_Ok in H as (u1 & _ & H). apply outcome_bind_Ok in H as ([] & Hidx & H).
  apply outcome_bind_Ok in H as (init & Hinit & H). apply outcome_bind_Ok in H as (u2 & Hfor & H).
  apply outcome_bind_Ok in H as (u3 & Hf & H). apply outcome_bind_Ok in H as (u4 & Hb & H).
  apply require_Ok in Hf, Hb. apply existsb_exists in Hf as (w & Hw & Hg). brefl.
  injection H as <- <- <-. split_and!; [done..|]. exists c, a.
  unfold checked_challenge_init_transaction in Hinit. ok_inv.
  split_and!; try done.
  - intros Hne. match goal with H : negb (negb _) || _ = true |- _ =>
      rewrite (bool_decide_eq_false_2 _ Hne) in H; cbn in H; apply bool_decide_eq_true_1 in H as [t ->] end.
    exists t. split; [done|]. ok_inv. by brefl.
  - intros ch Hch. pose proof (for_each_unit _ _ _ Hfor _ Hch) as Hx. cbn in Hx.
    apply outcome_bind_Ok in Hx as ([] & H1 & H2). by rewrite H1, H2.
  - exists w. split; [|done]. by apply list_elem_of_In.
Qed.


(** *** Challenges *)

(** The challenge spends its watchtower's output of the challenge transaction
    [init], with that watchtower's signature, in a block of the chain. *)
Definition authentic (s : ChainState) (init_txid : hash32) (init : CircuitTransaction)
    (keys : list hash32) (ch : IndexedWatchtowerChallenge) : Prop :=
  let tx := transaction (challenge_spv ch) in
  (∃ height, SPV_verify (challenge_spv ch) (block_hashes_mmr s) = Some height ∧
     height ≤ block_height s) ∧
  ∃ txin prev_out key xonly raw sig sighash,
    head (input tx) = Some txin ∧
    previous_output txin = mkOutPoint init_txid (Z.of_nat (node_index ch) * 2) ∧
    output init !! (node_index ch * 2)%nat = Some prev_out ∧
    keys !! node_index ch = Some key ∧ xonly_from_slice (vec_to_list key) = Ok xonly ∧
    witness txin !! 0%nat = Some raw ∧ taproot_sig_from_slice raw = Ok sig ∧
    taproot_script_spend_signature_hash tx 0 prev_out (tap_leaf_hash (watchtower_script xonly)) =
      Ok sighash ∧
    verify_schnorr sig sighash xonly = Ok tt.

(** The challenge carries commitment [w], a proof of program [p] for the graph. *)
Definition challenge_carries (ch : IndexedWatchtowerChallenge) (p : ProgramId)
    (graph_id : vec byte GRAPH_ID_SIZE) (w : WatchtowerCommitment) : Prop :=
  ∃ commitment,
    extract_data_from_commitment_outputs (output (transaction (challenge_spv ch))) = Ok commitment ∧
    parse_watchtower_commitment commitment = Ok (Ok w) ∧
    verify_groth16_proof (vec_to_list (wc_proof w)) (vec_to_list (wc_public_values w))
      (vec_to_list (wc_vk_hash w)) (wc_zkm_version w) = Ok p ∧
    wc_graph_id w = graph_id.

Lemma verify_taproot_Ok script tx prev_out xonly :
  verify_taproot_leaf_schnorr_signature script tx 0 prev_out xonly = Ok tt →
  ∃ txin raw sig sighash, head (input tx) = Some txin ∧ witness txin !! 0%nat = Some raw ∧
    taproot_sig_from_slice raw = Ok sig ∧
    taproot_script_spend_signature_hash tx 0 prev_out (tap_leaf_hash script) = Ok sighash ∧
    verify_schnorr sig sighash xonly = Ok tt.
Proof.
  unfold verify_taproot_leaf_schnorr_signature. intros H.
  apply outcome_bind_Ok in H as (txin & Ht & H). apply outcome_bind_Ok in H as (raw & Hr & H).
  apply outcome_bind_Ok in H as (sig & Hs & H). apply expect_Ok in Ht, Hr.
  destruct (negb (sig_all_plus_anyone sig)); [done|]. destruct (_ <? 3)%nat; [done|].
  apply outcome_bind_Ok in H as (ws & _ & H). destruct (decide _); [done|].
  apply outcome_bind_Ok in H as (rc & _ & H). apply outcome_bind_Ok in H as (cb & _ & H).
  cbn zeta in H. destruct (_ || _); [done|]. apply outcome_bind_Ok in H as (ok & _ & H).
  destruct (negb _); [done|]. apply outcome_bind_Ok in H as (sh & Hsh & H).
  exists txin, raw, sig, sh. split_and!; try done. by destruct (input tx).
Qed.

Lemma authenticate_Ok s init_txid init keys ch :
  authenticate_challenge s init_txid (Some init) keys ch = Ok tt →
  authentic s init_txid init keys ch.
Proof.
  unfold authenticate_challenge. cbn zeta. intros H.
  apply outcome_bind_Ok in H as (height & Hspv & H). apply outcome_bind_Ok in H as (u1 & Hle & H).
  apply outcome_bind_Ok in H as (txin & Htx & H). apply outcome_bind_Ok in H as (u2 & Hid & H).
  apply outcome_bind_Ok in H as (u3 & Hvout & H). cbn [mbind outcome_bind expect] in H.
  apply outcome_bind_Ok in H as (prev_out & Hprev & H). apply outcome_bind_Ok in H as (key & Hkey & H).
  apply outcome_bind_Ok in H as (xonly & Hx & H).
  apply expect_Ok in Hspv, Htx, Hprev. apply require_Ok in Hle, Hid, Hvout. apply index_Ok in Hkey.
  brefl. destruct (verify_taproot_Ok _ _ _ _ H) as (txin' & raw & sig & sh & Ht' & Hr & Hs & Hsh & Hv).
  assert (txin' = txin) as -> by congruence. split; [by exists height|].
  exists txin, prev_out, key, xonly, raw, sig, sh. split_and!; try done.
  - destruct (previous_output txin); cbn in *; congruence.
  - by replace (node_index ch * 2)%nat with (Z.to_nat (Z.of_nat (node_index ch) * 2)) by lia.
Qed.

Lemma weigh_Ok graph_id p work height ch w :
  weigh_challenge graph_id p work height ch = Ok tt → challenge_carries ch p graph_id w →
  be_value (vec_to_list (wc_total_work w)) ≤ be_value (vec_to_list work) ∧
  le_value (vec_to_list (wc_consensus_block_height w)) ≤ height.
Proof.
  unfold weigh_challenge. intros H (cm & Hx & Hp & Hv & Hg). rewrite Hx, Hp in H.
  cbn [mbind outcome_bind] in H. rewrite Hv in H.
  rewrite (bool_decide_eq_false_2 (p ≠ p)), (bool_decide_eq_false_2 (wc_graph_id w ≠ _)) in H
    by (intros Hn; by apply Hn).
  cbn [orb] in H. ok_inv. by brefl.
Qed.


(** *** The heaviest chain *)

(** The proof system is sound for the watchtowers' program. *)
Definition watchtower_sound (p : ProgramId) : Prop :=
  ∀ proof v vk zkm_version, verify_groth16_proof proof v vk zkm_version = Ok p →
    ∃ genesis hi ci si spv, watchtower_guest genesis hi ci si spv = Ok v.

Lemma parse_public_values c w :
  parse_watchtower_commitment c = Ok (Ok w) →
  vec_to_list (wc_public_values w) =
    vec_to_list (wc_total_work w) ++ vec_to_list (wc_consensus_block_height w).
Proof.
  unfold parse_watchtower_commitment. intros H. destruct (_ <? _); [done|]. cbn zeta in H.
  destruct (_ =? 0); [done|]. apply outcome_bind_Ok in H as (e & _ & H).
  destruct (negb _); [done|]. destruct (from_utf8 _); [|done]. injection H as <-.
  cbn [wc_public_values wc_total_work wc_consensus_block_height].
  set (v := to_array PUBLIC_INPUTS_SIZE _).
  rewrite !to_array_list by (apply slice_length; rewrite length_vec_to_list; unfold PUBLIC_INPUTS_SIZE, TOTAL_WORK_SIZE, CONSENSUS_BLOCK_HEIGHT_SIZE; lia).
  unfold slice. rewrite drop_0, (take_ge _ CONSENSUS_BLOCK_HEIGHT_SIZE); [by rewrite take_drop|].
  by rewrite length_drop, length_vec_to_list.
Qed.

(** What a watchtower's proof says of the commitment that carries it. *)
Lemma watchtower_values p ch graph_id w :
  watchtower_sound p → challenge_carries ch p graph_id w →
  ∃ genesis hi ci si spv work height,
    watch_longest_chain genesis hi ci si spv = Ok (work, height) ∧ wc_total_work w = work ∧
    le_value (vec_to_list (wc_consensus_block_height w)) = height mod u32_modulus.
Proof.
  intros Hs (cm & _ & Hp & Hv & _). apply parse_public_values in Hp.
  destruct (Hs _ _ _ _ Hv) as (genesis & hi & ci & si & spv & Hg).
  unfold watchtower_guest in Hg. apply outcome_bind_Ok in Hg as ([work height] & Hw & Hg).
  assert (vec_to_list work ++ le_bytes 4 height = vec_to_list (wc_public_values w)) as Hg' by congruence.
  rewrite Hp in Hg'. apply vec_app_inj in Hg' as [-> Hg'].
  exists genesis, hi, ci, si, spv, (wc_total_work w), height. split; [done|]. split; [done|].
  rewrite <- Hg'. apply (le_value_bytes 4).
Qed.


End Spec.

(** ** The example *)

#[local] Existing Instances sample_sha u256_bytes u256_bytes_laws key_crypto key_crypto_laws.
#[local] Existing Instances sample_executor sample_executor_laws sample_keccak sample_cosmos consensus_exec.
#[local] Existing Instances sample_output_codec sample_output_laws sample_state_codec sample_state_laws.
#[local] Existing Instances commit_output_codec commit_output_codec_laws.
#[local] Existing Instances sample_network sample_checks_off sample_usize sample_retarget sample_sequencers.
#[local] Existing Instances sample_blocks sample_public_values sample_public_values_laws sample_taproot.
#[local] Existing Instances light_genesis light_verifier.

Lemma light_commit_sound : groth16_sound commit_guest commit_previous ROOT_COMMIT_PROGRAM_ID.
Proof.
  intros proof v vk zkm_version Hv.
  destruct (light_verifier_only _ _ _ _ Byte.x00 _ Hv (eq_sym program_0)) as (E & _).
  rewrite (E eq_refl), <- program_0. exact light_commit_attested.
Qed.

Lemma light_header_sound : groth16_sound header_guest header_previous (program_of Byte.x01).
Proof.
  intros proof v vk zkm_version Hv.
  destruct (light_verifier_only _ _ _ _ Byte.x01 _ Hv eq_refl) as (_ & E & _).
  rewrite (E eq_refl). exact light_header_attested.
Qed.

Lemma light_state_sound : groth16_sound state_guest state_previous (program_of Byte.x02).
Proof.
  intros proof v vk zkm_version Hv.
  destruct (light_verifier_only _ _ _ _ Byte.x02 _ Hv eq_refl) as (_ & _ & E).
  rewrite (E eq_refl). exact light_state_attested.
Qed.

Lemma light_no_upgrade : no_upgrade light_commit_output.
Proof.
  exists light_digest, sample_validators, sample_evm_genesis, sample_checkpoint, sample_programs,
    (program_of Byte.x01), (program_of Byte.x02). exact light_commitment.
Qed.

Lemma light_sound : sound_inputs header_proof commit_proof state_proof.
Proof.
  split.
  - exact light_commit_sound.
  - intros p Hp. rewrite header_proof_id in Hp. apply Ok_inj in Hp as <-. exact light_header_sound.
  - intros p Hp. rewrite state_proof_id in Hp. apply Ok_inj in Hp as <-. exact light_state_sound.
  - intros out Hd. unfold commit_proof in Hd. cbn [coi_zkm_public_values] in Hd.
    rewrite (commit_output_codec_laws light_commit_output) in Hd.
    apply Ok_inj in Hd as <-. exact light_no_upgrade.
Qed.

Lemma watchtower_justified_witness :
  (∃ c, justified light_genesis_txid light_spv c ∧
     total_work (ho_chain_state (vc_header c)) = total_work (ho_chain_state light_header_output) ∧
     vc_commitment_height c = 0) ∨ collision.
Proof.
  apply (watchtower_justified light_genesis_txid header_proof commit_proof state_proof light_spv
           (total_work (ho_chain_state light_header_output)) 0).
  - exact light_sound.
  - exact watchtower_run.
Defined.



