(* ===== verification/NodeSchema.v ===== *)
(** * The node's own tables

    The peg-in instances and the peg-out graphs of the node: the statuses of both,
    which evidence may move a graph from which status to which, and the rows of the
    tables the two aggregates read and write.

    Source: crates/store/src/schema.rs, crates/store/migrations,
    crates/bitvm-gc/src/actors.rs. *)

From stdpp Require Import base list strings.
From S2P Require Import Prelude Table Storage EngineSchema.

Local Open Scope Z_scope.

(** [Option::is_some]. *)
Definition is_some {A} (o : option A) : bool := match o with Some _ => true | None => false end.

(** [Option::filter]. *)
Definition filter_some {A} (p : A → bool) (o : option A) : option A :=
  match o with Some a => if p a then Some a else None | None => None end.

Lemma filter_some_Some {A} (p : A → bool) o a : filter_some p o = Some a ↔ o = Some a ∧ p a = true.
Proof.
  destruct o as [x|]; cbn; [|naive_solver].
  destruct (p x) eqn:E; split; [intros [= ->]|intros [[= ->] _]|intros [=]|intros [[= ->] Hp]];
    congruence || done.
Qed.

(** The [uuid] crate: a 128-bit number and its text. *)
Definition Uuid : Type := N.

Class UuidText := {
  uuid_to_string : Uuid → string;
  uuid_from_str : string → outcome Uuid;
}.

Class UuidLaws `{UuidText} : Prop :=
  uuid_roundtrip : ∀ u, uuid_from_str (uuid_to_string u) = Ok u.

Lemma uuid_to_string_inj `{UuidLaws} u v : uuid_to_string u = uuid_to_string v → u = v.
Proof. intros E. apply Ok_inj. by rewrite <- !uuid_roundtrip, E. Qed.

(** A Bitcoin transaction id, in its text form. *)
Definition Txid : Type := string.

(** [bitvm_lib::actors::Actor]: the role of a node. *)
Inductive Actor := Committee | Operator | Verifier | Watchtower | Publisher_ | All.
#[export] Instance Actor_eq_dec : EqDecision Actor.
Proof. solve_decision. Defined.

Definition actor_to_string (a : Actor) : string :=
  match a with
  | Committee => "Committee" | Operator => "Operator" | Verifier => "Verifier"
  | Watchtower => "Watchtower" | Publisher_ => "Publisher" | All => "All"
  end.

(** ** Instances *)

Inductive InstanceBridgeInStatus :=
| UserInited
| CommitteesAnswered
| UserBroadcastPeginPrepare
| Presigned
| RelayerL1Broadcasted
| RelayerL2Minted
| Timeout
| UserCanceled
| NoEnoughCommitteesAnswered
| UserDiscarded.
#[export] Instance InstanceBridgeInStatus_eq_dec : EqDecision InstanceBridgeInStatus.
Proof. solve_decision. Defined.

Definition all_instance_statuses : list InstanceBridgeInStatus :=
  [UserInited; CommitteesAnswered; UserBroadcastPeginPrepare; Presigned; RelayerL1Broadcasted;
   RelayerL2Minted; Timeout; UserCanceled; NoEnoughCommitteesAnswered; UserDiscarded].

Definition instance_status_str (s : InstanceBridgeInStatus) : string :=
  match s with
  | UserInited => "UserInited"
  | CommitteesAnswered => "CommitteesAnswered"
  | UserBroadcastPeginPrepare => "UserBroadcastPeginPrepare"
  | Presigned => "Presigned"
  | RelayerL1Broadcasted => "RelayerL1Broadcasted"
  | RelayerL2Minted => "RelayerL2Minted"
  | Timeout => "Timeout"
  | UserCanceled => "UserCanceled"
  | NoEnoughCommitteesAnswered => "NoEnoughCommitteesAnswered"
  | UserDiscarded => "UserDiscarded"
  end.

(** [InstanceBridgeInStatus::from_str]: the variant with that name. *)
Definition instance_status_of (s : string) : option InstanceBridgeInStatus :=
  List.find (λ st, bool_decide (instance_status_str st = s)) all_instance_statuses.

Definition FAILED : list InstanceBridgeInStatus :=
  [NoEnoughCommitteesAnswered; UserDiscarded; UserCanceled; Timeout].

Definition is_failed (s : InstanceBridgeInStatus) : bool := bool_decide (s ∈ FAILED).
Definition is_success (s : InstanceBridgeInStatus) : bool := bool_decide (s = RelayerL2Minted).

Definition deletes_key_on_entry (s : InstanceBridgeInStatus) : bool :=
  match s with
  | NoEnoughCommitteesAnswered | UserDiscarded | UserCanceled => true
  | _ => false
  end.

(** [IndexMap]: pairs in insertion order, one per key. *)
Definition IndexMap (V : Type) : Type := list (string * V).

Fixpoint im_insert {V} (k : string) (v : V) (m : IndexMap V) : IndexMap V :=
  match m with
  | [] => [(k, v)]
  | (k', v') :: m' => if decide (k' = k) then (k, v) :: m' else (k', v') :: im_insert k v m'
  end.

(** A row of [instance]. *)
Record Instance_ := mkInstance {
  it_instance_id : Uuid;
  it_network : string;
  it_from_addr : string;
  it_to_addr : string;
  it_amount : Z;
  it_fees : list Z;
  it_input_utxos : string;
  it_status : string;
  it_goat_tx_hash : string;
  it_goat_tx_height : Z;
  it_user_xonly_pubkey : string;
  it_user_change_addr : string;
  it_user_refund_addr : string;
  it_btc_txid : option Txid;
  it_btc_height : Z;
  it_pegin_confirm_txid : option Txid;
  it_pegin_cancel_txid : option Txid;
  it_committees_answers : IndexMap bytes;
  it_pegin_data_tx_hash : string;
  it_parameters : option string;
  it_post_pegin_txhash : option string;
  it_key_deleted : bool;
  it_status_updated_at : Z;
  it_created_at : Z;
  it_updated_at : Z;
}.

#[export] Instance eta_Instance : Eta Instance_ := λ r,
  mkInstance (it_instance_id r) (it_network r) (it_from_addr r) (it_to_addr r) (it_amount r)
    (it_fees r) (it_input_utxos r) (it_status r) (it_goat_tx_hash r) (it_goat_tx_height r)
    (it_user_xonly_pubkey r) (it_user_change_addr r) (it_user_refund_addr r) (it_btc_txid r)
    (it_btc_height r) (it_pegin_confirm_txid r) (it_pegin_cancel_txid r)
    (it_committees_answers r) (it_pegin_data_tx_hash r) (it_parameters r)
    (it_post_pegin_txhash r) (it_key_deleted r) (it_status_updated_at r) (it_created_at r)
    (it_updated_at r).

(** ** Graphs *)

Inductive GraphStatus :=
| OperatorPresigned
| CommitteePresigned
| OperatorDataPushed
| PreKickoff
| OperatorKickOff
| Challenge
| Disprove
| Obsoleted
| Skipped
| OperatorTake1
| OperatorTake2.
#[export] Instance GraphStatus_eq_dec : EqDecision GraphStatus.
Proof. solve_decision. Defined.

Definition all_graph_statuses : list GraphStatus :=
  [OperatorPresigned; CommitteePresigned; OperatorDataPushed; PreKickoff; OperatorKickOff;
   Challenge; Disprove; Obsoleted; Skipped; OperatorTake1; OperatorTake2].

Definition graph_status_str (s : GraphStatus) : string :=
  match s with
  | OperatorPresigned => "OperatorPresigned"
  | CommitteePresigned => "CommitteePresigned"
  | OperatorDataPushed => "OperatorDataPushed"
  | PreKickoff => "PreKickoff"
  | OperatorKickOff => "OperatorKickOff"
  | Challenge => "Challenge"
  | Disprove => "Disprove"
  | Obsoleted => "Obsoleted"
  | Skipped => "Skipped"
  | OperatorTake1 => "OperatorTake1"
  | OperatorTake2 => "OperatorTake2"
  end.

(** [GraphStatus::from_str]. *)
Definition graph_status_of (s : string) : option GraphStatus :=
  List.find (λ st, bool_decide (graph_status_str st = s)) all_graph_statuses.

(** The evidence that authorizes a graph status transition. *)
Inductive GraphStatusSource := Definition_ | GoatEvent | ChainReconcile.

Inductive GraphStatusTransitionOutcome :=
| TransitionApplied
| AlreadyCurrent
| TransitionRejected (current : GraphStatus)
| NotFound.

Definition get_closed_status : list GraphStatus :=
  [OperatorTake1; OperatorTake2; Skipped; Disprove].
Definition get_pegout_started_status : list GraphStatus := [OperatorKickOff; Challenge].

Definition is_pegin_finalized (s : GraphStatus) : bool := bool_decide (OperatorDataPushed = s).
Definition is_pegout_started (s : GraphStatus) : bool :=
  bool_decide (s ∈ get_pegout_started_status).
Definition is_closed (s : GraphStatus) : bool := bool_decide (s ∈ get_closed_status).
Definition is_obsoleted (s : GraphStatus) : bool := bool_decide (s = Obsoleted).

Definition is_protocol_status (s : GraphStatus) : bool :=
  match s with
  | OperatorPresigned | CommitteePresigned | OperatorDataPushed | PreKickoff | OperatorKickOff
  | Challenge | Disprove | Obsoleted | Skipped | OperatorTake1 | OperatorTake2 => true
  end.

(** States from which [target] may be reached with the supplied evidence. *)
Definition allowed_transition_from (target : GraphStatus) (source : GraphStatusSource) :
    list GraphStatus :=
  let EARLY := [OperatorPresigned; CommitteePresigned] in
  let EARLY_OR_OBSOLETED := [OperatorPresigned; CommitteePresigned; Obsoleted] in
  let PRE_KICKOFF := [OperatorPresigned; CommitteePresigned; OperatorDataPushed; Obsoleted] in
  let KICKOFF :=
    [OperatorPresigned; CommitteePresigned; OperatorDataPushed; PreKickoff; Obsoleted] in
  let CHALLENGE :=
    [OperatorPresigned; CommitteePresigned; OperatorDataPushed; PreKickoff; Obsoleted;
     OperatorKickOff] in
  let TAKE1 :=
    [OperatorPresigned; CommitteePresigned; OperatorDataPushed; PreKickoff; Obsoleted;
     OperatorKickOff] in
  let TAKE2_OR_DISPROVE :=
    [OperatorPresigned; CommitteePresigned; OperatorDataPushed; PreKickoff; Obsoleted;
     OperatorKickOff; Challenge] in
  let SKIPPED :=
    [OperatorPresigned; CommitteePresigned; OperatorDataPushed; PreKickoff; Obsoleted] in
  let OBSOLETED :=
    [OperatorPresigned; CommitteePresigned; OperatorDataPushed; PreKickoff; OperatorKickOff;
     Challenge] in
  match source with
  | Definition_ =>
      match target with CommitteePresigned => [OperatorPresigned] | _ => [] end
  | GoatEvent =>
      match target with
      | OperatorDataPushed => EARLY
      | OperatorTake1 => TAKE1
      | OperatorTake2 | Disprove => TAKE2_OR_DISPROVE
      | _ => []
      end
  | ChainReconcile =>
      match target with
      | CommitteePresigned => [OperatorPresigned]
      | OperatorDataPushed => EARLY_OR_OBSOLETED
      | Obsoleted => OBSOLETED
      | PreKickoff => PRE_KICKOFF
      | OperatorKickOff => KICKOFF
      | Challenge => CHALLENGE
      | OperatorTake1 => TAKE1
      | OperatorTake2 | Disprove => TAKE2_OR_DISPROVE
      | Skipped => SKIPPED
      | OperatorPresigned => []
      end
  end.

(** A row of [graph]. *)
Record Graph := mkGraph {
  gr_graph_id : Uuid;
  gr_instance_id : Uuid;
  gr_kickoff_index : Z;
  gr_from_addr : string;
  gr_to_addr : string;
  gr_amount : Z;
  gr_challenge_amount : Z;
  gr_status : string;
  gr_sub_status : string;
  gr_operator_pubkey : string;
  gr_definition_hash : string;
  gr_next_prekickoff : option Txid;
  gr_cur_prekickoff_txid : option Txid;
  gr_force_skip_kickoff_txid : option Txid;
  gr_quick_challenge_txid : option Txid;
  gr_challenge_incomplete_kickoff_txid : option Txid;
  gr_pegin_txid : option Txid;
  gr_kickoff_txid : option Txid;
  gr_take1_txid : option Txid;
  gr_challenge_txid : option Txid;
  gr_take2_txid : option Txid;
  gr_watchtower_challenge_init_txid : option Txid;
  gr_operator_assert_txid : option Txid;
  gr_verifier_assert_txids : list Txid;
  gr_disprove_txids : list Txid;
  gr_watchtower_challenge_timeout_txids : list Txid;
  gr_operator_challenge_nack_txids : list Txid;
  gr_operator_commit_timeout_txid : option Txid;
  gr_init_withdraw_tx_hash : option string;
  gr_bridge_out_start_at : Z;
  gr_status_updated_at : Z;
  gr_proceed_withdraw_height : Z;
  gr_created_at : Z;
  gr_updated_at : Z;
}.

#[export] Instance eta_Graph : Eta Graph := λ g,
  mkGraph (gr_graph_id g) (gr_instance_id g) (gr_kickoff_index g) (gr_from_addr g) (gr_to_addr g)
    (gr_amount g) (gr_challenge_amount g) (gr_status g) (gr_sub_status g) (gr_operator_pubkey g)
    (gr_definition_hash g) (gr_next_prekickoff g) (gr_cur_prekickoff_txid g)
    (gr_force_skip_kickoff_txid g) (gr_quick_challenge_txid g)
    (gr_challenge_incomplete_kickoff_txid g) (gr_pegin_txid g) (gr_kickoff_txid g)
    (gr_take1_txid g) (gr_challenge_txid g) (gr_take2_txid g)
    (gr_watchtower_challenge_init_txid g) (gr_operator_assert_txid g)
    (gr_verifier_assert_txids g) (gr_disprove_txids g)
    (gr_watchtower_challenge_timeout_txids g) (gr_operator_challenge_nack_txids g)
    (gr_operator_commit_timeout_txid g) (gr_init_withdraw_tx_hash g) (gr_bridge_out_start_at g)
    (gr_status_updated_at g) (gr_proceed_withdraw_height g) (gr_created_at g) (gr_updated_at g).

Record PendingGraphInit := mkPending {
  pg_instance_id : Uuid;
  pg_operator_pubkey : string;
  pg_graph_id : Uuid;
  pg_updated_at : Z;
  pg_created_at : Z;
}.

#[export] Instance eta_PendingGraphInit : Eta PendingGraphInit := λ r,
  mkPending (pg_instance_id r) (pg_operator_pubkey r) (pg_graph_id r) (pg_updated_at r)
    (pg_created_at r).

Record PeginInstanceProcessData := mkInstanceProcess {
  ip_instance_id : Uuid;
  ip_process_data : string;
  ip_updated_at : Z;
  ip_created_at : Z;
}.

Record PeginGraphProcessData := mkGraphProcess {
  gp_graph_id : Uuid;
  gp_instance_id : Uuid;
  gp_process_data : string;
  gp_is_endorsed : bool;
  gp_updated_at : Z;
  gp_created_at : Z;
}.

#[export] Instance eta_PeginInstanceProcessData : Eta PeginInstanceProcessData := λ r,
  mkInstanceProcess (ip_instance_id r) (ip_process_data r) (ip_updated_at r) (ip_created_at r).
#[export] Instance eta_PeginGraphProcessData : Eta PeginGraphProcessData := λ r,
  mkGraphProcess (gp_graph_id r) (gp_instance_id r) (gp_process_data r) (gp_is_endorsed r)
    (gp_updated_at r) (gp_created_at r).

Record GraphRawData := mkRawData {
  rd_graph_id : Uuid;
  rd_raw_data : string;
  rd_created_at : Z;
  rd_updated_at : Z;
}.

#[export] Instance eta_GraphRawData : Eta GraphRawData := λ r,
  mkRawData (rd_graph_id r) (rd_raw_data r) (rd_created_at r) (rd_updated_at r).

(** The tables of the two aggregates, in rowid order. *)
Record NodeTables := mkTables {
  t_instance : list Instance_;
  t_graph : list Graph;
  t_pending_graph_init : list PendingGraphInit;
  t_pegin_instance_process_data : list PeginInstanceProcessData;
  t_pegin_graph_process_data : list PeginGraphProcessData;
  t_graph_raw_data : list GraphRawData;
}.

#[export] Instance eta_NodeTables : Eta NodeTables := λ t,
  mkTables (t_instance t) (t_graph t) (t_pending_graph_init t) (t_pegin_instance_process_data t)
    (t_pegin_graph_process_data t) (t_graph_raw_data t).

(** The primary keys, [idx_graph_operator_slot] and the unique [graph_id] of a setup
    session. *)
Record tables_ok (t : NodeTables) : Prop := {
  to_instance : NoDup (map it_instance_id (t_instance t));
  to_graph : NoDup (map gr_graph_id (t_graph t));
  to_slot : NoDup (map (λ g, (gr_operator_pubkey g, gr_kickoff_index g)) (t_graph t));
  to_pending : NoDup (map (λ p, (pg_instance_id p, pg_operator_pubkey p)) (t_pending_graph_init t));
  to_pending_graph : NoDup (map pg_graph_id (t_pending_graph_init t));
  to_instance_process : NoDup (map ip_instance_id (t_pegin_instance_process_data t));
  to_graph_process : NoDup (map gp_graph_id (t_pegin_graph_process_data t));
  to_raw_data : NoDup (map rd_graph_id (t_graph_raw_data t));
}.

(** ** Lemmas *)

Lemma instance_status_of_str s : instance_status_of (instance_status_str s) = Some s.
Proof. by destruct s. Qed.

Lemma graph_status_of_str s : graph_status_of (graph_status_str s) = Some s.
Proof. by destruct s. Qed.

Lemma instance_status_of_Some str s : instance_status_of str = Some s ↔ instance_status_str s = str.
Proof.
  split; [|intros <-; apply instance_status_of_str].
  intros [_ H]%find_some_elem. by brefl.
Qed.

Lemma graph_status_of_Some str s : graph_status_of str = Some s ↔ graph_status_str s = str.
Proof.
  split; [|intros <-; apply graph_status_of_str].
  intros [_ H]%find_some_elem. by brefl.
Qed.

Lemma instance_status_str_inj s s' : instance_status_str s = instance_status_str s' → s = s'.
Proof. intros E. generalize (instance_status_of_str s). rewrite E, instance_status_of_str. congruence. Qed.

Lemma graph_status_str_inj s s' : graph_status_str s = graph_status_str s' → s = s'.
Proof. intros E. generalize (graph_status_of_str s). rewrite E, graph_status_of_str. congruence. Qed.

(** No evidence leads out of a closed status, and none from a status to itself. *)
Lemma allowed_not_closed target source s :
  s ∈ allowed_transition_from target source → is_closed s = false.
Proof.
  destruct source, target; cbn; intros H; repeat (apply elem_of_cons in H as [->|H]; [done|]);
    by apply not_elem_of_nil in H.
Qed.
