(* ===== verification/LocalDb.v ===== *)
(** * Statements on instances and graphs

    What the aggregates and the event watchers ask the store for: the rows of an
    instance and of a graph, conditional updates of both, the setup sessions of an
    operator and the definitions of its graphs.

    Source: crates/store/src/localdb/instance.rs, crates/store/src/localdb/graph.rs,
    node/src/utils/graph_store.rs. *)

From stdpp Require Import base list strings pretty.
From S2P Require Import Prelude Table Storage EngineSchema NodeSchema.

Local Open Scope Z_scope.

(** A statement that a uniqueness constraint can refuse. *)
Definition stmt_constrained {S A} (f : S → option (A * S)) : ST S A := λ s e,
  let '(b, e') := next_fault e in
  if b then (Err storage_error, s, e')
  else match f s with
       | Some (a, s') => (Ok a, s', e')
       | None => (Err ["UNIQUE constraint failed"%string], s, e')
       end.

(** ** Instances *)

Definition instance_is (id : Uuid) (r : Instance_) : bool := bool_decide (it_instance_id r = id).

Record InstanceUpdate := mkInstanceUpdate {
  iu_instance_id : Uuid;
  iu_from_addr : option string;
  iu_to_addr : option string;
  iu_btc_txid : option Txid;
  iu_status : option string;
  iu_pegin_confirm_txid : option Txid;
  iu_pegin_cancel_txid : option Txid;
  iu_post_pegin_txhash : option string;
  iu_btc_height : option Z;
  iu_committees_answers : option (IndexMap bytes);
  iu_key_deleted : option bool;
  iu_only_if_status_in : option (list string);
}.

#[export] Instance eta_InstanceUpdate : Eta InstanceUpdate := λ u,
  mkInstanceUpdate (iu_instance_id u) (iu_from_addr u) (iu_to_addr u) (iu_btc_txid u) (iu_status u)
    (iu_pegin_confirm_txid u) (iu_pegin_cancel_txid u) (iu_post_pegin_txhash u) (iu_btc_height u)
    (iu_committees_answers u) (iu_key_deleted u) (iu_only_if_status_in u).

Definition new_with_instance_id (id : Uuid) : InstanceUpdate :=
  mkInstanceUpdate id None None None None None None None None None None None.

Definition has_updates (u : InstanceUpdate) : bool :=
  is_some (iu_from_addr u) || is_some (iu_to_addr u) || is_some (iu_btc_txid u) ||
  is_some (iu_status u) || is_some (iu_pegin_confirm_txid u) || is_some (iu_pegin_cancel_txid u) ||
  is_some (iu_post_pegin_txhash u) || is_some (iu_btc_height u) ||
  is_some (iu_committees_answers u) || is_some (iu_key_deleted u).

(** The SET clauses and the WHERE clause of the UPDATE. *)
Definition update_row (u : InstanceUpdate) (status_at now : Z) (r : Instance_) : Instance_ := {|
  it_instance_id := it_instance_id r;
  it_network := it_network r;
  it_from_addr := default (it_from_addr r) (iu_from_addr u);
  it_to_addr := default (it_to_addr r) (iu_to_addr u);
  it_amount := it_amount r;
  it_fees := it_fees r;
  it_input_utxos := it_input_utxos r;
  it_status := default (it_status r) (iu_status u);
  it_goat_tx_hash := it_goat_tx_hash r;
  it_goat_tx_height := it_goat_tx_height r;
  it_user_xonly_pubkey := it_user_xonly_pubkey r;
  it_user_change_addr := it_user_change_addr r;
  it_user_refund_addr := it_user_refund_addr r;
  it_btc_txid := option_union (iu_btc_txid u) (it_btc_txid r);
  it_btc_height := default (it_btc_height r) (iu_btc_height u);
  it_pegin_confirm_txid := option_union (iu_pegin_confirm_txid u) (it_pegin_confirm_txid r);
  it_pegin_cancel_txid := option_union (iu_pegin_cancel_txid u) (it_pegin_cancel_txid r);
  it_committees_answers := default (it_committees_answers r) (iu_committees_answers u);
  it_pegin_data_tx_hash := it_pegin_data_tx_hash r;
  it_parameters := it_parameters r;
  it_post_pegin_txhash := option_union (iu_post_pegin_txhash u) (it_post_pegin_txhash r);
  it_key_deleted := default (it_key_deleted r) (iu_key_deleted u);
  it_status_updated_at :=
    match iu_status u with Some _ => status_at | None => it_status_updated_at r end;
  it_created_at := it_created_at r;
  it_updated_at := now;
|}.

Definition update_applies (u : InstanceUpdate) (r : Instance_) : bool :=
  instance_is (iu_instance_id u) r &&
  match iu_only_if_status_in u with
  | Some statuses => bool_decide (it_status r ∈ statuses)
  | None => true
  end.

Definition update_instance (u : InstanceUpdate) : ST NodeTables bool :=
  if negb (has_updates u) then mret false
  else
    status_at ← match iu_status u with Some _ => clock_now | None => mret 0 end;
    now ← clock_now;
    n ← stmt (λ t, (count_where (update_applies u) (t_instance t),
                    t <| t_instance ::= update_where (update_applies u) (update_row u status_at now) |>));
    mret (0 <? n).

Definition find_instance (id : Uuid) : ST NodeTables (option Instance_) :=
  query (λ t, select_one (instance_is id) (t_instance t)).

(** [key_deleted] is not among the inserted columns. *)
Definition inserted_instance (r : Instance_) : Instance_ := r <| it_key_deleted := false |>.

Definition insert_instance_if_absent (r : Instance_) : ST NodeTables bool :=
  stmt (λ t,
    let '(inserted, rows) :=
      insert_or_ignore (instance_is (it_instance_id r)) (inserted_instance r) (t_instance t) in
    (inserted, t <| t_instance := rows |>)).

(** The columns a peg-in request owns. *)
Definition refresh_request (new r : Instance_) : Instance_ :=
  r <| it_network := it_network new |>
    <| it_from_addr := if decide (it_from_addr new = ""%string) then it_from_addr r
                       else it_from_addr new |>
    <| it_to_addr := it_to_addr new |>
    <| it_amount := it_amount new |>
    <| it_fees := it_fees new |>
    <| it_input_utxos := it_input_utxos new |>
    <| it_status := it_status new |>
    <| it_goat_tx_hash := it_goat_tx_hash new |>
    <| it_goat_tx_height := it_goat_tx_height new |>
    <| it_user_xonly_pubkey := it_user_xonly_pubkey new |>
    <| it_user_change_addr := it_user_change_addr new |>
    <| it_user_refund_addr := it_user_refund_addr new |>
    <| it_status_updated_at := it_status_updated_at new |>
    <| it_updated_at := it_updated_at new |>.

Definition upsert_pegin_request_instance (new : Instance_) : ST NodeTables bool :=
  stmt (λ t,
    if existsb (instance_is (it_instance_id new)) (t_instance t) then
      let p r := instance_is (it_instance_id new) r &&
                 bool_decide (it_status r = instance_status_str UserInited) in
      (0 <? count_where p (t_instance t), t <| t_instance ::= update_where p (refresh_request new) |>)
    else (true, t <| t_instance ::= λ rows, rows ++ [inserted_instance new] |>)).

(** [json_patch] of one answer into the stored object. *)
Definition update_instance_committee_answer (id : Uuid) (committee_addr : string) (pubkey : bytes) :
    ST NodeTables bool :=
  now ← clock_now;
  n ← stmt (λ t, (count_where (instance_is id) (t_instance t),
    t <| t_instance ::= update_where (instance_is id) (λ r,
      r <| it_committees_answers ::= im_insert committee_addr pubkey |> <| it_updated_at := now |>) |>));
  mret (0 <? n).

Definition update_instance_parameters (id : Uuid) (parameters : string) : ST NodeTables bool :=
  now ← clock_now;
  n ← stmt (λ t, (count_where (instance_is id) (t_instance t),
    t <| t_instance ::= update_where (instance_is id) (λ r,
      r <| it_parameters := Some parameters |> <| it_updated_at := now |>) |>));
  mret (0 <? n).

Definition upsert_pegin_instance_process_data (d : PeginInstanceProcessData) : ST NodeTables bool :=
  stmt (λ t,
    let p r := bool_decide (ip_instance_id r = ip_instance_id d) in
    (true,
     if existsb p (t_pegin_instance_process_data t) then
       t <| t_pegin_instance_process_data ::= update_where p (λ r,
         r <| ip_process_data := ip_process_data d |> <| ip_updated_at := ip_updated_at d |>) |>
     else t <| t_pegin_instance_process_data ::= λ rows, rows ++ [d] |>)).

Definition find_instance_process_row (id : Uuid) : ST NodeTables (option PeginInstanceProcessData) :=
  query (λ t, select_one (λ r, bool_decide (ip_instance_id r = id)) (t_pegin_instance_process_data t)).

(** ** Setup sessions *)

Definition session_of (instance_id : Uuid) (operator : string) (p : PendingGraphInit) : bool :=
  bool_decide (pg_instance_id p = instance_id) && bool_decide (pg_operator_pubkey p = operator).
Definition session_for (graph_id : Uuid) (p : PendingGraphInit) : bool :=
  bool_decide (pg_graph_id p = graph_id).

(** [ON CONFLICT(instance_id, operator_pubkey)] replaces the session's graph; a graph
    that another session holds violates the unique [graph_id]. *)
Definition upsert_pending_graph_init (instance_id : Uuid) (operator : string) (graph_id : Uuid) :
    ST NodeTables Z :=
  now ← clock_now;
  stmt_constrained (λ t,
    let p := session_of instance_id operator in
    if existsb (λ r, session_for graph_id r && negb (p r)) (t_pending_graph_init t) then None
    else Some (1,
      if existsb p (t_pending_graph_init t) then
        t <| t_pending_graph_init ::= update_where p (λ r,
          r <| pg_graph_id := graph_id |> <| pg_updated_at := now |>) |>
      else t <| t_pending_graph_init ::= λ rows,
             rows ++ [mkPending instance_id operator graph_id now now] |>)).

Definition find_pending_graph_init_by_instance_and_operator_pubkey (instance_id : Uuid)
    (operator : string) : ST NodeTables (option PendingGraphInit) :=
  query (λ t, select_one (session_of instance_id operator) (t_pending_graph_init t)).

Definition list_pending_graph_inits_by_instance (instance_id : Uuid) :
    ST NodeTables (list PendingGraphInit) :=
  query (λ t, select_where (λ p, bool_decide (pg_instance_id p = instance_id)) (t_pending_graph_init t)).

(** [ORDER BY created_at ASC, graph_id ASC]. *)
Definition session_leb (a b : PendingGraphInit) : bool :=
  (pg_created_at a <? pg_created_at b) ||
  ((pg_created_at a =? pg_created_at b) && (pg_graph_id a <=? pg_graph_id b)%N).

Definition list_pending_graph_inits_by_operator (operator : string) :
    ST NodeTables (list PendingGraphInit) :=
  query (λ t, order_by session_leb
    (select_where (λ p, bool_decide (pg_operator_pubkey p = operator)) (t_pending_graph_init t))).

Definition find_pending_graph_init_by_graph_id (graph_id : Uuid) :
    ST NodeTables (option PendingGraphInit) :=
  query (λ t, select_one (session_for graph_id) (t_pending_graph_init t)).

Definition delete_pending_graph_init (instance_id : Uuid) (operator : string) : ST NodeTables Z :=
  stmt (λ t, (count_where (session_of instance_id operator) (t_pending_graph_init t),
              t <| t_pending_graph_init ::= delete_where (session_of instance_id operator) |>)).

(** ** Graphs *)

Definition graph_is (id : Uuid) (g : Graph) : bool := bool_decide (gr_graph_id g = id).
Definition graph_in (instance_id graph_id : Uuid) (g : Graph) : bool :=
  graph_is graph_id g && bool_decide (gr_instance_id g = instance_id).
Definition in_slot (operator : string) (slot : Z) (g : Graph) : bool :=
  bool_decide (gr_operator_pubkey g = operator) && (gr_kickoff_index g =? slot).

Definition find_graph (id : Uuid) : ST NodeTables (option Graph) :=
  query (λ t, select_one (graph_is id) (t_graph t)).

Definition find_graph_by_operator_slot (operator : string) (slot : Z) :
    ST NodeTables (option Graph) :=
  query (λ t, select_one (in_slot operator slot) (t_graph t)).

Definition get_graphs_by_instance_id (id : Uuid) : ST NodeTables (list Graph) :=
  query (λ t, select_where (λ g, bool_decide (gr_instance_id g = id)) (t_graph t)).

(** [get_operator_graphs] with [ORDER BY kickoff_index DESC LIMIT 1]. *)
Definition latest_operator_graph (operator : string) : ST NodeTables (option Graph) :=
  query (λ t, last (limit 1 (order_by (λ a b, gr_kickoff_index b <=? gr_kickoff_index a)
    (select_where (λ g, bool_decide (gr_operator_pubkey g = operator)) (t_graph t))))).

(** The row a definition inserts. *)
Definition definition_row (g : Graph) : Graph :=
  g <| gr_status := graph_status_str OperatorPresigned |> <| gr_sub_status := ""%string |>
    <| gr_challenge_txid := None |> <| gr_init_withdraw_tx_hash := None |>
    <| gr_bridge_out_start_at := 0 |> <| gr_proceed_withdraw_height := 0 |>.

(** What a compatible replay may fill in. *)
Definition fill_addresses (new g : Graph) : Graph :=
  let fill (old new : string) :=
    if bool_decide (old = ""%string) && negb (bool_decide (new = ""%string)) then new else old in
  g <| gr_from_addr := fill (gr_from_addr g) (gr_from_addr new) |>
    <| gr_to_addr := fill (gr_to_addr g) (gr_to_addr new) |>.

Definition same_definition (new g : Graph) : bool :=
  graph_is (gr_graph_id new) g && bool_decide (gr_definition_hash g = gr_definition_hash new) &&
  bool_decide (gr_instance_id g = gr_instance_id new).

(** The INSERT .. ON CONFLICT(graph_id) DO UPDATE; [idx_graph_operator_slot] refuses
    a second graph in a slot. *)
Definition insert_definition (g : Graph) (t : NodeTables) : option (Z * NodeTables) :=
  if existsb (graph_is (gr_graph_id g)) (t_graph t) then
    Some (count_where (same_definition g) (t_graph t),
          t <| t_graph ::= update_where (same_definition g) (fill_addresses g) |>)
  else if existsb (in_slot (gr_operator_pubkey g) (gr_kickoff_index g)) (t_graph t) then None
  else Some (1, t <| t_graph ::= λ rows, rows ++ [definition_row g] |>).

Definition baseline (g : Graph) : bool :=
  bool_decide (gr_status g = graph_status_str OperatorPresigned) &&
  bool_decide (gr_sub_status g = ""%string) &&
  negb (is_some (gr_challenge_txid g)) && negb (is_some (gr_init_withdraw_tx_hash g)) &&
  (gr_bridge_out_start_at g =? 0) && (gr_proceed_withdraw_height g =? 0).

Definition upsert_graph_definition `{UuidText} (g : Graph) : ST NodeTables Z :=
  let id := uuid_to_string (gr_graph_id g) in
  if bool_decide (gr_definition_hash g = ""%string) then
    st_fail ["graph " +:+ id +:+ " is missing its definition hash"]
  else if negb (baseline g) then
    st_fail ["graph " +:+ id +:+
             " definition writes must use the OperatorPresigned baseline without runtime data"]
  else
    n ← stmt_constrained (insert_definition g);
    if n =? 0 then
      existing ← find_graph (gr_graph_id g);
      match existing with
      | None => st_fail ["graph " +:+ id +:+ " disappeared while storing its definition"]
      | Some old =>
          if negb (bool_decide (gr_definition_hash old = gr_definition_hash g)) then
            st_fail ["conflicting graph definition for graph_id " +:+ id +:+ ": existing=" +:+
                     gr_definition_hash old +:+ ", incoming=" +:+ gr_definition_hash g]
          else if negb (bool_decide (gr_instance_id old = gr_instance_id g)) then
            st_fail ["graph definition instance mismatch for graph_id " +:+ id +:+ ": existing=" +:+
                     uuid_to_string (gr_instance_id old) +:+ ", incoming=" +:+
                     uuid_to_string (gr_instance_id g)]
          else mret n
      end
    else mret n.

Record GraphRuntimeUpdate := mkRuntimeUpdate {
  ru_instance_id : Uuid;
  ru_graph_id : Uuid;
  ru_challenge_txid : option Txid;
  ru_bridge_out_start_at : option Z;
  ru_init_withdraw_tx_hash : option string;
  ru_proceed_withdraw_height : option Z;
}.

Definition runtime_has_updates (u : GraphRuntimeUpdate) : bool :=
  is_some (ru_challenge_txid u) || is_some (ru_bridge_out_start_at u) ||
  is_some (ru_init_withdraw_tx_hash u) || is_some (ru_proceed_withdraw_height u).

(** The SET clauses; an empty withdraw hash clears the column. *)
Definition runtime_row (u : GraphRuntimeUpdate) (now : Z) (g : Graph) : Graph :=
  g <| gr_challenge_txid ::= option_union (ru_challenge_txid u) |>
    <| gr_bridge_out_start_at ::= λ z, default z (ru_bridge_out_start_at u) |>
    <| gr_proceed_withdraw_height ::= λ z, default z (ru_proceed_withdraw_height u) |>
    <| gr_init_withdraw_tx_hash ::= λ h,
         match ru_init_withdraw_tx_hash u with
         | None => h
         | Some s => if decide (s = ""%string) then None else Some s
         end |>
    <| gr_updated_at := now |>.

Definition update_graph_runtime (u : GraphRuntimeUpdate) : ST NodeTables bool :=
  if negb (runtime_has_updates u) then mret false
  else
    now ← clock_now;
    let p := graph_in (ru_instance_id u) (ru_graph_id u) in
    n ← stmt (λ t, (count_where p (t_graph t), t <| t_graph ::= update_where p (runtime_row u now) |>));
    mret (0 <? n).

(** ** Status transitions *)

Definition graph_status_transition_outcome `{UuidText} (instance_id graph_id : Uuid)
    (target : GraphStatus) : ST NodeTables GraphStatusTransitionOutcome :=
  current_graph ← find_graph graph_id;
  match current_graph with
  | None => mret NotFound
  | Some g =>
      if negb (bool_decide (gr_instance_id g = instance_id)) then mret NotFound
      else match graph_status_of (gr_status g) with
           | None => st_fail ["graph " +:+ uuid_to_string graph_id +:+
                              " has invalid persisted status " +:+ gr_status g]
           | Some current =>
               mret (if decide (current = target) then AlreadyCurrent else TransitionRejected current)
           end
  end.

(** The conditional UPDATE and the optional write of the sub-status. *)
Definition move_status (target : GraphStatus) (sub_status : option string) (now : Z) (g : Graph) :
    Graph :=
  g <| gr_status := graph_status_str target |>
    <| gr_sub_status ::= λ s, default s sub_status |>
    <| gr_status_updated_at := now |> <| gr_updated_at := now |>.

Definition transition_graph_status `{UuidText} (instance_id graph_id : Uuid) (target : GraphStatus)
    (source : GraphStatusSource) (sub_status : option string) :
    ST NodeTables GraphStatusTransitionOutcome :=
  if negb (is_protocol_status target) then
    st_fail ["frontend-only graph status " +:+ graph_status_str target +:+ " cannot be persisted"]
  else
    match allowed_transition_from target source with
    | [] => graph_status_transition_outcome instance_id graph_id target
    | allowed_from =>
        now ← clock_now;
        let p g := graph_in instance_id graph_id g &&
                   bool_decide (gr_status g ∈ map graph_status_str allowed_from) in
        n ← stmt (λ t, (count_where p (t_graph t),
                        t <| t_graph ::= update_where p (move_status target sub_status now) |>));
        if 0 <? n then mret TransitionApplied
        else
          outcome ← graph_status_transition_outcome instance_id graph_id target;
          match outcome, sub_status with
          | AlreadyCurrent, Some sub =>
              now ← clock_now;
              let q g := graph_in instance_id graph_id g &&
                         bool_decide (gr_status g = graph_status_str target) in
              n ← stmt (λ t, (count_where q (t_graph t),
                t <| t_graph ::= update_where q (λ g,
                  g <| gr_sub_status := sub |> <| gr_updated_at := now |>) |>));
              if 0 <? n then mret AlreadyCurrent
              else graph_status_transition_outcome instance_id graph_id target
          | _, _ => mret outcome
          end
    end.

(** [obsolete_graph] and [obsolete_instance_graphs_except]. *)
Definition obsolete_graph `{UuidText} (instance_id graph_id : Uuid) : ST NodeTables bool :=
  outcome ← transition_graph_status instance_id graph_id Obsoleted ChainReconcile None;
  mret (match outcome with TransitionApplied | AlreadyCurrent => true | _ => false end).

Fixpoint obsolete_graphs `{UuidText} (instance_id : Uuid) (retained : option Uuid)
    (graphs : list Graph) : ST NodeTables (list Uuid) :=
  match graphs with
  | [] => mret []
  | g :: graphs =>
      obsoleted ← (if bool_decide (Some (gr_graph_id g) = retained) then mret false
                   else obsolete_graph instance_id (gr_graph_id g));
      rest ← obsolete_graphs instance_id retained graphs;
      mret (if obsoleted : bool then gr_graph_id g :: rest else rest)
  end.

Definition obsolete_instance_graphs_except `{UuidText} (instance_id : Uuid)
    (retained : option Uuid) : ST NodeTables (list Uuid) :=
  graphs ← get_graphs_by_instance_id instance_id;
  obsolete_graphs instance_id retained graphs.

(** ** Process data and raw definitions *)

Definition upsert_pegin_graph_process_data (d : PeginGraphProcessData) : ST NodeTables bool :=
  stmt (λ t,
    let p r := bool_decide (gp_graph_id r = gp_graph_id d) in
    (true,
     if existsb p (t_pegin_graph_process_data t) then
       t <| t_pegin_graph_process_data ::= update_where p (λ r,
         r <| gp_process_data := gp_process_data d |> <| gp_instance_id := gp_instance_id d |>
           <| gp_is_endorsed := gp_is_endorsed d |> <| gp_updated_at := gp_updated_at d |>) |>
     else t <| t_pegin_graph_process_data ::= λ rows, rows ++ [d] |>)).

Definition get_pegin_graph_endorsed_len_by_instance_id (instance_id : Uuid) (is_endorsed : bool) :
    ST NodeTables Z :=
  query (λ t, count_where (λ r, bool_decide (gp_instance_id r = instance_id) &&
                                 Bool.eqb (gp_is_endorsed r) is_endorsed)
                (t_pegin_graph_process_data t)).

Definition upsert_graph_raw_data `{UuidText} (instance_id : Uuid) (raw : GraphRawData)
    (definition_hash : string) : ST NodeTables Z :=
  let id := uuid_to_string (rd_graph_id raw) in
  if bool_decide (definition_hash = ""%string) then
    st_fail ["graph " +:+ id +:+ " raw definition is missing its canonical definition hash"]
  else
    found ← find_graph (rd_graph_id raw);
    match found with
    | None => st_fail ["cannot store raw definition for missing graph " +:+ id]
    | Some g =>
        if negb (bool_decide (gr_instance_id g = instance_id)) then
          st_fail ["raw definition instance does not match graph " +:+ id +:+ ": stored=" +:+
                   uuid_to_string (gr_instance_id g) +:+ ", incoming=" +:+ uuid_to_string instance_id]
        else if negb (bool_decide (gr_definition_hash g = definition_hash)) then
          st_fail ["raw definition hash does not match graph " +:+ id +:+ ": stored=" +:+
                   gr_definition_hash g +:+ ", incoming=" +:+ definition_hash]
        else
          stmt (λ t,
            let p r := bool_decide (rd_graph_id r = rd_graph_id raw) in
            (1,
             if existsb p (t_graph_raw_data t) then
               t <| t_graph_raw_data ::= update_where p (λ r,
                 r <| rd_raw_data := rd_raw_data raw |> <| rd_updated_at := rd_updated_at raw |>) |>
             else t <| t_graph_raw_data ::= λ rows, rows ++ [raw] |>))
    end.
