(* ===== verification/NodeNext.v ===== *)
(** * How the node's rows may change

    Every statement on the node's tables is a step of [node_next]: no instance and
    no graph disappears, the definition of a graph never changes, a graph's status
    moves along the transitions its evidence allows, an instance's status only
    advances, and a deleted key stays deleted.

    Source: crates/store/src/localdb/instance.rs, crates/store/src/localdb/graph.rs,
    crates/store/src/schema.rs. *)

From stdpp Require Import base list strings relations.
From S2P Require Import Prelude Table Storage EngineSchema EngineNext NodeSchema LocalDb.

Local Open Scope Z_scope.

(** ** The order of instance statuses

    The six live statuses in protocol order; the committee's answers, the user's
    Prepare and the pre-signing can end in failure, a confirmed Peg-In-Confirm no
    longer; of the failures only an abandoned instance can still be cancelled. *)

Definition live_rank (s : InstanceBridgeInStatus) : option nat :=
  match s with
  | UserInited => Some 0%nat
  | CommitteesAnswered => Some 1%nat
  | UserBroadcastPeginPrepare => Some 2%nat
  | Presigned => Some 3%nat
  | RelayerL1Broadcasted => Some 4%nat
  | RelayerL2Minted => Some 5%nat
  | _ => None
  end.

Definition advances (s s' : InstanceBridgeInStatus) : bool :=
  match live_rank s, live_rank s' with
  | Some n, Some n' => (n <? n')%nat
  | Some n, None => (n <? 4)%nat
  | None, None => bool_decide (s = Timeout ∧ s' = UserCanceled)
  | None, Some _ => false
  end.

(** The failures are the statuses without a rank. *)
Lemma is_failed_rank s : is_failed s = negb (is_some (live_rank s)).
Proof. by destruct s. Qed.

Lemma advances_irrefl s : advances s s = false.
Proof. by destruct s. Qed.

Lemma advances_trans a b c : advances a b = true → advances b c = true → advances a c = true.
Proof. by destruct a, b, c. Qed.

(** No status is reached twice, nothing follows success, and only a cancellation
    follows a failure. *)
Lemma advances_from_failed s s' :
  is_failed s = true → advances s s' = true → s = Timeout ∧ s' = UserCanceled.
Proof. by destruct s, s'. Qed.

Lemma advances_from_minted s : advances RelayerL2Minted s = false.
Proof. by destruct s. Qed.

(** ** Rows *)

Definition instance_status_next (a b : string) : Prop :=
  a = b ∨ ∃ s s', a = instance_status_str s ∧ b = instance_status_str s' ∧ advances s s' = true.

#[export] Instance instance_status_next_preorder : PreOrder instance_status_next.
Proof.
  split; [by left|]. intros a b c [->|(s & s' & -> & -> & H1)]; [done|].
  intros [<-|(t & t' & E & -> & H2)]; right.
  - by exists s, s'.
  - apply instance_status_str_inj in E as <-. exists s, t'. split_and!; [done..|].
    by eapply advances_trans.
Qed.

Record instance_next (r r' : Instance_) : Prop := {
  ix_identity : (it_instance_id r', it_created_at r') = (it_instance_id r, it_created_at r);
  ix_status : instance_status_next (it_status r) (it_status r');
  ix_key : it_key_deleted r = true → it_key_deleted r' = true;
}.

#[export] Instance instance_next_preorder : PreOrder instance_next.
Proof.
  split; [by split|]. intros a b c [I1 S1 K1] [I2 S2 K2]. split; [congruence|by etrans|auto].
Qed.

(** One transition of a graph's status, whatever its evidence. *)
Definition graph_edge (a b : string) : Prop :=
  ∃ s s' source, a = graph_status_str s ∧ b = graph_status_str s' ∧
    s ∈ allowed_transition_from s' source.

(** The columns of a graph's definition. *)
Definition definition_of (g : Graph) :=
  ((gr_graph_id g, gr_instance_id g, gr_kickoff_index g, gr_operator_pubkey g, gr_amount g,
    gr_challenge_amount g, gr_definition_hash g),
   (gr_next_prekickoff g, gr_cur_prekickoff_txid g, gr_force_skip_kickoff_txid g,
    gr_quick_challenge_txid g, gr_challenge_incomplete_kickoff_txid g, gr_pegin_txid g,
    gr_kickoff_txid g, gr_take1_txid g, gr_take2_txid g),
   (gr_watchtower_challenge_init_txid g, gr_operator_assert_txid g, gr_verifier_assert_txids g,
    gr_disprove_txids g, gr_watchtower_challenge_timeout_txids g,
    gr_operator_challenge_nack_txids g, gr_operator_commit_timeout_txid g)).

Record graph_next (g g' : Graph) : Prop := {
  gx_definition : definition_of g' = definition_of g;
  gx_status : rtc graph_edge (gr_status g) (gr_status g');
}.

#[export] Instance graph_next_preorder : PreOrder graph_next.
Proof.
  split; [by split|]. intros a b c [D1 S1] [D2 S2]. split; [congruence|by etrans].
Qed.

(** A graph that was taken, disproved or skipped stays so. *)
Lemma closed_no_edge s b : is_closed s = true → ¬ graph_edge (graph_status_str s) b.
Proof.
  intros Hc (s1 & s' & source & E & _ & Ha). apply graph_status_str_inj in E as <-.
  apply allowed_not_closed in Ha. congruence.
Qed.

Lemma closed_stays s b :
  is_closed s = true → rtc graph_edge (graph_status_str s) b → b = graph_status_str s.
Proof. intros Hc H. inversion H as [|? y ? H1]; subst; [done|]. by apply closed_no_edge in H1. Qed.

(** Statuses that parse. *)
Definition instance_typed (r : Instance_) : Prop := is_Some (instance_status_of (it_status r)).
Definition graph_typed (g : Graph) : Prop := is_Some (graph_status_of (gr_status g)).

Lemma instance_next_typed r r' : instance_next r r' → instance_typed r → instance_typed r'.
Proof.
  unfold instance_typed. intros [_ [E|(s & s' & _ & E & _)] _]; [by rewrite E|].
  rewrite E, instance_status_of_str. eauto.
Qed.

Lemma graph_next_typed g g' : graph_next g g' → graph_typed g → graph_typed g'.
Proof.
  unfold graph_typed. intros [_ H]. induction H as [|x y z (s & s' & src & _ & -> & _) _ IH]; [done|].
  intros _. apply IH. rewrite graph_status_of_str. eauto.
Qed.

(** ** The tables *)

Record tables_step (t t' : NodeTables) : Prop := {
  ts_ok : tables_ok t';
  ts_instance : evolves it_instance_id instance_next instance_typed (t_instance t) (t_instance t');
  ts_graph : evolves gr_graph_id graph_next graph_typed (t_graph t) (t_graph t');
}.

Definition node_next (t t' : NodeTables) : Prop := tables_ok t → tables_step t t'.

#[export] Instance instance_evolves_preorder :
  PreOrder (evolves it_instance_id instance_next instance_typed).
Proof. apply evolves_preorder; [apply _|]. intros r r' H HR. by eapply instance_next_typed. Qed.
#[export] Instance graph_evolves_preorder : PreOrder (evolves gr_graph_id graph_next graph_typed).
Proof. apply evolves_preorder; [apply _|]. intros r r' H HR. by eapply graph_next_typed. Qed.

#[export] Instance node_next_preorder : PreOrder node_next.
Proof.
  split; [intros t H; by split|]. intros a b c H1 H2 Ha. destruct (H1 Ha) as [Hb I1 G1].
  destruct (H2 Hb) as [Hc I2 G2]. split; [done|by etrans|by etrans].
Qed.

(** A row before has its successor after. *)
Lemma evolves_find {A K} (key : A → K) (R : A → A → Prop) (new : A → Prop) t t' r :
  evolves key R new t t' → NoDup (map key t) → r ∈ t → ∃ r', r' ∈ t' ∧ key r' = key r ∧ R r r'.
Proof.
  intros He Hn Hr. pose proof (evolves_keys _ _ _ _ _ He r Hr) as (r' & Hr' & Hk)%In_map_iff.
  exists r'. split_and!; [done..|]. by eapply evolves_same_key.
Qed.

(** Every row's status parses. *)
Record tables_typed (t : NodeTables) : Prop := {
  tt_instance : ∀ r, r ∈ t_instance t → instance_typed r;
  tt_graph : ∀ g, g ∈ t_graph t → graph_typed g;
}.

Lemma node_next_typed t t' : tables_ok t → node_next t t' → tables_typed t → tables_typed t'.
Proof.
  intros Hok Hn [Hi Hg]. destruct (Hn Hok) as [_ Ei Eg]. split.
  - eapply evolves_invariant; [|exact Ei|done]. intros r r'. apply instance_next_typed.
  - eapply evolves_invariant; [|exact Eg|done]. intros r r'. apply graph_next_typed.
Qed.

(** ** Statements as steps *)

(** What the schema's constraints and [node_next] say of a statement on one table. *)
Lemma step_instance t f :
  evolves it_instance_id instance_next instance_typed (t_instance t) (f (t_instance t)) →
  node_next t (t <| t_instance ::= f |>).
Proof.
  intros He [H1 H2 H3 H4 H5 H6 H7 H8]. split; cbn; [|done|reflexivity].
  split; cbn; try done. by apply (evolves_nodup _ _ _ _ _ He).
Qed.

Lemma step_graph t f :
  evolves gr_graph_id graph_next graph_typed (t_graph t) (f (t_graph t)) →
  (NoDup (map (λ g, (gr_operator_pubkey g, gr_kickoff_index g)) (t_graph t)) →
   NoDup (map (λ g, (gr_operator_pubkey g, gr_kickoff_index g)) (f (t_graph t)))) →
  node_next t (t <| t_graph ::= f |>).
Proof.
  intros He Hs [H1 H2 H3 H4 H5 H6 H7 H8]. split; cbn; [|reflexivity|done].
  split; cbn; try done; [by apply (evolves_nodup _ _ _ _ _ He)|auto].
Qed.

Lemma step_update_instance p f t :
  (∀ r, p r = true → instance_next r (f r)) → node_next t (t <| t_instance ::= update_where p f |>).
Proof.
  intros H. apply step_instance, evolves_update_where; [apply _|].
  intros r _ Hp. specialize (H r Hp). split; [|done]. destruct H as [I _ _]. congruence.
Qed.

Lemma step_update_graph p f t :
  (∀ g, p g = true → graph_next g (f g)) → node_next t (t <| t_graph ::= update_where p f |>).
Proof.
  intros H. assert (Hd : ∀ g, p g = true → definition_of (f g) = definition_of g).
  { intros g Hg. apply (H g Hg). }
  apply step_graph.
  - apply evolves_update_where; [apply _|]. intros g _ Hg. specialize (Hd g Hg).
    unfold definition_of in Hd. split; [congruence|auto].
  - rewrite map_update_where; [done|]. intros g Hg. specialize (Hd g Hg).
    unfold definition_of in Hd. congruence.
Qed.

Lemma definition_row_next g :
  gr_status g = graph_status_str OperatorPresigned → graph_next g (definition_row g).
Proof. intros E. split; cbn; [done|]. by rewrite E. Qed.

Lemma step_insert_instance r t :
  instance_typed r → existsb (instance_is (it_instance_id r)) (t_instance t) = false →
  node_next t (t <| t_instance ::= λ rows, rows ++ [r] |>).
Proof.
  intros Hr Hf. apply step_instance.
  pose proof (evolves_insert_or_ignore it_instance_id instance_next instance_typed
    (instance_is (it_instance_id r)) r (t_instance t)) as He.
  unfold insert_or_ignore in He. rewrite Hf in He. apply He; [done|].
  intros x _ E. unfold instance_is. by rewrite bool_decide_eq_true_2.
Qed.

Lemma step_insert_graph g t :
  graph_typed g → existsb (graph_is (gr_graph_id g)) (t_graph t) = false →
  existsb (in_slot (gr_operator_pubkey g) (gr_kickoff_index g)) (t_graph t) = false →
  node_next t (t <| t_graph ::= λ rows, rows ++ [g] |>).
Proof.
  intros Hg Hid Hslot. apply step_graph.
  - pose proof (evolves_insert_or_ignore gr_graph_id graph_next graph_typed
      (graph_is (gr_graph_id g)) g (t_graph t)) as He.
    unfold insert_or_ignore in He. rewrite Hid in He. apply He; [done|].
    intros x _ E. unfold graph_is. by rewrite bool_decide_eq_true_2.
  - intros Hn. rewrite map_app. apply NoDup_app. split_and!; [done| |apply NoDup_singleton].
    intros k (x & Hx & ->)%In_map_iff E%list_elem_of_singleton. injection E as E1 E2.
    rewrite existsb_none in Hslot. specialize (Hslot x Hx). unfold in_slot in Hslot.
    rewrite E1, E2, bool_decide_eq_true_2, Z.eqb_refl in Hslot; done.
Qed.

(** A statement on the other tables. *)
Lemma step_other t t' :
  t_instance t' = t_instance t → t_graph t' = t_graph t → (tables_ok t → tables_ok t') → node_next t t'.
Proof. intros Ei Eg Hok H. split; [auto|by rewrite Ei|by rewrite Eg]. Qed.

(** ** Programs *)

Lemma guarantee_constrained {S A} (Rel : S → S → Prop) `{!PreOrder Rel} (f : S → option (A * S)) :
  (∀ s a s', f s = Some (a, s') → Rel s s') → guarantee Rel (stmt_constrained f).
Proof.
  intros Hf s e. unfold stmt_constrained. destruct (next_fault e) as [[] e']; cbn; [reflexivity|].
  destruct (f s) as [[a s']|] eqn:E; cbn; [by eapply Hf|reflexivity].
Qed.

(** An update is along the status order. *)
Definition update_advances (u : InstanceUpdate) : Prop :=
  (∀ next, iu_status u = Some next →
     ∃ s s', iu_only_if_status_in u = Some [instance_status_str s] ∧
       next = instance_status_str s' ∧ advances s s' = true) ∧
  iu_key_deleted u ≠ Some false.

Lemma update_row_next u status_at now r :
  update_advances u → update_applies u r = true → instance_next r (update_row u status_at now r).
Proof.
  intros [Hs Hk] Hp. unfold update_applies in Hp. split; cbn; [done| |].
  - destruct (iu_status u) as [next|] eqn:E; cbn; [|by left].
    destruct (Hs next eq_refl) as (s & s' & Eo & -> & Ha). rewrite Eo in Hp. brefl.
    apply list_elem_of_singleton in H0. right. by exists s, s'.
  - destruct (iu_key_deleted u) as [[]|]; cbn; congruence.
Qed.

Lemma update_instance_next u : update_advances u → guarantee node_next (update_instance u).
Proof.
  intros Hu. unfold update_instance. guar;
    (apply guarantee_stmt; [apply _|]; intros t; cbn; apply step_update_instance;
     intros r Hr; by apply update_row_next).
Qed.

Lemma insert_instance_if_absent_next r :
  instance_typed r → guarantee node_next (insert_instance_if_absent r).
Proof.
  intros Hr. apply guarantee_stmt; [apply _|]. intros t. unfold insert_or_ignore.
  destruct (existsb _ _) eqn:E; cbn; [destruct t; reflexivity|].
  by apply (step_insert_instance (inserted_instance r)).
Qed.

Lemma update_instance_parameters_next id s : guarantee node_next (update_instance_parameters id s).
Proof.
  unfold update_instance_parameters. guar. apply guarantee_stmt; [apply _|]. intros t. cbn.
  apply step_update_instance. intros r _. by split; [|left|].
Qed.

Lemma update_instance_committee_answer_next id addr key :
  guarantee node_next (update_instance_committee_answer id addr key).
Proof.
  unfold update_instance_committee_answer. guar. apply guarantee_stmt; [apply _|]. intros t. cbn.
  apply step_update_instance. intros r _. by split; [|left|].
Qed.

(** A request refreshes only a row that still waits for its answers. *)
Lemma upsert_pegin_request_next r :
  it_status r = instance_status_str UserInited → guarantee node_next (upsert_pegin_request_instance r).
Proof.
  intros Hr. apply guarantee_stmt; [apply _|]. intros t. cbn beta.
  destruct (existsb _ _) eqn:E; cbn [snd].
  - apply step_update_instance. intros x Hx. brefl. split; cbn; [done|left; congruence|done].
  - apply (step_insert_instance (inserted_instance r)); [|done].
    unfold instance_typed. cbn [it_status inserted_instance over]. rewrite Hr. by eexists.
Qed.

Lemma update_graph_runtime_next u : guarantee node_next (update_graph_runtime u).
Proof.
  unfold update_graph_runtime. guar. apply guarantee_stmt; [apply _|]. intros t. cbn.
  apply step_update_graph. intros g _. by split.
Qed.

Lemma move_status_next target source sub now g :
  gr_status g ∈ map graph_status_str (allowed_transition_from target source) →
  graph_next g (move_status target sub now g).
Proof.
  intros (s & Hs & E)%In_map_iff. split; [done|]. cbn. apply rtc_once. by exists s, target, source.
Qed.

Section Graphs.
Context `{UuidText}.

Lemma transition_outcome_next i g target :
  guarantee node_next (graph_status_transition_outcome i g target).
Proof. unfold graph_status_transition_outcome, find_graph. guar. Qed.

Lemma transition_graph_status_next i g target source sub :
  guarantee node_next (transition_graph_status i g target source sub).
Proof.
  unfold transition_graph_status. destruct (negb _); [guar|].
  destruct (allowed_transition_from target source) as [|s allowed] eqn:E;
    [apply transition_outcome_next|]. rewrite <- E. clear E.
  guar; try apply transition_outcome_next; apply guarantee_stmt; try apply _; intros t; cbn;
    apply step_update_graph; intros x Hx; brefl; [by eapply move_status_next|by split].
Qed.

Lemma obsolete_graphs_next i retained gs : guarantee node_next (obsolete_graphs i retained gs).
Proof.
  induction gs as [|g gs IH]; cbn [obsolete_graphs]; [guar|]. unfold obsolete_graph.
  guar; apply transition_graph_status_next.
Qed.

Lemma obsolete_instance_graphs_next i retained :
  guarantee node_next (obsolete_instance_graphs_except i retained).
Proof.
  unfold obsolete_instance_graphs_except, get_graphs_by_instance_id. guar. apply obsolete_graphs_next.
Qed.

Lemma insert_definition_next g t n t' :
  baseline g = true → insert_definition g t = Some (n, t') → node_next t t'.
Proof.
  unfold baseline, insert_definition. intros Hb. brefl.
  destruct (existsb (graph_is _) _) eqn:E1.
  { intros [= <- <-]. apply step_update_graph. intros x _. split; [done|]. cbn. reflexivity. }
  destruct (existsb (in_slot _ _) _) eqn:E2; [done|]. intros [= <- <-].
  apply (step_insert_graph (definition_row g)); [|done..].
  unfold graph_typed. cbn. eauto.
Qed.

Lemma upsert_graph_definition_next g : guarantee node_next (upsert_graph_definition g).
Proof.
  unfold upsert_graph_definition, find_graph. destruct (bool_decide _); [guar|].
  destruct (baseline g) eqn:E; cbn [negb]; guar.
  apply guarantee_constrained; [apply _|]. intros t n t'. by apply insert_definition_next.
Qed.

Lemma upsert_graph_raw_data_next i raw h : guarantee node_next (upsert_graph_raw_data i raw h).
Proof.
  unfold upsert_graph_raw_data, find_graph. guar. apply guarantee_stmt; [apply _|]. intros t. cbn.
  destruct (existsb _ _) eqn:E; apply step_other; cbn; try done;
    intros [H1 H2 H3 H4 H5 H6 H7 H8]; split; cbn; try done.
  - by rewrite map_update_where.
  - rewrite map_app. apply NoDup_app. split_and!; [done| |apply NoDup_singleton].
    intros k (x & Hx & ->)%In_map_iff Ek%list_elem_of_singleton.
    rewrite existsb_none in E. specialize (E x Hx). by brefl.
Qed.
End Graphs.

(** ** Setup sessions and process data *)

Lemma delete_pending_next i op : guarantee node_next (delete_pending_graph_init i op).
Proof.
  apply guarantee_stmt; [apply _|]. intros t. cbn. apply step_other; cbn; try done.
  intros [H1 H2 H3 H4 H5 H6 H7 H8]. split; cbn; try done; by apply NoDup_map_filter.
Qed.

Lemma NoDup_update_fresh {A K} `{EqDecision K} (key : A → K) (p : A → bool) (f : A → A) k l :
  (∀ x, p x = true → key (f x) = k) → (∀ x, x ∈ l → key x = k → p x = true) →
  (∀ x y, x ∈ l → y ∈ l → p x = true → p y = true → x = y) → NoDup l →
  NoDup (map key l) → NoDup (map key (update_where p f l)).
Proof.
  intros Hf Hk Hu. unfold update_where. rewrite map_map.
  induction l as [|x l IH]; cbn; [done|]. intros [Hx Hl]%NoDup_cons [Hxk Hlk]%NoDup_cons.
  apply NoDup_cons. split.
  - intros (y & Hy & E)%In_map_iff. destruct (p x) eqn:Ex, (p y) eqn:Ey.
    + assert (x = y) as <- by (apply Hu; [left|by right|done..]). done.
    + rewrite Hf in E by done. assert (p y = true) by (apply Hk; [by right|done]). congruence.
    + rewrite Hf in E by done. assert (p x = true) by (apply Hk; [left|done]). congruence.
    + destruct Hxk. rewrite E. apply In_map_iff. eauto.
  - apply IH; [|by intros ? ? ? ? ?; apply Hu; try right|done|done].
    intros y Hy. apply Hk. by right.
Qed.

Lemma upsert_pending_next i op g : guarantee node_next (upsert_pending_graph_init i op g).
Proof.
  unfold upsert_pending_graph_init. guar. apply guarantee_constrained; [apply _|].
  intros t n t'. cbn beta zeta. destruct (existsb (λ r, _) _) eqn:E1; [done|].
  rewrite existsb_none in E1.
  assert (Hg : ∀ x, x ∈ t_pending_graph_init t → pg_graph_id x = g → session_of i op x = true).
  { intros x Hx Eg. specialize (E1 x Hx). unfold session_for in E1.
    rewrite bool_decide_eq_true_2 in E1 by done. cbn [andb] in E1. by brefl. }
  destruct (existsb (session_of i op) _) eqn:E2; intros [= <- <-]; apply step_other; cbn; try done;
    intros [H1 H2 H3 H4 H5 H6 H7 H8]; split; cbn; try done.
  - by rewrite map_update_where.
  - apply (NoDup_update_fresh _ _ _ g); try done; [|by eapply NoDup_fmap_1].
    intros x y Hx Hy Px Py. unfold session_of in *. brefl.
    eapply (NoDup_map_inj _ _ x y H4); [done..|]. cbn. congruence.
  - rewrite map_app. apply NoDup_app. split_and!; [done| |apply NoDup_singleton].
    intros k (x & Hx & ->)%In_map_iff Ek%list_elem_of_singleton. injection Ek as Ea Eb.
    rewrite existsb_none in E2. specialize (E2 x Hx). unfold session_of in E2.
    rewrite !bool_decide_eq_true_2 in E2; done.
  - rewrite map_app. apply NoDup_app. split_and!; [done| |apply NoDup_singleton].
    intros k (x & Hx & ->)%In_map_iff Ek%list_elem_of_singleton. cbn in Ek.
    rewrite existsb_none in E2. specialize (E2 x Hx). rewrite (Hg x Hx Ek) in E2. done.
Qed.

Lemma upsert_instance_process_next r :
  guarantee node_next (upsert_pegin_instance_process_data r).
Proof.
  apply guarantee_stmt; [apply _|]. intros t. cbn. destruct (existsb _ _) eqn:E; apply step_other;
    cbn; try done; intros [H1 H2 H3 H4 H5 H6 H7 H8]; split; cbn; try done.
  - by rewrite map_update_where.
  - rewrite map_app. apply NoDup_app. split_and!; [done| |apply NoDup_singleton].
    intros k (x & Hx & ->)%In_map_iff Ek%list_elem_of_singleton.
    rewrite existsb_none in E. specialize (E x Hx). by brefl.
Qed.

Lemma upsert_graph_process_next r : guarantee node_next (upsert_pegin_graph_process_data r).
Proof.
  apply guarantee_stmt; [apply _|]. intros t. cbn. destruct (existsb _ _) eqn:E; apply step_other;
    cbn; try done; intros [H1 H2 H3 H4 H5 H6 H7 H8]; split; cbn; try done.
  - by rewrite map_update_where.
  - rewrite map_app. apply NoDup_app. split_and!; [done| |apply NoDup_singleton].
    intros k (x & Hx & ->)%In_map_iff Ek%list_elem_of_singleton.
    rewrite existsb_none in E. specialize (E x Hx). by brefl.
Qed.

#[export] Hint Resolve update_instance_parameters_next update_instance_committee_answer_next
  transition_graph_status_next obsolete_instance_graphs_next upsert_graph_definition_next
  upsert_graph_raw_data_next delete_pending_next upsert_pending_next update_graph_runtime_next
  upsert_instance_process_next upsert_graph_process_next : guar.
#[export] Hint Unfold find_instance find_graph find_graph_by_operator_slot
  get_graphs_by_instance_id latest_operator_graph list_pending_graph_inits_by_instance
  list_pending_graph_inits_by_operator find_pending_graph_init_by_graph_id
  find_pending_graph_init_by_instance_and_operator_pubkey find_instance_process_row
  get_pegin_graph_endorsed_len_by_instance_id : guar.
