(* ===== verification/NodeApply.v ===== *)
(** * What the two aggregates share

    An apply reads and writes the apply transaction, collects effects and may fail
    or panic: a program of [HM].  On top of it the messages between the network,
    the applies and the jobs, and the event ids that deduplicate them;
    last, the slots and setup sessions of an operator.

    Source: node/src/aggregates/common.rs, node/src/messages.rs,
    node/src/engine_bridge.rs. *)

From stdpp Require Import base list strings gmap pretty.
From S2P Require Import Prelude Table Storage EngineSchema EngineNext InboxStore JobStore EngineConfig.
From S2P Require Import EngineEffects Worker Runtime NodeSchema LocalDb NodeNext.

Local Open Scope Z_scope.

(** ** Applies

    How a part of an apply ends: with a value, with an error that [?] propagates, or
    with a panic. *)
Inductive step (A : Type) : Type :=
| Val (a : A)
| Throw (e : ApplyError)
| Panic (message : string).
Arguments Val {A}. Arguments Throw {A}. Arguments Panic {A}.

(** The effects, and the alerts raised for the operators of the node. *)
Record Acc := mkAcc { acc_effects : Effects; acc_alerts : list string }.
#[export] Instance eta_Acc : Eta Acc := λ a, mkAcc (acc_effects a) (acc_alerts a).

Definition NodeDb : Type := Db NodeTables.

Definition HM (A : Type) : Type := Acc → NodeDb → Env → step A * Acc * NodeDb * Env.

#[export] Instance hm_ret : MRet HM := λ A a acc d e, (Val a, acc, d, e).
#[export] Instance hm_bind : MBind HM := λ A B k m acc d e,
  match m acc d e with
  | (Val a, acc', d', e') => k a acc' d' e'
  | (Throw x, acc', d', e') => (Throw x, acc', d', e')
  | (Panic p, acc', d', e') => (Panic p, acc', d', e')
  end.

(** [ctx.storage.f(..).await?]: an [anyhow] error is transient. *)
Definition storage {A} (m : ST NodeDb A) : HM A := λ acc d e,
  match m d e with
  | (Ok a, d', e') => (Val a, acc, d', e')
  | (Err x, d', e') => (Throw (Transient x), acc, d', e')
  end.

Definition tables {A} (m : ST NodeTables A) : ST NodeDb A :=
  focus business (λ t d, d <| business := t |>) m.

(** A statement on the node's own tables. *)
Definition on_tables {A} (m : ST NodeTables A) : HM A := storage (tables m).

Definition fx (f : Effects → Effects) : HM unit := λ acc d e,
  (Val tt, acc <| acc_effects ::= f |>, d, e).
Definition raise_alert (reason : string) : HM unit := λ acc d e,
  (Val tt, acc <| acc_alerts ::= snoc reason |>, d, e).
Definition throw {A} (x : ApplyError) : HM A := λ acc d e, (Throw x, acc, d, e).
Definition panic {A} (message : string) : HM A := λ acc d e, (Panic message, acc, d, e).

(** [.context(message)?]: the cause goes behind the message. *)
Definition with_context {A} (message : string) (m : HM A) : HM A := λ acc d e,
  match m acc d e with
  | (Throw (Transient x), acc', d', e') => (Throw (Transient (message :: x)), acc', d', e')
  | r => r
  end.

(** [?] on a computed result. *)
Definition lift {A} (o : outcome A) : HM A :=
  match o with Ok a => mret a | Err x => throw (Transient x) end.

Fixpoint hm_iter {X} (f : X → HM unit) (xs : list X) : HM unit :=
  match xs with
  | [] => mret tt
  | x :: xs => f x;; hm_iter f xs
  end.

(** The engine's view of an apply; [cut] tells when its timeout strikes. *)
Definition handler_of (cut : ApplyContext → EngineInboxEvent → Env → bool)
    (apply : ApplyContext → EngineInboxEvent → HM ApplyOutcome) : Handler NodeTables :=
  λ ctx event d e,
    match apply ctx event (mkAcc no_effects []) d e with
    | (r, acc, d', e') =>
        (if cut ctx event e then Elapsed
         else match r with
              | Val o => Returned (inl o)
              | Throw x => Returned (inr x)
              | Panic p => Panicked p
              end, acc_effects acc, d', e')
    end.

(** [as u64] of an [i64] and [as i64] of a [u64]. *)
Definition as_u64 (z : Z) : Z := z mod u64_modulus.
Definition as_i64 (z : Z) : Z := if z <? 2 ^ 63 then z else z - u64_modulus.

(** [-] on [i64] and [+] on [u64]. *)
Definition i64_sub1 `{OverflowChecks} (z : Z) : HM Z :=
  if i64_min <? z then mret (z - 1)
  else if overflow_checks then panic "attempt to subtract with overflow"
  else mret i64_max.
Definition u64_add1 `{OverflowChecks} (z : Z) : HM Z :=
  if z + 1 <? u64_modulus then mret (z + 1)
  else if overflow_checks then panic "attempt to add with overflow"
  else mret 0.

(** [engine_bridge::record_event_in]: the apply's transaction records the event. *)
Definition record_event_in (event : NewEvent) : HM unit :=
  storage (submit_in event);; mret tt.

(** ** Messages *)

Definition PARKED_MESSAGE_TTL_SECS : Z := 2 * 24 * 60 * 60.

Record InboundMessage := mkInbound {
  im_author : string;
  im_instance_id : Uuid;
  im_graph_nonce : option Z;
  im_operator_pubkey : option string;
  im_message : bytes;
}.

Record PlannedMessage := mkPlanned {
  pm_outbox_id : string;
  pm_phase_ref : string;
  pm_kind : string;
  pm_actor : string;
  pm_payload : bytes;
  pm_ack_set : option (gmap string string);
}.

Record NextJob := mkNext {
  nx_action : string;
  nx_params : bytes;
  nx_delay_secs : option Z;
}.

(** [bincode] on inbound messages. *)
Class InboundCodec := {
  inbound_encode : InboundMessage → outcome bytes;
  inbound_decode : bytes → outcome InboundMessage;
}.
Class InboundLaws `{InboundCodec} : Prop :=
  inbound_roundtrip : ∀ m b, inbound_encode m = Ok b → inbound_decode b = Ok m.

(** [u64::to_be_bytes] of a length. *)
Fixpoint be_bytes (n : nat) (z : Z) : string :=
  match n with
  | O => EmptyString
  | S n => be_bytes n (z / 256) +:+ String (Ascii.ascii_of_N (Z.to_N (z mod 256))) EmptyString
  end.

(** A field of a hashed record: its length, then its bytes. *)
Definition hashed_field (s : bytes) : bytes := be_bytes 8 (Z.of_nat (String.length s)) +:+ s.

Definition hashed_fields (fields : list bytes) : bytes :=
  foldr (λ f acc, hashed_field f +:+ acc) EmptyString fields.

Definition delivery_id `{Sha256} (sender_peer recipient_peer : string) (payload : bytes) : string :=
  "graph-setup-v2:" +:+
  hex_encode (sha256 ("goat/graph-setup-delivery/v2" +:+
    hashed_fields [sender_peer; recipient_peer; sha256 payload])).

Definition content_event_id `{Sha256} (author kind business : string) (payload : bytes) : string :=
  "msg:" +:+ kind +:+ ":" +:+ hex_encode (sha256 (hashed_fields [author; kind; business; sha256 payload])).

(** [middleware::get_topic_name] over the configured protocol base. *)
Class ProtoBase := get_proto_base : string.
Definition get_topic_name `{ProtoBase} (topic : string) : string :=
  get_proto_base +:+ "/topic/" +:+ topic.

Definition planned_outbox `{ProtoBase} (m : PlannedMessage) : OutboxMessage := {|
  om_outbox_id := pm_outbox_id m;
  om_phase_ref := pm_phase_ref m;
  om_kind := pm_kind m;
  om_topic := get_topic_name (pm_actor m);
  om_payload := pm_payload m;
  om_ack_set := pm_ack_set m;
|}.

(** ** Membership *)

(** What the node knows locally: the instance keys it holds and the peers its
    registry lists. *)
Record MembershipProbe := mkProbe {
  holds_instance_key : Uuid → bool;
  is_registered_peer : string → bool;
}.

(** An unknown instance, or one whose status does not parse, is not failed. *)
Definition instance_failed (instance_id : Uuid) : HM bool :=
  row ← on_tables (find_instance instance_id);
  mret (match row with
        | Some r => match instance_status_of (it_status r) with
                    | Some status => is_failed status
                    | None => false
                    end
        | None => false
        end).

(** ** Reasoning about applies

    [wp m acc d Q]: from the effects [acc] and the database [d], however statements
    fail and clocks run, [m] ends with what [Q] says. *)

Definition wp {A} (m : HM A) (acc : Acc) (d : NodeDb) (Q : step A → Acc → NodeDb → Prop) : Prop :=
  ∀ e, match m acc d e with (r, acc', d', _) => Q r acc' d' end.

Section Wp.
Context {A : Type}.
Implicit Types (Q : step A → Acc → NodeDb → Prop) (acc : Acc) (d : NodeDb).

Lemma wp_ret (a : A) acc d Q : Q (Val a) acc d → wp (mret a) acc d Q.
Proof. by intros H e. Qed.
Lemma wp_throw x acc d Q : Q (Throw x) acc d → wp (throw x) acc d Q.
Proof. by intros H e. Qed.
Lemma wp_panic p acc d Q : Q (Panic p) acc d → wp (panic p) acc d Q.
Proof. by intros H e. Qed.
Lemma wp_lift (o : outcome A) acc d Q :
  (∀ a, o = Ok a → Q (Val a) acc d) → (∀ x, o = Err x → Q (Throw (Transient x)) acc d) →
  wp (lift o) acc d Q.
Proof. intros H1 H2 e. destruct o; cbn; auto. Qed.

Lemma wp_mono (m : HM A) acc d (Q Q' : step A → Acc → NodeDb → Prop) :
  wp m acc d Q → (∀ r acc' d', Q r acc' d' → Q' r acc' d') → wp m acc d Q'.
Proof. intros H HQ e. specialize (H e). destruct (m acc d e) as [[[r acc'] d'] e']. auto. Qed.

Lemma wp_and (m : HM A) acc d (Q Q' : step A → Acc → NodeDb → Prop) :
  wp m acc d Q → wp m acc d Q' → wp m acc d (λ r a d', Q r a d' ∧ Q' r a d').
Proof. intros H1 H2 e. specialize (H1 e). specialize (H2 e). by destruct (m acc d e) as [[[? ?] ?] ?]. Qed.

(** Continue with [k] after a value; errors and panics end the apply. *)
Definition after {B} (k : A → HM B) (Q : step B → Acc → NodeDb → Prop) :
    step A → Acc → NodeDb → Prop := λ r acc d,
  match r with
  | Val a => wp (k a) acc d Q
  | Throw x => Q (Throw x) acc d
  | Panic p => Q (Panic p) acc d
  end.

Lemma wp_bind {B} (m : HM A) (k : A → HM B) acc d (Q : step B → Acc → NodeDb → Prop) :
  wp m acc d (after k Q) → wp (m ≫= k) acc d Q.
Proof.
  intros H e. specialize (H e). unfold mbind, hm_bind.
  destruct (m acc d e) as [[[[a|x|p] acc'] d'] e']; cbn in H; [apply H|done..].
Qed.

Lemma wp_storage (m : ST NodeDb A) acc d Q :
  (∀ e, match m d e with
        | (Ok a, d', _) => Q (Val a) acc d'
        | (Err x, d', _) => Q (Throw (Transient x)) acc d'
        end) → wp (storage m) acc d Q.
Proof. intros H e. specialize (H e). unfold storage. by destruct (m d e) as [[[a|x] d'] e']. Qed.

Lemma wp_query (f : NodeTables → A) acc d Q :
  Q (Val (f (business d))) acc d → Q (Throw (Transient storage_error)) acc d →
  wp (on_tables (query f)) acc d Q.
Proof.
  intros H1 H2. apply wp_storage. intros e. unfold tables, focus, query, stmt.
  destruct (next_fault e) as [[] e']; by destruct d.
Qed.

(** The rows after a program on the node's tables that guarantees [Rel]. *)
Lemma wp_tables (Rel : NodeTables → NodeTables → Prop) (m : ST NodeTables A) acc d Q :
  guarantee Rel m →
  (∀ r t, Rel (business d) t → Q r acc (d <| business := t |>)) → wp (on_tables m) acc d Q.
Proof.
  intros Hm HQ. apply wp_storage. intros e. specialize (Hm (business d) e).
  unfold tables, focus, final in *. destruct (m (business d) e) as [[[a|x] t] e']; cbn in *; auto.
Qed.
End Wp.

Lemma wp_fx f acc d (Q : step unit → Acc → NodeDb → Prop) :
  Q (Val tt) (acc <| acc_effects ::= f |>) d → wp (fx f) acc d Q.
Proof. by intros H e. Qed.
Lemma wp_alert s acc d (Q : step unit → Acc → NodeDb → Prop) :
  Q (Val tt) (acc <| acc_alerts ::= snoc s |>) d → wp (raise_alert s) acc d Q.
Proof. by intros H e. Qed.

(** ** Guarantees of applies *)

Definition hm_guar {A} (Rel : NodeDb → NodeDb → Prop) (m : HM A) : Prop :=
  ∀ acc d, wp m acc d (λ _ _ d', Rel d d').

Create HintDb hguar discriminated.

Section HmGuar.
Context (Rel : NodeDb → NodeDb → Prop) `{!PreOrder Rel}.

Lemma hguar_ret {A} (a : A) : hm_guar Rel (mret a).
Proof. intros acc d e. cbn. reflexivity. Qed.
Lemma hguar_throw {A} x : hm_guar Rel (throw (A := A) x).
Proof. intros acc d e. cbn. reflexivity. Qed.
Lemma hguar_panic {A} p : hm_guar Rel (panic (A := A) p).
Proof. intros acc d e. cbn. reflexivity. Qed.
Lemma hguar_lift {A} (o : outcome A) : hm_guar Rel (lift o).
Proof. destruct o; [apply hguar_ret|apply hguar_throw]. Qed.
Lemma hguar_fx f : hm_guar Rel (fx f).
Proof. intros acc d e. cbn. reflexivity. Qed.
Lemma hguar_alert s : hm_guar Rel (raise_alert s).
Proof. intros acc d e. cbn. reflexivity. Qed.

Lemma hguar_bind {A B} (m : HM A) (k : A → HM B) :
  hm_guar Rel m → (∀ a, hm_guar Rel (k a)) → hm_guar Rel (m ≫= k).
Proof.
  intros Hm Hk acc d. apply wp_bind. eapply wp_mono; [apply Hm|].
  intros [a|x|p] acc' d' H; cbn; [|done..].
  eapply wp_mono; [apply Hk|]. intros ? ? d'' H'. cbn in H'. by etrans.
Qed.

Lemma hguar_context {A} message (m : HM A) : hm_guar Rel m → hm_guar Rel (with_context message m).
Proof.
  intros Hm acc d e. specialize (Hm acc d e). unfold with_context.
  by destruct (m acc d e) as [[[[|[]|] ?] ?] ?].
Qed.

Lemma hguar_storage {A} (m : ST NodeDb A) : guarantee Rel m → hm_guar Rel (storage m).
Proof.
  intros Hm acc d. apply wp_storage. intros e. specialize (Hm d e). unfold final in Hm.
  by destruct (m d e) as [[[a|x] d'] e'].
Qed.

Lemma hguar_iter {X} (f : X → HM unit) xs :
  (∀ x, x ∈ xs → hm_guar Rel (f x)) → hm_guar Rel (hm_iter f xs).
Proof.
  induction xs as [|x xs IH]; intros H; cbn [hm_iter]; [apply hguar_ret|].
  apply hguar_bind; [apply H; left|]. intros _. apply IH. intros y Hy. apply H. by right.
Qed.
End HmGuar.

(** Both the engine's tables and the node's keep their order. *)
Definition both_next (d d' : NodeDb) : Prop :=
  engine_next d d' ∧ node_next (business d) (business d').

#[export] Instance both_next_preorder : PreOrder both_next.
Proof.
  split; [by split|]. intros a b c [H1 H2] [H3 H4]. split; by etrans.
Qed.

Lemma both_tables {A} (m : ST NodeTables A) :
  guarantee node_next m → guarantee both_next (tables m).
Proof.
  intros Hm. eapply guarantee_focus; [exact Hm|]. intros d t Ht. split; [apply next_business|done].
Qed.

Lemma hguar_tables {A} (m : ST NodeTables A) :
  guarantee node_next m → hm_guar both_next (on_tables m).
Proof. intros Hm. apply hguar_storage, both_tables, Hm. Qed.

(** The engine's statements leave the node's tables alone. *)
Definition same_tables (d d' : NodeDb) : Prop := business d' = business d.
#[export] Instance same_tables_preorder : PreOrder same_tables.
Proof. unfold same_tables. split; [done|]. intros a b c H1 H2. congruence. Qed.

Lemma submit_in_tables event : guarantee same_tables (submit_in event).
Proof.
  unfold submit_in, insert_engine_inbox_event, inbox_update. guar;
    apply guarantee_stmt; try apply _; intros d; [|done].
  by destruct (insert_or_ignore _ _ _) as [[] t].
Qed.

Lemma clear_job_result_tables id now : guarantee same_tables (clear_engine_job_result id now).
Proof.
  unfold clear_engine_job_result, job_update. guar. by apply guarantee_stmt; [apply _|].
Qed.

Lemma hguar_engine {A} (m : ST NodeDb A) :
  guarantee engine_next m → guarantee same_tables m → hm_guar both_next (storage m).
Proof.
  intros H1 H2. apply hguar_storage. intros d e. split; [apply H1|].
  by rewrite (H2 d e).
Qed.

Lemma hguar_record_event event : hm_guar both_next (record_event_in event).
Proof.
  apply hguar_bind; [apply _| |intros _; apply hguar_ret, _].
  apply hguar_engine; [|apply submit_in_tables]. unfold submit_in. guar.
Qed.

Lemma hguar_clear_result id now : hm_guar both_next (storage (clear_engine_job_result id now)).
Proof. apply hguar_engine; [guar|apply clear_job_result_tables]. Qed.

Lemma hguar_list_jobs kind id : hm_guar both_next (storage (list_engine_jobs_for_aggregate kind id)).
Proof. apply hguar_storage. unfold list_engine_jobs_for_aggregate. guar. Qed.

Lemma hguar_instance_failed id : hm_guar both_next (instance_failed id).
Proof.
  apply hguar_bind; [apply _| |intros r; apply hguar_ret, _]. apply hguar_tables.
  unfold find_instance. guar.
Qed.

#[export] Hint Resolve hguar_ret hguar_throw hguar_panic hguar_lift hguar_fx hguar_alert
  hguar_record_event hguar_clear_result hguar_list_jobs hguar_instance_failed : hguar.

Ltac hguar_step :=
  match goal with
  | |- ∀ _, _ => intro
  | |- hm_guar _ (_ ≫= _) => apply hguar_bind; [try apply _| |intro]
  | |- hm_guar _ (hm_iter _ _) => apply hguar_iter; [try apply _|intros ? ?]
  | |- hm_guar _ (on_tables _) => apply hguar_tables; guar
  | |- hm_guar _ (with_context _ _) => apply hguar_context
  | |- hm_guar _ (let '_ := ?x in _) => destruct x
  | |- hm_guar _ (match ?x with _ => _ end) => destruct x
  | |- hm_guar _ (if ?x then _ else _) => destruct x
  | |- hm_guar _ _ => solve [eauto with hguar typeclass_instances]
  end.

Ltac hguar := repeat hguar_step.

(** An apply that keeps the orders is a lawful handler. *)
Lemma handler_of_laws cut apply :
  (∀ ctx event, hm_guar both_next (apply ctx event)) → HandlerLaws (handler_of cut apply).
Proof.
  intros H ctx event d e. unfold handler_of. specialize (H ctx event (mkAcc no_effects []) d e).
  destruct (apply ctx event _ d e) as [[[r acc] d'] e']. by destruct H.
Qed.

(** * Slots and setup sessions of an operator

    What the Instance aggregate and the Graph aggregate share about graphs: their
    references, the slot an operator's next graph takes, and how a setup session
    that never stored its definition is released.

    Source: node/src/aggregates/graph.rs. *)

Local Open Scope Z_scope.

Definition GRAPH_KIND : string := "graph".
Definition GRAPH_PHASE_POST : string := "Post".
Definition JOB_PHASE : string := "graph".
Definition EVENT_OPERATOR_START : string := "operator_start".

Record OperatorStart := mkOperatorStart { os_instance_id : Uuid; os_operator_pubkey : string }.

(** [bincode] on [OperatorStart]. *)
Class OperatorStartCodec := {
  operator_start_serialize : OperatorStart → outcome bytes;
  operator_start_deserialize : bytes → outcome OperatorStart;
}.
Class OperatorStartLaws `{OperatorStartCodec} : Prop :=
  operator_start_roundtrip : ∀ s b, operator_start_serialize s = Ok b →
    operator_start_deserialize b = Ok s.

Definition slot_ref (operator_pubkey : string) (graph_nonce : Z) : string :=
  "slot:" +:+ operator_pubkey +:+ ":" +:+ pretty graph_nonce.

Section Sessions.
Context `{UuidText} `{OverflowChecks}.

Definition graph_ref (graph_id : Uuid) : AggregateRef := mkRef GRAPH_KIND (uuid_to_string graph_id).

Definition outbox_id (graph_id : Uuid) (kind : string) (qualifier : option string) : string :=
  match qualifier with
  | Some q => "graph:" +:+ uuid_to_string graph_id +:+ ":" +:+ kind +:+ ":" +:+ q
  | None => "graph:" +:+ uuid_to_string graph_id +:+ ":" +:+ kind
  end.

Definition operator_start_event `{OperatorStartCodec} (instance_id graph_id : Uuid)
    (operator_pubkey : string) : outcome NewEvent :=
  payload ← operator_start_serialize (mkOperatorStart instance_id operator_pubkey);
  Ok (new_event ("graph:" +:+ uuid_to_string graph_id +:+ ":operator-start") (graph_ref graph_id)
        EVENT_OPERATOR_START Local_ payload).

(** The slot the operator's next graph takes: one past the highest stored. *)
Definition next_slot (operator_pubkey : string) : HM Z :=
  latest ← on_tables (latest_operator_graph operator_pubkey);
  match latest with
  | Some graph => u64_add1 (as_u64 (gr_kickoff_index graph))
  | None => mret 0
  end.

Definition release_setup_session (session : PendingGraphInit) (reason : string) : HM Z :=
  let r := graph_ref (pg_graph_id session) in
  fx (close_outbox (CloseAggregate (ar_kind r) (ar_id r)) reason);;
  fx (cancel_jobs_for_aggregate r);;
  on_tables (delete_pending_graph_init (pg_instance_id session) (pg_operator_pubkey session));;
  slot ← next_slot (pg_operator_pubkey session);
  fx (wake (slot_ref (pg_operator_pubkey session) slot));;
  mret slot.

Lemma hguar_next_slot op : hm_guar both_next (next_slot op).
Proof. unfold next_slot, latest_operator_graph, u64_add1. hguar. Qed.

Lemma hguar_release session reason : hm_guar both_next (release_setup_session session reason).
Proof. unfold release_setup_session. hguar. apply hguar_next_slot. Qed.
End Sessions.

#[export] Hint Resolve hguar_next_slot hguar_release : hguar.
