(* ===== verification/InstanceDecide.v ===== *)
(** * Decisions of the peg-in state machine

    What an instance does with a Bitcoin snapshot, the closed answer window, an
    endorsed graph and a mint on Goat, as functions of the instance row and the
    facts; and until when protocol signatures may be produced for it.

    Source: node/src/aggregates/instance.rs. *)

From stdpp Require Import base list strings pretty.
From S2P Require Import Prelude NodeSchema NodeNext.

Local Open Scope Z_scope.

(** ** Deadlines *)

Record PeginDeadlines := mkDeadlines {
  t0_blocks : Z;
  buffer_blocks : Z;
  key_delete_blocks : Z;
}.

Definition cancel_from_height (dl : PeginDeadlines) (prepare_height : Z) : option Z :=
  if 0 <? prepare_height then Some (prepare_height + t0_blocks dl) else None.

Definition abandon_height (dl : PeginDeadlines) (prepare_height : Z) : option Z :=
  match cancel_from_height dl prepare_height with
  | Some height => Some (height + buffer_blocks dl)
  | None => None
  end.

Definition signing_open (dl : PeginDeadlines) (prepare_height height : Z) : bool :=
  match cancel_from_height dl prepare_height with
  | Some t0 => height <? t0
  | None => true
  end.

(** ** Facts *)

Record TxFact := mkFact {
  tf_confirmed : bool;
  tf_block_height : option Z;
  tf_in_mempool : bool;
}.

Definition TxFact_UNKNOWN : TxFact := mkFact false None false.
Definition confirmed_at (height : Z) : TxFact := mkFact true (Some height) false.
Definition mempool : TxFact := mkFact false None true.
Definition invisible (f : TxFact) : bool := negb (tf_confirmed f) && negb (tf_in_mempool f).

Record BtcSnapshot := mkSnapshot {
  sn_height : Z;
  sn_status_at_scan : string;
  sn_prepare : option TxFact;
  sn_confirm : option TxFact;
  sn_cancel : option TxFact;
  sn_inputs_available : option bool;
}.

Record AnswerWindow := mkWindow {
  aw_goat_height : Z;
  aw_window_blocks : Z;
  aw_quorum : Z;
  aw_answers : IndexMap bytes;
}.

(** ** Transitions *)

Inductive InstanceAlert :=
| PeginConfirmAfterTimeout
| L2MintedAfterFailure
| PostPeginDataRejected
| KeyDeleteFailed
| PeginConfirmRoundFailed
| AnswerPeginRequestFailed
| ConfirmInstanceRejected.

Definition alert_reason (a : InstanceAlert) : string :=
  match a with
  | PeginConfirmAfterTimeout => "pegin_confirm_after_timeout"
  | L2MintedAfterFailure => "l2_minted_after_failure"
  | PostPeginDataRejected => "post_pegin_data_rejected"
  | KeyDeleteFailed => "key_delete_failed"
  | PeginConfirmRoundFailed => "pegin_confirm_round_failed"
  | AnswerPeginRequestFailed => "answer_pegin_request_failed"
  | ConfirmInstanceRejected => "confirm_instance_rejected"
  end.

Record Transition := mkTransition {
  tr_next : option InstanceBridgeInStatus;
  tr_prepare_height : option Z;
  tr_committees_answers : option (IndexMap bytes);
  tr_post_pegin_txhash : option string;
  tr_delete_key : bool;
  tr_alerts : list InstanceAlert;
}.

#[export] Instance eta_Transition : Eta Transition := λ t,
  mkTransition (tr_next t) (tr_prepare_height t) (tr_committees_answers t)
    (tr_post_pegin_txhash t) (tr_delete_key t) (tr_alerts t).

Definition no_transition : Transition := mkTransition None None None None false [].
Definition transition_to (s : InstanceBridgeInStatus) : Transition :=
  no_transition <| tr_next := Some s |>.
Definition transition_alert (a : InstanceAlert) : Transition :=
  no_transition <| tr_alerts := [a] |>.

(** [fact.is_some_and(|f| f.confirmed)]. *)
Definition is_confirmed (f : option TxFact) : bool :=
  match f with Some f => tf_confirmed f | None => false end.

(** 1. Answer / AwaitPrepare: the status and Prepare height after the first stage, or
    the end of the decision. *)
Definition decide_prepare (status : InstanceBridgeInStatus) (prepare_height : Z)
    (snapshot : BtcSnapshot) : Transition + (InstanceBridgeInStatus * Z * option Z) :=
  match status with
  | UserInited | CommitteesAnswered =>
      match sn_prepare snapshot with
      | Some prepare =>
          if tf_confirmed prepare then
            let height := default prepare_height (tf_block_height prepare) in
            inr (UserBroadcastPeginPrepare, height, Some height)
          else if bool_decide (status = CommitteesAnswered) &&
                  bool_decide (sn_inputs_available snapshot = Some false)
          then inl (transition_to UserDiscarded)
          else inr (status, prepare_height, None)
      | None =>
          if bool_decide (status = CommitteesAnswered) &&
             bool_decide (sn_inputs_available snapshot = Some false)
          then inl (transition_to UserDiscarded)
          else inr (status, prepare_height, None)
      end
  | _ => inr (status, prepare_height, None)
  end.

(** 2. Presign / Confirm: chain facts first, the deadline last. *)
Definition decide_confirm (current : InstanceBridgeInStatus) (prepare_height : Z)
    (snapshot : BtcSnapshot) (dl : PeginDeadlines) : InstanceBridgeInStatus :=
  match current with
  | UserBroadcastPeginPrepare | Presigned =>
      if is_confirmed (sn_confirm snapshot) then RelayerL1Broadcasted
      else if is_confirmed (sn_cancel snapshot) then UserCanceled
      else if bool_decide (current = UserBroadcastPeginPrepare) &&
              match sn_prepare snapshot with Some f => negb (tf_confirmed f) | None => false end &&
              bool_decide (sn_inputs_available snapshot = Some false)
      then UserDiscarded
      else match sn_confirm snapshot with
           | Some confirm =>
               if match abandon_height dl prepare_height with
                  | Some h => h <=? sn_height snapshot
                  | None => false
                  end && negb (tf_in_mempool confirm)
               then Timeout else current
           | None => current
           end
  | _ => current
  end.

(** 3. Post / Done: success-side key deletion depth. *)
Definition decide_key (current : InstanceBridgeInStatus) (key_deleted : bool)
    (snapshot : BtcSnapshot) (dl : PeginDeadlines) : bool :=
  match current with
  | RelayerL1Broadcasted | RelayerL2Minted =>
      negb key_deleted &&
      match sn_confirm snapshot with
      | Some confirm =>
          tf_confirmed confirm &&
          match tf_block_height confirm with
          | Some confirmed_at => confirmed_at + key_delete_blocks dl <=? sn_height snapshot
          | None => false
          end
      | None => false
      end
  | _ => false
  end.

Definition decide_btc_snapshot (status : InstanceBridgeInStatus) (prepare_height : Z)
    (key_deleted : bool) (snapshot : BtcSnapshot) (dl : PeginDeadlines) : Transition :=
  if is_failed status then
    if bool_decide (status = Timeout) then
      if is_confirmed (sn_cancel snapshot) then transition_to UserCanceled
      else if is_confirmed (sn_confirm snapshot) then transition_alert PeginConfirmAfterTimeout
      else no_transition
    else no_transition
  else
    match decide_prepare status prepare_height snapshot with
    | inl transition => transition
    | inr (current, height, recorded) =>
        let current := decide_confirm current height snapshot dl in
        no_transition <| tr_prepare_height := recorded |>
          <| tr_delete_key := decide_key current key_deleted snapshot dl |>
          <| tr_next := if decide (current = status) then None else Some current |>
    end.

Definition decide_answer_window (status : InstanceBridgeInStatus) (request_height : Z)
    (known_answers : IndexMap bytes) (window : AnswerWindow) : Transition :=
  if negb (bool_decide (status = UserInited)) ||
     (aw_goat_height window <=? request_height + aw_window_blocks window)
  then no_transition
  else
    let answers :=
      foldl (λ m '(address, pubkey), im_insert address pubkey m) known_answers (aw_answers window) in
    let next :=
      if aw_quorum window <=? Z.of_nat (length answers) then CommitteesAnswered
      else NoEnoughCommitteesAnswered in
    (transition_to next) <| tr_committees_answers := Some answers |>.

(** [min_required_operator]. *)
Definition min_required_operator : Z := 1.

Definition decide_graph_endorsed (status : InstanceBridgeInStatus) (endorsed_graphs : Z) :
    Transition :=
  if bool_decide (status = UserBroadcastPeginPrepare) && (min_required_operator <=? endorsed_graphs)
  then transition_to Presigned else no_transition.

Definition decide_l2_minted (status : InstanceBridgeInStatus) (tx_hash : string) : Transition :=
  if is_failed status then transition_alert L2MintedAfterFailure
  else no_transition
    <| tr_next := if decide (status = RelayerL2Minted) then None else Some RelayerL2Minted |>
    <| tr_post_pegin_txhash := Some tx_hash |>.

Definition rebroadcast_due (status : InstanceBridgeInStatus) (transition : Transition)
    (snapshot : BtcSnapshot) : bool :=
  bool_decide (status = Presigned) && negb (is_some (tr_next transition)) &&
  match sn_confirm snapshot with Some confirm => invisible confirm | None => false end.

(** ** The signing gate *)

Inductive SigningGate := Open | Closed (reason : string).

Definition is_open (g : SigningGate) : bool := match g with Open => true | Closed _ => false end.

Definition signing_gate_for (status : InstanceBridgeInStatus) (prepare_height height : Z)
    (dl : PeginDeadlines) : SigningGate :=
  if is_failed status then Closed ("instance is " +:+ instance_status_str status)
  else match cancel_from_height dl prepare_height with
       | Some t0 =>
           if t0 <=? height then
             Closed ("height " +:+ pretty height +:+ " reached T0 at " +:+ pretty t0)
           else Open
       | None => Open
       end.

(** [signing_gate]: the gate of a row at the tip, which is read only when needed. *)
Definition signing_gate (row : option Instance_) (tip : outcome Z) (dl : PeginDeadlines) :
    outcome SigningGate :=
  match row with
  | None => Ok (Closed "instance not found")
  | Some instance =>
      match instance_status_of (it_status instance) with
      | None => Ok (Closed ("unknown instance status " +:+ it_status instance))
      | Some status =>
          if is_failed status then Ok (Closed ("instance is " +:+ instance_status_str status))
          else if it_btc_height instance <=? 0 then Ok Open
          else height ← tip; Ok (signing_gate_for status (it_btc_height instance) height dl)
      end
  end.

(** ** What the decisions respect *)

Lemma decide_btc_snapshot_advances status h key snapshot dl next :
  tr_next (decide_btc_snapshot status h key snapshot dl) = Some next → advances status next = true.
Proof.
  unfold decide_btc_snapshot, decide_prepare, decide_confirm. rewrite is_failed_rank.
  destruct status; cbn -[advances]; repeat case_match; cbn -[advances]; intros E; simplify_eq;
    unfold transition_to, transition_alert in *; cbn -[advances] in *; simplify_eq; done.
Qed.

Lemma decide_answer_window_advances status h known window next :
  tr_next (decide_answer_window status h known window) = Some next → advances status next = true.
Proof.
  unfold decide_answer_window. destruct (bool_decide_reflect (status = UserInited)) as [->|];
    cbn -[advances]; [|done]. repeat case_match; intros E; cbn in E; simplify_eq; done.
Qed.

Lemma decide_graph_endorsed_advances status n next :
  tr_next (decide_graph_endorsed status n) = Some next → advances status next = true.
Proof.
  unfold decide_graph_endorsed.
  destruct (bool_decide_reflect (status = UserBroadcastPeginPrepare)) as [->|];
    cbn -[advances]; [|done]. case_match; intros E; cbn in E; by simplify_eq.
Qed.

Lemma decide_l2_minted_advances status h next :
  tr_next (decide_l2_minted status h) = Some next → advances status next = true.
Proof.
  unfold decide_l2_minted. rewrite is_failed_rank. destruct status; cbn -[advances];
    repeat case_match; intros E; by simplify_eq.
Qed.

(** What entering each status takes. *)
Record snapshot_evidence (status next : InstanceBridgeInStatus) (height : Z)
    (snapshot : BtcSnapshot) (dl : PeginDeadlines) : Prop := {
  ev_timeout : next = Timeout →
    ∃ confirm abandon, sn_confirm snapshot = Some confirm ∧ invisible confirm = true ∧
      abandon_height dl height = Some abandon ∧ abandon ≤ sn_height snapshot ∧
      is_confirmed (sn_cancel snapshot) = false;
  ev_canceled : next = UserCanceled → is_confirmed (sn_cancel snapshot) = true;
  ev_discarded : next = UserDiscarded →
    sn_inputs_available snapshot = Some false ∧ is_confirmed (sn_prepare snapshot) = false;
  ev_broadcast : next = RelayerL1Broadcasted → is_confirmed (sn_confirm snapshot) = true;
  ev_prepare : next = UserBroadcastPeginPrepare → is_confirmed (sn_prepare snapshot) = true;
  ev_presigned : next ≠ Presigned ∧ next ≠ RelayerL2Minted;
}.

(** The Prepare height a decision is taken at. *)
Definition effective_height (h : Z) (t : Transition) : Z := default h (tr_prepare_height t).

Ltac rewrite_facts := repeat match goal with H : ?x = _ |- context [?x] => rewrite H end.
Ltac fact_solver :=
  unfold invisible, is_confirmed in *; rewrite_facts;
  first [done | eexists _, _; split_and!; [reflexivity| |reflexivity|eassumption|]; rewrite_facts; done].

Lemma decide_btc_snapshot_evidence status h key snapshot dl next :
  tr_next (decide_btc_snapshot status h key snapshot dl) = Some next →
  snapshot_evidence status next (effective_height h (decide_btc_snapshot status h key snapshot dl))
    snapshot dl.
Proof.
  unfold decide_btc_snapshot, decide_prepare, decide_confirm, effective_height, invisible.
  rewrite is_failed_rank. destruct status; cbn -[abandon_height]; repeat case_match; cbn -[abandon_height]; intros E;
    simplify_eq; unfold transition_to, transition_alert in *; cbn -[abandon_height] in *;
    simplify_eq; split; intros; simplify_eq; try done; brefl; fact_solver.
Qed.
