(* ===== verification/InstanceAggregate.v ===== *)
(** * The Instance aggregate

    The apply of a peg-in instance: it decides from the event and the instance row,
    updates the row under the status it read, and records jobs, outgoing messages
    and cleanup in the same transaction.

    Source: node/src/aggregates/instance.rs. *)

From stdpp Require Import base list strings gmap pretty.
From S2P Require Import Prelude Table Storage EngineSchema JobStore EngineEffects NodeSchema LocalDb.
From S2P Require Import NodeNext NodeApply InstanceDecide.

Local Open Scope Z_scope.

Definition INSTANCE_KIND : string := "instance".

Definition EVENT_BTC_SNAPSHOT : string := "btc_snapshot".
Definition EVENT_ANSWER_WINDOW : string := "answer_window".
Definition EVENT_GRAPH_ENDORSED : string := "graph_endorsed".
Definition EVENT_L2_MINTED : string := "l2_minted".
Definition EVENT_PEGIN_REQUEST : string := "pegin_request".

Definition JOB_POST_PEGIN_DATA : string := "post_pegin_data".
Definition JOB_DELETE_INSTANCE_KEY : string := "delete_instance_key".
Definition JOB_ANSWER_PEGIN_REQUEST : string := "answer_pegin_request".
Definition JOB_CONFIRM_INSTANCE : string := "confirm_instance".
Definition JOB_START_PEGIN_CONFIRM : string := "start_pegin_confirm".
Definition JOB_INGEST_PEGIN_CONFIRM_NONCE : string := "ingest_pegin_confirm_nonce".
Definition JOB_PEGIN_CONFIRM_VOTE : string := "pegin_confirm_vote".
Definition JOB_INGEST_PEGIN_CONFIRM_VOTE : string := "ingest_pegin_confirm_vote".
Definition JOB_PEGIN_CONFIRM_SIGN : string := "pegin_confirm_sign".
Definition JOB_INGEST_PEGIN_CONFIRM_PARTIAL_SIG : string := "ingest_pegin_confirm_partial_sig".
Definition JOB_BROADCAST_PEGIN_CONFIRM : string := "broadcast_pegin_confirm".

Definition INSTANCE_JOBS : list string :=
  [JOB_ANSWER_PEGIN_REQUEST; JOB_CONFIRM_INSTANCE; JOB_START_PEGIN_CONFIRM;
   JOB_INGEST_PEGIN_CONFIRM_NONCE; JOB_PEGIN_CONFIRM_VOTE; JOB_INGEST_PEGIN_CONFIRM_VOTE;
   JOB_PEGIN_CONFIRM_SIGN; JOB_INGEST_PEGIN_CONFIRM_PARTIAL_SIG; JOB_BROADCAST_PEGIN_CONFIRM].

Definition PHASE_ANSWER : string := "Answer".
Definition PHASE_AWAIT_PREPARE : string := "AwaitPrepare".
Definition PHASE_PRESIGN : string := "Presign".
Definition PHASE_CONFIRM : string := "Confirm".
Definition PHASE_POST : string := "Post".
Definition PHASE_DONE : string := "Done".
Definition PHASE_FAILED : string := "Failed".
Definition PHASE_KEY : string := "Key".

Definition phase_of (status : InstanceBridgeInStatus) : string :=
  match status with
  | UserInited => PHASE_ANSWER
  | CommitteesAnswered => PHASE_AWAIT_PREPARE
  | UserBroadcastPeginPrepare => PHASE_PRESIGN
  | Presigned => PHASE_CONFIRM
  | RelayerL1Broadcasted => PHASE_POST
  | RelayerL2Minted => PHASE_DONE
  | Timeout | UserCanceled | NoEnoughCommitteesAnswered | UserDiscarded => PHASE_FAILED
  end.

Definition job_phase (action : string) : string :=
  if decide (action = JOB_ANSWER_PEGIN_REQUEST) then PHASE_ANSWER
  else if decide (action = JOB_CONFIRM_INSTANCE) then PHASE_PRESIGN
  else if decide (action = JOB_POST_PEGIN_DATA) then PHASE_POST
  else if decide (action = JOB_DELETE_INSTANCE_KEY) then PHASE_KEY
  else PHASE_CONFIRM.

Definition confirm_round_over (status : InstanceBridgeInStatus) : bool :=
  is_failed status ||
  match status with RelayerL1Broadcasted | RelayerL2Minted => true | _ => false end.

Definition route_action (kind : string) (actor : Actor) : option string :=
  if negb (bool_decide (actor = Committee)) then None
  else if decide (kind = "PeginConfirmNonce"%string) then Some JOB_INGEST_PEGIN_CONFIRM_NONCE
  else if decide (kind = "PeginConfirmNonceConsensus"%string) then Some JOB_INGEST_PEGIN_CONFIRM_VOTE
  else if decide (kind = "PeginConfirmPartialSig"%string)
       then Some JOB_INGEST_PEGIN_CONFIRM_PARTIAL_SIG
  else None.

Definition engine_handles (kind : string) (actor : Actor) : bool := is_some (route_action kind actor).

Record StartGraph := mkStartGraph { sg_graph_id : Uuid; sg_operator_pubkey : string }.

Record InstancePlan := mkInstancePlan {
  pl_messages : list PlannedMessage;
  pl_next : list NextJob;
  pl_start_graph : option StartGraph;
  pl_wake_refs : list string;
  pl_note : option string;
}.

(** What a committee member contributed to the PeginConfirm round. *)
Record InstanceProcessDataItem := mkProcessItem {
  pd_pub_nonce : option string;
  pd_agg_nonce_consensus_hash : option string;
  pd_agg_nonce_consensus_signature : option string;
  pd_partial_sign : option string;
  pd_endorse_signature : bytes;
}.

(** [serde_json] and [bincode] on what the aggregate decodes and encodes. *)
Class InstanceCodec := {
  snapshot_from_slice : bytes → outcome BtcSnapshot;
  window_from_slice : bytes → outcome AnswerWindow;
  minted_from_slice : bytes → outcome string;
  request_from_slice : bytes → outcome string;
  key_delete_params_to_vec : string → outcome bytes;
  key_delete_result_from_slice : bytes → outcome (bool * string);
  instance_plan_decode : bytes → outcome InstancePlan;
  process_data_from_str : string → outcome (IndexMap InstanceProcessDataItem);
  graph_endorsed_to_vec : Uuid → outcome bytes;
}.

(** The transaction ids of the three peg-in transactions of a row with its committee
    answers. *)
Class PeginTxids := pegin_txids : Instance_ → outcome (Txid * Txid * Txid).

Record InstanceAggregate := mkInstanceAggregate {
  ia_actor : Actor;
  ia_deadlines : PeginDeadlines;
  ia_relayer : bool;
  ia_key_delete_enabled : bool;
  ia_local_peer : string;
  ia_membership : MembershipProbe;
}.

Definition alert (a : InstanceAlert) : HM unit := raise_alert (alert_reason a).

Section Apply.
Context `{UuidText} `{OverflowChecks} `{Sha256} `{ProtoBase} `{JobResultJson}.
Context `{InboundCodec} `{OperatorStartCodec} `{InstanceCodec} `{PeginTxids}.
Context (self : InstanceAggregate) (ctx : ApplyContext).

Definition instance_ref (instance_id : Uuid) : AggregateRef :=
  mkRef INSTANCE_KIND (uuid_to_string instance_id).

Definition graph_endorsed_event (instance_id graph_id : Uuid) : outcome NewEvent :=
  payload ← graph_endorsed_to_vec graph_id;
  Ok (new_event ("instance:" +:+ uuid_to_string instance_id +:+ ":graph-endorsed:" +:+
                 uuid_to_string graph_id)
        (instance_ref instance_id) EVENT_GRAPH_ENDORSED Local_ payload).

Definition job (action : string) (params : bytes) : HM unit :=
  fx (enqueue_job (job_spec (ac_aggregate ctx) (job_phase action) action PoolNetwork params)).

Definition set_projection (status : InstanceBridgeInStatus) : HM unit :=
  fx (set_status (instance_status_str status));; fx (set_phase (phase_of status)).

Definition request_key_delete (instance : Instance_) (reason : string) : HM unit :=
  if negb (bool_decide (ia_actor self = Committee)) || it_key_deleted instance then mret tt
  else if negb (ia_key_delete_enabled self) then mret tt
  else match key_delete_params_to_vec reason with
       | Err _ => panic "KeyDeleteParams serializes"
       | Ok params =>
           fx (enqueue_job (job_spec (ac_aggregate ctx) PHASE_KEY JOB_DELETE_INSTANCE_KEY
                              PoolNetwork params))
       end.

Definition close_confirm_round (instance_id : Uuid) (reason : string) : HM unit :=
  fx (close_outbox (ClosePhase INSTANCE_KIND (uuid_to_string instance_id) PHASE_CONFIRM) reason).

Definition fail_graph (failed : InstanceBridgeInStatus) (graph : Graph) : HM unit :=
  let r := graph_ref (gr_graph_id graph) in
  fx (close_outbox (CloseAggregate (ar_kind r) (ar_id r))
        ("instance " +:+ instance_status_str failed));;
  hm_iter (λ phase, fx (cancel_phase_jobs_for_aggregate r phase)) [JOB_PHASE; GRAPH_PHASE_POST];;
  fx (wake (slot_ref (gr_operator_pubkey graph) (as_u64 (gr_kickoff_index graph)))).

Definition enter_failure (instance : Instance_) (failed : InstanceBridgeInStatus) : HM unit :=
  let instance_id := it_instance_id instance in
  let reason := "instance " +:+ instance_status_str failed in
  on_tables (obsolete_instance_graphs_except instance_id None);;
  fx (close_outbox (CloseAggregate INSTANCE_KIND (uuid_to_string instance_id)) reason);;
  hm_iter (λ phase, fx (cancel_phase_jobs phase))
    [PHASE_ANSWER; PHASE_PRESIGN; PHASE_CONFIRM; PHASE_POST];;
  graphs ← on_tables (get_graphs_by_instance_id instance_id);
  hm_iter (fail_graph failed) graphs;;
  sessions ← on_tables (list_pending_graph_inits_by_instance instance_id);
  hm_iter (λ session, release_setup_session session reason;; mret tt) sessions;;
  if deletes_key_on_entry failed then request_key_delete instance "failure" else mret tt.

Definition on_entered (instance : Instance_) (next : InstanceBridgeInStatus) : HM unit :=
  match next with
  | CommitteesAnswered => fx (cancel_phase_jobs PHASE_ANSWER)
  | Presigned =>
      if bool_decide (ia_actor self = Committee) then job JOB_START_PEGIN_CONFIRM "" else mret tt
  | RelayerL1Broadcasted =>
      close_confirm_round (it_instance_id instance) "Peg-In-Confirm confirmed";;
      if ia_relayer self then job JOB_POST_PEGIN_DATA "" else mret tt
  | RelayerL2Minted =>
      close_confirm_round (it_instance_id instance) "minted on Goat";;
      fx (cancel_phase_jobs PHASE_CONFIRM);;
      fx (cancel_phase_jobs PHASE_POST)
  | _ => if is_failed next then enter_failure instance next else mret tt
  end.

(** The columns a transition to [next] writes. *)
Definition transition_update (instance : Instance_) (status next : InstanceBridgeInStatus)
    (transition : Transition) : InstanceUpdate :=
  let update := (new_with_instance_id (it_instance_id instance))
    <| iu_status := Some (instance_status_str next) |>
    <| iu_only_if_status_in := Some [instance_status_str status] |>
    <| iu_btc_height := tr_prepare_height transition |>
    <| iu_committees_answers := tr_committees_answers transition |>
    <| iu_post_pegin_txhash := tr_post_pegin_txhash transition |> in
  match tr_committees_answers transition, next with
  | Some answers, CommitteesAnswered =>
      match pegin_txids (instance <| it_committees_answers := answers |>) with
      | Ok (deposit, confirm, cancel) =>
          update <| iu_btc_txid := Some deposit |> <| iu_pegin_confirm_txid := Some confirm |>
                 <| iu_pegin_cancel_txid := Some cancel |>
      | Err _ => update
      end
  | _, _ => update
  end.

Definition commit_transition (instance : Instance_) (status : InstanceBridgeInStatus)
    (transition : Transition) : HM unit :=
  let instance_id := it_instance_id instance in
  final_status ←
    match filter_some (λ next, negb (bool_decide (next = status))) (tr_next transition),
          tr_post_pegin_txhash transition with
    | Some next, _ =>
        updated ← on_tables (update_instance (transition_update instance status next transition));
        if negb updated then
          throw (Transient ["instance " +:+ uuid_to_string instance_id +:+ " left status " +:+
                            instance_status_str status +:+ " during the apply"])
        else on_entered instance next;; mret next
    | None, Some tx_hash =>
        on_tables (update_instance ((new_with_instance_id instance_id)
          <| iu_post_pegin_txhash := Some tx_hash |>));; mret status
    | None, None => mret status
    end;
  (if is_some (tr_prepare_height transition) then job JOB_CONFIRM_INSTANCE "" else mret tt);;
  (if tr_delete_key transition then request_key_delete instance "success" else mret tt);;
  hm_iter alert (tr_alerts transition);;
  set_projection final_status.

Definition apply_pegin_request (status : InstanceBridgeInStatus) (payload : bytes) :
    HM ApplyOutcome :=
  if negb (bool_decide (status = UserInited)) then mret Applied
  else
    (if bool_decide (ia_actor self = Committee) then job JOB_ANSWER_PEGIN_REQUEST payload
     else mret tt);;
    mret Applied.

Definition apply_round_message (instance_id : Uuid) (status : InstanceBridgeInStatus)
    (kind : string) (payload : bytes) : HM ApplyOutcome :=
  match inbound_decode payload with
  | Err error =>
      mret (Rejected ("malformed " +:+ kind +:+ " event: " +:+ default ""%string (head error)))
  | Ok inbound =>
      if bool_decide (im_author inbound = ia_local_peer self) then mret Applied
      else match route_action kind (ia_actor self) with
           | None =>
               mret (Rejected (kind +:+ " is not handled by " +:+ actor_to_string (ia_actor self)))
           | Some action =>
               if negb (ia_relayer self) && negb (holds_instance_key (ia_membership self) instance_id)
               then mret Applied
               else if bool_decide (status = UserInited) then
                 mret (Waiting (waiting_on (ac_aggregate ctx) "committee answers not recorded yet"))
               else if is_failed status || bool_decide (status = RelayerL2Minted) ||
                       (bool_decide (status = RelayerL1Broadcasted) &&
                        negb (bool_decide (kind = "PeginConfirmPartialSig"%string)))
               then mret Applied
               else
                 fx (enqueue_job (with_deadline (ac_now ctx + PARKED_MESSAGE_TTL_SECS)
                       (job_spec (ac_aggregate ctx) PHASE_CONFIRM action PoolNetwork payload)));;
                 mret Applied
           end
  end.

(** A follow-up job of a plan. *)
Definition enqueue_next (round_over : bool) (n : NextJob) : HM unit :=
  let phase := job_phase (nx_action n) in
  if round_over && bool_decide (phase = PHASE_CONFIRM) then mret tt
  else
    let spec := job_spec (ac_aggregate ctx) phase (nx_action n) PoolNetwork (nx_params n) in
    fx (enqueue_job
          (match nx_delay_secs n with
           | Some delay => with_run_after (ac_now ctx + Z.max delay 0) spec
           | None => spec
           end)).

(** One session per (instance, operator). *)
Definition start_graph (instance_id : Uuid) (start : StartGraph) : HM unit :=
  existing ← on_tables (find_pending_graph_init_by_instance_and_operator_pubkey instance_id
                          (sg_operator_pubkey start));
  graph_id ←
    match existing with
    | Some session => mret (pg_graph_id session)
    | None =>
        on_tables (upsert_pending_graph_init instance_id (sg_operator_pubkey start)
                     (sg_graph_id start));;
        mret (sg_graph_id start)
    end;
  event ← lift (operator_start_event instance_id graph_id (sg_operator_pubkey start));
  record_event_in event.

Definition apply_plan (instance : Instance_) (status : InstanceBridgeInStatus) (plan : InstancePlan) :
    HM unit :=
  let round_over := confirm_round_over status in
  hm_iter (λ message,
    if round_over && bool_decide (pm_phase_ref message = PHASE_CONFIRM) then mret tt
    else fx (send (planned_outbox message))) (pl_messages plan);;
  hm_iter (enqueue_next round_over) (pl_next plan);;
  match pl_start_graph plan with
  | Some start => if is_failed status then mret tt else start_graph (it_instance_id instance) start
  | None => mret tt
  end;;
  hm_iter (λ r, fx (wake r)) (pl_wake_refs plan).

(** The alert of a job that failed for good, if any. *)
Definition failure_alert (action : string) : option InstanceAlert :=
  if decide (action = JOB_ANSWER_PEGIN_REQUEST) then Some AnswerPeginRequestFailed
  else if decide (action = JOB_CONFIRM_INSTANCE) then Some ConfirmInstanceRejected
  else if decide (action ∈ [JOB_START_PEGIN_CONFIRM; JOB_PEGIN_CONFIRM_VOTE; JOB_PEGIN_CONFIRM_SIGN;
                            JOB_BROADCAST_PEGIN_CONFIRM]) then Some PeginConfirmRoundFailed
  else None.

Definition finish_job_result (status : InstanceBridgeInStatus) (result : JobResultEvent) :
    HM ApplyOutcome :=
  storage (clear_engine_job_result (jr_job_id result) (ac_now ctx));;
  set_projection status;;
  mret Applied.

Definition apply_job_result (instance : Instance_) (status : InstanceBridgeInStatus)
    (result : JobResultEvent) : HM ApplyOutcome :=
  let action := jr_action result in
  if decide (action = JOB_DELETE_INSTANCE_KEY) then
    match jr_outcome result with
    | ResultDone bytes =>
        if (unwrap_or (key_delete_result_from_slice bytes) (false, ""%string)).1 then
          on_tables (update_instance ((new_with_instance_id (it_instance_id instance))
            <| iu_key_deleted := Some true |>));; mret tt
        else mret tt
    | ResultFailed _ => alert KeyDeleteFailed
    | ResultCancelled | ResultPoisoned _ => mret tt
    end;;
    finish_job_result status result
  else if decide (action = JOB_POST_PEGIN_DATA) then
    match jr_outcome result with
    | ResultFailed _ => alert PostPeginDataRejected
    | _ => mret tt
    end;;
    finish_job_result status result
  else if decide (action ∈ INSTANCE_JOBS) then
    match jr_outcome result with
    | ResultDone bytes =>
        match instance_plan_decode bytes with
        | Err error => mret (Rejected ("malformed plan from " +:+ action +:+ ": " +:+
                                       default ""%string (head error)))
        | Ok plan => apply_plan instance status plan;; finish_job_result status result
        end
    | ResultFailed _ =>
        match failure_alert action with Some a => alert a | None => mret tt end;;
        finish_job_result status result
    | ResultCancelled | ResultPoisoned _ => finish_job_result status result
    end
  else mret (Rejected ("unknown instance job action " +:+ action)).

(** [find_pegin_instance_process_data]: an unreadable row counts as empty. *)
Definition round_process_data (instance_id : Uuid) : HM (IndexMap InstanceProcessDataItem) :=
  λ acc d e,
    match tables (find_instance_process_row instance_id) d e with
    | (Ok (Some row), d', e') =>
        (Val (unwrap_or (process_data_from_str (ip_process_data row)) []), acc, d', e')
    | (_, d', e') => (Val [], acc, d', e')
    end.

Definition all_partial_sigs_stored (instance : Instance_) : HM bool :=
  let committee := length (it_committees_answers instance) in
  if (committee =? 0)%nat then mret false
  else
    process_data ← round_process_data (it_instance_id instance);
    mret (committee <=? length (List.filter (λ kv, is_some (pd_partial_sign kv.2)) process_data))%nat.

Definition malformed (kind : string) (error : error) : ApplyOutcome :=
  Rejected ("malformed " +:+ kind +:+ " payload: " +:+ default ""%string (head error)).

(** [i64::to_le_bytes]. *)
Fixpoint le_text (n : nat) (z : Z) : string :=
  match n with
  | O => EmptyString
  | S n => String (Ascii.ascii_of_N (Z.to_N (z mod 256))) (le_text n (z / 256))
  end.

Definition apply_snapshot (instance : Instance_) (status : InstanceBridgeInStatus)
    (snapshot : BtcSnapshot) : HM unit :=
  let transition := decide_btc_snapshot status (it_btc_height instance) (it_key_deleted instance)
                      snapshot (ia_deadlines self) in
  (if ia_relayer self && rebroadcast_due status transition snapshot then
     stored ← all_partial_sigs_stored instance;
     if stored : bool then
       job JOB_BROADCAST_PEGIN_CONFIRM (le_text 8 (sn_height snapshot mod u64_modulus))
     else mret tt
   else mret tt);;
  commit_transition instance status transition.

Definition apply_event (instance_id : Uuid) (instance : Instance_) (status : InstanceBridgeInStatus)
    (kind : string) (payload : bytes) : HM ApplyOutcome :=
  if decide (kind = EVENT_BTC_SNAPSHOT) then
    match snapshot_from_slice payload with
    | Err error => mret (malformed EVENT_BTC_SNAPSHOT error)
    | Ok snapshot => apply_snapshot instance status snapshot;; mret Applied
    end
  else if decide (kind = EVENT_ANSWER_WINDOW) then
    match window_from_slice payload with
    | Err error => mret (malformed EVENT_ANSWER_WINDOW error)
    | Ok window =>
        commit_transition instance status
          (decide_answer_window status (it_goat_tx_height instance)
             (it_committees_answers instance) window);; mret Applied
    end
  else if decide (kind = EVENT_GRAPH_ENDORSED) then
    match status with
    | UserInited | CommitteesAnswered =>
        mret (Waiting (waiting_on (ac_aggregate ctx) "instance has not reached the Presign phase"))
    | _ =>
        endorsed ← with_context "count endorsed graphs"
          (on_tables (get_pegin_graph_endorsed_len_by_instance_id instance_id true));
        commit_transition instance status (decide_graph_endorsed status (Z.max 0 endorsed));;
        mret Applied
    end
  else if decide (kind = EVENT_L2_MINTED) then
    match minted_from_slice payload with
    | Err error => mret (malformed EVENT_L2_MINTED error)
    | Ok tx_hash => commit_transition instance status (decide_l2_minted status tx_hash);; mret Applied
    end
  else if decide (kind = EVENT_PEGIN_REQUEST) then
    match request_from_slice payload with
    | Err error => mret (malformed EVENT_PEGIN_REQUEST error)
    | Ok _ =>
        outcome ← apply_pegin_request status payload;
        set_projection status;; mret outcome
    end
  else if decide (kind = JOB_RESULT_KIND) then
    match job_result_decode payload with
    | Err error => throw (Invariant error)
    | Ok result => apply_job_result instance status result
    end
  else if engine_handles kind Committee then
    outcome ← apply_round_message instance_id status kind payload;
    set_projection status;; mret outcome
  else mret (Rejected ("unknown instance event kind " +:+ kind)).

Definition instance_apply (event : EngineInboxEvent) : HM ApplyOutcome :=
  match uuid_from_str (ar_id (ac_aggregate ctx)) with
  | Err error =>
      throw (Invariant ["instance aggregate id " +:+ ar_id (ac_aggregate ctx) +:+ ": " +:+
                        default ""%string (head error)])
  | Ok instance_id =>
      row ← on_tables (find_instance instance_id);
      match row with
      | None => mret (Waiting (waiting_on (ac_aggregate ctx) "instance row not found"))
      | Some instance =>
          match instance_status_of (it_status instance) with
          | None =>
              throw (Invariant ["instance " +:+ uuid_to_string instance_id +:+
                                " has unknown status " +:+ it_status instance])
          | Some status =>
              apply_event instance_id instance status (ib_kind event)
                (default ""%string (ib_payload event))
          end
      end
  end.

(** ** Applies keep the orders *)

Lemma transition_update_advances instance status next transition :
  advances status next = true → update_advances (transition_update instance status next transition).
Proof.
  intros Ha. unfold transition_update. split.
  - intros n E. exists status, next. repeat case_match; cbn in *; by simplify_eq.
  - repeat case_match; done.
Qed.

Lemma hguar_key_delete instance reason : hm_guar both_next (request_key_delete instance reason).
Proof. unfold request_key_delete. hguar. Qed.

Lemma hguar_enter_failure instance failed : hm_guar both_next (enter_failure instance failed).
Proof. unfold enter_failure, fail_graph. hguar. apply hguar_key_delete. Qed.

Lemma hguar_on_entered instance next : hm_guar both_next (on_entered instance next).
Proof.
  unfold on_entered, job, close_confirm_round. hguar; apply hguar_enter_failure.
Qed.

Lemma hguar_commit instance status transition :
  (∀ next, tr_next transition = Some next → advances status next = true) →
  hm_guar both_next (commit_transition instance status transition).
Proof.
  intros Ht. unfold commit_transition, job, set_projection, alert.
  destruct (filter_some _ _) as [next|] eqn:E.
  - apply filter_some_Some in E as [E _]. hguar; try apply hguar_key_delete; try apply hguar_on_entered.
    by apply update_instance_next, transition_update_advances, Ht.
  - hguar; try apply hguar_key_delete. by apply update_instance_next.
Qed.
End Apply.
