(* ===== verification/GraphPegout.v ===== *)
(** * Withdraw and settlement decisions of a graph

    Which job a role runs for a signal of the chain, what status a chain scan
    implies, and whether an earlier slot of the operator is settled, may be skipped,
    or still blocks its successor.

    Source: node/src/aggregates/graph_pegout.rs, node/src/aggregates/graph_fetch.rs. *)

From stdpp Require Import base list strings pretty.
From S2P Require Import Prelude EngineEffects NodeSchema InstanceDecide.

Local Open Scope Z_scope.

Definition EVENT_WITHDRAW_INIT : string := "withdraw_init".
Definition EVENT_WITHDRAW_CANCEL : string := "withdraw_cancel".
Definition EVENT_CHAIN_SCAN : string := "chain_scan".
Definition EVENT_GOAT_STATUS : string := "goat_status".

Definition PHASE_KICKOFF : string := "Kickoff".
Definition PHASE_SETTLEMENT : string := "Settlement".

Definition JOB_KICKOFF : string := "kickoff".
Definition JOB_SETTLE_PREDECESSORS : string := "settle_predecessors".
Definition JOB_ENFORCE_PREVIOUS_SLOT : string := "enforce_previous_slot".
Definition JOB_PROCEED_WITHDRAW : string := "proceed_withdraw".
Definition JOB_CHALLENGE_KICKOFF : string := "challenge_kickoff".
Definition JOB_WATCHTOWER_CHALLENGE_INIT : string := "watchtower_challenge_init".
Definition JOB_WATCHTOWER_CHALLENGE : string := "watchtower_challenge".
Definition JOB_WATCHTOWER_PROOF_TIMEOUT : string := "watchtower_proof_timeout".
Definition JOB_CHALLENGE_ACK : string := "challenge_ack".
Definition JOB_WATCHTOWER_TIMEOUT : string := "watchtower_timeout".
Definition JOB_CHALLENGE_NACK : string := "challenge_nack".
Definition JOB_COMMIT_PUBIN : string := "commit_pubin".
Definition JOB_COMMIT_TIMEOUT : string := "commit_timeout".
Definition JOB_PROVER_ASSERT : string := "prover_assert".
Definition JOB_VERIFIER_ASSERT : string := "verifier_assert".
Definition JOB_WRONGLY_CHALLENGED : string := "wrongly_challenged".
Definition JOB_DISPROVE : string := "disprove".
Definition JOB_FINISH_DISPROVED : string := "finish_disproved".
Definition JOB_TAKE1 : string := "take1".
Definition JOB_FINISH_HAPPY : string := "finish_happy".
Definition JOB_TAKE2 : string := "take2".
Definition JOB_FINISH_UNHAPPY : string := "finish_unhappy".

Definition PEGOUT_JOBS : list string :=
  [JOB_KICKOFF; JOB_SETTLE_PREDECESSORS; JOB_ENFORCE_PREVIOUS_SLOT; JOB_PROCEED_WITHDRAW;
   JOB_CHALLENGE_KICKOFF; JOB_WATCHTOWER_CHALLENGE_INIT; JOB_WATCHTOWER_CHALLENGE;
   JOB_WATCHTOWER_PROOF_TIMEOUT; JOB_CHALLENGE_ACK; JOB_WATCHTOWER_TIMEOUT; JOB_CHALLENGE_NACK;
   JOB_COMMIT_PUBIN; JOB_COMMIT_TIMEOUT; JOB_PROVER_ASSERT; JOB_VERIFIER_ASSERT;
   JOB_WRONGLY_CHALLENGED; JOB_DISPROVE; JOB_FINISH_DISPROVED; JOB_TAKE1; JOB_FINISH_HAPPY;
   JOB_TAKE2; JOB_FINISH_UNHAPPY].

Definition pegout_job_pool (action : string) : JobPool :=
  if decide (action ∈ [JOB_WATCHTOWER_CHALLENGE; JOB_COMMIT_PUBIN; JOB_PROVER_ASSERT;
                       JOB_VERIFIER_ASSERT; JOB_WRONGLY_CHALLENGED])
  then PoolPegout else PoolNetwork.

(** ** Signals *)

(** [client::goat_chain::DisproveTxType]. *)
Inductive DisproveTxType :=
| TxDisprove | QuickChallenge | ChallengeIncompleteKickoff | PubinDisprove
| OperatorChallengeNack | OperatorCommitTimeout.

Inductive PegoutSignal :=
| PreKickoffSent
| KickoffSent
| Take1Ready
| Take1Sent
| ChallengeSent (challenge_txid : Txid)
| WatchtowerChallengeInitSent
| WatchtowerChallengeSent (watchtower_index : Z)
| WatchtowerChallengeTimeout
| NackReady (watchtower_index : Z)
| OperatorCommitPubinReady
| OperatorCommitPubinTimeout
| AssertReady
| AssertSent (assert_txid : Txid)
| ChallengeAssertSent (challenge_assert_txid : Txid) (verifier_index : Z)
| WronglyChallengeTimeout (challenge_assert_txid : Txid) (verifier_index : Z)
| DisproveSent (disprove_type : DisproveTxType) (index : Z) (challenge_finish_txid : Txid)
| Take2Ready
| Take2Sent.

Inductive Unusable :=
| ConnectorZeroTaken (spent_by : Txid)
| PrekickoffInputSpent (outpoint : string) (spent_by : Txid)
| EarlierSlotDead (slot : Z).

Record ChainScan := mkScan {
  cs_height : Z;
  cs_status_at_scan : string;
  cs_stage : GraphStatus;
  cs_sub_status : option string;
  cs_challenge_txid : option Txid;
  cs_unusable : option Unusable;
  cs_signals : list PegoutSignal;
}.

Definition route_signal (signal : PegoutSignal) (actor : Actor) (relayer own : bool) :
    option string :=
  match signal, actor with
  | PreKickoffSent, Verifier => Some JOB_ENFORCE_PREVIOUS_SLOT
  | KickoffSent, Committee => if relayer then Some JOB_PROCEED_WITHDRAW else None
  | KickoffSent, Verifier => Some JOB_CHALLENGE_KICKOFF
  | ChallengeSent _, Operator => if own then Some JOB_WATCHTOWER_CHALLENGE_INIT else None
  | WatchtowerChallengeInitSent, Watchtower => Some JOB_WATCHTOWER_CHALLENGE
  | AssertSent _, Watchtower => Some JOB_WATCHTOWER_PROOF_TIMEOUT
  | WatchtowerChallengeSent _, Operator => if own then Some JOB_CHALLENGE_ACK else None
  | WatchtowerChallengeTimeout, Operator => if own then Some JOB_WATCHTOWER_TIMEOUT else None
  | NackReady _, Verifier => Some JOB_CHALLENGE_NACK
  | OperatorCommitPubinReady, Operator => if own then Some JOB_COMMIT_PUBIN else None
  | OperatorCommitPubinTimeout, Verifier => Some JOB_COMMIT_TIMEOUT
  | AssertReady, Operator => if own then Some JOB_PROVER_ASSERT else None
  | AssertSent _, Verifier => Some JOB_VERIFIER_ASSERT
  | ChallengeAssertSent _ _, Operator => if own then Some JOB_WRONGLY_CHALLENGED else None
  | WronglyChallengeTimeout _ _, Verifier => Some JOB_DISPROVE
  | DisproveSent _ _ _, Committee => if relayer then Some JOB_FINISH_DISPROVED else None
  | Take1Ready, Operator => if own then Some JOB_TAKE1 else None
  | Take1Sent, Committee => if relayer then Some JOB_FINISH_HAPPY else None
  | Take2Ready, Operator => if own then Some JOB_TAKE2 else None
  | Take2Sent, Committee => if relayer then Some JOB_FINISH_UNHAPPY else None
  | _, _ => None
  end.

(** ** The status a scan implies *)

Definition decide_status (scan : ChainScan) (instance_failed : bool) : option GraphStatus :=
  match cs_stage scan with
  | PreKickoff | OperatorKickOff | Challenge | Disprove | OperatorTake1 | OperatorTake2 | Skipped =>
      Some (cs_stage scan)
  | stage =>
      if is_some (cs_unusable scan) then Some Obsoleted
      else match stage with
           | OperatorDataPushed => Some OperatorDataPushed
           | OperatorPresigned | CommitteePresigned =>
               if instance_failed then Some Obsoleted else None
           | _ => None
           end
  end.

(** ** Slots *)

Inductive GraphLookup :=
| LookupId (instance_id graph_id : Uuid) (finalized : bool)
| LookupSlot (operator_pubkey : string) (graph_nonce : Z).

Inductive KickoffConnectorSpend := Unspent | ByKickoff | ByOther.
#[export] Instance KickoffConnectorSpend_eq_dec : EqDecision KickoffConnectorSpend.
Proof. solve_decision. Defined.

Record LocalSlot := mkLocalSlot {
  ls_graph_id : Uuid;
  ls_instance_id : Uuid;
  ls_status : GraphStatus;
  ls_finalized : bool;
  ls_instance_status : option InstanceBridgeInStatus;
}.

Record SlotFacts := mkSlotFacts {
  sf_slot : Z;
  sf_local : option LocalSlot;
  sf_kickoff_connector : KickoffConnectorSpend;
  sf_prekickoff_dead : bool;
  sf_posted : bool;
  sf_connector_zero_taken : bool;
  sf_cancel_confirmed : bool;
  sf_confirm : TxFact;
  sf_past_abandon_height : bool;
}.

Inductive SlotVerdict :=
| Settled
| Pull (lookup : GraphLookup)
| Skip (premise : string)
| Wait (detail : string)
| Stuck (detail : string).

Definition decide_slot (facts : SlotFacts) (operator_pubkey : string) : SlotVerdict :=
  let slot := sf_slot facts in
  match sf_local facts with
  | None => Pull (LookupSlot operator_pubkey slot)
  | Some local =>
      if bool_decide (sf_kickoff_connector facts = ByOther) || is_closed (ls_status local) then Settled
      else if bool_decide (sf_kickoff_connector facts = ByKickoff) ||
              is_pegout_started (ls_status local)
      then Wait ("slot " +:+ pretty slot +:+ " is in peg-out")
      else if sf_prekickoff_dead facts then
        Stuck ("Pre-Kickoff of slot " +:+ pretty slot +:+
               " can never confirm: an input is spent elsewhere")
      else if sf_posted facts then
        if negb (ls_finalized local) then
          Pull (LookupId (ls_instance_id local) (ls_graph_id local) true)
        else if sf_connector_zero_taken facts then Skip "connector-0 taken by another graph"
        else Wait ("slot " +:+ pretty slot +:+ " is posted and available for withdrawal")
      else if sf_connector_zero_taken facts then Skip "connector-0 taken by another graph"
      else if sf_cancel_confirmed facts then Skip "peg-in canceled"
      else match ls_instance_status local with
           | None => Wait ("instance of slot " +:+ pretty slot +:+ " is unknown")
           | Some status =>
               if is_failed status then
                 if tf_confirmed (sf_confirm facts) then
                   Stuck ("Peg-In-Confirm of slot " +:+ pretty slot +:+
                          " is confirmed although its instance is " +:+ instance_status_str status)
                 else if tf_in_mempool (sf_confirm facts) then
                   Wait ("Peg-In-Confirm of slot " +:+ pretty slot +:+ " is in the mempool")
                 else if decide (status = Timeout) then Skip "instance timed out"
                 else Skip "instance failed"
               else if sf_past_abandon_height facts &&
                       (negb (ls_finalized local) || bool_decide (ls_status local = Obsoleted))
               then Skip "unfinished at the abandon height"
               else Wait ("slot " +:+ pretty slot +:+ " (" +:+
                          (if ls_finalized local then "finalized" else "unfinished") +:+
                          ") belongs to a live instance (" +:+ instance_status_str status +:+ ")")
           end
  end.

(** What makes a slot skippable: nothing of the graph is on chain, and the peg-in
    it serves is over, was taken by another graph, or can never be signed. *)
Record skip_evidence (facts : SlotFacts) (local : LocalSlot) : Prop := {
  sk_no_kickoff : sf_kickoff_connector facts = Unspent;
  sk_not_started : is_pegout_started (ls_status local) = false;
  sk_not_closed : is_closed (ls_status local) = false;
  sk_alive : sf_prekickoff_dead facts = false;
  sk_posted : sf_posted facts = true → ls_finalized local = true ∧ sf_connector_zero_taken facts = true;
  sk_reason :
    sf_connector_zero_taken facts = true ∨ sf_cancel_confirmed facts = true ∨
    (∃ status, ls_instance_status local = Some status ∧ is_failed status = true ∧
       invisible (sf_confirm facts) = true) ∨
    (is_some (ls_instance_status local) = true ∧ sf_past_abandon_height facts = true ∧
       (ls_finalized local = false ∨ ls_status local = Obsoleted));
}.

Lemma decide_slot_skip facts operator premise :
  decide_slot facts operator = Skip premise →
  ∃ local, sf_local facts = Some local ∧ skip_evidence facts local.
Proof.
  unfold decide_slot. destruct (sf_local facts) as [local|] eqn:El; [|done]. intros Hd.
  exists local. split; [done|].
  destruct (sf_kickoff_connector facts) eqn:Ek, (is_closed (ls_status local)) eqn:Ec; try done.
  destruct (is_pegout_started (ls_status local)) eqn:Es; [done|]. cbn in Hd.
  destruct (sf_prekickoff_dead facts) eqn:Ed; [done|].
  destruct (sf_posted facts) eqn:Ep.
  - destruct (ls_finalized local) eqn:Ef, (sf_connector_zero_taken facts) eqn:Ez; try done.
    split; auto.
  - split; try (done || congruence). unfold invisible.
    destruct (sf_connector_zero_taken facts) eqn:Ez; [auto|]. right.
    destruct (sf_cancel_confirmed facts) eqn:Ecc; [by left|]. right.
    destruct (ls_instance_status local) as [status|]; [|done].
    destruct (is_failed status) eqn:Ef.
    + left. exists status. destruct (tf_confirmed _), (tf_in_mempool _); try done.
    + right. destruct (sf_past_abandon_height facts) eqn:Ea; [|done]. cbn in Hd.
      split_and!; [done..|]. destruct (ls_finalized local); [|by left]. cbn in Hd.
      destruct (bool_decide_reflect (ls_status local = Obsoleted)); [by right|done].
Qed.
