(* ===== verification/GraphAggregate.v ===== *)
(** * The Graph aggregate

    The apply of a peg-out graph: it routes messages to validation jobs, waits for
    definitions it lacks, commits the plans of jobs, follows withdraw events and
    chain scans, and mirrors the stored status.

    Source: node/src/aggregates/graph.rs, node/src/aggregates/graph_pegout.rs. *)

From stdpp Require Import base list strings gmap pretty.
From S2P Require Import Prelude Table Storage EngineSchema JobStore EngineEffects NodeSchema LocalDb.
From S2P Require Import NodeNext NodeApply InstanceDecide InstanceAggregate GraphPegout.

Local Open Scope Z_scope.

Definition EVENT_GRAPH_POSTED : string := "graph_posted".
Definition EVENT_GRAPH_PULL : string := "graph_pull".
Definition EVENT_GRAPH_PULLED : string := "graph_pulled".
Definition EVENT_SETUP_ABANDONED : string := "setup_abandoned".
Definition EVENT_BUILD_READY : string := "build_ready".

Definition PHASE_SETUP : string := "Setup".
Definition PHASE_COLLECT : string := "Collect".
Definition PHASE_SIGNING : string := "Signing".
Definition PHASE_SIGNED : string := "Signed".
Definition PHASE_DELIVER : string := "Deliver".
Definition PHASE_AWAIT_WITHDRAW : string := "AwaitWithdraw".
Definition PHASE_CLOSED : string := "Closed".
Definition PHASE_OBSOLETED : string := "Obsoleted".
Definition PHASE_ENDORSE : string := "Endorse".

Definition JOB_OPERATOR_INIT : string := "operator_init_graph".
Definition JOB_VERIFIER_SETUP : string := "verifier_setup".
Definition JOB_INGEST_GEN_CIRCUITS : string := "ingest_gen_circuits".
Definition JOB_FREEZE_CANDIDATES : string := "freeze_candidates".
Definition JOB_VERIFIER_SOLDER : string := "verifier_solder".
Definition JOB_INGEST_SOLDERING_PROOF : string := "ingest_soldering_proof".
Definition JOB_SEAL_PROOFS : string := "seal_proofs".
Definition JOB_BUILD_GRAPH : string := "build_graph".
Definition JOB_VERIFIER_VALIDATE_GRAPH : string := "verifier_validate_graph".
Definition JOB_COMMITTEE_INGEST_GRAPH : string := "committee_ingest_graph".
Definition JOB_INGEST_VERIFIER_ENDORSEMENT : string := "ingest_verifier_endorsement".
Definition JOB_COMMITTEE_NONCES : string := "committee_nonces".
Definition JOB_INGEST_NONCES : string := "ingest_nonces".
Definition JOB_COMMITTEE_VOTE : string := "committee_vote".
Definition JOB_INGEST_VOTE : string := "ingest_vote".
Definition JOB_COMMITTEE_PRESIGN : string := "committee_presign".
Definition JOB_INGEST_PRESIGN : string := "ingest_presign".
Definition JOB_COMMITTEE_ENDORSE : string := "committee_endorse".
Definition JOB_INGEST_ENDORSEMENT : string := "ingest_endorsement".
Definition JOB_FINALIZE_GRAPH : string := "finalize_graph".
Definition JOB_INGEST_FINALIZED : string := "ingest_finalized".
Definition JOB_POST_GRAPH_DATA : string := "post_graph_data".
Definition JOB_FETCH_GRAPH : string := "fetch_graph".

Definition ALL_JOBS : list string :=
  [JOB_OPERATOR_INIT; JOB_VERIFIER_SETUP; JOB_INGEST_GEN_CIRCUITS; JOB_FREEZE_CANDIDATES;
   JOB_VERIFIER_SOLDER; JOB_INGEST_SOLDERING_PROOF; JOB_SEAL_PROOFS; JOB_BUILD_GRAPH;
   JOB_VERIFIER_VALIDATE_GRAPH; JOB_COMMITTEE_INGEST_GRAPH; JOB_INGEST_VERIFIER_ENDORSEMENT;
   JOB_COMMITTEE_NONCES; JOB_INGEST_NONCES; JOB_COMMITTEE_VOTE; JOB_INGEST_VOTE;
   JOB_COMMITTEE_PRESIGN; JOB_INGEST_PRESIGN; JOB_COMMITTEE_ENDORSE; JOB_INGEST_ENDORSEMENT;
   JOB_FINALIZE_GRAPH; JOB_INGEST_FINALIZED; JOB_POST_GRAPH_DATA; JOB_FETCH_GRAPH].

Definition job_pool (action : string) : JobPool :=
  if decide (action ∈ PEGOUT_JOBS) then pegout_job_pool action
  else if decide (action ∈ [JOB_VERIFIER_SETUP; JOB_VERIFIER_SOLDER; JOB_INGEST_SOLDERING_PROOF;
                            JOB_BUILD_GRAPH; JOB_VERIFIER_VALIDATE_GRAPH; JOB_COMMITTEE_INGEST_GRAPH;
                            JOB_COMMITTEE_PRESIGN; JOB_INGEST_PRESIGN; JOB_FINALIZE_GRAPH;
                            JOB_INGEST_FINALIZED])
  then PoolCpu else PoolNetwork.

(** ** Payloads *)

Record GraphPull := mkPull { gp_lookup : GraphLookup }.

Record GraphPulled := mkPulled { gpd_instance_id : Uuid; gpd_finalized : bool }.

Record SetupAbandoned := mkAbandoned {
  sa_instance_id : Uuid;
  sa_abandon_height : Z;
  sa_height : Z;
}.

Record GraphStateUpdate := mkStateUpdate {
  su_instance_id : option Uuid;
  su_operator_pubkey : option string;
  su_graph_nonce : option Z;
  su_finalized : option bool;
}.

Record GraphPlan := mkGraphPlan {
  gpl_messages : list PlannedMessage;
  gpl_close_rows : list string;
  gpl_next : list NextJob;
  gpl_state : GraphStateUpdate;
  gpl_delete_pending_session : bool;
  gpl_notify_instance_endorsed : bool;
  gpl_wake_refs : list string;
  gpl_note : option string;
}.

(** [GraphPlan { wake_refs, ..Default::default() }]. *)
Definition only_wakes (refs : list string) : GraphPlan :=
  mkGraphPlan [] [] [] (mkStateUpdate None None None None) false false refs None.

Record GraphState := mkGraphState {
  gs_instance_id : option Uuid;
  gs_operator_pubkey : option string;
  gs_graph_nonce : option Z;
  gs_finalized : bool;
  gs_withdraw : option string;
  gs_retired_withdraws : list string;
  gs_dead : bool;
  gs_abandoned : bool;
}.

#[export] Instance eta_GraphState : Eta GraphState := λ s,
  mkGraphState (gs_instance_id s) (gs_operator_pubkey s) (gs_graph_nonce s) (gs_finalized s)
    (gs_withdraw s) (gs_retired_withdraws s) (gs_dead s) (gs_abandoned s).

Definition GraphState_default : GraphState := mkGraphState None None None false None [] false false.

Definition merge (s : GraphState) (u : GraphStateUpdate) : GraphState :=
  s <| gs_instance_id ::= option_union (su_instance_id u) |>
    <| gs_operator_pubkey ::= option_union (su_operator_pubkey u) |>
    <| gs_graph_nonce ::= option_union (su_graph_nonce u) |>
    <| gs_finalized ::= λ f, default f (su_finalized u) |>.

(** [serde_json] and [bincode] on what the aggregate decodes and encodes. *)
Class GraphCodec := {
  graph_state_to_string : GraphState → outcome string;
  graph_state_from_str : string → outcome GraphState;
  graph_plan_decode : bytes → outcome GraphPlan;
  lookup_serialize : GraphLookup → outcome bytes;
  pull_serialize : GraphPull → outcome bytes;
  pull_deserialize : bytes → outcome GraphPull;
  pulled_serialize : GraphPulled → outcome bytes;
  pulled_deserialize : bytes → outcome GraphPulled;
  abandoned_serialize : SetupAbandoned → outcome bytes;
  abandoned_deserialize : bytes → outcome SetupAbandoned;
  withdraw_from_slice : bytes → outcome string;
  scan_from_slice : bytes → outcome ChainScan;
  signal_encode : PegoutSignal → outcome bytes;
  kickoff_params_to_vec : string → outcome bytes;
}.
Class GraphCodecLaws `{GraphCodec} : Prop := {
  graph_state_roundtrip s t : graph_state_to_string s = Ok t → graph_state_from_str t = Ok s;
  pull_roundtrip p b : pull_serialize p = Ok b → pull_deserialize b = Ok p;
  pulled_roundtrip p b : pulled_serialize p = Ok b → pulled_deserialize b = Ok p;
  abandoned_roundtrip a b : abandoned_serialize a = Ok b → abandoned_deserialize b = Ok a;
}.

(** An unreadable state counts as none. *)
Definition load_state `{GraphCodec} (raw : option string) : GraphState :=
  match raw with
  | Some raw => unwrap_or (graph_state_from_str raw) GraphState_default
  | None => GraphState_default
  end.

(** ** Routing *)

Definition graph_route_action (kind : string) (actor : Actor) : option string :=
  if decide (kind = "InitGraph"%string) then
    match actor with Verifier => Some JOB_VERIFIER_SETUP | _ => None end
  else if decide (kind = "GenCircuits"%string) then
    match actor with Operator => Some JOB_INGEST_GEN_CIRCUITS | _ => None end
  else if decide (kind = "CutCircuits"%string) then
    match actor with Verifier => Some JOB_VERIFIER_SOLDER | _ => None end
  else if decide (kind = "SolderingProofReady"%string) then
    match actor with Operator => Some JOB_INGEST_SOLDERING_PROOF | _ => None end
  else if decide (kind = "CreateGraph"%string) then
    match actor with
    | Verifier => Some JOB_VERIFIER_VALIDATE_GRAPH
    | Committee => Some JOB_COMMITTEE_INGEST_GRAPH
    | _ => None
    end
  else if decide (kind = "VerifierGraphParamsEndorsement"%string) then
    match actor with Committee => Some JOB_INGEST_VERIFIER_ENDORSEMENT | _ => None end
  else if decide (kind = "NonceGeneration"%string) then
    match actor with Committee | Operator => Some JOB_INGEST_NONCES | _ => None end
  else if decide (kind = "AggNonceConsensus"%string) then
    match actor with Committee => Some JOB_INGEST_VOTE | _ => None end
  else if decide (kind = "CommitteePresign"%string) then
    match actor with Committee | Operator => Some JOB_INGEST_PRESIGN | _ => None end
  else if decide (kind = "EndorseGraph"%string) then
    match actor with Operator => Some JOB_INGEST_ENDORSEMENT | _ => None end
  else if decide (kind = "GraphFinalize"%string) then Some JOB_INGEST_FINALIZED
  else None.

Definition graph_engine_handles (kind : string) (actor : Actor) : bool :=
  is_some (graph_route_action kind actor).

Definition ack_required (kind : string) : bool :=
  bool_decide (kind ∈ ["GenCircuits"; "CutCircuits"; "SolderingProofReady"; "CreateGraph";
                       "GraphFinalize"]%string).

(** ** Phases *)

Definition graph_phase_of (status : option GraphStatus) (actor : Actor) (relayer withdrawing : bool) :
    string :=
  match status with
  | None => PHASE_SETUP
  | Some OperatorPresigned =>
      match actor with Operator => PHASE_COLLECT | Committee => PHASE_SIGNING | _ => PHASE_SETUP end
  | Some CommitteePresigned =>
      match actor with
      | Operator => PHASE_DELIVER
      | _ => if relayer then GRAPH_PHASE_POST else PHASE_SIGNED
      end
  | Some OperatorDataPushed => if withdrawing then PHASE_KICKOFF else PHASE_AWAIT_WITHDRAW
  | Some PreKickoff => PHASE_KICKOFF
  | Some (OperatorKickOff | Challenge) => PHASE_SETTLEMENT
  | Some Obsoleted => PHASE_OBSOLETED
  | Some (Skipped | Disprove | OperatorTake1 | OperatorTake2) => PHASE_CLOSED
  end.

Definition signing_round_over (status : option GraphStatus) : bool :=
  match status with
  | Some OperatorPresigned => false
  | Some _ => true
  | None => false
  end.

Definition past_signing (status : option GraphStatus) : bool :=
  match status with
  | Some (OperatorPresigned | CommitteePresigned) => false
  | Some _ => true
  | None => false
  end.

Definition retired (status : option GraphStatus) : bool :=
  match status with Some s => is_obsoleted s || is_closed s | None => false end.

(** ** The handler *)

Record GraphAggregate := mkGraphAggregate {
  ga_actor : Actor;
  ga_relayer : bool;
  ga_local_peer : string;
  ga_membership : MembershipProbe;
  ga_local_operator : option string;
}.

Definition owns (self : GraphAggregate) (row : Graph) : bool :=
  bool_decide (ga_actor self = Operator) &&
  bool_decide (ga_local_operator self = Some (gr_operator_pubkey row)).

Section Apply.
Context `{UuidText} `{OverflowChecks} `{Sha256} `{ProtoBase} `{JobResultJson}.
Context `{InboundCodec} `{OperatorStartCodec} `{InstanceCodec} `{GraphCodec}.
Context (self : GraphAggregate) (ctx : ApplyContext).

Definition enqueue_setup_job (action : string) (payload : bytes) : HM unit :=
  fx (enqueue_job (job_spec (ac_aggregate ctx) JOB_PHASE action (job_pool action) payload)).

Definition build_ready_event (graph_id : Uuid) : NewEvent :=
  new_event ("graph:" +:+ uuid_to_string graph_id +:+ ":build-ready") (graph_ref graph_id)
    EVENT_BUILD_READY Local_ "".

Definition setup_abandoned_event (graph_id : Uuid) (abandoned : SetupAbandoned) : outcome NewEvent :=
  payload ← abandoned_serialize abandoned;
  Ok (new_event ("graph:" +:+ uuid_to_string graph_id +:+ ":abandon:" +:+ pretty (sa_height abandoned))
        (graph_ref graph_id) EVENT_SETUP_ABANDONED Height payload).

Definition graph_pulled_event (graph_id instance_id : Uuid) (finalized : bool) : outcome NewEvent :=
  let flavour : string := if finalized then "finalized" else "presigned" in
  payload ← pulled_serialize (mkPulled instance_id finalized);
  Ok (new_event ("graph:" +:+ uuid_to_string graph_id +:+ ":pulled:" +:+ flavour)
        (graph_ref graph_id) EVENT_GRAPH_PULLED Local_ payload).

Definition graph_posted_event (graph_id : Uuid) : outcome NewEvent :=
  Ok (new_event ("graph:" +:+ uuid_to_string graph_id +:+ ":posted") (graph_ref graph_id)
        EVENT_GRAPH_POSTED Chain "").

Definition graph_pull_event (graph_id : Uuid) (lookup : GraphLookup) : outcome NewEvent :=
  let key : string :=
    match lookup with
    | LookupId _ _ false => "id"
    | LookupId _ _ true => "finalized"
    | LookupSlot operator_pubkey graph_nonce =>
        "slot:" +:+ operator_pubkey +:+ ":" +:+ pretty graph_nonce
    end in
  payload ← pull_serialize (mkPull lookup);
  Ok (new_event ("graph:" +:+ uuid_to_string graph_id +:+ ":pull:" +:+ key) (graph_ref graph_id)
        EVENT_GRAPH_PULL Local_ payload).

Definition encode_lookup (lookup : GraphLookup) : HM bytes :=
  match lookup_serialize lookup with
  | Ok params => mret params
  | Err error =>
      throw (Transient ["encode graph lookup: " +:+ default ""%string (head error)])
  end.

Definition park_for_definition (inbound : InboundMessage) (created_at : Z) (lookup : GraphLookup)
    (waiting : WaitingFor) : HM ApplyOutcome :=
  failed ← instance_failed (im_instance_id inbound);
  if failed : bool then mret Applied
  else
    let waited := ac_now ctx - created_at in
    if PARKED_MESSAGE_TTL_SECS <? waited then
      mret (Rejected ("waited " +:+ pretty waited +:+ "s for the " +:+ wf_detail waiting +:+
                      "; giving up"))
    else
      (if is_registered_peer (ga_membership self) (im_author inbound) then
         params ← encode_lookup lookup;
         enqueue_setup_job JOB_FETCH_GRAPH params
       else mret tt);;
      mret (Waiting waiting).

(** The definition kinds: what a [CreateGraph] still needs at a committee member. *)
Definition check_slot (graph_id : Uuid) (inbound : InboundMessage) (created_at : Z)
    (operator : string) (graph_nonce : Z) : HM (option ApplyOutcome) :=
  existing ← on_tables (find_graph_by_operator_slot operator (as_i64 graph_nonce));
  match filter_some (λ g, negb (bool_decide (gr_graph_id g = graph_id))) existing with
  | Some g =>
      mret (Some (Rejected ("slot " +:+ operator +:+ ":" +:+ pretty graph_nonce +:+
                            " already holds graph " +:+ uuid_to_string (gr_graph_id g))))
  | None =>
      if 0 <? graph_nonce then
        previous ← i64_sub1 (as_i64 graph_nonce);
        stored ← on_tables (find_graph_by_operator_slot operator previous);
        if is_some stored then mret None
        else
          outcome ← park_for_definition inbound created_at
            (LookupSlot operator (graph_nonce - 1))
            (mkWaitingFor (slot_ref operator (graph_nonce - 1))
               ("previous graph definition for slot " +:+ pretty graph_nonce));
          mret (Some outcome)
      else mret None
  end.

(** What a message of [kind] waits for or is dropped for, if anything. *)
Definition check_message (graph_id : Uuid) (state : GraphState) (status : option GraphStatus)
    (kind : string) (inbound : InboundMessage) (created_at : Z) : HM (option ApplyOutcome) :=
  if decide (kind = "InitGraph"%string) then
    mret (if is_some status then Some Applied else None)
  else if decide (kind ∈ ["GenCircuits"; "SolderingProofReady"]%string) then
    pending ← on_tables (find_pending_graph_init_by_graph_id graph_id);
    mret (match pending with
          | Some p => if decide (pg_instance_id p = im_instance_id inbound) then None else Some Applied
          | None => Some Applied
          end)
  else if decide (kind = "CreateGraph"%string) then
    match bool_decide (ga_actor self = Committee), im_operator_pubkey inbound, im_graph_nonce inbound with
    | true, Some operator, Some graph_nonce =>
        check_slot graph_id inbound created_at operator graph_nonce
    | _, _, _ => mret None
    end
  else if decide (kind ∈ ["VerifierGraphParamsEndorsement"; "NonceGeneration"; "AggNonceConsensus";
                          "CommitteePresign"; "EndorseGraph"]%string) then
    if negb (is_some status) then
      if bool_decide (ga_actor self = Operator) then mret (Some Applied)
      else
        outcome ← park_for_definition inbound created_at
          (LookupId (im_instance_id inbound) graph_id false)
          (waiting_on (ac_aggregate ctx) "graph definition not stored yet");
        mret (Some outcome)
    else mret (if signing_round_over status then Some Applied else None)
  else if decide (kind = "GraphFinalize"%string) then
    mret (if gs_finalized state then Some Applied else None)
  else mret None.

(** What a message tells about the graph, where nothing is known yet. *)
Definition learn (state : GraphState) (inbound : InboundMessage) : GraphState :=
  state <| gs_instance_id ::= λ i, option_union i (Some (im_instance_id inbound)) |>
        <| gs_operator_pubkey ::= λ o, option_union o (im_operator_pubkey inbound) |>
        <| gs_graph_nonce ::= λ n, option_union n (im_graph_nonce inbound) |>.

Definition apply_message (graph_id : Uuid) (state : GraphState) (status : option GraphStatus)
    (kind : string) (payload : bytes) (created_at : Z) : HM (ApplyOutcome * GraphState) :=
  match inbound_decode payload with
  | Err error =>
      mret (Rejected ("malformed " +:+ kind +:+ " event: " +:+ default ""%string (head error)), state)
  | Ok inbound =>
      if bool_decide (im_author inbound = ga_local_peer self) then mret (Applied, state)
      else match graph_route_action kind (ga_actor self) with
           | None =>
               mret (Rejected (kind +:+ " is not handled by " +:+ actor_to_string (ga_actor self)), state)
           | Some action =>
               if bool_decide (ga_actor self = Committee) &&
                  negb (bool_decide (kind = "GraphFinalize"%string)) &&
                  negb (holds_instance_key (ga_membership self) (im_instance_id inbound))
               then mret (Applied, state)
               else if retired status then mret (Applied, state)
               else
                 let state := learn state inbound in
                 stop ← check_message graph_id state status kind inbound created_at;
                 match stop with
                 | Some outcome => mret (outcome, state)
                 | None => enqueue_setup_job action payload;; mret (Applied, state)
                 end
           end
  end.

(** A follow-up job of a plan; builds of one operator run one at a time. *)
Definition graph_enqueue_next (graph_id : Uuid) (n : NextJob) : HM unit :=
  let action := nx_action n in
  if decide (action = JOB_BUILD_GRAPH) then record_event_in (build_ready_event graph_id)
  else
    let phase := if decide (action = JOB_POST_GRAPH_DATA) then GRAPH_PHASE_POST
                 else if decide (action ∈ PEGOUT_JOBS) then PHASE_SETTLEMENT
                 else JOB_PHASE in
    let spec := job_spec (ac_aggregate ctx) phase action (job_pool action) (nx_params n) in
    fx (enqueue_job
          (match nx_delay_secs n with
           | Some delay => with_run_after (ac_now ctx + Z.max delay 0) spec
           | None => spec
           end)).

Definition graph_apply_plan (graph_id : Uuid) (state : GraphState) (plan : GraphPlan) :
    HM GraphState :=
  let state := merge state (gpl_state plan) in
  hm_iter (λ message, fx (send (planned_outbox message))) (gpl_messages plan);;
  hm_iter (λ row, fx (close_outbox (CloseRow row) "superseded")) (gpl_close_rows plan);;
  hm_iter (graph_enqueue_next graph_id) (gpl_next plan);;
  match gpl_delete_pending_session plan, gs_instance_id state, gs_operator_pubkey state with
  | true, Some instance_id, Some operator =>
      on_tables (delete_pending_graph_init instance_id operator);; mret tt
  | _, _, _ => mret tt
  end;;
  match gpl_notify_instance_endorsed plan, gs_instance_id state with
  | true, Some instance_id =>
      event ← lift (graph_endorsed_event instance_id graph_id);
      record_event_in event
  | _, _ => mret tt
  end;;
  hm_iter (λ r, fx (wake r)) (gpl_wake_refs plan);;
  mret state.

Definition graph_apply_job_result (graph_id : Uuid) (state : GraphState)
    (status : option GraphStatus) (result : JobResultEvent) : HM (ApplyOutcome * GraphState) :=
  let action := jr_action result in
  let finish state :=
    storage (clear_engine_job_result (jr_job_id result) (ac_now ctx));; mret (Applied, state) in
  match jr_outcome result with
  | ResultDone bytes =>
      match graph_plan_decode bytes with
      | Err error =>
          mret (Rejected ("malformed plan from " +:+ action +:+ ": " +:+
                          default ""%string (head error)), state)
      | Ok plan =>
          let plan := if retired status && negb (bool_decide (action ∈ PEGOUT_JOBS))
                      then only_wakes (gpl_wake_refs plan) else plan in
          state ← graph_apply_plan graph_id state plan;
          finish state
      end
  | ResultFailed _ =>
      (if decide (action = JOB_POST_GRAPH_DATA) then raise_alert "post_graph_data_rejected"
       else mret tt);;
      match bool_decide (action = JOB_BUILD_GRAPH), gs_operator_pubkey state with
      | true, Some operator =>
          slot ← next_slot operator;
          fx (wake (slot_ref operator slot))
      | _, _ => mret tt
      end;;
      finish state
  | ResultCancelled | ResultPoisoned _ => finish state
  end.

(** ** Builds *)

Definition is_building (j : EngineJob) : bool :=
  bool_decide (jb_action j = JOB_BUILD_GRAPH) &&
  match jb_state j with JobPending | JobRunning => true | _ => false end.

(** Another session of the operator with a build in flight, and the slot it takes. *)
Fixpoint building_among (operator : string) (graph_id : Uuid) (sessions : list PendingGraphInit) :
    HM (option (Uuid * Z)) :=
  match sessions with
  | [] => mret None
  | session :: rest =>
      if decide (pg_graph_id session = graph_id) then building_among operator graph_id rest
      else
        stored ← on_tables (find_graph (pg_graph_id session));
        if is_some stored then building_among operator graph_id rest
        else
          failed ← instance_failed (pg_instance_id session);
          if failed : bool then building_among operator graph_id rest
          else
            jobs ← storage (list_engine_jobs_for_aggregate GRAPH_KIND
                              (uuid_to_string (pg_graph_id session)));
            if existsb is_building jobs then
              slot ← next_slot operator;
              mret (Some (pg_graph_id session, slot))
            else building_among operator graph_id rest
  end.

Definition building_sibling (operator : string) (graph_id : Uuid) : HM (option (Uuid * Z)) :=
  sessions ← on_tables (list_pending_graph_inits_by_operator operator);
  building_among operator graph_id sessions.

Definition apply_build_ready (graph_id : Uuid) (row : option Graph) : HM ApplyOutcome :=
  if is_some row then mret Applied
  else
    session ← on_tables (find_pending_graph_init_by_graph_id graph_id);
    match session with
    | None => mret Applied
    | Some session =>
        failed ← instance_failed (pg_instance_id session);
        if failed : bool then mret Applied
        else
          let operator := pg_operator_pubkey session in
          sibling ← building_sibling operator graph_id;
          match sibling with
          | Some (builder, slot) =>
              mret (Waiting (mkWaitingFor (slot_ref operator slot)
                ("graph " +:+ uuid_to_string builder +:+ " is building slot " +:+ pretty slot)))
          | None => enqueue_setup_job JOB_BUILD_GRAPH "";; mret Applied
          end
    end.

Definition abandon_setup (graph_id : Uuid) (state : GraphState) (row : option Graph)
    (abandoned : SetupAbandoned) : HM (ApplyOutcome * GraphState) :=
  if negb (bool_decide (ga_actor self = Operator)) then mret (Applied, state)
  else
    failed ← instance_failed (sa_instance_id abandoned);
    if failed : bool then mret (Applied, state)
    else
      match row with
      | Some row =>
          if negb (owns self row) ||
             negb (bool_decide (gr_status row = graph_status_str OperatorPresigned))
          then mret (Applied, state)
          else
            on_tables (transition_graph_status (gr_instance_id row) graph_id Obsoleted
                         ChainReconcile None);;
            session ← on_tables (find_pending_graph_init_by_graph_id graph_id);
            match session with
            | Some session => release_setup_session session "setup abandoned";; mret tt
            | None => mret tt
            end;;
            mret (Applied, state <| gs_abandoned := true |>)
      | None =>
          session ← on_tables (find_pending_graph_init_by_graph_id graph_id);
          match session with
          | None => mret (Applied, state)
          | Some session =>
              release_setup_session session "setup abandoned";;
              mret (Applied, state <| gs_abandoned := true |>)
          end
      end.

(** ** Withdraws *)

Definition kickoff_job (action tx_hash : string) : HM JobSpec :=
  params ← lift (kickoff_params_to_vec tx_hash);
  mret (job_spec (ac_aggregate ctx) PHASE_KICKOFF action (pegout_job_pool action) params).

(** Why the operator's previous slot is not settled, if it is not. *)
Definition predecessor_settled (operator : string) (graph_nonce : Z) : HM (option string) :=
  if graph_nonce =? 0 then mret None
  else
    previous ← i64_sub1 (as_i64 graph_nonce);
    row ← on_tables (find_graph_by_operator_slot operator previous);
    mret (match row with
          | None => Some ("previous slot " +:+ pretty (graph_nonce - 1) +:+ " is not stored")
          | Some g =>
              if match graph_status_of (gr_status g) with Some s => is_closed s | None => false end
              then None
              else Some ("previous slot " +:+ pretty (gr_kickoff_index g) +:+ " (graph " +:+
                         uuid_to_string (gr_graph_id g) +:+ ") is " +:+ gr_status g)
          end).

(** A new init replaces the active withdraw, whose jobs go. *)
Definition replace_withdraw (state : GraphState) (tx_hash : string) : HM GraphState :=
  match filter_some (λ active, negb (bool_decide (active = tx_hash))) (gs_withdraw state) with
  | Some active =>
      hm_iter (λ action, spec ← kickoff_job action active; fx (cancel_job (js_job_id spec)))
        [JOB_KICKOFF; JOB_SETTLE_PREDECESSORS];;
      mret (state <| gs_withdraw := None |> <| gs_retired_withdraws ::= snoc active |>)
  | None => mret state
  end.

Definition apply_withdraw_init (state : GraphState) (row : option Graph) (payload : bytes) :
    HM (ApplyOutcome * GraphState) :=
  match withdraw_from_slice payload with
  | Err error =>
      mret (Rejected ("malformed withdraw_init: " +:+ default ""%string (head error)), state)
  | Ok tx_hash =>
      match row with
      | None => mret (Applied, state)
      | Some row =>
          if negb (bool_decide (ga_actor self = Operator)) || negb (owns self row)
          then mret (Applied, state)
          else if bool_decide (tx_hash ∈ gs_retired_withdraws state) then mret (Applied, state)
          else match graph_status_of (gr_status row) with
               | None => throw (Transient ["Matching variant not found"%string])
               | Some status =>
                   if is_closed status || is_pegout_started status then
                     mret (Applied, state <| gs_withdraw := None |>)
                   else
                     state ← replace_withdraw state tx_hash;
                     let state := state <| gs_withdraw := Some tx_hash |> in
                     let graph_nonce := as_u64 (gr_kickoff_index row) in
                     settle ← kickoff_job JOB_SETTLE_PREDECESSORS tx_hash;
                     blocked ← predecessor_settled (gr_operator_pubkey row) graph_nonce;
                     match blocked with
                     | None =>
                         kickoff ← kickoff_job JOB_KICKOFF tx_hash;
                         fx (cancel_job (js_job_id settle));;
                         fx (enqueue_job kickoff);;
                         mret (Applied, state)
                     | Some detail =>
                         fx (enqueue_job settle);;
                         mret (Waiting (mkWaitingFor
                           (slot_ref (gr_operator_pubkey row) (graph_nonce - 1)) detail), state)
                     end
               end
      end
  end.

Definition apply_withdraw_cancel (state : GraphState) : HM (ApplyOutcome * GraphState) :=
  match gs_withdraw state with
  | Some active =>
      fx (cancel_phase_jobs PHASE_KICKOFF);;
      mret (Applied, state <| gs_withdraw := None |> <| gs_retired_withdraws ::= snoc active |>)
  | None => mret (Applied, state)
  end.

(** ** Chain scans *)

(** A dead Pre-Kickoff is reported once. *)
Definition report_dead (state : GraphState) : HM GraphState :=
  if gs_dead state then mret state
  else raise_alert "operator_chain_dead";; mret (state <| gs_dead := true |>).

Definition apply_signal (own : bool) (signal : PegoutSignal) : HM unit :=
  match route_signal signal (ga_actor self) (ga_relayer self) own with
  | Some action =>
      params ← lift (signal_encode signal);
      fx (enqueue_job (job_spec (ac_aggregate ctx) PHASE_SETTLEMENT action (pegout_job_pool action)
                         params))
  | None => mret tt
  end;;
  match ga_actor self, signal with
  | Watchtower, AssertSent _ =>
      params ← lift (signal_encode WatchtowerChallengeInitSent);
      fx (cancel_job (js_job_id (job_spec (ac_aggregate ctx) PHASE_SETTLEMENT
        JOB_WATCHTOWER_CHALLENGE (pegout_job_pool JOB_WATCHTOWER_CHALLENGE) params)))
  | _, _ => mret tt
  end.

Definition apply_chain_scan (graph_id : Uuid) (state : GraphState) (row : option Graph)
    (payload : bytes) : HM (ApplyOutcome * GraphState) :=
  match scan_from_slice payload with
  | Err error =>
      mret (Rejected ("malformed chain_scan: " +:+ default ""%string (head error)), state)
  | Ok scan =>
      match row with
      | None => mret (Applied, state)
      | Some row =>
          failed ← instance_failed (gr_instance_id row);
          match decide_status scan failed with
          | Some target =>
              on_tables (transition_graph_status (gr_instance_id row) graph_id target ChainReconcile
                           (cs_sub_status scan));; mret tt
          | None => mret tt
          end;;
          match cs_challenge_txid scan with
          | Some txid =>
              if bool_decide (gr_challenge_txid row = Some txid) then mret tt
              else on_tables (update_graph_runtime
                     (mkRuntimeUpdate (gr_instance_id row) graph_id (Some txid) None None None));; mret tt
          | None => mret tt
          end;;
          state ← match cs_unusable scan with
                  | Some (PrekickoffInputSpent _ _) => report_dead state
                  | _ => mret state
                  end;
          hm_iter (apply_signal (owns self row)) (cs_signals scan);;
          mret (Applied, state)
      end
  end.

(** ** The apply *)

Definition finish (graph_id : Uuid) (state : GraphState) : HM unit :=
  row ← on_tables (find_graph graph_id);
  let status := row ≫= (λ r, graph_status_of (gr_status r)) in
  let previous := ctx_status ctx in
  let current := match status with Some s => graph_status_str s | None => ""%string end in
  (if bool_decide (current = previous) then mret tt
   else
     match row with
     | Some row => fx (wake (slot_ref (gr_operator_pubkey row) (as_u64 (gr_kickoff_index row))))
     | None => mret tt
     end;;
     (if signing_round_over status then
        hm_iter (λ phase, fx (close_outbox (ClosePhase GRAPH_KIND (uuid_to_string graph_id) phase)
                                ("graph " +:+ current)))
          [PHASE_COLLECT; PHASE_SIGNING; PHASE_ENDORSE; PHASE_SETUP]
      else mret tt);;
     (if past_signing status then
        fx (close_outbox (CloseAggregate GRAPH_KIND (uuid_to_string graph_id)) ("graph " +:+ current));;
        fx (cancel_phase_jobs GRAPH_PHASE_POST)
      else mret tt);;
     (if retired status then fx (cancel_phase_jobs JOB_PHASE) else mret tt);;
     (if match status with Some s => is_closed s | None => false end
      then fx (cancel_phase_jobs PHASE_KICKOFF) else mret tt));;
  let withdrawing := is_some (gs_withdraw state) in
  fx (set_status current);;
  fx (set_phase (graph_phase_of status (ga_actor self) (ga_relayer self) withdrawing));;
  text ← lift (graph_state_to_string state);
  fx (set_state (Some text)).

Definition apply_operator_start (state : GraphState) (row : option Graph) (payload : bytes) :
    HM (ApplyOutcome * GraphState) :=
  match operator_start_deserialize payload with
  | Err error =>
      mret (Rejected ("malformed operator_start: " +:+ default ""%string (head error)), state)
  | Ok start =>
      if negb (bool_decide (ga_actor self = Operator)) then
        mret (Rejected "only operators start graphs", state)
      else if is_some row then mret (Applied, state)
      else if gs_abandoned state then mret (Applied, state)
      else
        failed ← instance_failed (os_instance_id start);
        if failed : bool then
          on_tables (delete_pending_graph_init (os_instance_id start) (os_operator_pubkey start));;
          mret (Applied, state)
        else
          enqueue_setup_job JOB_OPERATOR_INIT payload;;
          mret (Applied, state <| gs_instance_id := Some (os_instance_id start) |>
                               <| gs_operator_pubkey := Some (os_operator_pubkey start) |>)
  end.

Definition apply_graph_pulled (state : GraphState) (status : option GraphStatus) (payload : bytes) :
    HM (ApplyOutcome * GraphState) :=
  match pulled_deserialize payload with
  | Err error =>
      mret (Rejected ("malformed graph_pulled: " +:+ default ""%string (head error)), state)
  | Ok pulled =>
      let state := state <| gs_instance_id ::= λ i, option_union i (Some (gpd_instance_id pulled)) |> in
      (if ga_relayer self && gpd_finalized pulled && negb (past_signing status) then
         fx (enqueue_job (job_spec (ac_aggregate ctx) GRAPH_PHASE_POST JOB_POST_GRAPH_DATA
                            (job_pool JOB_POST_GRAPH_DATA) ""))
       else mret tt);;
      mret (Applied, state)
  end.

Definition apply_graph_pull (state : GraphState) (row : option Graph) (payload : bytes) :
    HM (ApplyOutcome * GraphState) :=
  match pull_deserialize payload with
  | Err error =>
      mret (Rejected ("malformed graph_pull: " +:+ default ""%string (head error)), state)
  | Ok pull =>
      (if is_some row then mret tt
       else params ← encode_lookup (gp_lookup pull); enqueue_setup_job JOB_FETCH_GRAPH params);;
      mret (Applied, state)
  end.

Definition graph_apply_event (graph_id : Uuid) (state : GraphState) (row : option Graph)
    (status : option GraphStatus) (event : EngineInboxEvent) : HM (ApplyOutcome * GraphState) :=
  let kind := ib_kind event in
  let payload := default ""%string (ib_payload event) in
  if decide (kind = JOB_RESULT_KIND) then
    match job_result_decode payload with
    | Err error => throw (Invariant error)
    | Ok result => graph_apply_job_result graph_id state status result
    end
  else if decide (kind = EVENT_OPERATOR_START) then apply_operator_start state row payload
  else if decide (kind = EVENT_GRAPH_PULLED) then apply_graph_pulled state status payload
  else if decide (kind ∈ [EVENT_GRAPH_POSTED; EVENT_GOAT_STATUS]) then mret (Applied, state)
  else if decide (kind = EVENT_BUILD_READY) then
    outcome ← apply_build_ready graph_id row; mret (outcome, state)
  else if decide (kind = EVENT_SETUP_ABANDONED) then
    match abandoned_deserialize payload with
    | Err error =>
        mret (Rejected ("malformed setup_abandoned: " +:+ default ""%string (head error)), state)
    | Ok abandoned => abandon_setup graph_id state row abandoned
    end
  else if decide (kind = EVENT_WITHDRAW_INIT) then apply_withdraw_init state row payload
  else if decide (kind = EVENT_WITHDRAW_CANCEL) then apply_withdraw_cancel state
  else if decide (kind = EVENT_CHAIN_SCAN) then apply_chain_scan graph_id state row payload
  else if decide (kind = EVENT_GRAPH_PULL) then apply_graph_pull state row payload
  else apply_message graph_id state status kind payload (ib_created_at event).

(** What the stored row tells about the graph, where nothing is known yet. *)
Definition adopt_row (state : GraphState) (row : option Graph) : GraphState :=
  match row, gs_instance_id state with
  | Some row, None =>
      state <| gs_instance_id := Some (gr_instance_id row) |>
            <| gs_operator_pubkey := Some (gr_operator_pubkey row) |>
            <| gs_graph_nonce := Some (as_u64 (gr_kickoff_index row)) |>
  | _, _ => state
  end.

Definition graph_apply (event : EngineInboxEvent) : HM ApplyOutcome :=
  match uuid_from_str (ar_id (ac_aggregate ctx)) with
  | Err error =>
      throw (Invariant ["graph aggregate id " +:+ ar_id (ac_aggregate ctx) +:+ ": " +:+
                        default ""%string (head error)])
  | Ok graph_id =>
      row ← on_tables (find_graph graph_id);
      let status := row ≫= (λ r, graph_status_of (gr_status r)) in
      let state := adopt_row (load_state (ctx_state ctx)) row in
      '(outcome, state) ← graph_apply_event graph_id state row status event;
      match outcome with
      | Applied | Waiting _ => finish graph_id state;; mret outcome
      | Rejected _ => mret outcome
      end
  end.
End Apply.
