(* ===== verification/NodeHandlers.v ===== *)
(** * The node's handlers

    The two aggregates as the engine's handlers: every apply, on every event and
    however it ends, follows the orders of the engine's tables and of the node's,
    so both are lawful handlers of the engine.

    Source: node/src/aggregates/instance.rs, node/src/aggregates/graph.rs,
    node/src/engine_bridge.rs. *)

From stdpp Require Import base list strings gmap pretty.
From S2P Require Import Prelude Table Storage EngineSchema EngineNext JobStore EngineEffects Worker.
From S2P Require Import Executor Engine EngineBusiness NodeSchema LocalDb NodeNext NodeApply.
From S2P Require Import InstanceDecide InstanceAggregate GraphPegout GraphAggregate.

Local Open Scope Z_scope.

(** ** The Instance aggregate *)

Section Instance.
Context `{UuidText} `{OverflowChecks} `{Sha256} `{ProtoBase} `{JobResultJson}.
Context `{InboundCodec} `{OperatorStartCodec} `{InstanceCodec} `{PeginTxids}.
Context (self : InstanceAggregate) (ctx : ApplyContext).

Lemma hguar_round_data id : hm_guar both_next (round_process_data id).
Proof.
  intros acc d e. unfold round_process_data.
  assert (Hg : guarantee both_next (tables (find_instance_process_row id))).
  { apply both_tables. unfold find_instance_process_row. guar. }
  specialize (Hg d e). unfold final in Hg.
  by destruct (tables _ d e) as [[[[row|]|x] d'] e'].
Qed.

Lemma hguar_snapshot instance status snapshot :
  hm_guar both_next (apply_snapshot self ctx instance status snapshot).
Proof.
  unfold apply_snapshot, all_partial_sigs_stored, job. hguar.
  all: first [apply hguar_round_data | apply hguar_commit, decide_btc_snapshot_advances].
Qed.

Lemma hguar_start_graph id start : hm_guar both_next (start_graph id start).
Proof.
  unfold start_graph, find_pending_graph_init_by_instance_and_operator_pubkey. hguar.
Qed.

Lemma hguar_apply_plan instance status plan :
  hm_guar both_next (InstanceAggregate.apply_plan ctx instance status plan).
Proof. unfold InstanceAggregate.apply_plan, enqueue_next. hguar; apply hguar_start_graph. Qed.

Lemma hguar_job_result instance status result :
  hm_guar both_next (apply_job_result ctx instance status result).
Proof.
  unfold apply_job_result, finish_job_result, set_projection, alert.
  hguar; try apply hguar_apply_plan. by apply update_instance_next.
Qed.

Lemma hguar_instance_event id instance status kind payload :
  hm_guar both_next (apply_event self ctx id instance status kind payload).
Proof.
  unfold apply_event, apply_pegin_request, apply_round_message, set_projection, job.
  hguar; try apply hguar_snapshot; try apply hguar_job_result; apply hguar_commit;
    first [apply decide_answer_window_advances | apply decide_graph_endorsed_advances
      | apply decide_l2_minted_advances].
Qed.

Lemma hguar_instance_apply event : hm_guar both_next (instance_apply self ctx event).
Proof. unfold instance_apply. hguar. apply hguar_instance_event. Qed.
End Instance.

(** ** The Graph aggregate *)

Section Graph.
Context `{UuidText} `{OverflowChecks} `{Sha256} `{ProtoBase} `{JobResultJson}.
Context `{InboundCodec} `{OperatorStartCodec} `{InstanceCodec} `{GraphCodec}.
Context (self : GraphAggregate) (ctx : ApplyContext).

Lemma hguar_park inbound created_at lookup waiting :
  hm_guar both_next (park_for_definition self ctx inbound created_at lookup waiting).
Proof. unfold park_for_definition, encode_lookup, enqueue_setup_job. hguar. Qed.

Lemma hguar_message graph_id state status kind payload created_at :
  hm_guar both_next (apply_message self ctx graph_id state status kind payload created_at).
Proof.
  unfold apply_message, check_message, check_slot, i64_sub1, enqueue_setup_job.
  hguar; apply hguar_park.
Qed.

Lemma hguar_graph_job_result graph_id state status result :
  hm_guar both_next (graph_apply_job_result ctx graph_id state status result).
Proof.
  unfold graph_apply_job_result, graph_apply_plan, graph_enqueue_next. hguar.
Qed.

Lemma hguar_building op graph_id sessions : hm_guar both_next (building_among op graph_id sessions).
Proof. induction sessions; cbn [building_among]; hguar; assumption. Qed.

Lemma hguar_build_ready graph_id row : hm_guar both_next (apply_build_ready ctx graph_id row).
Proof.
  unfold apply_build_ready, building_sibling, enqueue_setup_job. hguar; apply hguar_building.
Qed.

Lemma hguar_abandon graph_id state row a : hm_guar both_next (abandon_setup self graph_id state row a).
Proof. unfold abandon_setup. hguar. Qed.

Lemma hguar_withdraw state row payload :
  hm_guar both_next (apply_withdraw_init self ctx state row payload).
Proof.
  unfold apply_withdraw_init, replace_withdraw, predecessor_settled, kickoff_job, i64_sub1. hguar.
Qed.

Lemma hguar_scan graph_id state row payload :
  hm_guar both_next (apply_chain_scan self ctx graph_id state row payload).
Proof. unfold apply_chain_scan, report_dead, apply_signal. hguar. Qed.

Lemma hguar_graph_event graph_id state row status event :
  hm_guar both_next (graph_apply_event self ctx graph_id state row status event).
Proof.
  unfold graph_apply_event, apply_operator_start, apply_graph_pulled, apply_graph_pull,
    apply_withdraw_cancel, encode_lookup, enqueue_setup_job.
  hguar; first [apply hguar_graph_job_result | apply hguar_build_ready | apply hguar_abandon
    | apply hguar_withdraw | apply hguar_scan | apply hguar_message].
Qed.

Lemma hguar_graph_apply event : hm_guar both_next (graph_apply self ctx event).
Proof. unfold graph_apply, finish. hguar. apply hguar_graph_event. Qed.
End Graph.

(** ** Registration *)

Section Handlers.
Context `{UuidText} `{OverflowChecks} `{Sha256} `{ProtoBase} `{JobResultJson}.
Context `{InboundCodec} `{OperatorStartCodec} `{InstanceCodec} `{PeginTxids} `{GraphCodec}.
Context (instance : InstanceAggregate) (graph : GraphAggregate).
Context (cut : ApplyContext → EngineInboxEvent → Env → bool).

(** The handlers [build_engine] registers, by aggregate kind. *)
Definition build_handlers (kind : string) : option (Handler NodeTables) :=
  if decide (kind = INSTANCE_KIND) then Some (handler_of cut (instance_apply instance))
  else if decide (kind = GRAPH_KIND) then Some (handler_of cut (graph_apply graph))
  else None.

Lemma build_handlers_next kind h ctx event d e :
  build_handlers kind = Some h → both_next d (h ctx event d e).1.2.
Proof.
  assert (Hof : ∀ apply, (∀ c ev, hm_guar both_next (apply c ev)) →
    both_next d (handler_of cut apply ctx event d e).1.2).
  { intros apply Ha. unfold handler_of. specialize (Ha ctx event (mkAcc no_effects []) d e).
    by destruct (apply ctx event _ d e) as [[[r acc] d'] e']. }
  unfold build_handlers. intros Hb. repeat case_decide; simplify_eq; apply Hof; intros.
  - apply hguar_instance_apply.
  - apply hguar_graph_apply.
Qed.

(** What the node's jobs promise: they change the engine's tables and the node's
    only through the store's statements. *)
Class RunnerLaws (registry : string → string → option (JobRunner NodeTables)) : Prop :=
  runner_next : ∀ k a r, registry k a = Some r → ∀ now job w e,
    both_next (w_db w) (w_db (r now job w e).1.2).

#[export] Instance node_laws registry : RunnerLaws registry → NodeLaws build_handlers registry.
Proof.
  intros Hr. split.
  - intros k h Hh ctx event d e. by apply (build_handlers_next k).
  - intros k a r Hk now job w e. by apply (Hr k a r Hk now job w e).
Qed.

#[export] Instance row_laws registry :
  RunnerLaws registry → RowLaws node_next build_handlers registry.
Proof.
  intros Hr. split.
  - intros k h Hh ctx event d e. by apply (build_handlers_next k).
  - intros k a r Hk now job w e. by apply (Hr k a r Hk now job w e).
Qed.
End Handlers.
