(* ===== verification/ApplyFrames.v ===== *)
(** * Frames of applies

    What an apply leaves alone: rows it has no statement on, and the jobs it does
    not enqueue. *)

From stdpp Require Import base list strings gmap.
From S2P Require Import Prelude Table Storage EngineSchema EngineNext InboxStore JobStore EngineEffects.
From S2P Require Import Worker Runtime NodeSchema LocalDb NodeNext NodeApply.

Local Open Scope Z_scope.

(** ** Rows *)

Section Rows.
Context (R : NodeTables → NodeTables → Prop) `{!PreOrder R}.

Definition node_rows (d d' : NodeDb) : Prop := R (business d) (business d').

#[export] Instance node_rows_preorder : PreOrder node_rows.
Proof. unfold node_rows. split; [by intros d|]. intros a b c H1 H2. by etrans. Qed.

Lemma hrows_tables {A} (m : ST NodeTables A) :
  guarantee R m → hm_guar node_rows (on_tables m).
Proof.
  intros Hm. apply hguar_storage. eapply guarantee_focus; [exact Hm|]. by intros d t Ht.
Qed.

Lemma hrows_same {A} (m : ST NodeDb A) :
  guarantee same_tables m → hm_guar node_rows (storage m).
Proof.
  intros Hm. apply hguar_storage. intros d e. unfold node_rows. by rewrite (Hm d e).
Qed.

Lemma hrows_record event : hm_guar node_rows (record_event_in event).
Proof.
  apply hguar_bind; [apply _| |intros _; apply hguar_ret, _].
  apply hrows_same, submit_in_tables.
Qed.

Lemma hrows_clear id now : hm_guar node_rows (storage (clear_engine_job_result id now)).
Proof. apply hrows_same, clear_job_result_tables. Qed.

Lemma hrows_list kind id : hm_guar node_rows (storage (list_engine_jobs_for_aggregate kind id)).
Proof. apply hrows_same. unfold list_engine_jobs_for_aggregate. guar. Qed.

Lemma hrows_failed id : hm_guar node_rows (instance_failed id).
Proof.
  apply hguar_bind; [apply _| |intros r; apply hguar_ret, _]. apply hrows_tables.
  unfold find_instance. guar.
Qed.
End Rows.

#[export] Hint Resolve hrows_record hrows_clear hrows_list hrows_failed : hguar.

Ltac hrows_step :=
  match goal with
  | |- hm_guar (node_rows _) (on_tables _) => apply hrows_tables; guar
  | _ => hguar_step
  end.
Ltac hrows := repeat hrows_step.

(** ** Instances *)

Definition same_instances (t t' : NodeTables) : Prop := t_instance t' = t_instance t.
#[export] Instance same_instances_preorder : PreOrder same_instances.
Proof. unfold same_instances. split; [done|]. intros a b c H1 H2. congruence. Qed.

Section SameInstances.
Context `{UuidText} `{OverflowChecks}.

Lemma transition_same i g target source sub :
  guarantee same_instances (transition_graph_status i g target source sub).
Proof.
  unfold transition_graph_status, graph_status_transition_outcome, find_graph. guar;
    apply guarantee_stmt; try apply _; intros t; done.
Qed.

Lemma obsolete_same i retained :
  guarantee same_instances (obsolete_instance_graphs_except i retained).
Proof.
  unfold obsolete_instance_graphs_except, get_graphs_by_instance_id. guar.
  match goal with |- guarantee _ (obsolete_graphs _ _ ?gs) => induction gs end;
    cbn [obsolete_graphs]; unfold obsolete_graph; guar; apply transition_same.
Qed.

Lemma delete_pending_same i op : guarantee same_instances (delete_pending_graph_init i op).
Proof. by apply guarantee_stmt; [apply _|]. Qed.

Lemma upsert_pending_same i op g : guarantee same_instances (upsert_pending_graph_init i op g).
Proof.
  unfold upsert_pending_graph_init. guar. apply guarantee_constrained; [apply _|].
  intros t n t' E. repeat case_match; by simplify_eq.
Qed.

(** A program that keeps the instances keeps any order of them. *)
Lemma same_instances_rel (R : list Instance_ → list Instance_ → Prop) `{!PreOrder R} {A}
    (m : ST NodeTables A) :
  guarantee same_instances m → guarantee (λ t t', R (t_instance t) (t_instance t')) m.
Proof. intros Hm t e. by rewrite (Hm t e). Qed.
End SameInstances.

(** ** Effects *)

Definition hm_acc {A} (Rel : Effects → Effects → Prop) (m : HM A) : Prop :=
  ∀ acc d, wp m acc d (λ _ acc' _, Rel (acc_effects acc) (acc_effects acc')).

Create HintDb hacc discriminated.

Section Effects.
Context (Rel : Effects → Effects → Prop) `{!PreOrder Rel}.

Lemma hacc_ret {A} (a : A) : hm_acc Rel (mret a).
Proof. intros acc d e. cbn. reflexivity. Qed.
Lemma hacc_throw {A} x : hm_acc Rel (throw (A := A) x).
Proof. intros acc d e. cbn. reflexivity. Qed.
Lemma hacc_panic {A} p : hm_acc Rel (panic (A := A) p).
Proof. intros acc d e. cbn. reflexivity. Qed.
Lemma hacc_lift {A} (o : outcome A) : hm_acc Rel (lift o).
Proof. destruct o; [apply hacc_ret|apply hacc_throw]. Qed.
Lemma hacc_alert s : hm_acc Rel (raise_alert s).
Proof. intros acc d e. cbn. reflexivity. Qed.
Lemma hacc_fx f : (∀ x, Rel x (f x)) → hm_acc Rel (fx f).
Proof. intros Hf acc d e. apply Hf. Qed.

Lemma hacc_bind {A B} (m : HM A) (k : A → HM B) :
  hm_acc Rel m → (∀ a, hm_acc Rel (k a)) → hm_acc Rel (m ≫= k).
Proof.
  intros Hm Hk acc d. apply wp_bind. eapply wp_mono; [apply Hm|].
  intros [a|x|p] acc' d' H; cbn; [|done..].
  eapply wp_mono; [apply Hk|]. intros ? ? d'' H'. cbn in H'. by etrans.
Qed.

Lemma hacc_storage {A} (m : ST NodeDb A) : hm_acc Rel (storage m).
Proof.
  intros acc d. apply wp_storage. intros e. by destruct (m d e) as [[[a|x] d'] e'].
Qed.

Lemma hacc_context {A} message (m : HM A) : hm_acc Rel m → hm_acc Rel (with_context message m).
Proof.
  intros Hm acc d e. specialize (Hm acc d e). unfold with_context.
  by destruct (m acc d e) as [[[[|[]|] ?] ?] ?].
Qed.

Lemma hacc_iter {X} (f : X → HM unit) xs :
  (∀ x, x ∈ xs → hm_acc Rel (f x)) → hm_acc Rel (hm_iter f xs).
Proof.
  induction xs as [|x xs IH]; intros H; cbn [hm_iter]; [apply hacc_ret|].
  apply hacc_bind; [apply H; left|]. intros _. apply IH. intros y Hy. apply H. by right.
Qed.

Lemma hacc_record event : hm_acc Rel (record_event_in event).
Proof. apply hacc_bind; [apply hacc_storage|]. intros _. apply hacc_ret. Qed.

Lemma hacc_failed id : hm_acc Rel (instance_failed id).
Proof. apply hacc_bind; [apply hacc_storage|]. intros r. apply hacc_ret. Qed.
End Effects.

#[export] Hint Resolve hacc_ret hacc_throw hacc_panic hacc_lift hacc_alert hacc_storage
  hacc_record hacc_failed : hacc.
#[export] Hint Unfold on_tables : hacc.

(** The jobs an apply adds. *)
Definition jobs_added (P : JobSpec → Prop) (x y : Effects) : Prop :=
  ∀ j, j ∈ ef_jobs y → j ∈ ef_jobs x ∨ P j.

#[export] Instance jobs_added_preorder P : PreOrder (jobs_added P).
Proof.
  split; [by intros x j Hj; left|]. intros x y z H1 H2 j Hj.
  destruct (H2 j Hj) as [Hy|]; [by apply H1|by right].
Qed.

Lemma jobs_added_enqueue (P : JobSpec → Prop) spec x : P spec → jobs_added P x (enqueue_job spec x).
Proof.
  intros Hp j. unfold enqueue_job, snoc. cbn.
  intros [Hj|Hj%list_elem_of_singleton]%elem_of_app; [by left|subst; by right].
Qed.

Ltac hacc_step :=
  match goal with
  | |- ∀ _, _ => intro
  | |- hm_acc _ (_ ≫= _) => apply hacc_bind; [try apply _| |intro]
  | |- hm_acc _ (hm_iter _ _) => apply hacc_iter; [try apply _|intros ? ?]
  | |- hm_acc _ (with_context _ _) => apply hacc_context
  | |- hm_acc _ (on_tables _) => apply hacc_storage, _
  | |- hm_acc _ (fx (enqueue_job _)) => apply hacc_fx; intros ?; apply jobs_added_enqueue
  | |- hm_acc _ (fx _) => apply hacc_fx; intros ?; by left
  | |- hm_acc _ (let '_ := ?x in _) => destruct x
  | |- hm_acc _ (match ?x with _ => _ end) => destruct x
  | |- hm_acc _ (if ?x then _ else _) => destruct x
  | |- hm_acc _ _ => solve [eauto with hacc typeclass_instances]
  end.
Ltac hacc := repeat hacc_step.

(** ** Failures *)

(** How a part of an apply may fail. *)
Definition hm_fails {A} (P : ApplyError → Prop) (Q : string → Prop) (m : HM A) : Prop :=
  ∀ acc d, wp m acc d (λ r _ _, match r with Val _ => True | Throw x => P x | Panic p => Q p end).

Create HintDb hfails discriminated.

Section Failures.
Context (P : ApplyError → Prop) (Q : string → Prop) (transient : ∀ x, P (Transient x)).

Lemma hfails_ret {A} (a : A) : hm_fails P Q (mret a).
Proof. by intros acc d e. Qed.
Lemma hfails_throw {A} x : P x → hm_fails P Q (throw (A := A) x).
Proof. by intros H acc d e. Qed.
Lemma hfails_panic {A} p : Q p → hm_fails P Q (panic (A := A) p).
Proof. by intros H acc d e. Qed.
Lemma hfails_lift {A} (o : outcome A) : hm_fails P Q (lift o).
Proof. destruct o; [apply hfails_ret|by apply hfails_throw]. Qed.
Lemma hfails_alert s : hm_fails P Q (raise_alert s).
Proof. by intros acc d e. Qed.
Lemma hfails_fx f : hm_fails P Q (fx f).
Proof. by intros acc d e. Qed.

Lemma hfails_bind {A B} (m : HM A) (k : A → HM B) :
  hm_fails P Q m → (∀ a, hm_fails P Q (k a)) → hm_fails P Q (m ≫= k).
Proof.
  intros Hm Hk acc d. apply wp_bind. eapply wp_mono; [apply Hm|].
  intros [a|x|p] acc' d' H; cbn; [|done..]. apply Hk.
Qed.

Lemma hfails_storage {A} (m : ST NodeDb A) : hm_fails P Q (storage m).
Proof.
  intros acc d. apply wp_storage. intros e. by destruct (m d e) as [[[a|x] d'] e'].
Qed.

Lemma hfails_context {A} message (m : HM A) :
  hm_fails P Q m → hm_fails P Q (with_context message m).
Proof.
  intros Hm acc d e. specialize (Hm acc d e). unfold with_context.
  by destruct (m acc d e) as [[[[|[]|] ?] ?] ?].
Qed.

Lemma hfails_iter {X} (f : X → HM unit) xs :
  (∀ x, x ∈ xs → hm_fails P Q (f x)) → hm_fails P Q (hm_iter f xs).
Proof.
  induction xs as [|x xs IH]; intros H; cbn [hm_iter]; [apply hfails_ret|].
  apply hfails_bind; [apply H; left|]. intros _. apply IH. intros y Hy. apply H. by right.
Qed.

Lemma hfails_record event : hm_fails P Q (record_event_in event).
Proof. apply hfails_bind; [apply hfails_storage|]. intros _. apply hfails_ret. Qed.

Lemma hfails_failed id : hm_fails P Q (instance_failed id).
Proof. apply hfails_bind; [apply hfails_storage|]. intros r. apply hfails_ret. Qed.
End Failures.

#[export] Hint Resolve hfails_ret hfails_lift hfails_alert hfails_fx hfails_storage hfails_record
  hfails_failed : hfails.

(** The causes of a panic: an overflow that the build checks for, or parameters that
    do not serialize. *)
Ltac hfails_step :=
  match goal with
  | |- ∀ _, _ => intro
  | |- hm_fails _ _ (_ ≫= _) => apply hfails_bind; [|intro]
  | |- hm_fails _ _ (hm_iter _ _) => apply hfails_iter; intros ? ?
  | |- hm_fails _ _ (with_context _ _) => apply hfails_context; [assumption|]
  | |- hm_fails _ _ (on_tables _) => apply hfails_storage; assumption
  | |- hm_fails _ _ (throw (Transient _)) => apply hfails_throw; auto
  | |- hm_fails _ _ (panic _) => apply hfails_panic; eauto
  | |- hm_fails _ _ (match ?x with _ => _ end) => destruct x eqn:?
  | |- hm_fails _ _ (if ?x then _ else _) => destruct x eqn:?
  | |- hm_fails _ _ _ => solve [eauto with hfails]
  end.
Ltac hfails := repeat hfails_step.
