(* ===== verification/InstanceProps.v ===== *)
(** * What an instance's apply may do

    The theorems about one apply of the Instance aggregate: which status changes it
    may make and on what evidence, that its projection mirrors the row, when it asks
    for the deletion of an instance key, and how it fails. *)

From stdpp Require Import base list strings gmap pretty.
From S2P Require Import Prelude Table Storage EngineSchema EngineNext JobStore EngineEffects NodeSchema.
From S2P Require Import LocalDb NodeNext NodeApply InstanceDecide InstanceAggregate ApplyFrames.

Local Open Scope Z_scope.

(** ** Status changes *)

(** One instance moves from [s] to a status in [allowed]; the others stay. *)
Definition row_moves (id : Uuid) (s : InstanceBridgeInStatus)
    (allowed : InstanceBridgeInStatus → Prop) (r r' : Instance_) : Prop :=
  it_instance_id r' = it_instance_id r ∧
  (it_status r' = it_status r ∨
   it_instance_id r = id ∧ it_status r = instance_status_str s ∧
     ∃ next, allowed next ∧ it_status r' = instance_status_str next).

Section Moves.
Context (id : Uuid) (s : InstanceBridgeInStatus) (allowed : InstanceBridgeInStatus → Prop).
Context (fresh : ¬ allowed s).

#[local] Instance row_moves_preorder : PreOrder (row_moves id s allowed).
Proof.
  split; [by intros r; split; [|left]|].
  intros a b c [I1 [E1|(Ia & Ea & n & Hn & En)]] [I2 [E2|(Ib & Eb & m & Hm & Em)]];
    (split; [congruence|]).
  - left. congruence.
  - right. split_and!; [congruence..|]. by exists m.
  - right. split_and!; [done..|]. exists n. split; congruence.
  - rewrite En in Eb. apply instance_status_str_inj in Eb as ->. done.
Qed.

Definition instances_move : relation (list Instance_) := Forall2 (row_moves id s allowed).

#[local] Instance instances_move_preorder : PreOrder instances_move.
Proof. unfold instances_move. apply _. Qed.

Definition moves (t t' : NodeTables) : Prop := instances_move (t_instance t) (t_instance t').

#[local] Instance moves_preorder : PreOrder moves.
Proof. unfold moves. split; [by intros t|]. intros a b c H1 H2. by etrans. Qed.

Lemma moves_update p f rows :
  (∀ r, p r = true → row_moves id s allowed r (f r)) → instances_move rows (update_where p f rows).
Proof.
  intros Hf. unfold instances_move, update_where. induction rows as [|r rows IH]; cbn; [constructor|].
  constructor; [|done]. destruct (p r) eqn:E; [by apply Hf|reflexivity].
Qed.

(** An update that leaves the status, or moves it from [s] to an allowed one. *)
Definition update_moves (u : InstanceUpdate) : Prop :=
  iu_status u = None ∨
  iu_instance_id u = id ∧ iu_only_if_status_in u = Some [instance_status_str s] ∧
    ∃ next, allowed next ∧ iu_status u = Some (instance_status_str next).

Lemma update_instance_moves u : update_moves u → guarantee moves (update_instance u).
Proof.
  intros Hu. unfold update_instance.
  guar; (apply guarantee_stmt; [apply _|]; intros t; apply moves_update; intros r Hr; split; [done|];
    cbn; unfold update_applies, instance_is in Hr; brefl;
    destruct Hu as [E|(Ei & Eo & next & Hn & E)]; rewrite E; cbn; [by left|];
    rewrite Eo in *; brefl; set_unfold; right; split_and!; [congruence|by intuition|by exists next]).
Qed.

Lemma same_moves {A} (m : ST NodeTables A) : guarantee same_instances m → guarantee moves m.
Proof. apply (same_instances_rel instances_move). Qed.
End Moves.

Section Apply.
Context `{UuidText} `{OverflowChecks} `{Sha256} `{ProtoBase} `{JobResultJson}.
Context `{InboundCodec} `{OperatorStartCodec} `{InstanceCodec} `{PeginTxids}.
Context (self : InstanceAggregate) (ctx : ApplyContext).

(** What the event decides about an instance at [status], given the node's rows. *)
Definition decision (t : NodeTables) (instance : Instance_) (status : InstanceBridgeInStatus)
    (kind : string) (payload : bytes) : option Transition :=
  if decide (kind = EVENT_BTC_SNAPSHOT) then
    match snapshot_from_slice payload with
    | Ok snapshot => Some (decide_btc_snapshot status (it_btc_height instance)
                             (it_key_deleted instance) snapshot (ia_deadlines self))
    | Err _ => None
    end
  else if decide (kind = EVENT_ANSWER_WINDOW) then
    match window_from_slice payload with
    | Ok window => Some (decide_answer_window status (it_goat_tx_height instance)
                           (it_committees_answers instance) window)
    | Err _ => None
    end
  else if decide (kind = EVENT_GRAPH_ENDORSED) then
    Some (decide_graph_endorsed status (count_where (λ r,
      bool_decide (gp_instance_id r = it_instance_id instance) && gp_is_endorsed r)
      (t_pegin_graph_process_data t)))
  else if decide (kind = EVENT_L2_MINTED) then
    match minted_from_slice payload with
    | Ok tx_hash => Some (decide_l2_minted status tx_hash)
    | Err _ => None
    end
  else None.

Lemma decision_advances t instance status kind payload transition next :
  decision t instance status kind payload = Some transition → tr_next transition = Some next →
  advances status next = true.
Proof.
  unfold decision. intros E. repeat case_match; simplify_eq;
    eauto using decide_btc_snapshot_advances, decide_answer_window_advances,
      decide_graph_endorsed_advances, decide_l2_minted_advances.
Qed.

Section Moving.
Context (instance : Instance_) (status : InstanceBridgeInStatus).
Context (allowed : InstanceBridgeInStatus → Prop) (fresh : ¬ allowed status).
Abbreviation Moves := (node_rows (moves (it_instance_id instance) status allowed)).

#[local] Instance moving_preorder :
  PreOrder (moves (it_instance_id instance) status allowed) := moves_preorder _ _ _ fresh.

Lemma enter_failure_moves failed : hm_guar Moves (enter_failure self ctx instance failed).
Proof.
  unfold enter_failure, fail_graph, release_setup_session, next_slot, u64_add1, request_key_delete.
  hrows; apply same_moves; auto using obsolete_same, delete_pending_same.
Qed.

Lemma on_entered_moves next : hm_guar Moves (on_entered self ctx instance next).
Proof. unfold on_entered, job, close_confirm_round. hrows; apply enter_failure_moves. Qed.

Lemma commit_moves transition :
  (∀ next, tr_next transition = Some next → allowed next) →
  hm_guar Moves (commit_transition self ctx instance status transition).
Proof.
  intros Ht. unfold commit_transition, job, set_projection, alert, request_key_delete.
  destruct (filter_some _ _) as [next|] eqn:E.
  - apply filter_some_Some in E as [E _]. hrows; try apply on_entered_moves.
    apply update_instance_moves; [done|]. right. unfold transition_update.
    repeat case_match; cbn; split_and!; try done; exists next; subst; auto.
  - hrows. apply update_instance_moves; [done|]. by left.
Qed.

Lemma plan_moves plan : hm_guar Moves (InstanceAggregate.apply_plan ctx instance status plan).
Proof.
  unfold InstanceAggregate.apply_plan, enqueue_next, start_graph,
    find_pending_graph_init_by_instance_and_operator_pubkey.
  hrows. apply same_moves; auto using upsert_pending_same.
Qed.

Lemma job_result_moves result : hm_guar Moves (apply_job_result ctx instance status result).
Proof.
  unfold apply_job_result, finish_job_result, set_projection, alert.
  hrows; try apply plan_moves. apply update_instance_moves; [done|]. by left.
Qed.

Lemma snapshot_moves snapshot :
  (∀ next, tr_next (decide_btc_snapshot status (it_btc_height instance) (it_key_deleted instance)
                      snapshot (ia_deadlines self)) = Some next → allowed next) →
  hm_guar Moves (apply_snapshot self ctx instance status snapshot).
Proof.
  intros Ha. unfold apply_snapshot, all_partial_sigs_stored, job. hrows; [|by apply commit_moves].
  intros acc d e. unfold round_process_data.
  assert (Hg : guarantee Moves (tables (find_instance_process_row (it_instance_id instance)))).
  { eapply guarantee_focus; [|by intros d' t' Ht]. unfold find_instance_process_row. guar. }
  specialize (Hg d e). unfold final in Hg. by destruct (tables _ d e) as [[[[row|]|x] d'] e'].
Qed.
End Moving.

Lemma wp_context {A} message (m : HM A) acc d (Q : step A → Acc → NodeDb → Prop) :
  wp m acc d (λ r acc' d', match r with
    | Throw (Transient x) => Q (Throw (Transient (message :: x))) acc' d'
    | _ => Q r acc' d'
    end) → wp (with_context message m) acc d Q.
Proof.
  intros Hm e. specialize (Hm e). unfold with_context.
  by destruct (m acc d e) as [[[[|[]|] ?] ?] ?].
Qed.

Lemma endorsed_count id (rows : list PeginGraphProcessData) :
  Z.max 0 (count_where (λ r, bool_decide (gp_instance_id r = id) && Bool.eqb (gp_is_endorsed r) true)
             rows) =
  count_where (λ r, bool_decide (gp_instance_id r = id) && gp_is_endorsed r) rows.
Proof.
  rewrite Z.max_r by apply Nat2Z.is_nonneg. unfold count_where, select_where. do 2 f_equal.
  apply List.filter_ext. intros r. by destruct (gp_is_endorsed r).
Qed.

(** The statuses the event allows. *)
Definition decided (t : NodeTables) (instance : Instance_) (status : InstanceBridgeInStatus)
    (event : EngineInboxEvent) (next : InstanceBridgeInStatus) : Prop :=
  ∃ transition,
    decision t instance status (ib_kind event) (default ""%string (ib_payload event)) =
      Some transition ∧ tr_next transition = Some next.

Lemma decided_fresh t instance status event : ¬ decided t instance status event status.
Proof.
  intros (transition & E & En). eapply decision_advances in E; [|done].
  by rewrite advances_irrefl in E.
Qed.

Lemma event_moves instance status event acc d :
  wp (apply_event self ctx (it_instance_id instance) instance status (ib_kind event)
        (default ""%string (ib_payload event))) acc d
    (λ _ _ d', moves (it_instance_id instance) status
       (decided (business d) instance status event) (business d) (business d')).
Proof.
  set (allowed := decided (business d) instance status event).
  assert (fresh : ¬ allowed status) by apply decided_fresh.
  pose proof (moves_preorder (it_instance_id instance) status allowed fresh) as Hpre.
  assert (Hd : ∀ transition, decision (business d) instance status (ib_kind event)
    (default ""%string (ib_payload event)) = Some transition →
    hm_guar (node_rows (moves (it_instance_id instance) status allowed))
      (commit_transition self ctx instance status transition)).
  { intros transition E. apply commit_moves; [done|]. intros next En. by exists transition. }
  assert (Hs : ∀ snapshot, ib_kind event = EVENT_BTC_SNAPSHOT →
    snapshot_from_slice (default ""%string (ib_payload event)) = Ok snapshot →
    hm_guar (node_rows (moves (it_instance_id instance) status allowed))
      (apply_snapshot self ctx instance status snapshot)).
  { intros snapshot Ek E. apply snapshot_moves; [done|]. intros next En. eexists. split; [|exact En].
    unfold decision. by rewrite decide_True, E. }
  pose proof (job_result_moves instance status allowed fresh) as Hj.
  destruct (decide (ib_kind event = EVENT_GRAPH_ENDORSED)) as [Ek|Hne].
  - unfold apply_event. rewrite !decide_False by (rewrite Ek; done). rewrite decide_True by done.
    destruct status eqn:Es; try (apply wp_ret; cbn; reflexivity);
      (apply wp_bind, wp_context, wp_query; [|cbn; reflexivity]; cbn [after];
       eapply wp_bind, wp_mono;
         [apply Hd; unfold decision; rewrite !decide_False, decide_True by (rewrite ?Ek; done);
          by rewrite endorsed_count
         |intros [] ? ? Hm; cbn; try (apply wp_ret); exact Hm]).
  - enough (hm_guar (node_rows (moves (it_instance_id instance) status allowed))
      (apply_event self ctx (it_instance_id instance) instance status (ib_kind event)
        (default ""%string (ib_payload event)))) as Hg by apply Hg.
    unfold apply_event. unfold decision in Hd.
    repeat case_decide; try done.
    + destruct (snapshot_from_slice _) eqn:E; hrows; by apply Hs.
    + destruct (window_from_slice _) eqn:E; hrows; by apply Hd.
    + destruct (minted_from_slice _) eqn:E; hrows; by apply Hd.
    + unfold apply_pegin_request, set_projection, job. hrows.
    + hrows; apply Hj.
    + unfold apply_round_message, set_projection. hrows.
Qed.

(** What stands behind a status change. *)
Inductive evidence (t : NodeTables) (instance : Instance_) (status next : InstanceBridgeInStatus)
    (event : EngineInboxEvent) : Prop :=
| by_snapshot snapshot :
    ib_kind event = EVENT_BTC_SNAPSHOT →
    snapshot_from_slice (default ""%string (ib_payload event)) = Ok snapshot →
    snapshot_evidence status next
      (effective_height (it_btc_height instance)
         (decide_btc_snapshot status (it_btc_height instance) (it_key_deleted instance) snapshot
            (ia_deadlines self))) snapshot (ia_deadlines self) →
    evidence t instance status next event
| by_window window :
    ib_kind event = EVENT_ANSWER_WINDOW →
    window_from_slice (default ""%string (ib_payload event)) = Ok window →
    status = UserInited →
    it_goat_tx_height instance + aw_window_blocks window < aw_goat_height window →
    next = CommitteesAnswered ∨ next = NoEnoughCommitteesAnswered →
    evidence t instance status next event
| by_endorsement :
    ib_kind event = EVENT_GRAPH_ENDORSED → status = UserBroadcastPeginPrepare → next = Presigned →
    (∃ row, row ∈ t_pegin_graph_process_data t ∧ gp_instance_id row = it_instance_id instance ∧
       gp_is_endorsed row = true) →
    evidence t instance status next event
| by_mint tx_hash :
    ib_kind event = EVENT_L2_MINTED →
    minted_from_slice (default ""%string (ib_payload event)) = Ok tx_hash →
    next = RelayerL2Minted →
    evidence t instance status next event.

Lemma window_evidence status h known window next :
  tr_next (decide_answer_window status h known window) = Some next →
  status = UserInited ∧ h + aw_window_blocks window < aw_goat_height window ∧
  (next = CommitteesAnswered ∨ next = NoEnoughCommitteesAnswered).
Proof.
  unfold decide_answer_window. destruct (bool_decide_reflect (status = UserInited)) as [->|];
    cbn [negb orb]; [|done]. destruct (Z.leb_spec (aw_goat_height window) (h + aw_window_blocks window));
    [done|]. destruct (aw_quorum window <=? _); intros [= <-]; auto.
Qed.

Lemma endorsed_evidence t id status next :
  tr_next (decide_graph_endorsed status (count_where (λ r,
    bool_decide (gp_instance_id r = id) && gp_is_endorsed r) (t_pegin_graph_process_data t))) =
    Some next →
  status = UserBroadcastPeginPrepare ∧ next = Presigned ∧
  ∃ row, row ∈ t_pegin_graph_process_data t ∧ gp_instance_id row = id ∧ gp_is_endorsed row = true.
Proof.
  unfold decide_graph_endorsed, min_required_operator, count_where.
  destruct (bool_decide_reflect (status = UserBroadcastPeginPrepare)) as [->|]; [|done].
  cbn [andb]. destruct (select_where _ _) as [|row rows] eqn:E; [done|].
  destruct (1 <=? _); [|done]. intros [= <-]. split_and!; [done..|]. exists row.
  assert (Hr : row ∈ select_where (λ r, bool_decide (gp_instance_id r = id) && gp_is_endorsed r)
    (t_pegin_graph_process_data t)) by (rewrite E; left).
  apply list_elem_of_In, List.filter_In in Hr as [Hr%list_elem_of_In Hp]. by brefl.
Qed.

Lemma decided_evidence t instance status event next :
  decided t instance status event next → evidence t instance status next event.
Proof.
  intros (transition & E & En). unfold decision in E.
  repeat case_decide; try done.
  - destruct (snapshot_from_slice _) as [snapshot|] eqn:Es; simplify_eq.
    eapply by_snapshot; [done..|]. by apply decide_btc_snapshot_evidence.
  - destruct (window_from_slice _) as [window|] eqn:Es; simplify_eq.
    apply window_evidence in En as (? & ? & ?). by eapply by_window.
  - simplify_eq. apply endorsed_evidence in En as (? & ? & ?). by eapply by_endorsement.
  - destruct (minted_from_slice _) as [tx|] eqn:Es; simplify_eq. eapply by_mint; [done..|].
    unfold decide_l2_minted in En. repeat case_match; by simplify_eq/=.
Qed.

(** The statuses after an apply, whatever the event and however it ended. *)
Lemma instance_apply_moves event acc d :
  tables_ok (business d) →
  wp (instance_apply self ctx event) acc d (λ _ _ d', ∀ r', r' ∈ t_instance (business d') →
    ∃ r, r ∈ t_instance (business d) ∧ it_instance_id r' = it_instance_id r ∧
      (it_status r' = it_status r ∨
       ∃ status next, it_status r = instance_status_str status ∧
         it_status r' = instance_status_str next ∧
         uuid_from_str (ar_id (ac_aggregate ctx)) = Ok (it_instance_id r) ∧
         advances status next = true ∧ evidence (business d) r status next event)).
Proof.
  intros Hok. unfold instance_apply.
  assert (Hsame : ∀ r', r' ∈ t_instance (business d) →
    ∃ r, r ∈ t_instance (business d) ∧ it_instance_id r' = it_instance_id r ∧
      (it_status r' = it_status r ∨
       ∃ status next, it_status r = instance_status_str status ∧
         it_status r' = instance_status_str next ∧
         uuid_from_str (ar_id (ac_aggregate ctx)) = Ok (it_instance_id r) ∧
         advances status next = true ∧ evidence (business d) r status next event)) by eauto.
  destruct (uuid_from_str _) as [id|x] eqn:Eid; [|by apply wp_throw].
  apply wp_bind, wp_query; [|done]. cbn [after].
  destruct (select_one _ _) as [instance|] eqn:Ei; [|by apply wp_ret].
  destruct (instance_status_of _) as [status|] eqn:Es; [|by apply wp_throw].
  apply find_some_elem in Ei as [Hin Hid]. unfold instance_is in Hid. brefl. subst id.
  eapply wp_mono; [apply event_moves|]. intros o acc' d' Hm r' Hr'. cbn in Hm.
  apply list_elem_of_lookup in Hr' as [i Hi].
  destruct (Forall2_lookup_r _ _ _ _ _ Hm Hi) as (r & Hr & Hi' & Hst).
  apply list_elem_of_lookup_2 in Hr. exists r. split_and!; [done..|].
  destruct Hst as [|(E1 & E2 & next & Hn & E3)]; [by left|right].
  assert (Er : r = instance) by (eapply NoDup_map_inj; [apply to_instance|..]; eauto). subst r.
  exists status, next. split_and!; [done..| |by apply decided_evidence].
  destruct Hn as (tr & Hd & Ht). by eapply decision_advances.
Qed.

(** ** The projection mirrors the row *)

Definition status_is (id : Uuid) (s : InstanceBridgeInStatus) (t : NodeTables) : Prop :=
  ∃ r, select_one (instance_is id) (t_instance t) = Some r ∧ it_status r = instance_status_str s.

Definition mirrors (id : Uuid) (acc : Acc) (d : NodeDb) : Prop :=
  ∃ s, status_is id s (business d) ∧
    ef_status (acc_effects acc) = Some (instance_status_str s) ∧
    ef_phase (acc_effects acc) = Some (phase_of s).

(** The rows keep their statuses. *)
Definition no_status (s : InstanceBridgeInStatus) : Prop := False.
Definition steady (id : Uuid) (s : InstanceBridgeInStatus) : NodeDb → NodeDb → Prop :=
  node_rows (moves id s no_status).

#[local] Instance steady_preorder id s : PreOrder (moves id s no_status).
Proof. apply moves_preorder. by intros []. Qed.

Lemma steady_status id s0 s d d' :
  steady id s0 d d' → status_is id s (business d) → status_is id s (business d').
Proof.
  unfold steady, node_rows, moves, instances_move, status_is, select_one.
  generalize (t_instance (business d)) (t_instance (business d')).
  intros rows rows' Hm (r & Hf & Er). induction Hm as [|x y rows rows' [Hi Hs] _ IH]; [done|].
  cbn in Hf |- *. unfold instance_is in *. rewrite Hi. destruct (bool_decide (it_instance_id x = id));
    [|by apply IH]. injection Hf as ->. exists y. split; [done|].
  destruct Hs as [->|(_ & _ & n & [] & _)]. done.
Qed.

(** Afterwards the instance mirrors. *)
Definition mirrored {A} (id : Uuid) : step A → Acc → NodeDb → Prop := λ r acc d,
  match r with Val _ => mirrors id acc d | _ => True end.

Lemma wp_projection id s acc d :
  status_is id s (business d) → wp (set_projection s) acc d (mirrored id).
Proof.
  intros Hs. unfold set_projection. apply wp_bind, wp_fx. cbn [after]. apply wp_fx.
  exists s. by split_and!.
Qed.

Lemma wp_steady {A B} id s0 s (m : HM A) (k : A → HM B) acc d
    (Q : step B → Acc → NodeDb → Prop) :
  hm_guar (steady id s0) m → status_is id s (business d) →
  (∀ x acc d, Q (Throw x) acc d) → (∀ p acc d, Q (Panic p) acc d) →
  (∀ a acc d, status_is id s (business d) → wp (k a) acc d Q) →
  wp (m ≫= k) acc d Q.
Proof.
  intros Hm Hs Ht Hp Hk. apply wp_bind. eapply wp_mono; [apply Hm|].
  intros [a|x|p] acc' d' Hd; cbn; [|auto..]. apply Hk. by eapply steady_status.
Qed.

(** After an update that took effect, the row has the new status. *)
Lemma update_status u next status_at now t :
  iu_status u = Some (instance_status_str next) → tables_ok t →
  0 < count_where (update_applies u) (t_instance t) →
  status_is (iu_instance_id u) next
    (t <| t_instance ::= update_where (update_applies u) (update_row u status_at now) |>).
Proof.
  intros Eu Hok (r & Hr & Hp)%count_where_pos. unfold status_is, select_one. cbn.
  assert (Hid : it_instance_id r = iu_instance_id u).
  { unfold update_applies, instance_is in Hp. by brefl. }
  set (rows := update_where _ _ _).
  destruct (List.find (instance_is (iu_instance_id u)) rows) as [y|] eqn:Ef.
  - exists y. split; [done|]. apply find_some_elem in Ef as [Hy Hy'].
    unfold instance_is in Hy'. brefl.
    apply elem_of_update_where in Hy as (x & Hx & ->).
    assert (x = r) as ->.
    { eapply NoDup_map_inj; [apply (to_instance t Hok)|done..|].
      destruct (update_applies u x); cbn in *; congruence. }
    rewrite Hp. cbn. by rewrite Eu.
  - rewrite find_none_elem in Ef. specialize (Ef (update_row u status_at now r)).
    unfold instance_is in Ef. cbn in Ef. rewrite bool_decide_eq_true_2 in Ef by done.
    discriminate Ef. apply elem_of_update_where. exists r. by rewrite Hp.
Qed.

Lemma wp_update_instance u next acc d (Q : step bool → Acc → NodeDb → Prop) :
  iu_status u = Some (instance_status_str next) → tables_ok (business d) →
  (∀ x d', Q (Throw x) acc d') → (∀ d', Q (Val false) acc d') →
  (∀ d', status_is (iu_instance_id u) next (business d') → Q (Val true) acc d') →
  wp (on_tables (update_instance u)) acc d Q.
Proof.
  intros Eu Hok Ht Hf Htrue. apply wp_storage. intros e.
  assert (Hh : hoare (λ t, t = business d) (update_instance u) (λ o t,
    match o with Ok true => status_is (iu_instance_id u) next t | _ => True end)).
  { unfold update_instance, has_updates. rewrite Eu. cbn [is_some]. rewrite !orb_true_r. cbn [orb negb].
    eapply (hoare_bind _ _ _ (λ _ t, t = business d)); [by apply hoare_clock|]. intros status_at.
    eapply (hoare_bind _ _ _ (λ _ t, t = business d)); [by apply hoare_clock|]. intros now.
    eapply (hoare_bind _ _ _ (λ n t, 0 < n → status_is (iu_instance_id u) next t)).
    - apply hoare_stmt. intros t ->. split; [done|]. intros Hn. by apply update_status.
    - intros n. apply hoare_ret. intros t Hn. destruct (Z.ltb_spec 0 n); auto. }
  specialize (Hh (business d) e eq_refl). unfold tables, focus, final in *.
  destruct (update_instance u (business d) e) as [[[[]|x] t] e']; cbn in *; auto.
Qed.

(** Parts of an apply that change no status. *)
Lemma on_entered_steady instance s next :
  hm_guar (steady (it_instance_id instance) s) (on_entered self ctx instance next).
Proof. apply on_entered_moves. by intros []. Qed.

Lemma commit_mirrors instance status transition acc d :
  tables_ok (business d) → status_is (it_instance_id instance) status (business d) →
  wp (commit_transition self ctx instance status transition) acc d
    (mirrored (it_instance_id instance)).
Proof.
  intros Hok Hs. unfold commit_transition.
  assert (Htail : ∀ final acc d, status_is (it_instance_id instance) final (business d) →
    wp ((if is_some (tr_prepare_height transition) then job ctx JOB_CONFIRM_INSTANCE "" else mret tt);;
        (if tr_delete_key transition then request_key_delete self ctx instance "success" else mret tt);;
        hm_iter alert (tr_alerts transition);; set_projection final) acc d
      (mirrored (it_instance_id instance))).
  { intros final acc' d' Hf. unfold job, request_key_delete, alert.
    apply (wp_steady (it_instance_id instance) status final); [unfold steady; hrows|done..|].
    intros _ acc1 d1 H1'. apply (wp_steady (it_instance_id instance) status final);
      [unfold steady; hrows|done..|].
    intros _ acc2 d2 H2'. apply (wp_steady (it_instance_id instance) status final);
      [unfold steady; hrows|done..|].
    intros _ acc3 d3 H3'. by apply wp_projection. }
  destruct (filter_some _ _) as [next|] eqn:E.
  - apply wp_bind, wp_bind. eapply wp_update_instance; [|done| |..].
    + unfold transition_update. by repeat case_match.
    + by intros x d'.
    + intros d'. cbn [after negb]. by apply wp_throw.
    + intros d' Hd'. cbn [after negb]. apply wp_bind.
      assert (Eid : iu_instance_id (transition_update instance status next transition) =
        it_instance_id instance) by (unfold transition_update; by repeat case_match).
      rewrite Eid in Hd'. eapply wp_mono; [apply (on_entered_steady instance status)|].
      intros [[]|x|p] acc' d'' Hst; cbn; [|done..]. apply wp_ret. cbn. apply Htail.
      by eapply steady_status.
  - apply wp_bind. destruct (tr_post_pegin_txhash transition).
    + apply wp_bind. eapply wp_mono.
      * apply (hrows_tables (moves (it_instance_id instance) status no_status)).
        apply update_instance_moves; [by intros []|]. by left.
      * intros [[]|x|p] acc' d'' Hst; cbn; [..|done|done]; apply wp_ret; cbn; apply Htail;
          by eapply steady_status.
    + apply wp_ret. cbn. by apply Htail.
Qed.

Lemma round_data_same (R : NodeTables → NodeTables → Prop) `{!PreOrder R} id :
  hm_guar (node_rows R) (round_process_data id).
Proof.
  intros acc d e. unfold round_process_data.
  assert (Hg : guarantee (node_rows R) (tables (find_instance_process_row id))).
  { eapply guarantee_focus; [|by intros d' t' Ht]. unfold find_instance_process_row. guar. }
  specialize (Hg d e). unfold final in Hg. by destruct (tables _ d e) as [[[[row|]|x] d'] e'].
Qed.

Lemma snapshot_mirrors instance status snapshot acc d :
  tables_ok (business d) → status_is (it_instance_id instance) status (business d) →
  wp (apply_snapshot self ctx instance status snapshot) acc d (mirrored (it_instance_id instance)).
Proof.
  intros Hok Hs. unfold apply_snapshot. apply wp_bind.
  eapply (wp_mono _ _ _ (λ _ _ d', node_rows eq d d')).
  - match goal with |- wp ?m _ _ _ => enough (Hg : hm_guar (node_rows eq) m) by apply Hg end.
    unfold all_partial_sigs_stored, job. hrows. apply round_data_same, _.
  - intros [[]|x|p] acc' d' E; cbn; [|done..]. unfold node_rows in E.
    apply commit_mirrors; by rewrite <- E.
Qed.

Definition applied_mirrors (id : Uuid) : step ApplyOutcome → Acc → NodeDb → Prop := λ r acc d,
  match r with Val Applied => mirrors id acc d | _ => True end.

Lemma wp_applied {A} id (m : HM A) acc d :
  wp m acc d (mirrored id) → wp (m ≫= λ _, mret Applied) acc d (applied_mirrors id).
Proof.
  intros Hm. apply wp_bind. eapply wp_mono; [exact Hm|]. intros [a|x|p] acc' d'; cbn; [|done..].
  intros H'. by apply wp_ret.
Qed.

(** A part without status changes, then the projection. *)
Lemma wp_project id s (m : HM ApplyOutcome) acc d :
  hm_guar (steady id s) m → status_is id s (business d) →
  wp (m ≫= λ o, set_projection s;; mret o) acc d (applied_mirrors id).
Proof.
  intros Hm Hs. apply (wp_steady id s s); [done..|]. intros o acc' d' Hs'.
  apply wp_bind. eapply wp_mono; [by apply wp_projection|].
  intros [a|x|p] acc'' d''; cbn; [|done..]. intros Hmir. apply wp_ret. by destruct o.
Qed.

Lemma wp_finish id s result acc d :
  status_is id s (business d) → wp (finish_job_result ctx s result) acc d (applied_mirrors id).
Proof.
  intros Hs. unfold finish_job_result.
  apply (wp_steady id s s); [apply hrows_clear, _|done..|]. intros _ acc' d' Hs'.
  apply wp_applied. by apply wp_projection.
Qed.

Lemma job_result_mirrors instance s result acc d :
  status_is (it_instance_id instance) s (business d) →
  wp (apply_job_result ctx instance s result) acc d (applied_mirrors (it_instance_id instance)).
Proof.
  intros Hs. unfold apply_job_result, alert.
  assert (Hk : ∀ A (m : HM A), hm_guar (steady (it_instance_id instance) s) m →
    wp (m ≫= λ _, finish_job_result ctx s result) acc d (applied_mirrors (it_instance_id instance))).
  { intros A m Hm. apply (wp_steady (it_instance_id instance) s s); [done..|]. intros _ acc' d' Hs'.
    by apply wp_finish. }
  repeat case_decide.
  - apply Hk. unfold steady. hrows. apply update_instance_moves; [by intros []|]. by left.
  - apply Hk. unfold steady. hrows.
  - destruct (jr_outcome result) as [b|x| |x]; [|apply Hk; unfold steady; hrows|by apply wp_finish..].
    destruct (instance_plan_decode b); [|by apply wp_ret]. apply Hk. apply plan_moves. by intros [].
  - by apply wp_ret.
Qed.

Lemma instance_apply_projection event acc d id :
  tables_ok (business d) → uuid_from_str (ar_id (ac_aggregate ctx)) = Ok id →
  wp (instance_apply self ctx event) acc d (applied_mirrors id).
Proof.
  intros Hok Eid. unfold instance_apply. rewrite Eid.
  apply wp_bind, wp_query; [|done]. cbn [after].
  destruct (select_one _ _) as [instance|] eqn:Ei; [|by apply wp_ret].
  destruct (instance_status_of _) as [status|] eqn:Es; [|by apply wp_throw].
  pose proof Ei as [_ Hid]%find_some_elem. unfold instance_is in Hid. brefl. subst id.
  assert (Hs : status_is (it_instance_id instance) status (business d)).
  { exists instance. split; [done|]. symmetry. by apply instance_status_of_Some. }
  unfold apply_event. repeat case_decide.
  - destruct (snapshot_from_slice _); [|by apply wp_ret]. by apply wp_applied, snapshot_mirrors.
  - destruct (window_from_slice _); [|by apply wp_ret]. by apply wp_applied, commit_mirrors.
  - destruct status; try by apply wp_ret.
    all: apply wp_bind, wp_context, wp_query; [|done]; cbn [after];
      by apply wp_applied, commit_mirrors.
  - destruct (minted_from_slice _); [|by apply wp_ret]. by apply wp_applied, commit_mirrors.
  - destruct (request_from_slice _); [|by apply wp_ret]. apply wp_project; [|done].
    unfold apply_pegin_request, job, steady. hrows.
  - destruct (job_result_decode _); [|by apply wp_throw]. by apply job_result_mirrors.
  - destruct (engine_handles _ _); [|by apply wp_ret]. apply wp_project; [|done].
    unfold apply_round_message, steady. hrows.
Qed.
End Apply.
