(* ===== verification/ApplyErrors.v ===== *)
(** * How the applies fail

    The errors of the two aggregates, classified: an invariant is violated only by
    an aggregate id that is no UUID, a status that does not parse or a job result
    that does not decode, and a panic has one of two causes; everything else that
    goes wrong is transient or rejects the event.  Then what this means for the
    engine: when it poisons an event of the node. *)

From stdpp Require Import base list strings gmap pretty.
From S2P Require Import Prelude Table Storage EngineSchema EngineNext OutboxStore JobStore EngineConfig.
From S2P Require Import EngineEffects Worker NodeSchema LocalDb NodeNext NodeApply InstanceDecide.
From S2P Require Import InstanceAggregate GraphPegout GraphAggregate NodeHandlers ApplyFrames.

Local Open Scope Z_scope.

(** The only panics: [+]/[-] in a build with overflow checks, and an [expect]. *)
Definition panic_cause `{OverflowChecks} `{InstanceCodec} (p : string) : Prop :=
  overflow_checks = true ∧
    (p = "attempt to add with overflow"%string ∨ p = "attempt to subtract with overflow"%string) ∨
  p = "KeyDeleteParams serializes"%string ∧ ∃ reason x, key_delete_params_to_vec reason = Err x.

Section Errors.
Context `{UuidText} `{OverflowChecks} `{Sha256} `{ProtoBase} `{JobResultJson}.
Context `{InboundCodec} `{OperatorStartCodec} `{InstanceCodec} `{PeginTxids} `{GraphCodec}.

(** What violates an invariant. *)
Definition invariant_cause (ctx : ApplyContext) (event : EngineInboxEvent) (t : NodeTables) : Prop :=
  (∃ x, uuid_from_str (ar_id (ac_aggregate ctx)) = Err x) ∨
  (∃ r, r ∈ t_instance t ∧ ¬ instance_typed r) ∨
  ib_kind event = JOB_RESULT_KIND ∧ ∃ x, job_result_decode (default ""%string (ib_payload event)) = Err x.

Section Parts.
Context (P : ApplyError → Prop) (transient : ∀ x, P (Transient x)).

Lemma fails_next_slot op : hm_fails P panic_cause (next_slot op).
Proof. unfold next_slot, u64_add1. hfails. left. split; [done|by left]. Qed.

Lemma fails_release session reason : hm_fails P panic_cause (release_setup_session session reason).
Proof. unfold release_setup_session. hfails. apply fails_next_slot. Qed.

Lemma fails_sub1 z : hm_fails P panic_cause (i64_sub1 z).
Proof. unfold i64_sub1. hfails. left. split; [done|by right]. Qed.

Section Instance.
Context (self : InstanceAggregate) (ctx : ApplyContext).

Lemma fails_key_delete instance reason :
  hm_fails P panic_cause (request_key_delete self ctx instance reason).
Proof. unfold request_key_delete. hfails. right. split; [done|]. by eexists _, _. Qed.

Lemma fails_on_entered instance next : hm_fails P panic_cause (on_entered self ctx instance next).
Proof.
  unfold on_entered, job, close_confirm_round, enter_failure, fail_graph.
  hfails; first [apply fails_release | apply fails_key_delete].
Qed.

Lemma fails_commit instance status transition :
  hm_fails P panic_cause (commit_transition self ctx instance status transition).
Proof.
  unfold commit_transition, job, set_projection, alert.
  hfails; first [apply fails_on_entered | apply fails_key_delete].
Qed.

Lemma fails_snapshot instance status snapshot :
  hm_fails P panic_cause (apply_snapshot self ctx instance status snapshot).
Proof.
  unfold apply_snapshot, all_partial_sigs_stored, job. hfails; [|apply fails_commit].
  intros acc d e. unfold round_process_data. by destruct (tables _ d e) as [[[[row|]|x] d'] e'].
Qed.

Lemma fails_job_result instance status result :
  hm_fails P panic_cause (apply_job_result ctx instance status result).
Proof.
  unfold apply_job_result, finish_job_result, set_projection, alert, InstanceAggregate.apply_plan,
    enqueue_next, start_graph. hfails.
Qed.
End Instance.

Section Graph.
Context (self : GraphAggregate) (ctx : ApplyContext).

Lemma fails_park inbound created_at lookup waiting :
  hm_fails P panic_cause (park_for_definition self ctx inbound created_at lookup waiting).
Proof. unfold park_for_definition, encode_lookup, enqueue_setup_job. hfails. Qed.

Lemma fails_message graph_id state status kind payload created_at :
  hm_fails P panic_cause (apply_message self ctx graph_id state status kind payload created_at).
Proof.
  unfold apply_message, check_message, check_slot, enqueue_setup_job.
  hfails; first [apply fails_park | apply fails_sub1].
Qed.

Lemma fails_graph_job_result graph_id state status result :
  hm_fails P panic_cause (graph_apply_job_result ctx graph_id state status result).
Proof.
  unfold graph_apply_job_result, graph_apply_plan, graph_enqueue_next. hfails. apply fails_next_slot.
Qed.

Lemma fails_build_ready graph_id row : hm_fails P panic_cause (apply_build_ready ctx graph_id row).
Proof.
  unfold apply_build_ready, building_sibling, enqueue_setup_job. hfails.
  match goal with |- hm_fails _ _ (building_among _ _ ?l) => induction l end;
    cbn [building_among]; hfails; first [assumption | apply fails_next_slot].
Qed.

Lemma fails_withdraw state row payload :
  hm_fails P panic_cause (apply_withdraw_init self ctx state row payload).
Proof.
  unfold apply_withdraw_init, replace_withdraw, predecessor_settled, kickoff_job. hfails.
  apply fails_sub1.
Qed.

Lemma fails_graph_event graph_id state row status event :
  (∀ x, job_result_decode (default ""%string (ib_payload event)) = Err x →
        ib_kind event = JOB_RESULT_KIND → P (Invariant x)) →
  hm_fails P panic_cause (graph_apply_event self ctx graph_id state row status event).
Proof.
  intros Hdec. unfold graph_apply_event, apply_operator_start, apply_graph_pulled, apply_graph_pull,
    apply_withdraw_cancel, encode_lookup, enqueue_setup_job, abandon_setup, apply_chain_scan,
    report_dead, apply_signal.
  hfails; first [apply fails_graph_job_result | apply fails_build_ready | apply fails_withdraw
    | apply fails_message | apply fails_release | apply hfails_throw; eauto].
Qed.
End Graph.
End Parts.

(** ** The two applies *)

(** How an apply may end. *)
Definition apply_ends (ctx : ApplyContext) (event : EngineInboxEvent) (t : NodeTables)
    (r : step ApplyOutcome) : Prop :=
  match r with
  | Val _ | Throw (Transient _) => True
  | Throw (Invariant _) => invariant_cause ctx event t
  | Panic p => panic_cause p
  end.

Definition error_cause (ctx : ApplyContext) (event : EngineInboxEvent) (t : NodeTables)
    (x : ApplyError) : Prop :=
  match x with Transient _ => True | Invariant _ => invariant_cause ctx event t end.

Lemma fails_ends {m : HM ApplyOutcome} ctx event t acc d :
  ((∀ x, error_cause ctx event t (Transient x)) → hm_fails (error_cause ctx event t) panic_cause m) →
  wp m acc d (λ r _ _, apply_ends ctx event t r).
Proof. intros Hm. eapply wp_mono; [by apply Hm|]. by intros [|[]|] ? ?. Qed.

Lemma instance_apply_ends self ctx event acc d :
  wp (instance_apply self ctx event) acc d (λ r _ _, apply_ends ctx event (business d) r).
Proof.
  unfold instance_apply. destruct (uuid_from_str _) as [id|x] eqn:Eid.
  2:{ apply wp_throw. left. eauto. }
  apply wp_bind, wp_query; [|done]. cbn [after].
  destruct (select_one _ _) as [instance|] eqn:Ei; [|by apply wp_ret].
  apply find_some_elem in Ei as [Hin _].
  destruct (instance_status_of _) as [status|] eqn:Es.
  2:{ apply wp_throw. right. left. exists instance. split; [done|]. intros [s E]. congruence. }
  apply fails_ends. intros Htr.
  unfold apply_event, apply_pegin_request, apply_round_message, set_projection, job.
  hfails; first [by apply fails_snapshot | by apply fails_commit | by apply fails_job_result
    | apply hfails_throw; right; right; eauto].
Qed.

Lemma graph_apply_ends self ctx event acc d :
  wp (graph_apply self ctx event) acc d (λ r _ _, apply_ends ctx event (business d) r).
Proof.
  unfold graph_apply. destruct (uuid_from_str _) as [id|x] eqn:Eid.
  2:{ apply wp_throw. left. eauto. }
  apply fails_ends. intros Htr. unfold finish. hfails.
  apply fails_graph_event; [done|]. intros x E Ek. right. right. eauto.
Qed.
End Errors.

(** ** When the engine poisons an event *)

(** What a dropped transaction reports is what the handler did on the rows it saw. *)
Definition decision_of {B} (h : Handler B) (event : EngineInboxEvent) (d : Db B) (dec : Decision) :
    Prop :=
  match dec with
  | CommittedAs out _ => out = PApplied ∨ out = PWaiting
  | DroppedFor exit =>
      ∃ ctx e, ac_aggregate ctx = from_event event ∧ exit = (h ctx event d e).1.1.1
  end.

Lemma apply_decision {B} `{AckSetJson} config (h : Handler B) event now d0 :
  hoare (λ d, d = d0) (transaction (apply_transaction config h event now)) (λ o _,
    match o with Ok dec => decision_of h event d0 dec | Err _ => True end).
Proof.
  apply hoare_transaction; [done|]. intros d ->. unfold apply_transaction.
  eapply (hoare_bind _ _ _ (λ _ t, t = mkTx d0 d0)).
  { unfold in_tx. apply hoare_focus. intros t ->. unfold find_engine_aggregate.
    apply hoare_query. by intros ? ->. }
  intros current.
  eapply (hoare_bind _ _ _ (λ x _, decision_of h event d0 (DroppedFor x.1))).
  { intros t e ->. unfold run_handler. cbn.
    destruct (h _ event d0 e) as [[[exit eff] d'] e'] eqn:Eh. cbn. eexists _, e. by rewrite Eh. }
  intros [exit effects].
  assert (Hc : ∀ (P : Tx (Db B) → Prop) waiting out, out = PApplied ∨ out = PWaiting → hoare P
    (post ← commit_apply config event (from_event event) current effects waiting now;
     mret (CommittedAs out post)) (λ o _,
       match o with Ok dec => decision_of h event d0 dec | Err _ => True end)).
  { intros P waiting out Ho. eapply (hoare_bind _ _ _ (λ _ _, True)).
    - intros t e _. by destruct (commit_apply _ _ _ _ _ _ _ t e) as [[[]] ].
    - intros post. by apply hoare_ret. }
  destruct exit as [[[|w|reason]|err]| |msg]; try (apply Hc; auto); by apply hoare_ret.
Qed.

Section Poison.
Context `{UuidText} `{OverflowChecks} `{Sha256} `{ProtoBase} `{JobResultJson} `{AckSetJson}.
Context `{InboundCodec} `{OperatorStartCodec} `{InstanceCodec} `{PeginTxids} `{GraphCodec}.
Context (instance : InstanceAggregate) (graph : GraphAggregate).
Context (cut : ApplyContext → EngineInboxEvent → Env → bool).

(** What poisons an event of the node. *)
Definition poison_cause (event : EngineInboxEvent) : Prop :=
  (∃ x, uuid_from_str (ib_aggregate_id event) = Err x) ∨
  (ib_kind event = JOB_RESULT_KIND ∧
     ∃ x, job_result_decode (default ""%string (ib_payload event)) = Err x) ∨
  ∃ p, panic_cause p.

Lemma handler_exit kind h ctx event d e :
  build_handlers instance graph cut kind = Some h → ac_aggregate ctx = from_event event →
  tables_typed (business d) →
  match (h ctx event d e).1.1.1 with
  | Returned (inr (Invariant _)) | Panicked _ => poison_cause event
  | _ => True
  end.
Proof.
  intros Hb Hctx Ht.
  assert (Hof : ∀ apply, (∀ acc d, wp (apply ctx event) acc d
      (λ r _ _, apply_ends ctx event (business d) r)) →
    match (handler_of cut apply ctx event d e).1.1.1 with
    | Returned (inr (Invariant _)) | Panicked _ => poison_cause event
    | _ => True
    end).
  { intros apply Ha. unfold handler_of. specialize (Ha (mkAcc no_effects []) d e).
    destruct (apply ctx event _ d e) as [[[r acc] d'] e']. cbn.
    destruct (cut ctx event e); [done|].
    destruct r as [|[|]|p]; cbn in *; [done|done| |right; right; by exists p].
    destruct Ha as [Hx|[(r & Hr & Hn)|Hx]]; [left|destruct Hn; by eapply tt_instance|right; by left].
    by rewrite Hctx in Hx. }
  unfold build_handlers in Hb. repeat case_decide; simplify_eq; apply Hof; intros.
  - apply instance_apply_ends.
  - apply graph_apply_ends.
Qed.

Lemma process_poison config event w e :
  tables_typed (business (w_db w)) →
  (process_event config (build_handlers instance graph cut) event w e).1.1 = Ok PPoisoned →
  poison_cause event.
Proof.
  intros Ht.
  enough (Hh : hoare (λ w', w' = w) (process_event config (build_handlers instance graph cut) event)
    (λ o _, o = Ok PPoisoned → poison_cause event)) by apply (Hh w e eq_refl).
  assert (Hb : ∀ A (m : ST (World NodeTables) A) k (P : World NodeTables → Prop),
    (∀ a, hoare (λ _, True) (k a) (λ o _, o = Ok PPoisoned → poison_cause event)) →
    hoare P (m ≫= k) (λ o _, o = Ok PPoisoned → poison_cause event)).
  { intros A m k P Hk. eapply (hoare_bind _ _ _ (λ _ _, True)); [|done].
    intros w' e' _. by destruct (m w' e') as [[[]] ]. }
  unfold process_event. destruct (build_handlers _ _ _ _) as [h|] eqn:Eh.
  2:{ repeat (apply Hb; intros ?). by apply hoare_ret. }
  eapply (hoare_bind _ _ _ (λ _ w', w' = w)); [by apply hoare_clock|]. intros now.
  eapply (hoare_bind _ _ _ (λ dec _, decision_of h event (w_db w) dec)).
  { unfold on_db. apply hoare_focus. intros w' ->.
    eapply hoare_conseq; [| |apply (apply_decision config h event now (w_db w))]; [done|].
    by intros []. }
  intros [out post|exit].
  { eapply (hoare_bind _ _ _ (λ _ _, out = PApplied ∨ out = PWaiting)).
    - intros w' e' Ho. cbn in Ho. by destruct (dispatch post w' e') as [[[]] ].
    - intros []. apply hoare_ret. intros w' [->| ->]; done. }
  assert (Hx : ∀ A (m : ST (World NodeTables) A),
    match exit with Returned (inr (Invariant _)) | Panicked _ => True | _ => False end →
    hoare (λ _, decision_of h event (w_db w) (DroppedFor exit)) (m;; mret PPoisoned)
      (λ o _, o = Ok PPoisoned → poison_cause event)).
  { intros A m Hex w' e' (ctx & e2 & Hc & Ee) _.
    pose proof (handler_exit _ _ _ _ _ e2 Eh Hc Ht) as Hr. rewrite <- Ee in Hr.
    by destruct exit as [[[]|[]]| |]. }
  destruct exit as [[[|wf|reason]|[err|err]]| |msg];
    first [by apply Hx | repeat (apply Hb; intros ?); first [by apply hoare_ret | by apply hoare_fail]].
Qed.
End Poison.
