(* ===== verification/EffectProps.v ===== *)
(** * The jobs an apply may enqueue

    The jobs with consequences that cannot be taken back: an instance key is
    deleted, a graph is kicked off, a definition takes its slot.  Then what a graph's apply
    may do. *)

From stdpp Require Import base list strings gmap pretty.
From S2P Require Import Prelude Table Storage EngineSchema EngineNext JobStore EngineEffects NodeSchema.
From S2P Require Import LocalDb NodeNext NodeApply InstanceDecide InstanceAggregate GraphPegout.
From S2P Require Import GraphAggregate ApplyFrames InstanceProps.

Local Open Scope Z_scope.

(** ** Instance keys *)

Section Keys.
Context `{UuidText} `{OverflowChecks} `{Sha256} `{ProtoBase} `{JobResultJson}.
Context `{InboundCodec} `{OperatorStartCodec} `{InstanceCodec} `{PeginTxids}.
Context (self : InstanceAggregate) (ctx : ApplyContext).

(** When the key of an instance may go: a committee member's, not deleted yet, and
    the instance fails in a way that deletes it or its confirmed Peg-In-Confirm is
    deep enough. *)
Definition may_delete (t : NodeTables) (instance : Instance_) (status : InstanceBridgeInStatus)
    (event : EngineInboxEvent) : Prop :=
  ia_actor self = Committee ∧ ia_key_delete_enabled self = true ∧ it_key_deleted instance = false ∧
  ((∃ next, decided self t instance status event next ∧ deletes_key_on_entry next = true) ∨
   ∃ snapshot confirm h,
     snapshot_from_slice (default ""%string (ib_payload event)) = Ok snapshot ∧
     sn_confirm snapshot = Some confirm ∧ tf_confirmed confirm = true ∧
     tf_block_height confirm = Some h ∧ h + key_delete_blocks (ia_deadlines self) ≤ sn_height snapshot).

Section Deleting.
Context (t : NodeTables) (instance : Instance_) (status : InstanceBridgeInStatus).
Context (event : EngineInboxEvent).

Definition key_job (j : JobSpec) : Prop :=
  js_action j = JOB_DELETE_INSTANCE_KEY → may_delete t instance status event.

Lemma key_delete_jobs reason :
  (∃ next, decided self t instance status event next ∧ deletes_key_on_entry next = true) ∨
  (∃ snapshot confirm h,
     snapshot_from_slice (default ""%string (ib_payload event)) = Ok snapshot ∧
     sn_confirm snapshot = Some confirm ∧ tf_confirmed confirm = true ∧
     tf_block_height confirm = Some h ∧
     h + key_delete_blocks (ia_deadlines self) ≤ sn_height snapshot) →
  hm_acc (jobs_added key_job) (request_key_delete self ctx instance reason).
Proof.
  intros Hwhy. unfold request_key_delete.
  destruct (bool_decide_reflect (ia_actor self = Committee)) as [Ha|]; cbn [negb orb]; [|hacc].
  destruct (it_key_deleted instance) eqn:Ek; [hacc|].
  destruct (ia_key_delete_enabled self) eqn:Ee; cbn [negb]; hacc. intros _. by split_and!.
Qed.

Lemma on_entered_jobs next :
  decided self t instance status event next →
  hm_acc (jobs_added key_job) (on_entered self ctx instance next).
Proof.
  intros Hd. unfold on_entered, job, close_confirm_round, enter_failure, fail_graph,
    release_setup_session, next_slot, u64_add1.
  assert (Hk : ∀ reason, deletes_key_on_entry next = true →
    hm_acc (jobs_added key_job) (request_key_delete self ctx instance reason)).
  { intros reason Hn. apply key_delete_jobs. left. by exists next. }
  destruct next eqn:En; hacc; try (by intros [=]); try by apply Hk.
Qed.

Lemma delete_key_depth transition :
  decision self t instance status (ib_kind event) (default ""%string (ib_payload event)) =
    Some transition →
  tr_delete_key transition = true →
  ∃ snapshot confirm h,
     snapshot_from_slice (default ""%string (ib_payload event)) = Ok snapshot ∧
     sn_confirm snapshot = Some confirm ∧ tf_confirmed confirm = true ∧
     tf_block_height confirm = Some h ∧
     h + key_delete_blocks (ia_deadlines self) ≤ sn_height snapshot.
Proof.
  unfold decision. intros Hd Hk. repeat case_decide; try done.
  - destruct (snapshot_from_slice _) as [snapshot|]; simplify_eq.
    unfold decide_btc_snapshot in Hk.
    destruct (is_failed status); [by repeat case_match|].
    destruct (decide_prepare _ _ _) as [tr|[[current height] recorded]] eqn:Ep.
    { unfold decide_prepare in Ep. by repeat case_match; simplify_eq. }
    cbn -[decide_confirm] in Hk. unfold decide_key in Hk.
    destruct (decide_confirm _ _ _ _); try done; brefl;
      destruct (sn_confirm snapshot) as [confirm|] eqn:Ec; try done; brefl;
      destruct (tf_block_height confirm) as [h|] eqn:Eh; try done; brefl;
      exists snapshot, confirm, h; split_and!; auto; lia.
  - destruct (window_from_slice _) as [window|]; simplify_eq.
    unfold decide_answer_window in Hk. by repeat case_match.
  - simplify_eq. unfold decide_graph_endorsed in Hk. by repeat case_match.
  - destruct (minted_from_slice _) as [tx|]; simplify_eq. unfold decide_l2_minted in Hk.
    by repeat case_match.
Qed.

Lemma commit_jobs transition :
  decision self t instance status (ib_kind event) (default ""%string (ib_payload event)) =
    Some transition →
  hm_acc (jobs_added key_job) (commit_transition self ctx instance status transition).
Proof.
  intros Hd. unfold commit_transition, set_projection, alert, job.
  assert (Hk : ∀ reason, tr_delete_key transition = true →
    hm_acc (jobs_added key_job) (request_key_delete self ctx instance reason)).
  { intros reason Hdel. apply key_delete_jobs. right. by eapply delete_key_depth. }
  destruct (tr_delete_key transition); destruct (filter_some _ _) as [next|] eqn:E;
    try (apply filter_some_Some in E as [E _];
         assert (decided self t instance status event next) by (by exists transition));
    hacc; try (by apply on_entered_jobs); try (by apply Hk); by intros [=].
Qed.

Lemma event_jobs_snapshot snapshot :
  ib_kind event = EVENT_BTC_SNAPSHOT →
  snapshot_from_slice (default ""%string (ib_payload event)) = Ok snapshot →
  hm_acc (jobs_added key_job) (apply_snapshot self ctx instance status snapshot).
Proof.
  intros Ek Es. unfold apply_snapshot, all_partial_sigs_stored, job. hacc; try (by intros [=]).
  - intros acc d e. unfold round_process_data. by destruct (tables _ d e) as [[[[row|]|x] d'] e'].
  - apply commit_jobs. unfold decision. by rewrite decide_True, Es.
Qed.
End Deleting.

Lemma route_action_key kind actor : route_action kind actor ≠ Some JOB_DELETE_INSTANCE_KEY.
Proof. unfold route_action. by repeat case_match. Qed.

Lemma apply_event_jobs instance status event acc d :
  ib_kind event ≠ JOB_RESULT_KIND →
  wp (apply_event self ctx (it_instance_id instance) instance status (ib_kind event)
        (default ""%string (ib_payload event))) acc d
    (λ _ acc' _, jobs_added (key_job (business d) instance status event)
       (acc_effects acc) (acc_effects acc')).
Proof.
  intros Hne. set (Pre := jobs_added_preorder (key_job (business d) instance status event)).
  assert (Hg : ∀ A (m : HM A),
    hm_acc (jobs_added (key_job (business d) instance status event)) m →
    wp m acc d (λ _ acc' _, jobs_added (key_job (business d) instance status event)
       (acc_effects acc) (acc_effects acc'))) by (intros A m Hm; apply Hm).
  pose proof (commit_jobs (business d) instance status event) as Hc. unfold decision in Hc.
  unfold apply_event. repeat case_decide; try done.
  - destruct (snapshot_from_slice _) eqn:E; apply Hg; hacc; by apply event_jobs_snapshot.
  - destruct (window_from_slice _) eqn:E; apply Hg; hacc; by apply Hc.
  - destruct status eqn:Es; try (apply Hg; hacc; fail);
      (apply wp_bind, wp_context, wp_query; [|cbn; reflexivity]; cbn [after];
       apply Hg; hacc; apply Hc; by rewrite endorsed_count).
  - destruct (minted_from_slice _) eqn:E; apply Hg; hacc; by apply Hc.
  - apply Hg. unfold apply_pegin_request, set_projection, job. hacc; by intros [=].
  - apply Hg. unfold apply_round_message, set_projection.
    destruct (route_action (ib_kind event) (ia_actor self)) as [action|] eqn:Er; hacc.
    intros Ea. cbn in Ea. subst action. by apply route_action_key in Er.
Qed.
End Keys.

(** ** Kickoffs and builds *)

Section Graphs.
Context `{UuidText} `{OverflowChecks} `{Sha256} `{ProtoBase} `{JobResultJson}.
Context `{InboundCodec} `{OperatorStartCodec} `{InstanceCodec} `{GraphCodec}.
Context (self : GraphAggregate) (ctx : ApplyContext).

(** The slot before the graph's is settled: there is none, or its graph is closed. *)
Definition slot_settled (t : NodeTables) (row : Graph) : Prop :=
  0 ≤ gr_kickoff_index row < 2 ^ 63 →
  gr_kickoff_index row = 0 ∨
  ∃ g s, g ∈ t_graph t ∧ gr_operator_pubkey g = gr_operator_pubkey row ∧
    gr_kickoff_index g = gr_kickoff_index row - 1 ∧
    gr_status g = graph_status_str s ∧ is_closed s = true.

(** When a graph may be kicked off: the operator's own graph, not started, its
    withdraw live and the slots before it settled. *)
Definition may_kickoff (t : NodeTables) (graph_id : Uuid) : Prop :=
  ∃ row s, row ∈ t_graph t ∧ gr_graph_id row = graph_id ∧ owns self row = true ∧
    gr_status row = graph_status_str s ∧ is_closed s = false ∧ is_pegout_started s = false ∧
    slot_settled t row.

(** Whether a session of the operator is building. *)
Definition builds (d : NodeDb) (session : PendingGraphInit) : Prop :=
  ¬ (∃ g, g ∈ t_graph (business d) ∧ gr_graph_id g = pg_graph_id session) ∧
  (∀ r s, select_one (instance_is (pg_instance_id session)) (t_instance (business d)) = Some r →
     instance_status_of (it_status r) = Some s → is_failed s = false) ∧
  ∃ j, j ∈ engine_job d ∧ jb_aggregate_kind j = GRAPH_KIND ∧
    jb_aggregate_id j = uuid_to_string (pg_graph_id session) ∧ is_building j = true.

(** When a graph may be built: its session is pending and no other session of the
    operator is building. *)
Definition may_build (d : NodeDb) (graph_id : Uuid) : Prop :=
  ∃ session, session ∈ t_pending_graph_init (business d) ∧ pg_graph_id session = graph_id ∧
    ¬ (∃ g, g ∈ t_graph (business d) ∧ gr_graph_id g = graph_id) ∧
    ∀ other, other ∈ t_pending_graph_init (business d) →
      pg_operator_pubkey other = pg_operator_pubkey session → pg_graph_id other ≠ graph_id →
      ¬ builds d other.

(** A job of the apply on rows [d], if it kicks off or builds, may. *)
Definition graph_job (d : NodeDb) (graph_id : Uuid) (j : JobSpec) : Prop :=
  (js_action j = JOB_KICKOFF → may_kickoff (business d) graph_id) ∧
  (js_action j = JOB_BUILD_GRAPH → may_build d graph_id).

Definition graph_jobs (d : NodeDb) (graph_id : Uuid) (acc acc' : Acc) : Prop :=
  jobs_added (graph_job d graph_id) (acc_effects acc) (acc_effects acc').

Lemma as_u64_small z : 0 ≤ z < 2 ^ 63 → as_u64 z = z ∧ as_i64 z = z.
Proof.
  intros Hz. unfold as_u64, as_i64. split; [apply Z.mod_small; unfold u64_modulus; lia|].
  by rewrite (proj2 (Z.ltb_lt _ _)) by lia.
Qed.

Lemma wp_predecessor row acc d (Q : step (option string) → Acc → NodeDb → Prop) :
  (∀ x, Q (Throw x) acc d) → (∀ p, Q (Panic p) acc d) →
  (∀ detail, Q (Val (Some detail)) acc d) →
  (slot_settled (business d) row → Q (Val None) acc d) →
  wp (predecessor_settled (gr_operator_pubkey row) (as_u64 (gr_kickoff_index row))) acc d Q.
Proof.
  intros Ht Hp Hsome Hnone. unfold predecessor_settled.
  destruct (Z.eqb_spec (as_u64 (gr_kickoff_index row)) 0) as [E0|_].
  { apply wp_ret, Hnone. intros Hr. left. by destruct (as_u64_small _ Hr) as [<- _]. }
  assert (Hk : ∀ slot, (0 ≤ gr_kickoff_index row < 2 ^ 63 → slot = gr_kickoff_index row - 1) →
    wp (row' ← on_tables (find_graph_by_operator_slot (gr_operator_pubkey row) slot);
        mret match row' with
          | Some g => if match graph_status_of (gr_status g) with
                         | Some s => is_closed s | None => false end then None
              else Some ("previous slot " +:+ pretty (gr_kickoff_index g) +:+ " (graph " +:+
                         uuid_to_string (gr_graph_id g) +:+ ") is " +:+ gr_status g)
          | None => Some ("previous slot " +:+ pretty (as_u64 (gr_kickoff_index row) - 1) +:+
                          " is not stored")
          end) acc d Q).
  { intros slot Hslot. apply wp_bind, wp_query; [|apply Ht]. cbn [after]. apply wp_ret.
    destruct (select_one _ _) as [g|] eqn:Eg; [|apply Hsome].
    apply find_some_elem in Eg as [Hg Hin]. unfold in_slot in Hin. brefl.
    destruct (graph_status_of (gr_status g)) as [s|] eqn:Es; [|apply Hsome].
    destruct (is_closed s) eqn:Ec; [|apply Hsome]. apply Hnone. intros Hr. right.
    exists g, s. rewrite graph_status_of_Some in Es. specialize (Hslot Hr). split_and!; auto; lia. }
  unfold i64_sub1. apply wp_bind.
  destruct (Z.ltb_spec i64_min (as_i64 (as_u64 (gr_kickoff_index row)))) as [Hm|Hm].
  - apply wp_ret, Hk. intros Hr. destruct (as_u64_small _ Hr) as [-> ->]. lia.
  - destruct overflow_checks; [apply wp_panic, Hp|]. apply wp_ret, Hk. intros Hr.
    destruct (as_u64_small _ Hr) as [E1 E2]. rewrite E1, E2 in Hm. unfold i64_min in Hm. lia.
Qed.

Lemma wp_kickoff_job action tx_hash acc d (Q : step JobSpec → Acc → NodeDb → Prop) :
  (∀ spec, js_action spec = action → Q (Val spec) acc d) → (∀ x, Q (Throw x) acc d) →
  wp (kickoff_job ctx action tx_hash) acc d Q.
Proof.
  intros Hv Ht. unfold kickoff_job. apply wp_bind, wp_lift; cbn [after]; [|intros x _; apply Ht].
  intros params _. apply wp_ret. by apply Hv.
Qed.

Definition no_job (j : JobSpec) : Prop := False.

Lemma no_job_added P x y : jobs_added no_job x y → jobs_added P x y.
Proof. intros H' j Hj. destruct (H' j Hj) as [Hx|[]]. by left. Qed.

Lemma replace_jobs state tx_hash acc d :
  wp (replace_withdraw ctx state tx_hash) acc d (λ _ acc' d',
    jobs_added no_job (acc_effects acc) (acc_effects acc') ∧ d' = d).
Proof.
  apply wp_and.
  - enough (Hg : hm_acc (jobs_added no_job) (replace_withdraw ctx state tx_hash)) by apply Hg.
    unfold replace_withdraw, kickoff_job. hacc.
  - enough (Hg : hm_guar eq (replace_withdraw ctx state tx_hash)).
    { eapply wp_mono; [apply Hg|]. by intros r a d' <-. }
    unfold replace_withdraw, kickoff_job. hguar.
Qed.

Lemma withdraw_jobs state row payload graph_id acc d :
  (∀ g, row = Some g → g ∈ t_graph (business d) ∧ gr_graph_id g = graph_id) →
  wp (apply_withdraw_init self ctx state row payload) acc d (λ _ acc' _, graph_jobs d graph_id acc acc').
Proof.
  intros Hrow. assert (Hrefl : graph_jobs d graph_id acc acc) by (unfold graph_jobs; reflexivity).
  unfold apply_withdraw_init. destruct (withdraw_from_slice payload) as [tx_hash|]; [|by apply wp_ret].
  destruct row as [row|]; [|by apply wp_ret]. destruct (Hrow row eq_refl) as [Hin Hid].
  destruct (bool_decide (ga_actor self = Operator)), (owns self row) eqn:Eo; cbn [negb orb];
    try by apply wp_ret.
  destruct (bool_decide (tx_hash ∈ _)); [by apply wp_ret|].
  destruct (graph_status_of (gr_status row)) as [s|] eqn:Es; [|by apply wp_throw].
  apply graph_status_of_Some in Es.
  destruct (is_closed s) eqn:Ec; cbn [orb]; [by apply wp_ret|].
  destruct (is_pegout_started s) eqn:Ep; [by apply wp_ret|].
  apply wp_bind. eapply wp_mono; [apply replace_jobs|].
  intros [state'|x|p] acc1 d1 [Hj ->]; cbn; [|by apply no_job_added..].
  assert (H1' : graph_jobs d graph_id acc acc1) by by apply no_job_added.
  apply wp_bind, wp_kickoff_job; [|done]. intros settle Hsettle. cbn.
  apply wp_bind, wp_predecessor; [done..| |]; cbn.
  - intros detail. apply wp_bind, wp_fx. cbn. apply wp_ret. unfold graph_jobs. etrans; [exact H1'|].
    apply jobs_added_enqueue. split; intros E; rewrite Hsettle in E; discriminate E.
  - intros Hset. apply wp_bind, wp_kickoff_job; [|done]. intros kickoff Hk. cbn.
    apply wp_bind, wp_fx. cbn. apply wp_bind, wp_fx. cbn. apply wp_ret. unfold graph_jobs.
    etrans; [exact H1'|]. etrans; [|apply jobs_added_enqueue].
    + intros j Hj'. by left.
    + split; intros E; rewrite Hk in E; [|discriminate E]. exists row, s. by split_and!.
Qed.

Lemma wp_failed id acc d (Q : step bool → Acc → NodeDb → Prop) :
  (∀ x, Q (Throw x) acc d) →
  (∀ failed : bool, (failed = true →
     ∃ r s, select_one (instance_is id) (t_instance (business d)) = Some r ∧
       instance_status_of (it_status r) = Some s ∧ is_failed s = true) →
   Q (Val failed) acc d) →
  wp (instance_failed id) acc d Q.
Proof.
  intros Ht Hv. unfold instance_failed. apply wp_bind, wp_query; [|apply Ht]. cbn [after].
  apply wp_ret, Hv. intros Hf. destruct (select_one _ _) as [r|] eqn:Er; [|done].
  destruct (instance_status_of (it_status r)) as [s|] eqn:Es; [|done]. by exists r, s.
Qed.

Lemma wp_list_jobs kind id acc d (Q : step (list EngineJob) → Acc → NodeDb → Prop) :
  (∀ x, Q (Throw x) acc d) →
  (∀ jobs, (∀ j, j ∈ engine_job d → job_of kind id j = true → j ∈ jobs) → Q (Val jobs) acc d) →
  wp (storage (list_engine_jobs_for_aggregate kind id)) acc d Q.
Proof.
  intros Ht Hv. apply wp_storage. intros e. unfold list_engine_jobs_for_aggregate, query, stmt.
  destruct (next_fault e) as [[] e']; [apply Ht|]. apply Hv. intros j Hj Hk.
  apply elem_of_order_by, elem_of_select_where. done.
Qed.

(** No sibling is reported: none is building. *)
Lemma wp_building operator graph_id sessions acc d (Q : step (option (Uuid * Z)) → Acc → NodeDb → Prop) :
  (∀ r acc', r ≠ Val None → jobs_added no_job (acc_effects acc) (acc_effects acc') →
     Q r acc' d) →
  ((∀ other, other ∈ sessions → pg_graph_id other ≠ graph_id → ¬ builds d other) →
   Q (Val None) acc d) →
  wp (building_among operator graph_id sessions) acc d Q.
Proof.
  intros Hother. induction sessions as [|session rest IH]; intros Hnone; cbn [building_among].
  { apply wp_ret, Hnone. by intros ? ?%not_elem_of_nil. }
  assert (Hthrow : ∀ x, Q (Throw x) acc d) by (intros x; apply Hother; [done|reflexivity]).
  assert (Hskip : (pg_graph_id session ≠ graph_id → ¬ builds d session) →
    wp (building_among operator graph_id rest) acc d Q).
  { intros Hs. apply IH. intros Hrest. apply Hnone. intros other [->|Hin]%elem_of_cons; auto. }
  case_decide as Eg; [by apply Hskip|].
  apply wp_bind, wp_query; [|apply Hthrow]. cbn [after].
  destruct (select_one _ _) as [g|] eqn:Ef; cbn [is_some].
  { apply Hskip. intros _ [Hn _]. apply Hn. exists g. apply find_some_elem in Ef as [? Hf].
    unfold graph_is in Hf. by brefl. }
  apply wp_bind, wp_failed; [done|]. intros [] Hf; cbn [after].
  { apply Hskip. intros _ (_ & Hl & _). destruct (Hf eq_refl) as (r & s & Er & Es & Hfail).
    rewrite (Hl r s Er Es) in Hfail. done. }
  apply wp_bind, wp_list_jobs; [done|]. intros jobs Hjobs. cbn [after].
  destruct (existsb is_building jobs) eqn:Eb.
  - unfold next_slot, u64_add1. apply wp_bind, wp_bind, wp_query; [|apply Hthrow]. cbn [after].
    repeat case_match; first [apply wp_panic | apply wp_ret]; cbn; try apply wp_ret;
      by apply Hother; [|reflexivity].
  - apply Hskip. intros _ (_ & _ & j & Hj & Hk & Hi & Hb).
    rewrite existsb_none in Eb. rewrite Eb in Hb; [done|]. apply Hjobs; [done|].
    unfold job_of. by rewrite Hk, Hi, !bool_decide_eq_true_2.
Qed.

Lemma build_jobs graph_id row acc d :
  (row = None → ¬ ∃ g, g ∈ t_graph (business d) ∧ gr_graph_id g = graph_id) →
  wp (apply_build_ready ctx graph_id row) acc d (λ _ acc' _, graph_jobs d graph_id acc acc').
Proof.
  intros Hrow. assert (Hrefl : graph_jobs d graph_id acc acc) by (unfold graph_jobs; reflexivity).
  unfold apply_build_ready. destruct row as [row|]; cbn [is_some]; [by apply wp_ret|].
  apply wp_bind, wp_query; [|done]. cbn [after].
  destruct (select_one _ _) as [session|] eqn:Es; [|by apply wp_ret].
  apply find_some_elem in Es as [Hin Hs]. unfold session_for in Hs. brefl.
  apply wp_bind, wp_failed; [done|]. intros [] _; cbn [after]; [by apply wp_ret|].
  unfold building_sibling. apply wp_bind, wp_bind, wp_query; [|done]. cbn [after].
  apply wp_building.
  - intros [[[builder slot]|]|x|p] acc' Hne Hj; cbn; [apply wp_ret|done|..]; by apply no_job_added.
  - intros Hnone. cbn. unfold enqueue_setup_job. apply wp_bind, wp_fx. cbn. apply wp_ret.
    apply jobs_added_enqueue. split; intros E; [discriminate E|]. exists session.
    split_and!; [done..|by apply Hrow|]. intros other Ho Hop Hg. apply Hnone; [|done].
    apply elem_of_order_by, elem_of_select_where. by rewrite bool_decide_eq_true_2.
Qed.

(** Jobs that neither kick off nor build. *)
Definition plain_job (j : JobSpec) : Prop :=
  js_action j ≠ JOB_KICKOFF ∧ js_action j ≠ JOB_BUILD_GRAPH.

Lemma plain_jobs d graph_id acc acc' :
  jobs_added plain_job (acc_effects acc) (acc_effects acc') → graph_jobs d graph_id acc acc'.
Proof. intros Hj j Hin. destruct (Hj j Hin) as [|[H1' H2']]; [by left|right]. by split. Qed.

Lemma wp_plain {A} (m : HM A) d graph_id acc :
  hm_acc (jobs_added plain_job) m → wp m acc d (λ _ acc' _, graph_jobs d graph_id acc acc').
Proof. intros Hm. eapply wp_mono; [apply Hm|]. intros r acc' d' Hj. by apply plain_jobs. Qed.

Lemma route_plain kind actor action :
  graph_route_action kind actor = Some action →
  action ≠ JOB_KICKOFF ∧ action ≠ JOB_BUILD_GRAPH.
Proof. unfold graph_route_action. repeat case_match; intros [= <-]; by split. Qed.

Lemma signal_plain signal actor relayer own action :
  route_signal signal actor relayer own = Some action →
  action ≠ JOB_KICKOFF ∧ action ≠ JOB_BUILD_GRAPH.
Proof. unfold route_signal. repeat case_match; intros [= <-]; by split. Qed.

Lemma message_plain graph_id state status kind payload created_at :
  hm_acc (jobs_added plain_job) (apply_message self ctx graph_id state status kind payload created_at).
Proof.
  unfold apply_message, check_message, check_slot, park_for_definition, encode_lookup, i64_sub1,
    enqueue_setup_job.
  destruct (graph_route_action kind (ga_actor self)) as [action|] eqn:Er.
  - apply route_plain in Er. hacc; first [exact Er | by split].
  - hacc.
Qed.

Lemma scan_plain graph_id state row payload :
  hm_acc (jobs_added plain_job) (apply_chain_scan self ctx graph_id state row payload).
Proof.
  assert (Hs : ∀ own signal, hm_acc (jobs_added plain_job) (apply_signal self ctx own signal)).
  { intros own signal. unfold apply_signal. destruct (route_signal _ _ _ _) as [action|] eqn:Er.
    - apply signal_plain in Er. hacc. exact Er.
    - hacc. }
  unfold apply_chain_scan, report_dead. hacc.
Qed.

Lemma graph_event_jobs graph_id state row status event acc d :
  ib_kind event ≠ JOB_RESULT_KIND →
  row = select_one (graph_is graph_id) (t_graph (business d)) →
  wp (graph_apply_event self ctx graph_id state row status event) acc d
    (λ _ acc' _, graph_jobs d graph_id acc acc').
Proof.
  intros Hne Hrow. unfold graph_apply_event. rewrite decide_False by done.
  repeat case_decide;
    try (apply wp_plain; unfold apply_operator_start, apply_graph_pulled, apply_graph_pull,
      apply_withdraw_cancel, encode_lookup, enqueue_setup_job, abandon_setup, release_setup_session,
      next_slot, u64_add1; hacc; first [by split | apply scan_plain | apply message_plain]).
  - apply wp_bind. eapply wp_mono; [apply (build_jobs graph_id)|].
    + intros ->. intros (g & Hg & Hid). symmetry in Hrow.
      apply find_none_elem with (x := g) in Hrow; [|done]. unfold graph_is in Hrow. by brefl.
    + intros [o|x|p] acc' d' Hj; cbn; [by apply wp_ret|done..].
  - apply withdraw_jobs. intros g ->. symmetry in Hrow. apply find_some_elem in Hrow as [? Hg].
    unfold graph_is in Hg. by brefl.
Qed.

Lemma graph_apply_jobs event acc d graph_id :
  uuid_from_str (ar_id (ac_aggregate ctx)) = Ok graph_id → ib_kind event ≠ JOB_RESULT_KIND →
  wp (graph_apply self ctx event) acc d (λ _ acc' _, graph_jobs d graph_id acc acc').
Proof.
  intros Eid Hne. unfold graph_apply. rewrite Eid.
  apply wp_bind, wp_query; [|cbn; unfold graph_jobs; reflexivity]. cbn [after].
  apply wp_bind. eapply wp_mono; [by apply graph_event_jobs|].
  intros [[o state]|x|p] acc' d' Hj; cbn; [|done..].
  assert (Hfin : hm_acc (jobs_added no_job) (finish self ctx graph_id state)).
  { unfold finish. hacc. }
  destruct o; try by apply wp_ret.
  all: apply wp_bind; eapply wp_mono; [apply Hfin|]; intros [[]|x|p] acc'' d'' Hj'; cbn;
    try apply wp_ret; unfold graph_jobs; (etrans; [exact Hj|]); by apply no_job_added.
Qed.
End Graphs.

(** * What a graph's apply may do

    The projection of a graph mirrors the stored status, and entering a status
    closes what that status ends. *)

Local Open Scope Z_scope.

Section Mirror.
Context `{UuidText} `{OverflowChecks} `{Sha256} `{ProtoBase} `{JobResultJson}.
Context `{InboundCodec} `{OperatorStartCodec} `{InstanceCodec} `{GraphCodec}.
Context (self : GraphAggregate) (ctx : ApplyContext).

Definition stored_status (graph_id : Uuid) (t : NodeTables) : option GraphStatus :=
  select_one (graph_is graph_id) (t_graph t) ≫= λ r, graph_status_of (gr_status r).

Definition status_text (status : option GraphStatus) : string :=
  match status with Some s => graph_status_str s | None => ""%string end.

(** What entering [status] ends: deliveries, the post, setup jobs, kickoff jobs. *)
Record entered (graph_id : Uuid) (status : option GraphStatus) (x : Effects) : Prop := {
  en_rounds : signing_round_over status = true → ∀ phase,
    phase ∈ [PHASE_COLLECT; PHASE_SIGNING; PHASE_ENDORSE; PHASE_SETUP] →
    ClosePhase GRAPH_KIND (uuid_to_string graph_id) phase ∈ map fst (ef_outbox_closes x);
  en_deliveries : past_signing status = true →
    CloseAggregate GRAPH_KIND (uuid_to_string graph_id) ∈ map fst (ef_outbox_closes x) ∧
    CancelPhase GRAPH_PHASE_POST ∈ ef_job_cancels x;
  en_setup : retired status = true → CancelPhase JOB_PHASE ∈ ef_job_cancels x;
  en_kickoff : (∃ s, status = Some s ∧ is_closed s = true) → CancelPhase PHASE_KICKOFF ∈ ef_job_cancels x;
}.

Record graph_mirrors (graph_id : Uuid) (acc : Acc) (d : NodeDb) : Prop := {
  gm_status : ef_status (acc_effects acc) = Some (status_text (stored_status graph_id (business d)));
  gm_phase : ∃ withdrawing, ef_phase (acc_effects acc) =
    Some (graph_phase_of (stored_status graph_id (business d)) (ga_actor self) (ga_relayer self)
            withdrawing);
  gm_entered : status_text (stored_status graph_id (business d)) ≠ ctx_status ctx →
    entered graph_id (stored_status graph_id (business d)) (acc_effects acc);
}.

Ltac effects :=
  repeat match goal with
  | |- wp (_ ≫= _) _ _ _ => apply wp_bind
  | |- wp (fx _) _ _ _ => apply wp_fx; cbn [after]
  | |- wp (mret _) _ _ _ => apply wp_ret; cbn [after]
  end.

Ltac in_effects :=
  unfold snoc; rewrite ?map_app; cbn;
  repeat match goal with
  | Hp : _ ∈ _ :: _ |- _ => apply elem_of_cons in Hp as [->|Hp]
  | Hp : _ ∈ [] |- _ => by apply not_elem_of_nil in Hp
  end;
  rewrite ?elem_of_app, ?list_elem_of_singleton; auto 10.

Lemma finish_mirrors graph_id state acc d :
  wp (finish self ctx graph_id state) acc d (λ r acc' d', r = Val tt → graph_mirrors graph_id acc' d').
Proof.
  unfold finish. apply wp_bind, wp_query; [|done]. cbn [after].
  fold (stored_status graph_id (business d)).
  fold (status_text (stored_status graph_id (business d))).
  set (status := stored_status graph_id (business d)).
  apply wp_bind.
  eapply (wp_mono _ _ _ (λ r acc' d', d' = d ∧
    (status_text status ≠ ctx_status ctx → entered graph_id status (acc_effects acc')))).
  2:{ intros [[]|x|p] acc' d' [-> Hen]; cbn [after]; [|done..].
      apply wp_bind, wp_fx. cbn [after]. apply wp_bind, wp_fx. cbn [after].
      apply wp_bind. apply wp_lift; [|done]. intros text _. cbn [after]. apply wp_fx. intros _.
      split; cbn; [done|by eexists|]. intros Hne. destruct (Hen Hne). by split. }
  destruct (bool_decide_reflect (status_text status = ctx_status ctx)) as [E|Hne].
  { apply wp_ret. by split. }
  apply wp_bind. eapply (wp_mono _ _ _ (λ r acc' d', r = Val tt ∧ d' = d)).
  { destruct (select_one _ _); [by apply wp_fx|by apply wp_ret]. }
  intros r acc1 d1 [-> ->]. cbn [after]. clearbody status.
  destruct status as [[]|]; cbn [signing_round_over past_signing retired is_obsoleted is_closed orb
    hm_iter]; effects; (split; [done|]); intros _;
    split; try (by intros [=]); try (by intros (s & [= <-] & [=])); intros _; try intros phase Hp;
    try split; cbn; in_effects.
Qed.

Lemma graph_apply_projection event acc d graph_id :
  uuid_from_str (ar_id (ac_aggregate ctx)) = Ok graph_id →
  wp (graph_apply self ctx event) acc d (λ r acc' d',
    match r with Val (Applied | Waiting _) => graph_mirrors graph_id acc' d' | _ => True end).
Proof.
  intros Eid. unfold graph_apply. rewrite Eid. apply wp_bind, wp_query; [|done]. cbn [after].
  apply wp_bind. eapply (wp_mono _ _ _ (λ _ _ _, True)); [by intros e; repeat case_match|].
  intros [[o state]|x|p] acc' d' _; cbn [after]; [|done..].
  destruct o; [| |by apply wp_ret].
  all: apply wp_bind; eapply wp_mono; [apply finish_mirrors|];
    intros [[]|x|p] acc'' d'' Hm; cbn [after]; [apply wp_ret; by apply Hm|done..].
Qed.
End Mirror.
