(* ===== verification/NodeSample.v ===== *)
(** * A concrete node with its rows

    Instances of what the aggregates take as parameters, and a node with a peg-in
    instance and two graphs of one operator, so that the theorems are evaluated on
    concrete inputs.  The codecs are not the node's: a payload stands for the value
    it names. *)

From stdpp Require Import base list strings gmap pretty countable.
From S2P Require Import Prelude Table Storage EngineSchema EngineNext InboxStore JobStore EngineConfig.
From S2P Require Import EngineEffects Worker Executor Runtime Engine EngineBusiness Sample NodeSchema.
From S2P Require Import LocalDb NodeNext NodeApply InstanceDecide InstanceAggregate GraphPegout.
From S2P Require Import GraphAggregate NodeHandlers.

Local Open Scope Z_scope.
Local Open Scope string_scope.

(** ** Codecs *)

#[export] Instance sample_uuid : UuidText := {
  uuid_to_string u := bits (encode u);
  uuid_from_str s :=
    match parse_bits s ≫= decode with Some u => Ok u | None => Err ["invalid UUID"] end;
}.

#[export] Instance sample_uuid_laws : UuidLaws.
Proof. intros u. cbn. by rewrite <- (app_string_nil (bits _)), parse_bits_bits; cbn; rewrite decode_encode. Qed.

#[export] Instance sample_release : OverflowChecks := false.
#[export] Instance sample_hash : EngineEffects.Sha256 := λ b, b.
#[export] Instance sample_base : ProtoBase := "goat".

#[export] Instance sample_inbound : InboundCodec := {
  inbound_encode m := Ok (bits (encode (im_author m, im_instance_id m, im_graph_nonce m,
    im_operator_pubkey m, im_message m)));
  inbound_decode b :=
    match parse_bits b ≫= decode with
    | Some (author, id, nonce, operator, message) => Ok (mkInbound author id nonce operator message)
    | None => Err ["malformed"]
    end;
}.

#[export] Instance sample_start : OperatorStartCodec := {
  operator_start_serialize s := Ok (bits (encode (os_instance_id s, os_operator_pubkey s)));
  operator_start_deserialize b :=
    match parse_bits b ≫= decode with
    | Some (id, operator) => Ok (mkOperatorStart id operator)
    | None => Err ["malformed"]
    end;
}.

(** Peg-In-Confirm is not visible at height 200, or confirmed at 150. *)
Definition silent_snapshot : BtcSnapshot :=
  mkSnapshot 200 "Presigned" None (Some TxFact_UNKNOWN) (Some TxFact_UNKNOWN) None.
Definition cancelled_snapshot : BtcSnapshot :=
  mkSnapshot 200 "Presigned" None (Some TxFact_UNKNOWN) (Some (confirmed_at 190)) None.

#[export] Instance sample_instance_codec : InstanceCodec := {
  snapshot_from_slice b :=
    if bool_decide (b = "silent") then Ok silent_snapshot
    else if bool_decide (b = "cancelled") then Ok cancelled_snapshot else Err ["expected value"];
  window_from_slice _ := Err ["expected value"];
  minted_from_slice b := Ok b;
  request_from_slice b := Ok b;
  key_delete_params_to_vec reason := Ok reason;
  key_delete_result_from_slice b := Ok (bool_decide (b = "deleted"), b);
  instance_plan_decode _ := Err ["malformed"];
  process_data_from_str _ := Err ["expected value"];
  graph_endorsed_to_vec id := Ok (uuid_to_string id);
}.

#[export] Instance sample_txids : PeginTxids := λ _, Err ["no committee answers"].

Definition empty_scan : ChainScan := mkScan 200 "" OperatorTake1 None None None [].

#[export] Instance sample_graph_codec : GraphCodec := {
  graph_state_to_string s := Ok (bits (encode (gs_instance_id s, gs_operator_pubkey s,
    gs_graph_nonce s, gs_finalized s, gs_withdraw s, gs_retired_withdraws s, gs_dead s,
    gs_abandoned s)));
  graph_state_from_str b :=
    match parse_bits b ≫= decode with
    | Some (id, operator, nonce, finalized, withdraw, retired, dead, abandoned) =>
        Ok (mkGraphState id operator nonce finalized withdraw retired dead abandoned)
    | None => Err ["expected value"]
    end;
  graph_plan_decode _ := Err ["malformed"];
  lookup_serialize l := Ok (match l with LookupId _ _ _ => "id" | LookupSlot _ _ => "slot" end);
  pull_serialize _ := Err ["malformed"];
  pull_deserialize _ := Err ["malformed"];
  pulled_serialize p := Ok (bits (encode (gpd_instance_id p, gpd_finalized p)));
  pulled_deserialize b :=
    match parse_bits b ≫= decode with
    | Some (id, finalized) => Ok (mkPulled id finalized)
    | None => Err ["malformed"]
    end;
  abandoned_serialize a := Ok (bits (encode (sa_instance_id a, sa_abandon_height a, sa_height a)));
  abandoned_deserialize b :=
    match parse_bits b ≫= decode with
    | Some (id, abandon, height) => Ok (mkAbandoned id abandon height)
    | None => Err ["malformed"]
    end;
  withdraw_from_slice b := Ok b;
  scan_from_slice b := if bool_decide (b = "taken") then Ok empty_scan else Err ["expected value"];
  signal_encode _ := Ok "signal";
  kickoff_params_to_vec tx_hash := Ok tx_hash;
}.

(** ** Rows *)

Definition sample_instance : Instance_ :=
  mkInstance 1%N "" "" "" 0 [] "" (instance_status_str Presigned) "" 0 "" "" "" None 100 None None []
    "" None None false 0 0 0.

Definition sample_graph (id : Uuid) (slot : Z) (status : GraphStatus) : Graph :=
  mkGraph id 1%N slot "" "" 0 0 (graph_status_str status) "" "op" "" None None None None None None None
    None None None None None [] [] [] [] None None 0 0 0 0 0.

(** Slot 0 was taken, slot 1 waits for its withdraw; a third graph is being set up. *)
Definition sample_tables : NodeTables :=
  mkTables [sample_instance]
    [sample_graph 10%N 0 OperatorTake1; sample_graph 11%N 1 OperatorDataPushed]
    [mkPending 1%N "op" 12%N 0 0] [] [] [].

Lemma sample_tables_ok : tables_ok sample_tables.
Proof. split; cbn; repeat constructor; set_solver. Qed.

Lemma sample_tables_typed : tables_typed sample_tables.
Proof.
  split; intros r Hr; cbn in Hr; repeat (apply elem_of_cons in Hr as [->|Hr]; [by eexists|]);
    by apply not_elem_of_nil in Hr.
Qed.

Definition sample_db : NodeDb := empty_db sample_tables.

(** ** The aggregates *)

Definition all_members : MembershipProbe := mkProbe (λ _, true) (λ _, true).

Definition sample_committee : InstanceAggregate :=
  mkInstanceAggregate Committee (mkDeadlines 10 5 6) false true "me" all_members.
Definition sample_operator : GraphAggregate :=
  mkGraphAggregate Operator false "me" all_members (Some "op").

Definition never (ctx : ApplyContext) (event : EngineInboxEvent) (e : Env) : bool := false.

Definition node_event (kind_of : string) (id : Uuid) (kind payload : string) : EngineInboxEvent :=
  new_inbox_row (into_store (new_event "e" (mkRef kind_of (uuid_to_string id)) kind Local_ payload)) 1 0.

Definition node_ctx (kind_of : string) (id : Uuid) : ApplyContext :=
  mkApplyContext 100 (mkRef kind_of (uuid_to_string id)) None.

(** The node's handlers and no jobs. *)
Definition sample_node : string → option (Handler NodeTables) :=
  build_handlers sample_committee sample_operator never.
Definition no_jobs (kind action : string) : option (JobRunner NodeTables) := None.

#[export] Instance no_jobs_laws : RunnerLaws no_jobs.
Proof. by intros k a r Hr. Qed.

Definition node_world : World NodeTables := initial default_config sample_tables.

(** The world after the engine applied one event. *)
Definition applied (event : EngineInboxEvent) : World NodeTables :=
  final (process_event default_config sample_node event node_world (quiet 100)).

Lemma applied_step event :
  engine_step_in default_config sample_node no_jobs node_next node_world (applied event).
Proof. apply step_task, step_process. Qed.
