(* ===== verification/NodeProps.v ===== *)
(** * The node's theorems

    About every run of the engine with the node's handlers: how rows may change, on
    what evidence, and which consequences an apply may have. *)

From stdpp Require Import base list strings gmap pretty relations.
From S2P Require Import Prelude Table Storage EngineSchema EngineNext JobStore EngineConfig EngineEffects.
From S2P Require Import Worker Executor Runtime Engine EngineBusiness Sample NodeSchema LocalDb NodeNext.
From S2P Require Import NodeApply InstanceDecide InstanceAggregate GraphPegout GraphAggregate.
From S2P Require Import NodeHandlers ApplyFrames InstanceProps ApplyErrors EffectProps NodeSample.

Local Open Scope Z_scope.

(** ** Runs *)

Section Runs.
Context `{UuidText} `{OverflowChecks} `{EngineEffects.Sha256} `{ProtoBase} `{JobResultJson}.
Context `{InboundCodec} `{OperatorStartCodec} `{InstanceCodec} `{PeginTxids} `{GraphCodec}.
Context `{AckSetJson} `{Transport}.
Context (config : EngineConfig) (instance : InstanceAggregate) (graph : GraphAggregate).
Context (cut : ApplyContext → EngineInboxEvent → Env → bool).
Context (registry : string → string → option (JobRunner NodeTables)) `{!RunnerLaws registry}.

(** A run of the node: producers, applies and jobs write rows through the store. *)
Definition node_run : World NodeTables → World NodeTables → Prop :=
  rtc (engine_step_in config (build_handlers instance graph cut) registry node_next).

Lemma node_run_next w w' : node_run w w' → node_next (business (w_db w)) (business (w_db w')).
Proof. apply engine_steps_rows; apply _. Qed.

(** C26: the node's tables stay well formed along every run: the primary keys and the
    operator's slots stay unique and the status of every instance and graph parses. *)
Theorem rows_stay_typed t w :
  tables_ok t → tables_typed t → node_run (initial config t) w →
  tables_ok (business (w_db w)) ∧ tables_typed (business (w_db w)).
Proof.
  intros Hok Ht Hr%node_run_next. split; [apply (Hr Hok)|by eapply node_next_typed].
Qed.

(** C21: an instance never disappears; along every run its status stays or advances
    in the order of the protocol, so no status is entered twice, nothing follows a
    mint and only a cancellation follows a failure; a deleted key stays deleted. *)
Theorem instance_statuses_advance w w' r :
  tables_ok (business (w_db w)) → node_run w w' → r ∈ t_instance (business (w_db w)) →
  ∃ r', r' ∈ t_instance (business (w_db w')) ∧ it_instance_id r' = it_instance_id r ∧
    (it_key_deleted r = true → it_key_deleted r' = true) ∧
    (it_status r' = it_status r ∨
     ∃ s s', it_status r = instance_status_str s ∧ it_status r' = instance_status_str s' ∧
       advances s s' = true ∧ s ≠ RelayerL2Minted ∧
       (is_failed s = true → s = Timeout ∧ s' = UserCanceled)).
Proof.
  intros Hok Hr%node_run_next Hin. destruct (Hr Hok) as [_ Hi _].
  destruct (evolves_find _ _ _ _ _ r Hi (to_instance _ Hok) Hin) as (r' & Hin' & Hid & [_ Hs Hk]).
  exists r'. split_and!; [done..|]. destruct Hs as [->|(s & s' & E1 & E2 & Ha)]; [by left|right].
  exists s, s'. split_and!; try done.
  - intros ->. by rewrite advances_from_minted in Ha.
  - intros Hf. by apply advances_from_failed.
Qed.

End Runs.

(** The instance of the sample node is abandoned: a snapshot past its abandon height
    that does not see the Peg-In-Confirm. *)
Definition abandoned : World NodeTables :=
  applied (node_event INSTANCE_KIND 1%N EVENT_BTC_SNAPSHOT "silent").

(** Its first graph is scanned once more after it was taken. *)
Definition rescanned : World NodeTables :=
  applied (node_event GRAPH_KIND 10%N EVENT_CHAIN_SCAN "taken").

Lemma abandoned_status : map it_status (t_instance (business (w_db abandoned))) = ["Timeout"%string].
Proof. vm_compute. reflexivity. Qed.

Lemma sample_run event :
  node_run default_config sample_committee sample_operator never no_jobs node_world (applied event).
Proof. apply rtc_once, applied_step. Qed.

Lemma rows_stay_typed_witness :
  tables_ok (business (w_db abandoned)) ∧ tables_typed (business (w_db abandoned)).
Proof.
  apply (rows_stay_typed default_config sample_committee sample_operator never no_jobs sample_tables).
  - apply sample_tables_ok.
  - apply sample_tables_typed.
  - apply sample_run.
Defined.

Lemma instance_statuses_advance_witness :
  ∃ r', r' ∈ t_instance (business (w_db abandoned)) ∧ it_instance_id r' = 1%N ∧
    (it_status r' = "Presigned"%string ∨
     ∃ s s', "Presigned"%string = instance_status_str s ∧ it_status r' = instance_status_str s' ∧
       advances s s' = true).
Proof.
  destruct (instance_statuses_advance default_config sample_committee sample_operator never no_jobs
    node_world abandoned sample_instance sample_tables_ok (sample_run _)) as (r' & Hin & Hid & _ & Hs);
    [by left|].
  exists r'. split_and!; [done..|]. destruct Hs as [|(s & s' & ? & ? & ? & _)]; [by left|right].
  by exists s, s'.
Defined.


(** ** One apply *)

Section Applies.
Context `{UuidText} `{OverflowChecks} `{EngineEffects.Sha256} `{ProtoBase} `{JobResultJson}.
Context `{InboundCodec} `{OperatorStartCodec} `{InstanceCodec} `{PeginTxids} `{GraphCodec}.

(** C7: an apply of the Instance aggregate, on any event and however it ends, changes
    the status of no instance but its own, and that one only forward and on evidence:
    abandonment needs a scan at or past the abandon height that sees the
    Peg-In-Confirm neither confirmed nor in the mempool, a cancellation a confirmed
    Peg-In-Cancel, pre-signing a stored endorsed graph, the answers a closed window. *)
Theorem status_change_has_evidence self ctx event acc d e r acc' d' e' :
  tables_ok (business d) → instance_apply self ctx event acc d e = (r, acc', d', e') →
  ∀ row', row' ∈ t_instance (business d') →
  ∃ row, row ∈ t_instance (business d) ∧ it_instance_id row' = it_instance_id row ∧
    (it_status row' = it_status row ∨
     ∃ status next, it_status row = instance_status_str status ∧
       it_status row' = instance_status_str next ∧
       uuid_from_str (ar_id (ac_aggregate ctx)) = Ok (it_instance_id row) ∧
       advances status next = true ∧ evidence self (business d) row status next event).
Proof.
  intros Hok Hrun row' Hin. pose proof (instance_apply_moves self ctx event acc d Hok e) as Hm.
  rewrite Hrun in Hm. by apply Hm.
Qed.

(** Whenever an apply of the Instance aggregate succeeds, the projection it commits
    (the engine's status and phase of the aggregate) is that of the row it leaves. *)
Theorem instance_projection_mirrors self ctx event acc d e acc' d' e' id :
  tables_ok (business d) → uuid_from_str (ar_id (ac_aggregate ctx)) = Ok id →
  instance_apply self ctx event acc d e = (Val Applied, acc', d', e') →
  ∃ row s, row ∈ t_instance (business d') ∧ it_instance_id row = id ∧
    it_status row = instance_status_str s ∧
    ef_status (acc_effects acc') = Some (instance_status_str s) ∧
    ef_phase (acc_effects acc') = Some (phase_of s).
Proof.
  intros Hok Hid Hrun. pose proof (instance_apply_projection self ctx event acc d id Hok Hid e) as Hm.
  rewrite Hrun in Hm. destruct Hm as (s & (row & Hf & Es) & Hst & Hph).
  apply find_some_elem in Hf as [Hin Hi]. unfold instance_is in Hi. brefl. by exists row, s.
Qed.

(** Whenever an apply of the Graph aggregate succeeds or waits, the projection it
    commits mirrors the stored status, and an apply that saw the status change ends
    what that status ends: round deliveries once signing is over, every delivery and
    the post once past it, setup jobs once retired, kickoff jobs once closed. *)
Theorem graph_projection_mirrors self ctx event acc d e o acc' d' e' graph_id :
  uuid_from_str (ar_id (ac_aggregate ctx)) = Ok graph_id →
  graph_apply self ctx event acc d e = (Val o, acc', d', e') → (∀ reason, o ≠ Rejected reason) →
  graph_mirrors self ctx graph_id acc' d'.
Proof.
  intros Hid Hrun Ho. pose proof (graph_apply_projection self ctx event acc d graph_id Hid e) as Hm.
  rewrite Hrun in Hm. destruct o as [|w|reason]; [done..|]. by destruct (Ho reason).
Qed.

(** C25: an event of the chain, of a producer or of the network makes an apply ask for
    the deletion of an instance key only at a committee member that has it and may
    delete it, and only when the instance enters a failure other than abandonment or
    its Peg-In-Confirm is confirmed as deep as the deletion depth. *)
Theorem key_deletion_justified self ctx event acc d e r acc' d' e' instance status j :
  ib_kind event ≠ JOB_RESULT_KIND →
  apply_event self ctx (it_instance_id instance) instance status (ib_kind event)
    (default ""%string (ib_payload event)) acc d e = (r, acc', d', e') →
  j ∈ ef_jobs (acc_effects acc') → j ∉ ef_jobs (acc_effects acc) →
  js_action j = JOB_DELETE_INSTANCE_KEY →
  may_delete self (business d) instance status event.
Proof.
  intros Hk Hrun Hj Hn Ha. pose proof (apply_event_jobs self ctx instance status event acc d Hk e) as Hm.
  rewrite Hrun in Hm. destruct (Hm j Hj) as [|Hmay]; [done|]. by apply Hmay.
Qed.


(** An apply queues the build of a graph's definition only while its setup session
    is pending, its definition is not stored and no other session of the same operator
    has a build in flight, so two builds never race for one slot. *)
Theorem builds_serialized self ctx event acc d e r acc' d' e' graph_id j :
  uuid_from_str (ar_id (ac_aggregate ctx)) = Ok graph_id → ib_kind event ≠ JOB_RESULT_KIND →
  graph_apply self ctx event acc d e = (r, acc', d', e') →
  j ∈ ef_jobs (acc_effects acc') → j ∉ ef_jobs (acc_effects acc) → js_action j = JOB_BUILD_GRAPH →
  may_build d graph_id.
Proof.
  intros Hid Hk Hrun Hj Hn Ha. pose proof (graph_apply_jobs self ctx event acc d graph_id Hid Hk e) as Hm.
  rewrite Hrun in Hm. destruct (Hm j Hj) as [|[_ Hmay]]; [done|]. by apply Hmay.
Qed.

(** C27: in a build without overflow checks whose key-deletion parameters serialize, the
    engine poisons an event of the node only if its aggregate id is no UUID or it is a
    job result that does not decode; every other failure is retried or rejected. *)
Theorem poison_only_malformed `{AckSetJson} config instance graph cut event w e :
  overflow_checks = false → (∀ reason, ∃ params, key_delete_params_to_vec reason = Ok params) →
  tables_typed (business (w_db w)) →
  (process_event config (build_handlers instance graph cut) event w e).1.1 = Ok PPoisoned →
  (∃ x, uuid_from_str (ib_aggregate_id event) = Err x) ∨
  ib_kind event = JOB_RESULT_KIND ∧
    ∃ x, job_result_decode (default ""%string (ib_payload event)) = Err x.
Proof.
  intros Hov Hser Ht Hp. destruct (process_poison _ _ _ _ _ _ _ Ht Hp) as [|[|(p & Hc)]]; [auto..|].
  destruct Hc as [[Ho _]|[_ (reason & x & Ex)]]; [congruence|].
  destruct (Hser reason) as [params Ep]. congruence.
Qed.
End Applies.

(** ** Decisions *)


(** A slot is skipped only when nothing of its graph is on chain (its kickoff
    connector is unspent and its Pre-Kickoff can still confirm) and the peg-in it
    serves cannot pay it any more: taken by another graph, cancelled, failed without a
    visible Peg-In-Confirm, or unfinished past the abandon height. *)
Theorem slot_skip_justified facts operator premise :
  decide_slot facts operator = Skip premise →
  ∃ local, sf_local facts = Some local ∧ skip_evidence facts local.
Proof. apply decide_slot_skip. Qed.

(** ** The theorems on the sample node *)

Lemma run4 {A B C D} (r : A * B * C * D) : r = (r.1.1.1, r.1.1.2, r.1.2, r.2).
Proof. by destruct r as [[[a b] c] d]. Qed.

Lemma run4_as {A B C D} (r : A * B * C * D) a : r.1.1.1 = a → r = (a, r.1.1.2, r.1.2, r.2).
Proof. intros <-. apply run4. Qed.

Definition idle : Acc := mkAcc no_effects [].

Abbreviation run_instance kind payload :=
  (instance_apply sample_committee (node_ctx INSTANCE_KIND 1%N)
     (node_event INSTANCE_KIND 1%N kind payload) idle sample_db (quiet 100)) (only parsing).
Abbreviation run_graph id kind payload :=
  (graph_apply sample_operator (node_ctx GRAPH_KIND id) (node_event GRAPH_KIND id kind payload)
     idle sample_db (quiet 100)) (only parsing).

Lemma status_change_has_evidence_witness :
  ∃ row' row, row' ∈ t_instance (business (run_instance EVENT_BTC_SNAPSHOT "silent").1.2) ∧
    it_status row' = "Timeout"%string ∧ row ∈ t_instance sample_tables ∧
    ∃ status, evidence sample_committee sample_tables row status Timeout
      (node_event INSTANCE_KIND 1%N EVENT_BTC_SNAPSHOT "silent").
Proof.
  set (row' := sample_instance <| it_status := "Timeout"%string |> <| it_status_updated_at := 100 |>
                 <| it_updated_at := 100 |>).
  assert (Hin : t_instance (business (run_instance EVENT_BTC_SNAPSHOT "silent").1.2) = [row'])
    by (vm_compute; reflexivity).
  destruct (status_change_has_evidence sample_committee (node_ctx INSTANCE_KIND 1%N)
    (node_event INSTANCE_KIND 1%N EVENT_BTC_SNAPSHOT "silent") idle sample_db (quiet 100) _ _ _ _
    sample_tables_ok (run4 (run_instance EVENT_BTC_SNAPSHOT "silent")) row') as (row & Hr & _ & Hs);
    [rewrite Hin; by left|].
  exists row', row. split_and!; [rewrite Hin; by left|done..|].
  destruct Hs as [E|(status & next & _ & En & _ & _ & Hev)].
  - by apply list_elem_of_singleton in Hr as ->.
  - exists status. change (instance_status_str Timeout = instance_status_str next) in En.
    by apply instance_status_str_inj in En as <-.
Defined.

Lemma instance_projection_mirrors_witness :
  ∃ row s, row ∈ t_instance (business (run_instance EVENT_BTC_SNAPSHOT "silent").1.2) ∧
    it_instance_id row = 1%N ∧ it_status row = instance_status_str s ∧
    ef_status (acc_effects (run_instance EVENT_BTC_SNAPSHOT "silent").1.1.2) =
      Some (instance_status_str s) ∧
    ef_phase (acc_effects (run_instance EVENT_BTC_SNAPSHOT "silent").1.1.2) = Some (phase_of s).
Proof.
  apply (instance_projection_mirrors sample_committee (node_ctx INSTANCE_KIND 1%N)
    (node_event INSTANCE_KIND 1%N EVENT_BTC_SNAPSHOT "silent") idle sample_db (quiet 100) _ _
    (run_instance EVENT_BTC_SNAPSHOT "silent").2 1%N).
  - apply sample_tables_ok.
  - vm_compute. reflexivity.
  - apply run4_as. vm_compute. reflexivity.
Defined.

Lemma graph_projection_mirrors_witness :
  graph_mirrors sample_operator (node_ctx GRAPH_KIND 10%N) 10%N
    (run_graph 10%N EVENT_CHAIN_SCAN "taken").1.1.2 (run_graph 10%N EVENT_CHAIN_SCAN "taken").1.2.
Proof.
  apply (graph_projection_mirrors sample_operator (node_ctx GRAPH_KIND 10%N)
    (node_event GRAPH_KIND 10%N EVENT_CHAIN_SCAN "taken") idle sample_db (quiet 100) Applied _ _
    (run_graph 10%N EVENT_CHAIN_SCAN "taken").2 10%N).
  - vm_compute. reflexivity.
  - apply run4_as. vm_compute. reflexivity.
  - done.
Defined.

(** The cancelled instance: its key goes. *)
Definition cancelled_event : EngineInboxEvent :=
  node_event INSTANCE_KIND 1%N EVENT_BTC_SNAPSHOT "cancelled".
Abbreviation run_cancelled :=
  (apply_event sample_committee (node_ctx INSTANCE_KIND 1%N) (it_instance_id sample_instance)
     sample_instance Presigned (ib_kind cancelled_event)
     (default ""%string (ib_payload cancelled_event)) idle sample_db (quiet 100)) (only parsing).

Lemma key_deletion_justified_witness :
  map js_action (ef_jobs (acc_effects run_cancelled.1.1.2)) = [JOB_DELETE_INSTANCE_KEY] ∧
  may_delete sample_committee sample_tables sample_instance Presigned cancelled_event.
Proof.
  split; [vm_compute; reflexivity|].
  eapply (key_deletion_justified sample_committee (node_ctx INSTANCE_KIND 1%N)
    cancelled_event idle sample_db (quiet 100) _ _ _ _ sample_instance Presigned
    (job_spec (mkRef INSTANCE_KIND (uuid_to_string 1%N)) PHASE_KEY JOB_DELETE_INSTANCE_KEY PoolNetwork
       "failure")).
  - done.
  - apply (run4 run_cancelled).
  - vm_compute. left.
  - by apply not_elem_of_nil.
  - done.
Defined.


Lemma builds_serialized_witness :
  map js_action (ef_jobs (acc_effects (run_graph 12%N EVENT_BUILD_READY "").1.1.2)) =
    [JOB_BUILD_GRAPH] ∧
  may_build sample_db 12%N.
Proof.
  split; [vm_compute; reflexivity|].
  eapply (builds_serialized sample_operator (node_ctx GRAPH_KIND 12%N)
    (node_event GRAPH_KIND 12%N EVENT_BUILD_READY "") idle sample_db (quiet 100) _ _ _ _ 12%N
    (job_spec (mkRef GRAPH_KIND (uuid_to_string 12%N)) JOB_PHASE JOB_BUILD_GRAPH
       (job_pool JOB_BUILD_GRAPH) "")).
  - vm_compute. reflexivity.
  - done.
  - apply (run4 (run_graph 12%N EVENT_BUILD_READY "")).
  - vm_compute. left.
  - by apply not_elem_of_nil.
  - done.
Defined.

(** A job result that does not decode. *)
Lemma poison_only_malformed_witness :
  ∃ x, job_result_decode "garbage" = Err x.
Proof.
  destruct (poison_only_malformed default_config sample_committee sample_operator never
    (node_event INSTANCE_KIND 1%N JOB_RESULT_KIND "garbage") node_world (quiet 100)) as [[x Hx]|[_ Hx]].
  - done.
  - intros reason. by exists reason.
  - apply sample_tables_typed.
  - vm_compute. reflexivity.
  - vm_compute in Hx. discriminate Hx.
  - exact Hx.
Defined.


(** A slot of a failed instance. *)
Definition skipped_slot : SlotFacts :=
  mkSlotFacts 1 (Some (mkLocalSlot 11%N 1%N CommitteePresigned true (Some UserCanceled))) Unspent
    false false false false TxFact_UNKNOWN false.

Lemma slot_skip_justified_witness :
  ∃ local, sf_local skipped_slot = Some local ∧ skip_evidence skipped_slot local.
Proof. apply (slot_skip_justified skipped_slot "op" "instance failed"). vm_compute. reflexivity. Defined.
