(* ===== verification/Float64.v ===== *)
(** * Double-precision arithmetic

    The token buckets of the admission gates count in [f64].  A value is the
    rational number it stands for, and every operation rounds the exact result to
    53 significant bits, ties to even.  The range of the exponent is not bounded:
    tokens, rates and durations stay far from both ends of it, so no operation in
    use meets an infinity, a NaN or a subnormal number. *)

From Stdlib Require Import ZArith QArith Qround Qabs Lqa Lia.
From stdpp Require Import base numbers.

Local Open Scope Z_scope.

Definition f64 : Type := Q.

(** The integer nearest to [n / d], the even one of two. *)
Definition round_half_even (n d : Z) : Z :=
  let q := n / d in
  let r := n mod d in
  if 2 * r <? d then q
  else if d <? 2 * r then q + 1
  else if Z.even q then q else q + 1.

(** The exponent of the leading bit of [n / d], for positive [n] and [d]. *)
Definition leading_exponent (n d : Z) : Z :=
  let k := Z.log2 n - Z.log2 d in
  if n * 2 ^ Z.max 0 (- k) <? d * 2 ^ Z.max 0 k then k - 1 else k.

(** [n / d] in 53 bits: a multiple of two to the leading exponent less 52. *)
Definition round_positive (n d : Z) : Q :=
  let e := leading_exponent n d - 52 in
  if 0 <=? e then inject_Z (round_half_even n (d * 2 ^ e) * 2 ^ e)
  else round_half_even (n * 2 ^ (- e)) d # Z.to_pos (2 ^ (- e)).

Definition rnd (q : Q) : f64 :=
  match Qnum q with
  | Z0 => 0%Q
  | Zpos n => Qred (round_positive (Zpos n) (Zpos (Qden q)))
  | Zneg n => Qred (- round_positive (Zpos n) (Zpos (Qden q)))%Q
  end.

Definition f64_add (a b : f64) : f64 := rnd (a + b).
Definition f64_sub (a b : f64) : f64 := rnd (a - b).
Definition f64_mul (a b : f64) : f64 := rnd (a * b).
Definition f64_div (a b : f64) : f64 := rnd (a / b).
Definition f64_of_Z (z : Z) : f64 := rnd (inject_Z z).
Definition f64_ltb (a b : f64) : bool := negb (Qle_bool b a).
Definition f64_geb (a b : f64) : bool := Qle_bool b a.
(** [f64::min]. *)
Definition f64_min (a b : f64) : f64 := if f64_ltb b a then b else a.

(** [Duration::as_secs_f64] of a number of nanoseconds. *)
Definition NANOS_PER_SEC : Z := 1000000000.
Definition as_secs_f64 (nanos : Z) : f64 :=
  f64_add (f64_of_Z (nanos / NANOS_PER_SEC))
          (f64_div (f64_of_Z (nanos mod NANOS_PER_SEC)) (f64_of_Z NANOS_PER_SEC)).

(** ** The rounding error *)

Lemma round_half_even_error n d :
  0 < d → Z.abs (2 * (round_half_even n d * d - n)) ≤ d.
Proof.
  intros Hd. unfold round_half_even.
  pose proof (Z.div_mod n d ltac:(lia)). pose proof (Z.mod_pos_bound n d Hd).
  destruct (Z.ltb_spec (2 * (n mod d)) d); [nia|].
  destruct (Z.ltb_spec d (2 * (n mod d))); [nia|]. destruct (Z.even (n / d)); nia.
Qed.

Lemma round_half_even_nonneg n d : 0 ≤ n → 0 < d → 0 ≤ round_half_even n d.
Proof.
  intros Hn Hd. unfold round_half_even. pose proof (Z.div_pos n d Hn Hd).
  repeat case_match; lia.
Qed.

(** The exponent is exact: [n / d] is at least two to it. *)
Lemma leading_exponent_le n d :
  0 < n → 0 < d → let k := leading_exponent n d in d * 2 ^ Z.max 0 k ≤ n * 2 ^ Z.max 0 (- k).
Proof.
  intros Hn Hd. unfold leading_exponent. set (k := Z.log2 n - Z.log2 d).
  destruct (Z.ltb_spec (n * 2 ^ Z.max 0 (- k)) (d * 2 ^ Z.max 0 k)) as [_|]; cbn zeta; [|lia].
  destruct (Z.log2_spec n Hn) as [Hn1 _]. destruct (Z.log2_spec d Hd) as [_ Hd2].
  pose proof (Z.log2_nonneg n). pose proof (Z.log2_nonneg d).
  destruct (Z.le_gt_cases 1 k).
  - rewrite (Z.max_r 0 (k - 1)), (Z.max_l 0 (- (k - 1))) by lia. rewrite Z.pow_0_r, Z.mul_1_r.
    assert (2 ^ Z.log2 n = 2 ^ Z.succ (Z.log2 d) * 2 ^ (k - 1)) as E
      by (rewrite <- Z.pow_add_r by lia; f_equal; lia).
    assert (0 < 2 ^ (k - 1)) by (apply Z.pow_pos_nonneg; lia). nia.
  - rewrite (Z.max_l 0 (k - 1)), (Z.max_r 0 (- (k - 1))) by lia. rewrite Z.pow_0_r, Z.mul_1_r.
    assert (2 ^ Z.log2 n * 2 ^ (- (k - 1)) = 2 ^ Z.succ (Z.log2 d)) as E
      by (rewrite <- Z.pow_add_r by lia; f_equal; lia).
    assert (0 < 2 ^ (- (k - 1))) by (apply Z.pow_pos_nonneg; lia). nia.
Qed.

(** Half a unit in the last place, relative to the value. *)
Definition unit_error : Q := 1 # 9007199254740992.

Lemma relative_error a (b : positive) n (d : positive) :
  2 ^ 53 * Z.abs (a * Zpos d - n * Zpos b) ≤ n * Zpos b →
  (Qabs ((a # b) - (n # d)) <= (n # d) * unit_error)%Q.
Proof.
  intros He. unfold Qle, Qabs, Qminus, Qplus, Qmult, Qopp, unit_error; cbn -[Z.pow Pos.pow].
  rewrite !Pos2Z.inj_mul, Z.mul_1_r.
  replace (a * Zpos d + - n * Zpos b) with (a * Zpos d - n * Zpos b) by lia.
  assert (0 < Zpos d) by lia. nia.
Qed.

Lemma round_positive_error n (d : positive) :
  0 < n → (Qabs (round_positive n (Zpos d) - (n # d)) <= (n # d) * unit_error)%Q.
Proof.
  intros Hn. unfold round_positive. set (k := leading_exponent n (Zpos d)).
  pose proof (leading_exponent_le n (Zpos d) Hn ltac:(lia)) as Hk. cbn zeta in Hk. fold k in Hk.
  destruct (Z.leb_spec 0 (k - 52)).
  - apply (relative_error _ 1). rewrite (Z.max_r 0 k), (Z.max_l 0 (- k)) in Hk by lia.
    assert (2 ^ k = 2 ^ (k - 52) * 2 ^ 52) as E by (rewrite <- Z.pow_add_r by lia; f_equal; lia).
    assert (0 < 2 ^ (k - 52)) by (apply Z.pow_pos_nonneg; lia).
    pose proof (round_half_even_error n (Zpos d * 2 ^ (k - 52)) ltac:(lia)). lia.
  - assert (0 < 2 ^ (- (k - 52))) by (apply Z.pow_pos_nonneg; lia).
    apply relative_error. rewrite Z2Pos.id by done.
    pose proof (round_half_even_error (n * 2 ^ (- (k - 52))) (Zpos d) ltac:(lia)).
    assert (Zpos d * 2 ^ 52 ≤ n * 2 ^ (- (k - 52))); [|lia].
    destruct (Z.le_gt_cases 0 k).
    + rewrite (Z.max_r 0 k), (Z.max_l 0 (- k)) in Hk by lia.
      assert (2 ^ 52 = 2 ^ k * 2 ^ (- (k - 52))) as -> by (rewrite <- Z.pow_add_r by lia; f_equal; lia).
      nia.
    + rewrite (Z.max_l 0 k), (Z.max_r 0 (- k)) in Hk by lia.
      assert (2 ^ (- (k - 52)) = 2 ^ (- k) * 2 ^ 52) as -> by (rewrite <- Z.pow_add_r by lia; f_equal; lia).
      nia.
Qed.

Lemma round_positive_nonneg n d : 0 < n → 0 < d → (0 <= round_positive n d)%Q.
Proof.
  intros Hn Hd. unfold round_positive. destruct (Z.leb_spec 0 (leading_exponent n d - 52)).
  - change 0%Q with (inject_Z 0). rewrite <- Zle_Qle.
    pose proof (round_half_even_nonneg n (d * 2 ^ (leading_exponent n d - 52))).
    assert (0 < 2 ^ (leading_exponent n d - 52)) by (apply Z.pow_pos_nonneg; lia). nia.
  - unfold Qle; cbn -[Z.pow]. rewrite Z.mul_1_r. apply round_half_even_nonneg; [|done].
    assert (0 < 2 ^ (- (leading_exponent n d - 52))) by (apply Z.pow_pos_nonneg; lia). nia.
Qed.

Lemma rnd_nonneg q : (0 <= q)%Q → (0 <= rnd q)%Q.
Proof.
  destruct q as [[|n|n] d]; intros Hq; unfold rnd; cbn [Qnum Qden]; [done| |].
  - rewrite Qred_correct. by apply round_positive_nonneg.
  - unfold Qle in Hq. cbn in Hq. lia.
Qed.

(** What a sum, a product or a quotient of nonnegative numbers may lose or gain. *)
Lemma rnd_error q : (0 <= q → q - q * unit_error <= rnd q /\ rnd q <= q + q * unit_error)%Q.
Proof.
  destruct q as [[|n|n] d]; intros Hq; unfold rnd; cbn [Qnum Qden].
  - assert ((0 # d) == 0)%Q as -> by reflexivity. split; discriminate.
  - pose proof (round_positive_error (Zpos n) d ltac:(lia)) as He.
    apply Qabs_Qle_condition in He. rewrite Qred_correct. split; lra.
  - unfold Qle in Hq. cbn in Hq. lia.
Qed.

Lemma rnd_negative q : (q < 0)%Q → (rnd q < 0)%Q.
Proof.
  destruct q as [[|n|n] d]; intros Hq; unfold rnd; cbn [Qnum Qden]; [done|done|].
  pose proof (round_positive_error (Zpos n) d ltac:(lia)) as He.
  apply Qabs_Qle_condition in He. rewrite Qred_correct. unfold unit_error in He.
  assert (0 < Zpos n # d)%Q by reflexivity. lra.
Qed.

(** A difference that is not negative gains at most a unit of what it is taken from. *)
Lemma f64_sub_upper a b :
  (0 <= b → 0 <= f64_sub a b → b <= a /\ f64_sub a b <= a - b + a * unit_error)%Q.
Proof.
  intros Hb Hs. unfold f64_sub, unit_error in *. destruct (Qlt_le_dec (a - b) 0) as [Hlt|Hle].
  - pose proof (rnd_negative _ Hlt). lra.
  - destruct (rnd_error (a - b) Hle) as [_ Hu]. unfold unit_error in Hu. split; lra.
Qed.

Lemma f64_min_spec a b : (f64_min a b <= a /\ f64_min a b <= b)%Q.
Proof.
  unfold f64_min, f64_ltb. destruct (Qle_bool a b) eqn:E; cbn.
  - apply Qle_bool_iff in E. split; [apply Qle_refl|done].
  - split; [|apply Qle_refl]. apply Qlt_le_weak, Qnot_le_lt. rewrite <- Qle_bool_iff. congruence.
Qed.

Lemma f64_min_glb a b c : (c <= a → c <= b → c <= f64_min a b)%Q.
Proof. intros. unfold f64_min. by case_match. Qed.

Lemma f64_ltb_spec a b : f64_ltb a b = true ↔ (a < b)%Q.
Proof.
  unfold f64_ltb. rewrite negb_true_iff, <- not_true_iff_false, Qle_bool_iff.
  split; [apply Qnot_le_lt|apply Qlt_not_le].
Qed.

Lemma f64_ltb_false a b : f64_ltb a b = false ↔ (b <= a)%Q.
Proof. unfold f64_ltb. by rewrite negb_false_iff, Qle_bool_iff. Qed.

Lemma f64_geb_spec a b : f64_geb a b = true ↔ (b <= a)%Q.
Proof. apply Qle_bool_iff. Qed.

(** ** Durations *)

(** The seconds of a number of nanoseconds, exactly. *)
Definition exact_secs (nanos : Z) : Q := nanos # 1000000000.

Lemma as_secs_f64_error n :
  0 ≤ n → (exact_secs n * (1 - 4 * unit_error) <= as_secs_f64 n /\
           as_secs_f64 n <= exact_secs n * (1 + 4 * unit_error))%Q.
Proof.
  intros Hn. unfold as_secs_f64, f64_add, f64_div.
  change (f64_of_Z NANOS_PER_SEC) with (inject_Z NANOS_PER_SEC).
  set (s := inject_Z (n / NANOS_PER_SEC)). set (r := inject_Z (n mod NANOS_PER_SEC)).
  assert (0 <= s)%Q as Hs by (unfold s; change 0%Q with (inject_Z 0); rewrite <- Zle_Qle; apply Z.div_pos; unfold NANOS_PER_SEC; lia).
  assert (0 <= r)%Q as Hr by (unfold r; change 0%Q with (inject_Z 0); rewrite <- Zle_Qle; apply Z.mod_pos_bound; unfold NANOS_PER_SEC; lia).
  assert (exact_secs n == s + r / inject_Z NANOS_PER_SEC)%Q as ->.
  { unfold exact_secs, s, r, Qeq, Qdiv, Qmult, Qplus, Qinv; cbn. rewrite !Z.mul_1_r.
    pose proof (Z.div_mod n NANOS_PER_SEC). unfold NANOS_PER_SEC in *. lia. }
  destruct (rnd_error s Hs) as [Hs1 Hs2]. destruct (rnd_error r Hr) as [Hr1 Hr2].
  set (s' := f64_of_Z (n / NANOS_PER_SEC)). set (r' := f64_of_Z (n mod NANOS_PER_SEC)).
  change (rnd s) with s' in *. change (rnd r) with r' in *.
  assert (0 <= s' /\ 0 <= r')%Q as [Hs' Hr'] by (split; by apply rnd_nonneg).
  assert (∀ x, x / inject_Z NANOS_PER_SEC == x * (1 # 1000000000))%Q as Hdiv by reflexivity.
  assert (0 <= r' / inject_Z NANOS_PER_SEC)%Q as Hq by (rewrite Hdiv; lra).
  destruct (rnd_error _ Hq) as [Hd1 Hd2]. pose proof (rnd_nonneg _ Hq) as Hq'.
  set (q := rnd (r' / inject_Z NANOS_PER_SEC)) in *.
  destruct (rnd_error (s' + q)) as [Ha1 Ha2]; [lra|].
  rewrite !Hdiv in *. unfold unit_error in *. split; lra.
Qed.
