(* ===== verification/AdmissionGates.v ===== *)
(** * Admission: peers, gates, strikes and replays

    Peers, times and limits; one response per key per window, temporary bans of neighbours that keep relaying
    invalid messages, and a window of sequence numbers per author.

    Source: node/src/p2p_admission/gates.rs, node/src/p2p_admission/strikes.rs,
    node/src/p2p_admission/replay.rs. *)

From stdpp Require Import base list strings gmap sets.
From S2P Require Import Prelude Float64.

(** * Admission: peers, times and limits

    What the gates between the gossip network and the inbox share: peers and their
    classes, why a message is dropped, and the limits of the node's environment.

    Source: node/src/p2p_admission/mod.rs, node/src/p2p_admission/limits.rs,
    node/src/p2p_admission/registry.rs. *)

Local Open Scope Z_scope.

(** ** Instants and durations

    Of [std::time], in nanoseconds. *)

Definition Instant : Type := Z.
Definition Duration : Type := Z.

Definition from_secs (n : Z) : Duration := n * NANOS_PER_SEC.
Definition saturating_duration_since (now at_ : Instant) : Duration := Z.max 0 (now - at_).

(** Whether something that happened at [at_], if ever, is [d] or more ago. *)
Definition is_none_or_since (now : Instant) (at_ : option Instant) (d : Duration) : bool :=
  match at_ with Some t => d <=? saturating_duration_since now t | None => true end.

(** Events in the order of their instants, between two instants. *)
Fixpoint times_in {A} (t0 t1 : Instant) (events : list (A * Instant)) : Prop :=
  match events with
  | [] => t0 ≤ t1
  | (_, now) :: events => t0 ≤ now ∧ times_in now t1 events
  end.

(** ** Peers and hash tables

    A [PeerId] of libp2p is its bytes; its text form is that of the library. *)

Definition PeerId : Type := bytes.

Class PeerText := {
  peer_to_string : PeerId → string;
  peer_from_str : string → outcome PeerId;
}.

Class PeerTextLaws `{PeerText} : Prop :=
  peer_round_trip peer : peer_from_str (peer_to_string peer) = Ok peer.

(** [HashMap::retain]. *)
Definition retain `{Countable K} {V} (keep : K → V → bool) (m : gmap K V) : gmap K V :=
  filter (λ kv, keep kv.1 kv.2 = true) m.

Definition contains_key `{Countable K} {V} (m : gmap K V) (k : K) : bool := bool_decide (is_Some (m !! k)).

(** [HashMap::len]. *)
Definition map_len `{Countable K} {V} (m : gmap K V) : Z := Z.of_nat (size m).

(** The order in which a [HashMap] is iterated, which the standard library leaves
    open. *)
Class HashIter := hash_iter : ∀ V, gmap PeerId V → list (PeerId * V).
Arguments hash_iter {_ V} m.

Class HashIterLaws `{HashIter} : Prop :=
  hash_iter_perm V (m : gmap PeerId V) : hash_iter m ≡ₚ map_to_list m.

(** One such order. *)
Definition key_order : HashIter := λ V m, map_to_list m.
Lemma key_order_laws : HashIterLaws (H := key_order).
Proof. by intros V m. Qed.

(** ** Senders *)

Inductive SenderClass : Type := CommitteeSender | RegisteredSender | UnregisteredSender.

#[export] Instance SenderClass_eq_dec : EqDecision SenderClass.
Proof. solve_decision. Defined.

(** [Display]. *)
Definition sender_class_str (c : SenderClass) : string :=
  match c with
  | CommitteeSender => "Committee"
  | RegisteredSender => "Registered"
  | UnregisteredSender => "Unregistered"
  end.

Definition class_is_registered (c : SenderClass) : bool :=
  match c with UnregisteredSender => false | _ => true end.

Inductive DropReason : Type :=
| OversizedJson | OversizedBinary | BinaryFromNonVerifier | EndorsementFromNonVerifier
| ReplayedSequence | FutureSequence | ForwardRate | DirectPeerRate | AuthorRate
| UnregisteredRate | GlobalRateDrop | Undecodable | UnexpectedBinaryKind | ImmediateRateLimited
| ControlQueueFull | SenderQuota | GlobalQuota | NodeTableFull | NodeInfoRejected
| DuplicatePayload.

#[export] Instance DropReason_eq_dec : EqDecision DropReason.
Proof. solve_decision. Defined.

Definition blames_direct_peer (r : DropReason) : bool :=
  match r with OversizedBinary | Undecodable | UnexpectedBinaryKind => true | _ => false end.

Definition after_decode (r : DropReason) : bool :=
  match r with
  | UnexpectedBinaryKind | EndorsementFromNonVerifier | ForwardRate | ImmediateRateLimited
  | ControlQueueFull | SenderQuota | GlobalQuota => true
  | _ => false
  end.

(** ** Limits *)

Record Quota := mkQuota { q_rows : Z; q_bytes : Z }.

Definition admits (self : Quota) (rows bytes : Z) : bool :=
  (rows <=? q_rows self) && (bytes <=? q_bytes self).

Record InboundLimits := mkLimits {
  max_json_bytes : Z;
  max_binary_bytes : Z;
  il_global : Quota;
  il_committee_reserve : Quota;
  il_registered_peer : Quota;
}.

Definition MAX_GOSSIPSUB_TRANSMIT_SIZE : Z := 16 * 1024 * 1024.

(** Byte quotas are shares of the ceiling; row quotas are fixed. *)
Definition with_inbox_bytes (max_json max_inbox_bytes : Z) : InboundLimits :=
  {| max_json_bytes := max_json;
     max_binary_bytes := MAX_GOSSIPSUB_TRANSMIT_SIZE;
     il_global := mkQuota 16384 max_inbox_bytes;
     il_committee_reserve := mkQuota 4096 (Z.quot max_inbox_bytes 4);
     il_registered_peer := mkQuota 1024 (Z.quot max_inbox_bytes 8) |}.

(** ** Lemmas *)

Lemma retain_lookup `{Countable K} {V} (keep : K → V → bool) m k v :
  retain keep m !! k = Some v ↔ m !! k = Some v ∧ keep k v = true.
Proof. apply map_lookup_filter_Some. Qed.

Lemma retain_lookup_none `{Countable K} {V} (keep : K → V → bool) m k :
  retain keep m !! k = None ↔ m !! k = None ∨ ∃ v, m !! k = Some v ∧ keep k v = false.
Proof.
  unfold retain. rewrite map_lookup_filter_None. split.
  - intros [?|Hf]; [by left|]. destruct (m !! k) as [v|] eqn:E; [right|by left].
    exists v. split; [done|]. specialize (Hf v eq_refl). cbn in Hf. by destruct (keep k v).
  - intros [?|(v & E & Hk)]; [by left|right]. intros w Hw. cbn. congruence.
Qed.

Lemma retain_size `{Countable K} {V} (keep : K → V → bool) m : (size (retain keep m) ≤ size m)%nat.
Proof. apply map_subseteq_size, map_filter_subseteq. Qed.

Lemma contains_key_true `{Countable K} {V} (m : gmap K V) k :
  contains_key m k = true ↔ is_Some (m !! k).
Proof. apply bool_decide_eq_true. Qed.

Lemma contains_key_false `{Countable K} {V} (m : gmap K V) k :
  contains_key m k = false ↔ m !! k = None.
Proof.
  unfold contains_key. rewrite bool_decide_eq_false, eq_None_not_Some. done.
Qed.

(** Inserting a known key, or a new one below the bound, keeps the bound. *)
Lemma insert_size_known `{Countable K} {V} (m : gmap K V) k v :
  is_Some (m !! k) → size (<[k := v]> m) = size m.
Proof. intros. by apply map_size_insert_Some. Qed.

Lemma insert_size_le `{Countable K} {V} (m : gmap K V) k v :
  (size (<[k := v]> m) ≤ S (size m))%nat.
Proof. rewrite map_size_insert. destruct (m !! k); unfold id; lia. Qed.

(** * Admission: gates, strikes and replays *)

Local Open Scope Z_scope.

(** ** Cooldown gates *)

Record ResponseGate := mkResponseGate {
  rg_sent_at : option Instant;
  rg_pending : bool;
  rg_cooldown : Duration;
}.
#[export] Instance eta_ResponseGate : Eta ResponseGate := λ g,
  mkResponseGate (rg_sent_at g) (rg_pending g) (rg_cooldown g).

Definition NODE_INFO_RESPONSE_COOLDOWN : Duration := from_secs 10.

Definition new_response_gate (cooldown : Duration) : ResponseGate :=
  mkResponseGate None false cooldown.

Definition cooled_down (self : ResponseGate) (now : Instant) : bool :=
  is_none_or_since now (rg_sent_at self) (rg_cooldown self).

Definition try_respond (self : ResponseGate) (now : Instant) : bool * ResponseGate :=
  if cooled_down self now
  then (true, self <| rg_sent_at := Some now |> <| rg_pending := false |>)
  else (false, self <| rg_pending := true |>).

Definition take_pending (self : ResponseGate) (now : Instant) : bool * ResponseGate :=
  if rg_pending self && cooled_down self now
  then (true, self <| rg_sent_at := Some now |> <| rg_pending := false |>)
  else (false, self).

Definition GATE_SWEEP_INTERVAL : Duration := from_secs 5.

Record BoundedStamps := mkStamps {
  bs_stamps : gmap string Instant;
  bs_swept_at : option Instant;
}.
#[export] Instance eta_BoundedStamps : Eta BoundedStamps := λ s,
  mkStamps (bs_stamps s) (bs_swept_at s).

Definition is_live (self : BoundedStamps) (key : string) (ttl : Duration) (now : Instant) : bool :=
  match bs_stamps self !! key with
  | Some at_ => saturating_duration_since now at_ <? ttl
  | None => false
  end.

(** Forget what is past its time, at most once per interval. *)
Definition sweep_stamps (self : BoundedStamps) (ttl : Duration) (now : Instant) : BoundedStamps :=
  if is_none_or_since now (bs_swept_at self) GATE_SWEEP_INTERVAL
  then self <| bs_swept_at := Some now |>
            <| bs_stamps ::= retain (λ _ at_, saturating_duration_since now at_ <? ttl) |>
  else self.

Definition stamp (self : BoundedStamps) (key : string) (ttl : Duration) (max_entries : Z)
    (now : Instant) : bool * BoundedStamps :=
  let crowded s := negb (contains_key (bs_stamps self) key) && (max_entries <=? map_len (bs_stamps s)) in
  let self' := if crowded self then sweep_stamps self ttl now else self in
  if crowded self' then (false, self')
  else (true, self' <| bs_stamps ::= insert key now |>).

Record CooldownGate := mkCooldownGate {
  cg_seen : BoundedStamps;
  cg_cooldown : Duration;
  cg_max_entries : Z;
}.
#[export] Instance eta_CooldownGate : Eta CooldownGate := λ g,
  mkCooldownGate (cg_seen g) (cg_cooldown g) (cg_max_entries g).

Definition new_cooldown_gate (cooldown : Duration) (max_entries : Z) : CooldownGate :=
  mkCooldownGate (mkStamps ∅ None) cooldown max_entries.

Definition gate_allow (self : CooldownGate) (key : string) (now : Instant) : bool * CooldownGate :=
  if is_live (cg_seen self) key (cg_cooldown self) now then (false, self)
  else
    let '(ok, seen) := stamp (cg_seen self) key (cg_cooldown self) (cg_max_entries self) now in
    (ok, self <| cg_seen := seen |>).

Definition PEER_TIMESTAMP_GATE : CooldownGate := new_cooldown_gate (from_secs 30) 8192.
Definition GET_GRAPH_RESPONSE_GATE : CooldownGate := new_cooldown_gate (from_secs 60) 16384.

Definition node_table_purge_due (purged_at : option Instant) (interval : Duration) (now : Instant) :
    bool * option Instant :=
  if is_none_or_since now purged_at interval then (true, Some now) else (false, purged_at).

(** ** Strikes *)

Definition STRIKE_WINDOW : Duration := from_secs 60.
Definition STRIKE_LIMIT : Z := 256.
Definition STRIKE_BAN : Duration := from_secs (10 * 60).
Definition STRIKE_MAX_TRACKED_PEERS : Z := 4096.

Record StrikeState := mkStrikes {
  ss_strikes : gmap PeerId (Instant * Z);
  ss_banned_until : gmap PeerId Instant;
}.
#[export] Instance eta_StrikeState : Eta StrikeState := λ s,
  mkStrikes (ss_strikes s) (ss_banned_until s).

Definition strike (self : StrikeState) (peer : PeerId) (now : Instant) : bool * StrikeState :=
  if contains_key (ss_banned_until self) peer then (false, self)
  else
    let crowded s :=
      negb (contains_key (ss_strikes self) peer) && (STRIKE_MAX_TRACKED_PEERS <=? map_len (ss_strikes s)) in
    let self' :=
      if crowded self
      then self <| ss_strikes ::= retain (λ _ '(started_at, _),
                     saturating_duration_since now started_at <? STRIKE_WINDOW) |>
      else self in
    if crowded self' then (false, self')
    else
      let '(started_at, count) := default (now, 0) (ss_strikes self' !! peer) in
      let '(started_at, count) :=
        if STRIKE_WINDOW <=? saturating_duration_since now started_at then (now, 0)
        else (started_at, count) in
      let count := count + 1 in
      if count <? STRIKE_LIMIT
      then (false, self' <| ss_strikes ::= insert peer (started_at, count) |>)
      else (true, self' <| ss_strikes ::= delete peer |>
                        <| ss_banned_until ::= insert peer (now + STRIKE_BAN) |>).

Definition is_banned (self : StrikeState) (peer : PeerId) (now : Instant) : bool :=
  match ss_banned_until self !! peer with Some until => now <? until | None => false end.

Definition take_expired_bans `{HashIter} (self : StrikeState) (now : Instant) :
    list PeerId * StrikeState :=
  let expired :=
    map fst (List.filter (λ '(_, until), until <=? now) (hash_iter (ss_banned_until self))) in
  (expired, self <| ss_banned_until ::= λ m, foldr delete m expired |>).

Definition REFUSED_PEERS_MAX : nat := 256.

Definition note_refused_peer (refused : list PeerId) (peer : PeerId) : list PeerId :=
  if (length refused <? REFUSED_PEERS_MAX)%nat && negb (bool_decide (peer ∈ refused))
  then refused ++ [peer] else refused.

(** ** Replays *)

Definition REPLAY_WINDOW : Z := 1024.
Definition REPLAY_MAX_TRACKED_AUTHORS : Z := 16384.
Definition REPLAY_MAX_FUTURE : Duration := from_secs (10 * 60).
Definition REPLAY_LOCKOUT_SUSPECT_REJECTIONS : Z := 8.
Definition CLOCK_LEADS_MAX_AUTHORS : Z := 64.

Record AuthorSequence := mkSequence {
  sq_highest : Z;
  sq_recent : gset Z;
  sq_rejected : Z;
}.
#[export] Instance eta_AuthorSequence : Eta AuthorSequence := λ s,
  mkSequence (sq_highest s) (sq_recent s) (sq_rejected s).

Definition no_sequence : AuthorSequence := mkSequence 0 ∅ 0.

Record ReplayGuard := mkReplayGuard {
  rg_authors : gmap PeerId AuthorSequence;
  rg_clock_leads : gmap PeerId Z;
}.
#[export] Instance eta_ReplayGuard : Eta ReplayGuard := λ g,
  mkReplayGuard (rg_authors g) (rg_clock_leads g).

Definition u64_saturating_add (a b : Z) : Z := Z.min (u64_modulus - 1) (a + b).
Definition u64_saturating_sub (a b : Z) : Z := Z.max 0 (a - b).

Definition note_clock_lead (self : ReplayGuard) (author : PeerId) (lead_nanos : Z) : ReplayGuard :=
  let leads := rg_clock_leads self in
  if (map_len leads <? CLOCK_LEADS_MAX_AUTHORS) || contains_key leads author
  then self <| rg_clock_leads ::= insert author (Z.max (default 0 (leads !! author)) lead_nanos) |>
  else self.

(** Some author makes room in a full table. *)
Definition evict_author `{HashIter} (authors : gmap PeerId AuthorSequence) (author : PeerId) :
    gmap PeerId AuthorSequence :=
  if negb (contains_key authors author) && (REPLAY_MAX_TRACKED_AUTHORS <=? map_len authors)
  then match head (hash_iter authors) with
       | Some (evicted, _) => delete evicted authors
       | None => authors
       end
  else authors.

(** [None] for [Ok(())]. *)
Definition admit_sequence `{HashIter} (self : ReplayGuard) (author : PeerId)
    (sequence_number : option Z) (unix_nanos : Z) : option DropReason * ReplayGuard :=
  match sequence_number with
  | None => (Some ReplayedSequence, self)
  | Some number =>
      let self := if unix_nanos <? number then note_clock_lead self author (number - unix_nanos)
                  else self in
      if u64_saturating_add unix_nanos REPLAY_MAX_FUTURE <? number then (Some FutureSequence, self)
      else
        let authors := evict_author (rg_authors self) author in
        let state := default no_sequence (authors !! author) in
        let store s := self <| rg_authors := <[author := s]> authors |> in
        if sq_highest state <? number then
          let floor := u64_saturating_sub number REPLAY_WINDOW in
          (None, store (state <| sq_highest := number |>
                              <| sq_recent ::= λ r, {[ number ]} ∪ filter (λ s, floor ≤ s) r |>))
        else if (REPLAY_WINDOW <=? sq_highest state - number) || bool_decide (number ∈ sq_recent state)
        then (Some ReplayedSequence, store (state <| sq_rejected ::= λ n, u32_saturating_add n 1 |>))
        else (None, store (state <| sq_recent ::= λ r, {[ number ]} ∪ r |>))
  end.

(** Each author's largest lead, and a new table. *)
Definition take_clock_leads `{HashIter} (self : ReplayGuard) : list (PeerId * Duration) * ReplayGuard :=
  (hash_iter (rg_clock_leads self), self <| rg_clock_leads := ∅ |>).

Definition take_lockout_suspects `{HashIter} (self : ReplayGuard) : list (PeerId * Z) * ReplayGuard :=
  (List.filter (λ '(_, rejected), REPLAY_LOCKOUT_SUSPECT_REJECTIONS <=? rejected)
     (map (λ '(author, state), (author, sq_rejected state)) (hash_iter (rg_authors self))),
   self <| rg_authors ::= fmap (λ s, s <| sq_rejected := 0 |>) |>).
