(* ===== verification/AdmissionRate.v ===== *)
(** * Admission: token buckets

    Per peer for messages that are dispatched at once, per neighbour, author and
    class for everything that is received, and global for what no peer key bounds.

    Source: node/src/p2p_admission/rate.rs, node/src/p2p_admission/get_graph_budget.rs. *)

From Stdlib Require Import QArith.
From stdpp Require Import base list strings gmap.
From S2P Require Import Prelude Float64 AdmissionGates.

Local Open Scope Z_scope.

(** ** A bucket *)

Record RateBucket := mkBucket { tokens : f64; refilled_at : Instant }.
#[export] Instance eta_RateBucket : Eta RateBucket := λ b, mkBucket (tokens b) (refilled_at b).

Definition full (burst : f64) (now : Instant) : RateBucket := mkBucket burst now.

Definition refill (rate burst : f64) (now : Instant) (self : RateBucket) : RateBucket :=
  let elapsed := as_secs_f64 (saturating_duration_since now (refilled_at self)) in
  mkBucket (f64_min (f64_add (tokens self) (f64_mul elapsed rate)) burst) now.

(** ** Per peer *)

Record PeerRateLimiter := mkPeerLimiter {
  pl_buckets : gmap PeerId RateBucket;
  pl_burst : f64;
  pl_refill_per_sec : f64;
  pl_max_peers : Z;
}.
#[export] Instance eta_PeerRateLimiter : Eta PeerRateLimiter := λ l,
  mkPeerLimiter (pl_buckets l) (pl_burst l) (pl_refill_per_sec l) (pl_max_peers l).

Definition new_peer_limiter (burst refill_per_sec : f64) (max_peers : Z) : PeerRateLimiter :=
  mkPeerLimiter ∅ burst refill_per_sec max_peers.

(** Buckets that have not refilled completely. *)
Definition busy_bucket (self : PeerRateLimiter) (now : Instant) (bucket : RateBucket) : bool :=
  let elapsed := as_secs_f64 (saturating_duration_since now (refilled_at bucket)) in
  f64_ltb (f64_add (tokens bucket) (f64_mul elapsed (pl_refill_per_sec self))) (pl_burst self).

Definition allow (self : PeerRateLimiter) (peer : PeerId) (now : Instant) :
    bool * PeerRateLimiter :=
  let known := contains_key (pl_buckets self) peer in
  let buckets :=
    if negb known && (pl_max_peers self <=? map_len (pl_buckets self))
    then retain (λ _, busy_bucket self now) (pl_buckets self) else pl_buckets self in
  if negb known && (pl_max_peers self <=? map_len buckets)
  then (false, self <| pl_buckets := buckets |>)
  else
    let bucket := default (full (pl_burst self) now) (buckets !! peer) in
    let bucket := refill (pl_refill_per_sec self) (pl_burst self) now bucket in
    if f64_ltb (tokens bucket) 1%Q
    then (false, self <| pl_buckets := <[peer := bucket]> buckets |>)
    else (true, self <| pl_buckets := <[peer := bucket <| tokens ::= λ t, f64_sub t 1%Q |>]> buckets |>).

Definition IMMEDIATE_LIMITER : PeerRateLimiter := new_peer_limiter 240%Q 2%Q 4096.
Definition GET_GRAPH_PEER_BUDGET : PeerRateLimiter := new_peer_limiter 8%Q (1 # 2)%Q 1024.

(** ** Global *)

Record GlobalRate := mkGlobalRate { gl_bucket : RateBucket; gl_rate : f64; gl_burst : f64 }.
#[export] Instance eta_GlobalRate : Eta GlobalRate := λ g,
  mkGlobalRate (gl_bucket g) (gl_rate g) (gl_burst g).

Definition new_global_rate (burst rate : f64) (now : Instant) : GlobalRate :=
  mkGlobalRate (full burst now) rate burst.

Definition global_allow (self : GlobalRate) (now : Instant) : bool * GlobalRate :=
  let bucket := refill (gl_rate self) (gl_burst self) now (gl_bucket self) in
  if f64_ltb (tokens bucket) 1%Q then (false, self <| gl_bucket := bucket |>)
  else (true, self <| gl_bucket := bucket <| tokens ::= λ t, f64_sub t 1%Q |> |>).

(** ** Messages and bytes *)

Record DualBucket := mkDual { db_msgs : RateBucket; db_bytes : RateBucket }.
#[export] Instance eta_DualBucket : Eta DualBucket := λ d, mkDual (db_msgs d) (db_bytes d).

Record TierRate := mkTier {
  msg_burst : Z;
  msg_per_sec : Z;
  byte_burst : Z;
  byte_per_sec : Z;
}.

Definition new_bucket (self : TierRate) (now : Instant) : DualBucket :=
  mkDual (full (f64_of_Z (msg_burst self)) now) (full (f64_of_Z (byte_burst self)) now).

(** The refill that [peek] and [peek_above] begin with. *)
Definition refill_dual (self : TierRate) (now : Instant) (b : DualBucket) : DualBucket :=
  mkDual (refill (f64_of_Z (msg_per_sec self)) (f64_of_Z (msg_burst self)) now (db_msgs b))
         (refill (f64_of_Z (byte_per_sec self)) (f64_of_Z (byte_burst self)) now (db_bytes b)).

Definition peek_above (self : TierRate) (b : DualBucket) (bytes : Z) (reserve : f64)
    (now : Instant) : bool * DualBucket :=
  let b := refill_dual self now b in
  (f64_geb (f64_sub (tokens (db_msgs b)) 1%Q) (f64_mul (f64_of_Z (msg_burst self)) reserve) &&
   f64_geb (f64_sub (tokens (db_bytes b)) (f64_of_Z bytes))
           (f64_mul (f64_of_Z (byte_burst self)) reserve), b).

Definition peek (self : TierRate) (b : DualBucket) (bytes : Z) (now : Instant) :
    bool * DualBucket := peek_above self b bytes 0%Q now.

Definition spend (b : DualBucket) (bytes : Z) : DualBucket :=
  mkDual ((db_msgs b) <| tokens ::= λ t, f64_sub t 1%Q |>)
         ((db_bytes b) <| tokens ::= λ t, f64_sub t (f64_of_Z bytes) |>).

Record RateLimits := mkRateLimits {
  direct_peer : TierRate;
  registered_author : TierRate;
  unregistered_author : TierRate;
  unregistered_total : TierRate;
  unregistered_forward : TierRate;
  global_tier : TierRate;
  committee_reserve : f64;
  max_tracked_peers : Z;
}.

Definition MIB : Z := 1024 * 1024.

Definition default_limits : RateLimits := {|
  direct_peer := mkTier 16384 4096 (512 * MIB) (32 * MIB);
  registered_author := mkTier 8192 512 (256 * MIB) (8 * MIB);
  unregistered_author := mkTier 32 2 (4 * MIB) (128 * 1024);
  unregistered_total := mkTier 1024 32 (32 * MIB) MIB;
  unregistered_forward := mkTier 256 16 (8 * MIB) (512 * 1024);
  global_tier := mkTier 16384 4096 (512 * MIB) (32 * MIB);
  committee_reserve := (1 # 4)%Q;
  max_tracked_peers := 8192;
|}.

(** ** The tables of the multi-tier limiter *)

Definition RATE_BUCKET_IDLE_FORGET : Duration := from_secs 60.
Definition RATE_TABLE_SWEEP_INTERVAL : Duration := from_secs 5.

Record BucketTable := mkTable {
  bt_buckets : gmap PeerId DualBucket;
  bt_overflow : DualBucket;
  bt_swept_at : option Instant;
}.
#[export] Instance eta_BucketTable : Eta BucketTable := λ t,
  mkTable (bt_buckets t) (bt_overflow t) (bt_swept_at t).

Inductive BucketSlot : Type := Tracked (key : PeerId) | Overflow.

Definition new_table (overflow_tier : TierRate) (now : Instant) : BucketTable :=
  mkTable ∅ (new_bucket overflow_tier now) None.

(** Forget the idle buckets of a full table, at most once per interval. *)
Definition sweep (self : BucketTable) (cap : Z) (now : Instant) : BucketTable :=
  if (cap <=? map_len (bt_buckets self)) &&
     is_none_or_since now (bt_swept_at self) RATE_TABLE_SWEEP_INTERVAL
  then self <| bt_swept_at := Some now |>
            <| bt_buckets ::= retain (λ _ b,
                 saturating_duration_since now (refilled_at (db_msgs b)) <? RATE_BUCKET_IDLE_FORGET) |>
  else self.

Definition slot (self : BucketTable) (key : PeerId) (tier : TierRate) (cap : Z) (pinned : bool)
    (now : Instant) : BucketSlot * BucketTable :=
  if contains_key (bt_buckets self) key then (Tracked key, self)
  else
    let self := sweep self cap now in
    if (cap <=? map_len (bt_buckets self)) && negb pinned then (Overflow, self)
    else (Tracked key, self <| bt_buckets ::= insert key (new_bucket tier now) |>).

(** Indexing a [HashMap] panics on a missing key. *)
Definition get_slot (self : BucketTable) (s : BucketSlot) : outcome DualBucket :=
  match s with
  | Tracked key => expect (bt_buckets self !! key) "key not found in map"
  | Overflow => Ok (bt_overflow self)
  end.

Definition set_slot (self : BucketTable) (s : BucketSlot) (b : DualBucket) : BucketTable :=
  match s with
  | Tracked key => self <| bt_buckets ::= insert key b |>
  | Overflow => self <| bt_overflow := b |>
  end.

Record RateState := mkRateState {
  rs_direct : BucketTable;
  rs_authors : BucketTable;
  rs_unregistered_total : DualBucket;
  rs_unregistered_forward : DualBucket;
  rs_global : DualBucket;
}.
#[export] Instance eta_RateState : Eta RateState := λ s,
  mkRateState (rs_direct s) (rs_authors s) (rs_unregistered_total s) (rs_unregistered_forward s)
    (rs_global s).

Definition new_rate_state (limits : RateLimits) (now : Instant) : RateState :=
  mkRateState (new_table (direct_peer limits) now) (new_table (unregistered_author limits) now)
    (new_bucket (unregistered_total limits) now) (new_bucket (unregistered_forward limits) now)
    (new_bucket (global_tier limits) now).

(** The result of a charge: [None] for [Ok(())]. *)
Definition charge_forward (limits : RateLimits) (state : RateState) (bytes : Z) (now : Instant) :
    option DropReason * RateState :=
  let tier := unregistered_forward limits in
  let '(within, bucket) := peek tier (rs_unregistered_forward state) bytes now in
  (if within then None else Some ForwardRate,
   state <| rs_unregistered_forward := if within then spend bucket bytes else bucket |>).

Definition author_tier (limits : RateLimits) (class : SenderClass) : TierRate :=
  if class_is_registered class then registered_author limits else unregistered_author limits.

(** The shared tiers keep a reserve only the committee may draw on. *)
Definition reserve_for (limits : RateLimits) (class : SenderClass) : f64 :=
  if decide (class = CommitteeSender) then 0%Q else committee_reserve limits.

Definition charge (limits : RateLimits) (state : RateState) (direct_peer_id author : PeerId)
    (class : SenderClass) (bytes : Z) (now : Instant) : outcome (option DropReason * RateState) :=
  let tier := author_tier limits class in
  let cap := max_tracked_peers limits in
  let registered := class_is_registered class in
  let '(direct_slot, direct_table) :=
    slot (rs_direct state) direct_peer_id (direct_peer limits) cap false now in
  let '(author_slot, author_table) := slot (rs_authors state) author tier cap registered now in
  direct ← get_slot direct_table direct_slot;
  author_bucket ← get_slot author_table author_slot;
  let reserve := reserve_for limits class in
  let '(direct_ok, direct) := peek_above (direct_peer limits) direct bytes reserve now in
  let '(author_ok, author_bucket) := peek tier author_bucket bytes now in
  let '(unregistered_ok, unregistered) :=
    if registered then (true, rs_unregistered_total state)
    else peek (unregistered_total limits) (rs_unregistered_total state) bytes now in
  let '(global_ok, global) := peek_above (global_tier limits) (rs_global state) bytes reserve now in
  let refusal :=
    if negb global_ok then Some GlobalRateDrop
    else if negb unregistered_ok then Some UnregisteredRate
    else if negb author_ok then Some AuthorRate
    else if negb direct_ok then Some DirectPeerRate
    else None in
  let spend_if (cond : bool) b := if bool_decide (refusal = None) && cond then spend b bytes else b in
  Ok (refusal,
      state <| rs_direct := set_slot direct_table direct_slot (spend_if true direct) |>
            <| rs_authors := set_slot author_table author_slot (spend_if true author_bucket) |>
            <| rs_unregistered_total := spend_if (negb registered) unregistered |>
            <| rs_global := spend_if true global |>).
