(* ===== verification/RateProps.v ===== *)
(** * What the token buckets guarantee

    However messages arrive, a bucket grants no more than its burst and what its
    rate refills, up to the rounding of [f64]; forgetting idle buckets grants
    nothing; all tiers of a charge are spent or none is.

    Source: node/src/p2p_admission/rate.rs. *)

From Stdlib Require Import QArith Qabs Lqa.
From stdpp Require Import base list strings gmap.
From S2P Require Import Prelude Float64 AdmissionGates AdmissionRate.

Local Open Scope Z_scope.

(** ** One bucket *)

Section Bucket.
Context (rate burst : Q) (Hrate : (0 <= rate)%Q) (Hburst : (0 <= burst)%Q).

(** Between a spend and the next refill, rounding may leave a bit over the burst. *)
Definition bucket_ok (b : RateBucket) : Prop := (0 <= tokens b <= 2 * burst)%Q.

(** What the rate refills in a time, with room for rounding. *)
Definition refilled (d : Duration) : Q := rate * exact_secs d * (1 + 8 * unit_error).

(** What one operation may gain by rounding. *)
Definition slack : Q := 8 * burst * unit_error.

Lemma exact_secs_nonneg d : 0 ≤ d → (0 <= exact_secs d)%Q.
Proof. intros Hd. unfold exact_secs, Qle; cbn. lia. Qed.

Lemma refilled_nonneg d : 0 ≤ d → (0 <= refilled d)%Q.
Proof.
  intros Hd. unfold refilled. pose proof (exact_secs_nonneg d Hd).
  apply Qmult_le_0_compat; [by apply Qmult_le_0_compat|discriminate].
Qed.

Lemma refilled_add (a b : Duration) : (refilled (a + b)%Z == refilled a + refilled b)%Q.
Proof.
  unfold refilled. assert (exact_secs (a + b)%Z == exact_secs a + exact_secs b)%Q as ->; [|ring].
  unfold exact_secs, Qeq, Qplus; cbn. lia.
Qed.

Lemma refilled_mono a b : a ≤ b → (refilled a <= refilled b)%Q.
Proof.
  intros. replace b with (a + (b - a)) by lia. rewrite refilled_add.
  pose proof (refilled_nonneg (b - a) ltac:(lia)). lra.
Qed.

(** The sum a refill is capped from. *)
Lemma topped_up_upper t d :
  (0 <= t <= 2 * burst)%Q → 0 ≤ d →
  (0 <= f64_add t (f64_mul (as_secs_f64 d) rate))%Q ∧
  (f64_add t (f64_mul (as_secs_f64 d) rate) <= t + 2 * burst * unit_error + refilled d)%Q.
Proof.
  intros [Ht Hb] Hd. destruct (as_secs_f64_error d Hd) as [Hs1 Hs2].
  pose proof (exact_secs_nonneg d Hd) as He. unfold f64_add, f64_mul, refilled.
  set (s := as_secs_f64 d) in *. set (x := exact_secs d) in *.
  assert (0 <= s)%Q as Hs by (unfold unit_error in *; lra).
  assert (0 <= s * rate)%Q as Hm by (by apply Qmult_le_0_compat).
  assert (s * rate <= x * (1 + 4 * unit_error) * rate)%Q as Hm2 by (by apply Qmult_le_compat_r).
  destruct (rnd_error _ Hm) as [_ Hr]. pose proof (rnd_nonneg _ Hm) as Hr0.
  set (m := rnd (s * rate)) in *. assert (0 <= rate * x)%Q by (by apply Qmult_le_0_compat).
  assert (0 <= t + m)%Q as Ha by lra. destruct (rnd_error _ Ha) as [_ Hu].
  split; [by apply rnd_nonneg|]. unfold unit_error in *. lra.
Qed.

(** The bucket has granted [c] in [n] operations since [t0]. *)
Record within (t0 : Instant) (c n : Z) (b : RateBucket) : Prop := {
  wi_ok : bucket_ok b;
  wi_since : t0 ≤ refilled_at b;
  wi_granted : (inject_Z c + tokens b <= burst + refilled (refilled_at b - t0)%Z + inject_Z n * slack)%Q;
}.

Lemma within_full t0 : within t0 0 0 (full burst t0).
Proof.
  split; unfold bucket_ok; cbn [full tokens refilled_at]; [lra|lia|].
  replace (t0 - t0) with 0 by lia. pose proof (refilled_nonneg 0 ltac:(lia)).
  change (inject_Z 0) with 0%Q. lra.
Qed.

Lemma slack_succ n : (inject_Z (n + 1)%Z * slack == inject_Z n * slack + 8 * burst * unit_error)%Q.
Proof. rewrite inject_Z_plus. unfold slack. ring. Qed.

(** A refill gains at most the refilled tokens and a rounding. *)
Lemma refill_within t0 c n b now :
  within t0 c n b → refilled_at b ≤ now → let b' := refill rate burst now b in
  (0 <= tokens b' <= burst)%Q ∧
  (inject_Z c + tokens b' <= burst + refilled (now - t0)%Z + inject_Z n * slack + 2 * burst * unit_error)%Q.
Proof.
  intros [Hok Ht0 Hc] Hnow. cbn. unfold saturating_duration_since. rewrite Z.max_r by lia.
  destruct (topped_up_upper (tokens b) (now - refilled_at b) Hok ltac:(lia)) as [H0 Hu].
  set (sum := f64_add _ _) in *. destruct (f64_min_spec sum burst) as [H1 H2].
  pose proof (f64_min_glb sum burst 0 H0 Hburst). split; [done|].
  replace (now - t0) with ((refilled_at b - t0) + (now - refilled_at b)) by lia.
  rewrite refilled_add. lra.
Qed.

Lemma within_refill t0 c n b now :
  within t0 c n b → refilled_at b ≤ now → within t0 c (n + 1) (refill rate burst now b).
Proof.
  intros Hw Hnow. destruct (refill_within _ _ _ _ _ Hw Hnow) as [Hok Hc]. destruct Hw as [_ Ht0 _].
  split; [unfold bucket_ok; lra|cbn; lia|]. rewrite slack_succ. change (refilled_at (refill _ _ _ _)) with now.
  assert (0 <= burst * unit_error)%Q by (unfold unit_error; lra). lra.
Qed.

(** Spending [x] for a cost of [y], which differs from it by its conversion to [f64]. *)
Lemma within_spend t0 c n b now x y :
  within t0 c n b → refilled_at b ≤ now → let b' := refill rate burst now b in
  (0 <= x)%Q → (0 <= f64_sub (tokens b') x)%Q → (x <= burst → inject_Z y <= x + 2 * burst * unit_error)%Q →
  within t0 (c + y) (n + 1) (b' <| tokens ::= λ t, f64_sub t x |>).
Proof.
  intros Hw Hnow b' Hx Hs Hy. destruct (refill_within _ _ _ _ _ Hw Hnow) as [Hok Hc].
  destruct Hw as [_ Ht0 _]. fold b' in Hok, Hc. destruct (f64_sub_upper _ _ Hx Hs) as [Hle Hu].
  assert (tokens b' * unit_error <= burst * unit_error)%Q by (unfold unit_error; lra).
  assert (inject_Z y <= x + 2 * burst * unit_error)%Q by (apply Hy; lra).
  set (b'' := b' <| tokens ::= λ t, f64_sub t x |>).
  assert (tokens b'' = f64_sub (tokens b') x ∧ refilled_at b'' = now) as [Et Er] by done.
  split; unfold bucket_ok; rewrite ?Et, ?Er, ?slack_succ, ?inject_Z_plus; unfold unit_error in *; [lra|lia|lra].
Qed.

Lemma within_bound t0 c n b t1 :
  within t0 c n b → refilled_at b ≤ t1 → (inject_Z c <= burst + refilled (t1 - t0)%Z + inject_Z n * slack)%Q.
Proof.
  intros [[H0 _] Ht0 Hc] Ht. pose proof (refilled_mono (refilled_at b - t0)%Z (t1 - t0)%Z ltac:(lia)). lra.
Qed.
End Bucket.

(** ** The limiter of immediate messages *)

(** How many of a peer's messages a limiter lets through. *)
Fixpoint grants (peer : PeerId) (l : PeerRateLimiter) (events : list (PeerId * Instant)) : Z :=
  match events with
  | [] => 0
  | (q, now) :: events =>
      let '(ok, l') := allow l q now in
      (if ok && bool_decide (q = peer) then 1 else 0) + grants peer l' events
  end.

Section PeerLimiter.
Context (rate burst : Q) (Hrate : (0 <= rate)%Q) (Hburst : (0 <= burst)%Q) (peer : PeerId).

Record peer_within (t0 t : Instant) (c n : Z) (l : PeerRateLimiter) : Prop := {
  pw_rate : pl_refill_per_sec l = rate;
  pw_burst : pl_burst l = burst;
  pw_since : t0 ≤ t;
  pw_bucket : ∀ b, pl_buckets l !! peer = Some b → within rate burst t0 c n b ∧ refilled_at b ≤ t;
  pw_none : pl_buckets l !! peer = None →
    (inject_Z c <= refilled rate (t - t0)%Z + inject_Z n * slack burst)%Q;
}.

Lemma slack_nonneg : (0 <= slack burst)%Q.
Proof. unfold slack, unit_error. lra. Qed.

(** A bucket may be dropped only when it is full again. *)
Lemma dropped_full t0 c n l b now :
  pl_refill_per_sec l = rate → pl_burst l = burst → within rate burst t0 c n b →
  refilled_at b ≤ now → busy_bucket l now b = false →
  (inject_Z c <= refilled rate (now - t0)%Z + inject_Z (n + 1)%Z * slack burst)%Q.
Proof.
  intros Er Eb [Hok Ht0 Hc] Hnow Hbusy. unfold busy_bucket in Hbusy. rewrite Er, Eb in Hbusy.
  apply f64_ltb_false in Hbusy. unfold saturating_duration_since in Hbusy. rewrite Z.max_r in Hbusy by lia.
  destruct (topped_up_upper rate burst Hrate (tokens b) (now - refilled_at b) Hok ltac:(lia)) as [_ Hu].
  rewrite slack_succ. replace (now - t0) with ((refilled_at b - t0) + (now - refilled_at b)) by lia.
  rewrite refilled_add. assert (0 <= burst * unit_error)%Q by (unfold unit_error; lra). lra.
Qed.

(** Time passes and attempts are counted. *)
Lemma none_later t0 t now c n :
  t ≤ now → (inject_Z c <= refilled rate (t - t0)%Z + inject_Z n * slack burst)%Q →
  (inject_Z c <= refilled rate (now - t0)%Z + inject_Z (n + 1)%Z * slack burst)%Q.
Proof.
  intros Hle Hc. pose proof (refilled_mono rate Hrate (t - t0) (now - t0) ltac:(lia)).
  rewrite slack_succ. assert (0 <= burst * unit_error)%Q by (unfold unit_error; lra). lra.
Qed.

Lemma within_later t0 c n b : within rate burst t0 c n b → within rate burst t0 c (n + 1) b.
Proof.
  intros [Hok Ht0 Hc]. split; [done..|]. rewrite slack_succ.
  assert (0 <= burst * unit_error)%Q by (unfold unit_error; lra). lra.
Qed.

(** The table that remains before the peer's bucket is looked up. *)
Definition swept (l : PeerRateLimiter) (q : PeerId) (now : Instant) : gmap PeerId RateBucket :=
  if negb (contains_key (pl_buckets l) q) && (pl_max_peers l <=? map_len (pl_buckets l))
  then retain (λ _, busy_bucket l now) (pl_buckets l) else pl_buckets l.

Lemma swept_within t0 t c n l q now :
  peer_within t0 t c n l → t ≤ now →
  (∀ b, swept l q now !! peer = Some b → within rate burst t0 c n b ∧ refilled_at b ≤ t) ∧
  (swept l q now !! peer = None →
   (inject_Z c <= refilled rate (now - t0)%Z + inject_Z (n + 1)%Z * slack burst)%Q).
Proof.
  intros [Er Eb Ht0 Hb Hn] Hnow. unfold swept.
  destruct (_ && _); [|split; [done|intros E; eapply none_later, Hn; done]].
  split.
  - intros b [Hl _]%retain_lookup. by apply Hb.
  - intros [E|(b & E & Hbusy)]%retain_lookup_none; [eapply none_later, Hn; done|].
    destruct (Hb b E) as [Hw Hle]. eapply dropped_full; try done. lia.
Qed.

Lemma fresh_within t0 c n now :
  t0 ≤ now → (inject_Z c <= refilled rate (now - t0)%Z + inject_Z n * slack burst)%Q →
  within rate burst t0 c n (full burst now).
Proof.
  intros Hle Hc. split; unfold bucket_ok; cbn [full tokens refilled_at]; [lra|done|lra].
Qed.

(** The bucket an attempt of the peer itself finds. *)
Lemma found_within t0 t c n l now :
  peer_within t0 t c n l → t ≤ now →
  let b := default (full burst now) (swept l peer now !! peer) in
  within rate burst t0 c (n + 1) b ∧ refilled_at b ≤ now.
Proof.
  intros Hw Hnow. destruct (swept_within t0 t c n l peer now Hw Hnow) as [Hs Hn].
  destruct (swept l peer now !! peer) as [b|]; cbn.
  - destruct (Hs b eq_refl) as [Hb Hle]. split; [by apply within_later|lia].
  - split; [|lia]. apply fresh_within; [|by apply Hn]. destruct Hw as [_ _ Hle _ _]. lia.
Qed.

Lemma sub_one_nonneg t : f64_ltb t 1%Q = false → (0 <= f64_sub t 1)%Q.
Proof. intros Ht%f64_ltb_false. apply rnd_nonneg. lra. Qed.

Lemma allow_within t0 t c n l q now :
  peer_within t0 t c n l → t ≤ now →
  peer_within t0 now (c + if (allow l q now).1 && bool_decide (q = peer) then 1 else 0) (n + 2)
    (allow l q now).2.
Proof.
  intros Hw Hnow. pose proof (swept_within t0 t c n l q now Hw Hnow) as [Hs Hn].
  pose proof (found_within t0 t c n l now Hw Hnow) as Hfound.
  destruct Hw as [Er Eb Ht0 _ _]. unfold allow. fold (swept l q now). rewrite Er, Eb.
  replace (n + 2) with (n + 1 + 1) by lia.
  assert (∀ l', pl_refill_per_sec l' = rate → pl_burst l' = burst →
    pl_buckets l' !! peer = swept l q now !! peer → peer_within t0 now (c + 0) (n + 1 + 1) l') as Hsame.
  { intros l' E1 E2 E3. split; [done|done|lia| |]; rewrite E3, Z.add_0_r.
    - intros b Eb'. destruct (Hs b Eb'). split; [by do 2 apply within_later|lia].
    - intros E. eapply none_later; [|by apply Hn]. lia. }
  destruct (negb (contains_key (pl_buckets l) q) && (pl_max_peers l <=? map_len (swept l q now)));
    [by apply Hsame|].
  destruct (decide (q = peer)) as [->|Hne]; cbn zeta in Hfound.
  - rewrite (bool_decide_eq_true_2 (peer = peer)) by done. destruct Hfound as [Hf Hle].
    set (b := default _ _) in *. destruct (f64_ltb _ 1%Q) eqn:E; cbn [fst snd andb];
      (split; [done|done|lia| |]); cbn; rewrite lookup_insert_eq; intros b0; [|done| |done];
      intros [= <-]; (split; [|cbn; lia]).
    + rewrite Z.add_0_r. by apply within_refill.
    + apply (within_spend rate burst Hrate Hburst); [done|done|discriminate|by apply sub_one_nonneg|].
      intros _. unfold unit_error. change (inject_Z 1) with 1%Q. lra.
  - rewrite (bool_decide_eq_false_2 (q = peer)) by done. rewrite andb_false_r.
    apply Hsame; case_match; cbn; try done; by rewrite lookup_insert_ne.
Qed.

Lemma grants_within t0 t c n l events t1 :
  peer_within t0 t c n l → times_in t t1 events →
  (inject_Z (c + grants peer l events) <=
   burst + refilled rate (t1 - t0)%Z + inject_Z (n + 2 * Z.of_nat (length events))%Z * slack burst)%Q.
Proof.
  revert t c n l. induction events as [|[q now] events IH]; intros t c n l Hw Ht.
  - cbn [times_in grants length] in *. replace (n + 2 * Z.of_nat 0) with n by lia. rewrite Z.add_0_r.
    destruct Hw as [_ _ Hle Hb Hn]. destruct (pl_buckets l !! peer) as [b|].
    + destruct (Hb b eq_refl) as [Hwi Hre]. apply (within_bound _ _ Hrate _ _ _ _ _ Hwi). lia.
    + specialize (Hn eq_refl).
      pose proof (refilled_mono rate Hrate (t - t0) (t1 - t0) ltac:(lia)). lra.
  - destruct Ht as [Hle Ht]. pose proof (allow_within _ _ _ _ _ q now Hw Hle) as Hw'.
    specialize (IH _ _ _ _ Hw' Ht). cbn [grants length].
    destruct (allow l q now) as [ok l']. cbn [fst snd] in IH.
    replace (n + 2 * Z.of_nat (S (length events))) with (n + 2 + 2 * Z.of_nat (length events)) by lia.
    by rewrite Z.add_assoc.
Qed.
End PeerLimiter.

(** Over any time, from a new limiter on and whatever other peers do, a peer's
    messages let through are at most the burst and what the rate refills in that time
    (with a relative error of eight units in the last place, and sixteen units of the
    burst per attempt); dropping refilled buckets to make room grants nothing. *)
Theorem peer_rate_bound burst rate max_peers peer t0 t1 events :
  (0 <= burst)%Q → (0 <= rate)%Q → times_in t0 t1 events →
  (inject_Z (grants peer (new_peer_limiter burst rate max_peers) events) <=
   burst + rate * exact_secs (t1 - t0)%Z * (1 + 8 * unit_error) +
   inject_Z (Z.of_nat (length events)) * (16 * burst * unit_error))%Q.
Proof.
  intros Hb Hr Ht.
  assert (peer_within rate burst peer t0 t0 0 0 (new_peer_limiter burst rate max_peers)) as Hw.
  { split; cbn; [done|done|lia|done|]. intros _. replace (t0 - t0) with 0 by lia.
    pose proof (refilled_nonneg rate Hr 0 ltac:(lia)). change (inject_Z 0) with 0%Q. lra. }
  pose proof (grants_within rate burst Hr Hb peer _ _ _ _ _ _ _ Hw Ht) as Hg.
  rewrite !Z.add_0_l in Hg. unfold refilled, slack in Hg.
  rewrite inject_Z_mult in Hg. change (inject_Z 2) with 2%Q in Hg. lra.
Qed.

(** ** Tiers of messages and bytes *)

Definition tier_ok (tier : TierRate) : Prop :=
  0 ≤ msg_burst tier ∧ 0 ≤ msg_per_sec tier ∧ 0 ≤ byte_burst tier ∧ 0 ≤ byte_per_sec tier.

Lemma f64_of_Z_nonneg z : 0 ≤ z → (0 <= f64_of_Z z)%Q.
Proof. intros. apply rnd_nonneg. change 0%Q with (inject_Z 0). by rewrite <- Zle_Qle. Qed.

(** The bucket has granted [m] messages of [c] bytes in [n] operations since [t0]. *)
Record dual_within (tier : TierRate) (t0 t : Instant) (m c n : Z) (b : DualBucket) : Prop := {
  dw_msgs : within (f64_of_Z (msg_per_sec tier)) (f64_of_Z (msg_burst tier)) t0 m n (db_msgs b);
  dw_bytes : within (f64_of_Z (byte_per_sec tier)) (f64_of_Z (byte_burst tier)) t0 c n (db_bytes b);
  dw_msgs_at : refilled_at (db_msgs b) ≤ t;
  dw_bytes_at : refilled_at (db_bytes b) ≤ t;
}.

Section Tier.
Context (tier : TierRate) (Htier : tier_ok tier).

Lemma dual_full t0 : dual_within tier t0 t0 0 0 0 (new_bucket tier t0).
Proof.
  destruct Htier as (? & ? & ? & ?). split; cbn; try lia; apply within_full; by apply f64_of_Z_nonneg.
Qed.

Lemma dual_later t0 t t' m c n b :
  dual_within tier t0 t m c n b → t ≤ t' → dual_within tier t0 t' m c (n + 1) b.
Proof.
  destruct Htier as (? & ? & ? & ?). intros [Hm Hb ? ?] Ht.
  split; try lia; apply within_later; try done; by apply f64_of_Z_nonneg.
Qed.

(** A conversion of the bytes that fit the burst. *)
Lemma bytes_rounding bytes burst :
  0 ≤ bytes → (f64_of_Z bytes <= burst)%Q →
  (inject_Z bytes <= f64_of_Z bytes + 2 * burst * unit_error)%Q.
Proof.
  intros Hb Hle. assert (0 <= inject_Z bytes)%Q as H0
    by (change 0%Q with (inject_Z 0); by rewrite <- Zle_Qle).
  destruct (rnd_error _ H0) as [Hl _].
  fold (f64_of_Z bytes) in Hl. unfold unit_error in *. lra.
Qed.

Lemma peek_within t0 t m c n b bytes reserve now :
  dual_within tier t0 t m c n b → t ≤ now → 0 ≤ bytes → (0 <= reserve)%Q →
  let r := peek_above tier b bytes reserve now in
  dual_within tier t0 now m c (n + 1) r.2 ∧
  (r.1 = true → dual_within tier t0 now (m + 1) (c + bytes) (n + 1) (spend r.2 bytes)).
Proof.
  destruct Htier as (H1 & H2 & H3 & H4). intros [Hm Hb Hmt Hbt] Ht Hbytes Hres.
  apply f64_of_Z_nonneg in H1, H2, H3, H4. cbn [peek_above fst snd]. split.
  - split; [apply within_refill|apply within_refill|cbn; lia..]; try done; lia.
  - intros [E1 E2]%andb_true_iff. apply f64_geb_spec in E1, E2.
    assert (∀ x, 0 <= x → 0 <= f64_mul x reserve)%Q as Hmul
      by (intros; apply rnd_nonneg; by apply Qmult_le_0_compat).
    split; [| |cbn; lia..].
    + apply within_spend; try done; [lia| |]; [eapply Qle_trans; [|exact E1]; auto|].
      intros _. unfold unit_error. change (inject_Z 1) with 1%Q. lra.
    + apply within_spend; try done; [lia|by apply f64_of_Z_nonneg| |by apply bytes_rounding].
      eapply Qle_trans; [|exact E2]; auto.
Qed.

(** What a tier has granted. *)
Definition tier_bound (elapsed : Duration) (n : Z) (m c : Z) : Prop :=
  (inject_Z m <= f64_of_Z (msg_burst tier) + refilled (f64_of_Z (msg_per_sec tier)) elapsed +
                 inject_Z n * slack (f64_of_Z (msg_burst tier)))%Q ∧
  (inject_Z c <= f64_of_Z (byte_burst tier) + refilled (f64_of_Z (byte_per_sec tier)) elapsed +
                 inject_Z n * slack (f64_of_Z (byte_burst tier)))%Q.

Lemma tier_bound_eq elapsed n m c m' c' :
  tier_bound elapsed n m c → m = m' → c = c' → tier_bound elapsed n m' c'.
Proof. by intros ? -> ->. Qed.

Lemma dual_bound t0 t t1 m c n b :
  dual_within tier t0 t m c n b → t ≤ t1 → tier_bound (t1 - t0) n m c.
Proof.
  destruct Htier as (H1 & H2 & H3 & H4). intros [Hm Hb ? ?] Ht. apply f64_of_Z_nonneg in H1, H2, H3, H4.
  split; (eapply within_bound; [done|done|lia]).
Qed.
End Tier.

(** ** The multi-tier limiter *)

(** The slot a key is charged to exists. *)
Lemma slot_get self key tier cap pinned now s self' :
  slot self key tier cap pinned now = (s, self') → ∃ b, get_slot self' s = Ok b.
Proof.
  unfold slot. destruct (contains_key (bt_buckets self) key) eqn:E.
  - intros [= <- <-]. apply contains_key_true in E as [b E]. exists b. cbn. by rewrite E.
  - destruct (_ && _); intros [= <- <-]; [by eexists|].
    exists (new_bucket tier now). cbn. by rewrite lookup_insert_eq.
Qed.

(** A received message: its neighbour, author, class and size. *)
Record Arrival := mkArrival {
  av_direct : PeerId;
  av_author : PeerId;
  av_class : SenderClass;
  av_bytes : Z;
}.

Definition charge_arrival (limits : RateLimits) (st : RateState) (a : Arrival) (now : Instant) :
    outcome (option DropReason * RateState) :=
  charge limits st (av_direct a) (av_author a) (av_class a) (av_bytes a) now.

(** The messages and bytes of the counted classes that a run of charges accepts. *)
Fixpoint accepted (counted : SenderClass → bool) (limits : RateLimits) (st : RateState)
    (events : list (Arrival * Instant)) : Z * Z :=
  match events with
  | [] => (0, 0)
  | (a, now) :: events =>
      match charge_arrival limits st a now with
      | Ok (r, st') =>
          let '(m, c) := accepted counted limits st' events in
          if bool_decide (r = None) && counted (av_class a) then (m + 1, c + av_bytes a) else (m, c)
      | Err _ => (0, 0)
      end
  end.

Section Charge.
Context (limits : RateLimits).
Context (Hglobal : tier_ok (global_tier limits)) (Hunreg : tier_ok (unregistered_total limits)).
Context (Hreserve : (0 <= committee_reserve limits)%Q).

Lemma reserve_nonneg class : (0 <= reserve_for limits class)%Q.
Proof. unfold reserve_for. case_decide; [discriminate|done]. Qed.

Record rates_within (t0 t : Instant) (m c mu cu n : Z) (st : RateState) : Prop := {
  rw_global : dual_within (global_tier limits) t0 t m c n (rs_global st);
  rw_unregistered : dual_within (unregistered_total limits) t0 t mu cu n (rs_unregistered_total st);
}.

(** A charge ends, and charges the shared tiers for what it accepts. *)
Lemma charge_within st a now :
  ∃ r st', charge_arrival limits st a now = Ok (r, st') ∧
  ∀ t0 t m c mu cu n, rates_within t0 t m c mu cu n st → t ≤ now → 0 ≤ av_bytes a →
    let k := if bool_decide (r = None) then 1 else 0 in
    let ku := if bool_decide (r = None) && negb (class_is_registered (av_class a)) then 1 else 0 in
    rates_within t0 now (m + k) (c + k * av_bytes a) (mu + ku) (cu + ku * av_bytes a) (n + 1) st'.
Proof.
  unfold charge_arrival, charge. set (registered := class_is_registered (av_class a)).
  destruct (slot (rs_direct st) _ _ _ _ _) as [ds dt] eqn:Ed.
  destruct (slot (rs_authors st) _ _ _ _ _) as [as_ at_] eqn:Ea.
  apply slot_get in Ed as [db ->]. apply slot_get in Ea as [ab ->]. cbn [mbind outcome_bind].
  destruct (peek_above (direct_peer limits) db _ _ _) as [dok db'].
  destruct (peek (author_tier limits (av_class a)) ab _ _) as [aok ab'].
  destruct (if registered then _ else _) as [uok ub] eqn:Eu.
  destruct (peek_above (global_tier limits) _ _ _ _) as [gok gb] eqn:Eg.
  eexists _, _. split; [reflexivity|]. intros t0 t m c mu cu n [Hg Hu] Ht Hb.
  pose proof (peek_within _ Hglobal _ _ _ _ _ _ (av_bytes a) _ now Hg Ht Hb (reserve_nonneg (av_class a)))
    as [Hg1 Hg2]. rewrite Eg in Hg1, Hg2. cbn [fst snd] in Hg1, Hg2.
  assert (dual_within (unregistered_total limits) t0 now mu cu (n + 1) ub ∧
    (uok = true → registered = false →
     dual_within (unregistered_total limits) t0 now (mu + 1) (cu + av_bytes a) (n + 1) (spend ub (av_bytes a))))
    as [Hu1 Hu2].
  { destruct registered.
    - injection Eu as <- <-. split; [by eapply dual_later|done].
    - pose proof (peek_within _ Hunreg _ _ _ _ _ _ (av_bytes a) 0 now Hu Ht Hb (Qle_refl 0)) as [H1 H2].
      fold (peek (unregistered_total limits) (rs_unregistered_total st) (av_bytes a) now) in H1, H2.
      rewrite Eu in H1, H2. cbn in H1, H2. auto. }
  destruct gok, uok, aok, dok; cbn [negb]; (split; cbn; [|destruct registered; cbn]);
    rewrite ?Z.mul_1_l, ?Z.mul_0_l, ?Z.add_0_r; auto.
Qed.

Lemma accepted_within t0 t m c mu cu n st events t1 :
  rates_within t0 t m c mu cu n st → times_in t t1 events →
  Forall (λ e, 0 ≤ av_bytes e.1) events →
  let all := accepted (λ _, true) limits st events in
  let strangers := accepted (λ k, negb (class_is_registered k)) limits st events in
  let total := n + Z.of_nat (length events) in
  tier_bound (global_tier limits) (t1 - t0) total (m + all.1) (c + all.2) ∧
  tier_bound (unregistered_total limits) (t1 - t0) total (mu + strangers.1) (cu + strangers.2).
Proof.
  revert t m c mu cu n st.
  induction events as [|[a now] events IH]; intros t m c mu cu n st [Hg Hu] Ht Hb.
  - cbn in *. rewrite !Z.add_0_r. split; eapply dual_bound; eauto.
  - destruct Ht as [Hle Ht]. apply Forall_cons in Hb as [Hb0 Hb]. cbn in Hb0.
    destruct (charge_within st a now) as (r & st' & Ec & Hstep).
    specialize (Hstep _ _ _ _ _ _ _ (Build_rates_within _ _ _ _ _ _ _ _ Hg Hu) Hle Hb0).
    specialize (IH _ _ _ _ _ _ _ Hstep Ht Hb). cbn zeta in IH |- *. cbn [accepted length]. rewrite Ec.
    replace (n + Z.of_nat (S (length events))) with (n + 1 + Z.of_nat (length events)) by lia.
    destruct (accepted (λ _, true) limits st' events) as [m1 c1].
    destruct (accepted (λ k, negb _) limits st' events) as [m2 c2]. cbn [fst snd] in *.
    destruct (bool_decide (r = None)), (class_is_registered (av_class a)); cbn [andb negb fst snd] in *;
      rewrite ?Z.mul_1_l, ?Z.mul_0_l, ?Z.add_0_r in IH;
      (destruct IH as [I1 I2]; split; [eapply tier_bound_eq; [exact I1|lia..]|eapply tier_bound_eq; [exact I2|lia..]]).
Qed.
End Charge.


(** A message of anyone but the committee is accepted only if it leaves the
    committee's share in the global tier, so committee members find room there. *)
Theorem committee_reserve_kept limits st a now st' :
  charge_arrival limits st a now = Ok (None, st') → av_class a ≠ CommitteeSender →
  let b := rs_global st' in let tier := global_tier limits in
  (f64_mul (f64_of_Z (msg_burst tier)) (committee_reserve limits) <= tokens (db_msgs b))%Q ∧
  (f64_mul (f64_of_Z (byte_burst tier)) (committee_reserve limits) <= tokens (db_bytes b))%Q.
Proof.
  intros H Hc. unfold charge_arrival, charge in H.
  assert (reserve_for limits (av_class a) = committee_reserve limits) as Er
    by (unfold reserve_for; by rewrite decide_False).
  destruct (slot (rs_direct st) _ _ _ _ _), (slot (rs_authors st) _ _ _ _ _). ok_inv.
  destruct (peek_above (direct_peer limits) _ _ _ _) as [dok ?].
  destruct (peek (author_tier limits (av_class a)) _ _ _) as [aok ?].
  destruct (if class_is_registered (av_class a) then _ else _) as [uok ?].
  destruct (peek_above (global_tier limits) _ _ _ _) as [gok gb] eqn:Eg.
  injection H as Eq <-. destruct gok; [|done]. destruct uok; [|done].
  destruct aok; [|done]. destruct dok; [|done]. cbn. rewrite Er in Eg.
  unfold peek_above in Eg. injection Eg as E <-. apply andb_true_iff in E as [E1 E2].
  split; by apply f64_geb_spec.
Qed.


Definition sample_attempts : list (PeerId * Instant) :=
  [("p"%string, 1); ("q"%string, 2); ("p"%string, 3)].

Lemma peer_rate_bound_witness :
  (inject_Z (grants "p" (new_peer_limiter 240 2 4096%Z) sample_attempts) <=
   240 + 2 * exact_secs 3%Z * (1 + 8 * unit_error) + inject_Z 3 * (16 * 240 * unit_error))%Q.
Proof.
  apply (peer_rate_bound 240 2 4096 "p" 0 3 sample_attempts); [discriminate|discriminate|cbn; lia].
Defined.
