(* ===== verification/PeerRegistry.v ===== *)
(** * Admission: the peer registry

    Which peers are committee members, verifiers or operators on chain, as far as this
    node knows, and the budgets of the lookups that keep that current.

    Source: node/src/p2p_admission/registry.rs. *)

From stdpp Require Import base list strings gmap sets.
From S2P Require Import Prelude Float64 AdmissionGates.

Local Open Scope Z_scope.

Definition VERIFIER_SET_REFRESH_INTERVAL : Duration := from_secs (5 * 60).
Definition VERIFIER_SET_RETRY_INTERVAL : Duration := from_secs 30.
Definition COMMITTEE_POSITIVE_TTL : Duration := from_secs (10 * 60).
Definition COMMITTEE_NEGATIVE_TTL : Duration := from_secs (2 * 60).
Definition COMMITTEE_STALE_LIMIT : Duration := from_secs (30 * 60).
Definition COMMITTEE_CACHE_MAX_ENTRIES : Z := 4096.
Definition COMMITTEE_DISCOVERY_LOOKUPS_PER_MINUTE : Z := 60.
Definition COMMITTEE_MAX_IN_FLIGHT_LOOKUPS : Z := 16.
Definition COMMITTEE_MAX_UNKNOWN_IN_FLIGHT : Z := 12.
Definition OPERATOR_DISCOVERY_LOOKUPS_PER_MINUTE : Z := 60.
Definition OPERATOR_MAX_IN_FLIGHT_LOOKUPS : Z := 16.
Definition OPERATOR_MAX_UNKNOWN_IN_FLIGHT : Z := 12.
Definition REFUSED_PEER_LOOKUPS_PER_MINUTE : Z := 30.
Definition OPERATOR_STAKE_TTL : Duration := from_secs (10 * 60).
Definition OPERATOR_STAKE_STALE_LIMIT : Duration := from_secs (30 * 60).
Definition OPERATOR_CACHE_MAX_ENTRIES : Z := 4096.

(** ** Entries *)

Record CommitteeEntry := mkCommitteeEntry { ce_registered : bool; ce_fetched_at : Instant }.

Definition committee_ttl (e : CommitteeEntry) : Duration :=
  if ce_registered e then COMMITTEE_POSITIVE_TTL else COMMITTEE_NEGATIVE_TTL.

Definition committee_needs_refresh (e : CommitteeEntry) (now : Instant) : bool :=
  committee_ttl e <=? saturating_duration_since now (ce_fetched_at e).

Definition committee_is_registered (e : CommitteeEntry) (now : Instant) : bool :=
  ce_registered e && (saturating_duration_since now (ce_fetched_at e) <? COMMITTEE_STALE_LIMIT).

(** The x-only master public key. *)
Definition OperatorKey : Type := bytes.

Record OperatorBinding := mkBinding {
  ob_pubkey : OperatorKey;
  ob_issued_at : Z;
  ob_staked : option bool;
  ob_fetched_at : option Instant;
  ob_trusted : bool;
}.
#[export] Instance eta_OperatorBinding : Eta OperatorBinding := λ b,
  mkBinding (ob_pubkey b) (ob_issued_at b) (ob_staked b) (ob_fetched_at b) (ob_trusted b).

Definition binding_needs_refresh (b : OperatorBinding) (now : Instant) : bool :=
  is_none_or_since now (ob_fetched_at b) OPERATOR_STAKE_TTL.

Definition confirmed (b : OperatorBinding) : bool := bool_decide (ob_staked b = Some true).

Definition binding_is_registered (b : OperatorBinding) (now : Instant) : bool :=
  confirmed b &&
  match ob_fetched_at b with
  | Some at_ => saturating_duration_since now at_ <? OPERATOR_STAKE_STALE_LIMIT
  | None => false
  end.

Record DiscoveryBudget := mkDiscovery {
  dy_window_started_at : option Instant;
  dy_lookups_in_window : Z;
}.

(** Charge one lookup of the minute. *)
Definition take_lookup (self : DiscoveryBudget) (per_minute : Z) (now : Instant) :
    bool * DiscoveryBudget :=
  let self := if is_none_or_since now (dy_window_started_at self) (from_secs 60)
              then mkDiscovery (Some now) 0 else self in
  if per_minute <=? dy_lookups_in_window self then (false, self)
  else (true, mkDiscovery (dy_window_started_at self) (dy_lookups_in_window self + 1)).

Record RegistryState := mkRegistry {
  rg_verifiers : gset bytes;
  rg_verifiers_fetched_at : option Instant;
  rg_verifiers_attempted_at : option Instant;
  rg_verifiers_in_flight : bool;
  rg_committee : gmap PeerId CommitteeEntry;
  rg_committee_in_flight : gset PeerId;
  rg_operators : gmap PeerId OperatorBinding;
  rg_operator_owner : gmap OperatorKey PeerId;
  rg_operators_in_flight : gset PeerId;
  rg_committee_discovery : DiscoveryBudget;
  rg_neighbour_discovery : DiscoveryBudget;
  rg_refused_discovery : DiscoveryBudget;
  rg_operator_discovery : DiscoveryBudget;
}.
#[export] Instance eta_RegistryState : Eta RegistryState := λ s,
  mkRegistry (rg_verifiers s) (rg_verifiers_fetched_at s) (rg_verifiers_attempted_at s)
    (rg_verifiers_in_flight s) (rg_committee s) (rg_committee_in_flight s) (rg_operators s)
    (rg_operator_owner s) (rg_operators_in_flight s) (rg_committee_discovery s)
    (rg_neighbour_discovery s) (rg_refused_discovery s) (rg_operator_discovery s).

(** [Default]. *)
Definition empty_registry : RegistryState :=
  let fresh := mkDiscovery None 0 in
  mkRegistry ∅ None None false ∅ ∅ ∅ ∅ ∅ fresh fresh fresh fresh.

Inductive LookupBudget : Type := Candidate | Neighbour | Refused.

(** [HashSet::len]. *)
Definition set_len (s : gset PeerId) : Z := Z.of_nat (size s).

(** ** Claims of lookups

    A claim that returns [true] marks the lookup as in flight. *)

Definition claim_verifier_set_refresh (s : RegistryState) (now : Instant) : bool * RegistryState :=
  let due :=
    match rg_verifiers_fetched_at s, rg_verifiers_attempted_at s with
    | fetched, Some attempted_at =>
        if saturating_duration_since now attempted_at <? VERIFIER_SET_RETRY_INTERVAL then false
        else is_none_or_since now fetched VERIFIER_SET_REFRESH_INTERVAL
    | fetched, None => is_none_or_since now fetched VERIFIER_SET_REFRESH_INTERVAL
    end in
  if negb due || rg_verifiers_in_flight s then (false, s)
  else (true, s <| rg_verifiers_in_flight := true |> <| rg_verifiers_attempted_at := Some now |>).

(** The slot and the budget of a lookup of an unknown peer. *)
Definition admit_lookup (s : RegistryState) (budget : LookupBudget) (now : Instant) :
    bool * RegistryState :=
  let in_flight := set_len (rg_committee_in_flight s) in
  match budget with
  | Candidate =>
      if in_flight <? COMMITTEE_MAX_UNKNOWN_IN_FLIGHT then
        let '(ok, b) := take_lookup (rg_committee_discovery s) COMMITTEE_DISCOVERY_LOOKUPS_PER_MINUTE now in
        (ok, s <| rg_committee_discovery := b |>)
      else (false, s)
  | Neighbour =>
      if in_flight <? COMMITTEE_MAX_IN_FLIGHT_LOOKUPS then
        let '(ok, b) := take_lookup (rg_neighbour_discovery s) COMMITTEE_DISCOVERY_LOOKUPS_PER_MINUTE now in
        (ok, s <| rg_neighbour_discovery := b |>)
      else (false, s)
  | Refused =>
      if in_flight <? COMMITTEE_MAX_UNKNOWN_IN_FLIGHT then
        let '(ok, b) := take_lookup (rg_refused_discovery s) REFUSED_PEER_LOOKUPS_PER_MINUTE now in
        (ok, s <| rg_refused_discovery := b |>)
      else (false, s)
  end.

Definition claim_committee_lookup (s : RegistryState) (peer : PeerId) (budget : LookupBudget)
    (now : Instant) : bool * RegistryState :=
  if bool_decide (peer ∈ rg_verifiers s) || bool_decide (peer ∈ rg_committee_in_flight s)
  then (false, s)
  else
    let claim (known_registered : bool) :=
      let '(ok, s) :=
        if known_registered
        then (set_len (rg_committee_in_flight s) <? COMMITTEE_MAX_IN_FLIGHT_LOOKUPS, s)
        else admit_lookup s budget now in
      (ok, if ok : bool then s <| rg_committee_in_flight ::= λ f, {[ peer ]} ∪ f |> else s) in
    match rg_committee s !! peer with
    | Some entry => if committee_needs_refresh entry now then claim (ce_registered entry) else (false, s)
    | None => claim false
    end.

Definition claim_operator_refresh (s : RegistryState) (peer : PeerId) (pubkey : OperatorKey)
    (now : Instant) : bool * RegistryState :=
  if bool_decide (peer ∈ rg_operators_in_flight s) then (false, s)
  else
    match rg_operators s !! peer with
    | None => (false, s)
    | Some binding =>
        if negb (bool_decide (ob_pubkey binding = pubkey)) then (false, s)
        else if negb (binding_needs_refresh binding now) then (false, s)
        else
          let in_flight := set_len (rg_operators_in_flight s) in
          let start s := (true, s <| rg_operators_in_flight ::= λ f, {[ peer ]} ∪ f |>) in
          if confirmed binding || ob_trusted binding then
            if OPERATOR_MAX_IN_FLIGHT_LOOKUPS <=? in_flight then (false, s) else start s
          else if OPERATOR_MAX_UNKNOWN_IN_FLIGHT <=? in_flight then (false, s)
          else
            let '(ok, b) := take_lookup (rg_operator_discovery s) OPERATOR_DISCOVERY_LOOKUPS_PER_MINUTE now in
            let s := s <| rg_operator_discovery := b |> in
            if ok then start s else (false, s)
    end.

(** ** Queries *)

Definition is_verifier (s : RegistryState) (peer : PeerId) : bool := bool_decide (peer ∈ rg_verifiers s).

Definition verifier_set_loaded (s : RegistryState) : bool :=
  bool_decide (is_Some (rg_verifiers_fetched_at s)).

Definition sender_class (s : RegistryState) (peer : PeerId) (now : Instant) : SenderClass :=
  if match rg_committee s !! peer with Some e => committee_is_registered e now | None => false end
  then CommitteeSender
  else if is_verifier s peer ||
          match rg_operators s !! peer with Some b => binding_is_registered b now | None => false end
  then RegisteredSender
  else UnregisteredSender.

Definition is_committee (s : RegistryState) (peer : PeerId) (now : Instant) : bool :=
  bool_decide (sender_class s peer now = CommitteeSender).

Definition is_known_unregistered (s : RegistryState) (peer : PeerId) (now : Instant) : bool :=
  match rg_committee s !! peer with
  | Some e => negb (ce_registered e) && negb (committee_needs_refresh e now)
  | None => false
  end && negb (class_is_registered (sender_class s peer now)).

Definition committee_peer_ids `{HashIter} (s : RegistryState) (now : Instant) : list PeerId :=
  map fst (List.filter (λ '(_, e), committee_is_registered e now) (hash_iter (rg_committee s))).

Definition operator_peer_for (s : RegistryState) (pubkey : OperatorKey) : option PeerId :=
  rg_operator_owner s !! pubkey.

Definition is_unclassified (s : RegistryState) (peer : PeerId) : bool :=
  negb (contains_key (rg_committee s) peer) && negb (is_verifier s peer) &&
  negb (contains_key (rg_operators s) peer).

(** ** Bindings of operator keys *)

(** Unconfirmed bindings make room in a full cache, their keys with them. *)
Definition evict_bindings (s : RegistryState) (peer : PeerId) (now : Instant) : RegistryState :=
  if (OPERATOR_CACHE_MAX_ENTRIES <=? map_len (rg_operators s)) &&
     negb (contains_key (rg_operators s) peer)
  then
    let operators := retain (λ _ b, binding_is_registered b now || ob_trusted b) (rg_operators s) in
    s <| rg_operators := operators |>
      <| rg_operator_owner ::= retain (λ _ owner, contains_key operators owner) |>
  else s.

(** A key that another peer owns moves with a strictly newer binding only. *)
Definition release_owner (s : RegistryState) (peer : PeerId) (pubkey : OperatorKey) (issued_at : Z) :
    option RegistryState :=
  match rg_operator_owner s !! pubkey with
  | Some current_owner =>
      if bool_decide (current_owner = peer) then Some s
      else if match rg_operators s !! current_owner with
              | Some existing => ob_issued_at existing <? issued_at
              | None => true
              end
      then Some (s <| rg_operators ::= delete current_owner |>)
      else None
  | None => Some s
  end.

Definition insert_binding (s : RegistryState) (peer : PeerId) (pubkey : OperatorKey)
    (issued_at : Z) (now : Instant) : RegistryState :=
  let s := evict_bindings s peer now in
  s <| rg_operator_owner ::= insert pubkey peer |>
    <| rg_operators ::= insert peer (mkBinding pubkey issued_at None None false) |>.

(** Returns whether the peer's previous persisted registration must be revoked. *)
Definition observe_operator_binding (s : RegistryState) (peer : PeerId) (pubkey : OperatorKey)
    (issued_at : Z) (now : Instant) : bool * RegistryState :=
  match release_owner s peer pubkey issued_at with
  | None => (false, s)
  | Some s =>
      match rg_operators s !! peer with
      | Some previous =>
          if bool_decide (ob_pubkey previous = pubkey) then
            (false, s <| rg_operators ::= insert peer (previous <| ob_issued_at ::= Z.max issued_at |>) |>
                      <| rg_operator_owner ::= insert pubkey peer |>)
          else
            let s := if bool_decide (rg_operator_owner s !! ob_pubkey previous = Some peer)
                     then s <| rg_operator_owner ::= delete (ob_pubkey previous) |> else s in
            (confirmed previous, insert_binding s peer pubkey issued_at now)
      | None => (false, insert_binding s peer pubkey issued_at now)
      end
  end.

Inductive TrustedBindingConflict : Type :=
| PeerBoundToAnotherKey (key : OperatorKey)
| KeyBoundToAnotherPeer (peer : PeerId).

Definition trust_conflict (s : RegistryState) (peer : PeerId) (pubkey : OperatorKey) :
    option TrustedBindingConflict :=
  let other_key :=
    match rg_operators s !! peer with
    | Some existing =>
        if bool_decide (ob_pubkey existing = pubkey) then None
        else Some (PeerBoundToAnotherKey (ob_pubkey existing))
    | None => None
    end in
  match other_key, rg_operator_owner s !! pubkey with
  | None, Some owner =>
      if bool_decide (owner = peer) then None else Some (KeyBoundToAnotherPeer owner)
  | conflict, _ => conflict
  end.

(** [None] for [Ok(())]. *)
Definition trust_operator_binding (s : RegistryState) (peer : PeerId) (pubkey : OperatorKey) :
    option TrustedBindingConflict * RegistryState :=
  match trust_conflict s peer pubkey with
  | Some conflict => (Some conflict, s)
  | None =>
      let binding :=
        match rg_operators s !! peer with
        | Some binding => binding <| ob_trusted := true |>
        | None => mkBinding pubkey 0 None None true
        end in
      (None, s <| rg_operator_owner ::= insert pubkey peer |>
               <| rg_operators ::= insert peer binding |>)
  end.

(** Claims one after the other, keeping those that succeed. *)
Fixpoint claim_each (s : RegistryState) (due : list (PeerId * OperatorKey)) (now : Instant) :
    list (PeerId * OperatorKey) * RegistryState :=
  match due with
  | [] => ([], s)
  | (peer, pubkey) :: due =>
      let '(ok, s) := claim_operator_refresh s peer pubkey now in
      let '(claimed, s) := claim_each s due now in
      (if ok then (peer, pubkey) :: claimed else claimed, s)
  end.

(** Confirmed and configured operators first. *)
Definition plan_due_operator_refreshes `{HashIter} (s : RegistryState) (now : Instant) :
    list (PeerId * OperatorKey) * RegistryState :=
  let due := List.filter (λ '(peer, b),
      binding_needs_refresh b now && (negb (bool_decide (ob_staked b = Some false)) || ob_trusted b) &&
      negb (bool_decide (peer ∈ rg_operators_in_flight s))) (hash_iter (rg_operators s)) in
  let known := λ '(_, b), confirmed b || ob_trusted b in
  let sorted := List.filter known due ++ List.filter (λ e, negb (known e)) due in
  claim_each s (map (λ '(peer, b), (peer, ob_pubkey b)) sorted) now.

(** The verdict to persist, if it is one on the peer's current binding. *)
Definition record_operator_stake (s : RegistryState) (peer : PeerId) (pubkey : OperatorKey)
    (staked : option bool) (now : Instant) : option bool * RegistryState :=
  let s := s <| rg_operators_in_flight ::= λ f, f ∖ {[ peer ]} |> in
  match staked, rg_operators s !! peer with
  | Some verdict, Some binding =>
      if bool_decide (ob_pubkey binding = pubkey)
      then (Some verdict, s <| rg_operators ::= insert peer
              (binding <| ob_staked := Some verdict |> <| ob_fetched_at := Some now |>) |>)
      else (None, s)
  | _, _ => (None, s)
  end.

(** ** Registrations restored from the store *)

Definition SEEDED_TRUST : Duration := from_secs (5 * 60).

(** [Instant::checked_sub] has the whole range of an [i64] of seconds. *)
Definition seeded_fetched_at (now : Instant) (stale_limit : Duration) : Instant :=
  now - Z.max 0 (stale_limit - SEEDED_TRUST).

Definition seed_verified_operator (s : RegistryState) (peer : PeerId) (pubkey : OperatorKey)
    (issued_at : Z) (now : Instant) : RegistryState :=
  let '(_, s) := observe_operator_binding s peer pubkey issued_at now in
  match rg_operators s !! peer with
  | Some binding =>
      if bool_decide (ob_pubkey binding = pubkey) && bool_decide (ob_staked binding = None)
      then s <| rg_operators ::= insert peer
             (binding <| ob_staked := Some true |>
                      <| ob_fetched_at := Some (seeded_fetched_at now OPERATOR_STAKE_STALE_LIMIT) |>) |>
      else s
  | None => s
  end.

Definition seed_verified_committee_peer (s : RegistryState) (peer : PeerId) (now : Instant) :
    RegistryState :=
  match rg_committee s !! peer with
  | Some _ => s
  | None => s <| rg_committee ::= insert peer
                 (mkCommitteeEntry true (seeded_fetched_at now COMMITTEE_STALE_LIMIT)) |>
  end.

(** ** Committee members and verifiers *)

Definition plan_due_committee_refreshes `{HashIter} (s : RegistryState) (now : Instant) :
    list PeerId * RegistryState :=
  let due := map fst (List.filter (λ '(peer, e),
      ce_registered e && committee_needs_refresh e now &&
      negb (bool_decide (peer ∈ rg_committee_in_flight s))) (hash_iter (rg_committee s))) in
  let free := Z.to_nat (COMMITTEE_MAX_IN_FLIGHT_LOOKUPS - set_len (rg_committee_in_flight s)) in
  let claimed := take free due in
  (claimed, s <| rg_committee_in_flight ::= λ f, f ∪ list_to_set claimed |>).

Record RefreshPlan := mkRefreshPlan { rp_verifier_set : bool; rp_committee_peer : bool }.

Definition plan_refresh (s : RegistryState) (peer : option PeerId) (now : Instant) :
    RefreshPlan * RegistryState :=
  let '(verifier_set, s) := claim_verifier_set_refresh s now in
  let '(committee_peer, s) :=
    match peer with Some peer => claim_committee_lookup s peer Candidate now | None => (false, s) end in
  (mkRefreshPlan verifier_set committee_peer, s).

Definition record_verifier_set (s : RegistryState) (verifiers : option (list bytes)) (now : Instant) :
    RegistryState :=
  let s := s <| rg_verifiers_in_flight := false |> in
  match verifiers with
  | Some vs => s <| rg_verifiers := list_to_set vs |> <| rg_verifiers_fetched_at := Some now |>
  | None => s
  end.

(** Whether a new peer finds the cache, of which [c] is left, full. *)
Definition committee_full (s : RegistryState) (peer : PeerId) (c : gmap PeerId CommitteeEntry) : bool :=
  negb (contains_key (rg_committee s) peer) && (COMMITTEE_CACHE_MAX_ENTRIES <=? map_len c).

(** Fresh entries stay in a full cache; then an unregistered one makes room for a
    registered peer, and an unregistered peer finds none. *)
Definition drop_stale (s : RegistryState) (peer : PeerId) (now : Instant) : gmap PeerId CommitteeEntry :=
  let c := rg_committee s in
  if committee_full s peer c then retain (λ _ e, negb (committee_needs_refresh e now)) c else c.

Definition evict_unregistered `{HashIter} (s : RegistryState) (peer : PeerId)
    (c : gmap PeerId CommitteeEntry) : gmap PeerId CommitteeEntry :=
  if committee_full s peer c
  then match List.find (λ '(_, e), negb (ce_registered e)) (hash_iter c) with
       | Some (evict, _) => delete evict c
       | None => c
       end
  else c.

Definition record_committee_peer `{HashIter} (s : RegistryState) (peer : PeerId)
    (registered : option bool) (now : Instant) : option bool * RegistryState :=
  let s := s <| rg_committee_in_flight ::= λ f, f ∖ {[ peer ]} |> in
  match registered with
  | None => (None, s)
  | Some registered =>
      let c := drop_stale s peer now in
      if committee_full s peer c && negb registered then (Some registered, s <| rg_committee := c |>)
      else (Some registered, s <| rg_committee :=
              <[peer := mkCommitteeEntry registered now]> (evict_unregistered s peer c) |>)
  end.
