(* ===== verification/GateProps.v ===== *)
(** * What the gates guarantee

    A key is served at most once per cooldown; a ban is earned by a window full of
    strikes and ends; a sequence number of an author is accepted once.
    Then the connection gate (node/src/middleware/connection_gate.rs) and its bounds.

    Source: node/src/p2p_admission/gates.rs, node/src/p2p_admission/strikes.rs,
    node/src/p2p_admission/replay.rs. *)

From stdpp Require Import base list strings gmap sets.
From S2P Require Import Prelude Float64 AdmissionGates PeerRegistry.

Local Open Scope Z_scope.

(** ** Sequence numbers *)

Record Numbered := mkNumbered { nb_author : PeerId; nb_number : option Z; nb_unix_nanos : Z }.

Section Replay.
Context `{HashIter}.

(** The guard after messages in the order of their arrival, with the numbers it
    accepted, the latest first. *)
Fixpoint replay_run (g : ReplayGuard) (seen : list (PeerId * Z)) (events : list Numbered) :
    list (PeerId * Z) * ReplayGuard :=
  match events with
  | [] => (seen, g)
  | ev :: events =>
      match admit_sequence g (nb_author ev) (nb_number ev) (nb_unix_nanos ev), nb_number ev with
      | (None, g'), Some number => replay_run g' ((nb_author ev, number) :: seen) events
      | (_, g'), _ => replay_run g' seen events
      end
  end.

(** What the window of an author says about the numbers accepted from it. *)
Record window_ok (seen : list Z) (s : AuthorSequence) : Prop := {
  wo_highest : ∀ n, n ∈ seen → 0 ≤ n ≤ sq_highest s;
  wo_recent : ∀ n, n ∈ seen → sq_highest s - n < REPLAY_WINDOW → n ∈ sq_recent s;
  wo_bounds : ∀ n, n ∈ sq_recent s → sq_highest s - REPLAY_WINDOW ≤ n ≤ sq_highest s;
}.

Definition numbers_of (author : PeerId) (seen : list (PeerId * Z)) : list Z :=
  map snd (List.filter (λ p, bool_decide (p.1 = author)) seen).

Record guard_ok (tracked : gset PeerId) (seen : list (PeerId * Z)) (g : ReplayGuard) : Prop := {
  go_tracked : dom (rg_authors g) ⊆ tracked;
  go_window : ∀ a, window_ok (numbers_of a seen) (default no_sequence (rg_authors g !! a));
  go_nodup : NoDup seen;
}.

Lemma note_clock_lead_authors g a lead : rg_authors (note_clock_lead g a lead) = rg_authors g.
Proof. unfold note_clock_lead. by case_match. Qed.

(** With room for every author, none is evicted. *)
Lemma evict_author_id (tracked : gset PeerId) authors a :
  dom authors ⊆ tracked → a ∈ tracked → Z.of_nat (size tracked) ≤ REPLAY_MAX_TRACKED_AUTHORS →
  evict_author authors a = authors.
Proof.
  intros Hd Ha Hs. unfold evict_author. destruct (contains_key authors a) eqn:E; [done|].
  apply contains_key_false, not_elem_of_dom in E. cbn.
  assert (size ({[ a ]} ∪ dom authors) ≤ size tracked)%nat as Hle by (apply subseteq_size; set_solver).
  rewrite size_union, size_singleton, size_dom in Hle by set_solver.
  unfold map_len. destruct (Z.leb_spec REPLAY_MAX_TRACKED_AUTHORS (Z.of_nat (size authors))); [lia|done].
Qed.

Lemma numbers_of_cons a b n seen :
  numbers_of a ((b, n) :: seen) = if decide (b = a) then n :: numbers_of a seen else numbers_of a seen.
Proof. unfold numbers_of. cbn. case_decide; by case_bool_decide. Qed.

Lemma numbers_of_elem a n seen : n ∈ numbers_of a seen ↔ (a, n) ∈ seen.
Proof.
  unfold numbers_of. rewrite In_map_iff. setoid_rewrite In_filter_iff.
  setoid_rewrite bool_decide_eq_true. split.
  - intros ([b m] & [Hin <-] & ->). done.
  - intros Hin. by exists (a, n).
Qed.

Lemma no_sequence_ok : window_ok [] no_sequence.
Proof. split; cbn; [by intros ? ?%not_elem_of_nil..|set_solver]. Qed.

(** A number above the window, or a gap in it, is new. *)
Lemma window_above seen s n :
  window_ok seen s → 0 ≤ n → sq_highest s < n →
  (n ∉ seen) ∧ window_ok (n :: seen) (s <| sq_highest := n |>
    <| sq_recent ::= λ r, {[ n ]} ∪ filter (λ m, u64_saturating_sub n REPLAY_WINDOW ≤ m) r |>).
Proof.
  unfold u64_saturating_sub. intros [Hh Hr Hb] H0 Hn.
  split; [intros Hin; specialize (Hh n Hin); lia|]. split; cbn.
  - intros m [->|Hm]%elem_of_cons; [lia|]. specialize (Hh m Hm). lia.
  - intros m [->|Hm]%elem_of_cons Hw; [set_solver|]. specialize (Hh m Hm).
    apply elem_of_union_r, elem_of_filter. split; [lia|]. apply Hr; [done|lia].
  - intros m [->%elem_of_singleton|[Hf Hm]%elem_of_filter]%elem_of_union; unfold REPLAY_WINDOW in *; [lia|].
    specialize (Hb m Hm). lia.
Qed.

Lemma window_gap seen s n :
  window_ok seen s → 0 ≤ n ≤ sq_highest s → sq_highest s - n < REPLAY_WINDOW → n ∉ sq_recent s →
  (n ∉ seen) ∧ window_ok (n :: seen) (s <| sq_recent ::= λ r, {[ n ]} ∪ r |>).
Proof.
  intros [Hh Hr Hb] Hn Hw Hnew. split; [intros Hin; by apply Hnew, Hr|]. split; cbn.
  - intros m [->|Hm]%elem_of_cons; [done|by apply Hh].
  - intros m [->|Hm]%elem_of_cons Hm'; [set_solver|]. apply elem_of_union_r. by apply Hr.
  - intros m [->%elem_of_singleton|Hm]%elem_of_union; [lia|by apply Hb].
Qed.

Lemma window_rejected seen s u : window_ok seen s → window_ok seen (s <| sq_rejected ::= u |>).
Proof. by intros [? ? ?]. Qed.

(** A window changes for one author only. *)
Lemma guard_update tracked seen seen' g authors a s leads :
  guard_ok tracked seen g → rg_authors g = authors → a ∈ tracked →
  (∀ b, b ≠ a → numbers_of b seen' = numbers_of b seen) →
  window_ok (numbers_of a seen') s → NoDup seen' →
  guard_ok tracked seen' (mkReplayGuard (<[a := s]> authors) leads).
Proof.
  intros [Hd Hw Hn] <- Ha Hsame Ha' Hn'. split; cbn; [set_solver| |done].
  intros b. destruct (decide (b = a)) as [->|Hne].
  - by rewrite lookup_insert_eq.
  - rewrite lookup_insert_ne, Hsame by done. apply Hw.
Qed.

Lemma admit_ok (tracked : gset PeerId) seen g ev :
  guard_ok tracked seen g → nb_author ev ∈ tracked →
  Z.of_nat (size tracked) ≤ REPLAY_MAX_TRACKED_AUTHORS → (∀ n, nb_number ev = Some n → 0 ≤ n) →
  match admit_sequence g (nb_author ev) (nb_number ev) (nb_unix_nanos ev), nb_number ev with
  | (None, g'), Some n =>
      guard_ok tracked ((nb_author ev, n) :: seen) g' ∧ n ≤ nb_unix_nanos ev + REPLAY_MAX_FUTURE
  | (_, g'), _ => guard_ok tracked seen g'
  end.
Proof.
  destruct ev as [a [n|] t]; cbn; [|done]. intros Hg Ha Hs Hn. specialize (Hn n eq_refl).
  set (g1 := if t <? n then _ else _).
  assert (rg_authors g1 = rg_authors g) as E1 by (unfold g1; case_match; [apply note_clock_lead_authors|done]).
  assert (guard_ok tracked seen g1) as Hg1 by (destruct Hg; by split; rewrite ?E1).
  destruct (Z.ltb_spec (u64_saturating_add t REPLAY_MAX_FUTURE) n) as [|Hle]; [done|].
  rewrite (evict_author_id tracked) by (done || by destruct Hg1).
  pose proof (go_window _ _ _ Hg1 a) as Hw. pose proof (go_nodup _ _ _ Hg1) as Hnd.
  set (s := default no_sequence _) in *.
  assert (∀ b, b ≠ a → numbers_of b ((a, n) :: seen) = numbers_of b seen) as Hother
    by (intros b Hb; by rewrite numbers_of_cons, decide_False).
  assert (numbers_of a ((a, n) :: seen) = n :: numbers_of a seen) as Hown
    by (by rewrite numbers_of_cons, decide_True).
  assert (n ≤ t + REPLAY_MAX_FUTURE) by (unfold u64_saturating_add in Hle; lia).
  destruct (Z.ltb_spec (sq_highest s) n).
  { destruct (window_above _ _ n Hw Hn) as [Hnew Hw']; [done|]. rewrite numbers_of_elem in Hnew.
    split; [|done]. eapply guard_update; try done; [by rewrite Hown|by apply NoDup_cons]. }
  destruct (Z.leb_spec REPLAY_WINDOW (sq_highest s - n)); cbn [orb].
  { eapply guard_update; try done. exact (window_rejected _ s (λ k, u32_saturating_add k 1) Hw). }
  case_bool_decide as Hin.
  { eapply guard_update; try done. exact (window_rejected _ s (λ k, u32_saturating_add k 1) Hw). }
  destruct (window_gap _ _ n Hw) as [Hnew Hw']; [done..|]. rewrite numbers_of_elem in Hnew.
  split; [|done]. eapply guard_update; try done; [by rewrite Hown|by apply NoDup_cons].
Qed.

Lemma replay_run_ok (tracked : gset PeerId) events seen g :
  guard_ok tracked seen g → Z.of_nat (size tracked) ≤ REPLAY_MAX_TRACKED_AUTHORS →
  Forall (λ ev, nb_author ev ∈ tracked ∧ ∀ n, nb_number ev = Some n → 0 ≤ n) events →
  guard_ok tracked (replay_run g seen events).1 (replay_run g seen events).2.
Proof.
  intros Hg Hs Hev. revert seen g Hg.
  induction Hev as [|ev events [Ha Hn] Hev IH]; intros seen g Hg; [done|]. cbn [replay_run].
  pose proof (admit_ok tracked seen g ev Hg Ha Hs Hn) as Hstep.
  destruct (admit_sequence _ _ _ _) as [[r|] g']; [by apply IH|].
  destruct (nb_number ev); [|by apply IH]. destruct Hstep. by apply IH.
Qed.
End Replay.

(** While the authors fit the table, a sequence number of an author is accepted at
    most once, whatever arrives in whatever order, and a window holds at most 1025
    numbers. *)
Theorem sequence_accepted_once `{HashIter} (tracked : gset PeerId) events :
  Z.of_nat (size tracked) ≤ REPLAY_MAX_TRACKED_AUTHORS →
  Forall (λ ev, nb_author ev ∈ tracked ∧ ∀ n, nb_number ev = Some n → 0 ≤ n) events →
  let r := replay_run (mkReplayGuard ∅ ∅) [] events in
  NoDup r.1 ∧
  ∀ a s, rg_authors r.2 !! a = Some s → Z.of_nat (size (sq_recent s)) ≤ REPLAY_WINDOW + 1.
Proof.
  intros Hs Hev r. assert (guard_ok tracked r.1 r.2) as Hg.
  { apply replay_run_ok; [|done..]. split; cbn; [set_solver| |constructor].
    intros a. rewrite lookup_empty. apply no_sequence_ok. }
  split; [apply Hg|]. intros a s E. pose proof (go_window _ _ _ Hg a) as Hw. rewrite E in Hw. cbn in Hw.
  set (lo := sq_highest s - REPLAY_WINDOW).
  assert (sq_recent s ⊆ list_to_set (seqZ lo (REPLAY_WINDOW + 1))) as Hsub.
  { intros n Hn. apply elem_of_list_to_set, elem_of_seqZ.
    destruct (wo_bounds _ _ Hw n Hn). unfold lo, REPLAY_WINDOW in *. lia. }
  apply subseteq_size in Hsub. rewrite size_list_to_set, length_seqZ in Hsub by apply NoDup_seqZ.
  unfold REPLAY_WINDOW in *. lia.
Qed.

(** An author whose numbers grow and stay within the tolerance is never refused. *)
Theorem fresh_sequence_accepted `{HashIter} g a n t :
  0 < n ≤ u64_saturating_add t REPLAY_MAX_FUTURE →
  (∀ s, rg_authors g !! a = Some s → sq_highest s < n) → (admit_sequence g a (Some n) t).1 = None.
Proof.
  intros [H0 Hle] Hh. unfold admit_sequence. destruct (Z.ltb_spec (u64_saturating_add t REPLAY_MAX_FUTURE) n); [lia|].
  set (g1 := if t <? n then _ else _).
  assert (rg_authors g1 = rg_authors g) as -> by (unfold g1; case_match; [apply note_clock_lead_authors|done]).
  assert (sq_highest (default no_sequence (evict_author (rg_authors g) a !! a)) < n) as Hlt.
  { unfold evict_author. destruct (contains_key (rg_authors g) a) eqn:E; cbn.
    - apply contains_key_true in E as [s E]. rewrite E. by apply Hh.
    - apply contains_key_false in E.
      assert (∀ m : gmap PeerId AuthorSequence, m !! a = None →
        sq_highest (default no_sequence (m !! a)) < n) as Hnone by (intros m ->; done).
      repeat case_match; apply Hnone; [by rewrite lookup_delete_None; right|done..]. }
  by destruct (Z.ltb_spec (sq_highest (default no_sequence (evict_author (rg_authors g) a !! a))) n); [|lia].
Qed.

(** ** Cooldowns *)

(** The gate after requests in the order of their instants, with the keys it let
    through and when, the latest first. *)
Fixpoint gate_run (g : CooldownGate) (granted : list (string * Instant))
    (events : list (string * Instant)) : list (string * Instant) * CooldownGate :=
  match events with
  | [] => (granted, g)
  | (key, now) :: events =>
      let '(ok, g') := gate_allow g key now in
      gate_run g' (if ok then (key, now) :: granted else granted) events
  end.

(** What a stamp, or its absence, says about the grants of its key until [t]. *)
Record gate_ok (cooldown : Duration) (max : Z) (t : Instant) (granted : list (string * Instant))
    (g : CooldownGate) : Prop := {
  gk_cooldown : cg_cooldown g = cooldown;
  gk_max : cg_max_entries g = max;
  gk_len : map_len (bs_stamps (cg_seen g)) ≤ max;
  gk_stamped : ∀ k (at_ : Instant), bs_stamps (cg_seen g) !! k = Some at_ → at_ ≤ t;
  gk_granted : ∀ k t', (k, t') ∈ granted →
    t' + cooldown ≤ t ∨ ∃ at_ : Instant, bs_stamps (cg_seen g) !! k = Some at_ ∧ t' ≤ at_;
  gk_apart : ∀ i j k ti tj, (i < j)%nat → granted !! i = Some (k, ti) → granted !! j = Some (k, tj) →
    tj + cooldown ≤ ti;
}.

Lemma gate_later cooldown max t now granted g :
  gate_ok cooldown max t granted g → t ≤ now → gate_ok cooldown max now granted g.
Proof.
  intros [? ? ? Hs Hg Ha] Ht. split; [done..| | |done].
  - intros k at_ E. specialize (Hs k at_ E). lia.
  - intros k t' Hin. destruct (Hg k t' Hin); [left; lia|by right].
Qed.

(** Sweeping forgets only what is past its cooldown. *)
Lemma sweep_ok cooldown max now granted g :
  gate_ok cooldown max now granted g →
  gate_ok cooldown max now granted (g <| cg_seen ::= λ s, sweep_stamps s cooldown now |>).
Proof.
  intros [? ? Hl Hs Hg Ha]. unfold sweep_stamps. cbn.
  destruct (is_none_or_since now (bs_swept_at (cg_seen g)) GATE_SWEEP_INTERVAL); [|by split].
  set (keep := λ (_ : string) at_, saturating_duration_since now at_ <? cooldown).
  split; cbn; fold keep; [done..| | | |done].
  - pose proof (retain_size keep (bs_stamps (cg_seen g))). unfold map_len in *. lia.
  - intros k at_ [E _]%retain_lookup. by eapply Hs.
  - intros k t' Hin. destruct (Hg k t' Hin) as [|(at_ & E & Hle)]; [by left|].
    destruct (keep k at_) eqn:Ek; [right|left].
    + exists at_. split; [by apply retain_lookup|done].
    + unfold keep, saturating_duration_since in Ek. apply Z.ltb_ge in Ek. specialize (Hs k at_ E). lia.
Qed.

(** A key that is not live may be granted. *)
Lemma grant_ok cooldown max now granted g key :
  gate_ok cooldown max now granted g →
  (∀ t', (key, t') ∈ granted → t' + cooldown ≤ now) →
  contains_key (bs_stamps (cg_seen g)) key = true ∨ map_len (bs_stamps (cg_seen g)) < max →
  gate_ok cooldown max now ((key, now) :: granted)
    (g <| cg_seen ::= λ s, s <| bs_stamps ::= insert key now |> |>).
Proof.
  intros [Ec Em Hl Hs Hg Ha] Hcool Hroom. split; cbn; [done..| | | |].
  - unfold map_len in *. destruct Hroom as [Hk%contains_key_true|Hlt].
    + by rewrite insert_size_known.
    + pose proof (insert_size_le (bs_stamps (cg_seen g)) key now). lia.
  - intros k at_. destruct (decide (k = key)) as [->|Hne].
    + rewrite lookup_insert_eq. intros [= <-]. lia.
    + rewrite lookup_insert_ne by done. apply Hs.
  - intros k t'. destruct (decide (k = key)) as [->|Hne].
    + rewrite lookup_insert_eq. intros [[= ->]|Hin]%elem_of_cons; [right; by exists now|].
      left. by apply Hcool.
    + rewrite lookup_insert_ne by done. intros [[= -> ->]|Hin]%elem_of_cons; [done|by apply Hg].
  - intros [|i] [|j] k ti tj Hij Ei Ej; [lia| |lia|].
    + cbn in Ei, Ej. injection Ei as <- <-. apply Hcool. by eapply list_elem_of_lookup_2.
    + apply (Ha i j k); [lia|done..].
Qed.

Lemma gate_allow_ok cooldown max t granted g key now :
  gate_ok cooldown max t granted g → t ≤ now →
  gate_ok cooldown max now
    (if (gate_allow g key now).1 then (key, now) :: granted else granted) (gate_allow g key now).2.
Proof.
  intros Hg Ht. apply (gate_later _ _ _ now) in Hg; [|done]. unfold gate_allow, is_live.
  rewrite (gk_cooldown _ _ _ _ _ Hg), (gk_max _ _ _ _ _ Hg).
  destruct (match bs_stamps (cg_seen g) !! key with Some _ => _ | None => _ end) eqn:El; [done|].
  assert (∀ t', (key, t') ∈ granted → t' + cooldown ≤ now) as Hcool.
  { intros t' Hin. destruct (gk_granted _ _ _ _ _ Hg key t' Hin) as [|(at_ & E & Hle)]; [done|].
    rewrite E in El. apply Z.ltb_ge in El. pose proof (gk_stamped _ _ _ _ _ Hg key at_ E).
    unfold saturating_duration_since in El. lia. }
  unfold stamp. destruct (negb (contains_key (bs_stamps (cg_seen g)) key)) eqn:Ek; cbn [andb].
  2:{ apply (grant_ok _ _ _ _ _ key Hg Hcool). left. by apply negb_false_iff. }
  destruct (Z.leb_spec max (map_len (bs_stamps (cg_seen g)))).
  - apply sweep_ok in Hg.
    destruct (Z.leb_spec max (map_len (bs_stamps (sweep_stamps (cg_seen g) cooldown now)))); [done|].
    apply (grant_ok _ _ _ _ _ key Hg Hcool). by right.
  - destruct (Z.leb_spec max (map_len (bs_stamps (cg_seen g)))); [lia|].
    apply (grant_ok _ _ _ _ _ key Hg Hcool). right. lia.
Qed.

Lemma gate_run_ok cooldown max t t1 granted g events :
  gate_ok cooldown max t granted g → times_in t t1 events →
  gate_ok cooldown max t1 (gate_run g granted events).1 (gate_run g granted events).2.
Proof.
  revert t granted g. induction events as [|[key now] events IH]; intros t granted g Hg Ht.
  - by eapply gate_later.
  - destruct Ht as [Hle Ht]. pose proof (gate_allow_ok _ _ _ _ _ key now Hg Hle) as Hg'.
    cbn [gate_run]. destruct (gate_allow g key now) as [ok g']. by eapply IH.
Qed.

(** A gate lets a key through at most once per cooldown, in a table that never
    outgrows its bound, whatever keys are asked for. *)
Theorem served_once_per_cooldown cooldown max t0 t1 events :
  0 ≤ max → times_in t0 t1 events →
  let r := gate_run (new_cooldown_gate cooldown max) [] events in
  map_len (bs_stamps (cg_seen r.2)) ≤ max ∧
  ∀ i j k ti tj, (i < j)%nat → r.1 !! i = Some (k, ti) → r.1 !! j = Some (k, tj) →
    tj + cooldown ≤ ti.
Proof.
  intros Hm Ht r.
  assert (gate_ok cooldown max t1 r.1 r.2) as Hg.
  { apply (gate_run_ok _ _ t0); [|done]. split; cbn; try done.
    intros ? ? ?%not_elem_of_nil. done. }
  split; apply Hg.
Qed.

(** ** Bans *)

Inductive StrikeOp : Type := Strike (peer : PeerId) | Expire.

Section Strikes.
Context `{HashIter}.

(** The state after the node's operations in the order of their instants, with the
    strikes so far. *)
Fixpoint strike_run (s : StrikeState) (struck : list (PeerId * Instant))
    (events : list (StrikeOp * Instant)) : list (PeerId * Instant) * StrikeState :=
  match events with
  | [] => (struck, s)
  | (Strike peer, now) :: events => strike_run (strike s peer now).2 ((peer, now) :: struck) events
  | (Expire, now) :: events => strike_run (take_expired_bans s now).2 struck events
  end.

(** The strikes of a peer in a time. *)
Definition hits (struck : list (PeerId * Instant)) (peer : PeerId) (from to : Instant) : Z :=
  Z.of_nat (length (List.filter (λ e, bool_decide (e.1 = peer) && (from <=? e.2) && (e.2 <=? to)) struck)).

(** A ban until [until] is earned by a window full of strikes. *)
Definition earned (struck : list (PeerId * Instant)) (peer : PeerId) (until : Instant) : Prop :=
  ∃ from to, until = to + STRIKE_BAN ∧ from ≤ to < from + STRIKE_WINDOW ∧
    STRIKE_LIMIT ≤ hits struck peer from to.

Record strikes_ok (t : Instant) (struck : list (PeerId * Instant)) (s : StrikeState) : Prop := {
  so_counted : ∀ p from c, ss_strikes s !! p = Some (from, c) → from ≤ t ∧ c ≤ hits struck p from t;
  so_earned : ∀ p until, ss_banned_until s !! p = Some until → earned struck p until;
}.

Lemma hits_cons struck e p from to : hits struck p from to ≤ hits (e :: struck) p from to.
Proof. unfold hits. cbn. case_match; cbn; lia. Qed.

Lemma hits_now struck p from now :
  from ≤ now → hits ((p, now) :: struck) p from now = hits struck p from now + 1.
Proof.
  intros Hle. unfold hits. cbn. rewrite bool_decide_eq_true_2 by done.
  rewrite (proj2 (Z.leb_le from now) Hle), Z.leb_refl. cbn. lia.
Qed.

Lemma hits_later struck p from t t' : t ≤ t' → hits struck p from t ≤ hits struck p from t'.
Proof.
  intros Hle. unfold hits. induction struck as [|[q u] struck IH]; [done|]. cbn.
  destruct (bool_decide (q = p)), (Z.leb_spec from u), (Z.leb_spec u t), (Z.leb_spec u t');
    cbn -[Z.of_nat]; lia.
Qed.

Lemma hits_nonneg struck p from to : 0 ≤ hits struck p from to.
Proof. unfold hits. lia. Qed.

Lemma earned_cons struck e p until : earned struck p until → earned (e :: struck) p until.
Proof.
  intros (from & to & ? & ? & Hh). exists from, to. split_and!; try lia.
  pose proof (hits_cons struck e p from to). lia.
Qed.

Lemma strikes_later t now struck s :
  strikes_ok t struck s → t ≤ now → strikes_ok now struck s.
Proof.
  intros [Hc He] Ht. split; [|done]. intros p from c E. destruct (Hc p from c E).
  pose proof (hits_later struck p from t now Ht). lia.
Qed.

Lemma strikes_cons t struck s e : strikes_ok t struck s → strikes_ok t (e :: struck) s.
Proof.
  intros [Hc He]. split.
  - intros p from c E. destruct (Hc p from c E). pose proof (hits_cons struck e p from t). lia.
  - intros p until E. by apply earned_cons, He.
Qed.

(** A window goes on or begins anew; the strike that fills it earns the ban. *)
Lemma strike_ok t struck s p now :
  strikes_ok t struck s → t ≤ now → strikes_ok now ((p, now) :: struck) (strike s p now).2.
Proof.
  intros Hs Ht. apply (strikes_later t now) in Hs; [|done]. unfold strike. cbn zeta beta.
  destruct (contains_key (ss_banned_until s) p); [by apply strikes_cons|].
  set (keep := λ (_ : PeerId) '(started_at, _), saturating_duration_since now started_at <? STRIKE_WINDOW).
  set (s1 := if negb (contains_key (ss_strikes s) p) && (STRIKE_MAX_TRACKED_PEERS <=? map_len (ss_strikes s))
             then _ else s).
  assert (strikes_ok now struck s1) as Hs1.
  { unfold s1. case_match; [|done]. destruct Hs as [Hc He]. split; [|done]. cbn.
    intros q from c [E _]%retain_lookup. by apply Hc. }
  clearbody s1.   destruct (_ && _); [by apply strikes_cons|].
  set (start := if STRIKE_WINDOW <=? saturating_duration_since now
                     (default (now, 0) (ss_strikes s1 !! p)).1
                then (now, 0) else default (now, 0) (ss_strikes s1 !! p)).
  assert (start.1 ≤ now < start.1 + STRIKE_WINDOW ∧ start.2 ≤ hits struck p start.1 now) as [Hw Hh].
  { unfold start. pose proof (hits_nonneg struck p now now) as Hz.
    destruct (Z.leb_spec STRIKE_WINDOW (saturating_duration_since now (default (now, 0) (ss_strikes s1 !! p)).1))
      as [|Hlt]; cbn; [unfold STRIKE_WINDOW, from_secs, NANOS_PER_SEC; lia|].
    unfold saturating_duration_since in Hlt. destruct (ss_strikes s1 !! p) as [[from c]|] eqn:E; cbn in *.
    - destruct (so_counted _ _ _ Hs1 p from c E). lia.
    - unfold STRIKE_WINDOW, from_secs, NANOS_PER_SEC. lia. }
  pose proof (hits_now struck p start.1 now ltac:(lia)) as Hhit.
  assert (∀ st, (let '(from, c) := default (now, 0) (ss_strikes s1 !! p) in
    let '(from, c) := if STRIKE_WINDOW <=? saturating_duration_since now from then (now, 0) else (from, c) in
    st from c) = st start.1 start.2 :> bool * StrikeState) as Hlet.
  { intros st. unfold start. destruct (default (now, 0) (ss_strikes s1 !! p)) as [from c]. cbn. by case_match. }
  rewrite Hlet. cbn zeta. apply (strikes_cons _ _ _ (p, now)) in Hs1.
  destruct (Z.ltb_spec (start.2 + 1) STRIKE_LIMIT) as [Hlt|Hge]; cbn.
  - split; cbn; [|apply Hs1]. intros q from c. destruct (decide (q = p)) as [->|Hne].
    + rewrite lookup_insert_eq. intros [= <- <-]. lia.
    + rewrite lookup_insert_ne by done. apply Hs1.
  - split; cbn.
    + intros q from c [Hne E]%lookup_delete_Some. by apply (so_counted _ _ _ Hs1 q).
    + intros q until. destruct (decide (q = p)) as [->|Hne].
      * rewrite lookup_insert_eq. intros [= <-]. exists start.1, now. lia.
      * rewrite lookup_insert_ne by done. apply Hs1.
Qed.

Lemma expire_ok t struck s now :
  strikes_ok t struck s → t ≤ now → strikes_ok now struck (take_expired_bans s now).2.
Proof.
  intros Hs Ht. apply (strikes_later t now) in Hs; [|done]. destruct Hs as [Hc He].
  split; cbn; [done|]. intros p until. set (expired := map _ _). clearbody expired.
  induction expired as [|q l IH]; cbn; [apply He|]. intros [_ E]%lookup_delete_Some. by apply IH.
Qed.

Lemma strike_run_ok t t1 struck s events :
  strikes_ok t struck s → times_in t t1 events →
  strikes_ok t1 (strike_run s struck events).1 (strike_run s struck events).2.
Proof.
  revert t struck s. induction events as [|[[p|] now] events IH]; intros t struck s Hs Ht.
  - by eapply strikes_later.
  - destruct Ht as [Hle Ht]. eapply IH; [by eapply strike_ok|done].
  - destruct Ht as [Hle Ht]. eapply IH; [by eapply expire_ok|done].
Qed.
End Strikes.

(** Whatever happens, a peer is banned only if it was struck 256 times within one
    minute, and no longer than ten minutes after the last of these strikes. *)
Theorem ban_is_earned `{HashIter} t0 t1 events peer now :
  times_in t0 t1 events →
  let r := strike_run (mkStrikes ∅ ∅) [] events in
  is_banned r.2 peer now = true →
  ∃ from to, from ≤ to < from + STRIKE_WINDOW ∧ now < to + STRIKE_BAN ∧
    STRIKE_LIMIT ≤ hits r.1 peer from to.
Proof.
  intros Ht r Hb.
  assert (strikes_ok t1 r.1 r.2) as Hs by (by apply (strike_run_ok t0)).
  unfold is_banned in Hb. destruct (ss_banned_until r.2 !! peer) as [until|] eqn:E; [|done].
  apply Z.ltb_lt in Hb. destruct (so_earned _ _ _ Hs peer until E) as (from & to & -> & Hw & Hh).
  by exists from, to.
Qed.

(** ** The theorems at concrete inputs *)

(** A number is repeated, from one of two authors. *)
Definition sample_numbers : list Numbered :=
  [mkNumbered "a" (Some 5) 10; mkNumbered "b" (Some 5) 10; mkNumbered "a" (Some 5) 11; mkNumbered "a" (Some 7) 12].

Lemma sequence_accepted_once_witness :
  let r := replay_run (H := key_order) (mkReplayGuard ∅ ∅) [] sample_numbers in
  NoDup r.1 ∧ r.1 = [("a", 7); ("b", 5); ("a", 5)]%string ∧
  ∀ a s, rg_authors r.2 !! a = Some s → Z.of_nat (size (sq_recent s)) ≤ REPLAY_WINDOW + 1.
Proof.
  destruct (sequence_accepted_once (H := key_order) {["a"; "b"]}%string sample_numbers) as [H1 H2].
  - by vm_compute.
  - repeat constructor; cbn; try set_solver; by intros n [= <-].
  - split_and!; [done|by vm_compute|done].
Defined.

Lemma served_once_per_cooldown_witness :
  let r := gate_run (new_cooldown_gate 10 2) [] [("k", 1); ("k", 5); ("k", 11)]%string in
  r.1 = [("k", 11); ("k", 1)]%string ∧
  ∀ i j k ti tj, (i < j)%nat → r.1 !! i = Some (k, ti) → r.1 !! j = Some (k, tj) → tj + 10 ≤ ti.
Proof.
  destruct (served_once_per_cooldown 10 2 0 20 [("k", 1); ("k", 5); ("k", 11)]%string) as [_ Hr]; [done|by cbn; lia|].
  split; [by vm_compute|exact Hr].
Defined.

(** 256 strikes at one instant. *)
Definition sample_strikes : list (StrikeOp * Instant) := repeat (Strike "p", 5) 256.

Lemma ban_is_earned_witness :
  ∃ from to, from ≤ to < from + STRIKE_WINDOW ∧ 5 < to + STRIKE_BAN ∧
    STRIKE_LIMIT ≤ hits (strike_run (H := key_order) (mkStrikes ∅ ∅) [] sample_strikes).1 "p" from to.
Proof.
  apply (ban_is_earned (H := key_order) 5 5 sample_strikes "p" 5); [|by vm_compute].
  by cbn.
Defined.

(** * Admission: connections

    Inbound connections have a ceiling, of which a share is kept for registered and
    configured peers; a banned peer has none in either direction.

    Source: node/src/middleware/connection_gate.rs. *)

Local Open Scope Z_scope.

Definition ConnectionId : Type := nat.

Inductive Refusal : Type := Banned | InboundFull | ReservedForRegistered.

Record InboundSlots := mkSlots {
  sl_max_inbound : Z;
  sl_registered_reserve : Z;
  sl_established : gmap ConnectionId bool;
}.
#[export] Instance eta_InboundSlots : Eta InboundSlots := λ s,
  mkSlots (sl_max_inbound s) (sl_registered_reserve s) (sl_established s).

Definition new_slots (max_inbound registered_reserve : Z) : InboundSlots :=
  mkSlots max_inbound (Z.min registered_reserve max_inbound) ∅.

Definition unregistered_connections (self : InboundSlots) : Z :=
  Z.of_nat (length (List.filter (λ '(_, registered), negb registered) (map_to_list (sl_established self)))).

(** [None] for [Ok(())]. *)
Definition admit_inbound (self : InboundSlots) (registered : bool) : option Refusal :=
  if sl_max_inbound self <=? map_len (sl_established self) then Some InboundFull
  else if negb registered &&
          (sl_max_inbound self - sl_registered_reserve self <=? unregistered_connections self)
  then Some ReservedForRegistered
  else None.

Record ConnectionGate := mkGate {
  cn_slots : InboundSlots;
  cn_reserved_peers : gset PeerId;
  cn_admitting : gmap ConnectionId bool;
}.
#[export] Instance eta_ConnectionGate : Eta ConnectionGate := λ g,
  mkGate (cn_slots g) (cn_reserved_peers g) (cn_admitting g).

Definition new_connection_gate (max_inbound registered_reserve : Z) (reserved_peers : gset PeerId) :
    ConnectionGate := mkGate (new_slots max_inbound registered_reserve) reserved_peers ∅.

Definition is_privileged (self : ConnectionGate) (registry : RegistryState) (peer : PeerId)
    (now : Instant) : bool :=
  bool_decide (peer ∈ cn_reserved_peers self) || class_is_registered (sender_class registry peer now).

(** A refusal for lack of an open slot queues a lookup of the peer. *)
Definition refuse (refused : list PeerId) (peer : PeerId) (refusal : Refusal) : list PeerId :=
  match refusal with ReservedForRegistered => note_refused_peer refused peer | _ => refused end.

Definition handle_established_inbound_connection (self : ConnectionGate) (registry : RegistryState)
    (strikes : StrikeState) (refused : list PeerId) (id : ConnectionId) (peer : PeerId)
    (now : Instant) : option Refusal * ConnectionGate * list PeerId :=
  if is_banned strikes peer now then (Some Banned, self, refuse refused peer Banned)
  else
    let registered := is_privileged self registry peer now in
    match admit_inbound (cn_slots self) registered with
    | Some refusal => (Some refusal, self, refuse refused peer refusal)
    | None => (None, self <| cn_admitting ::= insert id registered |>, refused)
    end.

Definition handle_established_outbound_connection (strikes : StrikeState) (peer : PeerId)
    (now : Instant) : option Refusal :=
  if is_banned strikes peer now then Some Banned else None.

Inductive SwarmEvent : Type :=
| ConnectionEstablished (id : ConnectionId)
| ConnectionClosed (id : ConnectionId)
| ListenFailure (id : ConnectionId).

(** [ConnectionEstablished] is that of a listener. *)
Definition on_swarm_event (self : ConnectionGate) (event : SwarmEvent) : ConnectionGate :=
  match event with
  | ConnectionEstablished id =>
      let registered := default false (cn_admitting self !! id) in
      self <| cn_admitting ::= delete id |>
           <| cn_slots ::= λ s, s <| sl_established ::= insert id registered |> |>
  | ConnectionClosed id => self <| cn_slots ::= λ s, s <| sl_established ::= delete id |> |>
  | ListenFailure id => self <| cn_admitting ::= delete id |>
  end.

(** ** What the gate guarantees *)

(** The gate as the swarm drives it: an admitted connection is established or fails
    before the next one is offered, and identifiers are not used twice. *)
Inductive gate_step : ConnectionGate → ConnectionGate → Prop :=
| gate_open g registry strikes refused id peer now g1 refused' :
    sl_established (cn_slots g) !! id = None → cn_admitting g !! id = None →
    handle_established_inbound_connection g registry strikes refused id peer now =
      (None, g1, refused') →
    gate_step g (on_swarm_event g1 (ConnectionEstablished id))
| gate_failed g registry strikes refused id peer now g1 refused' :
    cn_admitting g !! id = None →
    handle_established_inbound_connection g registry strikes refused id peer now =
      (None, g1, refused') →
    gate_step g (on_swarm_event g1 (ListenFailure id))
| gate_close g id : gate_step g (on_swarm_event g (ConnectionClosed id)).

Record slots_ok (max reserve : Z) (g : ConnectionGate) : Prop := {
  sk_max : sl_max_inbound (cn_slots g) = max;
  sk_reserve : sl_registered_reserve (cn_slots g) = Z.min reserve max;
  sk_total : map_len (sl_established (cn_slots g)) ≤ max;
  sk_open : unregistered_connections (cn_slots g) ≤ max - Z.min reserve max;
}.

Lemma unregistered_insert (s : InboundSlots) id (registered : bool) :
  sl_established s !! id = None →
  unregistered_connections (s <| sl_established ::= insert id registered |>) =
  unregistered_connections s + if registered then 0 else 1.
Proof.
  intros E. unfold unregistered_connections. cbn.
  assert (∀ l l' : list (ConnectionId * bool), l ≡ₚ l' →
    length (List.filter (λ '(_, r), negb r) l) = length (List.filter (λ '(_, r), negb r) l')) as Hperm.
  { intros l l' Hp. induction Hp; cbn; repeat case_match; cbn; congruence. }
  rewrite (Hperm _ _ (map_to_list_insert _ _ registered E)). cbn. destruct registered; cbn [negb length]; lia.
Qed.

Lemma unregistered_delete (s : InboundSlots) id :
  unregistered_connections (s <| sl_established ::= delete id |>) ≤ unregistered_connections s.
Proof.
  destruct (sl_established s !! id) as [r|] eqn:E.
  - assert (s = (s <| sl_established ::= delete id |>) <| sl_established ::= insert id r |>) as Hs.
    { destruct s. cbn in *. by rewrite insert_delete_id. }
    rewrite Hs at 2. rewrite unregistered_insert by apply lookup_delete_eq. destruct r; lia.
  - destruct s. cbn in *. unfold unregistered_connections. cbn. by rewrite delete_id.
Qed.

Lemma gate_step_ok max reserve g g' : slots_ok max reserve g → gate_step g g' → slots_ok max reserve g'.
Proof.
  intros [E1 E2 Ht Ho]. destruct 1 as
    [g registry strikes refused cid peer now g1 refused' Eid Ead Hh
    |g registry strikes refused cid peer now g1 refused' Ead Hh|g cid];
    unfold handle_established_inbound_connection in *.
  - destruct (is_banned strikes peer now); [done|].
    destruct (admit_inbound (cn_slots g) _) eqn:Ea; [done|]. injection Hh as <- <-.
    unfold admit_inbound in Ea. rewrite E1, E2 in Ea.
    set (registered := is_privileged g registry peer now) in *.
    destruct (Z.leb_spec max (map_len (sl_established (cn_slots g)))); [done|].
    match goal with |- slots_ok _ _ ?g' => assert (g' =
      g <| cn_slots ::= λ s, s <| sl_established ::= insert cid registered |> |>) as -> end.
    { destruct g. cbn in *. rewrite lookup_insert_eq. cbn. by rewrite delete_insert_id. }
    split; cbn; [done|done| |].
    + unfold map_len in *. rewrite map_size_insert_None by done. lia.
    + etrans; [apply Z.eq_le_incl, (unregistered_insert (cn_slots g) cid registered Eid)|]. destruct registered; cbn in Ea; [lia|].
      destruct (Z.leb_spec (max - Z.min reserve max) (unregistered_connections (cn_slots g))); [done|lia].
  - destruct (is_banned strikes peer now); [done|].
    destruct (admit_inbound (cn_slots g) _); [done|]. by injection Hh as <- <-.
  - split; cbn; [done|done| |].
    + unfold map_len in *. rewrite map_size_delete. destruct (_ !! _); unfold id; lia.
    + etrans; [apply (unregistered_delete (cn_slots g) cid)|done].
Qed.

(** However connections come and go, at most [max] are open at once, and peers that are
    neither registered nor configured hold at most the part that is not reserved. *)
Theorem connection_slots_kept max reserve reserved_peers g :
  0 ≤ max → rtc gate_step (new_connection_gate max reserve reserved_peers) g →
  map_len (sl_established (cn_slots g)) ≤ max ∧
  unregistered_connections (cn_slots g) ≤ max - Z.min reserve max.
Proof.
  intros Hm Hr. assert (slots_ok max reserve g) as [_ _ ? ?]; [|done].
  remember (new_connection_gate max reserve reserved_peers) as g0 eqn:E0.
  assert (slots_ok max reserve g0) as Hok.
  { subst g0. split; cbn; [done|done|by unfold map_len; rewrite map_size_empty|].
    unfold unregistered_connections. cbn. rewrite map_to_list_empty. cbn. lia. }
  clear E0. induction Hr as [|a b c Hs _ IH]; [done|]. by apply IH, (gate_step_ok _ _ a).
Qed.

(** One slot of two is reserved, and an unregistered peer connects. *)
Definition sample_gate : ConnectionGate := new_connection_gate 2 1 ∅.
Definition sample_connected : ConnectionGate :=
  on_swarm_event
    (handle_established_inbound_connection sample_gate empty_registry (mkStrikes ∅ ∅) [] 1%nat "p" 0).1.2
    (ConnectionEstablished 1%nat).

Lemma connection_slots_kept_witness :
  map_len (sl_established (cn_slots sample_connected)) ≤ 2 ∧
  unregistered_connections (cn_slots sample_connected) ≤ 2 - Z.min 1 2 ∧
  unregistered_connections (cn_slots sample_connected) = 1.
Proof.
  destruct (connection_slots_kept 2 1 ∅ sample_connected) as [H1 H2]; [lia| |].
  - apply rtc_once, (gate_open sample_gate empty_registry (mkStrikes ∅ ∅) [] 1%nat "p" 0 _ []); by vm_compute.
  - by split_and!; [..|vm_compute].
Defined.
