(* ===== verification/RegistryProps.v ===== *)
(** * What the peer registry guarantees

    A peer has a class only by a recent answer of the chain; a key has one peer and a
    peer one key; lookups in flight are bounded.

    Source: node/src/p2p_admission/registry.rs. *)

From stdpp Require Import base list strings gmap sets.
From S2P Require Import Prelude Float64 AdmissionGates PeerRegistry.

Local Open Scope Z_scope.

(** ** Operations *)

Inductive RegistryOp : Type :=
| Observe (peer : PeerId) (key : OperatorKey) (issued_at : Z)
| Trust (peer : PeerId) (key : OperatorKey)
| PlanOperator (peer : PeerId) (key : OperatorKey)
| PlanDueOperators
| RecordStake (peer : PeerId) (key : OperatorKey) (staked : option bool)
| SeedOperator (peer : PeerId) (key : OperatorKey) (issued_at : Z)
| SeedCommittee (peer : PeerId)
| PlanDueCommittee
| PlanRefresh (peer : option PeerId)
| PlanLookup (peer : PeerId) (budget : LookupBudget)
| RecordVerifiers (verifiers : option (list bytes))
| RecordCommittee (peer : PeerId) (registered : option bool).

Section Registry.
Context `{HashIter}.

Definition apply_op (s : RegistryState) (op : RegistryOp) (now : Instant) : RegistryState :=
  match op with
  | Observe p k i => (observe_operator_binding s p k i now).2
  | Trust p k => (trust_operator_binding s p k).2
  | PlanOperator p k => (claim_operator_refresh s p k now).2
  | PlanDueOperators => (plan_due_operator_refreshes s now).2
  | RecordStake p k v => (record_operator_stake s p k v now).2
  | SeedOperator p k i => seed_verified_operator s p k i now
  | SeedCommittee p => seed_verified_committee_peer s p now
  | PlanDueCommittee => (plan_due_committee_refreshes s now).2
  | PlanRefresh p => (plan_refresh s p now).2
  | PlanLookup p b => (claim_committee_lookup s p b now).2
  | RecordVerifiers vs => record_verifier_set s vs now
  | RecordCommittee p v => (record_committee_peer s p v now).2
  end.

(** The registry after a history of operations, the latest first. *)
Fixpoint registry_after (history : list (RegistryOp * Instant)) : RegistryState :=
  match history with
  | [] => empty_registry
  | (op, now) :: history => apply_op (registry_after history) op now
  end.

(** ** Evidence in the history *)

(** The latest answer on a committee member, or what was restored before any. *)
Fixpoint committee_evidence (peer : PeerId) (e : CommitteeEntry)
    (history : list (RegistryOp * Instant)) : Prop :=
  match history with
  | [] => False
  | (op, t) :: history =>
      e = mkCommitteeEntry (ce_registered e) t ∧ op = RecordCommittee peer (Some (ce_registered e)) ∨
      e = mkCommitteeEntry true (seeded_fetched_at t COMMITTEE_STALE_LIMIT) ∧ op = SeedCommittee peer ∨
      (∀ v, op ≠ RecordCommittee peer (Some v)) ∧ committee_evidence peer e history
  end.

(** The latest answer on an operator's stake, or what was restored before any. *)
Fixpoint stake_evidence (peer : PeerId) (key : OperatorKey) (staked : bool) (at_ : Instant)
    (history : list (RegistryOp * Instant)) : Prop :=
  match history with
  | [] => False
  | (op, t) :: history =>
      at_ = t ∧ op = RecordStake peer key (Some staked) ∨
      at_ = seeded_fetched_at t OPERATOR_STAKE_STALE_LIMIT ∧ staked = true ∧
        (∃ i, op = SeedOperator peer key i) ∨
      (∀ v, op ≠ RecordStake peer key (Some v)) ∧ stake_evidence peer key staked at_ history
  end.

(** A binding is signed or configured. *)
Definition binding_evidence (peer : PeerId) (key : OperatorKey)
    (history : list (RegistryOp * Instant)) : Prop :=
  ∃ op t, (op, t) ∈ history ∧
    ((∃ i, op = Observe peer key i ∨ op = SeedOperator peer key i) ∨ op = Trust peer key).

(** The verifier set of the latest answer. *)
Fixpoint verifiers_of (history : list (RegistryOp * Instant)) : gset bytes :=
  match history with
  | [] => ∅
  | (RecordVerifiers (Some vs), _) :: _ => list_to_set vs
  | _ :: history => verifiers_of history
  end.

Definition binding_justified (peer : PeerId) (b : OperatorBinding)
    (history : list (RegistryOp * Instant)) : Prop :=
  binding_evidence peer (ob_pubkey b) history ∧
  ∀ v, ob_staked b = Some v →
    ∃ t, ob_fetched_at b = Some t ∧ stake_evidence peer (ob_pubkey b) v t history.

Record registry_ok (history : list (RegistryOp * Instant)) (s : RegistryState) : Prop := {
  ro_committee : ∀ p e, rg_committee s !! p = Some e → committee_evidence p e history;
  ro_verifiers : rg_verifiers s = verifiers_of history;
  ro_binding : ∀ p b, rg_operators s !! p = Some b → binding_justified p b history;
  ro_owned : ∀ p b, rg_operators s !! p = Some b → rg_operator_owner s !! ob_pubkey b = Some p;
  ro_bound : ∀ k p, rg_operator_owner s !! k = Some p →
    ∃ b, rg_operators s !! p = Some b ∧ ob_pubkey b = k;
  ro_committee_in_flight : set_len (rg_committee_in_flight s) ≤ COMMITTEE_MAX_IN_FLIGHT_LOOKUPS;
  ro_operators_in_flight : set_len (rg_operators_in_flight s) ≤ OPERATOR_MAX_IN_FLIGHT_LOOKUPS;
}.

(** ** Evidence lasts *)

(** Operations other than answers of the chain. *)
Definition quiet (op : RegistryOp) : Prop :=
  match op with
  | RecordCommittee _ (Some _) | RecordStake _ _ (Some _) | RecordVerifiers (Some _) => False
  | _ => True
  end.

Lemma committee_lasts p e op t history :
  (∀ v, op ≠ RecordCommittee p (Some v)) → committee_evidence p e history →
  committee_evidence p e ((op, t) :: history).
Proof. cbn. auto. Qed.

Lemma stake_lasts p k v at_ op t history :
  (∀ v, op ≠ RecordStake p k (Some v)) → stake_evidence p k v at_ history →
  stake_evidence p k v at_ ((op, t) :: history).
Proof. cbn. auto. Qed.

Lemma binding_lasts p k ev history : binding_evidence p k history → binding_evidence p k (ev :: history).
Proof. intros (op & t & Hin & Hop). exists op, t. split; [by right|done]. Qed.

Lemma justified_lasts p b op t history :
  (∀ v, op ≠ RecordStake p (ob_pubkey b) (Some v)) → binding_justified p b history →
  binding_justified p b ((op, t) :: history).
Proof.
  intros Hop [Hb Hs]. split; [by apply binding_lasts|]. intros v Ev.
  destruct (Hs v Ev) as (f & Ef & Hf). exists f. split; [done|by apply stake_lasts].
Qed.

Lemma quiet_verifiers op t history : quiet op → verifiers_of ((op, t) :: history) = verifiers_of history.
Proof. by destruct op as [| | | | | | | | | |[]|]. Qed.

(** The registrations as they were, and lookups in flight within their bounds. *)
Record only_claims (s s' : RegistryState) : Prop := {
  oc_verifiers : rg_verifiers s' = rg_verifiers s;
  oc_committee : rg_committee s' = rg_committee s;
  oc_operators : rg_operators s' = rg_operators s;
  oc_owner : rg_operator_owner s' = rg_operator_owner s;
  oc_committee_in_flight :
    set_len (rg_committee_in_flight s) ≤ COMMITTEE_MAX_IN_FLIGHT_LOOKUPS →
    set_len (rg_committee_in_flight s') ≤ COMMITTEE_MAX_IN_FLIGHT_LOOKUPS;
  oc_operators_in_flight :
    set_len (rg_operators_in_flight s) ≤ OPERATOR_MAX_IN_FLIGHT_LOOKUPS →
    set_len (rg_operators_in_flight s') ≤ OPERATOR_MAX_IN_FLIGHT_LOOKUPS;
}.

#[local] Instance only_claims_preorder : PreOrder only_claims.
Proof.
  split; [by split|]. intros a b c [] []. split; congruence || auto.
Qed.

Lemma set_len_remove (x : PeerId) f : set_len (f ∖ {[ x ]}) ≤ set_len f.
Proof. unfold set_len. assert (size (f ∖ {[ x ]}) ≤ size f)%nat by (apply subseteq_size; set_solver). lia. Qed.

Lemma set_len_insert (x : PeerId) f : set_len ({[ x ]} ∪ f) ≤ set_len f + 1.
Proof.
  pose proof (set_len_remove x f). unfold set_len in *. rewrite size_union_alt, size_singleton. lia.
Qed.

Lemma quiet_claims op t history s s' :
  registry_ok history s → only_claims s s' → quiet op → registry_ok ((op, t) :: history) s'.
Proof.
  intros [Hc Hv Hb Ho Hd Hi Hj] [E1 E2 E3 E4 Hci Hoi] Hq.
  split; rewrite ?E1, ?E2, ?E3, ?E4; auto.
  - intros p e E. apply committee_lasts; [|by apply Hc]. intros v ->. done.
  - by rewrite quiet_verifiers.
  - intros p b E. apply justified_lasts; [|by apply Hb]. intros v ->. done.
Qed.

(** ** Claims *)

Lemma take_lookup_only s s' (b : DiscoveryBudget) :
  s' = s <| rg_committee_discovery := b |> ∨ s' = s <| rg_neighbour_discovery := b |> ∨
  s' = s <| rg_refused_discovery := b |> ∨ s' = s <| rg_operator_discovery := b |> → only_claims s s'.
Proof. by intros [->|[->|[->| ->]]]. Qed.

Lemma admit_lookup_ok s budget now :
  only_claims s (admit_lookup s budget now).2 ∧
  rg_committee_in_flight (admit_lookup s budget now).2 = rg_committee_in_flight s ∧
  ((admit_lookup s budget now).1 = true →
   set_len (rg_committee_in_flight s) < COMMITTEE_MAX_IN_FLIGHT_LOOKUPS).
Proof.
  unfold admit_lookup, COMMITTEE_MAX_UNKNOWN_IN_FLIGHT, COMMITTEE_MAX_IN_FLIGHT_LOOKUPS.
  destruct budget; case_match eqn:E; try (destruct (take_lookup _ _ _)); cbn;
    (split_and!; [by split|done|apply Z.ltb_lt in E || done; lia]).
Qed.

Lemma claim_committee_ok s peer budget now : only_claims s (claim_committee_lookup s peer budget now).2.
Proof.
  unfold claim_committee_lookup. destruct (_ || _); [done|].
  assert (∀ known : bool, only_claims s (let '(ok, s1) :=
      if known then (set_len (rg_committee_in_flight s) <? COMMITTEE_MAX_IN_FLIGHT_LOOKUPS, s)
      else admit_lookup s budget now in
    (ok, if ok : bool then s1 <| rg_committee_in_flight ::= λ f, {[ peer ]} ∪ f |> else s1)).2) as Hclaim.
  { intros known. assert (∀ s1, only_claims s s1 → rg_committee_in_flight s1 = rg_committee_in_flight s →
      set_len (rg_committee_in_flight s) < COMMITTEE_MAX_IN_FLIGHT_LOOKUPS →
      only_claims s (s1 <| rg_committee_in_flight ::= λ f, {[ peer ]} ∪ f |>)) as Hadd.
    { intros s1 [] E Hlt. split; cbn; auto. intros _. rewrite E.
      pose proof (set_len_insert peer (rg_committee_in_flight s)). lia. }
    destruct known.
    - destruct (Z.ltb_spec (set_len (rg_committee_in_flight s)) COMMITTEE_MAX_IN_FLIGHT_LOOKUPS); cbn; [|done].
      by apply Hadd.
    - destruct (admit_lookup_ok s budget now) as (Ho & Ei & Hlt). destruct (admit_lookup s budget now) as [[] s1];
        cbn in *; [|done]. apply Hadd; auto. }
  destruct (rg_committee s !! peer) as [e|]; [|apply (Hclaim false)].
  destruct (committee_needs_refresh e now); [apply (Hclaim (ce_registered e))|done].
Qed.

Lemma claim_operator_ok s peer pubkey now : only_claims s (claim_operator_refresh s peer pubkey now).2.
Proof.
  unfold claim_operator_refresh. case_bool_decide; [done|].
  destruct (rg_operators s !! peer) as [b|]; [|done].
  destruct (negb _); [done|]. destruct (negb _); [done|].
  assert (∀ d, set_len (rg_operators_in_flight s) < OPERATOR_MAX_IN_FLIGHT_LOOKUPS →
    only_claims s (s <| rg_operator_discovery := d |> <| rg_operators_in_flight ::= λ f, {[ peer ]} ∪ f |>))
    as Hadd.
  { intros d Hlt. split; cbn; auto. intros _.
    pose proof (set_len_insert peer (rg_operators_in_flight s)). lia. }
  cbn zeta. destruct (confirmed b || ob_trusted b).
  - destruct (Z.leb_spec OPERATOR_MAX_IN_FLIGHT_LOOKUPS (set_len (rg_operators_in_flight s))); [done|].
    destruct s. by apply Hadd.
  - destruct (Z.leb_spec OPERATOR_MAX_UNKNOWN_IN_FLIGHT (set_len (rg_operators_in_flight s))); [done|].
    destruct (take_lookup _ _ _) as [[] d]; cbn; [|by split].
    apply Hadd. unfold OPERATOR_MAX_UNKNOWN_IN_FLIGHT, OPERATOR_MAX_IN_FLIGHT_LOOKUPS in *. lia.
Qed.

Lemma claim_each_ok due s now : only_claims s (claim_each s due now).2.
Proof.
  revert s. induction due as [|[p k] due IH]; intros s; cbn; [done|].
  pose proof (claim_operator_ok s p k now) as H1. destruct (claim_operator_refresh s p k now) as [ok s1].
  specialize (IH s1). destruct (claim_each s1 due now). by transitivity s1.
Qed.

Lemma claim_verifiers_ok s now : only_claims s (claim_verifier_set_refresh s now).2.
Proof. unfold claim_verifier_set_refresh. cbn zeta. by destruct (negb _ || _). Qed.

Lemma plan_refresh_ok s peer now : only_claims s (plan_refresh s peer now).2.
Proof.
  unfold plan_refresh. pose proof (claim_verifiers_ok s now) as H1.
  destruct (claim_verifier_set_refresh s now) as [ok s1]. cbn in H1. destruct peer as [p|]; [|done].
  pose proof (claim_committee_ok s1 p Candidate now) as H2.
  destruct (claim_committee_lookup s1 p Candidate now) as [ok' s2]. by transitivity s1.
Qed.

Lemma size_list_le (l : list PeerId) : (size (list_to_set l : gset PeerId) ≤ length l)%nat.
Proof.
  induction l as [|x l IH]; cbn; [by rewrite size_empty|].
  rewrite size_union_alt, size_singleton.
  assert (size (list_to_set l ∖ {[ x ]} : gset PeerId) ≤ size (list_to_set l : gset PeerId))%nat
    by (apply subseteq_size; set_solver). lia.
Qed.

Lemma plan_due_committee_ok s now : only_claims s (plan_due_committee_refreshes s now).2.
Proof.
  split; cbn; try done. intros Hle. set (due := map _ _). set (free := Z.to_nat _).
  assert (size (list_to_set (take free due) : gset PeerId) ≤ free)%nat.
  { etrans; [apply size_list_le|]. rewrite length_take. lia. }
  assert (size (list_to_set (take free due) ∖ rg_committee_in_flight s) ≤
    size (list_to_set (take free due) : gset PeerId))%nat by (apply subseteq_size; set_solver).
  unfold set_len in *. rewrite size_union_alt. unfold free in *. lia.
Qed.

(** ** Bindings *)

Section Bindings.
Context (P : PeerId → OperatorBinding → Prop).

Record bindings_ok (s : RegistryState) : Prop := {
  bk_all : ∀ p b, rg_operators s !! p = Some b → P p b;
  bk_owned : ∀ p b, rg_operators s !! p = Some b → rg_operator_owner s !! ob_pubkey b = Some p;
  bk_bound : ∀ k p, rg_operator_owner s !! k = Some p →
    ∃ b, rg_operators s !! p = Some b ∧ ob_pubkey b = k;
}.

(** While a key moves to a peer: everything but the two is in order. *)
Record moving (peer : PeerId) (pubkey : OperatorKey) (s : RegistryState) : Prop := {
  mv_all : ∀ p b, rg_operators s !! p = Some b → P p b;
  mv_owned : ∀ p b, rg_operators s !! p = Some b → p ≠ peer →
    rg_operator_owner s !! ob_pubkey b = Some p ∧ ob_pubkey b ≠ pubkey;
  mv_bound : ∀ k p, rg_operator_owner s !! k = Some p → k ≠ pubkey →
    p ≠ peer ∧ ∃ b, rg_operators s !! p = Some b ∧ ob_pubkey b = k;
}.

Lemma evict_moving peer pubkey s now : moving peer pubkey s → moving peer pubkey (evict_bindings s peer now).
Proof.
  intros [Ha Ho Hb]. unfold evict_bindings. destruct (_ && _); [|done].
  set (keep := λ (_ : PeerId) b, binding_is_registered b now || ob_trusted b).
  split; cbn; fold keep.
  - intros p b [E _]%retain_lookup. by apply Ha.
  - intros p b E Hne. pose proof E as [E' Hk]%retain_lookup. destruct (Ho p b E' Hne) as [Eo Hk'].
    split; [|done]. apply retain_lookup. split; [done|]. apply contains_key_true. by exists b.
  - intros k p [E Hc]%retain_lookup Hne. destruct (Hb k p E Hne) as (Hp & b & Eb & Hk). split; [done|].
    apply contains_key_true in Hc as [b' Eb']. pose proof Eb' as [E' _]%retain_lookup.
    exists b'. split; [done|congruence].
Qed.

(** The key arrives. *)
Lemma arrive peer pubkey b s :
  moving peer pubkey s → P peer b → ob_pubkey b = pubkey →
  bindings_ok (s <| rg_operator_owner ::= insert pubkey peer |> <| rg_operators ::= insert peer b |>).
Proof.
  intros [Ha Ho Hb] HP Ek. split; cbn.
  - intros p b'. destruct (decide (p = peer)) as [->|Hne].
    + rewrite lookup_insert_eq. by intros [= <-].
    + rewrite lookup_insert_ne by done. apply Ha.
  - intros p b'. destruct (decide (p = peer)) as [->|Hne].
    + rewrite lookup_insert_eq. intros [= <-]. rewrite Ek. by rewrite lookup_insert_eq.
    + rewrite lookup_insert_ne by done. intros E. destruct (Ho p b' E Hne) as [Eo Hk].
      by rewrite lookup_insert_ne.
  - intros k p. destruct (decide (k = pubkey)) as [->|Hne].
    + rewrite lookup_insert_eq. intros [= <-]. exists b. by rewrite lookup_insert_eq.
    + rewrite lookup_insert_ne by done. intros E. destruct (Hb k p E Hne) as (Hp & b' & Eb & Hk).
      exists b'. by rewrite lookup_insert_ne.
Qed.

(** A peer that is bound to the key keeps it. *)
Lemma rebind peer previous b s :
  bindings_ok s → rg_operators s !! peer = Some previous → P peer b → ob_pubkey b = ob_pubkey previous →
  bindings_ok (s <| rg_operators ::= insert peer b |> <| rg_operator_owner ::= insert (ob_pubkey previous) peer |>).
Proof.
  intros [Ha Ho Hb] E HP Ek. apply (arrive peer (ob_pubkey previous) b s); [|done|done]. split; [done| |].
  - intros p b' E' Hne. split; [by apply Ho|]. intros Hk. apply Hne.
    pose proof (Ho p b' E') as E1. rewrite Hk, (Ho peer previous E) in E1. by injection E1.
  - intros k p Eo Hne. destruct (Hb k p Eo) as (b' & Eb & Hk). split; [|by exists b'].
    intros ->. rewrite E in Eb. injection Eb as ->. by destruct Hne.
Qed.

(** Once its previous owner is gone, only the peer itself may hold the key. *)
Lemma release_released s peer pubkey issued_at s1 :
  bindings_ok s → release_owner s peer pubkey issued_at = Some s1 →
  s1 = s ∧ rg_operator_owner s !! pubkey = Some peer ∨
  (∀ p b, rg_operators s1 !! p = Some b →
     P p b ∧ rg_operator_owner s1 !! ob_pubkey b = Some p ∧ ob_pubkey b ≠ pubkey) ∧
  (∀ k p, rg_operator_owner s1 !! k = Some p → k ≠ pubkey →
     ∃ b, rg_operators s1 !! p = Some b ∧ ob_pubkey b = k).
Proof.
  intros [Ha Ho Hb]. unfold release_owner. destruct (rg_operator_owner s !! pubkey) as [q|] eqn:Eq.
  - case_bool_decide as Hq; [intros [= <-]; subst; by left|].
    intros Hr. right. assert (s1 = s <| rg_operators ::= delete q |>) as -> by (repeat case_match; congruence).
    destruct (Hb pubkey q Eq) as (bq & Ebq & Hkq). split; cbn.
    + intros p b [Hne E]%lookup_delete_Some. split_and!; [by apply Ha|by apply Ho|].
      intros Hk. pose proof (Ho p b E) as E'. rewrite Hk, Eq in E'. congruence.
    + intros k p E Hne. destruct (Hb k p E) as (b & Eb & Hk). exists b. split; [|done].
      apply lookup_delete_Some. split; [|done]. intros <-. congruence.
  - intros [= <-]. right. split.
    + intros p b E. split_and!; [by apply Ha|by apply Ho|]. intros Hk. pose proof (Ho p b E). congruence.
    + intros k p E _. by apply Hb.
Qed.

Lemma observe_ok s peer pubkey issued_at now :
  bindings_ok s → P peer (mkBinding pubkey issued_at None None false) →
  (∀ b, P peer b → P peer (b <| ob_issued_at ::= Z.max issued_at |>)) →
  bindings_ok (observe_operator_binding s peer pubkey issued_at now).2.
Proof.
  intros Hs HP Hissued. unfold observe_operator_binding.
  destruct (release_owner s peer pubkey issued_at) as [s1|] eqn:Er; [|done].
  destruct (release_released _ _ _ _ _ Hs Er) as [[-> Eo]|[HF1 HF2]].
  - destruct (bk_bound _ Hs pubkey peer Eo) as (b & Eb & <-). rewrite Eb.
    rewrite bool_decide_eq_true_2 by done. cbn [snd].
    apply (rebind peer b); [done|done| |done]. by apply Hissued, (bk_all _ Hs).
  - destruct (rg_operators s1 !! peer) as [previous|] eqn:Ep.
    + destruct (HF1 peer previous Ep) as (_ & Eo & Hk). rewrite bool_decide_eq_false_2 by done.
      rewrite bool_decide_eq_true_2 by done. cbn [snd]. unfold insert_binding.
      apply arrive; [|done|done]. apply evict_moving. split; cbn.
      * intros p b E. by destruct (HF1 p b E).
      * intros p b E Hne. destruct (HF1 p b E) as (_ & Eo' & Hk'). split; [|done].
        apply lookup_delete_Some. split; [|done]. intros Heq. rewrite Heq in Eo. congruence.
      * intros k p [Hne E]%lookup_delete_Some Hk'. destruct (HF2 k p E Hk') as (b & Eb & Hkb).
        split; [|by exists b]. intros ->. rewrite Ep in Eb. congruence.
    + cbn [snd]. unfold insert_binding. apply arrive; [|done|done]. apply evict_moving. split.
      * intros p b E. by destruct (HF1 p b E).
      * intros p b E _. by destruct (HF1 p b E).
      * intros k p E Hk'. destruct (HF2 k p E Hk') as (b & Eb & Hkb). split; [|by exists b]. congruence.
Qed.

(** A change of a binding that keeps its key. *)
Lemma update_ok s peer binding b :
  bindings_ok s → rg_operators s !! peer = Some binding → P peer b → ob_pubkey b = ob_pubkey binding →
  bindings_ok (s <| rg_operators ::= insert peer b |>).
Proof.
  intros Hs E HP Hk. pose proof (rebind peer binding b s Hs E HP Hk) as Hr.
  assert (<[ob_pubkey binding := peer]> (rg_operator_owner s) = rg_operator_owner s) as Eo
    by (apply insert_id; by apply (bk_owned _ Hs)).
  destruct s; cbn in *. by rewrite Eo in Hr.
Qed.

Lemma trust_ok s peer pubkey :
  bindings_ok s → P peer (mkBinding pubkey 0 None None true) →
  (∀ b, P peer b → P peer (b <| ob_trusted := true |>)) →
  bindings_ok (trust_operator_binding s peer pubkey).2.
Proof.
  intros Hs HP Htrust. unfold trust_operator_binding.
  destruct (trust_conflict s peer pubkey) as [|] eqn:Ec; [done|]. unfold trust_conflict in Ec. cbn [snd].
  destruct (rg_operators s !! peer) as [b|] eqn:Eb.
  - case_bool_decide as Hk; [|done]. subst pubkey.
    apply (rebind peer b (b <| ob_trusted := true |>) s); [done|done| |done]. by apply Htrust, (bk_all _ Hs).
  - apply arrive; [|done|done]. destruct (rg_operator_owner s !! pubkey) as [q|] eqn:Eq.
    + case_bool_decide as Hq; [|done]. subst q. destruct (bk_bound _ Hs _ _ Eq) as (b & Eb' & _). congruence.
    + destruct Hs as [Ha Ho Hb]. split; [done| |].
      * intros p b E _. split; [by apply Ho|]. intros Hk. pose proof (Ho p b E). congruence.
      * intros k p E _. destruct (Hb k p E) as (b & E' & Hk). split; [congruence|by exists b].
Qed.
End Bindings.

(** ** Every operation *)

Lemma bindings_of history s : registry_ok history s → bindings_ok (λ p b, binding_justified p b history) s.
Proof. by intros []. Qed.

Lemma bindings_weaken (P Q : PeerId → OperatorBinding → Prop) s :
  (∀ p b, P p b → Q p b) → bindings_ok P s → bindings_ok Q s.
Proof. intros HPQ [Ha Ho Hb]. split; eauto. Qed.

(** A quiet operation on the bindings alone. *)
Lemma quiet_bindings op t history s s' :
  registry_ok history s → quiet op →
  rg_verifiers s' = rg_verifiers s → rg_committee s' = rg_committee s →
  rg_committee_in_flight s' = rg_committee_in_flight s →
  set_len (rg_operators_in_flight s') ≤ set_len (rg_operators_in_flight s) →
  bindings_ok (λ p b, binding_justified p b ((op, t) :: history)) s' →
  registry_ok ((op, t) :: history) s'.
Proof.
  intros [Hc Hv _ _ _ Hi Hj] Hq E1 E2 E3 Hle [Ha Ho Hb].
  split; rewrite ?E1, ?E2, ?E3; [|by rewrite quiet_verifiers|done|done|done|done|lia].
  intros p e E. apply committee_lasts; [|by apply Hc]. intros v ->. done.
Qed.

Lemma justified_quiet op t history p b :
  quiet op → binding_justified p b history → binding_justified p b ((op, t) :: history).
Proof. intros Hq. apply justified_lasts. intros v ->. done. Qed.

Lemma justified_new op t history p k i trusted :
  ((∃ i, op = Observe p k i ∨ op = SeedOperator p k i) ∨ op = Trust p k) →
  binding_justified p (mkBinding k i None None trusted) ((op, t) :: history).
Proof. intros Hop. split; [|done]. exists op, t. split; [by left|done]. Qed.

(** What a binding operation leaves alone. *)
Lemma observe_frame s p k i now :
  let s' := (observe_operator_binding s p k i now).2 in
  rg_verifiers s' = rg_verifiers s ∧ rg_committee s' = rg_committee s ∧
  rg_committee_in_flight s' = rg_committee_in_flight s ∧
  rg_operators_in_flight s' = rg_operators_in_flight s.
Proof.
  unfold observe_operator_binding, release_owner, insert_binding, evict_bindings. cbn zeta.
  repeat (case_match; try done); simplify_eq; done.
Qed.

Lemma observe_step op t history s p k i :
  registry_ok history s → (∃ i, op = Observe p k i ∨ op = SeedOperator p k i) →
  registry_ok ((op, t) :: history) (observe_operator_binding s p k i t).2.
Proof.
  intros Hs Hop. assert (quiet op) as Hq by (by destruct Hop as (? & [-> | ->])).
  destruct (observe_frame s p k i t) as (? & ? & ? & Ef). apply (quiet_bindings _ _ _ s); try done; [by rewrite Ef|].
  apply observe_ok; [|by apply justified_new; left|by intros b []].
  eapply bindings_weaken, bindings_of, Hs. intros q b. by apply justified_quiet.
Qed.

Lemma seed_operator_step t history s p k i :
  registry_ok history s →
  registry_ok ((SeedOperator p k i, t) :: history) (seed_verified_operator s p k i t).
Proof.
  intros Hs. pose proof (observe_step (SeedOperator p k i) t history s p k i Hs) as Ho.
  unfold seed_verified_operator. destruct (observe_operator_binding s p k i t) as [r s1]. cbn [snd] in Ho.
  assert (registry_ok ((SeedOperator p k i, t) :: history) s1) as Hs1 by (apply Ho; eauto). clear Ho.
  destruct (rg_operators s1 !! p) as [b|] eqn:E; [|done].
  destruct (bool_decide (ob_pubkey b = k)) eqn:Ek; [|done].
  destruct (bool_decide (ob_staked b = None)); [|done]. brefl. cbn [andb]. subst k.
  pose proof (bindings_of _ _ Hs1) as Hb. destruct Hs1 as [Hc Hv Hj _ _ Hi Hf].
  assert (bindings_ok (λ p0 b0, binding_justified p0 b0 ((SeedOperator p (ob_pubkey b) i, t) :: history))
    (s1 <| rg_operators ::= insert p (b <| ob_staked := Some true |>
       <| ob_fetched_at := Some (seeded_fetched_at t OPERATOR_STAKE_STALE_LIMIT) |>) |>)) as [Ha' Ho' Hb'].
  { apply (update_ok _ s1 p b); [done|done| |done]. split; [by apply (Hj p b E)|].
    intros v [= <-]. eexists. split; [done|]. right. left. eauto. }
  by split.
Qed.

(** An answer on a stake is evidence for the binding it is about, and no other answer
    on that binding is later. *)
Lemma record_stake_step t history s p k v :
  registry_ok history s →
  registry_ok ((RecordStake p k v, t) :: history) (record_operator_stake s p k v t).2.
Proof.
  intros Hs. pose proof (bindings_of _ _ Hs) as Hb. destruct Hs as [Hc Hv Hj Ho Hd Hi Hf].
  assert (set_len (rg_operators_in_flight s ∖ {[ p ]}) ≤ OPERATOR_MAX_IN_FLIGHT_LOOKUPS) as Hf'
    by (pose proof (set_len_remove p (rg_operators_in_flight s)); lia).
  assert (∀ q e, rg_committee s !! q = Some e → committee_evidence q e ((RecordStake p k v, t) :: history))
    as Hc' by (intros q e E; apply committee_lasts; [done|by apply Hc]).
  unfold record_operator_stake. cbn zeta.
  change (rg_operators (s <| rg_operators_in_flight ::= _ |>)) with (rg_operators s).
  assert (∀ q b, rg_operators s !! q = Some b → (q = p → ob_pubkey b = k → v = None) →
    binding_justified q b ((RecordStake p k v, t) :: history)) as Hother.
  { intros q b E Hne. apply justified_lasts; [|by apply Hj]. intros w [= -> -> ->]. by specialize (Hne eq_refl eq_refl). }
  destruct v as [verdict|]; [|split; cbn; try done; intros q b E; by apply Hother].
  destruct (rg_operators s !! p) as [b|] eqn:E; cbn [snd].
  2:{ split; cbn; try done. intros q b E'. apply Hother; [done|]. intros ->. congruence. }
  case_bool_decide as Hk; cbn [snd].
  2:{ split; cbn; try done. intros q b' E'. apply Hother; [done|]. intros -> ?. congruence. }
  subst k. set (b' := b <| ob_staked := Some verdict |> <| ob_fetched_at := Some t |>).
  assert (bindings_ok (λ _ _, True) (s <| rg_operators ::= insert p b' |>)) as [_ Ho' Hd'].
  { apply (update_ok _ s p b); [by eapply bindings_weaken|done..]. }
  split; cbn; try done. intros q b0. destruct (decide (q = p)) as [->|Hne].
  - rewrite lookup_insert_eq. intros [= <-]. split; [by apply binding_lasts, (Hj p b E)|].
    intros w [= <-]. exists t. split; [done|]. by left.
  - rewrite lookup_insert_ne by done. intros E'. apply Hother; [done|]. by intros ->.
Qed.

Lemma seed_committee_step t history s p :
  registry_ok history s →
  registry_ok ((SeedCommittee p, t) :: history) (seed_verified_committee_peer s p t).
Proof.
  intros Hs. unfold seed_verified_committee_peer.
  destruct (rg_committee s !! p) as [e|] eqn:E; [by apply (quiet_claims _ _ _ s)|].
  apply (quiet_claims (SeedCommittee p) t _ s s) in Hs; [|done|done]. destruct Hs as [Hc Hv Hj Ho Hd Hi Hf].
  split; cbn; try done. intros q e. destruct (decide (q = p)) as [->|Hne].
  - rewrite lookup_insert_eq. intros [= <-]. right. by left.
  - rewrite lookup_insert_ne by done. apply Hc.
Qed.

(** Whatever a full cache forgets, what it keeps is the latest answer. *)
Lemma record_committee_step t history s p v :
  registry_ok history s →
  registry_ok ((RecordCommittee p v, t) :: history) (record_committee_peer s p v t).2.
Proof.
  intros [Hc Hv Hj Ho Hd Hi Hf].
  assert (set_len (rg_committee_in_flight s ∖ {[ p ]}) ≤ COMMITTEE_MAX_IN_FLIGHT_LOOKUPS) as Hi'
    by (pose proof (set_len_remove p (rg_committee_in_flight s)); lia).
  assert (∀ q b, rg_operators s !! q = Some b → binding_justified q b ((RecordCommittee p v, t) :: history))
    as Hj' by (intros q b E; apply justified_lasts; [done|by apply Hj]).
  assert (∀ c, (∀ q e, c !! q = Some e → committee_evidence q e ((RecordCommittee p v, t) :: history)) →
    registry_ok ((RecordCommittee p v, t) :: history)
      (s <| rg_committee_in_flight ::= λ f, f ∖ {[ p ]} |> <| rg_committee := c |>)) as Hcommittee
    by (intros c Hcc; by split).
  unfold record_committee_peer. destruct v as [registered|].
  2:{ destruct s. apply (Hcommittee rg_committee). intros q e E. apply committee_lasts; [done|by apply Hc]. }
  set (s0 := s <| rg_committee_in_flight ::= λ f, f ∖ {[ p ]} |>) in *. cbn zeta.
  assert (drop_stale s0 p t ⊆ rg_committee s) as H1
    by (unfold drop_stale; case_match; [apply map_filter_subseteq|done]).
  destruct (committee_full s0 p (drop_stale s0 p t) && negb registered) eqn:Efull; cbn [snd].
  - apply Hcommittee. intros q e E. pose proof (lookup_weaken _ _ _ _ E H1) as E'.
    destruct (decide (q = p)) as [->|Hne].
    + unfold committee_full in Efull. apply andb_true_iff in Efull as [[Ek _]%andb_true_iff _].
      apply negb_true_iff, contains_key_false in Ek. change (rg_committee s !! p = None) in Ek. congruence.
    + apply committee_lasts; [by intros w [= ? _]|]. by apply Hc.
  - assert (evict_unregistered s0 p (drop_stale s0 p t) ⊆ drop_stale s0 p t) as H2
      by (unfold evict_unregistered; repeat case_match; try done; apply delete_subseteq).
    apply Hcommittee. intros q e. destruct (decide (q = p)) as [->|Hne].
    + rewrite lookup_insert_eq. intros [= <-]. by left.
    + rewrite lookup_insert_ne by done. intros E. apply committee_lasts; [by intros w [= ? _]|].
      apply Hc. eapply lookup_weaken; [exact E|]. by transitivity (drop_stale s0 p t).
Qed.

Lemma record_verifiers_step t history s vs :
  registry_ok history s → registry_ok ((RecordVerifiers vs, t) :: history) (record_verifier_set s vs t).
Proof.
  intros [Hc Hv Hj Ho Hd Hi Hf].
  assert (∀ q e, rg_committee s !! q = Some e → committee_evidence q e ((RecordVerifiers vs, t) :: history))
    by (intros q e E; apply committee_lasts; [done|by apply Hc]).
  assert (∀ q b, rg_operators s !! q = Some b → binding_justified q b ((RecordVerifiers vs, t) :: history))
    by (intros q b E; apply justified_lasts; [done|by apply Hj]).
  by destruct vs; split.
Qed.

Lemma apply_op_step history s op t :
  registry_ok history s → registry_ok ((op, t) :: history) (apply_op s op t).
Proof.
  intros Hs. destruct op as [p k i|p k|p k| |p k v|p k i|p| |p|p b|vs|p v]; cbn [apply_op].
  - by apply observe_step; [|eauto].
  - assert (∀ s', s' = (trust_operator_binding s p k).2 → rg_verifiers s' = rg_verifiers s ∧
      rg_committee s' = rg_committee s ∧ rg_committee_in_flight s' = rg_committee_in_flight s ∧
      rg_operators_in_flight s' = rg_operators_in_flight s) as Hframe
      by (intros ? ->; unfold trust_operator_binding; by case_match).
    destruct (Hframe _ eq_refl) as (? & ? & ? & Ef). apply (quiet_bindings _ _ _ s); try done; [by rewrite Ef|].
    apply trust_ok; [|by apply justified_new; right|by intros b []].
    eapply bindings_weaken, bindings_of, Hs. intros q b. by apply justified_quiet.
  - apply (quiet_claims _ _ _ s); [done|apply claim_operator_ok|done].
  - apply (quiet_claims _ _ _ s); [done|apply claim_each_ok|done].
  - by apply record_stake_step.
  - by apply seed_operator_step.
  - by apply seed_committee_step.
  - apply (quiet_claims _ _ _ s); [done|apply plan_due_committee_ok|done].
  - apply (quiet_claims _ _ _ s); [done|apply plan_refresh_ok|done].
  - apply (quiet_claims _ _ _ s); [done|apply claim_committee_ok|done].
  - by apply record_verifiers_step.
  - by apply record_committee_step.
Qed.

Lemma registry_after_ok history : registry_ok history (registry_after history).
Proof.
  induction history as [|[op t] history IH]; [|by apply apply_op_step].
  split; cbn; try done; intros ? ? [] || (unfold set_len; rewrite size_empty; done).
Qed.
End Registry.

(** C23: a peer has a class only on evidence: a committee member by the latest answer of
    the chain on it, at most 30 minutes old (or restored at most 5 minutes ago); a
    registered sender by the latest verifier set, or by a signed or configured binding
    to a key with such an answer on its stake. *)
Theorem class_has_evidence `{HashIter} history peer now :
  match sender_class (registry_after history) peer now with
  | CommitteeSender =>
      ∃ e, committee_evidence peer e history ∧ ce_registered e = true ∧
        now < ce_fetched_at e + COMMITTEE_STALE_LIMIT
  | RegisteredSender =>
      peer ∈ verifiers_of history ∨
      ∃ key at_, binding_evidence peer key history ∧ stake_evidence peer key true at_ history ∧
        now < at_ + OPERATOR_STAKE_STALE_LIMIT
  | UnregisteredSender => True
  end.
Proof.
  pose proof (registry_after_ok history) as [Hc Hv Hj _ _ _ _]. unfold sender_class, is_verifier.
  set (s := registry_after history) in *.
  destruct (match rg_committee s !! peer with Some e => _ | None => _ end) eqn:Er.
  { destruct (rg_committee s !! peer) as [e|] eqn:Ec; [|done]. exists e.
    unfold committee_is_registered, saturating_duration_since in Er. brefl.
    split_and!; [by apply Hc|done|lia]. }
  case_bool_decide as Hin; [left; by rewrite <- Hv|]. cbn [orb].
  destruct (match rg_operators s !! peer with Some b => _ | None => _ end) eqn:Eb; [right|done].
  destruct (rg_operators s !! peer) as [b|] eqn:Eo; [|done]. apply Hj in Eo as [Hb Hs].
  unfold binding_is_registered, confirmed, saturating_duration_since in Eb. brefl.
  destruct (Hs true) as (t & Et & Hst); [done|]. rewrite Et in H1. brefl.
  exists (ob_pubkey b), t. split_and!; [done..|lia].
Qed.

(** However peers announce and configure bindings, a master key is bound to one peer
    and a peer to one master key, and at most 16 lookups of either kind are in flight. *)
Theorem operator_keys_unique `{HashIter} history :
  let s := registry_after history in
  (∀ key peer, operator_peer_for s key = Some peer ↔
     ∃ b, rg_operators s !! peer = Some b ∧ ob_pubkey b = key) ∧
  set_len (rg_committee_in_flight s) ≤ COMMITTEE_MAX_IN_FLIGHT_LOOKUPS ∧
  set_len (rg_operators_in_flight s) ≤ OPERATOR_MAX_IN_FLIGHT_LOOKUPS.
Proof.
  pose proof (registry_after_ok history) as [_ _ _ Ho Hd Hi Hf]. cbn zeta. split; [|done].
  intros key peer. split; [apply Hd|]. intros (b & E & <-). by apply Ho.
Qed.

(** A key moves to another peer only by a binding issued strictly later than the one it
    is bound by, so an old announcement cannot take it back. *)
Theorem key_moves_to_newer `{HashIter} history now peer other key issued_at :
  let s := registry_after history in
  operator_peer_for s key = Some other → other ≠ peer →
  operator_peer_for (observe_operator_binding s peer key issued_at now).2 key ≠ Some other →
  ∃ b, rg_operators s !! other = Some b ∧ ob_pubkey b = key ∧ ob_issued_at b < issued_at.
Proof.
  cbn zeta. pose proof (registry_after_ok history) as [_ _ _ _ Hd _ _].
  set (s := registry_after history) in *. unfold operator_peer_for. intros E Hne Hmoved.
  destruct (Hd key other E) as (b & Eb & Hk). exists b. split_and!; [done..|].
  unfold observe_operator_binding, release_owner in Hmoved. rewrite E in Hmoved.
  rewrite bool_decide_eq_false_2, Eb in Hmoved by done.
  destruct (Z.ltb_spec (ob_issued_at b) issued_at); [done|]. by destruct Hmoved.
Qed.
