(* ===== verification/Admission.v ===== *)
(** * Admission: from the gossip network to the inbox

    What is done with a received message: it is dropped, dispatched at once, relayed, or
    recorded as an event of its aggregate.

    Source: node/src/p2p_admission/mod.rs, node/src/messages.rs,
    node/src/aggregates/common.rs, node/src/p2p_msg_handler.rs. *)

From stdpp Require Import base list strings gmap sets.
From S2P Require Import Prelude Table Storage EngineSchema EngineNext InboxStore EngineConfig.
From S2P Require Import EngineEffects Worker Runtime NodeSchema LocalDb NodeApply InstanceAggregate.
From S2P Require Import GraphPegout GraphAggregate Float64 AdmissionGates AdmissionRate PeerRegistry.

Local Open Scope Z_scope.

(** ** Messages

    The fields that admission and routing read; [rest] is the others. *)

Inductive GOATMessageContent : Type :=
| CreateGraph (instance_id graph_id : Uuid) (graph_nonce : Z) (operator_pubkey : string) (rest : bytes)
| InitGraph (instance_id graph_id : Uuid) (operator_pubkey : string) (rest : bytes)
| GenCircuits (instance_id graph_id : Uuid) (rest : bytes)
| CutCircuits (instance_id graph_id : Uuid) (rest : bytes)
| SolderingProofReady (instance_id graph_id : Uuid) (rest : bytes)
| GraphSetupAck (rest : bytes)
| VerifierGraphParamsEndorsement (instance_id graph_id : Uuid) (rest : bytes)
| NonceGeneration (instance_id graph_id : Uuid) (rest : bytes)
| AggNonceConsensus (instance_id graph_id : Uuid) (rest : bytes)
| CommitteePresign (instance_id graph_id : Uuid) (rest : bytes)
| EndorseGraph (instance_id graph_id : Uuid) (rest : bytes)
| GraphFinalize (instance_id graph_id : Uuid) (graph_nonce : Z) (operator_pubkey : string) (rest : bytes)
| PeginConfirmNonce (instance_id : Uuid) (rest : bytes)
| PeginConfirmNonceConsensus (instance_id : Uuid) (rest : bytes)
| PeginConfirmPartialSig (instance_id : Uuid) (rest : bytes)
| RequestNodeInfo (rest : bytes)
| ResponseNodeInfo (rest : bytes).

Record GOATMessage := mkMessage { gm_actor : Actor; gm_content : GOATMessageContent }.

(** [event_type]: the name of the variant. *)
Definition event_type (c : GOATMessageContent) : string :=
  match c with
  | CreateGraph _ _ _ _ _ => "CreateGraph"
  | InitGraph _ _ _ _ => "InitGraph"
  | GenCircuits _ _ _ => "GenCircuits"
  | CutCircuits _ _ _ => "CutCircuits"
  | SolderingProofReady _ _ _ => "SolderingProofReady"
  | GraphSetupAck _ => "GraphSetupAck"
  | VerifierGraphParamsEndorsement _ _ _ => "VerifierGraphParamsEndorsement"
  | NonceGeneration _ _ _ => "NonceGeneration"
  | AggNonceConsensus _ _ _ => "AggNonceConsensus"
  | CommitteePresign _ _ _ => "CommitteePresign"
  | EndorseGraph _ _ _ => "EndorseGraph"
  | GraphFinalize _ _ _ _ _ => "GraphFinalize"
  | PeginConfirmNonce _ _ => "PeginConfirmNonce"
  | PeginConfirmNonceConsensus _ _ => "PeginConfirmNonceConsensus"
  | PeginConfirmPartialSig _ _ => "PeginConfirmPartialSig"
  | RequestNodeInfo _ => "RequestNodeInfo"
  | ResponseNodeInfo _ => "ResponseNodeInfo"
  end.

Inductive BusinessRef : Type :=
| InstanceRef (instance_id : Uuid)
| GraphRef (instance_id graph_id : Uuid)
| Unscoped.

Definition business_ref (c : GOATMessageContent) : BusinessRef :=
  match c with
  | CreateGraph i g _ _ _ | InitGraph i g _ _ | GenCircuits i g _ | CutCircuits i g _
  | SolderingProofReady i g _ | VerifierGraphParamsEndorsement i g _ | NonceGeneration i g _
  | AggNonceConsensus i g _ | CommitteePresign i g _ | EndorseGraph i g _
  | GraphFinalize i g _ _ _ => GraphRef i g
  | PeginConfirmNonce i _ | PeginConfirmNonceConsensus i _ | PeginConfirmPartialSig i _ => InstanceRef i
  | GraphSetupAck _ | RequestNodeInfo _ | ResponseNodeInfo _ => Unscoped
  end.

(** Of the message's kind. *)
Definition handled_by (c : GOATMessageContent) (actor : Actor) : bool :=
  match c with
  | GraphSetupAck _ | RequestNodeInfo _ | ResponseNodeInfo _ => true
  | PeginConfirmNonce _ _ | PeginConfirmNonceConsensus _ _ | PeginConfirmPartialSig _ _ =>
      engine_handles (event_type c) actor
  | _ => graph_engine_handles (event_type c) actor
  end.

Definition delivered_immediately (c : GOATMessageContent) : bool :=
  match c with
  | RequestNodeInfo _ | ResponseNodeInfo _ | GraphSetupAck _ => true
  | _ => false
  end.

Definition GOAT_MESSAGE_BIN_PREFIX : bytes := "GOATBIN1".

Definition is_binary_envelope (message : bytes) : bool := String.prefix GOAT_MESSAGE_BIN_PREFIX message.

(** [bincode] and [serde_json]; the prefix marks the first. *)
Class MessageCodec := {
  message_to_bincode : GOATMessage → outcome bytes;
  message_from_bincode : bytes → outcome GOATMessage;
  message_to_json : GOATMessage → outcome bytes;
  message_from_json : bytes → outcome GOATMessage;
}.

(** The libraries read what they wrote, and the JSON of a message is an object. *)
Class MessageLaws `{MessageCodec} : Prop := {
  bincode_round_trip m b : message_to_bincode m = Ok b → message_from_bincode b = Ok m;
  json_round_trip m b : message_to_json m = Ok b → message_from_json b = Ok m;
  json_object m b : message_to_json m = Ok b → String.prefix "{" b = true;
}.

Definition serialize_message `{MessageCodec} (self : GOATMessage) : outcome bytes :=
  match gm_content self with
  | GenCircuits _ _ _ => encoded ← message_to_bincode self; Ok (GOAT_MESSAGE_BIN_PREFIX +:+ encoded)
  | _ => message_to_json self
  end.

Definition deserialize_message `{MessageCodec} (message : bytes) : outcome GOATMessage :=
  if is_binary_envelope message
  then message_from_bincode
         (String.substring (String.length GOAT_MESSAGE_BIN_PREFIX)
            (String.length message - String.length GOAT_MESSAGE_BIN_PREFIX) message)
  else message_from_json message.

(** The inbox event for an admitted message. *)
Definition inbound_event `{UuidText} `{EngineEffects.Sha256} `{InboundCodec} (actor : Actor)
    (author local_peer : string) (content : GOATMessageContent) (raw : bytes) :
    outcome (option NewEvent) :=
  let kind := event_type content in
  let target :=
    match business_ref content with
    | GraphRef i g =>
        if graph_engine_handles kind actor
        then Some (i, graph_ref g, uuid_to_string i +:+ ":" +:+ uuid_to_string g, ack_required kind)
        else None
    | InstanceRef i =>
        if engine_handles kind actor then Some (i, instance_ref i, uuid_to_string i, false) else None
    | Unscoped => None
    end in
  match target with
  | None => Ok None
  | Some (instance_id, aggregate, business_id, ack) =>
      let '(graph_nonce, operator_pubkey) :=
        match content with
        | CreateGraph _ _ nonce operator _ | GraphFinalize _ _ nonce operator _ => (Some nonce, Some operator)
        | InitGraph _ _ operator _ => (None, Some operator)
        | _ => (None, None)
        end in
      payload ← inbound_encode (mkInbound author instance_id graph_nonce operator_pubkey raw);
      let event :=
        with_author author
          (new_event (content_event_id author kind business_id raw) aggregate kind Network payload) in
      Ok (Some (if ack : bool then with_ack author (delivery_id author local_peer raw) event else event))
  end.

(** ** Envelope and quota *)

Definition byte_len (data : bytes) : Z := Z.of_nat (String.length data).

(** [None] for [Ok(())]. *)
Definition check_envelope (data : bytes) (sender_is_verifier : bool) (limits : InboundLimits) :
    option DropReason :=
  if is_binary_envelope data then
    if negb sender_is_verifier then Some BinaryFromNonVerifier
    else if max_binary_bytes limits <? byte_len data then Some OversizedBinary
    else None
  else if max_json_bytes limits <? byte_len data then Some OversizedJson
  else None.

Definition sum_usage (f : InboxClassUsage → Z) (usage : list InboxClassUsage) : Z :=
  foldr (λ u acc, f u + acc) 0 usage.

Definition of_committee (u : InboxClassUsage) : bool :=
  bool_decide (cu_admission_class u = sender_class_str CommitteeSender).

(** [usage] excludes the new row.  [None] for [Ok(())]. *)
Definition check_inbox_quota (class : SenderClass) (content_len : Z) (usage : list InboxClassUsage)
    (limits : InboundLimits) : option DropReason :=
  let open_usage := List.filter (λ u, negb (of_committee u)) usage in
  let open :=
    mkQuota (q_rows (il_global limits) - q_rows (il_committee_reserve limits))
            (q_bytes (il_global limits) - q_bytes (il_committee_reserve limits)) in
  if negb (admits (il_global limits) (sum_usage cu_rows usage + 1) (sum_usage cu_bytes usage + content_len))
  then Some GlobalQuota
  else if negb (bool_decide (class = CommitteeSender)) &&
          negb (admits open (sum_usage cu_rows open_usage + 1) (sum_usage cu_bytes open_usage + content_len))
  then Some GlobalQuota
  else if negb (admits (il_registered_peer limits) (sum_usage cu_peer_rows usage + 1)
                  (sum_usage cu_peer_bytes usage + content_len))
  then Some SenderQuota
  else None.

(** ** Cached totals *)

Definition INBOX_CLASS_TOTALS_TTL : Duration := from_secs 2.

Definition InboxUsageCache : Type := option (Instant * list InboxClassUsage).

Definition fresh_totals (self : InboxUsageCache) (now : Instant) : option (list InboxClassUsage) :=
  match self with
  | Some (at_, totals) =>
      if saturating_duration_since now at_ <? INBOX_CLASS_TOTALS_TTL then Some totals else None
  | None => None
  end.

(** Change the first entry of a class, or append one. *)
Fixpoint upsert_class (class : string) (f : InboxClassUsage → InboxClassUsage) (new : InboxClassUsage)
    (totals : list InboxClassUsage) : list InboxClassUsage :=
  match totals with
  | [] => [new]
  | u :: totals =>
      if bool_decide (cu_admission_class u = class) then f u :: totals
      else u :: upsert_class class f new totals
  end.

Definition note_admitted (self : InboxUsageCache) (class : SenderClass) (bytes : Z) : InboxUsageCache :=
  match self with
  | None => None
  | Some (at_, totals) =>
      let class := sender_class_str class in
      Some (at_, upsert_class class
        (λ u, mkClassUsage (cu_admission_class u) (cu_rows u + 1) (cu_bytes u + bytes)
                (cu_peer_rows u) (cu_peer_bytes u))
        (mkClassUsage class 1 bytes 0 0) totals)
  end.

(** The sender's own rows, class by class, into the totals. *)
Definition merge_peer_usage (usage peer : list InboxClassUsage) : list InboxClassUsage :=
  foldl (λ usage p, upsert_class (cu_admission_class p)
           (λ u, mkClassUsage (cu_admission_class u) (cu_rows u) (cu_bytes u)
                   (cu_peer_rows p) (cu_peer_bytes p)) p usage) usage peer.

(** ** The gates of a node *)

Record AdmissionNode (B : Type) := mkNode {
  an_world : World B;
  an_registry : RegistryState;
  an_replay : ReplayGuard;
  an_rate : RateState;
  an_immediate : PeerRateLimiter;
  an_cache : InboxUsageCache;
  an_strikes : StrikeState;
  an_timestamps : CooldownGate;
}.
Arguments mkNode {B}. Arguments an_world {B}. Arguments an_registry {B}. Arguments an_replay {B}.
Arguments an_rate {B}. Arguments an_immediate {B}. Arguments an_cache {B}. Arguments an_strikes {B}.
Arguments an_timestamps {B}.
#[export] Instance eta_AdmissionNode {B} : Eta (AdmissionNode B) := λ n,
  mkNode (an_world n) (an_registry n) (an_replay n) (an_rate n) (an_immediate n) (an_cache n)
    (an_strikes n) (an_timestamps n).

Record InboundGossip := mkGossip {
  ig_direct_peer : PeerId;
  ig_source : PeerId;
  ig_sequence_number : option Z;
  ig_data : bytes;
}.

Inductive InboundVerdict : Type :=
| Drop (reason : DropReason)
| Immediate (message : GOATMessage)
| Forward
| Enqueue (message : GOATMessage) (class : SenderClass).

Section Gates.
Context {B : Type} `{PeerText} `{HashIter} `{MessageCodec}.
Context `{UuidText} `{EngineEffects.Sha256} `{InboundCodec}.
Context (limits : InboundLimits) (rates : RateLimits) (local_actor : Actor) (local_peer : string).

(** A gate in memory: its result and its new state. *)
Definition gate {A} (f : AdmissionNode B → A * AdmissionNode B) : ST (AdmissionNode B) A := λ n e,
  let '(a, n') := f n in (Ok a, n', e).

Definition on_world {A} (m : ST (World B) A) : ST (AdmissionNode B) A :=
  focus an_world (λ w n, n <| an_world := w |>) m.

Definition charge_gate (inbound : InboundGossip) (class : SenderClass) (now : Instant) :
    ST (AdmissionNode B) (option DropReason) := λ n e,
  match charge rates (an_rate n) (ig_direct_peer inbound) (ig_source inbound) class
          (byte_len (ig_data inbound)) now with
  | Ok (r, st) => (Ok r, n <| an_rate := st |>, e)
  | Err x => (Err x, n, e)
  end.

(** Class totals from the cache or the database, with the sender's own rows. *)
Definition inbox_usage (from_peer : string) (now : Instant) :
    ST (AdmissionNode B) (list InboxClassUsage) :=
  n ← st_get;
  usage ← match fresh_totals (an_cache n) now with
          | Some totals => mret totals
          | None =>
              totals ← on_world (on_db engine_inbox_class_totals);
              modify (λ n, n <| an_cache := Some (now, totals) |>);;
              mret totals
          end;
  peer ← on_world (on_db (engine_inbox_peer_usage from_peer));
  mret (merge_peer_usage usage peer).

(** Continue unless there is a reason to drop the message. *)
Definition unless (reason : option DropReason) (k : ST (AdmissionNode B) InboundVerdict) :
    ST (AdmissionNode B) InboundVerdict :=
  match reason with Some r => mret (Drop r) | None => k end.

(** The durable part of the evaluation: the quota of the inbox. *)
Definition evaluate_durable (inbound : InboundGossip) (message : GOATMessage) (class : SenderClass)
    (now : Instant) : ST (AdmissionNode B) InboundVerdict :=
  let bytes := byte_len (ig_data inbound) in
  if negb (handled_by (gm_content message) local_actor) || negb (class_is_registered class) then
    reason ← (if class_is_registered class then mret None
              else gate (λ n, let '(r, st) := charge_forward rates (an_rate n) bytes now in
                              (r, n <| an_rate := st |>)));
    unless reason (mret Forward)
  else
    on_world acquire;;
    usage ← inbox_usage (peer_to_string (ig_source inbound)) now;
    unless (check_inbox_quota class bytes usage limits) (
      modify (λ n, n <| an_cache ::= λ c, note_admitted c class bytes |>);;
      mret (Enqueue message class)).

Definition evaluate_inbound_message (inbound : InboundGossip) (now : Instant) (unix_nanos : Z) :
    ST (AdmissionNode B) InboundVerdict :=
  let source := ig_source inbound in
  let data := ig_data inbound in
  n ← st_get;
  let verifier := is_verifier (an_registry n) source in
  unless (check_envelope data verifier limits) (
  let class := sender_class (an_registry n) source now in
  replayed ← (if class_is_registered class
              then gate (λ n, let '(r, g) := admit_sequence (an_replay n) source
                                               (ig_sequence_number inbound) unix_nanos in
                              (r, n <| an_replay := g |>))
              else mret None);
  unless replayed (
  over_rate ← charge_gate inbound class now;
  unless over_rate (
  match deserialize_message data with
  | Err _ => mret (Drop Undecodable)
  | Ok message =>
      let content := gm_content message in
      if is_binary_envelope data && match content with GenCircuits _ _ _ => false | _ => true end
      then mret (Drop UnexpectedBinaryKind)
      else if match content with VerifierGraphParamsEndorsement _ _ _ => true | _ => false end &&
              verifier_set_loaded (an_registry n) && negb verifier
      then mret (Drop EndorsementFromNonVerifier)
      else if delivered_immediately content then
        allowed ← gate (λ n, let '(ok, l) := allow (an_immediate n) source now in
                             (ok, n <| an_immediate := l |>));
        mret (if allowed : bool then Immediate message else Drop ImmediateRateLimited)
      else evaluate_durable inbound message class now
  end))).

(** ** A received message *)

Inductive MessageAcceptance : Type := Accept | Ignore.

(** Registered neighbours and those whose registration is not known are not struck; the
    latter are looked up. *)
Definition strike_direct_peer (peer : PeerId) (now : Instant) : ST (AdmissionNode B) unit :=
  modify (λ n,
    if is_known_unregistered (an_registry n) peer now
    then n <| an_strikes := (strike (an_strikes n) peer now).2 |>
    else n <| an_registry := (claim_committee_lookup (an_registry n) peer Neighbour now).2 |>).

(** The gate of the update of the peer's row; the row itself is not part of the model. *)
Definition refresh_peer_timestamp_throttled (peer : PeerId) (now : Instant) :
    ST (AdmissionNode B) unit :=
  modify (λ n, n <| an_timestamps ::= λ g, (gate_allow g (peer_to_string peer) now).2 |>).

Definition record_engine_message (inbound : InboundGossip) (message : GOATMessage)
    (class : SenderClass) : ST (AdmissionNode B) unit :=
  event ← st_lift (inbound_event local_actor (peer_to_string (ig_source inbound)) local_peer
                     (gm_content message) (ig_data inbound));
  match event with
  | Some event => on_world (submit (with_admission_class (sender_class_str class) event));; mret tt
  | None => st_fail [event_type (gm_content message) +:+ " is handled but no aggregate routes it"]
  end.

(** [control_room] tells whether the queue of the control worker has room; an error is
    reported to the network as [Ignore]. *)
Definition handle_inbound_p2p_message (inbound : InboundGossip) (now : Instant) (unix_nanos : Z)
    (control_room : bool) : ST (AdmissionNode B) MessageAcceptance :=
  verdict ← evaluate_inbound_message inbound now unix_nanos;
  match verdict with
  | Drop reason =>
      (if blames_direct_peer reason then strike_direct_peer (ig_direct_peer inbound) now else mret tt);;
      mret Ignore
  | Forward => refresh_peer_timestamp_throttled (ig_source inbound) now;; mret Accept
  | Enqueue message class =>
      record_engine_message inbound message class;;
      refresh_peer_timestamp_throttled (ig_source inbound) now;;
      mret Accept
  | Immediate message =>
      if control_room
      then refresh_peer_timestamp_throttled (ig_source inbound) now;; mret Accept
      else mret Ignore
  end.
End Gates.
