(* ===== verification/AdmissionProps.v ===== *)
(** * What admission guarantees

    Only registered senders reach the inbox, each message at most once per sequence
    number, and what they store stays within the quotas.

    Source: node/src/p2p_admission/mod.rs, node/src/p2p_msg_handler.rs. *)

From stdpp Require Import base list strings gmap sets relations.
From S2P Require Import Prelude Table Storage EngineSchema EngineNext InboxStore EngineConfig.
From S2P Require Import EngineEffects Worker Runtime InboxProps NodeSchema LocalDb NodeApply.
From S2P Require Import InstanceAggregate GraphPegout GraphAggregate Float64 AdmissionGates AdmissionRate.
From S2P Require Import PeerRegistry RegistryProps Admission.

Local Open Scope Z_scope.

(** ** Rows the quota charges *)

Section Held.
Context {B : Type}.
Implicit Types (d : Db B) (p : EngineInboxEvent → bool).

(** The charged rows that satisfy a predicate. *)
Definition held p d : Z := count_where (λ r, charged r && p r) (engine_inbox d).

(** A predicate on what no statement changes. *)
Definition by_origin p : Prop :=
  ∀ r r', ib_admission_class r' = ib_admission_class r → ib_author r' = ib_author r → p r' = p r.

Definition anyone (_ : EngineInboxEvent) : bool := true.
Definition not_committee (r : EngineInboxEvent) : bool :=
  negb (bool_decide (ib_admission_class r = sender_class_str CommitteeSender)).
Definition authored_by (a : string) (r : EngineInboxEvent) : bool := bool_decide (ib_author r = a).

Lemma anyone_origin : by_origin anyone.
Proof. done. Qed.
Lemma not_committee_origin : by_origin not_committee.
Proof. intros r r' E _. unfold not_committee. by rewrite E. Qed.
Lemma authored_by_origin a : by_origin (authored_by a).
Proof. intros r r' _ E. unfold authored_by. by rewrite E. Qed.

Lemma count_where_app {A} (f : A → bool) l l' : count_where f (l ++ l') = count_where f l + count_where f l'.
Proof. unfold count_where, select_where. rewrite List.filter_app, length_app. lia. Qed.

Lemma count_update {A} (f g : A → bool) (u : A → A) l :
  (∀ r, g r = true → f (u r) = f r) → count_where f (update_where g u l) = count_where f l.
Proof.
  intros H. unfold count_where, select_where, update_where. induction l as [|r l IH]; [done|]. cbn.
  destruct (g r) eqn:E; [rewrite (H r E)|]; destruct (f r); cbn [length]; lia.
Qed.

(** A new event is one row more; a known one is none, re-armed or not. *)
Lemma held_insert p ev now d e :
  by_origin p →
  held p (final (insert_engine_inbox_event ev now d e)) ≤
  held p d + if p (new_inbox_row ev 0 now) then 1 else 0.
Proof.
  intros Hp. unfold insert_engine_inbox_event, final.
  set (k := if p (new_inbox_row ev 0 now) then 1 else 0). assert (0 ≤ k) by (unfold k; case_match; lia).
  unfold stmt, inbox_update, query. unfold mbind, st_bind. destruct (next_fault e) as [[] e1]; [cbn; lia|].
  unfold insert_or_ignore. destruct (existsb _ (engine_inbox d)); cbn.
  - unfold stmt. destruct (next_fault e1) as [[] e2]; [cbn; lia|].
    destruct (select_one _ (engine_inbox d)) as [row|]; [|cbn; lia]. case_bool_decide; [|cbn; lia].
    unfold stmt. destruct (next_fault e2) as [[] e3]; [cbn; lia|]. cbn. unfold held. cbn.
    rewrite count_update; [lia|]. intros r [_ Hs]%andb_true_iff.
    unfold in_inbox_state in Hs. apply bool_decide_eq_true_1 in Hs.
    rewrite (Hp r) by done. unfold charged, in_inbox_state. cbn. by rewrite Hs.
  - unfold held. cbn. rewrite count_where_app. unfold count_where at 2, select_where. cbn.
    rewrite (Hp (new_inbox_row ev 0 now) (new_inbox_row ev (inbox_sequence d + 1) now)) 
      by (unfold new_inbox_row; by destruct (ni_ack ev)). unfold k.
    destruct (p (new_inbox_row ev 0 now)); [case_match; cbn; lia|]. rewrite andb_false_r. cbn. lia.
Qed.

Lemma new_row_origin p ev seq now seq' now' :
  by_origin p → p (new_inbox_row ev seq now) = p (new_inbox_row ev seq' now').
Proof. intros Hp. apply Hp; unfold new_inbox_row; by destruct (ni_ack ev). Qed.

Lemma final_bind {S A C} (m : ST S A) (k : A → ST S C) s e :
  final ((m ≫= k) s e) =
  match m s e with (Ok a, s1, e1) => final (k a s1 e1) | (Err _, s1, _) => s1 end.
Proof. unfold mbind, st_bind. by destruct (m s e) as [[[] ?] ?]. Qed.

Lemma submit_db event (w : World B) e :
  w_db (final (submit event w e)) = w_db w ∨
  ∃ now e1, w_db (final (submit event w e)) =
    final (insert_engine_inbox_event (into_store event) now (w_db w) e1).
Proof.
  unfold submit. rewrite final_bind.
  assert (∃ now e1, clock_now w e = (Ok now, w, e1)) as (now & e1 & ->)
    by (unfold clock_now; case_match; eauto).
  rewrite final_bind. unfold acquire, stmt. destruct (next_fault e1) as [[] e2]; [by left|].
  right. exists now, e2. rewrite final_bind. unfold on_db, focus.
  destruct (insert_engine_inbox_event (into_store event) now (w_db w) e2) as [[[r|x] d] e3]; [|done].
  destruct r as [seq|state ack_again rearmed]; [done|]. rewrite final_bind.
  assert (∀ a : option EngineAckTarget, ∃ sent w1, (match a with
    | Some a => λ w e, let '(sent, c) := try_send a (w_acks w) in (Ok sent, w <| w_acks := c |>, e)
    | None => mret false end : ST (World B) bool) (w <| w_db := d |>) e3 = (Ok sent, w1, e3) ∧ w_db w1 = d) as Hs.
  { intros [a|]; [|by eexists _, _]. cbn. destruct (try_send a (w_acks w)). by eexists _, _. }
  destruct (Hs (if ack_again then ne_ack event else None)) as (sent & w1 & -> & <-).
  by destruct rearmed.
Qed.

Lemma held_submit p event (w : World B) e :
  by_origin p →
  held p (w_db (final (submit event w e))) ≤
  held p (w_db w) + if p (new_inbox_row (into_store event) 0 0) then 1 else 0.
Proof.
  intros Hp. destruct (submit_db event w e) as [->|(now & e1 & ->)]; [case_match; lia|].
  rewrite (new_row_origin p _ 0 0 0 now) by done. by apply held_insert.
Qed.

(** ** The quota queries *)

Lemma sum_usage_over f l : sum_usage f l = sum_over f l.
Proof. induction l as [|u l IH]; cbn; [done|]. by rewrite <- IH. Qed.

Lemma total_of_where (q : string → bool) rows c :
  total_of (λ r, if q (ib_admission_class r) then 1 else 0) (select_where (of_class c) rows) =
  if q c then Z.of_nat (length (select_where (of_class c) rows)) else 0.
Proof.
  unfold select_where, of_class. induction rows as [|r rows IH]; cbn; [by destruct (q c)|].
  case_bool_decide as Hc; [|done]. cbn [total_of length]. rewrite IH, Hc. destruct (q c); lia.
Qed.

Lemma total_of_held (q : string → bool) d :
  total_of (λ r, if q (ib_admission_class r) then 1 else 0) (select_where charged (engine_inbox d)) =
  held (λ r, q (ib_admission_class r)) d.
Proof.
  unfold held, count_where, select_where. induction (engine_inbox d) as [|r l IH]; cbn; [done|].
  destruct (charged r); cbn; [|done]. rewrite IH. destruct (q _); cbn [length]; lia.
Qed.

Lemma class_totals_held (q : string → bool) d e l d' e' :
  engine_inbox_class_totals d e = (Ok l, d', e') →
  d' = d ∧ sum_usage cu_rows (List.filter (λ u, q (cu_admission_class u)) l) =
    held (λ r, q (ib_admission_class r)) d ∧ Forall (λ u, cu_peer_rows u = 0) l.
Proof.
  intros Hr. unfold engine_inbox_class_totals in Hr. apply query_inv in Hr as [-> ->]. split; [done|].
  set (rows := select_where charged (engine_inbox d)). unfold group_by_class. rewrite map_map. split.
  - rewrite <- total_of_held, <- (sum_by_class _ rows (remove_dups (map ib_admission_class rows)));
      [|apply NoDup_remove_dups|intros r Hr; apply elem_of_remove_dups, In_map_iff; eauto].
    induction (remove_dups (map ib_admission_class rows)) as [|c cs IH]; cbn; [done|].
    rewrite total_of_where, <- IH. unfold of_class. destruct (q c); cbn; unfold sum_usage; lia.
  - apply Forall_forall. by intros u (c & _ & ->)%In_map_iff.
Qed.

Lemma peer_usage_held author d e l d' e' :
  engine_inbox_peer_usage author d e = (Ok l, d', e') →
  d' = d ∧ NoDup (map cu_admission_class l) ∧ Forall (λ u, cu_rows u = 0) l ∧
  sum_usage cu_peer_rows l = held (authored_by author) d.
Proof.
  intros Hr. unfold engine_inbox_peer_usage in Hr. apply query_inv in Hr as [-> ->]. split; [done|].
  set (rows := select_where _ (engine_inbox d)). unfold group_by_class. rewrite !map_map. split_and!.
  - cbn. rewrite map_id. apply NoDup_remove_dups.
  - apply Forall_forall. by intros u (c & _ & ->)%In_map_iff.
  - change (held (authored_by author) d) with (Z.of_nat (length rows)). rewrite total_of_count.
    rewrite <- (sum_by_class _ rows (remove_dups (map ib_admission_class rows)));
      [|apply NoDup_remove_dups|intros r Hr; apply elem_of_remove_dups, In_map_iff; eauto].
    induction (remove_dups (map ib_admission_class rows)) as [|c cs IH]; cbn; [done|].
    rewrite <- IH, <- total_of_count. done.
Qed.
End Held.

(** ** Merging and caching usage *)

Lemma sum_filter (q : InboxClassUsage → bool) f l :
  sum_usage f (List.filter q l) = sum_usage (λ u, if q u then f u else 0) l.
Proof. unfold sum_usage. induction l as [|u l IH]; cbn; [done|]. destruct (q u); cbn; lia. Qed.

Lemma sum_all f l : sum_usage f l = sum_usage f (List.filter (λ _, true) l).
Proof. by rewrite sum_filter. Qed.

Lemma sum_zero f l : (∀ u, u ∈ l → f u = 0) → sum_usage f l = 0.
Proof.
  unfold sum_usage. induction l as [|u l IH]; cbn; intros Hz; [done|].
  rewrite (Hz u), IH; [done|intros v Hv; apply Hz; by right|left].
Qed.

(** The changed or appended entry of the class accounts for the difference. *)
Lemma sum_upsert (g : InboxClassUsage → Z) class f new l k :
  (∀ u, u ∈ l → cu_admission_class u = class → g (f u) = g u + k) → g new = k →
  sum_usage g (upsert_class class f new l) = sum_usage g l + k.
Proof.
  intros Hf Hn. unfold sum_usage. induction l as [|u l IH]; cbn; [lia|].
  case_bool_decide as Hc; cbn.
  - rewrite Hf; [lia|by left|done].
  - rewrite IH; [lia|]. intros v Hv. apply Hf. by right.
Qed.

Lemma elem_of_upsert class f new l u :
  u ∈ upsert_class class f new l →
  u ∈ l ∨ u = new ∨ ∃ v, v ∈ l ∧ cu_admission_class v = class ∧ u = f v.
Proof.
  induction l as [|v l IH]; cbn; [intros ->%list_elem_of_singleton; auto|].
  case_bool_decide as Hc; intros [->|Hu]%elem_of_cons; try (left; by constructor).
  - right. right. exists v. by split_and!; [left|..].
  - destruct (IH Hu) as [Hl|[->|(w & Hw & E & ->)]]; [left; by right|auto|].
    right. right. exists w. by split_and!; [right|..].
Qed.

(** What the totals say of a class is not changed by the sender's own rows. *)
Lemma merge_rows (q : string → bool) peer usage :
  Forall (λ u, cu_rows u = 0) peer →
  sum_usage cu_rows (List.filter (λ u, q (cu_admission_class u)) (merge_peer_usage usage peer)) =
  sum_usage cu_rows (List.filter (λ u, q (cu_admission_class u)) usage).
Proof.
  unfold merge_peer_usage. intros Hp. revert usage. induction Hp as [|p peer Hz Hp IH]; [done|].
  intros usage. cbn [foldl]. rewrite IH, !sum_filter, (sum_upsert _ _ _ _ _ 0); [lia|..].
  - intros u _ _. cbn. lia.
  - by rewrite Hz; case_match.
Qed.

(** The sender's rows of every class are counted once. *)
Lemma merge_peer_rows peer usage :
  NoDup (map cu_admission_class peer) →
  (∀ u, u ∈ usage → cu_admission_class u ∈ map cu_admission_class peer → cu_peer_rows u = 0) →
  sum_usage cu_peer_rows (merge_peer_usage usage peer) =
  sum_usage cu_peer_rows usage + sum_usage cu_peer_rows peer.
Proof.
  unfold merge_peer_usage. revert usage. induction peer as [|p peer IH]; intros usage Hnd Hz; [unfold sum_usage; cbn; lia|].
  cbn in Hnd. apply NoDup_cons in Hnd as [Hp Hnd]. cbn [foldl]. rewrite IH; [|done|].
  - change (sum_usage cu_peer_rows (p :: peer)) with (cu_peer_rows p + sum_usage cu_peer_rows peer).
    rewrite (sum_upsert _ _ _ _ _ (cu_peer_rows p)); [lia| |done].
    intros u Hu E. cbn. rewrite (Hz u); [lia|done|]. cbn. rewrite E. left.
  - intros u Hu Hin. apply elem_of_upsert in Hu as [Hu|[->|(v & Hv & E & ->)]]; [|done|].
    + apply Hz; [done|]. cbn. by right.
    + cbn in Hin. by rewrite E in Hin.
Qed.

(** ** The cached totals cover the inbox *)

Definition open_class (c : string) : bool := negb (bool_decide (c = sender_class_str CommitteeSender)).

Definition open_rows (l : list InboxClassUsage) : Z :=
  sum_usage cu_rows (List.filter (λ u, open_class (cu_admission_class u)) l).

Section Cover.
Context {B : Type}.
Implicit Types (d : Db B).

(** The totals count every charged row and [k] more, [k'] of them outside the committee. *)
Record covers (k k' : Z) d (totals : list InboxClassUsage) : Prop := {
  cv_all : held anyone d + k ≤ sum_usage cu_rows totals;
  cv_open : held not_committee d + k' ≤ open_rows totals;
  cv_peer : Forall (λ u, cu_peer_rows u = 0) totals;
}.

Definition cache_covers k k' d (c : InboxUsageCache) : Prop :=
  ∀ at_ totals, c = Some (at_, totals) → covers k k' d totals.

Definition open_row (class : SenderClass) : Z := if bool_decide (class = CommitteeSender) then 0 else 1.

Lemma open_class_str class : open_class (sender_class_str class) = negb (bool_decide (class = CommitteeSender)).
Proof. by destruct class. Qed.

Lemma totals_cover d e l d' e' :
  engine_inbox_class_totals d e = (Ok l, d', e') → covers 0 0 d l.
Proof.
  intros Hl. pose proof (class_totals_held (λ _, true) d e l d' e' Hl) as (_ & Ha & Hz).
  pose proof (class_totals_held open_class d e l d' e' Hl) as (_ & Ho & _).
  rewrite sum_filter in Ha. split; [|unfold open_rows; rewrite Ho|done].
  - change (held anyone d) with (held (λ _, true) d). rewrite <- Ha. unfold sum_usage. lia.
  - change (held not_committee d) with (held (λ r, open_class (ib_admission_class r)) d). lia.
Qed.

Lemma note_admitted_covers d c class bytes :
  cache_covers 0 0 d c → cache_covers 1 (open_row class) d (note_admitted c class bytes).
Proof.
  intros Hc at_ l Hl. destruct c as [[at0 totals]|]; [|done]. cbn in Hl. injection Hl as <- <-.
  destruct (Hc at0 totals eq_refl) as [Ha Ho Hp]. split.
  - rewrite (sum_upsert _ _ _ _ _ 1); [lia|done|done].
  - unfold open_rows in *. rewrite sum_filter in *. rewrite (sum_upsert _ _ _ _ _ (open_row class)); [lia|..].
    + intros u _ E. cbn. rewrite E, open_class_str. unfold open_row. case_bool_decide; cbn; lia.
    + cbn. rewrite open_class_str. unfold open_row. by case_bool_decide.
  - rewrite Forall_forall in *. intros u Hu.
    apply elem_of_upsert in Hu as [Hu|[->|(v & Hv & _ & ->)]]; [by apply Hp|done|]. cbn. by apply Hp.
Qed.

Lemma covers_mono d d' k k' totals :
  held anyone d' + 0 ≤ held anyone d + k → held not_committee d' + 0 ≤ held not_committee d + k' →
  covers k k' d totals → covers 0 0 d' totals.
Proof. intros H1 H2 [Ha Ho Hp]. split; [lia..|done]. Qed.
End Cover.
