(* ===== verification/AdmissionRuns.v ===== *)
(** * The inbox under admission

    Runs of the node's event loop and of its engine: each received message is evaluated
    and, if admitted, submitted; between messages the engine works on its tables.

    Source: node/src/p2p_admission/mod.rs, node/src/p2p_msg_handler.rs. *)

From stdpp Require Import base list strings gmap sets relations.
From S2P Require Import Prelude Table Storage EngineSchema EngineNext InboxStore EngineConfig.
From S2P Require Import EngineEffects Worker Executor Runtime Engine InboxProps NodeSchema LocalDb.
From S2P Require Import NodeApply InstanceAggregate GraphPegout GraphAggregate Float64 AdmissionGates.
From S2P Require Import AdmissionRate GateProps PeerRegistry RegistryProps Admission AdmissionProps.

Local Open Scope Z_scope.

(** ** The engine does not add to the charged rows *)

Section Engine.
Context {B : Type}.
Implicit Types (d : Db B) (p : EngineInboxEvent → bool).

(** No event of the network is new. *)
Definition no_new_network d d' : Prop :=
  ∀ r, r ∈ engine_inbox d' → ib_source r = "network"%string →
    ib_event_id r ∈ map ib_event_id (engine_inbox d).

Lemma count_by_key (f g : EngineInboxEvent → bool) t t' :
  NoDup (map ib_event_id t') →
  (∀ r', r' ∈ t' → f r' = true → ∃ r, r ∈ t ∧ ib_event_id r = ib_event_id r' ∧ g r = true) →
  count_where f t' ≤ count_where g t.
Proof.
  intros Hnd Hin. unfold count_where, select_where.
  rewrite <- (length_map ib_event_id (List.filter f t')), <- (length_map ib_event_id (List.filter g t)).
  apply inj_le, submseteq_length, NoDup_submseteq.
  - clear Hin. induction t' as [|r t' IH]; cbn in *; [constructor|]. apply NoDup_cons in Hnd as [Hr Hnd].
    destruct (f r); [|by apply IH]. cbn. apply NoDup_cons. split; [|by apply IH].
    intros (x & Hx & E)%In_map_iff. apply Hr, In_map_iff. exists x. split; [|done].
    apply list_elem_of_In, List.filter_In in Hx as [Hx _]. by apply list_elem_of_In.
  - intros k (r' & Hr' & ->)%In_map_iff. apply list_elem_of_In, List.filter_In in Hr' as [Hr' Hf].
    apply list_elem_of_In in Hr'. destruct (Hin r' Hr' Hf) as (r & Hr & E & Hg). apply In_map_iff.
    exists r. split; [|done]. by apply list_elem_of_In, List.filter_In; split; [apply list_elem_of_In|].
Qed.

Lemma charged_origin p r r' :
  by_origin p → inbox_next r r' → charged r' && p r' = true → charged r && p r = true.
Proof.
  intros Hp [Hid Ht _ _ _] [Hc Hpr]%andb_true_iff. injection Hid as _ _ _ _ _ _ Hs Ha Hcl _ _ _ _.
  rewrite <- (Hp r r'), Hpr by done. unfold charged, in_inbox_state in *. rewrite <- Hs.
  apply andb_true_iff in Hc as [Hsrc Hst]. rewrite Hsrc. destruct (ib_state r) eqn:E; try done.
  rewrite (Ht ltac:(done)), E in Hst. done.
Qed.

Lemma held_next p d d' :
  by_origin p → schema_ok d → engine_next d d' → no_new_network d d' → held p d' ≤ held p d.
Proof.
  intros Hp Hs Hn Hnew. destruct (Hn Hs) as [Hs' Hi _ _ _ _ _].
  apply count_by_key; [apply Hs'|]. intros r' Hr' Hc.
  destruct (evolves_rows _ _ _ _ _ Hi _ Hr') as [(r & Hr & E & HR)|[_ Hno]].
  - exists r. split_and!; [done|done|]. by eapply charged_origin.
  - destruct Hno. apply Hnew; [done|]. apply andb_true_iff in Hc as [Hc _].
    apply andb_true_iff in Hc as [Hc _]. by apply bool_decide_eq_true_1 in Hc.
Qed.

Lemma held_purge p d d' :
  schema_ok d → purge_next d d' → held p d' ≤ held p d.
Proof.
  intros Hs [Hsub _ _ _ _ _ _ Hs']. apply count_by_key; [by apply Hs'|]. intros r Hr Hc. exists r. auto.
Qed.
End Engine.

(** ** Evaluation *)

Lemma bind_cases {S A C} (m : ST S A) (k : A → ST S C) s e r s' e' :
  (m ≫= k) s e = (r, s', e') →
  (∃ x, m s e = (Err x, s', e') ∧ r = Err x) ∨
  ∃ a s1 e1, m s e = (Ok a, s1, e1) ∧ k a s1 e1 = (r, s', e').
Proof.
  unfold mbind, st_bind. destruct (m s e) as [[[a|x] s1] e1]; intros H; [right; eauto|].
  injection H as <- <- <-. left. eauto.
Qed.

Lemma query_state {S A} (f : S → A) s e r s' e' : query f s e = (r, s', e') → s' = s.
Proof. unfold query, stmt. destruct (next_fault e) as [[] ?]; by intros [= _ -> _]. Qed.

Section Evaluate.
Context {B : Type}.
Implicit Types (n : AdmissionNode B).

Definition node_db n : Db B := w_db (an_world n).

Lemma same_node n : n <| an_world := (an_world n) <| w_db := w_db (an_world n) |> |> = n.
Proof. destruct n as [w ? ? ? ? ? ? ?]. by destruct w. Qed.

Lemma node_query {A} (f : Db B → A) n e r n' e' :
  on_world (on_db (query f)) n e = (r, n', e') → n' = n ∧ query f (node_db n) e = (r, node_db n, e').
Proof.
  unfold on_world, on_db, focus, node_db. destruct (query f (w_db (an_world n)) e) as [[o d] e1] eqn:E.
  pose proof (query_state _ _ _ _ _ _ E) as ->. intros [= <- <- <-]. split; [apply same_node|done].
Qed.

(** What the quota check is told covers the inbox. *)
Record told (from : string) (d : Db B) (usage : list InboxClassUsage) : Prop := {
  tl_all : held anyone d ≤ sum_usage cu_rows usage;
  tl_open : held not_committee d ≤ open_rows usage;
  tl_peer : held (authored_by from) d = sum_usage cu_peer_rows usage;
}.

Lemma merged_told from d totals peer e e' d' :
  covers 0 0 d totals → engine_inbox_peer_usage from d e = (Ok peer, d', e') →
  told from d (merge_peer_usage totals peer).
Proof.
  intros [Ha Ho Hz] Hp. apply peer_usage_held in Hp as (_ & Hnd & Hr & Hs). split.
  - rewrite sum_all, (merge_rows (λ _, true)), <- sum_all by done. lia.
  - unfold open_rows in *. rewrite merge_rows by done. lia.
  - rewrite Forall_forall in Hz. rewrite merge_peer_rows; [|done|auto].
    rewrite (sum_zero cu_peer_rows totals) by auto. lia.
Qed.

Lemma inbox_usage_spec from now n e r n1 e1 :
  inbox_usage from now n e = (r, n1, e1) →
  (∃ c, n1 = n <| an_cache := c |>) ∧
  (cache_covers 0 0 (node_db n) (an_cache n) →
   cache_covers 0 0 (node_db n) (an_cache n1) ∧ ∀ usage, r = Ok usage → told from (node_db n) usage).
Proof.
  unfold inbox_usage. intros Hu. apply bind_cases in Hu as [(x & Hx & _)|(n0 & s & e2 & Hg & Hu)]; [done|].
  injection Hg as <- <- <-.
  assert (∀ totals n2 e2, (∃ c, n2 = n <| an_cache := c |>) →
    (peer ← on_world (on_db (engine_inbox_peer_usage from)); mret (merge_peer_usage totals peer)) n2 e2 =
      (r, n1, e1) → n1 = n2 ∧ (covers 0 0 (node_db n) totals → ∀ usage, r = Ok usage →
        told from (node_db n) usage)) as Hmerge.
  { intros totals n2 e3 (c & ->) Hm. apply bind_cases in Hm as [(x & Hx & ->)|(peer & s & e4 & Hp & Hm)].
    - apply node_query in Hx as [-> _]. done.
    - apply node_query in Hp as [-> Hp]. injection Hm as <- <- <-. split; [done|].
      intros Hc usage [= <-]. by eapply merged_told. }
  apply bind_cases in Hu as [(x & Hx & ->)|(totals & n2 & e3 & Hx & Hu)]; destruct (fresh_totals _ _) eqn:Hf;
    [done| | |].
  - apply bind_cases in Hx as [(y & Hy & [= ->])|(t & s & e4 & Hy & Hx)]; apply node_query in Hy as [-> _]; [|done].
    split; [|by split]. exists (an_cache n). by destruct n.
  - injection Hx as <- <- <-. apply Hmerge in Hu as [-> Ht]; [|exists (an_cache n); by destruct n].
    split; [exists (an_cache n); by destruct n|]. intros Hc. split; [done|]. apply Ht.
    unfold fresh_totals in Hf. destruct (an_cache n) as [[at_ l']|] eqn:Ec; [|done]. case_match; [|done].
    injection Hf as ->. by eapply Hc.
  - apply bind_cases in Hx as [(y & Hy & [= ->])|(t & s & e4 & Hy & Hx)]; apply node_query in Hy as [-> Hy].
    apply bind_cases in Hx as [(y & Hz & [= ->])|([] & s & e5 & Hz & Hx)]. injection Hz as <- <-.
    injection Hx as <- <- <-. apply Hmerge in Hu as [-> Ht]; [|by eexists].
    apply totals_cover in Hy. split; [by eexists|]. intros _. split; [|by apply Ht].
    intros at_ l [= <- <-]. done.
Qed.

(** Room for one more row of the class and the sender. *)
Record room (limits : InboundLimits) (class : SenderClass) (from : string) (d : Db B) : Prop := {
  rm_all : held anyone d + 1 ≤ q_rows (il_global limits);
  rm_open : class ≠ CommitteeSender →
    held not_committee d + 1 ≤ q_rows (il_global limits) - q_rows (il_committee_reserve limits);
  rm_peer : held (authored_by from) d + 1 ≤ q_rows (il_registered_peer limits);
}.

Lemma quota_room limits class len from d usage :
  told from d usage → check_inbox_quota class len usage limits = None → room limits class from d.
Proof.
  intros [Ha Ho Hp]. unfold check_inbox_quota, admits, of_committee. cbn.
  change (sum_usage cu_rows (List.filter _ usage)) with (open_rows usage).
  destruct (sum_usage cu_rows usage + 1 <=? _) eqn:E1; [|done]. destruct (_ <=? q_bytes (il_global limits)); [|done].
  cbn. case_bool_decide as Hc; cbn.
  - destruct (_ <=? q_rows (il_registered_peer limits)) eqn:E3; [|done]. intros _. split; [lia|done|lia].
  - destruct (open_rows usage + 1 <=? _) eqn:E2; [|done].
    destruct (_ <=? q_bytes (il_global limits) - _); [|done]. cbn.
    destruct (_ <=? q_rows (il_registered_peer limits)) eqn:E3; [|done]. intros _. split; lia.
Qed.

Context `{PeerText} `{HashIter} `{MessageCodec}.
Context (limits : InboundLimits) (rates : RateLimits) (local_actor : Actor).

(** The cache after the evaluation, and the room an admitted message has. *)
Definition accounted (from : string) n (r : outcome InboundVerdict) n1 : Prop :=
  cache_covers 0 0 (node_db n) (an_cache n) →
  match r with
  | Ok (Enqueue _ class) =>
      room limits class from (node_db n) ∧ cache_covers 1 (open_row class) (node_db n) (an_cache n1)
  | _ => cache_covers 0 0 (node_db n) (an_cache n1)
  end.

Lemma acquired n e r n1 e1 : on_world acquire n e = (r, n1, e1) → n1 = n.
Proof.
  unfold on_world, acquire, focus, stmt. destruct (next_fault e) as [[] ?]; intros [= _ <- _]; by destruct n.
Qed.

Lemma durable_spec inbound message class now n e r n1 e1 :
  evaluate_durable limits rates local_actor inbound message class now n e = (r, n1, e1) →
  an_world n1 = an_world n ∧ an_replay n1 = an_replay n ∧
  (∀ m c, r = Ok (Enqueue m c) → m = message ∧ c = class ∧
     handled_by (gm_content message) local_actor = true ∧ class_is_registered class = true) ∧
  accounted (peer_to_string (ig_source inbound)) n r n1.
Proof.
  unfold evaluate_durable. destruct (negb _ || negb _) eqn:Hd; intros Hr.
  - apply bind_cases in Hr as [(x & Hx & ->)|(reason & n2 & e2 & Hx & Hr)].
    { destruct (class_is_registered class); [done|]. unfold gate in Hx. by destruct (charge_forward _ _ _ _). }
    assert (an_world n2 = an_world n ∧ an_replay n2 = an_replay n ∧ an_cache n2 = an_cache n) as (<- & <- & Ec).
    { destruct (class_is_registered class); [by injection Hx as _ <- _|]. unfold gate in Hx.
      destruct (charge_forward _ _ _ _). by injection Hx as _ <- _. }
    unfold unless in Hr. unfold accounted. rewrite <- Ec.
    destruct reason; injection Hr as <- <- <-; by split_and!; [..|intros ??[=]|].
  - apply orb_false_iff in Hd as [Hh Hc]. apply negb_false_iff in Hh, Hc.
    apply bind_cases in Hr as [(x & Hx & ->)|([] & n2 & e2 & Hx & Hr)].
    { apply acquired in Hx as ->. by split_and!; [..|intros ??[=]|intros Hcov]. }
    apply acquired in Hx as ->.
    apply bind_cases in Hr as [(x & Hu & ->)|(usage & n2 & e3 & Hu & Hr)];
      apply inbox_usage_spec in Hu as [(c & ->) Hacc].
    { split_and!; [done..|by intros ??[=]|]. intros Hcov. by apply Hacc. }
    unfold unless in Hr. destruct (check_inbox_quota _ _ _ _) eqn:Hq.
    { injection Hr as <- <- <-. split_and!; [done..|by intros ??[=]|]. intros Hcov. by apply Hacc. }
    apply bind_cases in Hr as [(x & Hu & ->)|([] & n3 & e4 & Hu & Hr)]; [done|].
    injection Hu as <- <-. injection Hr as <- <- <-. split_and!; [done..|by intros ??[= <- <-]|].
    intros Hcov. destruct (Hacc Hcov) as [Hcc Ht]. split; [by eapply quota_room; [apply Ht|]|].
    by apply note_admitted_covers.
Qed.

(** What an admitted message has passed. *)
Record vetted (inbound : InboundGossip) (now : Instant) (unix_nanos : Z) n
    (message : GOATMessage) (class : SenderClass) : Prop := {
  vt_envelope : check_envelope (ig_data inbound) (is_verifier (an_registry n) (ig_source inbound)) limits = None;
  vt_class : class = sender_class (an_registry n) (ig_source inbound) now;
  vt_registered : class_is_registered class = true;
  vt_sequence : (admit_sequence (an_replay n) (ig_source inbound) (ig_sequence_number inbound) unix_nanos).1 = None;
  vt_message : deserialize_message (ig_data inbound) = Ok message;
  vt_handled : handled_by (gm_content message) local_actor = true;
  vt_durable : delivered_immediately (gm_content message) = false;
}.

(** The gates before the rate limits change nothing the quota depends on. *)
Lemma evaluate_spec inbound now unix_nanos n e r n1 e1 :
  evaluate_inbound_message limits rates local_actor inbound now unix_nanos n e = (r, n1, e1) →
  an_world n1 = an_world n ∧
  (∀ m c, r = Ok (Enqueue m c) → vetted inbound now unix_nanos n m c ∧
    an_replay n1 =
      (admit_sequence (an_replay n) (ig_source inbound) (ig_sequence_number inbound) unix_nanos).2) ∧
  accounted (peer_to_string (ig_source inbound)) n r n1.
Proof.
  assert (∀ n2 (r2 : outcome InboundVerdict), an_world n2 = an_world n → an_cache n2 = an_cache n →
    (∀ m c, r2 ≠ Ok (Enqueue m c)) →
    an_world n2 = an_world n ∧
    (∀ m c, r2 = Ok (Enqueue m c) → vetted inbound now unix_nanos n m c ∧ an_replay n2 =
      (admit_sequence (an_replay n) (ig_source inbound) (ig_sequence_number inbound) unix_nanos).2) ∧
    accounted (peer_to_string (ig_source inbound)) n r2 n2) as Hstop.
  { intros n2 r2 Ew Ec Hno. split_and!; [done|by intros m c ?%Hno|]. unfold accounted. rewrite Ec.
    destruct r2 as [[| | |m c]|]; try done. by destruct (Hno m c). }
  intros Hr. unfold evaluate_inbound_message in Hr.
  apply bind_cases in Hr as [(x & Hx & _)|(n0 & s & e2 & Hg & Hr)]; [done|]. injection Hg as <- <- <-.
  unfold unless at 1 in Hr. destruct (check_envelope _ _ _) eqn:Henv; [by injection Hr as <- <- <-; apply Hstop|].
  apply bind_cases in Hr as [(x & Hx & ->)|(replayed & n2 & e3 & Hx & Hr)].
  { case_match; [|done]. unfold gate in Hx. by destruct (admit_sequence _ _ _ _). }
  set (class := sender_class (an_registry n) (ig_source inbound) now) in *.
  assert (an_world n2 = an_world n ∧ an_cache n2 = an_cache n ∧ (class_is_registered class = true →
    replayed = (admit_sequence (an_replay n) (ig_source inbound) (ig_sequence_number inbound) unix_nanos).1 ∧
    an_replay n2 = (admit_sequence (an_replay n) (ig_source inbound) (ig_sequence_number inbound) unix_nanos).2))
    as (Ew & Ec & Hseq).
  { destruct (class_is_registered class); [|by injection Hx as <- <- <-]. unfold gate in Hx.
    destruct (admit_sequence _ _ _ _) as [a g]. by injection Hx as <- <- <-. }
  clear Hx. unfold unless at 1 in Hr. destruct replayed; [by injection Hr as <- <- <-; apply Hstop|].
  apply bind_cases in Hr as [(x & Hx & ->)|(over & n3 & e4 & Hx & Hr)]; unfold charge_gate in Hx;
    destruct (charge _ _ _ _ _ _ _) as [[o st]|y]; try done.
  { injection Hx as _ <- _. by apply Hstop. }
  assert (an_world n3 = an_world n ∧ an_cache n3 = an_cache n ∧ an_replay n3 = an_replay n2) as (Ew3 & Ec3 & Er3)
    by (by injection Hx as _ <- _). clear Hx.
  unfold unless in Hr. destruct over; [by injection Hr as <- <- <-; apply Hstop|].
  destruct (deserialize_message _) as [message|x] eqn:Hm; [|by injection Hr as <- <- <-; apply Hstop].
  destruct (is_binary_envelope _ && _); [by injection Hr as <- <- <-; apply Hstop|].
  destruct (_ && _ && _) eqn:Hend; [by injection Hr as <- <- <-; apply Hstop|].
  destruct (delivered_immediately _) eqn:Hdel.
  { apply bind_cases in Hr as [(x & Hx & ->)|(ok & n4 & e5 & Hx & Hr)]; unfold gate in Hx;
      destruct (allow _ _ _) as [a l]; [done|]. injection Hx as <- <- <-. injection Hr as <- <- <-.
    apply Hstop; [done..|]. intros m c. by destruct a. }
  apply durable_spec in Hr as (Ew4 & Er4 & Hen & Hacc).
  split_and!; [by rewrite Ew4|..].
  - intros m c Hok. destruct (Hen m c Hok) as (-> & -> & Hh & Hc). destruct (Hseq Hc) as [Hs1 Hs2].
    split; [by split|]. by rewrite Er4, Er3.
  - unfold accounted, node_db in *. by rewrite Ew3, Ec3 in Hacc.
Qed.
End Evaluate.

(** ** A received message *)

Section Handle.
Context {B : Type} `{PeerText} `{HashIter} `{MessageCodec} `{UuidText} `{EngineEffects.Sha256} `{InboundCodec}.
Context (limits : InboundLimits) (rates : RateLimits) (local_actor : Actor) (local_peer : string).
Implicit Types (n : AdmissionNode B).

Abbreviation handle := (handle_inbound_p2p_message limits rates local_actor local_peer).

(** The event of a message, as the inbox is given it. *)
Definition event_of (inbound : InboundGossip) (message : GOATMessage) (class : SenderClass) : option NewEvent :=
  match inbound_event local_actor (peer_to_string (ig_source inbound)) local_peer (gm_content message)
          (ig_data inbound) with
  | Ok (Some event) => Some (with_admission_class (sender_class_str class) event)
  | _ => None
  end.

Lemma inbound_event_fields actor author peer content raw event :
  inbound_event actor author peer content raw = Ok (Some event) →
  ne_author event = author ∧ ne_source event = Network ∧ ne_kind event = event_type content ∧
  match business_ref content with
  | GraphRef i g =>
      ne_aggregate event = graph_ref g ∧
      ne_event_id event = content_event_id author (event_type content)
                            (uuid_to_string i +:+ ":" +:+ uuid_to_string g) raw
  | InstanceRef i =>
      ne_aggregate event = instance_ref i ∧
      ne_event_id event = content_event_id author (event_type content) (uuid_to_string i) raw
  | Unscoped => False
  end.
Proof.
  unfold inbound_event. intros He.
  destruct content; cbn [business_ref event_type] in *; try done;
    match type of He with
    | context [graph_engine_handles ?k ?a] => destruct (graph_engine_handles k a); [|done]
    | context [engine_handles ?k ?a] => destruct (engine_handles k a); [|done]
    end; ok_inv; subst; done.
Qed.

(** The world is left alone or an admitted message's event is submitted to it; the cache
    is what the evaluation left. *)
Lemma handle_spec inbound now unix_nanos control n e :
  ∃ r n1 e1, evaluate_inbound_message limits rates local_actor inbound now unix_nanos n e = (r, n1, e1) ∧
  let n' := final (handle inbound now unix_nanos control n e) in
  an_cache n' = an_cache n1 ∧
  (an_world n' = an_world n ∨
   ∃ message class event, r = Ok (Enqueue message class) ∧ event_of inbound message class = Some event ∧
     an_world n' = final (submit event (an_world n) e1)).
Proof.
  unfold handle_inbound_p2p_message.
  destruct (evaluate_inbound_message _ _ _ _ _ _ _ _) as [[r n1] e1] eqn:He. exists r, n1, e1. split; [done|].
  cbn zeta. rewrite final_bind, He. apply evaluate_spec in He as (Ew & _ & _). rewrite <- Ew.
  destruct r as [[reason|message| |message class]|x]; [| | | |by auto].
  - rewrite final_bind. destruct (blames_direct_peer reason); [|by auto]. unfold strike_direct_peer, modify.
    cbn. case_match; by auto.
  - destruct control; by auto.
  - by auto.
  - rewrite final_bind. unfold record_engine_message, event_of.
    unfold mbind, st_bind, st_lift. destruct (inbound_event _ _ _ _ _) as [[event|]|x] eqn:Hi; [|by auto..].
    unfold on_world, focus. destruct (submit _ _ _) as [[[o|x] w] e2] eqn:Hs; cbn; (split; [done|]); right;
      exists message, class; eexists; (split_and!; [done|by rewrite Hi|by rewrite Hs]).
Qed.
(** The row of a message's event. *)
Lemma event_row inbound message class event seq now :
  event_of inbound message class = Some event →
  let row := new_inbox_row (into_store event) seq now in
  ib_author row = peer_to_string (ig_source inbound) ∧ ib_admission_class row = sender_class_str class.
Proof.
  unfold event_of. destruct (inbound_event _ _ _ _ _) as [[e|]|] eqn:He; [|done..]. intros [= <-].
  apply inbound_event_fields in He as (Ha & _). unfold new_inbox_row. cbn. by destruct (ne_ack e).
Qed.

(** ** Runs of the node *)

Context `{AckSetJson} `{JobResultJson} `{Transport}.
Context (config : EngineConfig) (handlers : string → option (Handler B)).
Context (runners : string → string → option (JobRunner B)).

(** The event loop receives messages one at a time.  The engine's tasks run in between;
    what they submit themselves does not come from the network.  Everything else that
    maintains the gates leaves the cached totals alone or, at a restart, drops them. *)
Inductive admission_step : AdmissionNode B → AdmissionNode B → Prop :=
| step_receive inbound now unix_nanos control n e :
    admission_step n (final (handle inbound now unix_nanos control n e))
| step_engine n w :
    engine_step config handlers runners (an_world n) w → no_new_network (node_db n) (w_db w) →
    admission_step n (n <| an_world := w |>)
| step_gates n n' :
    an_world n' = an_world n → an_cache n' = an_cache n ∨ an_cache n' = None → admission_step n n'.

(** Within the quotas, with a cache that does not undercount. *)
Record quotas_ok (n : AdmissionNode B) : Prop := {
  qo_schema : schema_ok (node_db n);
  qo_cache : cache_covers 0 0 (node_db n) (an_cache n);
  qo_all : held anyone (node_db n) ≤ q_rows (il_global limits);
  qo_open : held not_committee (node_db n) ≤ q_rows (il_global limits) - q_rows (il_committee_reserve limits);
  qo_peer : ∀ a, held (authored_by a) (node_db n) ≤ q_rows (il_registered_peer limits);
}.

(** A step that adds no charged row keeps the quotas. *)
Lemma quotas_fewer n n' :
  quotas_ok n → schema_ok (node_db n') → (∀ p, by_origin p → held p (node_db n') ≤ held p (node_db n)) →
  an_cache n' = an_cache n ∨ an_cache n' = None → quotas_ok n'.
Proof.
  intros [Hs Hc Ha Ho Hp] Hs' Hle Hcache.
  pose proof (Hle anyone anyone_origin). pose proof (Hle not_committee not_committee_origin).
  split; [done| |lia|lia|].
  - intros at_ totals E. destruct Hcache as [Hcache|Hcache]; [|congruence]. rewrite Hcache in E.
    eapply covers_mono; [..|by eapply Hc]; lia.
  - intros a. pose proof (Hle _ (authored_by_origin a)). specialize (Hp a). lia.
Qed.

Lemma receive_quotas inbound now unix_nanos control n e :
  quotas_ok n → quotas_ok (final (handle inbound now unix_nanos control n e)).
Proof.
  intros Hq. destruct (handle_spec inbound now unix_nanos control n e) as (r & n1 & e1 & He & Hc & Hw).
  set (n' := final _) in *. apply evaluate_spec in He as (_ & _ & Hacc).
  specialize (Hacc (qo_cache _ Hq)). destruct Hq as [Hs Hcov Ha Ho Hp].
  destruct Hw as [Ew|(message & class & event & -> & Hev & Ew)].
  - split; unfold node_db; rewrite ?Ew; [done| |done..]. rewrite Hc. unfold node_db in *.
    intros at_ totals E. destruct r as [[| | |m c]|]; [by eapply Hacc..| |by eapply Hacc].
    eapply covers_mono; [..|by eapply Hacc]; [lia|]. unfold open_row. case_match; lia.
  - destruct Hacc as [[Ra Ro Rp] Hcov'].
    assert (∀ p, by_origin p → held p (node_db n') ≤ held p (node_db n) +
      if p (new_inbox_row (into_store event) 0 0) then 1 else 0) as Hle.
    { intros p Hp'. unfold node_db. rewrite Ew. by apply held_submit. }
    destruct (event_row _ _ _ _ 0 0 Hev) as [Eauthor Eclass].
    pose proof (Hle anyone anyone_origin) as La. cbn in La.
    pose proof (Hle not_committee not_committee_origin) as Lo. unfold not_committee at 3 in Lo.
    rewrite Eclass in Lo. change (negb _) with (open_class (sender_class_str class)) in Lo.
    rewrite open_class_str in Lo. split.
    + unfold node_db in *. rewrite Ew. by apply (submit_next event (an_world n) e1).
    + intros at_ totals E. rewrite Hc in E. eapply covers_mono; [..|by eapply Hcov']; [lia|].
      unfold open_row. destruct (bool_decide _); cbn in Lo; lia.
    + lia.
    + destruct (bool_decide (class = _)) eqn:Eb; cbn in Lo; [lia|]. apply bool_decide_eq_false_1 in Eb.
      specialize (Ro Eb). lia.
    + intros a. pose proof (Hle _ (authored_by_origin a)) as Lp. unfold authored_by at 3 in Lp.
      rewrite Eauthor in Lp. specialize (Hp a). case_bool_decide; [subst a|]; lia.
Qed.
End Handle.
