(* ===== verification/AdmissionQuota.v ===== *)
(** * Vetted messages, kept quotas

    The theorems on the inbox of a node that receives messages, at every reachable state
    and on every message, and a node that receives one.

    Source: node/src/p2p_admission/mod.rs, node/src/p2p_msg_handler.rs,
    node/src/aggregates/common.rs. *)

From Stdlib Require Import QArith_base Ascii.
From stdpp Require Import base list strings gmap sets relations.
From S2P Require Import Prelude Table Storage EngineSchema EngineNext InboxStore EngineConfig.
From S2P Require Import EngineEffects Worker Executor Runtime Engine Sample InboxProps NodeSchema LocalDb.
From S2P Require Import NodeApply InstanceAggregate GraphPegout GraphAggregate NodeHandlers NodeSample.
From S2P Require Import Float64 AdmissionGates AdmissionRate PeerRegistry Admission AdmissionProps.
From S2P Require Import AdmissionRuns.

Local Open Scope Z_scope.

(** ** The quotas of the inbox *)

Section Quota.
Context {B : Type} `{PeerText} `{HashIter} `{MessageCodec} `{UuidText} `{EngineEffects.Sha256} `{InboundCodec}.
Context `{AckSetJson} `{JobResultJson} `{Transport}.
Context (rates : RateLimits) (local_actor : Actor) (local_peer : string).
Context (config : EngineConfig) (handlers : string → option (Handler B)).
Context (runners : string → string → option (JobRunner B)).
Context {laws : NodeLaws handlers runners}.

Lemma admission_step_quotas limits n n' :
  admission_step limits rates local_actor local_peer config handlers runners n n' →
  quotas_ok limits n → quotas_ok limits n'.
Proof using laws.
  intros [inbound now unix_nanos control m e|m w Hst Hnew|m m' Ew Hc] Hq.
  - by apply receive_quotas.
  - pose proof (qo_schema _ _ Hq) as Hs. apply (quotas_fewer _ m); [done| | |by left].
    + by eapply engine_step_schema_ok.
    + intros p Hp. destruct (engine_step_cases _ _ _ _ _ Hst) as [Hn|Hp']; [by apply held_next|].
      by apply held_purge.
  - apply (quotas_fewer _ m); unfold node_db; rewrite ?Ew; [done|apply Hq| |done]. intros; lia.
Qed.

(** C19: whatever is received, however the engine's tasks run in between, the inbox never
    holds more than 16384 network events with a payload, 12288 of senders outside the
    committee, and 1024 of one sender: the totals the node caches for two seconds never
    undercount, and a message is admitted only where one more row fits. *)
Theorem inbox_quota_kept json_bytes inbox_bytes b n0 n :
  an_world n0 = initial config b → an_cache n0 = None →
  rtc (admission_step (with_inbox_bytes json_bytes inbox_bytes) rates local_actor local_peer
         config handlers runners) n0 n →
  let inbox := engine_inbox (w_db (an_world n)) in
  count_where charged inbox ≤ 16384 ∧
  count_where (λ r, charged r && not_committee r) inbox ≤ 12288 ∧
  ∀ author, count_where (λ r, charged r && authored_by author r) inbox ≤ 1024.
Proof using laws.
  intros Ew Ec Hr inbox. set (limits := with_inbox_bytes json_bytes inbox_bytes) in *.
  assert (quotas_ok limits n0) as Hq0.
  { split; unfold node_db; rewrite ?Ew, ?Ec; cbn; try done. apply empty_db_schema_ok. }
  assert (quotas_ok limits n) as [_ _ Ha Ho Hp].
  { clear Ew Ec. induction Hr as [|n1 n2 n3 H12 Hr IH]; [done|].
    apply IH. by eapply admission_step_quotas. }
  split_and!; [|exact Ho|exact Hp]. etrans; [|exact Ha]. apply Z.eq_le_incl.
  unfold held, anyone, inbox, node_db, count_where, select_where. do 2 f_equal.
  apply List.filter_ext. intros r. by rewrite andb_true_r.
Qed.
End Quota.

(** ** Only vetted messages are stored *)

Section Vetted.
Context {B : Type} `{PeerText} `{HashIter} `{MessageCodec} `{UuidText} `{EngineEffects.Sha256} `{InboundCodec}.
Context (limits : InboundLimits) (rates : RateLimits) (local_actor : Actor) (local_peer : string).

(** A known event's row keeps its identifier; a new row is the event's. *)
Lemma insert_new_row ev now (d : Db B) e r :
  r ∈ engine_inbox (final (insert_engine_inbox_event ev now d e)) →
  ib_event_id r ∉ map ib_event_id (engine_inbox d) → ∃ seq, r = new_inbox_row ev seq now.
Proof.
  assert (∀ r, r ∈ engine_inbox d → ib_event_id r ∈ map ib_event_id (engine_inbox d)) as Hold
    by (intros r' Hr'; apply In_map_iff; eauto).
  unfold insert_engine_inbox_event, final, stmt, inbox_update, query, mbind, st_bind.
  destruct (next_fault e) as [[] e1]; [by cbn; intros ?%Hold|].
  unfold insert_or_ignore. destruct (existsb _ (engine_inbox d)); cbn.
  - unfold stmt. destruct (next_fault e1) as [[] e2]; [by cbn; intros ?%Hold|].
    destruct (select_one _ (engine_inbox d)) as [row|]; [|by cbn; intros ?%Hold].
    case_bool_decide; [|by cbn; intros ?%Hold]. unfold stmt.
    destruct (next_fault e2) as [[] e3]; [by cbn; intros ?%Hold|]. cbn.
    intros (x & Hx & ->)%elem_of_update_where Hno. destruct Hno. case_match; by apply (Hold x).
  - intros [Hr|Hr]%elem_of_app Hno; [by destruct Hno; apply Hold|].
    apply list_elem_of_singleton in Hr as ->. eauto.
Qed.

(** C24: a message changes the inbox only if its source is registered, its envelope is
    allowed, its sequence number is accepted, and its content is for this node; the new
    row is then the message's: its sender as the author, with the sender's class, under
    the identifier of its content. *)
Theorem stored_message_vetted inbound now unix_nanos control (n : AdmissionNode B) e r :
  let n' := final (handle_inbound_p2p_message limits rates local_actor local_peer inbound now
                     unix_nanos control n e) in
  r ∈ engine_inbox (w_db (an_world n')) →
  ib_event_id r ∉ map ib_event_id (engine_inbox (w_db (an_world n))) →
  ∃ message class event,
    vetted limits local_actor inbound now unix_nanos n message class ∧
    inbound_event local_actor (peer_to_string (ig_source inbound)) local_peer (gm_content message)
      (ig_data inbound) = Ok (Some event) ∧
    ib_event_id r = ne_event_id event ∧ ib_payload r = Some (ne_payload event) ∧
    ib_source r = source_str Network ∧ ib_author r = peer_to_string (ig_source inbound) ∧
    ib_admission_class r = sender_class_str class ∧ ib_state r = InboxPending.
Proof.
  intros n' Hr Hno.
  destruct (handle_spec limits rates local_actor local_peer inbound now unix_nanos control n e)
    as (v & n1 & e1 & He & _ & Hw). fold n' in Hw.
  destruct Hw as [Ew|(message & class & event & -> & Hev & Ew)].
  { rewrite Ew in Hr. destruct Hno. apply In_map_iff. eauto. }
  apply evaluate_spec in He as (_ & Hv & _). destruct (Hv message class eq_refl) as [Hvet _].
  rewrite Ew in Hr. destruct (submit_db event (an_world n) e1) as [Ed|(t & e2 & Ed)]; rewrite Ed in Hr.
  { destruct Hno. apply In_map_iff. eauto. }
  apply insert_new_row in Hr as [seq ->]; [|done]. unfold event_of in Hev.
  destruct (inbound_event _ _ _ _ _) as [[event0|]|] eqn:Hi; [|done..]. injection Hev as <-.
  exists message, class, event0. split; [done|]. split; [done|].
  apply inbound_event_fields in Hi as (Ha & Hs & _).
  unfold new_inbox_row. cbn. rewrite Hs. destruct (ne_ack event0); by split_and!.
Qed.
End Vetted.

(** A message kept for this node's role has an aggregate that routes it: the evaluation
    and the routing agree, so an admitted message is never refused for want of one; only
    its encoding can fail. *)
Theorem handled_message_routed `{UuidText} `{EngineEffects.Sha256} `{InboundCodec} actor author peer content raw :
  handled_by content actor = true → delivered_immediately content = false →
  match inbound_event actor author peer content raw with
  | Ok (Some event) =>
      match business_ref content with
      | InstanceRef i => ne_aggregate event = instance_ref i ∧ is_Some (route_action (ne_kind event) actor)
      | GraphRef _ g => ne_aggregate event = graph_ref g ∧ is_Some (graph_route_action (ne_kind event) actor)
      | Unscoped => False
      end
  | Ok None => False
  | Err x => ∃ m, inbound_encode m = Err x
  end.
Proof.
  intros Hh Hd. assert (∀ {A} (o : option A), is_some o = true → is_Some o) as Hsome
    by (intros A [] ?; [by eexists|done]).
  destruct (inbound_event _ _ _ _ _) as [[event|]|x] eqn:Hi.
  - pose proof (inbound_event_fields _ _ _ _ _ _ Hi) as (_ & _ & Hk & Hb). rewrite Hk.
    destruct content; cbn [business_ref] in *; destruct Hb as [-> _] || done; split; try done; by apply Hsome.
  - unfold inbound_event in Hi. destruct content; try done; cbn [business_ref handled_by event_type] in *;
      rewrite Hh in Hi; by destruct (inbound_encode _).
  - unfold inbound_event in Hi. destruct content; try done; cbn [business_ref handled_by event_type] in *;
      rewrite Hh in Hi; destruct (inbound_encode _) eqn:Ei; try done; injection Hi as <-; by eexists.
Qed.

(** ** Encoding *)

Lemma substring_all (s : string) : String.substring 0 (String.length s) s = s.
Proof. induction s as [|c s IH]; [done|]. cbn. by rewrite IH. Qed.

Lemma substring_app (p s : string) :
  String.substring (String.length p) (String.length (p +:+ s) - String.length p) (p +:+ s) = s.
Proof.
  induction p as [|c p IH]; [change (EmptyString +:+ s) with s; cbn; rewrite Nat.sub_0_r; apply substring_all|].
  change (String c p +:+ s) with (String c (p +:+ s)). exact IH.
Qed.

Lemma object_not_binary b : String.prefix "{" b = true → is_binary_envelope b = false.
Proof. destruct b as [|c b]; [done|]. destruct c as [[] [] [] [] [] [] [] []]; done. Qed.

(** What a node sends, every node reads as it was; and only the circuits, the one kind
    that is allowed behind it, use the binary envelope. *)
Theorem message_round_trip `{MessageLaws} message data :
  serialize_message message = Ok data →
  deserialize_message data = Ok message ∧
  is_binary_envelope data = match gm_content message with GenCircuits _ _ _ => true | _ => false end.
Proof.
  intros Hs. assert (message_to_json message = Ok data →
    deserialize_message data = Ok message ∧ is_binary_envelope data = false) as Hjson.
  { intros Hj. unfold deserialize_message. assert (is_binary_envelope data = false) as ->.
    { by apply object_not_binary, (json_object message). }
    split; [by apply json_round_trip|done]. }
  unfold serialize_message in Hs. destruct (gm_content message); try (by apply Hjson). ok_inv. subst.
  unfold deserialize_message, is_binary_envelope. rewrite prefix_app. split; [|done].
  rewrite substring_app. by apply bincode_round_trip.
Qed.

(** ** A node that receives a message *)

#[export] Instance sample_peer_text : PeerText := {
  peer_to_string p := p;
  peer_from_str s := Ok s;
}.
#[local] Existing Instance key_order.
#[export] Instance sample_messages : MessageCodec := {
  message_to_bincode _ := Err ["not encoded"%string];
  message_from_bincode _ := Err ["unexpected end of file"%string];
  message_to_json m :=
    match m with
    | mkMessage Committee (PeginConfirmNonce 1%N rest) => Ok ("{" +:+ rest)
    | _ => Err ["not encoded"%string]
    end;
  message_from_json b :=
    match b with
    | String "{"%char rest => Ok (mkMessage Committee (PeginConfirmNonce 1%N rest))
    | _ => Err ["expected value"%string]
    end;
}.

#[export] Instance sample_messages_laws : MessageLaws.
Proof.
  split; cbn; [done|..]; intros [actor content] b Hj; destruct actor, content as
    [| | | | | | | | | | | |i rest| | | |]; try done; destruct i as [|[]]; try done; injection Hj as <-; by destruct rest.
Qed.

Definition sample_limits : InboundLimits := with_inbox_bytes 1048576 268435456.

(** Its registry knows one verifier, [v]. *)
Definition sample_admission : AdmissionNode NodeTables :=
  mkNode node_world (empty_registry <| rg_verifiers := {["v"%string]} |>) (mkReplayGuard ∅ ∅)
    (new_rate_state default_limits 0) (new_peer_limiter (240 # 1)%Q (2 # 1)%Q 4096) None (mkStrikes ∅ ∅)
    (new_cooldown_gate 60 4096).

Definition sample_gossip : InboundGossip := mkGossip "n" "v" (Some 5) "{n".

Definition received : AdmissionNode NodeTables :=
  final (handle_inbound_p2p_message sample_limits default_limits Committee "me" sample_gossip 0 10 true
           sample_admission (quiet 100)).

(** The row it stores. *)
Definition inbox_head (n : AdmissionNode NodeTables) : EngineInboxEvent :=
  default (new_inbox_row (mkNewInboxEvent "" "" "" "" "" "" "" "" None) 0 0) (head (engine_inbox (w_db (an_world n)))).

Lemma received_inbox : engine_inbox (w_db (an_world received)) = [inbox_head received].
Proof. by vm_compute. Qed.

Lemma inbox_quota_kept_witness :
  let inbox := engine_inbox (w_db (an_world received)) in
  count_where charged inbox ≤ 16384 ∧
  count_where (λ r, charged r && not_committee r) inbox ≤ 12288 ∧
  ∀ author, count_where (λ r, charged r && authored_by author r) inbox ≤ 1024.
Proof.
  apply (inbox_quota_kept default_limits Committee "me" default_config sample_node no_jobs
    1048576 268435456 sample_tables sample_admission); [done..|].
  apply rtc_once, step_receive.
Defined.

Lemma stored_message_vetted_witness :
  ∃ message class event,
    vetted sample_limits Committee sample_gossip 0 10 sample_admission message class ∧
    inbound_event Committee "v" "me" (gm_content message) "{n" = Ok (Some event) ∧
    ib_author (inbox_head received) = "v"%string ∧
    ib_admission_class (inbox_head received) = sender_class_str class.
Proof.
  destruct (stored_message_vetted sample_limits default_limits Committee "me" sample_gossip 0 10 true
    sample_admission (quiet 100) (inbox_head received)) as (m & c & ev & Hv & Hi & _ & _ & _ & Ha & Hc & _).
  - change (inbox_head received ∈ engine_inbox (w_db (an_world received))). rewrite received_inbox. left.
  - apply not_elem_of_nil.
  - exists m, c, ev. exact (conj Hv (conj Hi (conj Ha Hc))).
Defined.

Lemma message_round_trip_witness :
  deserialize_message "{n" = Ok (mkMessage Committee (PeginConfirmNonce 1%N "n")) ∧
  is_binary_envelope "{n" = false.
Proof. by apply (message_round_trip (mkMessage Committee (PeginConfirmNonce 1%N "n")) "{n"). Defined.

Lemma handled_message_routed_witness :
  match inbound_event Committee "v" "me" (PeginConfirmNonce 1%N "n") "{n" with
  | Ok (Some event) =>
      ne_aggregate event = instance_ref 1%N ∧ is_Some (route_action (ne_kind event) Committee)
  | Ok None => False
  | Err x => ∃ m, inbound_encode m = Err x
  end.
Proof. by apply (handled_message_routed Committee "v" "me" (PeginConfirmNonce 1%N "n") "{n"). Defined.
