(* ===== verification/Timelocks.v ===== *)
(** * Timelocks

    The relative timelocks of a graph per Bitcoin network, the timing budget a node checks them
    against, and what an accepted configuration guarantees.

    Source: crates/bitvm-gc/src/timelocks.rs.  [TimelockConfig] is the record of crate [goat]; its
    fields are [u32] values. *)

From stdpp Require Import base list strings pretty.
From S2P Require Import Prelude.

Local Open Scope Z_scope.

Inductive BtcNetwork : Type := NetBitcoin | NetTestnet | NetTestnet4 | NetSignet | NetRegtest.

#[export] Instance BtcNetwork_eq_dec : EqDecision BtcNetwork.
Proof. solve_decision. Defined.

Record TimelockConfig := mkTimelock {
  tl_connector_z : Z;
  tl_connector_a : Z;
  tl_prover_connector : Z;
  tl_connector_d : Z;
  tl_watchtower_challenge : Z;
  tl_operator_ack : Z;
  tl_operator_commit : Z;
  tl_connector_f : Z;
}.

#[export] Instance TimelockConfig_eq_dec : EqDecision TimelockConfig.
Proof. solve_decision. Defined.

Definition NODE_BITCOIN_TIMELOCK_CONFIG : TimelockConfig := mkTimelock 144 144 144 432 144 288 432 576.
Definition NODE_TESTNET_TIMELOCK_CONFIG : TimelockConfig := mkTimelock 100 6 16 32 20 28 42 56.
Definition NODE_SIGNET_TIMELOCK_CONFIG : TimelockConfig := mkTimelock 6 6 6 18 6 12 18 24.
Definition NODE_REGTEST_TIMELOCK_CONFIG : TimelockConfig := mkTimelock 60 2 1 3 1 2 3 4.

Definition default_timelock_config (network : BtcNetwork) : TimelockConfig :=
  match network with
  | NetBitcoin => NODE_BITCOIN_TIMELOCK_CONFIG
  | NetTestnet | NetTestnet4 => NODE_TESTNET_TIMELOCK_CONFIG
  | NetSignet => NODE_SIGNET_TIMELOCK_CONFIG
  | NetRegtest => NODE_REGTEST_TIMELOCK_CONFIG
  end.

Definition estimated_block_interval_secs (network : BtcNetwork) : Z :=
  match network with
  | NetBitcoin => 600
  | NetTestnet | NetTestnet4 => 300
  | NetSignet => 60
  | NetRegtest => 60
  end.

Record ProtocolTimingBudget := mkBudget {
  tb_evidence_confirmations : Z;
  tb_reaction_blocks : Z;
  tb_watchtower_proof_blocks : Z;
  tb_inclusion_blocks : Z;
  tb_safety_blocks : Z;
}.

(** [u32::saturating_add] and [u32::saturating_sub]. *)
Definition action_window (self : ProtocolTimingBudget) : Z :=
  u32_saturating_add (u32_saturating_add (tb_reaction_blocks self) (tb_inclusion_blocks self))
    (tb_safety_blocks self).

Definition watchtower_proof_window (self : ProtocolTimingBudget) : Z :=
  u32_saturating_add (action_window self) (tb_watchtower_proof_blocks self).

Definition confirmed_action_window (self : ProtocolTimingBudget) : Z :=
  u32_saturating_add (u32_saturating_add (tb_evidence_confirmations self) (tb_inclusion_blocks self))
    (tb_safety_blocks self).

Definition protocol_timing_budget (network : BtcNetwork) : ProtocolTimingBudget :=
  match network with
  | NetBitcoin => mkBudget 6 6 24 6 6
  | NetTestnet | NetTestnet4 => mkBudget 10 2 12 2 2
  | NetSignet => mkBudget 1 1 2 1 1
  | NetRegtest => mkBudget 0 1 0 0 0
  end.

Definition NODE_REGTEST_PEGIN_ABANDON_BUFFER_BLOCKS : Z := 6.

Definition default_pegin_abandon_buffer_blocks (network : BtcNetwork) : Z :=
  match network with
  | NetRegtest => NODE_REGTEST_PEGIN_ABANDON_BUFFER_BLOCKS
  | _ => confirmed_action_window (protocol_timing_budget network)
  end.

Definition BIP68_BLOCKS_MASK : Z := 0xffff.

(** [value & !BIP68_BLOCKS_MASK]. *)
Definition ensure_bip68_height_based_sequence (name : string) (value : Z) : outcome unit :=
  require (Z.land value (Z.lxor BIP68_BLOCKS_MASK u32_max) =? 0)
    ("timelock_config." +:+ name +:+ " must use a BIP68 height-based sequence value, got " +:+ pretty value).

Definition ensure_gap_at_least (left_name : string) (left : Z) (right_name : string)
    (right required_blocks : Z) : outcome unit :=
  let actual_blocks := u32_saturating_sub right left in
  require (required_blocks <=? actual_blocks)
    ("timelock_config." +:+ right_name +:+ " - timelock_config." +:+ left_name +:+ " must be at least " +:+
     pretty required_blocks +:+ " blocks, got " +:+ pretty actual_blocks).

Definition ensure_at_least (name : string) (value required_blocks : Z) : outcome unit :=
  require (required_blocks <=? value)
    ("timelock_config." +:+ name +:+ " must be at least " +:+ pretty required_blocks +:+
     " blocks, got " +:+ pretty value).

(** The named locks, in the order they are checked. *)
Definition timelock_fields (config : TimelockConfig) : list (string * Z) :=
  [("connector_z"%string, tl_connector_z config); ("connector_a"%string, tl_connector_a config);
   ("prover_connector"%string, tl_prover_connector config); ("connector_d"%string, tl_connector_d config);
   ("watchtower_challenge"%string, tl_watchtower_challenge config);
   ("operator_ack"%string, tl_operator_ack config);
   ("operator_commit"%string, tl_operator_commit config); ("connector_f"%string, tl_connector_f config)].

Definition validate_timelock_config (network : BtcNetwork) (config : TimelockConfig) : outcome unit :=
  let budget := protocol_timing_budget network in
  for_each (λ _ '(name, value),
      ensure_bip68_height_based_sequence name value;;
      require (tb_reaction_blocks budget <=? value)
        ("timelock_config." +:+ name +:+ " must be at least " +:+ pretty (tb_reaction_blocks budget) +:+
         " reaction blocks, got " +:+ pretty value))
    tt (timelock_fields config);;
  let default_connector_z := tl_connector_z (default_timelock_config network) in
  require (tl_connector_z config =? default_connector_z)
    ("timelock_config.connector_z must remain " +:+ pretty default_connector_z +:+
     " because connector-z is fixed before graph construction");;
  let action := action_window budget in
  ensure_at_least "connector_a" (tl_connector_a config) action;;
  ensure_at_least "watchtower_challenge" (tl_watchtower_challenge config) (watchtower_proof_window budget);;
  ensure_gap_at_least "watchtower_challenge" (tl_watchtower_challenge config)
    "operator_ack" (tl_operator_ack config) action;;
  ensure_gap_at_least "max(watchtower_challenge, operator_ack)"
    (Z.max (tl_watchtower_challenge config) (tl_operator_ack config))
    "operator_commit" (tl_operator_commit config) (confirmed_action_window budget);;
  ensure_at_least "prover_connector" (tl_prover_connector config) action;;
  ensure_gap_at_least "prover_connector" (tl_prover_connector config)
    "connector_d" (tl_connector_d config) action;;
  ensure_gap_at_least "operator_commit" (tl_operator_commit config)
    "connector_f" (tl_connector_f config) (confirmed_action_window budget).

(** ** What is accepted *)

(** The inequalities between the locks of a configuration, in blocks: [act] to react to a
    transaction, [evid] for a transaction to confirm and settle.  The subtractions saturate, so a
    network that asks for no settling blocks (regtest) orders nothing there. *)
Definition timely (network : BtcNetwork) (c : TimelockConfig) : Prop :=
  let b := protocol_timing_budget network in
  let act := tb_reaction_blocks b + tb_inclusion_blocks b + tb_safety_blocks b in
  let evid := tb_evidence_confirmations b + tb_inclusion_blocks b + tb_safety_blocks b in
  Forall (λ nv, tb_reaction_blocks b ≤ nv.2 < 2 ^ 16) (timelock_fields c) ∧
  tl_connector_z c = tl_connector_z (default_timelock_config network) ∧
  act ≤ tl_connector_a c ∧
  act + tb_watchtower_proof_blocks b ≤ tl_watchtower_challenge c ∧
  tl_watchtower_challenge c + act ≤ tl_operator_ack c ∧
  (0 < evid → tl_operator_ack c + evid ≤ tl_operator_commit c) ∧
  act ≤ tl_prover_connector c ∧
  tl_prover_connector c + act ≤ tl_connector_d c ∧
  (0 < evid → tl_operator_commit c + evid ≤ tl_connector_f c).

Lemma bip68_mask v : 0 ≤ v < 2 ^ 32 →
  Z.land v (Z.lxor BIP68_BLOCKS_MASK u32_max) = 0 ↔ v < 2 ^ 16.
Proof.
  intros Hv. replace (Z.lxor BIP68_BLOCKS_MASK u32_max) with (Z.shiftl (Z.ones 16) 16) by reflexivity.
  split.
  - intros Hz. apply Z.nle_gt. intros Hle.
    assert (Z.shiftr v 16 = 0) as Hs; [|rewrite Z.shiftr_div_pow2 in Hs by lia].
    + apply Z.bits_inj'. intros i Hi. rewrite Z.bits_0, Z.shiftr_spec by lia.
      destruct (decide (i < 16)).
      * assert (Z.testbit (Z.land v (Z.shiftl (Z.ones 16) 16)) (i + 16) = false) as Hb
          by (rewrite Hz; apply Z.bits_0).
        rewrite Z.land_spec, Z.shiftl_spec, Z.ones_spec_low in Hb by lia.
        by rewrite andb_true_r in Hb.
      * destruct (decide (v = 0)) as [->|]; [by rewrite Z.bits_0|].
        apply Z.bits_above_log2; [lia|]. apply Z.log2_lt_pow2; [lia|].
        apply (Z.lt_le_trans _ (2 ^ 32)); [lia|]. apply Z.pow_le_mono_r; lia.
    + apply Z.div_small_iff in Hs; lia.
  - intros Hlt. apply Z.bits_inj'. intros i Hi. rewrite Z.bits_0, Z.land_spec.
    destruct (decide (i < 16)).
    + rewrite Z.shiftl_spec_low, andb_false_r by lia. done.
    + destruct (decide (v = 0)) as [->|]; [by rewrite Z.bits_0|].
      rewrite Z.bits_above_log2; [done|lia|]. apply Z.log2_lt_pow2; [lia|].
      apply (Z.lt_le_trans _ (2 ^ 16)); [lia|]. apply Z.pow_le_mono_r; lia.
Qed.

Lemma require_tt b m : require b m = Ok tt ↔ b = true.
Proof. unfold require. by destruct b. Qed.

Lemma seq_tt (o : outcome unit) (k : outcome unit) : (o;; k) = Ok tt ↔ o = Ok tt ∧ k = Ok tt.
Proof. destruct o as [[]|]; simpl; naive_solver. Qed.

Lemma step_tt (o : outcome unit) (k : unit → outcome unit) : (u ← o; k u) = Ok tt ↔ o = Ok tt ∧ k tt = Ok tt.
Proof. destruct o as [[]|]; simpl; naive_solver. Qed.

Lemma budget_windows network :
  let b := protocol_timing_budget network in
  action_window b = tb_reaction_blocks b + tb_inclusion_blocks b + tb_safety_blocks b ∧
  watchtower_proof_window b = tb_reaction_blocks b + tb_inclusion_blocks b + tb_safety_blocks b +
    tb_watchtower_proof_blocks b ∧
  confirmed_action_window b = tb_evidence_confirmations b + tb_inclusion_blocks b + tb_safety_blocks b ∧
  0 < tb_reaction_blocks b ∧ 0 ≤ tb_inclusion_blocks b ∧ 0 ≤ tb_safety_blocks b ∧
  0 ≤ tb_evidence_confirmations b.
Proof. by destruct network. Qed.

Lemma fields_checked (r : Z) fields :
  Forall (λ nv, 0 ≤ nv.2 < 2 ^ 32) fields →
  for_each (λ _ '(name, value),
      ensure_bip68_height_based_sequence name value;;
      require (r <=? value) ("timelock_config." +:+ name +:+ " must be at least " +:+ pretty r +:+
                             " reaction blocks, got " +:+ pretty value)) tt fields = Ok tt ↔
  Forall (λ nv : string * Z, r ≤ nv.2 < 2 ^ 16) fields.
Proof.
  induction 1 as [|[name v] fields Hv _ IH]; [by split|]. cbn [for_each].
  rewrite Forall_cons, <-IH.
  rewrite step_tt, seq_tt. unfold ensure_bip68_height_based_sequence. rewrite !require_tt.
  rewrite Z.eqb_eq, bip68_mask, Z.leb_le by done. simpl. naive_solver lia.
Qed.

Lemma accepted_timely network c :
  Forall (λ nv, 0 ≤ nv.2 < 2 ^ 32) (timelock_fields c) →
  validate_timelock_config network c = Ok tt ↔ timely network c.
Proof.
  intros Hr. unfold validate_timelock_config, timely.
  rewrite seq_tt, (fields_checked _ _ Hr), !seq_tt.
  unfold ensure_at_least, ensure_gap_at_least. rewrite !require_tt, Z.eqb_eq, !Z.leb_le.
  destruct (budget_windows network) as (-> & -> & -> & ? & ? & ? & ?).
  unfold u32_saturating_sub. unfold timelock_fields.
  rewrite !Forall_cons. simpl. intuition lia.
Qed.

Lemma defaults_timely network : timely network (default_timelock_config network).
Proof. destruct network; repeat constructor; simpl; done. Qed.

(** C29: a node accepts a timelock configuration exactly when every lock fits the sixteen bits of a
    height-based relative lock and leaves the network's reaction time, and the locks are far enough
    apart for each party to act: the watchtower to prove, the operator to acknowledge and to commit,
    a disprover to act before the operator's second claim. *)
Theorem timelock_config_accepted network c
    (Hu32 : Forall (λ nv, 0 ≤ nv.2 < 2 ^ 32) (timelock_fields c)) :
  validate_timelock_config network c = Ok tt ↔ timely network c.
Proof. by apply accepted_timely. Qed.

Lemma timelock_config_accepted_witness :
  validate_timelock_config NetBitcoin NODE_BITCOIN_TIMELOCK_CONFIG = Ok tt.
Proof.
  apply (timelock_config_accepted NetBitcoin NODE_BITCOIN_TIMELOCK_CONFIG).
  - repeat constructor; simpl; done.
  - apply (defaults_timely NetBitcoin).
Defined.
