(* ===== verification/Committee.v ===== *)
(** * The committee's MuSig2 material

    The nonces, transcripts and partial signatures of a committee member: for the
    Peg-In-Confirm of an instance and for the pre-signed transactions of a graph.

    Source: crates/bitvm-gc/src/committee/api.rs, crates/bitvm-gc/src/keys.rs,
    crates/bitvm-gc/src/types.rs.  The crates [musig2], [secp256k1], [hkdf],
    [serde_json] and [bitcoin] and the transaction types of crate [goat] are the
    classes [Musig2], [RoundJson], [Taproot] and [Goat]. *)

From stdpp Require Import base list strings pretty.
From S2P Require Import Prelude EngineEffects NodeSchema NodeApply Timelocks.

Local Open Scope Z_scope.

(** ** Data

    Keys, nonces and signatures are their encodings; a public key is the text that
    keys the stored round data. *)

Abbreviation PublicKey := string (only parsing).
Abbreviation XOnlyPublicKey := string (only parsing).
Abbreviation Keypair := string (only parsing).
Abbreviation SecNonce := string (only parsing).
Abbreviation PubNonce := string (only parsing).
Abbreviation AggNonce := string (only parsing).
Abbreviation PartialSignature := string (only parsing).
Abbreviation SchnorrSignature := string (only parsing).
Abbreviation Script := string (only parsing).

Inductive TapSighashType : Type :=
| SighashDefault | SighashAll | SighashNone | SighashSingle
| AllPlusAnyoneCanPay | NonePlusAnyoneCanPay | SinglePlusAnyoneCanPay.

#[export] Instance TapSighashType_eq_dec : EqDecision TapSighashType.
Proof. solve_decision. Defined.

Record TaprootSignature := mkTaprootSignature {
  ts_signature : SchnorrSignature;
  ts_sighash_type : TapSighashType;
}.

Record TxOut := mkTxOut { to_value : Z; to_script_pubkey : Script }.

(** A transaction: version, inputs and lock time, its outputs, and the witness of every input. *)
Record Transaction := mkTransaction {
  tx_body : bytes;
  tx_output : list TxOut;
  tx_witness : list (list bytes);
}.

(** What the traits [PreSignedTransaction] and [BaseTransaction] give access to. *)
Record PreSigned := mkPreSigned {
  ps_name : string;
  ps_tx : Transaction;
  ps_prev_outs : list TxOut;
  ps_prev_scripts : list Script;
}.

Inductive Prevouts : Type :=
| PrevoutsOne (index : nat) (prevout : TxOut)
| PrevoutsAll (prevouts : list TxOut).

(** [Input]: an outpoint with its amount. *)
Record Input := mkInput { in_txid : Txid; in_vout : Z; in_amount : Z }.

Record UserInfo := mkUserInfo {
  ui_depositor_evm_address : bytes;
  ui_txn_fees : Z * Z * Z;
  ui_inputs : list Input;
  ui_user_xonly_pubkey : XOnlyPublicKey;
  ui_user_change_address : string;
  ui_user_refund_address : string;
}.

Record BitvmGcInstanceParameters := mkInstanceParameters {
  bi_network : BtcNetwork;
  bi_instance_id : Uuid;
  bi_user_info : UserInfo;
  bi_pegin_amount : Z;
  bi_committee_pubkeys : list PublicKey;
  bi_committee_agg_pubkey : PublicKey;
}.

Record PrekickoffParameters := mkPrekickoffParameters {
  pk_cur_prekickoff_txn : PreSigned;
  pk_replenish_fee_inputs : list Input;
  pk_replenish_fee_prev_outs : list TxOut;
  pk_fee_amount : Z;
}.

Record BitvmGcCircuitData := mkCircuitData {
  cd_verifier_pubkey : PublicKey;
  cd_final_msg_hashlocks : list bytes;
  cd_wire_hashes : list bytes;
}.

Record BitvmGcGraphParameters := mkGraphParameters {
  bp_instance_parameters : BitvmGcInstanceParameters;
  bp_prekickoff_parameters : PrekickoffParameters;
  bp_timelock_config : TimelockConfig;
  bp_graph_id : Uuid;
  bp_graph_nonce : Z;
  bp_challenge_amount : Z;
  bp_operator_pubkey : PublicKey;
  bp_operator_assert_wots_pubkey : list bytes;
  bp_operator_commit_pubin_wots_pubkey : list bytes;
  bp_operator_receive_address : string;
  bp_watchtower_pubkeys : list XOnlyPublicKey;
  bp_watchtower_ack_hashlocks : list bytes;
  bp_pubin_disprove_constant : bytes;
  bp_gc_data : list BitvmGcCircuitData;
}.

Record BitvmGcGraph := mkBitvmGraph {
  bg_parameters : BitvmGcGraphParameters;
  bg_operator_pre_signed : bool;
  bg_committee_pre_signed : bool;
  bg_cur_prekickoff : PreSigned;
  bg_next_prekickoff : PreSigned;
  bg_force_skip_kickoff : PreSigned;
  bg_quick_challenge : PreSigned;
  bg_challenge_incomplete_kickoff : PreSigned;
  bg_pegin : PreSigned;
  bg_kickoff : PreSigned;
  bg_take1 : PreSigned;
  bg_challenge : PreSigned;
  bg_watchtower_challenge_init : PreSigned;
  bg_watchtower_challenge_timeouts : list PreSigned;
  bg_operator_challenge_nacks : list PreSigned;
  bg_operator_commit_timeout : PreSigned;
  bg_operator_assert : PreSigned;
  bg_verifier_asserts : list PreSigned;
  bg_disproves : list PreSigned;
  bg_take2 : PreSigned;
}.

#[export] Instance eta_BitvmGcGraph : Eta BitvmGcGraph := λ g,
  mkBitvmGraph (bg_parameters g) (bg_operator_pre_signed g) (bg_committee_pre_signed g)
    (bg_cur_prekickoff g) (bg_next_prekickoff g) (bg_force_skip_kickoff g)
    (bg_quick_challenge g) (bg_challenge_incomplete_kickoff g) (bg_pegin g) (bg_kickoff g)
    (bg_take1 g) (bg_challenge g) (bg_watchtower_challenge_init g)
    (bg_watchtower_challenge_timeouts g) (bg_operator_challenge_nacks g)
    (bg_operator_commit_timeout g) (bg_operator_assert g) (bg_verifier_asserts g)
    (bg_disproves g) (bg_take2 g).

(** One value per nonce slot. *)
Record CommitteeMusig2Data (T : Type) := mkMusig2 {
  md_take1 : list T;
  md_take2 : list T;
  md_challenge : list T;
  md_watchtower_challenge_timeout : list T;
  md_operator_challenge_nack : list T;
  md_operator_commit_timeout : list T;
  md_disprove : list T;
}.
Arguments mkMusig2 {T}.
Arguments md_take1 {T}. Arguments md_take2 {T}. Arguments md_challenge {T}.
Arguments md_watchtower_challenge_timeout {T}. Arguments md_operator_challenge_nack {T}.
Arguments md_operator_commit_timeout {T}. Arguments md_disprove {T}.

#[export] Instance CommitteeMusig2Data_eq_dec `{EqDecision T} : EqDecision (CommitteeMusig2Data T).
Proof. solve_decision. Defined.

#[export] Instance eta_CommitteeMusig2Data {T} : Eta (CommitteeMusig2Data T) := λ d,
  mkMusig2 (md_take1 d) (md_take2 d) (md_challenge d) (md_watchtower_challenge_timeout d)
    (md_operator_challenge_nack d) (md_operator_commit_timeout d) (md_disprove d).

Abbreviation CommitteeSecNonces := (CommitteeMusig2Data SecNonce) (only parsing).
Abbreviation CommitteePubNonces := (CommitteeMusig2Data PubNonce) (only parsing).
Abbreviation CommitteeNonceSignatures := (CommitteeMusig2Data SchnorrSignature) (only parsing).
Abbreviation CommitteeAggNonces := (CommitteeMusig2Data AggNonce) (only parsing).
Abbreviation CommitteePartialSignatures := (CommitteeMusig2Data PartialSignature) (only parsing).
Abbreviation CommitteeSignatures := (CommitteeMusig2Data TaprootSignature) (only parsing).

(** ** The libraries *)

Class Musig2 := {
  public_key : Keypair → PublicKey;
  secret_bytes : Keypair → bytes;
  pubkey_to_bytes : PublicKey → bytes;
  xonly : PublicKey → XOnlyPublicKey;
  sign_schnorr : Keypair → bytes → SchnorrSignature;
  verify_schnorr : SchnorrSignature → bytes → XOnlyPublicKey → outcome unit;
  sec_nonce_build : bytes → SecNonce;
  public_nonce : SecNonce → PubNonce;
  get_nonce_message : PubNonce → bytes;
  verify_public_nonce : SchnorrSignature → PubNonce → XOnlyPublicKey → bool;
  generate_aggregated_nonce : list PubNonce → AggNonce;
  pub_nonce_serialize : PubNonce → bytes;
  generate_n_of_n_public_key : list PublicKey → PublicKey * XOnlyPublicKey;
  key_agg_context_new : list PublicKey → outcome bytes;
  verify_partial : bytes → PartialSignature → AggNonce → PublicKey → PubNonce → bytes → outcome unit;
  hkdf_derive_bytes : bytes → bytes → bytes → nat → bytes;
}.

(** Signatures made with a key verify under it, a nonce signature is one of the nonce's
    message, and no encoding of a key begins another. *)
Class Musig2Laws `{Musig2} : Prop := {
  schnorr_correct k m : verify_schnorr (sign_schnorr k m) m (xonly (public_key k)) = Ok tt;
  public_nonce_check sig n x :
    verify_public_nonce sig n x = is_ok (verify_schnorr sig (get_nonce_message n) x);
  pubkey_prefix_free a b s t :
    pubkey_to_bytes a +:+ s = pubkey_to_bytes b +:+ t → a = b ∧ s = t;
}.

Class RoundJson := {
  instance_parameters_to_vec : BitvmGcInstanceParameters → outcome bytes;
  graph_parameters_to_vec : BitvmGcGraphParameters → outcome bytes;
  pub_nonce_to_vec : PubNonce → outcome bytes;
  agg_nonce_to_vec : AggNonce → outcome bytes;
  pub_nonces_to_vec : CommitteePubNonces → outcome bytes;
  agg_nonces_to_vec : CommitteeAggNonces → outcome bytes;
  pub_nonces_bincode : CommitteePubNonces → outcome bytes;
}.

(** What was encoded can be decoded, and a vector's length is a [usize]. *)
Class RoundJsonLaws `{RoundJson} : Prop := {
  instance_parameters_inj p q b :
    instance_parameters_to_vec p = Ok b → instance_parameters_to_vec q = Ok b → p = q;
  graph_parameters_inj p q b :
    graph_parameters_to_vec p = Ok b → graph_parameters_to_vec q = Ok b → p = q;
  graph_parameters_size p b :
    graph_parameters_to_vec p = Ok b → Z.of_nat (String.length b) < u64_modulus;
  pub_nonce_inj m n b : pub_nonce_to_vec m = Ok b → pub_nonce_to_vec n = Ok b → m = n;
  pub_nonce_size n b : pub_nonce_to_vec n = Ok b → Z.of_nat (String.length b) < u64_modulus;
  pub_nonces_inj m n b : pub_nonces_to_vec m = Ok b → pub_nonces_to_vec n = Ok b → m = n;
  pub_nonces_size n b : pub_nonces_to_vec n = Ok b → Z.of_nat (String.length b) < u64_modulus;
}.

Class Taproot := {
  tap_leaf_hash : Script → bytes;
  taproot_script_spend_signature_hash :
    Transaction → nat → Prevouts → bytes → TapSighashType → outcome bytes;
  is_p2tr : Script → bool;
  xonly_from_slice : bytes → outcome XOnlyPublicKey;
  ControlBlock : Type;
  control_block_decode : bytes → outcome ControlBlock;
  verify_taproot_commitment : ControlBlock → XOnlyPublicKey → Script → bool;
  taproot_signature_from_slice : bytes → outcome TaprootSignature;
}.

(** A [TapSighash] has 32 bytes. *)
Class TaprootLaws `{Taproot} : Prop :=
  sighash_size tx i ps leaf ty h :
    taproot_script_spend_signature_hash tx i ps leaf ty = Ok h → String.length h = 32%nat.

(** SHA-256 digests have 32 bytes. *)
Class Sha256Size `{Sha256} : Prop := sha256_size m : String.length (sha256 m) = 32%nat.

(** The transaction types of crate [goat]: what a committee member signs of each, how the
    partial signatures of one input are combined and where they are put. *)
Inductive TxKind : Type :=
| Take1Tx | Take2Tx | ChallengeTx | WatchtowerChallengeTimeoutTx
| OperatorChallengeNackTx | OperatorCommitTimeoutTx | DisproveTx.

Inductive Connector : Type := Connector0 | ConnectorA | ConnectorC | ConnectorD | ConnectorE | ConnectorF.

(** [CommitteeContext] and [BaseBitvmContext]. *)
Record CommitteeContext := mkCommitteeContext {
  cc_network : BtcNetwork;
  cc_committee_keypair : Keypair;
  cc_committee_public_key : PublicKey;
  cc_n_of_n_public_keys : list PublicKey;
  cc_n_of_n_public_key : PublicKey;
  cc_n_of_n_taproot_public_key : XOnlyPublicKey;
}.
Record BaseContext := mkBaseContext {
  bc_network : BtcNetwork;
  bc_n_of_n_public_keys : list PublicKey;
  bc_n_of_n_public_key : PublicKey;
  bc_n_of_n_taproot_public_key : XOnlyPublicKey;
}.

Class Goat := {
  ConnectorData : Type;
  ConnectorZ : Type;
  Connector0Type : Type;
  connector_0_new : BtcNetwork → XOnlyPublicKey → Connector0Type;
  connector_z_new : BtcNetwork → XOnlyPublicKey → XOnlyPublicKey → TimelockConfig → ConnectorZ;
  pegin_deposit_new_unsigned :
    ConnectorZ → list Input → Z → Z → string → outcome PreSigned;
  connector_z_input : PreSigned → outcome Input;
  pegin_confirm_new_for_validation :
    Connector0Type → ConnectorZ → Input → Z → bytes → outcome PreSigned;
  pegin_refund_new_for_validation : ConnectorZ → Input → string → Z → outcome PreSigned;
  sign_input_0_musig2 : PreSigned → CommitteeContext → SecNonce → AggNonce → outcome PartialSignature;
  aggregate_input_0_musig2_signatures :
    PreSigned → BaseContext → list PartialSignature → AggNonce → outcome TaprootSignature;
  push_input_0_signature : PreSigned → ConnectorZ → TaprootSignature → PreSigned;
  pre_sign : TxKind → PreSigned → CommitteeContext → list SecNonce → list AggNonce →
    outcome (list PartialSignature);
  aggregate_pre_sigs : TxKind → PreSigned → BaseContext → list (list PartialSignature) →
    list AggNonce → outcome (list TaprootSignature);
  push_pre_sigs : TxKind → PreSigned → list ConnectorData → list TaprootSignature → PreSigned;
  graph_connector : Connector → BitvmGcGraph → ConnectorData;
  ack_connectors : BitvmGcGraph → list ConnectorData;
  prover_connectors : BitvmGcGraphParameters → list ConnectorData;
}.

(** [map_err(|e| anyhow!("...{e}"))]. *)
Definition map_err {A} (f : string → string) (o : outcome A) : outcome A :=
  match o with Ok a => Ok a | Err e => Err [f (default ""%string (head e))] end.

(** ** Slots *)

Definition take1_pre_sign_num : nat := 2.
Definition take2_pre_sign_num : nat := 1.
Definition challenge_pre_sign_num : nat := 1.
Definition watchtower_challenge_timeout_pre_sign_num (watchtower_num : nat) : nat := watchtower_num.
Definition operator_challenge_nack_pre_sign_num (watchtower_num : nat) : nat := (watchtower_num * 2)%nat.
Definition operator_commit_timeout_pre_sign_num : nat := 2.
Definition disprove_pre_sign_num (verifier_num : nat) : nat := (verifier_num * 2)%nat.

Definition validate_length {T} (self : CommitteeMusig2Data T) (watchtower_num verifier_num : nat) :
    outcome unit :=
  require (length (md_take1 self) =? take1_pre_sign_num)%nat "invalid number of take1";;
  require (length (md_take2 self) =? take2_pre_sign_num)%nat "invalid number of take2";;
  require (length (md_challenge self) =? challenge_pre_sign_num)%nat "invalid number of challenge";;
  require (length (md_watchtower_challenge_timeout self) =?
           watchtower_challenge_timeout_pre_sign_num watchtower_num)%nat
    "invalid number of watchtower challenge timeout";;
  require (length (md_operator_challenge_nack self) =?
           operator_challenge_nack_pre_sign_num watchtower_num)%nat
    "invalid number of operator challenge nack";;
  require (length (md_operator_commit_timeout self) =? operator_commit_timeout_pre_sign_num)%nat
    "invalid number of operator commit timeout";;
  require (length (md_disprove self) =? disprove_pre_sign_num verifier_num)%nat
    "invalid number of disprove".

Definition new_empty {T} : CommitteeMusig2Data T := mkMusig2 [] [] [] [] [] [] [].

(** A value of each kind of slot. *)
Definition watchtower_num (graph : BitvmGcGraph) : nat :=
  length (bp_watchtower_pubkeys (bg_parameters graph)).
Definition verifier_num (graph : BitvmGcGraph) : nat := length (bp_gc_data (bg_parameters graph)).

Section Committee.
Context `{Sha256} `{Musig2} `{RoundJson} `{Taproot} `{Goat}.

(** ** The peg-in's transactions *)

Definition get_magic_bytes (net : BtcNetwork) : bytes :=
  match net with NetBitcoin => hex_encode "GTV6" | _ => hex_encode "GTT6" end.

Definition n_of_n_taproot_public_key (self : BitvmGcInstanceParameters) : XOnlyPublicKey :=
  xonly (bi_committee_agg_pubkey self).

Definition connector_z (self : BitvmGcInstanceParameters) : ConnectorZ :=
  connector_z_new (bi_network self) (n_of_n_taproot_public_key self)
    (ui_user_xonly_pubkey (bi_user_info self)) (default_timelock_config (bi_network self)).

(** The deposit, the confirmation and the refund; adding two [Amount]s panics past [u64]. *)
Definition build_pegin_tx (self : BitvmGcInstanceParameters) : outcome (PreSigned * PreSigned * PreSigned) :=
  let network := bi_network self in
  let connector_0 := connector_0_new network (n_of_n_taproot_public_key self) in
  let user := bi_user_info self in
  let '(deposit_fee, confirm_fee, refund_fee) := ui_txn_fees user in
  let pegin_message := get_magic_bytes network +:+ be_bytes 16 (Z.of_N (bi_instance_id self)) +:+
                       ui_depositor_evm_address user in
  amount ← expect (if bi_pegin_amount self + confirm_fee <? u64_modulus
                   then Some (bi_pegin_amount self + confirm_fee) else None) "Amount addition error";
  pegin_deposit ← map_err (λ e, "fail to build pegin deposit txn: " +:+ e)
    (pegin_deposit_new_unsigned (connector_z self) (ui_inputs user) amount deposit_fee
       (ui_user_change_address user));
  deposit_outpoint ← map_err (λ e, "fail to get pegin deposit output: " +:+ e)
    (connector_z_input pegin_deposit);
  pegin_confirm ← map_err (λ e, "fail to build pegin confirm txn: " +:+ e)
    (pegin_confirm_new_for_validation connector_0 (connector_z self) deposit_outpoint confirm_fee
       pegin_message);
  pegin_refund ← map_err (λ e, "fail to build pegin refund txn: " +:+ e)
    (pegin_refund_new_for_validation (connector_z self) deposit_outpoint
       (ui_user_refund_address user) refund_fee);
  Ok (pegin_deposit, pegin_confirm, pegin_refund).

Definition get_committee_context (self : BitvmGcInstanceParameters) (committee_member_keypair : Keypair) :
    outcome CommitteeContext :=
  let committee_member_public_key := public_key committee_member_keypair in
  require (bool_decide (committee_member_public_key ∈ bi_committee_pubkeys self))
    "The provided committee member keypair does not match any committee public key";;
  Ok (mkCommitteeContext (bi_network self) committee_member_keypair committee_member_public_key
        (bi_committee_pubkeys self) (bi_committee_agg_pubkey self) (n_of_n_taproot_public_key self)).

Definition get_base_context (self : BitvmGcInstanceParameters) : BaseContext :=
  mkBaseContext (bi_network self) (bi_committee_pubkeys self) (bi_committee_agg_pubkey self)
    (n_of_n_taproot_public_key self).

(** ** Hashes of the parameters *)

Definition uuid_bytes (id : Uuid) : bytes := be_bytes 16 (Z.of_N id).

(** [BitvmGcInstanceParameters::parameters_hash]. *)
Definition instance_parameters_hash (self : BitvmGcInstanceParameters) : outcome bytes :=
  encoded ← instance_parameters_to_vec self; Ok (sha256 encoded).

(** The preimage of [canonical_graph_params_hash]. *)
Definition graph_params_preimage (encoded : bytes) : bytes :=
  "GOAT_BITVM_GC_GRAPH_PARAMS_V1" +:+ hashed_field encoded.

Definition canonical_graph_params_hash (self : BitvmGcGraphParameters) : outcome bytes :=
  encoded ← graph_parameters_to_vec self; Ok (sha256 (graph_params_preimage encoded)).

(** ** Sighashes *)

Definition taproot_script_spend_sighash (tx : Transaction) (input_index : nat)
    (prevouts : list TxOut) (leaf_hash : bytes) (sighash_type : TapSighashType) : outcome bytes :=
  prevout ← expect (prevouts !! input_index) ("missing prevout for input " +:+ pretty input_index);
  map_err (λ e, "failed to construct input " +:+ pretty input_index +:+ " sighash: " +:+ e)
    (taproot_script_spend_signature_hash tx input_index
       (if decide (sighash_type ∈ [AllPlusAnyoneCanPay; SinglePlusAnyoneCanPay; NonePlusAnyoneCanPay])
        then PrevoutsOne input_index prevout else PrevoutsAll prevouts)
       leaf_hash sighash_type).

Definition pegin_confirm_sighash (parameters : BitvmGcInstanceParameters) : outcome bytes :=
  txs ← build_pegin_tx parameters;
  let pegin_confirm := txs.1.2 in
  script ← expect (head (ps_prev_scripts pegin_confirm)) (ps_name pegin_confirm +:+ " input 0 script is missing");
  taproot_script_spend_sighash (ps_tx pegin_confirm) 0 (ps_prev_outs pegin_confirm)
    (tap_leaf_hash script) SighashAll.

Definition sign_pegin_confirm (graph : BitvmGcGraph) (keypair : Keypair) (sec_nonce : SecNonce)
    (agg_nonce : AggNonce) : outcome PartialSignature :=
  let parameters := bp_instance_parameters (bg_parameters graph) in
  txs ← build_pegin_tx parameters;
  context ← get_committee_context parameters keypair;
  map_err (λ e, "fail to sign pegin confirm " +:+ ps_name txs.1.2 +:+ ": " +:+ e)
    (sign_input_0_musig2 txs.1.2 context sec_nonce agg_nonce).

Definition agg_and_push_pegin_confirm_sigs (graph : BitvmGcGraph) (partial_sigs : list PartialSignature)
    (agg_nonce : AggNonce) : outcome PreSigned :=
  let parameters := bp_instance_parameters (bg_parameters graph) in
  txs ← build_pegin_tx parameters;
  agg_sig ← map_err (λ e, "fail to aggregate pegin confirm " +:+ ps_name txs.1.2 +:+ ": " +:+ e)
    (aggregate_input_0_musig2_signatures txs.1.2 (get_base_context parameters) partial_sigs agg_nonce);
  Ok (push_input_0_signature txs.1.2 (connector_z parameters) agg_sig).

(** The sighash one slot signs. *)
Definition slot_sighash (tx : PreSigned) (input_index : nat) (sighash_type : TapSighashType) :
    outcome bytes :=
  script ← expect (ps_prev_scripts tx !! input_index)
             (ps_name tx +:+ " input " +:+ pretty input_index +:+ " script is missing");
  taproot_script_spend_sighash (ps_tx tx) input_index (ps_prev_outs tx) (tap_leaf_hash script)
    sighash_type.

(** [add_sighash]: the hasher is the bytes it was fed. *)
Definition add_sighash (hasher : bytes) (slot : string) (tx : PreSigned) (input_index : nat)
    (sighash_type : TapSighashType) : outcome bytes :=
  sighash ← slot_sighash tx input_index sighash_type;
  Ok (hasher +:+ be_bytes 4 (Z.of_nat (String.length slot)) +:+ slot +:+ sighash).

Definition enumerate {A} (l : list A) : list (nat * A) := zip (seq 0 (length l)) l.

Definition COMMITTEE_PRESIGN_SIGHASH_DOMAIN : bytes := "GOAT_BITVM_GC_COMMITTEE_PRESIGN_SIGHASHES_V1".

(** What [committee_presign_sighash_digest] hashes. *)
Definition presign_sighash_transcript (graph : BitvmGcGraph) : outcome bytes :=
  h ← add_sighash COMMITTEE_PRESIGN_SIGHASH_DOMAIN "take1/0/all" (bg_take1 graph) 0 SighashAll;
  h ← add_sighash h "take1/3/all" (bg_take1 graph) 3 SighashAll;
  h ← add_sighash h "take2/0/all" (bg_take2 graph) 0 SighashAll;
  h ← add_sighash h "challenge/0/single_anyonecanpay" (bg_challenge graph) 0 SinglePlusAnyoneCanPay;
  h ← for_each (λ h '(index, tx),
         add_sighash h ("watchtower_challenge_timeout/" +:+ pretty (index : nat) +:+ "/1/none") tx 1 SighashNone)
        h (enumerate (bg_watchtower_challenge_timeouts graph));
  h ← for_each (λ h '(index, tx),
         h ← add_sighash h ("operator_challenge_nack/" +:+ pretty (index : nat) +:+ "/0/all") tx 0 SighashAll;
         add_sighash h ("operator_challenge_nack/" +:+ pretty (index : nat) +:+ "/1/all") tx 1 SighashAll)
        h (enumerate (bg_operator_challenge_nacks graph));
  h ← add_sighash h "operator_commit_timeout/0/all" (bg_operator_commit_timeout graph) 0 SighashAll;
  h ← add_sighash h "operator_commit_timeout/1/all" (bg_operator_commit_timeout graph) 1 SighashAll;
  for_each (λ h '(index, tx),
      h ← add_sighash h ("disprove/" +:+ pretty (index : nat) +:+ "/0/none") tx 0 SighashNone;
      add_sighash h ("disprove/" +:+ pretty (index : nat) +:+ "/1/none") tx 1 SighashNone)
    h (enumerate (bg_disproves graph)).

Definition committee_presign_sighash_digest (graph : BitvmGcGraph) : outcome bytes :=
  transcript ← presign_sighash_transcript graph; Ok (sha256 transcript).

(** ** Aggregate nonces *)

Definition nonce_aggregation (pub_nonces : list PubNonce) : AggNonce :=
  generate_aggregated_nonce pub_nonces.

Definition aggregate_field (rows : list CommitteePubNonces)
    (get : CommitteePubNonces → list PubNonce) : outcome (list AggNonce) :=
  match rows with
  | [] => Ok []
  | row :: _ =>
      let expected := length (get row) in
      for_each (λ _ '(idx, r),
          require (length (get r) =? expected)%nat
            ("length mismatch on row " +:+ pretty (idx : nat) +:+ ": expected " +:+ pretty expected +:+
             ", got " +:+ pretty (length (get r))))
        tt (enumerate rows);;
      mapM (λ i, column ← mapM (λ r, index (get r) i) rows; Ok (nonce_aggregation column))
        (seq 0 expected)
  end.

Definition nonces_aggregation (pub_nonces_vec : list CommitteePubNonces) : outcome CommitteeAggNonces :=
  take1 ← aggregate_field pub_nonces_vec md_take1;
  take2 ← aggregate_field pub_nonces_vec md_take2;
  challenge ← aggregate_field pub_nonces_vec md_challenge;
  watchtower_challenge_timeout ← aggregate_field pub_nonces_vec md_watchtower_challenge_timeout;
  operator_challenge_nack ← aggregate_field pub_nonces_vec md_operator_challenge_nack;
  operator_commit_timeout ← aggregate_field pub_nonces_vec md_operator_commit_timeout;
  disprove ← aggregate_field pub_nonces_vec md_disprove;
  Ok (mkMusig2 take1 take2 challenge watchtower_challenge_timeout operator_challenge_nack
        operator_commit_timeout disprove).

(** ** Transcripts *)

Definition COMMITTEE_NONCE_CONSENSUS_DOMAIN : bytes := "GOAT_BITVM_GC_COMMITTEE_NONCE_CONSENSUS_V1".
Definition PEGIN_CONFIRM_NONCE_CONSENSUS_DOMAIN : bytes := "GOAT_BITVM_GC_PEGIN_CONFIRM_NONCE_CONSENSUS_V1".

(** The loop over the members: key, length of the encoded nonces, encoded nonces. *)
Definition member_entries {N} (to_vec : N → outcome bytes) (hasher : bytes)
    (members : list (PublicKey * N)) : outcome bytes :=
  for_each (λ h '(committee_pubkey, nonce),
      encoded ← to_vec nonce;
      Ok (h +:+ pubkey_to_bytes committee_pubkey +:+ hashed_field encoded))
    hasher members.

(** What [pegin_confirm_nonce_consensus_hash] hashes. *)
Definition pegin_confirm_transcript (parameters : BitvmGcInstanceParameters)
    (committee_pubkeys : list PublicKey) (ordered_pub_nonces : list PubNonce) : outcome bytes :=
  require (length committee_pubkeys =? length ordered_pub_nonces)%nat
    "committee public key and nonce counts differ";;
  let agg_nonce := nonce_aggregation ordered_pub_nonces in
  parameters_hash ← instance_parameters_hash parameters;
  sighash ← pegin_confirm_sighash parameters;
  h ← member_entries pub_nonce_to_vec
        (PEGIN_CONFIRM_NONCE_CONSENSUS_DOMAIN +:+ uuid_bytes (bi_instance_id parameters) +:+
         parameters_hash +:+ sighash +:+ be_bytes 4 (Z.of_nat (length committee_pubkeys)))
        (zip committee_pubkeys ordered_pub_nonces);
  encoded_agg_nonce ← agg_nonce_to_vec agg_nonce;
  Ok (h +:+ hashed_field encoded_agg_nonce).

Definition pegin_confirm_nonce_consensus_hash (parameters : BitvmGcInstanceParameters)
    (committee_pubkeys : list PublicKey) (ordered_pub_nonces : list PubNonce) : outcome bytes :=
  transcript ← pegin_confirm_transcript parameters committee_pubkeys ordered_pub_nonces;
  Ok (sha256 transcript).

(** What [committee_nonce_consensus_hash] hashes. *)
Definition committee_nonce_transcript (graph : BitvmGcGraph) (committee_pubkeys : list PublicKey)
    (ordered_pub_nonces : list CommitteePubNonces) : outcome bytes :=
  require (length committee_pubkeys =? length ordered_pub_nonces)%nat
    "committee public key and nonce counts differ";;
  for_each (λ _ pub_nonces, validate_length pub_nonces (watchtower_num graph) (verifier_num graph))
    tt ordered_pub_nonces;;
  agg_nonces ← nonces_aggregation ordered_pub_nonces;
  validate_length agg_nonces (watchtower_num graph) (verifier_num graph);;
  let parameters := bg_parameters graph in
  parameters_hash ← canonical_graph_params_hash parameters;
  digest ← committee_presign_sighash_digest graph;
  h ← member_entries pub_nonces_to_vec
        (COMMITTEE_NONCE_CONSENSUS_DOMAIN +:+
         uuid_bytes (bi_instance_id (bp_instance_parameters parameters)) +:+
         uuid_bytes (bp_graph_id parameters) +:+ parameters_hash +:+ digest +:+
         be_bytes 4 (Z.of_nat (length committee_pubkeys)))
        (zip committee_pubkeys ordered_pub_nonces);
  encoded_agg_nonces ← agg_nonces_to_vec agg_nonces;
  Ok (h +:+ hashed_field encoded_agg_nonces).

Definition committee_nonce_consensus_hash (graph : BitvmGcGraph) (committee_pubkeys : list PublicKey)
    (ordered_pub_nonces : list CommitteePubNonces) : outcome bytes :=
  transcript ← committee_nonce_transcript graph committee_pubkeys ordered_pub_nonces;
  Ok (sha256 transcript).

(** ** Pre-signing *)

(** The values of one transaction's inputs: [values[i * n .. i * n + n]]. *)
Definition indexed {T} (values : list T) (first n : nat) : outcome (list T) :=
  mapM (index values) (seq first n).

(** The partial signatures of the [n] inputs of every transaction of a list, with the nonces at
    the same places. *)
Definition pre_sign_all (kind : TxKind) (n : nat) (context : CommitteeContext)
    (sec_nonces : list SecNonce) (agg_nonces : list AggNonce) (txs : list PreSigned) :
    outcome (list PartialSignature) :=
  for_each (λ acc '(i, tx),
      secs ← indexed sec_nonces (i * n) n;
      aggs ← indexed agg_nonces (i * n) n;
      sigs ← map_err (λ e, "fail to pre-sign " +:+ ps_name tx +:+ ": " +:+ e)
               (pre_sign kind tx context secs aggs);
      Ok (acc ++ sigs))
    [] (enumerate txs).

Definition pre_sign_one (kind : TxKind) (context : CommitteeContext) (sec_nonces : list SecNonce)
    (agg_nonces : list AggNonce) (tx : PreSigned) : outcome (list PartialSignature) :=
  map_err (λ e, "fail to pre-sign " +:+ ps_name tx +:+ ": " +:+ e)
    (pre_sign kind tx context sec_nonces agg_nonces).

Definition committee_pre_sign (keypair : Keypair) (sec_nonce : CommitteeSecNonces)
    (agg_nonce : CommitteeAggNonces) (graph : BitvmGcGraph) : outcome CommitteePartialSignatures :=
  validate_length sec_nonce (watchtower_num graph) (verifier_num graph);;
  validate_length agg_nonce (watchtower_num graph) (verifier_num graph);;
  context ← get_committee_context (bp_instance_parameters (bg_parameters graph)) keypair;
  take1 ← pre_sign_one Take1Tx context (md_take1 sec_nonce) (md_take1 agg_nonce) (bg_take1 graph);
  take2 ← pre_sign_one Take2Tx context (md_take2 sec_nonce) (md_take2 agg_nonce) (bg_take2 graph);
  challenge ← pre_sign_one ChallengeTx context (md_challenge sec_nonce) (md_challenge agg_nonce)
                (bg_challenge graph);
  timeouts ← pre_sign_all WatchtowerChallengeTimeoutTx 1 context
               (md_watchtower_challenge_timeout sec_nonce) (md_watchtower_challenge_timeout agg_nonce)
               (bg_watchtower_challenge_timeouts graph);
  nacks ← pre_sign_all OperatorChallengeNackTx 2 context
            (md_operator_challenge_nack sec_nonce) (md_operator_challenge_nack agg_nonce)
            (bg_operator_challenge_nacks graph);
  commit_timeout ← pre_sign_one OperatorCommitTimeoutTx context
                     (md_operator_commit_timeout sec_nonce) (md_operator_commit_timeout agg_nonce)
                     (bg_operator_commit_timeout graph);
  disproves ← pre_sign_all DisproveTx 2 context (md_disprove sec_nonce) (md_disprove agg_nonce)
                (bg_disproves graph);
  Ok (mkMusig2 take1 take2 challenge timeouts nacks commit_timeout disproves).

(** ** Checking partial signatures *)

Definition key_agg_context (committee_pubkeys : list PublicKey) : outcome bytes :=
  map_err (λ e, "invalid committee key set: " +:+ e) (key_agg_context_new committee_pubkeys).

Definition verify_taproot_partial_signature (committee_pubkeys : list PublicKey)
    (committee_pubkey : PublicKey) (pub_nonce : PubNonce) (partial_sig : PartialSignature)
    (agg_nonce : AggNonce) (tx : Transaction) (input_index : nat) (prevouts : list TxOut)
    (script : Script) (sighash_type : TapSighashType) : outcome unit :=
  key_agg_ctx ← key_agg_context committee_pubkeys;
  sighash ← taproot_script_spend_sighash tx input_index prevouts (tap_leaf_hash script) sighash_type;
  map_err (λ e, "invalid partial signature from " +:+ committee_pubkey +:+ ": " +:+ e)
    (verify_partial key_agg_ctx partial_sig agg_nonce committee_pubkey pub_nonce sighash).

Definition verify_pre_signed_input (tx : PreSigned) (committee_pubkeys : list PublicKey)
    (committee_pubkey : PublicKey) (pub_nonce : PubNonce) (partial_sig : PartialSignature)
    (agg_nonce : AggNonce) (input_index : nat) (sighash_type : TapSighashType) : outcome unit :=
  script ← index (ps_prev_scripts tx) input_index;
  map_err (λ e, "fail to verify pre-signature " +:+ ps_name tx +:+ "[" +:+ pretty input_index +:+
                "]: " +:+ e)
    (verify_taproot_partial_signature committee_pubkeys committee_pubkey pub_nonce partial_sig
       agg_nonce (ps_tx tx) input_index (ps_prev_outs tx) script sighash_type).

Section PartialSigs.
Context (committee_pubkeys : list PublicKey) (committee_pubkey : PublicKey).

(** One slot: the nonces and the signature at [slot] against input [input_index]. *)
Definition verify_slot (pub_nonces : list PubNonce) (agg_nonces : list AggNonce)
    (partial_sigs : list PartialSignature) (slot : nat) (tx : PreSigned) (input_index : nat)
    (sighash_type : TapSighashType) : outcome unit :=
  pub_nonce ← index pub_nonces slot;
  partial_sig ← index partial_sigs slot;
  agg_nonce ← index agg_nonces slot;
  verify_pre_signed_input tx committee_pubkeys committee_pubkey pub_nonce partial_sig agg_nonce
    input_index sighash_type.

Definition verify_graph_committee_partial_sigs (graph : BitvmGcGraph) (pub_nonces : CommitteePubNonces)
    (agg_nonces : CommitteeAggNonces) (partial_sigs : CommitteePartialSignatures) : outcome unit :=
  require (bool_decide (committee_pubkey ∈ committee_pubkeys))
    ("committee pubkey " +:+ committee_pubkey +:+ " is not in the committee set");;
  validate_length pub_nonces (watchtower_num graph) (verifier_num graph);;
  validate_length agg_nonces (watchtower_num graph) (verifier_num graph);;
  validate_length partial_sigs (watchtower_num graph) (verifier_num graph);;
  let check (get : CommitteeMusig2Data string → list string) :=
    verify_slot (get pub_nonces) (get agg_nonces) (get partial_sigs) in
  check md_take1 0%nat (bg_take1 graph) 0%nat SighashAll;;
  check md_take1 1%nat (bg_take1 graph) 3%nat SighashAll;;
  check md_take2 0%nat (bg_take2 graph) 0%nat SighashAll;;
  check md_challenge 0%nat (bg_challenge graph) 0%nat SinglePlusAnyoneCanPay;;
  for_each (λ _ '(i, tx), check md_watchtower_challenge_timeout i tx 1%nat SighashNone)
    tt (enumerate (bg_watchtower_challenge_timeouts graph));;
  for_each (λ _ '(i, tx),
      check md_operator_challenge_nack (i * 2)%nat tx 0%nat SighashAll;;
      check md_operator_challenge_nack (i * 2 + 1)%nat tx 1%nat SighashAll)
    tt (enumerate (bg_operator_challenge_nacks graph));;
  check md_operator_commit_timeout 0%nat (bg_operator_commit_timeout graph) 0%nat SighashAll;;
  check md_operator_commit_timeout 1%nat (bg_operator_commit_timeout graph) 1%nat SighashAll;;
  for_each (λ _ '(i, tx),
      check md_disprove (i * 2)%nat tx 0%nat SighashNone;;
      check md_disprove (i * 2 + 1)%nat tx 1%nat SighashNone)
    tt (enumerate (bg_disproves graph)).

Definition verify_pegin_confirm_partial_sig (parameters : BitvmGcInstanceParameters)
    (pub_nonce : PubNonce) (agg_nonce : AggNonce) (partial_sig : PartialSignature) : outcome unit :=
  require (bool_decide (committee_pubkey ∈ committee_pubkeys))
    ("committee pubkey " +:+ committee_pubkey +:+ " is not in the committee set");;
  txs ← build_pegin_tx parameters;
  verify_pre_signed_input txs.1.2 committee_pubkeys committee_pubkey pub_nonce partial_sig agg_nonce 0
    SighashAll.

End PartialSigs.

(** ** Combined signatures *)

Definition aggregate_one (kind : TxKind) (context : BaseContext) (n first : nat)
    (partial_sigs : list (list PartialSignature)) (agg_nonces : list AggNonce) (tx : PreSigned) :
    outcome (list TaprootSignature) :=
  by_input ← mapM (λ k, mapM (λ row, index row k) partial_sigs) (seq first n);
  nonces ← indexed agg_nonces first n;
  map_err (λ e, "fail to aggregate pre-sigs " +:+ ps_name tx +:+ ": " +:+ e)
    (aggregate_pre_sigs kind tx context by_input nonces).

Definition aggregate_all (kind : TxKind) (context : BaseContext) (n : nat)
    (partial_sigs : list (list PartialSignature)) (agg_nonces : list AggNonce) (txs : list PreSigned) :
    outcome (list TaprootSignature) :=
  for_each (λ acc '(i, tx),
      sigs ← aggregate_one kind context n (i * n)%nat partial_sigs agg_nonces tx;
      Ok (acc ++ sigs))
    [] (enumerate txs).

Definition signature_aggregation (partial_sigs : list CommitteePartialSignatures)
    (agg_nonces : CommitteeAggNonces) (graph : BitvmGcGraph) : outcome CommitteeSignatures :=
  let context := get_base_context (bp_instance_parameters (bg_parameters graph)) in
  validate_length agg_nonces (watchtower_num graph) (verifier_num graph);;
  for_each (λ _ r, validate_length r (watchtower_num graph) (verifier_num graph)) tt partial_sigs;;
  take1 ← aggregate_one Take1Tx context 2 0 (md_take1 <$> partial_sigs) (md_take1 agg_nonces)
            (bg_take1 graph);
  take2 ← aggregate_one Take2Tx context 1 0 (md_take2 <$> partial_sigs) (md_take2 agg_nonces)
            (bg_take2 graph);
  challenge ← aggregate_one ChallengeTx context 1 0 (md_challenge <$> partial_sigs)
                (md_challenge agg_nonces) (bg_challenge graph);
  timeouts ← aggregate_all WatchtowerChallengeTimeoutTx context 1
               (md_watchtower_challenge_timeout <$> partial_sigs)
               (md_watchtower_challenge_timeout agg_nonces) (bg_watchtower_challenge_timeouts graph);
  nacks ← aggregate_all OperatorChallengeNackTx context 2
            (md_operator_challenge_nack <$> partial_sigs) (md_operator_challenge_nack agg_nonces)
            (bg_operator_challenge_nacks graph);
  commit_timeout ← aggregate_one OperatorCommitTimeoutTx context 2 0
                     (md_operator_commit_timeout <$> partial_sigs)
                     (md_operator_commit_timeout agg_nonces) (bg_operator_commit_timeout graph);
  disproves ← aggregate_all DisproveTx context 2 (md_disprove <$> partial_sigs)
                (md_disprove agg_nonces) (bg_disproves graph);
  Ok (mkMusig2 take1 take2 challenge timeouts nacks commit_timeout disproves).

Definition verify_taproot_pre_signed_input (tx : PreSigned) (signing_pubkey : XOnlyPublicKey)
    (input_index : nat) (sighash_type : TapSighashType) : outcome unit :=
  let at_input := ps_name tx +:+ " input " +:+ pretty input_index in
  witness ← expect (tx_witness (ps_tx tx) !! input_index) (at_input +:+ " is missing");
  require (length witness =? 3)%nat
    (at_input +:+ " must contain signature, script and control block");;
  signature_bytes ← expect (witness !! 0%nat) (at_input +:+ " signature is missing");
  witness_script ← expect (witness !! 1%nat) (at_input +:+ " script is missing");
  control_block_bytes ← expect (witness !! 2%nat) (at_input +:+ " control block is missing");
  prevout ← expect (ps_prev_outs tx !! input_index) (at_input +:+ " prevout is missing");
  script ← expect (ps_prev_scripts tx !! input_index) (at_input +:+ " script is missing");
  require (bool_decide (witness_script = script)) (at_input +:+ " witness script mismatch");;
  require (is_p2tr (to_script_pubkey prevout)) (at_input +:+ " prevout is not P2TR");;
  output_key ← map_err (λ e, at_input +:+ " output key is invalid: " +:+ e)
    (xonly_from_slice (String.substring 2 (String.length (to_script_pubkey prevout) - 2)
                         (to_script_pubkey prevout)));
  control_block ← map_err (λ e, at_input +:+ " control block is invalid: " +:+ e)
    (control_block_decode control_block_bytes);
  require (verify_taproot_commitment control_block output_key script)
    (at_input +:+ " control block does not commit to the expected script");;
  signature ← map_err (λ e, at_input +:+ " signature is invalid: " +:+ e)
    (taproot_signature_from_slice signature_bytes);
  require (bool_decide (ts_sighash_type signature = sighash_type)) (at_input +:+ " sighash type mismatch");;
  sighash ← taproot_script_spend_sighash (ps_tx tx) input_index (ps_prev_outs tx)
              (tap_leaf_hash script) sighash_type;
  map_err (λ e, at_input +:+ " signature verification failed: " +:+ e)
    (verify_schnorr (ts_signature signature) sighash signing_pubkey).

Definition verify_graph_committee_pre_signatures (graph : BitvmGcGraph) : outcome unit :=
  require (bg_committee_pre_signed graph) "graph is not pre-signed by the committee";;
  let parameters := bp_instance_parameters (bg_parameters graph) in
  let committee_pubkey := (generate_n_of_n_public_key (bi_committee_pubkeys parameters)).2 in
  require (bool_decide (committee_pubkey = xonly (bi_committee_agg_pubkey parameters)))
    "graph committee aggregate public key mismatch";;
  let check := λ tx, verify_taproot_pre_signed_input tx committee_pubkey in
  check (bg_take1 graph) 0%nat SighashAll;;
  check (bg_take1 graph) 3%nat SighashAll;;
  check (bg_take2 graph) 0%nat SighashAll;;
  check (bg_challenge graph) 0%nat SinglePlusAnyoneCanPay;;
  for_each (λ _ tx, check tx 1%nat SighashNone) tt (bg_watchtower_challenge_timeouts graph);;
  for_each (λ _ tx, check tx 0%nat SighashAll;; check tx 1%nat SighashAll)
    tt (bg_operator_challenge_nacks graph);;
  check (bg_operator_commit_timeout graph) 0%nat SighashAll;;
  check (bg_operator_commit_timeout graph) 1%nat SighashAll;;
  for_each (λ _ tx, check tx 0%nat SighashNone;; check tx 1%nat SighashNone) tt (bg_disproves graph).

(** The signatures pushed into every transaction of a list. *)
Definition push_all (kind : TxKind) (n : nat) (connectors : nat → outcome (list ConnectorData))
    (sigs : list TaprootSignature) (txs : list PreSigned) : outcome (list PreSigned) :=
  mapM (λ '(i, tx),
      cs ← connectors i;
      slot_sigs ← indexed sigs (i * n) n;
      Ok (push_pre_sigs kind tx cs slot_sigs))
    (enumerate txs).

Definition push_committee_pre_signatures (graph : BitvmGcGraph) (sigs : CommitteeSignatures) :
    outcome BitvmGcGraph :=
  require (negb (bg_committee_pre_signed graph)) "already pre-signed by committee";;
  validate_length sigs (watchtower_num graph) (verifier_num graph);;
  let connector c := graph_connector c graph in
  let ack i := index (ack_connectors graph) i in
  let prover i := index (prover_connectors (bg_parameters graph)) i in
  let take1 := push_pre_sigs Take1Tx (bg_take1 graph) [connector Connector0; connector ConnectorC]
                 (md_take1 sigs) in
  let take2 := push_pre_sigs Take2Tx (bg_take2 graph) [connector Connector0] (md_take2 sigs) in
  let challenge := push_pre_sigs ChallengeTx (bg_challenge graph) [connector ConnectorA]
                     (md_challenge sigs) in
  timeouts ← push_all WatchtowerChallengeTimeoutTx 1 (λ i, c ← ack i; Ok [c])
               (md_watchtower_challenge_timeout sigs) (bg_watchtower_challenge_timeouts graph);
  nacks ← push_all OperatorChallengeNackTx 2 (λ i, c ← ack i; Ok [c; connector ConnectorF])
            (md_operator_challenge_nack sigs) (bg_operator_challenge_nacks graph);
  let commit_timeout := push_pre_sigs OperatorCommitTimeoutTx (bg_operator_commit_timeout graph)
                          [connector ConnectorE; connector ConnectorF]
                          (md_operator_commit_timeout sigs) in
  disproves ← push_all DisproveTx 2 (λ i, c ← prover i; Ok [c; connector ConnectorD])
                (md_disprove sigs) (bg_disproves graph);
  Ok (graph <| bg_take1 := take1 |> <| bg_take2 := take2 |> <| bg_challenge := challenge |>
        <| bg_watchtower_challenge_timeouts := timeouts |> <| bg_operator_challenge_nacks := nacks |>
        <| bg_operator_commit_timeout := commit_timeout |> <| bg_disproves := disproves |>
        <| bg_committee_pre_signed := true |>).

(** ** Deterministic nonces *)

Definition COMMITTEE_NONCE_HKDF_SALT : bytes := "bitvm-gc/committee-nonce/v1".
Definition HKDF_SALT : bytes := "bitvm-gc/keys/v1".

Definition generate_nonce (signer_keypair : Keypair) (seed : bytes) (index : nat) :
    SecNonce * PubNonce * SchnorrSignature :=
  let nonce_seed := hkdf_derive_bytes seed COMMITTEE_NONCE_HKDF_SALT ("nonce/" +:+ pretty index) 32 in
  let sec_nonce := sec_nonce_build nonce_seed in
  let pub_nonce := public_nonce sec_nonce in
  (sec_nonce, pub_nonce, sign_schnorr signer_keypair (get_nonce_message pub_nonce)).

(** The slots in order, each with the next index. *)
Definition nonce_slots (watchtower_num verifier_num : nat) : CommitteeMusig2Data nat :=
  let n1 := take1_pre_sign_num in
  let n2 := (n1 + take2_pre_sign_num)%nat in
  let n3 := (n2 + challenge_pre_sign_num)%nat in
  let n4 := (n3 + watchtower_challenge_timeout_pre_sign_num watchtower_num)%nat in
  let n5 := (n4 + operator_challenge_nack_pre_sign_num watchtower_num)%nat in
  let n6 := (n5 + operator_commit_timeout_pre_sign_num)%nat in
  mkMusig2 (seq 0 take1_pre_sign_num) (seq n1 take2_pre_sign_num) (seq n2 challenge_pre_sign_num)
    (seq n3 (watchtower_challenge_timeout_pre_sign_num watchtower_num))
    (seq n4 (operator_challenge_nack_pre_sign_num watchtower_num))
    (seq n5 operator_commit_timeout_pre_sign_num) (seq n6 (disprove_pre_sign_num verifier_num)).

Definition data_map {A B} (f : A → B) (d : CommitteeMusig2Data A) : CommitteeMusig2Data B :=
  mkMusig2 (f <$> md_take1 d) (f <$> md_take2 d) (f <$> md_challenge d)
    (f <$> md_watchtower_challenge_timeout d) (f <$> md_operator_challenge_nack d)
    (f <$> md_operator_commit_timeout d) (f <$> md_disprove d).

Definition generate_nonce_from_seed (seed : string) (graph_index : Z) (signer_keypair : Keypair)
    (watchtower_num verifier_num : nat) :
    CommitteePubNonces * CommitteeSecNonces * CommitteeNonceSignatures :=
  let graph_seed := hkdf_derive_bytes seed COMMITTEE_NONCE_HKDF_SALT ("graph/" +:+ pretty graph_index) 32 in
  let nonces := data_map (generate_nonce signer_keypair graph_seed)
                  (nonce_slots watchtower_num verifier_num) in
  (data_map (λ n, n.1.2) nonces, data_map (λ n, n.1.1) nonces, data_map snd nonces).

Definition verify_vec (pubkey : XOnlyPublicKey) (nonces : list PubNonce) (sigs : list SchnorrSignature) :
    bool :=
  (length nonces =? length sigs)%nat &&
  forallb (λ '(nonce, sig), verify_public_nonce sig nonce pubkey) (zip nonces sigs).

Definition verify_nonce_signatures (pubkey : XOnlyPublicKey) (pub_nonces : CommitteePubNonces)
    (nonce_sigs : CommitteeNonceSignatures) (watchtower_num verifier_num : nat) : outcome bool :=
  validate_length pub_nonces watchtower_num verifier_num;;
  validate_length nonce_sigs watchtower_num verifier_num;;
  Ok (verify_vec pubkey (md_take1 pub_nonces) (md_take1 nonce_sigs)
      && verify_vec pubkey (md_take2 pub_nonces) (md_take2 nonce_sigs)
      && verify_vec pubkey (md_challenge pub_nonces) (md_challenge nonce_sigs)
      && verify_vec pubkey (md_watchtower_challenge_timeout pub_nonces)
           (md_watchtower_challenge_timeout nonce_sigs)
      && verify_vec pubkey (md_operator_challenge_nack pub_nonces) (md_operator_challenge_nack nonce_sigs)
      && verify_vec pubkey (md_operator_commit_timeout pub_nonces) (md_operator_commit_timeout nonce_sigs)
      && verify_vec pubkey (md_disprove pub_nonces) (md_disprove nonce_sigs)).

(** [derive_secret]: the hexadecimal of 32 bytes drawn from the key. *)
Definition derive_secret (master_key : Keypair) (domain : bytes) : string :=
  hex_encode (hkdf_derive_bytes (secret_bytes master_key) HKDF_SALT domain 32).

(** [as usize] of a [u128]. *)
Definition as_usize (z : Z) : Z := z mod u64_modulus.

Definition nonces_for_graph_job_with_keypair (graph : BitvmGcGraph) (signer_keypair : Keypair) :
    outcome (CommitteePubNonces * CommitteeSecNonces * CommitteeNonceSignatures) :=
  let parameters := bg_parameters graph in
  parameters_hash ← canonical_graph_params_hash parameters;
  digest ← committee_presign_sighash_digest graph;
  let domain := "committee_bitvm_graph_nonces_v3" +:+
    uuid_bytes (bi_instance_id (bp_instance_parameters parameters)) +:+
    uuid_bytes (bp_graph_id parameters) +:+ parameters_hash +:+ digest in
  Ok (generate_nonce_from_seed (derive_secret signer_keypair domain)
        (as_usize (Z.of_N (bp_graph_id parameters))) signer_keypair (watchtower_num graph)
        (verifier_num graph)).

Definition nonce_for_instance_job_with_keypair (parameters : BitvmGcInstanceParameters)
    (signer_keypair : Keypair) : outcome (SecNonce * PubNonce * SchnorrSignature) :=
  parameters_hash ← instance_parameters_hash parameters;
  sighash ← pegin_confirm_sighash parameters;
  let domain := "committee_bitvm_instance_nonce_v3" +:+ uuid_bytes (bi_instance_id parameters) +:+
                parameters_hash +:+ sighash in
  Ok (generate_nonce signer_keypair (derive_secret signer_keypair domain) 0).

End Committee.
