(* ===== verification/CommitteeProps.v ===== *)
(** * What the committee's transcripts and checks establish

    A transcript binds the parameters, the committee in order, every public nonce and every
    sighash: two equal consensus hashes come from the same round, or two preimages collide.
    The slots that are verified are the slots the transcript commits to, and a member's own
    nonces pass the check the others make.

    Source: crates/bitvm-gc/src/committee/api.rs, crates/bitvm-gc/src/keys.rs. *)

From stdpp Require Import base list strings pretty.
From S2P Require Import Prelude EngineEffects NodeSchema NodeApply Committee.

Local Open Scope Z_scope.

(** ** Concatenations *)

Lemma append_cons c (s t : string) : String c s +:+ t = String c (s +:+ t).
Proof. reflexivity. Qed.

Lemma append_length (s t : string) :
  String.length (s +:+ t) = (String.length s + String.length t)%nat.
Proof. induction s as [|c s IH]; [done|]. rewrite append_cons. cbn. by rewrite IH. Qed.

Lemma append_assoc (s t u : string) : (s +:+ t) +:+ u = s +:+ t +:+ u.
Proof. induction s as [|c s IH]; [done|]. rewrite !append_cons. by rewrite IH. Qed.

Lemma append_nil_r (s : string) : s +:+ "" = s.
Proof. induction s as [|c s IH]; [done|]. rewrite append_cons. by rewrite IH. Qed.

Lemma append_inj (a b s t : string) :
  String.length a = String.length b → a +:+ s = b +:+ t → a = b ∧ s = t.
Proof.
  revert b. induction a as [|c a IH]; intros [|d b] Hl Heq; cbn in Hl; try lia; [done|].
  rewrite !append_cons in Heq. injection Heq as -> Heq.
  destruct (IH b ltac:(lia) Heq) as [-> ->]. done.
Qed.

Lemma be_bytes_length n z : String.length (be_bytes n z) = n.
Proof. revert z. induction n as [|n IH]; intros z; cbn; [done|]. rewrite append_length, IH. cbn. lia. Qed.

Lemma be_bytes_inj n a b :
  0 ≤ a < 256 ^ Z.of_nat n → 0 ≤ b < 256 ^ Z.of_nat n → be_bytes n a = be_bytes n b → a = b.
Proof.
  revert a b. induction n as [|n IH]; intros a b Ha Hb Heq; [cbn in *; lia|].
  cbn [be_bytes] in Heq. rewrite Nat2Z.inj_succ, Z.pow_succ_r in Ha, Hb by lia.
  apply append_inj in Heq as [Hhi Hlo]; [|by rewrite !be_bytes_length].
  assert (a / 256 = b / 256) by (apply IH; [| |done]; split;
    first [apply Z.div_pos; lia | apply Z.div_lt_upper_bound; lia]).
  assert (a mod 256 = b mod 256).
  { injection Hlo as Hlo. apply (f_equal Ascii.N_of_ascii) in Hlo.
    pose proof (Z.mod_pos_bound a 256 ltac:(lia)). pose proof (Z.mod_pos_bound b 256 ltac:(lia)).
    rewrite !Ascii.N_ascii_embedding in Hlo by lia. lia. }
  rewrite (Z.div_mod a 256), (Z.div_mod b 256) by lia. congruence.
Qed.

#[local] Opaque be_bytes.

(** A length-prefixed field ends where it says. *)
Lemma hashed_field_inj a b s t :
  Z.of_nat (String.length a) < u64_modulus → Z.of_nat (String.length b) < u64_modulus →
  hashed_field a +:+ s = hashed_field b +:+ t → a = b ∧ s = t.
Proof.
  unfold hashed_field. intros Ha Hb Heq. rewrite !append_assoc in Heq.
  apply append_inj in Heq as [Hlen Heq]; [|by rewrite !be_bytes_length].
  apply be_bytes_inj in Hlen; [|unfold u64_modulus in *; lia..].
  apply append_inj in Heq as [-> ->]; [done|lia].
Qed.

(** Two different messages with the same digest. *)
Definition clash `{Sha256} (m m' : bytes) : Prop := m ≠ m' ∧ sha256 m = sha256 m'.

Lemma sha256_same `{Sha256} m m' : sha256 m = sha256 m' → m = m' ∨ clash m m'.
Proof. destruct (decide (m = m')) as [->|Hne]; [by left|]. intros Heq. by right. Qed.

(** ** Slots

    Everything a member signs of a graph, in the order of its nonces. *)

Record Slot := mkSlot { sl_name : string; sl_tx : PreSigned; sl_input : nat; sl_type : TapSighashType }.

Definition timeout_slots (e : nat * PreSigned) : list Slot :=
  [mkSlot ("watchtower_challenge_timeout/" +:+ pretty e.1 +:+ "/1/none") e.2 1 SighashNone].
Definition nack_slots (e : nat * PreSigned) : list Slot :=
  [mkSlot ("operator_challenge_nack/" +:+ pretty e.1 +:+ "/0/all") e.2 0 SighashAll;
   mkSlot ("operator_challenge_nack/" +:+ pretty e.1 +:+ "/1/all") e.2 1 SighashAll].
Definition disprove_slots (e : nat * PreSigned) : list Slot :=
  [mkSlot ("disprove/" +:+ pretty e.1 +:+ "/0/none") e.2 0 SighashNone;
   mkSlot ("disprove/" +:+ pretty e.1 +:+ "/1/none") e.2 1 SighashNone].

Definition graph_slots (g : BitvmGcGraph) : list Slot :=
  [mkSlot "take1/0/all" (bg_take1 g) 0 SighashAll; mkSlot "take1/3/all" (bg_take1 g) 3 SighashAll] ++
  [mkSlot "take2/0/all" (bg_take2 g) 0 SighashAll] ++
  [mkSlot "challenge/0/single_anyonecanpay" (bg_challenge g) 0 SinglePlusAnyoneCanPay] ++
  (enumerate (bg_watchtower_challenge_timeouts g) ≫= timeout_slots) ++
  (enumerate (bg_operator_challenge_nacks g) ≫= nack_slots) ++
  [mkSlot "operator_commit_timeout/0/all" (bg_operator_commit_timeout g) 0 SighashAll;
   mkSlot "operator_commit_timeout/1/all" (bg_operator_commit_timeout g) 1 SighashAll] ++
  (enumerate (bg_disproves g) ≫= disprove_slots).

(** A graph has one timeout and one nack per watchtower and one disprove per verifier. *)
Definition graph_shape (g : BitvmGcGraph) : Prop :=
  length (bg_watchtower_challenge_timeouts g) = watchtower_num g ∧
  length (bg_operator_challenge_nacks g) = watchtower_num g ∧
  length (bg_disproves g) = verifier_num g.

Lemma for_each_bind {S A B} (f : S → B → outcome S) (k : A → list B) s l :
  for_each f s (l ≫= k) = for_each (λ s x, for_each f s (k x)) s l.
Proof.
  revert s. induction l as [|x l IH]; intros s; [done|].
  rewrite bind_cons. cbn [for_each]. rewrite for_each_app. destruct (for_each f s (k x)); [apply IH|done].
Qed.

Lemma for_each_ext {S A} (f g : S → A → outcome S) s l :
  (∀ s x, f s x = g s x) → for_each f s l = for_each g s l.
Proof.
  intros Hfg. revert s. induction l as [|x l IH]; intros s; [done|]. cbn [for_each].
  rewrite Hfg. destruct (g s x); [apply IH|done].
Qed.

Lemma outcome_bind_ext {A B} (m : outcome A) (k k' : A → outcome B) :
  (∀ a, k a = k' a) → m ≫= k = m ≫= k'.
Proof. destruct m; cbn; auto. Qed.

Lemma outcome_bind_ext' {A B} (m m' : outcome A) (k k' : A → outcome B) :
  m = m' → (∀ a, k a = k' a) → m ≫= k = m' ≫= k'.
Proof. intros ->. apply outcome_bind_ext. Qed.

Lemma map_err_Ok {A} f (o : outcome A) a : map_err f o = Ok a ↔ o = Ok a.
Proof. destruct o; cbn; naive_solver. Qed.

Section Transcripts.
Context `{Musig2Laws} `{!Sha256} `{!Sha256Size} `{RoundJsonLaws} `{TaprootLaws} `{!Goat}.

Lemma taproot_sighash_size tx i ps leaf ty h :
  taproot_script_spend_sighash tx i ps leaf ty = Ok h → String.length h = 32%nat.
Proof.
  unfold taproot_script_spend_sighash. intros Hh. ok_inv.
  destruct (taproot_script_spend_signature_hash _ _ _ _ _) eqn:E; cbn in Hh; [|done].
  injection Hh as <-. by eapply sighash_size.
Qed.

Lemma pegin_confirm_sighash_size p h : pegin_confirm_sighash p = Ok h → String.length h = 32%nat.
Proof. unfold pegin_confirm_sighash. intros Hh. ok_inv. by eapply taproot_sighash_size. Qed.

Lemma slot_sighash_size tx i ty h : slot_sighash tx i ty = Ok h → String.length h = 32%nat.
Proof. unfold slot_sighash. intros Hh. ok_inv. by eapply taproot_sighash_size. Qed.

(** ** The members' entries *)

Section Members.
Context {N : Type} (to_vec : N → outcome bytes).
Hypothesis to_vec_inj : ∀ m n b, to_vec m = Ok b → to_vec n = Ok b → m = n.
Hypothesis to_vec_size : ∀ n b, to_vec n = Ok b → Z.of_nat (String.length b) < u64_modulus.

Fixpoint members_body (members : list (string * N)) : outcome bytes :=
  match members with
  | [] => Ok ""%string
  | (k, n) :: members =>
      encoded ← to_vec n; body ← members_body members;
      Ok (pubkey_to_bytes k +:+ hashed_field encoded +:+ body)
  end.

Lemma member_entries_eq h members :
  member_entries to_vec h members = (body ← members_body members; Ok (h +:+ body)).
Proof.
  unfold member_entries. revert h.
  induction members as [|[k n] members IH]; intros h; cbn [for_each members_body].
  - cbn. by rewrite append_nil_r.
  - rewrite outcome_bind_assoc. destruct (to_vec n) as [encoded|e]; [|done].
    cbn [mbind outcome_bind]. rewrite IH. destruct (members_body members); cbn; [|done].
    by rewrite !append_assoc.
Qed.

Lemma members_body_inj members members' body body' s t :
  length members = length members' → members_body members = Ok body →
  members_body members' = Ok body' → body +:+ s = body' +:+ t → members = members' ∧ s = t.
Proof.
  revert members' body body'. induction members as [|[k n] members IH]; intros [|[k' n'] members'] body body'
    Hl Hb Hb' Heq; cbn in Hl; try lia; cbn [members_body] in *; ok_inv; [done|].
  rewrite !append_assoc in Heq. apply pubkey_prefix_free in Heq as [-> Heq].
  apply hashed_field_inj in Heq as [-> Heq]; [|by eapply to_vec_size..].
  edestruct IH as [-> ->]; [| |done|done|]; [lia|done|].
  split; [|done]. do 2 f_equal. by eapply to_vec_inj.
Qed.

End Members.

(** ** The PeginConfirm transcript *)

Lemma zip_inj {A B} (ks ks' : list A) (ns ns' : list B) :
  length ks = length ns → length ks' = length ns' → zip ks ns = zip ks' ns' → ks = ks' ∧ ns = ns'.
Proof.
  intros Hl Hl' Hz. split.
  - rewrite <- (fst_zip ks ns), <- (fst_zip ks' ns') by lia. by rewrite Hz.
  - rewrite <- (snd_zip ks ns), <- (snd_zip ks' ns') by lia. by rewrite Hz.
Qed.

Lemma pegin_transcript_inv p keys nonces transcript :
  pegin_confirm_transcript p keys nonces = Ok transcript →
  ∃ encoded sighash body agg,
    length keys = length nonces ∧ instance_parameters_to_vec p = Ok encoded ∧
    pegin_confirm_sighash p = Ok sighash ∧ members_body pub_nonce_to_vec (zip keys nonces) = Ok body ∧
    transcript = PEGIN_CONFIRM_NONCE_CONSENSUS_DOMAIN +:+ uuid_bytes (bi_instance_id p) +:+
      sha256 encoded +:+ sighash +:+ be_bytes 4 (Z.of_nat (length keys)) +:+ body +:+ hashed_field agg.
Proof.
  unfold pegin_confirm_transcript, instance_parameters_hash. intros Ht. ok_inv.
  rewrite member_entries_eq in *. ok_inv. match goal with E : (_ =? _)%nat = true |- _ => apply Nat.eqb_eq in E end.
  do 4 eexists. split_and!; [done..|]. by rewrite !append_assoc.
Qed.

(** Equal transcripts come from the same keys, nonces and sighash. *)
Lemma pegin_transcript_binds p p' keys keys' nonces nonces' transcript :
  Z.of_nat (length keys) < 2 ^ 32 → Z.of_nat (length keys') < 2 ^ 32 →
  pegin_confirm_transcript p keys nonces = Ok transcript →
  pegin_confirm_transcript p' keys' nonces' = Ok transcript →
  keys = keys' ∧ nonces = nonces' ∧ pegin_confirm_sighash p = pegin_confirm_sighash p' ∧
  ∃ b b', instance_parameters_to_vec p = Ok b ∧ instance_parameters_to_vec p' = Ok b' ∧
          sha256 b = sha256 b'.
Proof.
  intros Hk Hk' Ht Ht'.
  apply pegin_transcript_inv in Ht as (b & h & body & agg & Hl & Hb & Hh & Hbody & ->).
  apply pegin_transcript_inv in Ht' as (b' & h' & body' & agg' & Hl' & Hb' & Hh' & Hbody' & Heq).
  apply append_inj in Heq as [_ Heq]; [|done].
  apply append_inj in Heq as [_ Heq]; [|unfold uuid_bytes; by rewrite !be_bytes_length].
  apply append_inj in Heq as [Hsha Heq]; [|by rewrite !sha256_size].
  apply append_inj in Heq as [-> Heq];
    [|by rewrite (pegin_confirm_sighash_size _ _ Hh), (pegin_confirm_sighash_size _ _ Hh')].
  apply append_inj in Heq as [Hcount Heq]; [|by rewrite !be_bytes_length].
  apply be_bytes_inj in Hcount; [|lia..].
  assert (Hlz : length (zip keys nonces) = length (zip keys' nonces')) by (rewrite !length_zip; lia).
  destruct (members_body_inj _ pub_nonce_inj pub_nonce_size _ _ _ _ _ _ Hlz Hbody Hbody' Heq) as [Hz _].
  apply zip_inj in Hz as [-> ->]; [|done..]. split_and!; [done|done|congruence|by eauto].
Qed.

(** ** The graph transcript *)

Definition add_slot (h : bytes) (s : Slot) : outcome bytes :=
  add_sighash h (sl_name s) (sl_tx s) (sl_input s) (sl_type s).

Lemma for_each_one {S A} (f : S → A → outcome S) s x : for_each f s [x] = f s x.
Proof. cbn. by destruct (f s x). Qed.
Lemma for_each_two {S A} (f : S → A → outcome S) s x y : for_each f s [x; y] = (s ← f s x; f s y).
Proof. cbn. destruct (f s x); cbn; [|done]. by destruct (f a y). Qed.

Lemma presign_transcript_slots g :
  presign_sighash_transcript g = for_each add_slot COMMITTEE_PRESIGN_SIGHASH_DOMAIN (graph_slots g).
Proof.
  unfold presign_sighash_transcript, graph_slots.
  rewrite for_each_app, for_each_two, outcome_bind_assoc. do 2 (apply outcome_bind_ext; intros ?).
  rewrite for_each_app, for_each_one. apply outcome_bind_ext; intros ?.
  rewrite for_each_app, for_each_one. apply outcome_bind_ext; intros ?.
  rewrite for_each_app, for_each_bind. apply outcome_bind_ext'; [|intros ?].
  { apply for_each_ext. intros h [i tx]. unfold timeout_slots. by rewrite for_each_one. }
  rewrite for_each_app, for_each_bind. apply outcome_bind_ext'; [|intros ?].
  { apply for_each_ext. intros h [i tx]. unfold nack_slots. by rewrite for_each_two. }
  rewrite for_each_app, for_each_two, outcome_bind_assoc. do 2 (apply outcome_bind_ext; intros ?).
  rewrite for_each_bind. apply for_each_ext. intros h [i tx]. unfold disprove_slots. by rewrite for_each_two.
Qed.

Definition sighash_of (s : Slot) : outcome bytes := slot_sighash (sl_tx s) (sl_input s) (sl_type s).

(** The slots of two graphs are named alike and sign the same messages. *)
Definition same_sighashes (l l' : list Slot) : Prop :=
  Forall2 (λ s s', sl_name s = sl_name s' ∧ sighash_of s = sighash_of s') l l'.

Lemma add_slot_inv h s h' :
  add_slot h s = Ok h' →
  ∃ sighash, sighash_of s = Ok sighash ∧ String.length sighash = 32%nat ∧
    h' = h +:+ be_bytes 4 (Z.of_nat (String.length (sl_name s))) +:+ sl_name s +:+ sighash.
Proof. unfold add_slot, add_sighash. intros Ha. ok_inv. eauto using slot_sighash_size. Qed.

Lemma slots_transcript_inj l l' h h' t :
  sl_name <$> l = sl_name <$> l' → String.length h = String.length h' →
  for_each add_slot h l = Ok t → for_each add_slot h' l' = Ok t → h = h' ∧ same_sighashes l l'.
Proof.
  revert l' h h'. induction l as [|s l IH]; intros [|s' l'] h h' Hn Hh Ht Ht'; try discriminate Hn.
  { cbn in *. ok_inv. split; [done|constructor]. }
  cbn [fmap list_fmap] in Hn. injection Hn as Hn1 Hn. cbn [for_each] in Ht, Ht'.
  apply outcome_bind_Ok in Ht as (h1 & Hs & Ht), Ht' as (h1' & Hs' & Ht').
  apply add_slot_inv in Hs as (x & Hx & Hlx & ->), Hs' as (x' & Hx' & Hlx' & ->).
  assert (Hl : (String.length (sl_name s) = String.length (sl_name s'))%nat) by by rewrite Hn1.
  assert (Hll : String.length (h +:+ be_bytes 4 (Z.of_nat (String.length (sl_name s))) +:+ sl_name s +:+ x) =
                String.length (h' +:+ be_bytes 4 (Z.of_nat (String.length (sl_name s'))) +:+ sl_name s' +:+ x')).
  { repeat rewrite append_length. rewrite !be_bytes_length. congruence. }
  destruct (IH _ _ _ Hn Hll Ht Ht') as [Heq Hall].
  apply append_inj in Heq as [-> Heq]; [|done].
  apply append_inj in Heq as [_ Heq]; [|by rewrite !be_bytes_length].
  apply append_inj in Heq as [_ ->]; [|done].
  split; [done|]. constructor; [|done]. split; [done|congruence].
Qed.

Lemma enumerated_names {A} (f : nat * A → list Slot) (l l' : list A) :
  (∀ i x x', sl_name <$> f (i, x) = sl_name <$> f (i, x')) → length l = length l' →
  sl_name <$> (enumerate l ≫= f) = sl_name <$> (enumerate l' ≫= f).
Proof.
  intros Hf. unfold enumerate. generalize 0%nat as k. revert l'.
  induction l as [|x l IH]; intros [|x' l'] k Hl; cbn in Hl; try lia; [done|].
  cbn [length seq zip zip_with]. rewrite !bind_cons, !fmap_app. f_equal; [apply Hf|]. apply IH. lia.
Qed.

Lemma graph_slots_names g g' :
  graph_shape g → graph_shape g' → bg_parameters g = bg_parameters g' →
  sl_name <$> graph_slots g = sl_name <$> graph_slots g'.
Proof.
  intros (Ht & Hn & Hd) (Ht' & Hn' & Hd') Hp. unfold watchtower_num, verifier_num in *. rewrite Hp in *.
  unfold graph_slots. rewrite !fmap_app.
  rewrite (enumerated_names timeout_slots _ (bg_watchtower_challenge_timeouts g')),
    (enumerated_names nack_slots _ (bg_operator_challenge_nacks g')),
    (enumerated_names disprove_slots _ (bg_disproves g')) by first [done | congruence]. done.
Qed.

Lemma graph_transcript_inv g keys nonces transcript :
  committee_nonce_transcript g keys nonces = Ok transcript →
  ∃ encoded sighashes body agg,
    length keys = length nonces ∧ graph_parameters_to_vec (bg_parameters g) = Ok encoded ∧
    presign_sighash_transcript g = Ok sighashes ∧
    members_body pub_nonces_to_vec (zip keys nonces) = Ok body ∧
    transcript = COMMITTEE_NONCE_CONSENSUS_DOMAIN +:+
      uuid_bytes (bi_instance_id (bp_instance_parameters (bg_parameters g))) +:+
      uuid_bytes (bp_graph_id (bg_parameters g)) +:+ sha256 (graph_params_preimage encoded) +:+
      sha256 sighashes +:+ be_bytes 4 (Z.of_nat (length keys)) +:+ body +:+ hashed_field agg.
Proof.
  unfold committee_nonce_transcript, canonical_graph_params_hash, committee_presign_sighash_digest.
  intros Ht. ok_inv. rewrite member_entries_eq in *. ok_inv.
  match goal with E : (_ =? _)%nat = true |- _ => apply Nat.eqb_eq in E end.
  do 4 eexists. split_and!; [done..|]. by rewrite !append_assoc.
Qed.

Lemma graph_transcript_binds g g' keys keys' nonces nonces' transcript :
  Z.of_nat (length keys) < 2 ^ 32 → Z.of_nat (length keys') < 2 ^ 32 →
  committee_nonce_transcript g keys nonces = Ok transcript →
  committee_nonce_transcript g' keys' nonces' = Ok transcript →
  keys = keys' ∧ nonces = nonces' ∧
  (∃ b b', graph_parameters_to_vec (bg_parameters g) = Ok b ∧
     graph_parameters_to_vec (bg_parameters g') = Ok b' ∧
     sha256 (graph_params_preimage b) = sha256 (graph_params_preimage b')) ∧
  ∃ t t', presign_sighash_transcript g = Ok t ∧ presign_sighash_transcript g' = Ok t' ∧
     sha256 t = sha256 t'.
Proof.
  intros Hk Hk' Ht Ht'.
  apply graph_transcript_inv in Ht as (b & d & body & agg & Hl & Hb & Hd & Hbody & ->).
  apply graph_transcript_inv in Ht' as (b' & d' & body' & agg' & Hl' & Hb' & Hd' & Hbody' & Heq).
  apply append_inj in Heq as [_ Heq]; [|done].
  do 2 (apply append_inj in Heq as [_ Heq]; [|unfold uuid_bytes; by rewrite !be_bytes_length]).
  apply append_inj in Heq as [Hparams Heq]; [|by rewrite !sha256_size].
  apply append_inj in Heq as [Hdigest Heq]; [|by rewrite !sha256_size].
  apply append_inj in Heq as [Hcount Heq]; [|by rewrite !be_bytes_length].
  apply be_bytes_inj in Hcount; [|lia..].
  assert (Hlz : length (zip keys nonces) = length (zip keys' nonces')) by (rewrite !length_zip; lia).
  destruct (members_body_inj _ pub_nonces_inj pub_nonces_size _ _ _ _ _ _ Hlz Hbody Hbody' Heq) as [Hz _].
  apply zip_inj in Hz as [-> ->]; [|done..]. split_and!; [done|done|by eauto 10|by eauto 10].
Qed.

Lemma graph_params_preimage_inj b b' :
  Z.of_nat (String.length b) < u64_modulus → Z.of_nat (String.length b') < u64_modulus →
  graph_params_preimage b = graph_params_preimage b' → b = b'.
Proof.
  unfold graph_params_preimage. intros Hb Hb' Heq. apply append_inj in Heq as [_ Heq]; [|done].
  rewrite <- (append_nil_r (hashed_field b)), <- (append_nil_r (hashed_field b')) in Heq.
  by apply hashed_field_inj in Heq as [-> _].
Qed.

(** ** Consensus hashes *)

(** Two rounds with one consensus hash where some preimage of the two differs. *)
Definition pegin_clash (p p' : BitvmGcInstanceParameters) (keys keys' : list string)
    (nonces nonces' : list string) : Prop :=
  (∃ t t', pegin_confirm_transcript p keys nonces = Ok t ∧
     pegin_confirm_transcript p' keys' nonces' = Ok t' ∧ clash t t') ∨
  (∃ b b', instance_parameters_to_vec p = Ok b ∧ instance_parameters_to_vec p' = Ok b' ∧ clash b b').

Definition graph_clash (g g' : BitvmGcGraph) (keys keys' : list string)
    (nonces nonces' : list (CommitteeMusig2Data string)) : Prop :=
  (∃ t t', committee_nonce_transcript g keys nonces = Ok t ∧
     committee_nonce_transcript g' keys' nonces' = Ok t' ∧ clash t t') ∨
  (∃ b b', graph_parameters_to_vec (bg_parameters g) = Ok b ∧
     graph_parameters_to_vec (bg_parameters g') = Ok b' ∧
     clash (graph_params_preimage b) (graph_params_preimage b')) ∨
  (∃ t t', presign_sighash_transcript g = Ok t ∧ presign_sighash_transcript g' = Ok t' ∧ clash t t').

Lemma pegin_consensus_same p p' keys keys' nonces nonces' h :
  Z.of_nat (length keys) < 2 ^ 32 → Z.of_nat (length keys') < 2 ^ 32 →
  pegin_confirm_nonce_consensus_hash p keys nonces = Ok h →
  pegin_confirm_nonce_consensus_hash p' keys' nonces' = Ok h →
  (p = p' ∧ keys = keys' ∧ nonces = nonces') ∨ pegin_clash p p' keys keys' nonces nonces'.
Proof.
  unfold pegin_confirm_nonce_consensus_hash. intros Hk Hk' Hh Hh'.
  apply outcome_bind_Ok in Hh as (t & Ht & Hh), Hh' as (t' & Ht' & Hh'). injection Hh as Hh.
  injection Hh' as Hh'. subst h. destruct (sha256_same t t' (eq_sym Hh')) as [<-|Hc]; [|right; left; by eauto].
  destruct (pegin_transcript_binds _ _ _ _ _ _ _ Hk Hk' Ht Ht') as (-> & -> & _ & b & b' & Hb & Hb' & Heq).
  destruct (sha256_same b b' Heq) as [<-|Hc]; [|right; right; by eauto].
  left. split_and!; [by eapply instance_parameters_inj|done..].
Qed.

Lemma graph_consensus_same g g' keys keys' nonces nonces' h :
  Z.of_nat (length keys) < 2 ^ 32 → Z.of_nat (length keys') < 2 ^ 32 →
  graph_shape g → graph_shape g' →
  committee_nonce_consensus_hash g keys nonces = Ok h →
  committee_nonce_consensus_hash g' keys' nonces' = Ok h →
  (bg_parameters g = bg_parameters g' ∧ keys = keys' ∧ nonces = nonces' ∧
   same_sighashes (graph_slots g) (graph_slots g')) ∨
  graph_clash g g' keys keys' nonces nonces'.
Proof.
  unfold committee_nonce_consensus_hash. intros Hk Hk' Hs Hs' Hh Hh'.
  apply outcome_bind_Ok in Hh as (t & Ht & Hh), Hh' as (t' & Ht' & Hh'). injection Hh as Hh.
  injection Hh' as Hh'. subst h. destruct (sha256_same t t' (eq_sym Hh')) as [<-|Hc]; [|right; left; by eauto].
  destruct (graph_transcript_binds _ _ _ _ _ _ _ Hk Hk' Ht Ht')
    as (-> & -> & (b & b' & Hb & Hb' & Hp) & d & d' & Hd & Hd' & Hds).
  destruct (sha256_same _ _ Hp) as [Hpre|Hc]; [|right; right; left; by eauto].
  destruct (sha256_same _ _ Hds) as [<-|Hc]; [|right; right; right; by eauto].
  apply graph_params_preimage_inj in Hpre as <-; [|by eapply graph_parameters_size..].
  assert (Hpar : bg_parameters g = bg_parameters g') by by eapply graph_parameters_inj.
  left. split_and!; [done..|]. rewrite presign_transcript_slots in Hd, Hd'.
  by destruct (slots_transcript_inj _ _ _ _ _ (graph_slots_names g g' Hs Hs' Hpar) eq_refl Hd Hd').
Qed.

(** ** Verified slots *)

(** The values of a round in slot order. *)
Definition slot_values {T} (d : CommitteeMusig2Data T) : list T :=
  md_take1 d ++ md_take2 d ++ md_challenge d ++ md_watchtower_challenge_timeout d ++
  md_operator_challenge_nack d ++ md_operator_commit_timeout d ++ md_disprove d.

(** One slot is checked: the member's partial signature verifies for the slot's sighash under its
    own and the aggregate nonce. *)
Definition slot_checked (keys : list string) (key : string) (s : Slot) (v : string * string * string) :
    Prop :=
  ∃ context sighash, key_agg_context keys = Ok context ∧ sighash_of s = Ok sighash ∧
    verify_partial context v.2 v.1.2 key v.1.1 sighash = Ok tt.

Lemma verify_slot_Ok keys key pubs aggs sigs slot tx i ty u name :
  verify_slot keys key pubs aggs sigs slot tx i ty = Ok u →
  ∃ p a s, pubs !! slot = Some p ∧ aggs !! slot = Some a ∧ sigs !! slot = Some s ∧
    slot_checked keys key (mkSlot name tx i ty) (p, a, s).
Proof.
  unfold verify_slot, verify_pre_signed_input, verify_taproot_partial_signature. intros Hv. ok_inv.
  rewrite map_err_Ok in Hv. ok_inv. rewrite map_err_Ok in Hv. destruct u.
  do 3 eexists. split_and!; [done..|]. do 2 eexists. split_and!; [done| |done].
  unfold sighash_of, slot_sighash. cbn. match goal with E : ps_prev_scripts _ !! _ = _ |- _ => by rewrite E end.
Qed.

Lemma for_each_unit_at {A} (f : A → outcome unit) l u :
  for_each (λ _, f) u l = Ok tt → ∀ i x, l !! i = Some x → f x = Ok tt.
Proof.
  revert u. induction l as [|y l IH]; intros u Hf i x Hi; [done|]. cbn [for_each] in Hf.
  apply outcome_bind_Ok in Hf as ([] & Hy & Hf). destruct i as [|i]; cbn in Hi; [congruence|]. by eapply IH.
Qed.

Lemma lookup_enumerate {A} (l : list A) i x : l !! i = Some x → enumerate l !! i = Some (i, x).
Proof.
  intros Hi. unfold enumerate. apply lookup_zip_Some. split; [|done].
  apply lookup_seq. apply lookup_lt_Some in Hi. lia.
Qed.

(** The groups of slots, one or two per transaction. *)
Lemma singles_from {A V} (P : Slot → V → Prop) (f : nat * A → list Slot) k (l : list A) (vs : list V) :
  length vs = length l →
  (∀ i x, l !! i = Some x → ∃ v s, f ((k + i)%nat, x) = [s] ∧ vs !! i = Some v ∧ P s v) →
  Forall2 P (zip (seq k (length l)) l ≫= f) vs.
Proof.
  revert k vs. induction l as [|x l IH]; intros k [|v vs] Hl Hf; cbn in Hl; try lia; [constructor|].
  cbn [length seq zip zip_with]. rewrite bind_cons.
  destruct (Hf 0%nat x eq_refl) as (v' & s & Hs & Hv & HP). cbn in Hv. injection Hv as <-.
  rewrite Nat.add_0_r in Hs. rewrite Hs. constructor; [done|]. apply (IH (S k)); [lia|].
  intros i y Hi. destruct (Hf (S i) y Hi) as (w & t & Ht & Hw & HQ). exists w, t.
  by replace (S k + i)%nat with (k + S i)%nat by lia.
Qed.

Lemma pairs_from {A V} (P : Slot → V → Prop) (f : nat * A → list Slot) k (l : list A) (vs : list V) :
  length vs = (length l * 2)%nat →
  (∀ i x, l !! i = Some x → ∃ v w s t, f ((k + i)%nat, x) = [s; t] ∧
     vs !! (i * 2)%nat = Some v ∧ vs !! (i * 2 + 1)%nat = Some w ∧ P s v ∧ P t w) →
  Forall2 P (zip (seq k (length l)) l ≫= f) vs.
Proof.
  revert k vs. induction l as [|x l IH]; intros k vs Hl Hf; cbn in Hl.
  { destruct vs; cbn in Hl; [constructor|lia]. }
  destruct vs as [|v [|w vs]]; cbn in Hl; try lia.
  cbn [length seq zip zip_with]. rewrite bind_cons.
  destruct (Hf 0%nat x eq_refl) as (v' & w' & s & t & Hs & Hv & Hw & HP & HQ). cbn in Hv, Hw.
  injection Hv as <-. injection Hw as <-. rewrite Nat.add_0_r in Hs. rewrite Hs.
  constructor; [done|]. constructor; [done|]. apply (IH (S k)); [lia|].
  intros i y Hi. destruct (Hf (S i) y Hi) as (v' & w' & s' & t' & Hs' & Hv' & Hw' & HP').
  exists v', w', s', t'. by replace (S k + i)%nat with (k + S i)%nat by lia.
Qed.

Definition zip3 {A B C} (a : list A) (b : list B) (c : list C) : list (A * B * C) := zip (zip a b) c.

Lemma lookup_zip3 {A B C} (a : list A) (b : list B) (c : list C) i x y z :
  a !! i = Some x → b !! i = Some y → c !! i = Some z → zip3 a b c !! i = Some (x, y, z).
Proof. intros Ha Hb Hc. apply lookup_zip_Some. split; [|done]. by apply lookup_zip_Some. Qed.

Lemma zip3_app {A B C} (a a' : list A) (b b' : list B) (c c' : list C) :
  length a = length b → length a = length c → zip3 (a ++ a') (b ++ b') (c ++ c') = zip3 a b c ++ zip3 a' b' c'.
Proof. intros Hb Hc. unfold zip3. rewrite !zip_with_app; rewrite ?length_zip; try done; lia. Qed.

Lemma zip3_length {A B C} (a : list A) (b : list B) (c : list C) :
  length a = length b → length a = length c → length (zip3 a b c) = length a.
Proof. intros Hb Hc. unfold zip3. rewrite !length_zip. lia. Qed.

Lemma validate_length_Ok {T} (d : CommitteeMusig2Data T) w v u :
  validate_length d w v = Ok u →
  length (md_take1 d) = 2%nat ∧ length (md_take2 d) = 1%nat ∧ length (md_challenge d) = 1%nat ∧
  length (md_watchtower_challenge_timeout d) = w ∧ length (md_operator_challenge_nack d) = (w * 2)%nat ∧
  length (md_operator_commit_timeout d) = 2%nat ∧ length (md_disprove d) = (v * 2)%nat.
Proof.
  unfold validate_length. intros Hv. ok_inv.
  repeat match goal with E : (_ =? _)%nat = true |- _ => apply Nat.eqb_eq in E end. split_and!; done.
Qed.

Lemma verify_slot_checked {keys key pubs aggs sigs slot tx i ty u} name :
  verify_slot keys key pubs aggs sigs slot tx i ty = Ok u →
  ∃ v, zip3 pubs aggs sigs !! slot = Some v ∧ slot_checked keys key (mkSlot name tx i ty) v.
Proof.
  intros Hv. eapply verify_slot_Ok in Hv as (p & a & x & Hp & Ha & Hx & Hc). eauto using lookup_zip3.
Qed.

Lemma fixed_one {V} (P : Slot → V → Prop) s vs v :
  length vs = 1%nat → vs !! 0%nat = Some v ∧ P s v → Forall2 P [s] vs.
Proof. destruct vs as [|x [|]]; try done. intros _ [[= ->] HP]. by repeat constructor. Qed.
Lemma fixed_two {V} (P : Slot → V → Prop) s t vs v w :
  length vs = 2%nat → vs !! 0%nat = Some v ∧ P s v → vs !! 1%nat = Some w ∧ P t w → Forall2 P [s; t] vs.
Proof. destruct vs as [|x [|y [|]]]; try done. intros _ [[= ->] HP] [[= ->] HQ]. by repeat constructor. Qed.

(** C15: a set of partial signatures that is accepted has a valid signature for every slot the
    transcript commits to, made with the member's nonce and the aggregate nonce of that slot. *)
Theorem accepted_slots_checked keys key g pubs aggs sigs :
  graph_shape g → verify_graph_committee_partial_sigs keys key g pubs aggs sigs = Ok tt →
  key ∈ keys ∧
  Forall2 (slot_checked keys key) (graph_slots g)
    (zip3 (slot_values pubs) (slot_values aggs) (slot_values sigs)).
Proof.
  intros (Hst & Hsn & Hsd) Hv. unfold verify_graph_committee_partial_sigs in Hv. cbv zeta in Hv.
  apply outcome_bind_Ok in Hv as (? & Hkey & Hv). apply outcome_bind_Ok in Hv as ([] & Hp & Hv).
  apply outcome_bind_Ok in Hv as ([] & Ha & Hv). apply outcome_bind_Ok in Hv as ([] & Hs & Hv).
  apply outcome_bind_Ok in Hv as (? & Hv1 & Hv). apply outcome_bind_Ok in Hv as (? & Hv2 & Hv).
  apply outcome_bind_Ok in Hv as (? & Hv3 & Hv). apply outcome_bind_Ok in Hv as (? & Hv4 & Hv).
  apply outcome_bind_Ok in Hv as ([] & Ht & Hv). apply outcome_bind_Ok in Hv as ([] & Hn & Hv).
  apply outcome_bind_Ok in Hv as (? & Hv5 & Hv). apply outcome_bind_Ok in Hv as (? & Hv6 & Hd).
  apply validate_length_Ok in Hp, Ha, Hs. destruct_and!.
  split; [by eapply require_Ok, bool_decide_eq_true_1 in Hkey|].
  unfold graph_slots, slot_values. rewrite !zip3_app by congruence.
  repeat apply Forall2_app.
  - apply (verify_slot_checked "take1/0/all") in Hv1 as (v & Hv1).
    apply (verify_slot_checked "take1/3/all") in Hv2 as (w & Hv2).
    eapply fixed_two; [rewrite zip3_length by congruence; done|done|done].
  - apply (verify_slot_checked "take2/0/all") in Hv3 as (v & Hv3).
    eapply fixed_one; [rewrite zip3_length by congruence; done|done].
  - apply (verify_slot_checked "challenge/0/single_anyonecanpay") in Hv4 as (v & Hv4).
    eapply fixed_one; [rewrite zip3_length by congruence; done|done].
  - apply (singles_from _ _ 0); [rewrite zip3_length by congruence; congruence|]. intros i tx Hi.
    apply lookup_enumerate in Hi. eapply (for_each_unit_at _ _ _ Ht) in Hi.
    eapply verify_slot_checked in Hi as (v & Hi & Hc).
    eexists v, _. split_and!; [reflexivity|exact Hi|exact Hc].
  - apply (pairs_from _ _ 0); [rewrite zip3_length by congruence; congruence|]. intros i tx Hi.
    apply lookup_enumerate in Hi. eapply (for_each_unit_at _ _ _ Hn) in Hi.
    apply outcome_bind_Ok in Hi as (? & Hi & Hi').
    eapply verify_slot_checked in Hi as (v & Hi & Hc), Hi' as (w & Hi' & Hc').
    eexists v, w, _, _. split_and!; [reflexivity|exact Hi|exact Hi'|exact Hc|exact Hc'].
  - apply (verify_slot_checked "operator_commit_timeout/0/all") in Hv5 as (v & Hv5).
    apply (verify_slot_checked "operator_commit_timeout/1/all") in Hv6 as (w & Hv6).
    eapply fixed_two; [rewrite zip3_length by congruence; done|done|done].
  - apply (pairs_from _ _ 0); [rewrite zip3_length by congruence; congruence|]. intros i tx Hi.
    apply lookup_enumerate in Hi. eapply (for_each_unit_at _ _ _ Hd) in Hi.
    apply outcome_bind_Ok in Hi as (? & Hi & Hi').
    eapply verify_slot_checked in Hi as (v & Hi & Hc), Hi' as (w & Hi' & Hc').
    eexists v, w, _, _. split_and!; [reflexivity|exact Hi|exact Hi'|exact Hc|exact Hc'].
Qed.

(** ** A member's own nonces *)

Lemma slot_values_map {A B} (f : A → B) d : slot_values (data_map f d) = f <$> slot_values d.
Proof. unfold slot_values, data_map. cbn. by rewrite !fmap_app. Qed.

(** The slots take consecutive indices, so no two share one. *)
Lemma nonce_slots_seq w v :
  slot_values (nonce_slots w v) =
  seq 0 (2 + 1 + 1 + w + w * 2 + 2 + v * 2).
Proof.
  unfold slot_values, nonce_slots. cbn -[Nat.mul].
  unfold watchtower_challenge_timeout_pre_sign_num, operator_challenge_nack_pre_sign_num,
    operator_commit_timeout_pre_sign_num, disprove_pre_sign_num.
  rewrite !seq_app. cbn -[Nat.mul seq]. cbn [seq app].
  do 4 f_equal. rewrite <- !app_assoc. do 2 f_equal.
Qed.

Lemma validate_data_map {A B} (f : A → B) d w v : validate_length (data_map f d) w v = validate_length d w v.
Proof. unfold validate_length, data_map. cbn. by rewrite !length_fmap. Qed.

Lemma nonce_slots_valid w v : validate_length (nonce_slots w v) w v = Ok tt.
Proof. unfold validate_length, nonce_slots. cbn. by rewrite !length_seq, !Nat.eqb_refl. Qed.

Lemma verify_vec_own {A} k (f : A → string * string * string) (l : list A) :
  (∀ x, (f x).2 = sign_schnorr k (get_nonce_message (f x).1.2)) →
  verify_vec (xonly (public_key k)) ((λ n, n.1.2) <$> (f <$> l)) (snd <$> (f <$> l)) = true.
Proof.
  intros Hf. unfold verify_vec. rewrite !length_fmap, Nat.eqb_refl. cbn [andb].
  induction l as [|x l IH]; [done|]. cbn [fmap list_fmap zip zip_with forallb]. rewrite Hf at 1.
  rewrite public_nonce_check, schnorr_correct. exact IH.
Qed.

Lemma own_nonces_verify g k pubs secs sigs :
  nonces_for_graph_job_with_keypair g k = Ok (pubs, secs, sigs) →
  verify_nonce_signatures (xonly (public_key k)) pubs sigs (watchtower_num g) (verifier_num g) = Ok true ∧
  validate_length secs (watchtower_num g) (verifier_num g) = Ok tt ∧
  ∃ seed, slot_values secs =
    (λ i, (generate_nonce k seed i).1.1) <$> seq 0 (length (slot_values secs)).
Proof.
  unfold nonces_for_graph_job_with_keypair, generate_nonce_from_seed. intros Hn.
  do 2 apply outcome_bind_Ok in Hn as (? & _ & Hn). injection Hn as <- <- <-. split_and!.
  - unfold verify_nonce_signatures. rewrite !validate_data_map, nonce_slots_valid. cbn [mbind outcome_bind].
    f_equal. unfold data_map. cbn [md_take1 md_take2 md_challenge md_watchtower_challenge_timeout
      md_operator_challenge_nack md_operator_commit_timeout md_disprove].
    by rewrite !verify_vec_own.
  - by rewrite !validate_data_map, nonce_slots_valid.
  - eexists. rewrite !slot_values_map, !nonce_slots_seq. rewrite !length_fmap, length_seq.
    by rewrite <- list_fmap_compose.
Qed.

End Transcripts.
