(* ===== verification/RoundStore.v ===== *)
(** * The committee's round material

    What a node keeps of the signing rounds of its instances and graphs: the nonces, votes,
    partial signatures and endorsements of every member, and the transcript each signing nonce
    is bound to.

    Source: crates/store/src/signing.rs, node/src/utils/rounds.rs, node/src/utils/instance_store.rs,
    node/src/utils/graph_store.rs.

    Between two statements of a job other tasks run: [others] says what they did to the node. *)

From stdpp Require Import base list strings pretty gmap.
From S2P Require Import Prelude Table Storage EngineEffects NodeSchema LocalDb NodeApply.
From S2P Require Import InstanceDecide InstanceAggregate Committee.

Local Open Scope Z_scope.

(** ** State *)

Record SigningRow := mkSigningRow {
  sr_nonce_id : string;
  sr_scope_kind : string;
  sr_scope_id : string;
  sr_transcript_digest : string;
  sr_created_at : Z;
}.

(** What a node held when it signed: the members and public nonces of the round, the votes it
    checked, and the row and the tip it read the signing gate with. *)
Record RoundEvidence (N : Type) := mkEvidence {
  ev_committee : list PublicKey;
  ev_pub_nonces : list N;
  ev_votes : list (bytes * SchnorrSignature);
  ev_instance : option Instance_;
  ev_tip : Z;
}.
Arguments mkEvidence {N}. Arguments ev_committee {N}. Arguments ev_pub_nonces {N}.
Arguments ev_votes {N}. Arguments ev_instance {N}. Arguments ev_tip {N}.

(** A call that used a secret nonce: its arguments, and what the node held; for a graph also the
    verifiers' endorsements: key, slot, peer and signature. *)
Inductive Signing : Type :=
| PeginSigning (parameters : BitvmGcInstanceParameters) (keypair : Keypair) (sec_nonce : SecNonce)
    (agg_nonce : AggNonce) (held : RoundEvidence PubNonce)
| GraphSigning (graph : BitvmGcGraph) (keypair : Keypair) (sec_nonces : CommitteeSecNonces)
    (agg_nonces : CommitteeAggNonces) (held : RoundEvidence CommitteePubNonces)
    (endorsements : list (PublicKey * (nat * string * SchnorrSignature))).

(** The node's tables, the key envelope files, the calls it made to the outside and the
    signing calls so far. *)
Record RoundNode := mkRoundNode {
  rn_tables : NodeTables;
  rn_authorizations : list SigningRow;
  rn_envelopes : gmap Uuid bytes;
  rn_asked : nat;
  rn_signed : list Signing;
}.

#[export] Instance eta_RoundNode : Eta RoundNode := λ s,
  mkRoundNode (rn_tables s) (rn_authorizations s) (rn_envelopes s) (rn_asked s) (rn_signed s).

(** What the other tasks of the process do before the [k]-th step of this one. *)
Class Others := others : nat → RoundNode → RoundNode.

Definition interfere `{Others} : ST RoundNode unit := λ s e,
  (Ok tt, (others (rn_asked s) s) <| rn_asked := S (rn_asked s) |>, e).

(** A question to a chain or to the environment; the answers may change over time. *)
Definition ask `{Others} {A} (answer : nat → outcome A) : ST RoundNode A := λ s e,
  let s := (others (rn_asked s) s) <| rn_asked := S (rn_asked s) |> in (answer (rn_asked s), s, e).

(** [LocalDB::acquire] can fail. *)
Definition acquire_local `{Others} : ST RoundNode unit := interfere;; stmt (λ s, (tt, s)).

(** A statement on the node's tables. *)
Definition on_rows `{Others} {A} (m : ST NodeTables A) : ST RoundNode A :=
  interfere;; focus rn_tables (λ t s, s <| rn_tables := t |>) m.

(** The use of a secret nonce. *)
Definition record_signing (signing : Signing) : ST RoundNode unit := λ s e,
  (Ok tt, s <| rn_signed ::= λ l, l ++ [signing] |>, e).

(** ** Authorizations *)

Inductive SigningAuthorization : Type :=
| Authorized
| Repeated
| Conflict (existing_digest : string).

Definition for_nonce (nonce_id : string) (r : SigningRow) : bool := bool_decide (sr_nonce_id r = nonce_id).

(** [INSERT OR IGNORE] under the primary key, then the digest of the row that is there. *)
Definition authorize_signing `{Others} (scope_kind scope_id nonce_id transcript_digest : string) (now : Z) :
    ST RoundNode SigningAuthorization :=
  interfere;;
  inserted ← stmt (λ s,
    if existsb (for_nonce nonce_id) (rn_authorizations s) then (false, s)
    else (true, s <| rn_authorizations ::= λ rows,
                  rows ++ [mkSigningRow nonce_id scope_kind scope_id transcript_digest now] |>));
  if inserted : bool then mret Authorized
  else
    interfere;;
    existing ← query (λ s, select_one (for_nonce nonce_id) (rn_authorizations s));
    match existing with
    | None => st_fail ["no rows returned by a query that expected to return at least one row"%string]
    | Some row =>
        if bool_decide (sr_transcript_digest row = transcript_digest) then mret Repeated
        else mret (Conflict (sr_transcript_digest row))
    end.

(** ** Process data *)

Record GraphProcessDataItem := mkGraphItem {
  gi_committee_pub_nonce : option CommitteePubNonces;
  gi_agg_nonce_consensus_hash : option bytes;
  gi_agg_nonce_consensus_signature : option SchnorrSignature;
  gi_partial_sigs : option CommitteePartialSignatures;
  gi_committee_evm_address : option string;
  gi_endorse_signature : bytes;
  gi_params_endorse_signature : bytes;
  gi_verifier_index : option nat;
  gi_verifier_peer_id : option string;
  gi_verifier_params_signature : option SchnorrSignature;
}.

#[export] Instance eta_GraphProcessDataItem : Eta GraphProcessDataItem := λ i,
  mkGraphItem (gi_committee_pub_nonce i) (gi_agg_nonce_consensus_hash i)
    (gi_agg_nonce_consensus_signature i) (gi_partial_sigs i) (gi_committee_evm_address i)
    (gi_endorse_signature i) (gi_params_endorse_signature i) (gi_verifier_index i)
    (gi_verifier_peer_id i) (gi_verifier_params_signature i).
#[export] Instance eta_InstanceProcessDataItem : Eta InstanceProcessDataItem := λ i,
  mkProcessItem (pd_pub_nonce i) (pd_agg_nonce_consensus_hash i) (pd_agg_nonce_consensus_signature i)
    (pd_partial_sign i) (pd_endorse_signature i).

Definition default_graph_item : GraphProcessDataItem :=
  mkGraphItem None None None None None "" "" None None None.
Definition default_instance_item : InstanceProcessDataItem := mkProcessItem None None None None "".

Abbreviation InstanceProcessDataMap := (IndexMap InstanceProcessDataItem) (only parsing).
Abbreviation GraphProcessDataMap := (IndexMap GraphProcessDataItem) (only parsing).

(** [IndexMap::get], and [entry(k).and_modify(f).or_insert_with(..)] where the inserted value is
    the modified default. *)
Fixpoint im_get {V} (k : string) (m : IndexMap V) : option V :=
  match m with
  | [] => None
  | (k', v) :: m' => if decide (k' = k) then Some v else im_get k m'
  end.

Definition im_entry {V} (k : string) (f : V → V) (dflt : V) (m : IndexMap V) : IndexMap V :=
  im_insert k (f (default dflt (im_get k m))) m.

(** [serde_json] on the maps. *)
Class RoundCodec `{InstanceCodec} := {
  instance_process_to_string : InstanceProcessDataMap → outcome string;
  graph_process_to_string : GraphProcessDataMap → outcome string;
  graph_process_from_str : string → outcome GraphProcessDataMap;
}.
Class RoundCodecLaws `{RoundCodec} : Prop := {
  instance_process_roundtrip m s : instance_process_to_string m = Ok s → process_data_from_str s = Ok m;
  graph_process_roundtrip m s : graph_process_to_string m = Ok s → graph_process_from_str s = Ok m;
}.

(** [SpecialError]: what makes a failure permanent. *)
Definition InvalidGraph (message : string) : error := ["Invalid Graph: " +:+ message].
Definition InvalidPeginData (message : string) : error := ["Invalid Pegin Data: " +:+ message].
Definition InvalidPeginRequest (message : string) : error := ["Invalid Pegin Request: " +:+ message].
Definition InvalidCommittee (message : string) : error := ["Invalid Committee: " +:+ message].

Section Store.
Context `{UuidText} `{RoundCodec} `{Others}.

Definition find_graph_process_row (id : Uuid) : ST NodeTables (option PeginGraphProcessData) :=
  query (λ t, select_one (λ r, bool_decide (gp_graph_id r = id)) (t_pegin_graph_process_data t)).

Definition find_pegin_graph_process_data (graph_id : Uuid) : ST RoundNode (bool * GraphProcessDataMap) :=
  row ← on_rows (find_graph_process_row graph_id);
  match row with
  | Some data => m ← st_lift (graph_process_from_str (gp_process_data data));
                 mret (gp_is_endorsed data, m)
  | None => mret (false, [])
  end.

Definition upsert_graph_process_data (graph_id instance_id : Uuid) (is_endorsed : bool)
    (process_data_map : GraphProcessDataMap) : ST RoundNode unit :=
  now ← clock_now;
  text ← st_lift (graph_process_to_string process_data_map);
  on_rows (upsert_pegin_graph_process_data
    (mkGraphProcess graph_id instance_id text is_endorsed now now));;
  mret tt.

(** A failed read and text that does not parse give an empty map. *)
Definition find_pegin_instance_process_data (instance_id : Uuid) :
    ST RoundNode InstanceProcessDataMap := λ s e,
  match on_rows (find_instance_process_row instance_id) s e with
  | (Ok (Some data), s', e') =>
      (Ok (unwrap_or (process_data_from_str (ip_process_data data)) []), s', e')
  | (_, s', e') => (Ok [], s', e')
  end.

Definition upsert_instance_process_data (instance_id : Uuid)
    (process_data_map : InstanceProcessDataMap) : ST RoundNode unit :=
  now ← clock_now;
  text ← st_lift (instance_process_to_string process_data_map);
  on_rows (upsert_pegin_instance_process_data (mkInstanceProcess instance_id text now now));;
  mret tt.

(** ** Ordered values *)

(** Every value comes from a distinct member, and every member has one: the values in
    committee order. *)
Definition order_committee_values {T} (committee_pubkeys : list PublicKey)
    (values : list (PublicKey * T)) (label : string) : outcome (list T) :=
  for_each (λ _ '(idx, (pubkey, _)),
      require (bool_decide (pubkey ∈ committee_pubkeys))
        (label +:+ " contains non-committee pubkey " +:+ pubkey);;
      require (negb (existsb (λ other, bool_decide (other.1 = pubkey)) (drop (S idx) values)))
        (label +:+ " contains duplicate pubkey " +:+ pubkey))
    tt (enumerate values);;
  mapM (λ committee_pubkey,
      expect (snd <$> find (λ v, bool_decide (v.1 = committee_pubkey)) values)
        (label +:+ " missing pubkey " +:+ committee_pubkey))
    committee_pubkeys.

(** ** Graphs *)

Section GraphRounds.
Context (instance_id graph_id : Uuid).

(** One member's item of a graph, changed and stored. *)
Definition store_graph_item (pubkey : PublicKey) (f : GraphProcessDataItem → GraphProcessDataItem)
    (is_endorsed : bool) (process_data : GraphProcessDataMap) : ST RoundNode unit :=
  upsert_graph_process_data graph_id instance_id is_endorsed
    (im_entry pubkey f default_graph_item process_data).

(** The items a getter selects. *)
Definition collect_graph {T} (get : GraphProcessDataItem → option T) :
    ST RoundNode (list (PublicKey * T)) :=
  acquire_local;;
  found ← find_pegin_graph_process_data graph_id;
  mret (omap (λ kv, v ← get kv.2; Some (kv.1, v)) found.2).

Definition store_committee_pub_nonces_for_graph (committee_pubkey : PublicKey)
    (pub_nonces : CommitteePubNonces) : ST RoundNode unit :=
  acquire_local;;
  found ← find_pegin_graph_process_data graph_id;
  let '(is_endorsed, process_data) := found in
  let existing := v ← im_get committee_pubkey process_data; gi_committee_pub_nonce v in
  if match existing with Some e => negb (bool_decide (e = pub_nonces)) | None => false end then
    st_fail (InvalidGraph ("committee pub nonces changed for graph " +:+ uuid_to_string graph_id +:+
                           " and committee " +:+ committee_pubkey))
  else store_graph_item committee_pubkey (λ v, v <| gi_committee_pub_nonce := Some pub_nonces |>)
         is_endorsed process_data.

Definition get_committee_pub_nonces_for_graph : ST RoundNode (list (PublicKey * CommitteePubNonces)) :=
  collect_graph gi_committee_pub_nonce.

(** [hash.zip(signature)] of an item. *)
Definition graph_vote (v : GraphProcessDataItem) : option (bytes * SchnorrSignature) :=
  hash ← gi_agg_nonce_consensus_hash v; signature ← gi_agg_nonce_consensus_signature v;
  Some (hash, signature).

Definition store_committee_agg_nonce_consensus_for_graph (committee_pubkey : PublicKey)
    (consensus_hash : bytes) (signature : SchnorrSignature) : ST RoundNode unit :=
  acquire_local;;
  found ← find_pegin_graph_process_data graph_id;
  let '(is_endorsed, process_data) := found in
  let existing := v ← im_get committee_pubkey process_data; graph_vote v in
  if match existing with
     | Some (h, sig) => negb (bool_decide (h = consensus_hash)) || negb (bool_decide (sig = signature))
     | None => false
     end then
    st_fail (InvalidGraph ("committee agg nonce consensus changed for graph " +:+
                           uuid_to_string graph_id +:+ " and committee " +:+ committee_pubkey))
  else store_graph_item committee_pubkey
         (λ v, v <| gi_agg_nonce_consensus_hash := Some consensus_hash |>
                 <| gi_agg_nonce_consensus_signature := Some signature |>)
         is_endorsed process_data.

Definition get_committee_agg_nonce_consensus_for_graph :
    ST RoundNode (list (PublicKey * (bytes * SchnorrSignature))) := collect_graph graph_vote.

Definition store_committee_partial_sigs_for_graph (committee_pubkey : PublicKey)
    (partial_sigs : CommitteePartialSignatures) : ST RoundNode unit :=
  acquire_local;;
  found ← find_pegin_graph_process_data graph_id;
  let '(is_endorsed, process_data) := found in
  let existing := v ← im_get committee_pubkey process_data; gi_partial_sigs v in
  if match existing with Some e => negb (bool_decide (e = partial_sigs)) | None => false end then
    st_fail (InvalidGraph ("committee partial signatures changed for graph " +:+
                           uuid_to_string graph_id +:+ " and committee " +:+ committee_pubkey))
  else store_graph_item committee_pubkey (λ v, v <| gi_partial_sigs := Some partial_sigs |>)
         is_endorsed process_data.

Definition get_committee_partial_sigs_for_graph :
    ST RoundNode (list (PublicKey * CommitteePartialSignatures)) := collect_graph gi_partial_sigs.

Definition get_committee_partial_sigs_for_graph_member (committee_pubkey : PublicKey) :
    ST RoundNode (option CommitteePartialSignatures) :=
  acquire_local;;
  found ← find_pegin_graph_process_data graph_id;
  mret (v ← im_get committee_pubkey found.2; gi_partial_sigs v).

Definition store_committee_endorsement_for_graph (committee_pubkey : PublicKey)
    (committee_evm_address : string) (endorse_signature params_endorse_signature : bytes) :
    ST RoundNode unit :=
  acquire_local;;
  found ← find_pegin_graph_process_data graph_id;
  let '(is_endorsed, process_data) := found in
  store_graph_item committee_pubkey
    (λ v, v <| gi_endorse_signature := endorse_signature |>
            <| gi_params_endorse_signature := params_endorse_signature |>
            <| gi_committee_evm_address := Some committee_evm_address |>)
    is_endorsed process_data.

Definition store_committee_endorsements_for_graph
    (endorse_sigs params_endorse_sigs : list (PublicKey * string * bytes)) : ST RoundNode unit :=
  acquire_local;;
  found ← find_pegin_graph_process_data graph_id;
  let '(is_endorsed, process_data) := found in
  let process_data := foldl (λ m '(pubkey, address, signature),
    im_entry pubkey (λ v, v <| gi_endorse_signature := signature |>
                            <| gi_committee_evm_address := Some address |>) default_graph_item m)
    process_data endorse_sigs in
  let process_data := foldl (λ m '(pubkey, address, signature),
    im_entry pubkey (λ v, v <| gi_params_endorse_signature := signature |>
                            <| gi_committee_evm_address := Some address |>) default_graph_item m)
    process_data params_endorse_sigs in
  upsert_graph_process_data graph_id instance_id is_endorsed process_data.

Definition endorsement_of (v : GraphProcessDataItem) (signature : bytes) : option (string * bytes) :=
  if bool_decide (signature = ""%string) then None
  else address ← gi_committee_evm_address v; Some (address, signature).

Definition get_committee_endorsements_for_graph : ST RoundNode (list (PublicKey * (string * bytes))) :=
  collect_graph (λ v, endorsement_of v (gi_endorse_signature v)).

Definition get_committee_params_endorsements_for_graph :
    ST RoundNode (list (PublicKey * (string * bytes))) :=
  collect_graph (λ v, endorsement_of v (gi_params_endorse_signature v)).

(** Whether an item's peer contradicts the binding of [verifier_pubkey] to [peer]. *)
Definition conflicting_binding `{Musig2} (verifier_pubkey : PublicKey) (verifier_peer_id : string)
    (kv : PublicKey * GraphProcessDataItem) : bool :=
  match gi_verifier_peer_id kv.2 with
  | Some peer =>
      (bool_decide (kv.1 = verifier_pubkey) && negb (bool_decide (peer = verifier_peer_id))) ||
      (negb (bool_decide (kv.1 = verifier_pubkey)) &&
       (bool_decide (peer = verifier_peer_id) || bool_decide (xonly kv.1 = xonly verifier_pubkey)))
  | None => false
  end.

Definition store_verifier_graph_params_endorsement `{Musig2} (verifier_pubkey : PublicKey)
    (verifier_index : nat) (verifier_peer_id : string) (signature : SchnorrSignature) :
    ST RoundNode unit :=
  acquire_local;;
  found ← find_pegin_graph_process_data graph_id;
  let '(is_endorsed, process_data) := found in
  let stored := im_get verifier_pubkey process_data in
  if existsb (conflicting_binding verifier_pubkey verifier_peer_id) process_data then
    st_fail (InvalidGraph "conflicting verifier peer/key binding")
  else if match v ← stored; gi_verifier_index v with
          | Some i => negb (bool_decide (i = verifier_index)) | None => false end then
    st_fail (InvalidGraph ("verifier params endorsement index changed for graph " +:+
                           uuid_to_string graph_id +:+ " and verifier " +:+ verifier_pubkey))
  else if match v ← stored; gi_verifier_params_signature v with
          | Some x => negb (bool_decide (x = signature)) | None => false end then
    st_fail (InvalidGraph ("verifier params endorsement signature changed for graph " +:+
                           uuid_to_string graph_id +:+ " and verifier " +:+ verifier_pubkey))
  else store_graph_item verifier_pubkey
         (λ v, v <| gi_verifier_index := Some verifier_index |>
                 <| gi_verifier_peer_id := Some verifier_peer_id |>
                 <| gi_verifier_params_signature := Some signature |>)
         is_endorsed process_data.

Definition get_verifier_graph_params_endorsements_for_graph :
    ST RoundNode (list (PublicKey * (nat * string * SchnorrSignature))) :=
  collect_graph (λ v,
    index ← gi_verifier_index v; signature ← gi_verifier_params_signature v;
    peer ← gi_verifier_peer_id v; Some (index, peer, signature)).

Definition mark_graph_as_endorsed : ST RoundNode unit :=
  acquire_local;;
  found ← find_pegin_graph_process_data graph_id;
  upsert_graph_process_data graph_id instance_id true found.2.

End GraphRounds.

Definition get_endorsed_graph_count (instance_id : Uuid) : ST RoundNode Z :=
  acquire_local;; on_rows (get_pegin_graph_endorsed_len_by_instance_id instance_id true).

Definition has_required_presigned_graphs (instance_id : Uuid) : ST RoundNode bool :=
  count ← get_endorsed_graph_count instance_id; mret (min_required_operator <=? count).

(** ** Instances *)

Section InstanceRounds.
Context (instance_id : Uuid).

Definition store_instance_item (pubkey : PublicKey)
    (f : InstanceProcessDataItem → InstanceProcessDataItem) (process_data : InstanceProcessDataMap) :
    ST RoundNode unit :=
  upsert_instance_process_data instance_id (im_entry pubkey f default_instance_item process_data).

Definition collect_instance {T} (get : InstanceProcessDataItem → option T) :
    ST RoundNode (list (PublicKey * T)) :=
  acquire_local;;
  process_data ← find_pegin_instance_process_data instance_id;
  mret (omap (λ kv, v ← get kv.2; Some (kv.1, v)) process_data).

Definition member_instance {T} (get : InstanceProcessDataItem → option T) (pubkey : PublicKey) :
    ST RoundNode (option T) :=
  acquire_local;;
  process_data ← find_pegin_instance_process_data instance_id;
  mret (v ← im_get pubkey process_data; get v).

Definition store_committee_pub_nonce_for_instance (committee_pubkey : PublicKey) (pub_nonce : PubNonce) :
    ST RoundNode unit :=
  acquire_local;;
  process_data ← find_pegin_instance_process_data instance_id;
  let existing := v ← im_get committee_pubkey process_data; pd_pub_nonce v in
  if match existing with Some e => negb (bool_decide (e = pub_nonce)) | None => false end then
    st_fail (InvalidPeginData ("committee pub nonce changed for instance " +:+
                               uuid_to_string instance_id +:+ " and committee " +:+ committee_pubkey))
  else store_instance_item committee_pubkey (λ v, v <| pd_pub_nonce := Some pub_nonce |>) process_data.

Definition get_committee_pub_nonce_for_instance : PublicKey → ST RoundNode (option PubNonce) :=
  member_instance pd_pub_nonce.

Definition get_committee_pub_nonces_for_instance : ST RoundNode (list (PublicKey * PubNonce)) :=
  collect_instance pd_pub_nonce.

Definition instance_vote (v : InstanceProcessDataItem) : option (bytes * SchnorrSignature) :=
  hash ← pd_agg_nonce_consensus_hash v; signature ← pd_agg_nonce_consensus_signature v;
  Some (hash, signature).

Definition store_committee_agg_nonce_consensus_for_instance (committee_pubkey : PublicKey)
    (consensus_hash : bytes) (signature : SchnorrSignature) : ST RoundNode unit :=
  acquire_local;;
  process_data ← find_pegin_instance_process_data instance_id;
  let existing := v ← im_get committee_pubkey process_data; instance_vote v in
  if match existing with
     | Some (h, sig) => negb (bool_decide (h = consensus_hash)) || negb (bool_decide (sig = signature))
     | None => false
     end then
    st_fail (InvalidPeginData ("committee PeginConfirm nonce consensus changed for instance " +:+
                               uuid_to_string instance_id +:+ " and committee " +:+ committee_pubkey))
  else store_instance_item committee_pubkey
         (λ v, v <| pd_agg_nonce_consensus_hash := Some consensus_hash |>
                 <| pd_agg_nonce_consensus_signature := Some signature |>) process_data.

Definition get_committee_agg_nonce_consensus_for_instance :
    ST RoundNode (list (PublicKey * (bytes * SchnorrSignature))) := collect_instance instance_vote.

Definition store_committee_partial_sig_for_instance (committee_pubkey : PublicKey)
    (partial_sig : PartialSignature) : ST RoundNode unit :=
  acquire_local;;
  process_data ← find_pegin_instance_process_data instance_id;
  let existing := v ← im_get committee_pubkey process_data; pd_partial_sign v in
  if match existing with Some e => negb (bool_decide (e = partial_sig)) | None => false end then
    st_fail (InvalidPeginData ("committee partial signature changed for instance " +:+
                               uuid_to_string instance_id +:+ " and committee " +:+ committee_pubkey))
  else store_instance_item committee_pubkey (λ v, v <| pd_partial_sign := Some partial_sig |>) process_data.

Definition get_committee_partial_sigs_for_instance : ST RoundNode (list (PublicKey * PartialSignature)) :=
  collect_instance pd_partial_sign.

Definition get_committee_partial_sig_for_instance : PublicKey → ST RoundNode (option PartialSignature) :=
  member_instance pd_partial_sign.

Definition store_committee_endorse_sig_for_pegin (committee_pubkey : PublicKey) (endorse_sig : bytes) :
    ST RoundNode unit :=
  acquire_local;;
  process_data ← find_pegin_instance_process_data instance_id;
  if match im_get committee_pubkey process_data with
     | Some v => negb (bool_decide (pd_endorse_signature v = ""%string)) &&
                 negb (bool_decide (pd_endorse_signature v = endorse_sig))
     | None => false
     end then
    st_fail (InvalidPeginData ("committee endorse signature changed for instance " +:+
                               uuid_to_string instance_id +:+ " and committee " +:+ committee_pubkey))
  else store_instance_item committee_pubkey (λ v, v <| pd_endorse_signature := endorse_sig |>) process_data.

Definition get_committee_endorse_sigs_for_pegin : ST RoundNode (list (PublicKey * bytes)) :=
  collect_instance (λ v, if bool_decide (pd_endorse_signature v = ""%string) then None
                         else Some (pd_endorse_signature v)).

End InstanceRounds.

(** ** Instance parameters *)

(** [serde_json] on the parameters, and their reconstruction from a row with its committee
    answers ([gen_instance_parameters_local]). *)
Class ParametersCodec := {
  parameters_to_string : BitvmGcInstanceParameters → outcome string;
  parameters_from_str : string → outcome BitvmGcInstanceParameters;
  gen_instance_parameters_local : Instance_ → outcome BitvmGcInstanceParameters;
}.

Section Parameters.
Context `{ParametersCodec} `{Sha256} `{RoundJson}.

Definition get_instance_parameters_by_id (id : Uuid) : ST NodeTables (option string) :=
  query (λ t, r ← select_one (instance_is id) (t_instance t); it_parameters r).

Definition store_instance_parameters (parameters : BitvmGcInstanceParameters) : ST RoundNode unit :=
  acquire_local;;
  incoming ← st_lift (instance_parameters_hash parameters);
  existing ← on_rows (get_instance_parameters_by_id (bi_instance_id parameters));
  match existing with
  | Some text =>
      stored ← st_lift (parameters_from_str text);
      existing_hash ← st_lift (instance_parameters_hash stored);
      if bool_decide (existing_hash = incoming) then mret tt
      else st_fail (InvalidPeginData ("instance parameters changed for instance_id " +:+
             uuid_to_string (bi_instance_id parameters) +:+ ": existing=" +:+ hex_encode existing_hash +:+
             ", incoming=" +:+ hex_encode incoming))
  | None => mret tt
  end;;
  text ← st_lift (parameters_to_string parameters);
  on_rows (update_instance_parameters (bi_instance_id parameters) text);;
  mret tt.

Definition get_instance_parameters (instance_id : Uuid) : ST RoundNode (option BitvmGcInstanceParameters) :=
  acquire_local;;
  row ← on_rows (find_instance instance_id);
  match row with
  | None => mret None
  | Some instance =>
      match it_parameters instance with
      | Some text => p ← st_lift (parameters_from_str text); mret (Some p)
      | None =>
          p ← st_lift (match gen_instance_parameters_local instance with
                       | Ok p => Ok p
                       | Err e => Err (("failed to reconstruct parameters for instance " +:+
                                        uuid_to_string instance_id)%string :: e)
                       end);
          mret (Some p)
      end
  end.

End Parameters.
End Store.
