(* ===== verification/KeyEnvelope.v ===== *)
(** * Committee keys

    A committee member has one key per instance, in an encrypted envelope on disk: created
    when the node answers the peg-in request, loaded when it signs, deleted when the instance
    is over.

    Source: crates/bitvm-gc/src/keys.rs, node/src/utils/committee_keys.rs,
    node/src/aggregates/instance_jobs.rs.  The crates [bitcoin] (BIP-32), [chacha20poly1305],
    [hex] and [serde_json] are the class [Sealing]; a file that is not there is the error
    [NOT_FOUND], and every file operation can fail. *)

From stdpp Require Import base list strings pretty gmap.
From S2P Require Import Prelude Table Storage EngineEffects NodeSchema LocalDb NodeApply.
From S2P Require Import InstanceAggregate Committee CommitteeProps RoundStore.

Local Open Scope Z_scope.

Definition PURPOSE_BITVM_GC_DERIVATION : Z := 2345.
Definition ROLE_COMMITTEE : Z := 0.
Definition ROLE_OPERATOR : Z := 1.
Definition KEY_KIND_COMMITTEE_ENVELOPE : Z := 0.
Definition KEY_KIND_OPERATOR_NONCE : Z := 1.
Definition COMMITTEE_ENVELOPE_VERSION : Z := 1.

(** A derivation path: its hardened indices. *)
Definition DerivationPath : Type := list Z.

(** [(value >> shift) & 0xffff]. *)
Definition segment (value shift : Z) : Z := Z.land (Z.shiftr value shift) 0xffff.

(** m / purpose' / role' / key_kind' / nonce_hi16' / ... / nonce_lo16' *)
Definition operator_nonce_derivation_path (nonce : Z) : DerivationPath :=
  [PURPOSE_BITVM_GC_DERIVATION; ROLE_OPERATOR; KEY_KIND_OPERATOR_NONCE] ++
  map (segment nonce) [48; 32; 16; 0].

(** m / purpose' / role_committee' / key_kind' / iid_0' / ... / iid_7' *)
Definition committee_kek_derivation_path (instance_id : Uuid) : DerivationPath :=
  [PURPOSE_BITVM_GC_DERIVATION; ROLE_COMMITTEE; KEY_KIND_COMMITTEE_ENVELOPE] ++
  map (segment (Z.of_N instance_id)) [112; 96; 80; 64; 48; 32; 16; 0].

Record CommitteeInstanceKeyEnvelope := mkEnvelope {
  ke_version : Z;
  ke_instance_id : Uuid;
  ke_committee_pubkey_hex : string;
  ke_kek_path : string;
  ke_aead_nonce_hex : string;
  ke_ciphertext_hex : string;
  ke_created_at : Z;
}.

Class Sealing := {
  derive_priv : Keypair → DerivationPath → bytes;
  path_to_string : DerivationPath → string;
  aead_encrypt : bytes → bytes → bytes → bytes → outcome bytes;
  aead_decrypt : bytes → bytes → bytes → bytes → outcome bytes;
  hex_decode : string → outcome bytes;
  pubkey_parse : string → outcome PublicKey;
  secret_key_from_slice : bytes → outcome Keypair;
  envelope_to_vec : CommitteeInstanceKeyEnvelope → outcome bytes;
  envelope_from_slice : bytes → outcome CommitteeInstanceKeyEnvelope;
  random_secret : nat → Keypair;
  random_aead_nonce : nat → bytes;
  envelope_path : Uuid → string;
}.

(** What was encrypted or encoded comes back, a secret key has 32 bytes and a random nonce 12. *)
Class SealingLaws `{Musig2} `{Sealing} : Prop := {
  aead_correct key nonce msg aad c :
    aead_encrypt key nonce msg aad = Ok c → aead_decrypt key nonce c aad = Ok msg;
  hex_correct b : hex_decode (hex_encode b) = Ok b;
  pubkey_parse_correct k : pubkey_parse (public_key k) = Ok (public_key k);
  secret_key_correct n : secret_key_from_slice (secret_bytes (random_secret n)) = Ok (random_secret n);
  secret_key_length n : String.length (secret_bytes (random_secret n)) = 32%nat;
  envelope_roundtrip v b : envelope_to_vec v = Ok b → envelope_from_slice b = Ok v;
  aead_nonce_length n : String.length (random_aead_nonce n) = 12%nat;
}.

Definition NOT_FOUND : string := "No such file or directory (os error 2)".
Definition io_error : error := ["Input/output error (os error 5)"%string].

(** [.with_context(..)]. *)
Definition in_context {A} (context : string) (m : ST RoundNode A) : ST RoundNode A := λ s e,
  match m s e with
  | (Err x, s', e') => (Err (context :: x), s', e')
  | r => r
  end.

Definition context_of {A} (context : string) (o : outcome A) : outcome A :=
  match o with Ok a => Ok a | Err e => Err (context :: e) end.

(** ** Files *)

Definition io {A} (f : RoundNode → outcome A * RoundNode) : ST RoundNode A := λ s e,
  let '(b, e') := next_fault e in
  if b then (Err io_error, s, e') else let '(o, s') := f s in (o, s', e').

(** [Path::exists] is false when it cannot tell. *)
Definition exists_file (id : Uuid) : ST RoundNode bool := λ s e,
  let '(b, e') := next_fault e in (Ok (negb b && bool_decide (is_Some (rn_envelopes s !! id))), s, e').
Definition read_file (id : Uuid) : ST RoundNode bytes :=
  io (λ s, (expect (rn_envelopes s !! id) NOT_FOUND, s)).
Definition write_file (id : Uuid) (content : bytes) : ST RoundNode unit :=
  io (λ s, (Ok tt, s <| rn_envelopes ::= <[id := content]> |>)).
Definition remove_file (id : Uuid) : ST RoundNode unit :=
  io (λ s, match rn_envelopes s !! id with
           | Some _ => (Ok tt, s <| rn_envelopes ::= base.delete id |>)
           | None => (Err [NOT_FOUND], s)
           end).

Definition is_io_not_found_error (err : error) : bool := existsb (λ cause, bool_decide (cause = NOT_FOUND)) err.

Section Keys.
Context `{UuidText} `{Musig2} `{Sealing} `{Others}.
Context (master_key : Keypair).

Definition derive_committee_instance_kek (instance_id : Uuid) : bytes * string :=
  let path := committee_kek_derivation_path instance_id in
  (derive_priv master_key path, path_to_string path).

Definition envelope_aad (instance_id : Uuid) (committee_pubkey : PublicKey) : bytes :=
  uuid_bytes instance_id +:+ pubkey_to_bytes committee_pubkey.

Definition create_instance_keypair_envelope (instance_id : Uuid) : ST RoundNode PublicKey :=
  keypair ← ask (λ k, Ok (random_secret k));
  let committee_pubkey := public_key keypair in
  let '(kek, kek_path) := derive_committee_instance_kek instance_id in
  nonce ← ask (λ k, Ok (random_aead_nonce k));
  ciphertext ← st_lift (map_err (λ e, "encrypt committee instance key failed: " +:+ e)
    (aead_encrypt kek nonce (secret_bytes keypair) (envelope_aad instance_id committee_pubkey)));
  now ← clock_now;
  serialized ← in_context "serialize committee instance key envelope"
    (st_lift (envelope_to_vec (mkEnvelope COMMITTEE_ENVELOPE_VERSION instance_id committee_pubkey
       kek_path (hex_encode nonce) (hex_encode ciphertext) now)));
  in_context ("create envelope directory failed: " +:+ envelope_path instance_id)
    (io (λ s, (Ok tt, s)));;
  in_context ("create envelope file failed: " +:+ envelope_path instance_id)
    (write_file instance_id "");;
  in_context ("write envelope failed: " +:+ envelope_path instance_id)
    (write_file instance_id serialized);;
  in_context ("set envelope permissions failed: " +:+ envelope_path instance_id)
    (io (λ s, (Ok tt, s)));;
  mret committee_pubkey.

(** The checks on a parsed envelope. *)
Definition open_envelope (instance_id : Uuid) (envelope : CommitteeInstanceKeyEnvelope) :
    outcome Keypair :=
  require (bool_decide (ke_version envelope = COMMITTEE_ENVELOPE_VERSION))
    ("unsupported envelope version: " +:+ pretty (ke_version envelope) +:+ ", expected " +:+
     pretty COMMITTEE_ENVELOPE_VERSION);;
  require (bool_decide (ke_instance_id envelope = instance_id))
    ("envelope instance_id mismatch: expected " +:+ uuid_to_string instance_id +:+ ", got " +:+
     uuid_to_string (ke_instance_id envelope));;
  committee_pubkey ← context_of "invalid envelope committee_pubkey_hex"
    (pubkey_parse (ke_committee_pubkey_hex envelope));
  nonce_bytes ← context_of "invalid envelope nonce hex" (hex_decode (ke_aead_nonce_hex envelope));
  require (String.length nonce_bytes =? 12)%nat
    ("invalid envelope nonce length: " +:+ pretty (String.length nonce_bytes));;
  ciphertext ← context_of "invalid envelope ciphertext hex" (hex_decode (ke_ciphertext_hex envelope));
  let '(kek, expected_kek_path) := derive_committee_instance_kek instance_id in
  require (bool_decide (ke_kek_path envelope = expected_kek_path))
    ("envelope kek_path mismatch: expected " +:+ expected_kek_path +:+ ", got " +:+ ke_kek_path envelope);;
  plaintext ← map_err (λ e, "decrypt committee instance key failed: " +:+ e)
    (aead_decrypt kek nonce_bytes ciphertext (envelope_aad instance_id committee_pubkey));
  require (String.length plaintext =? 32)%nat
    ("invalid plaintext secret key length: " +:+ pretty (String.length plaintext));;
  keypair ← context_of "invalid decrypted committee secret key" (secret_key_from_slice plaintext);
  require (bool_decide (public_key keypair = committee_pubkey))
    ("envelope committee pubkey mismatch: expected " +:+ committee_pubkey +:+ ", got " +:+
     public_key keypair);;
  Ok keypair.

Definition load_instance_keypair (instance_id : Uuid) : ST RoundNode Keypair :=
  serialized ← in_context ("read envelope failed: " +:+ envelope_path instance_id) (read_file instance_id);
  envelope ← in_context "parse envelope json failed" (st_lift (envelope_from_slice serialized));
  st_lift (open_envelope instance_id envelope).

Definition delete_instance_keypair_envelope (instance_id : Uuid) : ST RoundNode unit :=
  there ← exists_file instance_id;
  if negb there then mret tt
  else
    serialized ← in_context ("read envelope failed: " +:+ envelope_path instance_id)
                   (read_file instance_id);
    envelope ← in_context "parse envelope json failed" (st_lift (envelope_from_slice serialized));
    st_lift (require (bool_decide (ke_instance_id envelope = instance_id))
      ("envelope instance_id mismatch: expected " +:+ uuid_to_string instance_id +:+ ", got " +:+
       uuid_to_string (ke_instance_id envelope)));;
    in_context ("remove envelope failed: " +:+ envelope_path instance_id) (remove_file instance_id).

(** A key that was deleted is never made again. *)
Definition load_or_create_committee_instance_keypair (instance_id : Uuid) : ST RoundNode Keypair := λ s e,
  match load_instance_keypair instance_id s e with
  | (Ok keypair, s, e) => (Ok keypair, s, e)
  | (Err load_err, s, e) =>
      if negb (is_io_not_found_error load_err) then
        (Err (("load committee instance keypair failed for " +:+ uuid_to_string instance_id +:+ " at " +:+
               envelope_path instance_id +:+ " (refuse auto-overwrite for non-missing envelope)")%string
              :: load_err), s, e)
      else
        (acquire_local;;
         row ← on_rows (find_instance instance_id);
         if match row with Some instance => it_key_deleted instance | None => false end then
           st_fail ["committee instance key for " +:+ uuid_to_string instance_id +:+
                    " was deleted; refusing to regenerate it"]
         else
           in_context ("create committee instance key envelope failed for " +:+
                       uuid_to_string instance_id +:+ " at " +:+ envelope_path instance_id)
             (create_instance_keypair_envelope instance_id);;
           in_context ("reload committee instance key envelope failed for " +:+
                       uuid_to_string instance_id +:+ " at " +:+ envelope_path instance_id)
             (load_instance_keypair instance_id)) s e
  end.

End Keys.

Inductive CommitteeMembership : Type :=
| Member (keypair : Keypair)
| NotMember (reason : string).

(** The key in the envelope against the committee on Goat. *)
Definition membership_of_key `{UuidText} `{Musig2} `{Sealing} `{Others}
    (committee : nat → Uuid → outcome (list PublicKey)) (instance_id : Uuid) (master_key : Keypair) :
    ST RoundNode CommitteeMembership := λ s e,
  match in_context ("load committee instance keypair failed for " +:+ uuid_to_string instance_id +:+
                    " at " +:+ envelope_path instance_id)
          (load_instance_keypair master_key instance_id) s e with
  | (Ok keypair, s, e) =>
      (keys ← ask (λ k, committee k instance_id);
       mret (if bool_decide (public_key keypair ∈ keys) then Member keypair
             else NotMember ("instance key " +:+ public_key keypair +:+
                             " is not in the committee on Goat"))) s e
  | (Err err, s, e) =>
      if is_io_not_found_error err then (Ok (NotMember "instance key envelope vanished"), s, e)
      else (Err err, s, e)
  end.

(** The node holds the instance's key and the key is in the committee on Goat. *)
Definition local_committee_membership `{UuidText} `{Musig2} `{Sealing} `{Others}
    (get_bitvm_key : outcome Keypair) (committee : nat → Uuid → outcome (list PublicKey))
    (instance_id : Uuid) : ST RoundNode CommitteeMembership :=
  there ← exists_file instance_id;
  if negb there then mret (NotMember "no instance key envelope")
  else
    master_key ← st_lift get_bitvm_key;
    membership_of_key committee instance_id master_key.

(** ** Paths *)

Lemma segment_testbit value shift i :
  0 ≤ shift → 0 ≤ i < 16 → Z.testbit (segment value shift) i = Z.testbit value (shift + i).
Proof.
  intros Hs Hi. unfold segment. rewrite Z.land_spec, Z.shiftr_spec by lia.
  change 0xffff with (Z.ones 16). rewrite Z.ones_spec_low by lia. by rewrite andb_true_r, Z.add_comm.
Qed.

Lemma segments_inj k a b :
  0 ≤ a < 2 ^ (16 * Z.of_nat k) → 0 ≤ b < 2 ^ (16 * Z.of_nat k) →
  (∀ q, (q < k)%nat → segment a (16 * Z.of_nat q) = segment b (16 * Z.of_nat q)) → a = b.
Proof.
  intros Ha Hb Hs. apply Z.bits_inj'. intros i Hi.
  destruct (Z.lt_ge_cases i (16 * Z.of_nat k)) as [Hlt|Hge].
  - pose proof (Z.div_mod i 16 ltac:(lia)) as Hdm. pose proof (Z.mod_pos_bound i 16 ltac:(lia)) as Hm.
    assert (Hq : 0 ≤ i / 16) by (apply Z.div_pos; lia).
    assert (Hqk : i / 16 < Z.of_nat k) by (apply Z.div_lt_upper_bound; lia).
    specialize (Hs (Z.to_nat (i / 16)) ltac:(lia)). rewrite Z2Nat.id in Hs by lia.
    rewrite Hdm, <- !segment_testbit by lia. by rewrite Hs.
  - assert (Hhigh : ∀ x, 0 ≤ x < 2 ^ (16 * Z.of_nat k) → Z.testbit x i = false).
    { intros x Hx. destruct (decide (x = 0)) as [->|Hne]; [apply Z.bits_0|].
      apply Z.bits_above_log2; [lia|]. apply Z.log2_lt_pow2; [lia|].
      apply Z.lt_le_trans with (2 ^ (16 * Z.of_nat k)); [lia|]. apply Z.pow_le_mono_r; lia. }
    by rewrite !Hhigh.
Qed.

Ltac by_segment q n :=
  lazymatch n with
  | O => lia
  | S ?n' => destruct q as [|q]; [assumption|by_segment q n']
  end.

(** Two instances never share the key that encrypts their envelopes, nor two slots of an operator
    their key. *)
Lemma derivation_paths_distinct :
  (∀ a b : Uuid, Z.of_N a < 2 ^ 128 → Z.of_N b < 2 ^ 128 →
     committee_kek_derivation_path a = committee_kek_derivation_path b → a = b) ∧
  (∀ a b : Z, 0 ≤ a < 2 ^ 64 → 0 ≤ b < 2 ^ 64 →
     operator_nonce_derivation_path a = operator_nonce_derivation_path b → a = b) ∧
  (∀ (a : Uuid) (b : Z), committee_kek_derivation_path a ≠ operator_nonce_derivation_path b).
Proof.
  split_and!.
  - intros a b Ha Hb Hp. unfold committee_kek_derivation_path in Hp. cbn [map app] in Hp.
    injection Hp as H7 H6 H5 H4 H3 H2 H1 H0. apply N2Z.inj, (segments_inj 8); [split; [lia|exact Ha]|split; [lia|exact Hb]|].
    intros q Hq. by_segment q 8%nat.
  - intros a b Ha Hb Hp. unfold operator_nonce_derivation_path in Hp. cbn [map app] in Hp.
    injection Hp as H3 H2 H1 H0. apply (segments_inj 4); [exact Ha|exact Hb|].
    intros q Hq. by_segment q 4%nat.
  - intros a b Hp. unfold committee_kek_derivation_path, operator_nonce_derivation_path in Hp.
    discriminate Hp.
Qed.

Section KeyProps.
Context `{UuidText} `{SealingLaws} `{Others}.
Context (master_key : Keypair).

(** ** Envelopes *)

Lemma io_Ok {A} (f : RoundNode → outcome A * RoundNode) s e a s' e' :
  io f s e = (Ok a, s', e') → f s = (Ok a, s').
Proof. unfold io. destruct (next_fault e) as [[] e1]; [done|]. destruct (f s) as [o t]. naive_solver. Qed.

Lemma in_context_Ok {A} c (m : ST RoundNode A) s e a s' e' :
  in_context c m s e = (Ok a, s', e') → m s e = (Ok a, s', e').
Proof. unfold in_context. destruct (m s e) as [[[b|x] t] e1]; naive_solver. Qed.

Lemma open_own_envelope id n nonce c now :
  let k := random_secret n in
  String.length nonce = 12%nat →
  aead_encrypt (derive_committee_instance_kek master_key id).1 nonce (secret_bytes k)
    (envelope_aad id (public_key k)) = Ok c →
  open_envelope master_key id
    (mkEnvelope COMMITTEE_ENVELOPE_VERSION id (public_key k)
       (derive_committee_instance_kek master_key id).2 (hex_encode nonce) (hex_encode c) now) = Ok k.
Proof.
  intros k Hn Hc. unfold open_envelope. cbn [ke_version ke_instance_id ke_committee_pubkey_hex
    ke_kek_path ke_aead_nonce_hex ke_ciphertext_hex].
  rewrite !bool_decide_true by done. rewrite pubkey_parse_correct, !hex_correct. cbn.
  rewrite Hn. cbn [Nat.eqb require mbind outcome_bind]. unfold derive_committee_instance_kek in *. cbn in Hc |- *.
  rewrite bool_decide_true by done. cbn [require mbind outcome_bind]. rewrite (aead_correct _ _ _ _ _ Hc).
  cbn [map_err mbind outcome_bind]. unfold k. rewrite secret_key_length. cbn [Nat.eqb require mbind outcome_bind].
  rewrite secret_key_correct. cbn. by rewrite bool_decide_true.
Qed.

Lemma create_writes id s e pk s' e' :
  create_instance_keypair_envelope master_key id s e = (Ok pk, s', e') →
  ∃ n nonce c now b, let k := random_secret n in pk = public_key k ∧ String.length nonce = 12%nat ∧
    aead_encrypt (derive_committee_instance_kek master_key id).1 nonce (secret_bytes k)
      (envelope_aad id (public_key k)) = Ok c ∧
    envelope_to_vec (mkEnvelope COMMITTEE_ENVELOPE_VERSION id (public_key k)
      (derive_committee_instance_kek master_key id).2 (hex_encode nonce) (hex_encode c) now) = Ok b ∧
    rn_envelopes s' !! id = Some b.
Proof.
  unfold create_instance_keypair_envelope, derive_committee_instance_kek. intros Hc. st_inv.
  repeat match goal with
    | E : in_context _ _ _ _ = (Ok _, _, _) |- _ => apply in_context_Ok in E
    | E : io _ _ _ = (Ok _, _, _) |- _ => apply io_Ok in E; injection E as ?; subst
    | E : write_file _ _ _ _ = (Ok _, _, _) |- _ => apply io_Ok in E; injection E as ?; subst
    | E : st_lift _ _ _ = (Ok _, _, _) |- _ => injection E as ? ? ?; subst
    | E : ask _ _ _ = (Ok _, _, _) |- _ => injection E as ? ? ?; subst
    end.
  match goal with E : map_err _ _ = Ok _ |- _ => apply map_err_Ok in E end.
  do 5 eexists. split_and!; [done|apply aead_nonce_length|done|done|]. cbn. apply lookup_insert_eq.
Qed.

(** C32: the key sealed in a new envelope loads back from the file: it is the key whose public half was
    returned when it was created. *)
Theorem created_key_loads id s e pk s' e' t :
  create_instance_keypair_envelope master_key id s e = (Ok pk, s', e') →
  ∃ k, load_instance_keypair master_key id s' (quiet t) = (Ok k, s', quiet t) ∧ public_key k = pk.
Proof.
  intros Hc. apply create_writes in Hc as (n & nonce & c & now & b & -> & Hn & Hc & Hb & Hf).
  exists (random_secret n). split; [|done]. unfold load_instance_keypair, read_file, in_context, mbind, st_bind, io, st_lift.
  cbn [next_fault quiet faults]. rewrite Hf. cbn [expect]. rewrite (envelope_roundtrip _ _ Hb). cbn. by rewrite open_own_envelope.
Qed.

(** ** Deleted keys *)

(** The envelope is gone and the instance says its key was deleted. *)
Definition key_gone (id : Uuid) (s : RoundNode) : Prop :=
  rn_envelopes s !! id = None ∧
  ∃ r, select_one (instance_is id) (t_instance (rn_tables s)) = Some r ∧ it_key_deleted r = true.

Hypothesis others_leave_key : ∀ id k s, key_gone id s → key_gone id (others k s).

Lemma acquire_key_gone id s e : key_gone id s → key_gone id (final (acquire_local s e)).
Proof.
  intros Hs. unfold acquire_local, interfere, mbind, st_bind, stmt. destruct (next_fault e) as [[] e'];
    by apply (others_leave_key id (rn_asked s)) in Hs.
Qed.

Lemma row_key_gone id s e :
  key_gone id s →
  key_gone id (final (on_rows (find_instance id) s e)) ∧
  ∀ row s' e', on_rows (find_instance id) s e = (Ok row, s', e') → ∃ r, row = Some r ∧ it_key_deleted r = true.
Proof.
  intros Hs. apply (others_leave_key id (rn_asked s)) in Hs.
  unfold on_rows, interfere, mbind, st_bind, focus, find_instance, query, stmt.
  destruct (next_fault e) as [[] e1]; (split; [exact Hs|]); intros row s' e' Heq; [done|].
  injection Heq as <- <- <-. destruct Hs as [_ (r & Hr & Hk)]. by exists r.
Qed.

Lemma other_io_error path : is_io_not_found_error (("read envelope failed: " +:+ path) :: io_error) = false.
Proof. unfold is_io_not_found_error. cbn [existsb io_error]. rewrite !bool_decide_false; [done|by intros [=]..]. Qed.

Lemma missing_io_error context : is_io_not_found_error [context; NOT_FOUND] = true.
Proof.
  unfold is_io_not_found_error. cbn [existsb]. rewrite (bool_decide_true (NOT_FOUND = NOT_FOUND)) by done.
  apply orb_true_r.
Qed.


End KeyProps.
