(* ===== verification/GraphDefs.v ===== *)
(** * Graph definitions

    The definition of a graph is stored once proposed by its operator and once more when the
    committee has pre-signed it; it is read back only after its row, its raw text, its parameters
    and its signatures have been checked against each other.

    Source: node/src/utils/graph_store.rs, crates/bitvm-gc/src/types.rs.  Building the transactions
    of a graph from its parameters, a chain of constructors of crate [goat], and the transaction ids
    are the class [GraphBuilder].

    The operator's pre-signatures are those of crates/bitvm-gc/src/operator/api.rs. *)

From stdpp Require Import base list strings pretty gmap.
From S2P Require Import Prelude Table Storage EngineEffects NodeSchema LocalDb NodeApply.
From S2P Require Import InstanceAggregate Timelocks Committee CommitteeProps RoundStore.

Local Open Scope Z_scope.

Record SimplifiedBitvmGcGraph := mkSimplified {
  sg_operator_pre_signed : bool;
  sg_committee_pre_signed : bool;
  sg_parameters : BitvmGcGraphParameters;
  sg_operator_pre_sigs : option (list (list bytes));
  sg_committee_pre_sigs : option CommitteeSignatures;
}.

#[export] Instance TaprootSignature_eq_dec : EqDecision TaprootSignature.
Proof. solve_decision. Defined.
#[export] Instance TxOut_eq_dec : EqDecision TxOut.
Proof. solve_decision. Defined.
#[export] Instance Transaction_eq_dec : EqDecision Transaction.
Proof. solve_decision. Defined.
#[export] Instance PreSigned_eq_dec : EqDecision PreSigned.
Proof. solve_decision. Defined.
#[export] Instance Input_eq_dec : EqDecision Input.
Proof. solve_decision. Defined.
#[export] Instance UserInfo_eq_dec : EqDecision UserInfo.
Proof. solve_decision. Defined.
#[export] Instance PrekickoffParameters_eq_dec : EqDecision PrekickoffParameters.
Proof. solve_decision. Defined.
#[export] Instance BitvmGcInstanceParameters_eq_dec : EqDecision BitvmGcInstanceParameters.
Proof. solve_decision. Defined.
#[export] Instance BitvmGcCircuitData_eq_dec : EqDecision BitvmGcCircuitData.
Proof. solve_decision. Defined.
#[export] Instance BitvmGcGraphParameters_eq_dec : EqDecision BitvmGcGraphParameters.
Proof. solve_decision. Defined.
#[export] Instance SimplifiedBitvmGcGraph_eq_dec : EqDecision SimplifiedBitvmGcGraph.
Proof. solve_decision. Defined.

#[export] Instance eta_Transaction : Eta Transaction := λ t,
  mkTransaction (tx_body t) (tx_output t) (tx_witness t).
#[export] Instance eta_PreSigned : Eta PreSigned := λ t,
  mkPreSigned (ps_name t) (ps_tx t) (ps_prev_outs t) (ps_prev_scripts t).

Class GraphBuilder := {
  generate_bitvm_graph : BitvmGcGraphParameters → outcome BitvmGcGraph;
  compute_txid : Transaction → Txid;
  finalize : PreSigned → Transaction;
  simplified_to_string : SimplifiedBitvmGcGraph → outcome string;
  simplified_from_str : string → outcome SimplifiedBitvmGcGraph;
  node_p2wsh_address : PublicKey → string;
  node_goat_addr : PublicKey → option string;
}.
Class GraphBuilderLaws `{GraphBuilder} : Prop :=
  simplified_roundtrip g s : simplified_to_string g = Ok s → simplified_from_str s = Ok g.

Section Definitions.
Context `{UuidText} `{Sha256} `{Musig2} `{RoundJson} `{Taproot} `{Goat} `{GraphBuilder}.

(** ** The operator's pre-signatures *)

Definition operator_presig_num : nat := 6.

(** [tx.input[i].witness = witness]; an input that is not there panics. *)
Definition set_witness (i : nat) (witness : list bytes) (tx : PreSigned) : outcome PreSigned :=
  index (tx_witness (ps_tx tx)) i;;
  Ok (tx <| ps_tx := (ps_tx tx) <| tx_witness ::= λ ws, <[i := witness]> ws |> |>).

Definition set_witnesses (first second : list bytes) (tx : PreSigned) : outcome PreSigned :=
  tx ← set_witness 0 first tx; set_witness 1 second tx.

Definition push_operator_pre_signature (graph : BitvmGcGraph) (signed_witness : list (list bytes)) :
    outcome BitvmGcGraph :=
  require (negb (bg_operator_pre_signed graph)) "already pre-signed by operator";;
  require (length signed_witness =? operator_presig_num)%nat "invalid number of pre-signatures";;
  let w := λ i, default [] (signed_witness !! i) in
  force_skip_kickoff ← set_witnesses (w 0%nat) (w 1%nat) (bg_force_skip_kickoff graph);
  quick_challenge ← set_witnesses (w 2%nat) (w 3%nat) (bg_quick_challenge graph);
  incomplete ← set_witnesses (w 4%nat) (w 5%nat) (bg_challenge_incomplete_kickoff graph);
  Ok (graph <| bg_force_skip_kickoff := force_skip_kickoff |>
            <| bg_quick_challenge := quick_challenge |>
            <| bg_challenge_incomplete_kickoff := incomplete |>
            <| bg_operator_pre_signed := true |>).

Definition verify_graph_operator_pre_signatures (graph : BitvmGcGraph) : outcome unit :=
  require (bg_operator_pre_signed graph) "graph is not pre-signed by the operator";;
  let operator_pubkey := xonly (bp_operator_pubkey (bg_parameters graph)) in
  for_each (λ _ '(tx, i), verify_taproot_pre_signed_input tx operator_pubkey i SighashNone) tt
    [(bg_force_skip_kickoff graph, 0%nat); (bg_force_skip_kickoff graph, 1%nat);
     (bg_quick_challenge graph, 0%nat); (bg_quick_challenge graph, 1%nat);
     (bg_challenge_incomplete_kickoff graph, 0%nat); (bg_challenge_incomplete_kickoff graph, 1%nat)].

(** ** Full and simplified graphs *)

Definition extract_sig_from_witness (witness : list bytes) : outcome TaprootSignature :=
  expect (data ← witness !! 0%nat;
          match taproot_signature_from_slice data with Ok s => Some s | Err _ => None end)
    "No valid signature found in witness".

Definition input_witness (tx : PreSigned) (i : nat) : outcome (list bytes) :=
  index (tx_witness (ps_tx tx)) i.

Definition input_sig (tx : PreSigned) (i : nat) : outcome TaprootSignature :=
  w ← input_witness tx i; extract_sig_from_witness w.

(** The signatures of the inputs [inputs] of every transaction. *)
Definition input_sigs (inputs : list nat) (txs : list PreSigned) : outcome (list TaprootSignature) :=
  sigs ← mapM (λ tx, mapM (input_sig tx) inputs) txs; Ok (concat sigs).

Definition to_simplified (self : BitvmGcGraph) : outcome SimplifiedBitvmGcGraph :=
  operator_pre_sigs ←
    (if bg_operator_pre_signed self then
       sigs ← mapM (λ '(tx, i), input_witness tx i)
         [(bg_force_skip_kickoff self, 0%nat); (bg_force_skip_kickoff self, 1%nat);
          (bg_quick_challenge self, 0%nat); (bg_quick_challenge self, 1%nat);
          (bg_challenge_incomplete_kickoff self, 0%nat); (bg_challenge_incomplete_kickoff self, 1%nat)];
       Ok (Some sigs)
     else Ok None);
  committee_pre_sigs ←
    (if bg_committee_pre_signed self then
       take1 ← input_sigs [0%nat; 3%nat] [bg_take1 self];
       take2 ← input_sigs [0%nat] [bg_take2 self];
       challenge ← input_sigs [0%nat] [bg_challenge self];
       timeouts ← input_sigs [1%nat] (bg_watchtower_challenge_timeouts self);
       nacks ← input_sigs [0%nat; 1%nat] (bg_operator_challenge_nacks self);
       commit_timeout ← input_sigs [0%nat; 1%nat] [bg_operator_commit_timeout self];
       disproves ← input_sigs [0%nat; 1%nat] (bg_disproves self);
       Ok (Some (mkMusig2 take1 take2 challenge timeouts nacks commit_timeout disproves))
     else Ok None);
  Ok (mkSimplified (bg_operator_pre_signed self) (bg_committee_pre_signed self) (bg_parameters self)
        operator_pre_sigs committee_pre_sigs).

Definition from_simplified (simplified : SimplifiedBitvmGcGraph) : outcome BitvmGcGraph :=
  graph ← generate_bitvm_graph (sg_parameters simplified);
  graph ← (if sg_operator_pre_signed simplified then
             sigs ← expect (sg_operator_pre_sigs simplified) "Missing operator pre signatures";
             graph ← push_operator_pre_signature graph sigs;
             Ok (graph <| bg_operator_pre_signed := true |>)
           else Ok graph);
  if sg_committee_pre_signed simplified then
    sigs ← expect (sg_committee_pre_sigs simplified) "Missing committee pre signatures";
    graph ← push_committee_pre_signatures graph sigs;
    Ok (graph <| bg_committee_pre_signed := true |>)
  else Ok graph.

Definition parameters_hash_of (g : SimplifiedBitvmGcGraph) : outcome bytes :=
  canonical_graph_params_hash (sg_parameters g).

(** ** Rows *)

Definition tx_id (tx : PreSigned) : Txid := compute_txid (finalize tx).

Definition convert_graph (g : BitvmGcGraph) (current_time : Z) (initial_status : GraphStatus)
    (definition_hash : string) : Graph := {|
  gr_graph_id := bp_graph_id (bg_parameters g);
  gr_instance_id := bi_instance_id (bp_instance_parameters (bg_parameters g));
  gr_kickoff_index := as_i64 (bp_graph_nonce (bg_parameters g));
  gr_from_addr := "";
  gr_to_addr := "";
  gr_amount := as_i64 (bi_pegin_amount (bp_instance_parameters (bg_parameters g)));
  gr_challenge_amount := as_i64 (bp_challenge_amount (bg_parameters g));
  gr_status := graph_status_str initial_status;
  gr_sub_status := "";
  gr_operator_pubkey := bp_operator_pubkey (bg_parameters g);
  gr_definition_hash := definition_hash;
  gr_next_prekickoff := Some (tx_id (bg_next_prekickoff g));
  gr_cur_prekickoff_txid := Some (tx_id (bg_cur_prekickoff g));
  gr_force_skip_kickoff_txid := Some (tx_id (bg_force_skip_kickoff g));
  gr_quick_challenge_txid := Some (tx_id (bg_quick_challenge g));
  gr_challenge_incomplete_kickoff_txid := Some (tx_id (bg_challenge_incomplete_kickoff g));
  gr_pegin_txid := Some (tx_id (bg_pegin g));
  gr_kickoff_txid := Some (tx_id (bg_kickoff g));
  gr_take1_txid := Some (tx_id (bg_take1 g));
  gr_challenge_txid := None;
  gr_take2_txid := Some (tx_id (bg_take2 g));
  gr_watchtower_challenge_init_txid := Some (tx_id (bg_watchtower_challenge_init g));
  gr_operator_assert_txid := Some (tx_id (bg_operator_assert g));
  gr_verifier_assert_txids := tx_id <$> bg_verifier_asserts g;
  gr_disprove_txids := tx_id <$> bg_disproves g;
  gr_watchtower_challenge_timeout_txids := tx_id <$> bg_watchtower_challenge_timeouts g;
  gr_operator_challenge_nack_txids := tx_id <$> bg_operator_challenge_nacks g;
  gr_operator_commit_timeout_txid := Some (tx_id (bg_operator_commit_timeout g));
  gr_init_withdraw_tx_hash := None;
  gr_bridge_out_start_at := 0;
  gr_status_updated_at := current_time;
  gr_proceed_withdraw_height := 0;
  gr_created_at := current_time;
  gr_updated_at := current_time;
|}.

Definition raw_is (id : Uuid) (r : GraphRawData) : bool := bool_decide (rd_graph_id r = id).

Definition find_graph_raw_data (id : Uuid) : ST NodeTables (option GraphRawData) :=
  query (λ t, select_one (raw_is id) (t_graph_raw_data t)).

Definition get_graph_id_by_instance_id_and_operator_pubkey (instance_id : Uuid) (operator : string) :
    ST NodeTables (option Uuid) :=
  query (λ t, gr_graph_id <$> select_one (λ g,
    bool_decide (gr_instance_id g = instance_id) && bool_decide (gr_operator_pubkey g = operator))
    (t_graph t)).

(** [map_err(|error| SpecialError::InvalidGraph(..))]. *)
Definition invalid_graph {A} (f : string → string) (o : outcome A) : outcome A :=
  match o with Ok a => Ok a | Err e => Err (InvalidGraph (f (default ""%string (head e)))) end.

(** ** Reading a definition *)

Definition load_validated_graph_definition (instance_id graph_id : Uuid) :
    ST NodeTables (option SimplifiedBitvmGcGraph) :=
  let id := uuid_to_string graph_id in
  let both := uuid_to_string instance_id +:+ ":" +:+ id in
  found ← find_graph graph_id;
  match found with
  | None => mret None
  | Some row =>
      if negb (bool_decide (gr_instance_id row = instance_id)) then
        st_fail (InvalidGraph ("graph " +:+ id +:+ " belongs to instance " +:+
                 uuid_to_string (gr_instance_id row) +:+ ", not " +:+ uuid_to_string instance_id))
      else if bool_decide (gr_definition_hash row = ""%string) then
        st_fail (InvalidGraph ("graph " +:+ id +:+
                 " is missing its definition hash; explicit repair is required"))
      else
        raw ← find_graph_raw_data graph_id;
        match raw with
        | None => st_fail (InvalidGraph ("graph " +:+ id +:+
                    " has a runtime row but no raw definition; explicit repair is required"))
        | Some raw =>
            simplified ← st_lift (simplified_from_str (rd_raw_data raw));
            let parameters := sg_parameters simplified in
            if negb (bool_decide (bp_graph_id parameters = graph_id)) ||
               negb (bool_decide (bi_instance_id (bp_instance_parameters parameters) = instance_id)) then
              st_fail (InvalidGraph ("stored raw definition identifiers do not match graph " +:+ both))
            else
              hash ← st_lift (parameters_hash_of simplified);
              if negb (bool_decide (hex_encode hash = gr_definition_hash row)) then
                st_fail (InvalidGraph ("stored raw definition hash does not match graph row for " +:+ both))
              else
                full ← st_lift (invalid_graph (λ e,
                  "stored raw definition cannot rebuild graph for " +:+ both +:+ ": " +:+ e)
                  (from_simplified simplified));
                st_lift (invalid_graph (λ e,
                  "stored raw definition has invalid operator pre-signatures for " +:+ both +:+ ": " +:+ e)
                  (verify_graph_operator_pre_signatures full));;
                (if bg_committee_pre_signed full then
                   st_lift (invalid_graph (λ e,
                     "stored raw definition has invalid committee pre-signatures for " +:+ both +:+
                     ": " +:+ e) (verify_graph_committee_pre_signatures full))
                 else mret tt);;
                mret (Some simplified)
        end
  end.

(** ** Storing a definition *)

Inductive FinalizedGraphStoreOutcome := NewlyStored | DefinitionUpgraded | StoredFinalized.
Inductive GraphDefinitionIngestKind := OperatorPresignedKind | FinalizedKind.
Inductive GraphDefinitionIngestOutcome := Inserted | FinalizedUpgrade | Replay | AlreadyFinalized.

Definition is_finalized_kind (k : GraphDefinitionIngestKind) : bool :=
  match k with FinalizedKind => true | OperatorPresignedKind => false end.

Definition confirm_finalized_graph_definition (instance_id graph_id : Uuid) : ST NodeTables unit :=
  outcome ← transition_graph_status instance_id graph_id CommitteePresigned Definition_ None;
  match outcome with
  | NotFound => st_fail ["graph " +:+ uuid_to_string graph_id +:+
                         " disappeared while confirming its finalized definition"]
  | _ => mret tt
  end.

(** The stored definition of a graph, checked. *)
Definition existing_definition (graph_id : Uuid) (definition_hash : string) :
    ST NodeTables (option SimplifiedBitvmGcGraph) :=
  let id := uuid_to_string graph_id in
  row ← find_graph graph_id;
  raw ← find_graph_raw_data graph_id;
  match row, raw with
  | None, None => mret None
  | Some _, None => st_fail (InvalidGraph ("graph " +:+ id +:+
      " has runtime data but no raw definition; explicit repair is required"))
  | None, Some _ => st_fail (InvalidGraph ("graph " +:+ id +:+
      " has raw definition but no graph row; explicit repair is required"))
  | Some row, Some raw =>
      if bool_decide (gr_definition_hash row = ""%string) then
        st_fail (InvalidGraph ("graph " +:+ id +:+
                 " is missing its stored definition hash; explicit repair is required"))
      else if negb (bool_decide (gr_definition_hash row = definition_hash)) then
        st_fail (InvalidGraph ("graph parameters changed for graph_id " +:+ id +:+ ": existing=" +:+
                 gr_definition_hash row +:+ ", incoming=" +:+ definition_hash))
      else
        existing ← st_lift (simplified_from_str (rd_raw_data raw));
        raw_hash ← st_lift (parameters_hash_of existing);
        if negb (bool_decide (hex_encode raw_hash = gr_definition_hash row)) then
          st_fail (InvalidGraph ("graph " +:+ id +:+
                   " definition hash does not match its stored raw definition"))
        else
          full ← st_lift (from_simplified existing);
          st_lift (invalid_graph (λ e, "stored graph " +:+ id +:+
            " has invalid operator pre-signatures: " +:+ e) (verify_graph_operator_pre_signatures full));;
          (if bg_committee_pre_signed full then
             st_lift (invalid_graph (λ e, "stored graph " +:+ id +:+
               " has invalid committee pre-signatures: " +:+ e)
               (verify_graph_committee_pre_signatures full))
           else mret tt);;
          mret (Some existing)
  end.

(** The text of the definition replaces what is stored. *)
Definition store_raw (instance_id graph_id : Uuid) (g : SimplifiedBitvmGcGraph) (now : Z)
    (definition_hash : string) : ST NodeTables unit :=
  text ← st_lift (simplified_to_string g);
  upsert_graph_raw_data instance_id (mkRawData graph_id text now now) definition_hash;;
  mret tt.

Definition ingest_graph_definition (simple_graph : SimplifiedBitvmGcGraph)
    (kind : GraphDefinitionIngestKind) : ST NodeTables GraphDefinitionIngestOutcome :=
  bitvm_graph ← st_lift (from_simplified simple_graph);
  let graph_id := bp_graph_id (sg_parameters simple_graph) in
  let id := uuid_to_string graph_id in
  let parameters := bg_parameters bitvm_graph in
  let instance_id := bi_instance_id (bp_instance_parameters parameters) in
  st_lift (invalid_graph (λ e, "graph " +:+ id +:+ " has invalid operator pre-signatures: " +:+ e)
    (verify_graph_operator_pre_signatures bitvm_graph));;
  (if is_finalized_kind kind then
     st_lift (invalid_graph (λ e, "graph " +:+ id +:+ " has invalid committee pre-signatures: " +:+ e)
       (verify_graph_committee_pre_signatures bitvm_graph))
   else mret tt);;
  current_time ← clock_now;
  hash ← st_lift (parameters_hash_of simple_graph);
  let definition_hash := hex_encode hash in
  existing ← existing_definition graph_id definition_hash;
  if match existing with Some g => sg_committee_pre_signed g | None => false end then
    if is_finalized_kind kind && negb (bool_decide (existing = Some simple_graph)) then
      st_fail (InvalidGraph ("conflicting finalized graph for graph_id " +:+ id))
    else
      (if is_finalized_kind kind then confirm_finalized_graph_definition instance_id graph_id else mret tt);;
      mret AlreadyFinalized
  else if negb (is_finalized_kind kind) && is_some existing &&
          negb (bool_decide (existing = Some simple_graph)) then
    st_fail (InvalidGraph ("conflicting operator-pre-signed graph for graph_id " +:+ id))
  else if is_finalized_kind kind &&
          match existing with
          | Some g => negb (bool_decide (sg_operator_pre_sigs g = sg_operator_pre_sigs simple_graph))
          | None => false
          end then
    st_fail (InvalidGraph ("finalized graph " +:+ id +:+ " changes the stored operator pre-signatures"))
  else
    (if is_some existing then mret tt
     else
       holder ← find_graph_by_operator_slot (bp_operator_pubkey parameters)
                  (as_i64 (bp_graph_nonce parameters));
       match holder with
       | Some h =>
           if bool_decide (gr_graph_id h = graph_id) then mret tt
           else st_fail (InvalidGraph ("slot " +:+ pretty (bp_graph_nonce parameters) +:+ " of operator " +:+
                  bp_operator_pubkey parameters +:+ " is held by graph " +:+
                  uuid_to_string (gr_graph_id h) +:+ "; graph " +:+ id +:+ " is refused"))
       | None => mret tt
       end);;
    let graph := convert_graph bitvm_graph current_time OperatorPresigned definition_hash in
    goat_addr ← query (λ _, node_goat_addr (bp_operator_pubkey parameters));
    let graph := match goat_addr with
                 | Some address => graph <| gr_from_addr := address |>
                                     <| gr_to_addr := node_p2wsh_address (bp_operator_pubkey parameters) |>
                 | None => graph
                 end in
    upsert_graph_definition graph;;
    if negb (is_some existing) then
      store_raw instance_id graph_id simple_graph current_time definition_hash;;
      (if is_finalized_kind kind then confirm_finalized_graph_definition instance_id graph_id else mret tt);;
      mret Inserted
    else if is_finalized_kind kind then
      store_raw instance_id graph_id simple_graph current_time definition_hash;;
      confirm_finalized_graph_definition instance_id graph_id;;
      mret FinalizedUpgrade
    else mret Replay.

(** The definition is stored in one immediate transaction. *)
Definition ingest_committed (simple_graph : SimplifiedBitvmGcGraph) (kind : GraphDefinitionIngestKind) :
    ST NodeTables GraphDefinitionIngestOutcome :=
  transaction (o ← in_tx (ingest_graph_definition simple_graph kind); commit;; mret o).

Context `{Others}.

Definition store_operator_presigned_graph (simple_graph : SimplifiedBitvmGcGraph) : ST RoundNode unit :=
  if negb (sg_operator_pre_signed simple_graph) || sg_committee_pre_signed simple_graph then
    st_fail (InvalidGraph ("graph " +:+ uuid_to_string (bp_graph_id (sg_parameters simple_graph)) +:+
             " is not an operator-pre-signed proposal"))
  else on_rows (ingest_committed simple_graph OperatorPresignedKind);; mret tt.

Definition store_finalized_graph_if_needed (simple_graph : SimplifiedBitvmGcGraph) :
    ST RoundNode FinalizedGraphStoreOutcome :=
  if negb (sg_operator_pre_signed simple_graph) || negb (sg_committee_pre_signed simple_graph) then
    st_fail (InvalidGraph ("graph " +:+ uuid_to_string (bp_graph_id (sg_parameters simple_graph)) +:+
             " is not fully pre-signed"))
  else
    outcome ← on_rows (ingest_committed simple_graph FinalizedKind);
    match outcome with
    | Inserted => mret NewlyStored
    | FinalizedUpgrade => mret DefinitionUpgraded
    | AlreadyFinalized => mret StoredFinalized
    | Replay => st_fail ["internal error: entered unreachable code: a finalized graph replay must be classified as already finalized"%string]
    end.

Definition get_graph (instance_id graph_id : Uuid) : ST RoundNode (option SimplifiedBitvmGcGraph) :=
  acquire_local;; on_rows (load_validated_graph_definition instance_id graph_id).

Definition get_graph_by_instance_id_and_operator_pubkey (instance_id : Uuid) (operator_pubkey : PublicKey) :
    ST RoundNode (option SimplifiedBitvmGcGraph) :=
  acquire_local;;
  found ← on_rows (get_graph_id_by_instance_id_and_operator_pubkey instance_id operator_pubkey);
  match found with
  | Some graph_id => on_rows (load_validated_graph_definition instance_id graph_id)
  | None => mret None
  end.

End Definitions.
