(* ===== verification/PeginRound.v ===== *)
(** * The jobs of an instance

    What a node does for an instance outside of the apply: it answers the peg-in request, stores
    the parameters of a confirmed peg-in, takes part in the committee's signing round of the
    Peg-In-Confirm, broadcasts it, posts it to Goat and deletes its key.

    Source: node/src/aggregates/jobs.rs, node/src/aggregates/instance_jobs.rs,
    node/src/utils/goat_chain.rs, node/src/utils/endorse.rs.  The chains, the peer registry and the
    node's own keys are the class [Outside]; an answer depends on when it is asked. *)

From stdpp Require Import base list strings pretty gmap.
From S2P Require Import Prelude Table Storage EngineSchema EngineEffects Executor NodeSchema LocalDb.
From S2P Require Import NodeApply InstanceDecide InstanceAggregate Admission Timelocks Committee.
From S2P Require Import RoundStore KeyEnvelope GraphDefs.

Local Open Scope Z_scope.

(** ** The outside *)

Inductive PeginStatus : Type :=
| PeginNone | PeginPending | PeginWithdrawable | PeginProcessing | PeginLocked | PeginClaimed
| PeginDiscarded.

#[export] Instance PeginStatus_eq_dec : EqDecision PeginStatus.
Proof. solve_decision. Defined.

Definition pegin_status_str (s : PeginStatus) : string :=
  match s with
  | PeginNone => "None" | PeginPending => "Pending" | PeginWithdrawable => "Withdrawable"
  | PeginProcessing => "Processing" | PeginLocked => "Locked" | PeginClaimed => "Claimed"
  | PeginDiscarded => "Discarded"
  end.

Record PeginData := mkPeginData {
  pn_status : PeginStatus;
  pn_instance_id : Uuid;
  pn_depositor_address : bytes;
  pn_pegin_amount_sats : Z;
  pn_txn_fees : Z * Z * Z;
  pn_user_inputs : list Input;
  pn_user_xonly_pubkey : bytes;
  pn_user_change_addr : string;
  pn_user_refund_addr : string;
  pn_pegin_txid : Txid;
  pn_created_at : Z;
  pn_committee_addresses : list string;
  pn_committee_pubkeys : list bytes;
}.

(** What the Bitcoin backend says of a transaction and of an output. *)
Record TxStatus := mkTxStatus { xs_confirmed : bool; xs_block_height : option Z }.
Record OutputStatus := mkOutputStatus { os_spent : bool; os_txid : option Txid }.

(** The transaction ids are of [bitcoin], the addresses, signatures and calls of [alloy]. *)
Class Outside := {
  get_bitvm_key : outcome Keypair;
  get_node_goat_private_key : outcome string;
  key_delete_enabled : bool;
  default_signer_address : string;
  graph_start_cutoff_blocks : Z;
  gateway_get_committee_pubkeys : nat → Uuid → outcome (list PublicKey);
  gateway_get_pegin_data : nat → Uuid → outcome PeginData;
  gateway_get_post_pegin_digest : nat → Uuid → Txid → outcome bytes;
  gateway_answer_pegin_request : nat → Uuid → PublicKey → outcome unit;
  gateway_post_pegin_data : nat → Uuid → Transaction → list bytes → outcome unit;
  committee_mana_get_committee_peer_id : nat → string → outcome bytes;
  btc_spv_latest_height : nat → outcome Z;
  is_known_unregistered : nat → bytes → bool;
  is_committee_peer : nat → bytes → bool;
  get_height : nat → outcome Z;
  get_tx : nat → Txid → outcome (option Transaction);
  get_tx_status : nat → Txid → outcome TxStatus;
  get_tx_info : nat → Txid → outcome (option TxStatus);
  get_output_status : nat → Txid → Z → outcome (option OutputStatus);
  broadcast_tx : nat → Transaction → outcome unit;
  new_uuid : nat → Uuid;
  peer_from_str : string → outcome bytes;
  pubkey_from_slice : bytes → outcome PublicKey;
  get_network : BtcNetwork;
  address_from_str : string → outcome string;
  require_network : string → BtcNetwork → outcome string;
  sign_hash : string → bytes → outcome bytes;
  recover_address : bytes → bytes → outcome string;
}.

(** [classify_failure] and [is_contract_revert] look at the types of the causes of an error, which
    the texts kept here do not have. *)
Inductive FailureClass : Type :=
| Permanent (reason : string)
| Transient
| Unknown.

Class Failures := {
  classify_failure : error → FailureClass;
  is_contract_revert : error → bool;
}.

(** [bincode] and [serde_json] on what a job hands to the apply. *)
Class PlanCodec := {
  instance_plan_encode : InstancePlan → outcome bytes;
  key_delete_result_to_vec : bool → string → bytes;
}.

(** The messages of the rounds: the fields [rest] stands for. *)
Class RoundMessages := {
  pegin_nonce_rest : PublicKey * PubNonce * SchnorrSignature → bytes;
  pegin_nonce_fields : bytes → PublicKey * PubNonce * SchnorrSignature;
  pegin_vote_rest : PublicKey * bytes * SchnorrSignature → bytes;
  pegin_vote_fields : bytes → PublicKey * bytes * SchnorrSignature;
  pegin_partial_rest : PublicKey * PartialSignature * bytes → bytes;
  pegin_partial_fields : bytes → PublicKey * PartialSignature * bytes;
  graph_nonces_rest : PublicKey * CommitteePubNonces * CommitteeNonceSignatures → bytes;
  graph_nonces_fields : bytes → PublicKey * CommitteePubNonces * CommitteeNonceSignatures;
  graph_vote_rest : PublicKey * bytes * SchnorrSignature → bytes;
  graph_vote_fields : bytes → PublicKey * bytes * SchnorrSignature;
  presign_rest : PublicKey * CommitteePartialSignatures * CommitteeAggNonces → bytes;
  presign_fields : bytes → PublicKey * CommitteePartialSignatures * CommitteeAggNonces;
  endorse_rest : PublicKey * bytes * bytes * string → bytes;
  endorse_fields : bytes → PublicKey * bytes * bytes * string;
}.

Record JobDeps := mkDeps {
  jd_actor : Actor;
  jd_relayer : bool;
  jd_deadlines : PeginDeadlines;
}.

(** ** Steps *)

Inductive Step (P : Type) : Type :=
| PlanStep (plan : P)
| Retry (reason : string) (after_secs : Z).
Arguments PlanStep {P}. Arguments Retry {P}.

#[export] Instance eta_InstancePlan : Eta InstancePlan := λ p,
  mkInstancePlan (pl_messages p) (pl_next p) (pl_start_graph p) (pl_wake_refs p) (pl_note p).

Definition default_instance_plan : InstancePlan := mkInstancePlan [] [] None [] None.
Definition noted (note : string) : InstancePlan := default_instance_plan <| pl_note := Some note |>.

(** [Step::done], [Step::ignore] and [Step::retry]. *)
Definition step_done {S P} (plan : P) : ST S (Step P) := mret (PlanStep plan).
Definition step_ignore {S} (note : string) : ST S (Step InstancePlan) := step_done (noted note).
Definition step_retry {S P} (reason : string) (after_secs : Z) : ST S (Step P) :=
  mret (Retry reason after_secs).

Definition plan_send (message : PlannedMessage) (plan : InstancePlan) : InstancePlan :=
  plan <| pl_messages ::= λ ms, ms ++ [message] |>.
Definition plan_then (action : string) (params : bytes) (delay_secs : option Z) (plan : InstancePlan) :
    InstancePlan := plan <| pl_next ::= λ ns, ns ++ [mkNext action params delay_secs] |>.

Definition invalid {A} (message : string) : ST RoundNode A := st_fail (InvalidPeginData message).

(** [{error:#}]: every cause. *)
Fixpoint full_text (e : error) : string :=
  match e with
  | [] => ""
  | [cause] => cause
  | cause :: causes => cause +:+ ": " +:+ full_text causes
  end.

Section Jobs.
Context `{UuidText} `{RoundCodec} `{ParametersCodec} `{Others} `{Sha256} `{Musig2} `{RoundJson}.
Context `{Taproot} `{Goat} `{GraphBuilder} `{Sealing} `{Outside} `{RoundMessages}.
Context `{InboundCodec} `{MessageCodec} `{Failures} `{PlanCodec}.
Context (deps : JobDeps).

(** ** Lookups *)

Definition decode_inbound (params : bytes) : ST RoundNode (InboundMessage * GOATMessage) :=
  inbound ← in_context "decode inbound message" (st_lift (inbound_decode params));
  message ← st_lift (deserialize_message (im_message inbound));
  mret (inbound, message).

Definition author_peer (inbound : InboundMessage) : outcome bytes :=
  context_of "decode author peer id" (peer_from_str (im_author inbound)).

Definition instance_status (instance_id : Uuid) : ST RoundNode (option InstanceBridgeInStatus) :=
  acquire_local;;
  row ← on_rows (find_instance instance_id);
  mret (r ← row; instance_status_of (it_status r)).

Definition local_member (instance_id : Uuid) : ST RoundNode (option Keypair) :=
  membership ← local_committee_membership get_bitvm_key gateway_get_committee_pubkeys instance_id;
  mret (match membership with Member keypair => Some keypair | NotMember _ => None end).

Definition committee_pubkeys (instance_id : Uuid) : ST RoundNode (list PublicKey) :=
  ask (λ k, gateway_get_committee_pubkeys k instance_id).

(** [signing_gate]: the tip is read for a live instance whose Prepare confirmed. *)
Definition needs_tip (row : option Instance_) : bool :=
  match row with
  | Some instance =>
      match instance_status_of (it_status instance) with
      | Some status => negb (is_failed status) && negb (it_btc_height instance <=? 0)
      | None => false
      end
  | None => false
  end.

Definition gate_reason (gate : SigningGate) : option string :=
  match gate with Open => None | Closed reason => Some reason end.

(** The reason the gate is closed, with the row and the tip it was read with. *)
Definition read_gate (instance_id : Uuid) : ST RoundNode (option Instance_ * Z * option string) :=
  acquire_local;;
  row ← on_rows (find_instance instance_id);
  tip ← (if needs_tip row then ask get_height else mret 0);
  gate ← st_lift (signing_gate row (Ok tip) (jd_deadlines deps));
  mret (row, tip, gate_reason gate).

Definition gate_closed (instance_id : Uuid) : ST RoundNode (option string) :=
  gate ← read_gate instance_id; mret gate.2.

Definition signing_nonce_id (label : string) (bytes : bytes) : string :=
  hex_encode (sha256 (label +:+ bytes)).

(** The member the message names is bound on Goat to the peer that sent it. *)
Fixpoint bound_peer (refused : string → ST RoundNode unit) (peer_id : bytes) (committee_pubkey : PublicKey)
    (pubkeys : list bytes) (addresses : list string) (i : nat) : ST RoundNode unit :=
  match pubkeys with
  | [] => refused "committee pubkey not found in instance's committee pubkeys"
  | pk :: pubkeys =>
      pk ← st_lift (pubkey_from_slice pk);
      if bool_decide (pk = committee_pubkey) then
        addr ← st_lift (index addresses i);
        stored_peer_id ← ask (λ k, committee_mana_get_committee_peer_id k addr);
        if bool_decide (stored_peer_id = peer_id) then mret tt
        else refused "committee pubkey & peer id mismatch"
      else bound_peer refused peer_id committee_pubkey pubkeys addresses (S i)
  end.

Definition validate_committee (peer_id : bytes) (instance_id : Uuid) (committee_pubkey : PublicKey) :
    ST RoundNode unit :=
  unregistered ← ask (λ k, Ok (is_known_unregistered k peer_id));
  if unregistered : bool then st_fail (InvalidCommittee "author is not a registered peer")
  else
    let refused detail :=
      committee ← ask (λ k, Ok (is_committee_peer k peer_id));
      if committee : bool
      then st_fail ["committee binding of " +:+ peer_id +:+ " on Goat does not match yet: " +:+ detail]
      else st_fail (InvalidCommittee detail) in
    pegin_data ← ask (λ k, gateway_get_pegin_data k instance_id);
    bound_peer refused peer_id committee_pubkey (pn_committee_pubkeys pegin_data)
      (pn_committee_addresses pegin_data) 0.

Definition ensure_committee_sender (inbound : InboundMessage) (committee_pubkey : PublicKey) :
    ST RoundNode unit :=
  peer ← st_lift (author_peer inbound);
  validate_committee peer (im_instance_id inbound) committee_pubkey.

(** ** Endorsements *)

Definition endorse_pegin (instance_id : Uuid) (pegin_txid : Txid) : ST RoundNode bytes :=
  signer ← st_lift get_node_goat_private_key;
  digest ← ask (λ k, gateway_get_post_pegin_digest k instance_id pegin_txid);
  st_lift (sign_hash signer digest).

Fixpoint evm_address_of (committee_pubkey : PublicKey) (members : list (bytes * string)) : option string :=
  match members with
  | [] => None
  | (pubkey, address) :: members =>
      match pubkey_from_slice pubkey with
      | Ok k => if bool_decide (k = committee_pubkey) then Some address
                else evm_address_of committee_pubkey members
      | Err _ => evm_address_of committee_pubkey members
      end
  end.

Definition verify_pegin_endorsement (instance_id : Uuid) (committee_pubkey : PublicKey)
    (pegin_txid : Txid) (signature : bytes) : ST RoundNode bool :=
  pegin_data ← ask (λ k, gateway_get_pegin_data k instance_id);
  expected ← st_lift (expect
    (evm_address_of committee_pubkey (zip (pn_committee_pubkeys pegin_data) (pn_committee_addresses pegin_data)))
    ("committee pubkey " +:+ committee_pubkey +:+ " not found on-chain"));
  digest ← ask (λ k, gateway_get_post_pegin_digest k instance_id pegin_txid);
  address ← st_lift (recover_address signature digest);
  mret (bool_decide (address = expected)).

(** ** The answer *)

(** The user's part of the request: both addresses on the node's network, and the user's key. *)
Definition read_user_info (special : string → error) (data : PeginData) : outcome UserInfo :=
  let mapped {A} (what : string) (o : outcome A) : outcome A :=
    match o with Ok a => Ok a | Err e => Err (special (what +:+ ": " +:+ default ""%string (head e))) end in
  user_change ← mapped "invalid user_change_addr" (address_from_str (pn_user_change_addr data));
  user_change ← mapped "invalid user_change_addr network" (require_network user_change get_network);
  user_refund ← mapped "invalid user_refund_addr" (address_from_str (pn_user_refund_addr data));
  user_refund ← mapped "invalid user_refund_addr network" (require_network user_refund get_network);
  user_xonly_pubkey ← mapped "invalid user_xonly_pubkey" (xonly_from_slice (pn_user_xonly_pubkey data));
  Ok (mkUserInfo (pn_depositor_address data) (pn_txn_fees data) (pn_user_inputs data) user_xonly_pubkey
        user_change user_refund).

Definition outpoint_available (txid : Txid) (vout : Z) : ST RoundNode bool :=
  status ← ask (λ k, get_output_status k txid vout);
  mret (match status with Some status => negb (os_spent status) | None => false end).

Fixpoint inputs_available (inputs : list Input) : ST RoundNode unit :=
  match inputs with
  | [] => mret tt
  | input :: inputs =>
      available ← outpoint_available (in_txid input) (in_vout input);
      if available : bool then inputs_available inputs
      else st_fail (InvalidPeginRequest ("input " +:+ in_txid input +:+ ":" +:+ pretty (in_vout input) +:+
                    " is not available"))
  end.

Definition read_pegin_request (instance_id : Uuid) : ST RoundNode (UserInfo * Z * list string) :=
  data ← ask (λ k, gateway_get_pegin_data k instance_id);
  if negb (bool_decide (pn_status data = PeginPending)) then
    st_fail (InvalidPeginRequest ("pegin request is " +:+ pegin_status_str (pn_status data) +:+
             " on Goat: expired or already processed"))
  else
    user_info ← st_lift (read_user_info InvalidPeginRequest data);
    inputs_available (pn_user_inputs data);;
    mret (user_info, pn_pegin_amount_sats data, pn_committee_addresses data).

Definition debug_status (status : option InstanceBridgeInStatus) : string :=
  match status with Some s => "Some(" +:+ instance_status_str s +:+ ")" | None => "None" end.

Definition answer_pegin_request (instance_id : Uuid) : ST RoundNode (Step InstancePlan) :=
  if negb (bool_decide (jd_actor deps = Committee)) then step_ignore "only committee nodes answer"
  else
    status ← instance_status instance_id;
    if negb (bool_decide (status = Some UserInited)) then
      step_ignore ("instance is " +:+ debug_status status +:+ "; answer window closed")
    else
      request ← read_pegin_request instance_id;
      if bool_decide (default_signer_address ∈ request.2) then
        step_ignore "this committee already answered"
      else
        master ← st_lift get_bitvm_key;
        keypair ← load_or_create_committee_instance_keypair master instance_id;
        ask (λ k, gateway_answer_pegin_request k instance_id (public_key keypair));;
        step_done (noted "answered").

(** ** Confirmed instances *)

Definition graph_start_blocked (instance_id : Uuid) : ST RoundNode (option string) :=
  acquire_local;;
  row ← on_rows (find_instance instance_id);
  match row with
  | None => mret None
  | Some instance =>
      match status ← instance_status_of (it_status instance); guard (is_failed status = true);; Some status with
      | Some status => mret (Some ("instance is " +:+ instance_status_str status))
      | None =>
          if 0 <? it_btc_height instance then
            let cutoff := it_btc_height instance + graph_start_cutoff_blocks in
            height ← ask get_height;
            mret (if cutoff <? height
                  then Some ("height " +:+ pretty height +:+ " is past the graph start cutoff " +:+ pretty cutoff)
                  else None)
          else mret None
      end
  end.

Definition read_instance_info_from_goat (instance_id : Uuid) : ST RoundNode BitvmGcInstanceParameters :=
  data ← ask (λ k, gateway_get_pegin_data k instance_id);
  user_info ← st_lift (read_user_info InvalidPeginData data);
  keys ← st_try (ask (λ k, gateway_get_committee_pubkeys k instance_id));
  match keys with
  | Ok keys => mret (mkInstanceParameters get_network instance_id user_info (pn_pegin_amount_sats data) keys
                       (generate_n_of_n_public_key keys).1)
  | Err e =>
      if is_contract_revert e
      then st_fail (InvalidPeginData ("fail to get committee pubkeys: " +:+ full_text e))
      else st_fail e
  end.

Definition tx_visible (txid : Txid) : ST RoundNode bool :=
  found ← ask (λ k, get_tx k txid); mret (is_some found).

Definition confirm_instance (instance_id : Uuid) : ST RoundNode (Step InstancePlan) :=
  status ← instance_status instance_id;
  match status with
  | None => step_ignore "instance row missing"
  | Some status =>
      if is_failed status then step_ignore ("instance is " +:+ instance_status_str status)
      else
        parameters ← read_instance_info_from_goat instance_id;
        txs ← st_lift (build_pegin_tx parameters);
        let deposit_txid := compute_txid (ps_tx txs.1.1) in
        visible ← tx_visible deposit_txid;
        if negb visible then
          step_retry ("pegin deposit tx " +:+ deposit_txid +:+ " not found on chain yet") 30
        else
          store_instance_parameters parameters;;
          if negb (bool_decide (jd_actor deps = Operator)) then step_ignore "instance parameters stored"
          else
            master ← st_lift get_bitvm_key;
            let operator_pubkey := public_key master in
            graph ← get_graph_by_instance_id_and_operator_pubkey instance_id operator_pubkey;
            match graph with
            | Some graph =>
                let graph_id := bp_graph_id (sg_parameters graph) in
                step_done (default_instance_plan
                  <| pl_wake_refs := [wake_ref (graph_ref graph_id)] |>
                  <| pl_note := Some ("graph " +:+ uuid_to_string graph_id +:+ " exists") |>)
            | None =>
                acquire_local;;
                session ← on_rows (find_pending_graph_init_by_instance_and_operator_pubkey instance_id
                                     operator_pubkey);
                match session with
                | Some session =>
                    step_done (default_instance_plan
                      <| pl_start_graph := Some (mkStartGraph (pg_graph_id session) operator_pubkey) |>)
                | None =>
                    blocked ← graph_start_blocked instance_id;
                    match blocked with
                    | Some reason => step_ignore reason
                    | None =>
                        graph_id ← ask (λ k, Ok (new_uuid k));
                        step_done (default_instance_plan
                          <| pl_start_graph := Some (mkStartGraph graph_id operator_pubkey) |>)
                    end
                end
            end
  end.

(** ** The signing round *)

(** The nonce transcript every member must agree on before signing.  [nc_pub_nonces] is the
    ordered nonces, of which the source keeps the aggregate and the hash. *)
Record NonceConsensus := mkConsensus {
  nc_parameters : BitvmGcInstanceParameters;
  nc_committee : list PublicKey;
  nc_pub_nonces : list PubNonce;
  nc_agg_nonce : AggNonce;
  nc_consensus_hash : bytes;
}.

Definition required_parameters (instance_id : Uuid) : ST RoundNode BitvmGcInstanceParameters :=
  found ← get_instance_parameters instance_id;
  st_lift (expect found ("Instance parameters not found for " +:+ uuid_to_string instance_id)).

Definition nonce_consensus (instance_id : Uuid) : ST RoundNode (option NonceConsensus) :=
  parameters ← required_parameters instance_id;
  committee ← committee_pubkeys instance_id;
  pub_nonces ← get_committee_pub_nonces_for_instance instance_id;
  if (length pub_nonces <? length committee)%nat then mret None
  else
    ordered ← st_lift (order_committee_values committee pub_nonces "pegin committee pub nonces");
    let agg_nonce := nonce_aggregation ordered in
    hash ← st_lift (pegin_confirm_nonce_consensus_hash parameters committee ordered);
    mret (Some (mkConsensus parameters committee ordered agg_nonce hash)).

(** One member's vote is for the consensus hash and signed by it. *)
Definition check_vote (instance_id : Uuid) (hash : bytes) (committee_pubkey : PublicKey)
    (vote : bytes * SchnorrSignature) : outcome unit :=
  if negb (bool_decide (vote.1 = hash)) then
    Err (InvalidPeginData ("committee PeginConfirm nonce consensus differs for instance " +:+
         uuid_to_string instance_id +:+ " and committee " +:+ committee_pubkey))
  else
    match verify_schnorr vote.2 hash (xonly committee_pubkey) with
    | Ok _ => Ok tt
    | Err e => Err (InvalidPeginData ("invalid PeginConfirm nonce consensus signature for instance " +:+
                 uuid_to_string instance_id +:+ " and committee " +:+ committee_pubkey +:+ ": " +:+
                 default ""%string (head e)))
    end.

(** The votes of every member, in committee order, once they are all there. *)
Definition checked_votes (instance_id : Uuid) (consensus : NonceConsensus) :
    ST RoundNode (option (list (bytes * SchnorrSignature))) :=
  votes ← get_committee_agg_nonce_consensus_for_instance instance_id;
  if (length votes <? length (nc_committee consensus))%nat then mret None
  else
    ordered ← st_lift (order_committee_values (nc_committee consensus) votes "PeginConfirm agg nonce consensus");
    st_lift (for_each (λ _ '(committee_pubkey, vote),
        check_vote instance_id (nc_consensus_hash consensus) committee_pubkey vote)
      tt (zip (nc_committee consensus) ordered));;
    mret (Some ordered).

Definition votes_complete (instance_id : Uuid) (consensus : NonceConsensus) : ST RoundNode bool :=
  votes ← checked_votes instance_id consensus; mret (is_some votes).

Definition nonces_complete (instance_id : Uuid) : ST RoundNode bool :=
  committee ← committee_pubkeys instance_id;
  nonces ← get_committee_pub_nonces_for_instance instance_id;
  mret ((0 <? length committee)%nat && (length committee <=? length nonces)%nat).

Definition partial_sigs_complete (instance_id : Uuid) : ST RoundNode bool :=
  committee ← committee_pubkeys instance_id;
  sigs ← get_committee_partial_sigs_for_instance instance_id;
  mret ((0 <? length committee)%nat && (length committee <=? length sigs)%nat).

Definition then_broadcast (plan : InstancePlan) : InstancePlan :=
  if jd_relayer deps then plan_then JOB_BROADCAST_PEGIN_CONFIRM "" None plan else plan.

Definition round_message (instance_id : Uuid) (content : GOATMessageContent) : outcome PlannedMessage :=
  let kind := event_type content in
  payload ← serialize_message (mkMessage Committee content);
  Ok (mkPlanned ("instance:" +:+ uuid_to_string instance_id +:+ ":" +:+ kind) PHASE_CONFIRM kind
        (actor_to_string Committee) payload None).

(** The round is over for a status. *)
Definition round_over (status : option InstanceBridgeInStatus) : option InstanceBridgeInStatus :=
  s ← status; guard (confirm_round_over s = true);; Some s.

Definition over_note (status : InstanceBridgeInStatus) : string :=
  "instance is " +:+ instance_status_str status +:+ "; round over".

Definition start_pegin_confirm (instance_id : Uuid) : ST RoundNode (Step InstancePlan) :=
  if negb (bool_decide (jd_actor deps = Committee)) then step_ignore "not a committee node"
  else
    status ← instance_status instance_id;
    match round_over status with
    | Some status => step_ignore (over_note status)
    | None =>
        member ← local_member instance_id;
        match member with
        | None => step_ignore "not in this instance's committee"
        | Some keypair =>
            enough ← has_required_presigned_graphs instance_id;
            if negb enough then step_ignore "not enough finalized graphs for the PeginConfirm round"
            else
              parameters ← required_parameters instance_id;
              st_lift get_bitvm_key;;
              let local_pubkey := public_key keypair in
              derived ← st_lift (nonce_for_instance_job_with_keypair parameters keypair);
              let '(_, derived_nonce, nonce_sig) := derived in
              stored ← get_committee_pub_nonce_for_instance instance_id local_pubkey;
              stop ← match stored with
                     | Some stored =>
                         if bool_decide (stored = derived_nonce) then mret None
                         else invalid ("stored PeginConfirm nonce differs from the deterministic nonce for " +:+
                                       uuid_to_string instance_id)
                     | None =>
                         closed ← gate_closed instance_id;
                         match closed with
                         | Some reason => mret (Some ("signing gate closed: " +:+ reason)%string)
                         | None =>
                             signed ← get_committee_partial_sig_for_instance instance_id local_pubkey;
                             if is_some signed
                             then mret (Some "local PeginConfirm partial signature already exists"%string)
                             else store_committee_pub_nonce_for_instance instance_id local_pubkey derived_nonce;;
                                  mret None
                         end
                     end;
              match stop with
              | Some note => step_ignore note
              | None =>
                  message ← st_lift (round_message instance_id (PeginConfirmNonce instance_id
                    (pegin_nonce_rest (local_pubkey, derived_nonce, nonce_sig))));
                  complete ← nonces_complete instance_id;
                  let plan := plan_send message default_instance_plan in
                  step_done (if complete : bool then plan_then JOB_PEGIN_CONFIRM_VOTE "" None plan else plan)
              end
        end
    end.

Definition ingest_pegin_confirm_nonce (instance_id : Uuid) (params : bytes) : ST RoundNode (Step InstancePlan) :=
  decoded ← decode_inbound params;
  let '(inbound, message) := decoded in
  match gm_content message with
  | PeginConfirmNonce message_instance_id rest =>
      let '(committee_pubkey, pub_nonce, nonce_sig) := pegin_nonce_fields rest in
      if negb (bool_decide (message_instance_id = instance_id)) ||
         negb (bool_decide (im_instance_id inbound = instance_id)) then
        invalid "PeginConfirmNonce identity mismatch"
      else
        ensure_committee_sender inbound committee_pubkey;;
        if negb (verify_public_nonce nonce_sig pub_nonce (xonly committee_pubkey)) then
          invalid ("invalid pub_nonce or nonce_sig from " +:+ committee_pubkey)
        else
          store_committee_pub_nonce_for_instance instance_id committee_pubkey pub_nonce;;
          complete ← nonces_complete instance_id;
          step_done (if complete : bool then plan_then JOB_PEGIN_CONFIRM_VOTE "" None default_instance_plan
                     else default_instance_plan)
  | _ => invalid "not a PeginConfirmNonce message"
  end.

Definition pegin_confirm_vote (instance_id : Uuid) : ST RoundNode (Step InstancePlan) :=
  status ← instance_status instance_id;
  match round_over status with
  | Some status => step_ignore (over_note status)
  | None =>
      found ← nonce_consensus instance_id;
      match found with
      | None => step_ignore "waiting for committee public nonces"
      | Some consensus =>
          member ← local_member instance_id;
          match member with
          | None => step_ignore "not in this instance's committee"
          | Some keypair =>
              let local_pubkey := public_key keypair in
              let hash := nc_consensus_hash consensus in
              votes ← get_committee_agg_nonce_consensus_for_instance instance_id;
              voted ← match find (λ v, bool_decide (v.1 = local_pubkey)) votes with
                      | Some (_, (stored_hash, signature)) =>
                          if bool_decide (stored_hash = hash) then mret (inl signature)
                          else invalid ("local PeginConfirm nonce consensus differs for " +:+
                                        uuid_to_string instance_id)
                      | None =>
                          closed ← gate_closed instance_id;
                          match closed with
                          | Some reason => mret (inr ("signing gate closed: " +:+ reason)%string)
                          | None =>
                              let signature := sign_schnorr keypair hash in
                              store_committee_agg_nonce_consensus_for_instance instance_id local_pubkey
                                hash signature;;
                              mret (inl signature)
                          end
                      end;
              match voted with
              | inr note => step_ignore note
              | inl signature =>
                  message ← st_lift (round_message instance_id (PeginConfirmNonceConsensus instance_id
                    (pegin_vote_rest (local_pubkey, hash, signature))));
                  complete ← votes_complete instance_id consensus;
                  let plan := plan_send message default_instance_plan in
                  step_done (if complete : bool then plan_then JOB_PEGIN_CONFIRM_SIGN "" None plan else plan)
              end
          end
      end
  end.

Definition ingest_pegin_confirm_vote (instance_id : Uuid) (params : bytes) : ST RoundNode (Step InstancePlan) :=
  decoded ← decode_inbound params;
  let '(inbound, message) := decoded in
  match gm_content message with
  | PeginConfirmNonceConsensus message_instance_id rest =>
      let '(committee_pubkey, received_hash, signature) := pegin_vote_fields rest in
      if negb (bool_decide (message_instance_id = instance_id)) ||
         negb (bool_decide (im_instance_id inbound = instance_id)) then
        invalid "PeginConfirmNonceConsensus identity mismatch"
      else
        ensure_committee_sender inbound committee_pubkey;;
        found ← nonce_consensus instance_id;
        match found with
        | None =>
            step_retry "waiting for committee public nonces before validating PeginConfirm nonce consensus" 30
        | Some consensus =>
            if negb (bool_decide (received_hash = nc_consensus_hash consensus)) then
              invalid ("consensus hash mismatch from " +:+ committee_pubkey)
            else if negb (is_ok (verify_schnorr signature (nc_consensus_hash consensus) (xonly committee_pubkey)))
            then invalid ("invalid consensus signature from " +:+ committee_pubkey)
            else
              store_committee_agg_nonce_consensus_for_instance instance_id committee_pubkey received_hash
                signature;;
              complete ← votes_complete instance_id consensus;
              step_done (if complete : bool then plan_then JOB_PEGIN_CONFIRM_SIGN "" None default_instance_plan
                         else default_instance_plan)
        end
  | _ => invalid "not a PeginConfirmNonceConsensus message"
  end.

(** A partial signature with the member's deterministic nonce, once the nonce is bound to the
    transcript. *)
Definition sign_authorized (instance_id : Uuid) (consensus : NonceConsensus) (keypair : Keypair)
    (held : RoundEvidence PubNonce) : ST RoundNode PartialSignature :=
  st_lift get_bitvm_key;;
  derived ← st_lift (nonce_for_instance_job_with_keypair (nc_parameters consensus) keypair);
  let '(sec_nonce, pub_nonce, _) := derived in
  let nonce_id := signing_nonce_id "pegin-confirm" (pub_nonce_serialize pub_nonce) in
  let transcript := hex_encode (nc_consensus_hash consensus) in
  acquire_local;;
  now ← clock_now;
  authorization ← authorize_signing "instance" (uuid_to_string instance_id) nonce_id transcript now;
  match authorization with
  | Conflict existing_digest =>
      invalid ("PeginConfirm nonce for " +:+ uuid_to_string instance_id +:+
               " is already authorized for transcript " +:+ existing_digest +:+ "; refusing " +:+ transcript)
  | _ =>
      txs ← st_lift (build_pegin_tx (nc_parameters consensus));
      context ← st_lift (get_committee_context (nc_parameters consensus) keypair);
      record_signing (PeginSigning (nc_parameters consensus) keypair sec_nonce (nc_agg_nonce consensus)
                        held);;
      st_lift (map_err (λ e, "Failed to sign PeginConfirm for " +:+ uuid_to_string instance_id +:+ ": " +:+ e)
        (sign_input_0_musig2 txs.1.2 context sec_nonce (nc_agg_nonce consensus)))
  end.

(** The stored partial signature, with the endorsement it may be missing. *)
Definition reuse_partial (instance_id : Uuid) (pegin_txid : Txid) (local_pubkey : PublicKey)
    (stored : PartialSignature) : ST RoundNode (PartialSignature * bytes) :=
  sigs ← get_committee_endorse_sigs_for_pegin instance_id;
  match find (λ v, bool_decide (v.1 = local_pubkey)) sigs with
  | Some (_, endorse_sig) => mret (stored, endorse_sig)
  | None =>
      endorse_sig ← endorse_pegin instance_id pegin_txid;
      store_committee_endorse_sig_for_pegin instance_id local_pubkey endorse_sig;;
      mret (stored, endorse_sig)
  end.

Definition pegin_confirm_sign (instance_id : Uuid) : ST RoundNode (Step InstancePlan) :=
  status ← instance_status instance_id;
  match round_over status with
  | Some status => step_ignore (over_note status)
  | None =>
      found ← nonce_consensus instance_id;
      match found with
      | None => step_ignore "waiting for committee public nonces"
      | Some consensus =>
          checked ← checked_votes instance_id consensus;
          match checked with
          | None => step_ignore "waiting for agg nonce consensus"
          | Some votes =>
            member ← local_member instance_id;
            match member with
            | None => step_ignore "not in this instance's committee"
            | Some keypair =>
                let local_pubkey := public_key keypair in
                txs ← st_lift (build_pegin_tx (nc_parameters consensus));
                let pegin_txid := compute_txid (ps_tx txs.1.2) in
                stored ← get_committee_partial_sig_for_instance instance_id local_pubkey;
                signed ← match stored with
                         | Some stored =>
                             r ← reuse_partial instance_id pegin_txid local_pubkey stored; mret (inl r)
                         | None =>
                             gate ← read_gate instance_id;
                             match gate.2 with
                             | Some reason => mret (inr ("signing gate closed: " +:+ reason)%string)
                             | None =>
                                 partial_sig ← sign_authorized instance_id consensus keypair
                                   (mkEvidence (nc_committee consensus) (nc_pub_nonces consensus) votes
                                      gate.1.1 gate.1.2);
                                 endorse_sig ← endorse_pegin instance_id pegin_txid;
                                 store_committee_partial_sig_for_instance instance_id local_pubkey partial_sig;;
                                 store_committee_endorse_sig_for_pegin instance_id local_pubkey endorse_sig;;
                                 mret (inl (partial_sig, endorse_sig))
                             end
                         end;
                match signed with
                | inr note => step_ignore note
                | inl (partial_sig, endorse_sig) =>
                    message ← st_lift (round_message instance_id (PeginConfirmPartialSig instance_id
                      (pegin_partial_rest (local_pubkey, partial_sig, endorse_sig))));
                    complete ← partial_sigs_complete instance_id;
                    let plan := plan_send message default_instance_plan in
                    step_done (if complete : bool then then_broadcast plan else plan)
                end
            end
          end
      end
  end.

Definition ingest_pegin_confirm_partial_sig (instance_id : Uuid) (params : bytes) :
    ST RoundNode (Step InstancePlan) :=
  decoded ← decode_inbound params;
  let '(inbound, message) := decoded in
  match gm_content message with
  | PeginConfirmPartialSig message_instance_id rest =>
      let '(committee_pubkey, partial_sig, endorse_sig) := pegin_partial_fields rest in
      if negb (bool_decide (message_instance_id = instance_id)) ||
         negb (bool_decide (im_instance_id inbound = instance_id)) then
        invalid "PeginConfirmPartialSig identity mismatch"
      else
        ensure_committee_sender inbound committee_pubkey;;
        committee ← committee_pubkeys instance_id;
        pub_nonces ← get_committee_pub_nonces_for_instance instance_id;
        if negb (length pub_nonces =? length committee)%nat then
          step_retry "waiting for committee public nonces" 30
        else
          match find (λ v, bool_decide (v.1 = committee_pubkey)) pub_nonces with
          | None => invalid ("missing signer pub nonce for " +:+ committee_pubkey)
          | Some (_, signer_pub_nonce) =>
              found ← nonce_consensus instance_id;
              match found with
              | None =>
                  st_fail ["committee public nonces changed while a partial signature was verified"%string]
              | Some consensus =>
                  complete ← votes_complete instance_id consensus;
                  if negb complete then
                    step_retry "waiting for committee PeginConfirm agg nonce consensus" 30
                  else
                    match verify_pegin_confirm_partial_sig committee committee_pubkey
                            (nc_parameters consensus) signer_pub_nonce (nc_agg_nonce consensus) partial_sig with
                    | Err error => invalid ("invalid partial signature from " +:+ committee_pubkey +:+ ": " +:+
                                            default ""%string (head error))
                    | Ok _ =>
                        txs ← st_lift (build_pegin_tx (nc_parameters consensus));
                        verified ← st_try (verify_pegin_endorsement instance_id committee_pubkey
                          (compute_txid (ps_tx txs.1.2)) endorse_sig);
                        match verified with
                        | Ok true =>
                            store_committee_partial_sig_for_instance instance_id committee_pubkey partial_sig;;
                            store_committee_endorse_sig_for_pegin instance_id committee_pubkey endorse_sig;;
                            complete ← partial_sigs_complete instance_id;
                            step_done (if complete : bool then then_broadcast default_instance_plan
                                       else default_instance_plan)
                        | Ok false => invalid ("invalid endorsement signature from " +:+ committee_pubkey)
                        | Err error =>
                            step_retry ("failed to verify committee endorsement signature: " +:+
                                        default ""%string (head error)) 30
                        end
                    end
              end
          end
  | _ => invalid "not a PeginConfirmPartialSig message"
  end.

(** ** Broadcast *)

Definition pegin_confirm_broadcast_blocked (instance_id : Uuid) : ST RoundNode (option string) :=
  acquire_local;;
  row ← on_rows (find_instance instance_id);
  match row with
  | None => mret (Some "instance not found"%string)
  | Some instance =>
      closed ← gate_closed instance_id;
      match closed, it_pegin_cancel_txid instance with
      | Some reason, _ => mret (Some reason)
      | None, Some cancel_txid =>
          cancel_tx ← ask (λ k, get_tx_info k cancel_txid);
          mret (match cancel_tx with
                | Some status => if xs_confirmed status
                                 then Some ("Peg-In-Cancel " +:+ cancel_txid +:+ " is confirmed") else None
                | None => None
                end)
      | None, None => mret None
      end
  end.

(** [i64::from_le_bytes] of exactly eight bytes. *)
Fixpoint le_bytes (b : bytes) : Z :=
  match b with
  | EmptyString => 0
  | String c b => Z.of_nat (Ascii.nat_of_ascii c) + 256 * le_bytes b
  end.
Definition scanned_height (params : bytes) : option Z :=
  if (String.length params =? 8)%nat then Some (as_i64 (le_bytes params)) else None.

Definition broadcast_pegin_confirm (instance_id : Uuid) (params : bytes) : ST RoundNode (Step InstancePlan) :=
  if negb (jd_relayer deps) then step_ignore "not a relayer"
  else
    parameters ← required_parameters instance_id;
    txs ← st_lift (build_pegin_tx parameters);
    let pegin_confirm := txs.1.2 in
    let pegin_txid := compute_txid (ps_tx pegin_confirm) in
    seen ← ask (λ k, get_tx k pegin_txid);
    if is_some seen then step_ignore ("Peg-In-Confirm " +:+ pegin_txid +:+ " is already visible")
    else
      blocked ← pegin_confirm_broadcast_blocked instance_id;
      match blocked with
      | Some reason => step_ignore reason
      | None =>
          committee ← committee_pubkeys instance_id;
          pub_nonces ← get_committee_pub_nonces_for_instance instance_id;
          partial_sigs ← get_committee_partial_sigs_for_instance instance_id;
          if negb (length pub_nonces =? length committee)%nat ||
             negb (length partial_sigs =? length committee)%nat then
            step_ignore (pretty (length pub_nonces) +:+ " of " +:+ pretty (length committee) +:+
              " nonces and " +:+ pretty (length partial_sigs) +:+ " of " +:+ pretty (length committee) +:+
              " partial signatures")
          else
            pub_nonces ← st_lift (order_committee_values committee pub_nonces "pegin committee pub nonces");
            partial_sigs ← st_lift (order_committee_values committee partial_sigs
                                      "pegin committee partial sigs");
            full_sig ← st_lift (map_err (λ e, "Failed to aggregate PeginConfirm signatures for " +:+
                uuid_to_string instance_id +:+ ": " +:+ e)
              (aggregate_input_0_musig2_signatures pegin_confirm (get_base_context parameters) partial_sigs
                 (nonce_aggregation pub_nonces)));
            let signed := push_input_0_signature pegin_confirm (connector_z parameters) full_sig in
            result ← st_try (ask (λ k, broadcast_tx k (ps_tx signed)));
            match result with
            | Ok _ => step_done (noted ("broadcast " +:+ pegin_txid))
            | Err error =>
                later ← match scanned_height params with
                        | Some scanned => height ← ask get_height; mret (scanned <? height)
                        | None => mret false
                        end;
                let text := full_text error in
                if later : bool then
                  step_ignore ("broadcast Peg-In-Confirm " +:+ pegin_txid +:+ " failed (" +:+ text +:+
                               "); the next block's attempt takes over")
                else step_retry ("broadcast Peg-In-Confirm " +:+ pegin_txid +:+ ": " +:+ text) 60
            end
      end.

(** ** Posting *)

Inductive PostOutcome : Type :=
| PostDone
| PostWaiting (reason : string)
| PostRejected (reason : string).

Definition is_permanent_post_rejection (e : error) : bool :=
  existsb (λ needle, contains needle (full_text e))
    ["not a pending pegin request"%string; "pegin amount mismatch"%string;
     "only committee member can call"%string].

Definition post_pegin_data (instance_id : Uuid) : ST RoundNode PostOutcome :=
  if negb (jd_relayer deps) then mret PostDone
  else
    committee ← committee_pubkeys instance_id;
    pegin_data ← ask (λ k, gateway_get_pegin_data k instance_id);
    match pn_status pegin_data with
    | PeginNone => mret (PostRejected "not a pending pegin request on Goat")
    | PeginPending =>
        parameters ← required_parameters instance_id;
        txs ← st_lift (build_pegin_tx parameters);
        let pegin_txid := compute_txid (ps_tx txs.1.2) in
        found ← ask (λ k, get_tx k pegin_txid);
        match found with
        | None => mret (PostWaiting ("Peg-In-Confirm " +:+ pegin_txid +:+
                          " is not available from the Bitcoin backend"))
        | Some pegin_tx =>
            endorse_sigs ← get_committee_endorse_sigs_for_pegin instance_id;
            let endorse_sigs := snd <$> endorse_sigs in
            if negb (length endorse_sigs =? length committee)%nat then
              mret (PostWaiting (pretty (length endorse_sigs) +:+ " of " +:+ pretty (length committee) +:+
                                 " committee endorsements of the Peg-In-Confirm"))
            else
              status ← ask (λ k, get_tx_status k pegin_txid);
              match xs_block_height status with
              | None => mret (PostWaiting ("Peg-In-Confirm " +:+ pegin_txid +:+ " is not confirmed on Bitcoin"))
              | Some pegin_height =>
                  spv_height ← ask btc_spv_latest_height;
                  if spv_height <? pegin_height then
                    mret (PostWaiting ("Goat SPV at " +:+ pretty spv_height +:+ ", Peg-In-Confirm block " +:+
                                       pretty pegin_height))
                  else
                    result ← st_try (ask (λ k, gateway_post_pegin_data k instance_id pegin_tx endorse_sigs));
                    match result with
                    | Ok _ => mret PostDone
                    | Err error =>
                        if is_permanent_post_rejection error then mret (PostRejected (full_text error))
                        else st_fail error
                    end
              end
        end
    | _ => mret PostDone
    end.

(** [PostPeginDataRunner::run] of an instance. *)
Definition run_post_pegin_data (instance_id : Uuid) : ST RoundNode JobOutcome :=
  posted ← st_try (post_pegin_data instance_id);
  mret (match posted with
        | Ok PostDone => OutcomeDone "posted"
        | Ok (PostWaiting reason) =>
            OutcomeTransient reason (Some (estimated_block_interval_secs get_network))
        | Ok (PostRejected reason) => OutcomeFailed reason
        | Err error => OutcomeTransient (full_text error) None
        end).

(** ** Key deletion *)

(** [DeleteInstanceKeyRunner::run] of an instance. *)
Definition run_delete_instance_key (instance_id : Uuid) : ST RoundNode JobOutcome :=
  let key_delete_done deleted detail := OutcomeDone (key_delete_result_to_vec deleted detail) in
  if negb key_delete_enabled then mret (key_delete_done false "deletion disabled")
  else
    there ← exists_file instance_id;
    if negb there then mret (key_delete_done true "envelope absent")
    else
      match get_bitvm_key with
      | Err error => mret (OutcomeTransient ("load committee master key: " +:+ full_text error) None)
      | Ok _ =>
          deleted ← st_try (delete_instance_keypair_envelope instance_id);
          mret (match deleted with
                | Ok _ => key_delete_done true (envelope_path instance_id)
                | Err error => OutcomeFailed ("delete envelope " +:+ envelope_path instance_id +:+ ": " +:+
                                              full_text error)
                end)
      end.

(** ** Dispatch *)

Definition run_instance_step (action : string) (instance_id : Uuid) (params : bytes) :
    ST RoundNode (Step InstancePlan) :=
  if bool_decide (action = JOB_ANSWER_PEGIN_REQUEST) then answer_pegin_request instance_id
  else if bool_decide (action = JOB_CONFIRM_INSTANCE) then confirm_instance instance_id
  else if bool_decide (action = JOB_START_PEGIN_CONFIRM) then start_pegin_confirm instance_id
  else if bool_decide (action = JOB_INGEST_PEGIN_CONFIRM_NONCE) then
    ingest_pegin_confirm_nonce instance_id params
  else if bool_decide (action = JOB_PEGIN_CONFIRM_VOTE) then pegin_confirm_vote instance_id
  else if bool_decide (action = JOB_INGEST_PEGIN_CONFIRM_VOTE) then
    ingest_pegin_confirm_vote instance_id params
  else if bool_decide (action = JOB_PEGIN_CONFIRM_SIGN) then pegin_confirm_sign instance_id
  else if bool_decide (action = JOB_INGEST_PEGIN_CONFIRM_PARTIAL_SIG) then
    ingest_pegin_confirm_partial_sig instance_id params
  else if bool_decide (action = JOB_BROADCAST_PEGIN_CONFIRM) then broadcast_pegin_confirm instance_id params
  else st_fail ["unknown instance job " +:+ action].

Definition plan_outcome (encoded : outcome bytes) : JobOutcome :=
  match encoded with
  | Ok bytes => OutcomeDone bytes
  | Err e => OutcomeFailed ("encode plan: " +:+ default ""%string (head e))
  end.

Definition fails_on_rejection (action : string) (e : error) : bool :=
  if decide (action ∈ [JOB_CONFIRM_INSTANCE; JOB_START_PEGIN_CONFIRM; JOB_PEGIN_CONFIRM_VOTE;
                       JOB_PEGIN_CONFIRM_SIGN; JOB_BROADCAST_PEGIN_CONFIRM]) then true
  else if decide (action = JOB_ANSWER_PEGIN_REQUEST) then is_contract_revert e
  else false.

(** [InstanceJobRunner::run] of an instance. *)
Definition run_instance_job (action : string) (instance_id : Uuid) (params : option bytes) :
    ST RoundNode JobOutcome :=
  stepped ← st_try (run_instance_step action instance_id (default ""%string params));
  mret (match stepped with
        | Ok (PlanStep plan) => plan_outcome (instance_plan_encode plan)
        | Ok (Retry reason after_secs) => OutcomeTransient reason (Some after_secs)
        | Err error =>
            match classify_failure error with
            | Permanent reason =>
                if fails_on_rejection action error then OutcomeFailed reason
                else plan_outcome (instance_plan_encode (noted ("rejected: " +:+ reason)))
            | Transient | Unknown => OutcomeTransient (full_text error) None
            end
        end).

End Jobs.
