(* ===== verification/GraphValidate.v ===== *)
(** * What a proposed and a finalized graph must satisfy

    Before a committee member signs a graph, and before any node keeps a finalized one, the graph
    is rebuilt from its parameters and checked against Goat, Bitcoin, the operator's previous slot
    and the endorsements that come with it.

    Source: node/src/utils/graph_validate.rs, node/src/utils/endorse.rs,
    node/src/utils/goat_chain.rs.  The registries on Goat and the environment are the class
    [Registries]. *)

From stdpp Require Import base list strings pretty gmap.
From S2P Require Import Prelude Table Storage EngineEffects Executor NodeSchema LocalDb NodeApply.
From S2P Require Import InstanceAggregate KeyEnvelope Timelocks Committee RoundStore GraphDefs PeginRound.

Local Open Scope Z_scope.

(** ** Graph data *)

Record GraphData := mkGraphData {
  ga_operator_pubkey_prefix : bytes;
  ga_operator_pubkey : bytes;
  ga_pegin_txid : bytes;
  ga_kickoff_txid : bytes;
  ga_take1_txid : bytes;
  ga_take2_txid : bytes;
  ga_watchtower_challenge_init_txid : bytes;
  ga_prover_assert_txid : bytes;
  ga_disprove_txids : list bytes;
  ga_watchtower_challenge_timeout_txids : list bytes;
  ga_operator_challenge_nack_txids : list bytes;
  ga_operator_commit_timeout_txid : bytes;
}.

Class Registries := {
  committee_mana_get_watchtowers : nat → outcome (list XOnlyPublicKey);
  committee_mana_is_verifier : nat → bytes → outcome bool;
  stake_mana_pubkey_to_address : nat → bytes → outcome bytes;
  stake_mana_lock_stake_of : nat → bytes → outcome Z;
  gateway_get_min_stake_amount : nat → outcome Z;
  gateway_get_post_graph_digest : nat → Uuid → Uuid → GraphData → outcome bytes;
  get_genesis_sequencer_commit_id : bytes;
  get_min_required_verifier : outcome nat;
  xonly_serialize : XOnlyPublicKey → bytes;
  txid_to_byte_array : Txid → bytes;
}.

Abbreviation Endorsement := (PublicKey * string * bytes)%type (only parsing).

Section Validate.
Context `{UuidText} `{RoundCodec} `{ParametersCodec} `{Others} `{Sha256} `{Musig2} `{RoundJson}.
Context `{Taproot} `{Goat} `{GraphBuilder} `{Outside} `{Registries} `{Failures}.

(** [bytes[a..b]] of a slice; out of range panics. *)
Definition byte_range (a n : nat) (b : bytes) : outcome bytes :=
  if (a + n <=? String.length b)%nat then Ok (String.substring a n b)
  else Err ["range end index out of range for slice"%string].

Definition build_graph_data (graph : BitvmGcGraph) : outcome GraphData :=
  let op_pk_bytes := pubkey_to_bytes (bp_operator_pubkey (bg_parameters graph)) in
  let id := λ tx, txid_to_byte_array (tx_id tx) in
  prefix ← byte_range 0 1 op_pk_bytes;
  operator_pubkey ← byte_range 1 32 op_pk_bytes;
  Ok (mkGraphData prefix operator_pubkey (id (bg_pegin graph)) (id (bg_kickoff graph)) (id (bg_take1 graph))
        (id (bg_take2 graph)) (id (bg_watchtower_challenge_init graph)) (id (bg_operator_assert graph))
        (id <$> bg_disproves graph) (id <$> bg_watchtower_challenge_timeouts graph)
        (id <$> bg_operator_challenge_nacks graph) (id (bg_operator_commit_timeout graph))).

Definition get_graph_digest (graph : BitvmGcGraph) : ST RoundNode bytes :=
  let instance_id := bi_instance_id (bp_instance_parameters (bg_parameters graph)) in
  let graph_id := bp_graph_id (bg_parameters graph) in
  graph_data ← st_lift (build_graph_data graph);
  ask (λ k, gateway_get_post_graph_digest k instance_id graph_id graph_data).

(** ** Endorsements *)

Definition endorse_graph (graph : BitvmGcGraph) : ST RoundNode bytes :=
  signer ← st_lift get_node_goat_private_key;
  graph_digest ← get_graph_digest graph;
  st_lift (sign_hash signer graph_digest).

Definition endorse_graph_params (graph : BitvmGcGraph) : ST RoundNode bytes :=
  signer ← st_lift get_node_goat_private_key;
  params_hash ← st_lift (canonical_graph_params_hash (bg_parameters graph));
  st_lift (sign_hash signer params_hash).

Definition verify_graph_endorsement_digest (evm_address : string) (graph_digest signature : bytes) :
    outcome bool :=
  addr ← recover_address signature graph_digest; Ok (bool_decide (addr = evm_address)).

Definition verify_graph_endorsement (evm_address : string) (graph : BitvmGcGraph) (signature : bytes) :
    ST RoundNode bool :=
  graph_digest ← get_graph_digest graph;
  st_lift (verify_graph_endorsement_digest evm_address graph_digest signature).

Definition verify_graph_params_endorsement (evm_address : string) (graph : BitvmGcGraph) (signature : bytes) :
    outcome bool :=
  params_hash ← canonical_graph_params_hash (bg_parameters graph);
  addr ← recover_address signature params_hash;
  Ok (bool_decide (addr = evm_address)).

Definition sign_verifier_graph_params (verifier_keypair : Keypair) (graph : SimplifiedBitvmGcGraph) :
    outcome SchnorrSignature :=
  params_hash ← parameters_hash_of graph; Ok (sign_schnorr verifier_keypair params_hash).

Definition verify_verifier_graph_params_endorsement (verifier_pubkey : PublicKey)
    (graph : SimplifiedBitvmGcGraph) (signature : SchnorrSignature) : outcome bool :=
  params_hash ← parameters_hash_of graph;
  Ok (is_ok (verify_schnorr signature params_hash (xonly verifier_pubkey))).

(** ** Watchtowers *)

Definition min_required_watchtower : nat := 1.

(** [min_required_verifier] panics on a bad configuration. *)
Definition min_required_verifier : outcome nat :=
  map_err (λ e, "invalid verifier count configuration: " +:+ e) get_min_required_verifier.

Definition require_graph (b : bool) (message : string) : outcome unit :=
  if b then Ok tt else Err (InvalidGraph message).

(** Every element is new: [HashSet::insert] in a loop, then the rest of the body. *)
Definition each_distinct {A B} `{EqDecision B} (key : A → B) (duplicate : A → string)
    (body : A → outcome unit) (l : list A) : outcome unit :=
  for_each (λ seen a,
      require_graph (negb (bool_decide (key a ∈ seen))) (duplicate a);;
      body a;;
      Ok (key a :: seen)) [] l;;
  Ok tt.

Definition validate_watchtower_registry_selection (selected registered : list XOnlyPublicKey) :
    outcome unit :=
  require_graph (min_required_watchtower <=? length selected)%nat
    ("insufficient watchtowers: have " +:+ pretty (length selected) +:+ ", required " +:+
     pretty min_required_watchtower);;
  require_graph (length selected <=? 256)%nat
    ("too many watchtowers: " +:+ pretty (length selected) +:+ ", max 256");;
  each_distinct id (λ _, "duplicate watchtower pubkey in graph"%string)
    (λ key, require_graph (bool_decide (key ∈ registered)) ("watchtower " +:+ key +:+ " is not registered"))
    selected.

(** [hash_operator_constant] of the light client: the key count is a [u16]. *)
Definition operator_constant (graph_id genesis_txid challenge_init_txid : bytes) (keys : list bytes) :
    bytes :=
  sha256 ("bitvm/operator-constant/v3" +:+ graph_id +:+ genesis_txid +:+ challenge_init_txid +:+
          be_bytes 2 (Z.of_nat (length keys) mod 2 ^ 16) +:+ foldr (λ a b, a +:+ b) "" keys).

Definition validate_watchtower_selection (selected registered : list XOnlyPublicKey)
    (graph_id genesis_txid challenge_init_txid constant : bytes) : outcome unit :=
  validate_watchtower_registry_selection selected registered;;
  let key_bytes := xonly_serialize <$> selected in
  let expected := operator_constant graph_id genesis_txid challenge_init_txid key_bytes in
  require_graph (bool_decide (constant = expected)) "operator constant mismatch for graph watchtower list".

(** The watchtowers of a graph, against the registry. *)
Definition validate_watchtowers (graph : SimplifiedBitvmGcGraph) (full_graph : BitvmGcGraph) :
    ST RoundNode unit :=
  let parameters := sg_parameters graph in
  watchtowers_on_chain ← in_context "load the watchtower registry from GoatChain"
    (ask committee_mana_get_watchtowers);
  st_lift (validate_watchtower_selection (bp_watchtower_pubkeys parameters) watchtowers_on_chain
    (uuid_bytes (bp_graph_id parameters)) get_genesis_sequencer_commit_id
    (txid_to_byte_array (compute_txid (ps_tx (bg_watchtower_challenge_init full_graph))))
    (bp_pubin_disprove_constant parameters)).

(** ** Instance parameters *)

Fixpoint funding_matches (inputs : list Input) : ST RoundNode unit :=
  match inputs with
  | [] => mret tt
  | input :: inputs =>
      let outpoint := in_txid input +:+ ":" +:+ pretty (in_vout input) in
      funding_tx ← in_context ("failed to load peg-in funding transaction " +:+ in_txid input)
        (ask (λ k, get_tx k (in_txid input)));
      funding_tx ← st_lift (expect funding_tx
        ("peg-in funding transaction " +:+ in_txid input +:+ " not found on Bitcoin"));
      match tx_output funding_tx !! Z.to_nat (in_vout input) with
      | None => st_fail (InvalidGraph ("peg-in funding outpoint " +:+ outpoint +:+ " does not exist"))
      | Some funding_output =>
          if bool_decide (to_value funding_output = in_amount input) then funding_matches inputs
          else st_fail (InvalidGraph ("peg-in funding amount mismatch for " +:+ outpoint +:+ ": graph=" +:+
                 pretty (in_amount input) +:+ ", bitcoin=" +:+ pretty (to_value funding_output)))
      end
  end.

Definition validate_graph_instance_parameters (parameters : BitvmGcInstanceParameters) :
    ST RoundNode unit :=
  expected ← in_context "failed to load instance parameters from GoatChain"
    (read_instance_info_from_goat (bi_instance_id parameters));
  if negb (bool_decide (parameters = expected)) then
    st_fail (InvalidGraph "instance parameters mismatch with GoatChain peg-in data")
  else
    funding_matches (ui_inputs (bi_user_info expected));;
    txs ← st_lift (invalid_graph (λ e, "failed to reconstruct peg-in deposit: " +:+ e)
                     (build_pegin_tx expected));
    let pegin_deposit_txid := compute_txid (ps_tx txs.1.1) in
    found ← in_context ("failed to load peg-in deposit transaction " +:+ pegin_deposit_txid)
      (ask (λ k, get_tx k pegin_deposit_txid));
    if is_some found then mret tt
    else st_fail ["peg-in deposit transaction " +:+ pegin_deposit_txid +:+ " not found on Bitcoin"].

(** ** Policy *)

Definition BABE_M_CC : nat := 7.

Definition validate_graph_policy (parameters : BitvmGcGraphParameters) : outcome unit :=
  let verifier_num := length (bp_gc_data parameters) in
  required ← min_required_verifier;
  require_graph (required <=? verifier_num)%nat
    ("insufficient verifier GC slots: have " +:+ pretty verifier_num +:+ ", required " +:+ pretty required);;
  each_distinct (λ gc, xonly (cd_verifier_pubkey gc))
    (λ gc, "duplicate verifier pubkey in GC data: " +:+ cd_verifier_pubkey gc)
    (λ gc, require_graph (length (cd_final_msg_hashlocks gc) =? BABE_M_CC)%nat
       ("verifier " +:+ cd_verifier_pubkey gc +:+ " has " +:+ pretty (length (cd_final_msg_hashlocks gc)) +:+
        " final message hashlocks, expected " +:+ pretty BABE_M_CC))
    (bp_gc_data parameters);;
  let watchtower_num := length (bp_watchtower_pubkeys parameters) in
  require_graph (min_required_watchtower <=? watchtower_num)%nat
    ("insufficient watchtower slots: have " +:+ pretty watchtower_num +:+ ", required " +:+
     pretty min_required_watchtower);;
  each_distinct id (λ pubkey, "duplicate watchtower pubkey in graph: " +:+ pubkey) (λ _, Ok tt)
    (bp_watchtower_pubkeys parameters);;
  each_distinct id (λ _, "duplicate watchtower ack hashlock in graph"%string) (λ _, Ok tt)
    (bp_watchtower_ack_hashlocks parameters).

(** [get_operator_graphs] of one operator and slot, limited to one row. *)
Definition operator_graph_at (operator_pubkey : string) (kickoff_index : Z) :
    ST NodeTables (option Graph) :=
  query (λ t, select_one (λ g, bool_decide (gr_operator_pubkey g = operator_pubkey) &&
                               bool_decide (gr_kickoff_index g = kickoff_index)) (t_graph t)).

Definition validate_prekickoff_continuity (full_graph : BitvmGcGraph) : ST RoundNode unit :=
  let nonce := bp_graph_nonce (bg_parameters full_graph) in
  if nonce =? 0 then mret tt
  else
    acquire_local;;
    let previous_nonce := nonce - 1 in
    previous ← on_rows (operator_graph_at (bp_operator_pubkey (bg_parameters full_graph))
                          (as_i64 previous_nonce));
    match previous with
    | None => st_fail ["previous graph is missing for graph nonce " +:+ pretty previous_nonce]
    | Some previous_graph =>
        simplified ← on_rows (load_validated_graph_definition (gr_instance_id previous_graph)
                                (gr_graph_id previous_graph));
        simplified ← st_lift (expect simplified
          ("previous graph raw data is missing for graph nonce " +:+ pretty previous_nonce));
        expected ← st_lift (from_simplified simplified);
        let expected_txid := tx_id (bg_next_prekickoff expected) in
        let actual_txid := tx_id (bg_cur_prekickoff full_graph) in
        if bool_decide (actual_txid = expected_txid) then mret tt
        else st_fail (InvalidGraph ("cur prekickoff continuity mismatch: graph=" +:+ actual_txid +:+
                                    ", expected=" +:+ expected_txid))
    end.

(** ** Stake *)

Inductive OperatorStakeStatus : Type :=
| Staked
| NotRegistered
| Insufficient (locked min : Z).

Definition zero_address : bytes := be_bytes 20 0.

Definition operator_stake_status (operator_pubkey : PublicKey) : ST RoundNode OperatorStakeStatus :=
  operator_addr ← in_context "query operator address"
    (ask (λ k, stake_mana_pubkey_to_address k (xonly_serialize (xonly operator_pubkey))));
  if bool_decide (operator_addr = zero_address) then mret NotRegistered
  else
    min_stake_amount ← in_context "query minimum operator stake" (ask gateway_get_min_stake_amount);
    locked_stake ← in_context "query operator locked stake"
      (ask (λ k, stake_mana_lock_stake_of k operator_addr));
    mret (if locked_stake <? min_stake_amount then Insufficient locked_stake min_stake_amount else Staked).

(** ** Proposed graphs *)

Definition challenge_amount : Z := 20000.

Definition validate_init_graph_base (graph : SimplifiedBitvmGcGraph) : ST RoundNode unit :=
  if negb (sg_operator_pre_signed graph) then
    st_fail (InvalidGraph "graph is missing operator pre-signatures")
  else
    full_graph ← st_lift (invalid_graph (λ e, "invalid graph structure: " +:+ e) (from_simplified graph));
    st_lift (validate_graph_policy (sg_parameters graph));;
    validate_prekickoff_continuity full_graph;;
    st_lift (invalid_graph (λ e, "invalid operator pre-signatures: " +:+ e)
      (verify_graph_operator_pre_signatures full_graph));;
    validate_graph_instance_parameters (bp_instance_parameters (sg_parameters graph));;
    st_lift (require_graph (bp_challenge_amount (sg_parameters graph) =? challenge_amount)
      "unexpected challenge amount");;
    validate_watchtowers graph full_graph;;
    stake ← in_context "query operator stake" (operator_stake_status (bp_operator_pubkey (sg_parameters graph)));
    match stake with
    | Staked => mret tt
    | NotRegistered => st_fail (InvalidGraph "operator not registered")
    | Insufficient locked min => st_fail (InvalidGraph ("insufficient operator stake: locked=" +:+
                                   pretty locked +:+ ", min=" +:+ pretty min))
    end.

(** What the verifiers' endorsements are checked for, one after the other. *)
Record Seen := mkSeen { sn_peers : list bytes; sn_pubkeys : list XOnlyPublicKey; sn_indices : list nat }.

Definition check_verifier_endorsement (graph : SimplifiedBitvmGcGraph) (seen : Seen)
    (e : PublicKey * (nat * string * SchnorrSignature)) : outcome Seen :=
  let '(verifier_pubkey, (verifier_index, verifier_peer_id, signature)) := e in
  let slots := bp_gc_data (sg_parameters graph) in
  peer ← context_of "invalid verifier endorsement peer" (peer_from_str verifier_peer_id);
  require_graph (negb (bool_decide (peer ∈ sn_peers seen))) "duplicate verifier endorsement peer";;
  require_graph (verifier_index <? length slots)%nat
    ("verifier params endorsement index " +:+ pretty verifier_index +:+ " out of range");;
  slot ← index slots verifier_index;
  let slot_pubkey := cd_verifier_pubkey slot in
  require_graph (bool_decide (slot_pubkey = verifier_pubkey))
    ("verifier params endorsement slot mismatch at index " +:+ pretty verifier_index +:+
     ": signature pubkey=" +:+ verifier_pubkey +:+ ", graph pubkey=" +:+ slot_pubkey);;
  require_graph (negb (bool_decide (xonly verifier_pubkey ∈ sn_pubkeys seen)))
    ("duplicate verifier params endorsement pubkey: " +:+ verifier_pubkey);;
  require_graph (negb (bool_decide (verifier_index ∈ sn_indices seen)))
    ("duplicate verifier params endorsement index: " +:+ pretty verifier_index);;
  ok ← verify_verifier_graph_params_endorsement verifier_pubkey graph signature;
  require_graph ok ("invalid verifier params endorsement signature for " +:+ verifier_pubkey);;
  Ok (mkSeen (peer :: sn_peers seen) (xonly verifier_pubkey :: sn_pubkeys seen)
        (verifier_index :: sn_indices seen)).

Fixpoint verifiers_registered (endorsements : list (PublicKey * (nat * string * SchnorrSignature))) :
    ST RoundNode unit :=
  match endorsements with
  | [] => mret tt
  | (_, (_, peer, _)) :: endorsements =>
      peer ← st_lift (peer_from_str peer);
      registered ← in_context "recheck verifier registration before committee setup"
        (ask (λ k, committee_mana_is_verifier k peer));
      if registered : bool then verifiers_registered endorsements
      else st_fail (InvalidGraph "endorsement peer is not a registered verifier")
  end.

Definition validate_verifier_graph_params_endorsements (graph : SimplifiedBitvmGcGraph)
    (verifier_endorsements : list (PublicKey * (nat * string * SchnorrSignature))) : ST RoundNode unit :=
  let expected_verifier_num := length (bp_gc_data (sg_parameters graph)) in
  st_lift (require_graph (length verifier_endorsements =? expected_verifier_num)%nat
    ("verifier params endorsement count " +:+ pretty (length verifier_endorsements) +:+
     " does not match GC slot count " +:+ pretty expected_verifier_num));;
  st_lift (for_each (check_verifier_endorsement graph) (mkSeen [] [] []) verifier_endorsements);;
  verifiers_registered verifier_endorsements.

Definition validate_init_graph (graph : SimplifiedBitvmGcGraph)
    (verifier_endorsements : list (PublicKey * (nat * string * SchnorrSignature))) : ST RoundNode unit :=
  validate_init_graph_base graph;;
  validate_verifier_graph_params_endorsements graph verifier_endorsements.

(** ** Finalized graphs *)

(** The address of a member on Goat: the keys before it are parsed too. *)
Fixpoint on_chain_address (pk : PublicKey) (members : list (bytes * string)) : outcome (option string) :=
  match members with
  | [] => Ok None
  | (key, address) :: members =>
      on_chain_pk ← invalid_graph (λ e, "invalid committee pubkey on-chain: " +:+ e) (pubkey_from_slice key);
      if bool_decide (on_chain_pk = pk) then Ok (Some address) else on_chain_address pk members
  end.

(** One endorsement after those of [seen]; [tag] and [what] are the words of the two kinds. *)
Definition check_endorsement (tag what who : string) (members : list (bytes * string))
    (verify : string → bytes → outcome bool) (seen : list PublicKey * list string) (e : Endorsement) :
    outcome (list PublicKey * list string) :=
  let '(pk, evm_addr, sig) := e in
  require_graph (negb (bool_decide (pk ∈ seen.1))) ("duplicate committee pubkey in " +:+ what +:+ "s");;
  require_graph (negb (bool_decide (evm_addr ∈ seen.2))) ("duplicate evm address in " +:+ what +:+ "s");;
  expected ← on_chain_address pk members;
  match expected with
  | None => Err (InvalidGraph (who +:+ " not in committee set"))
  | Some expected_addr =>
      require_graph (bool_decide (expected_addr = evm_addr)) ("committee evm address mismatch" +:+ tag);;
      ok ← invalid_graph (λ e, "failed to verify " +:+ what +:+ ": " +:+ e) (verify evm_addr sig);
      require_graph ok ("invalid " +:+ what +:+ " signature");;
      Ok (pk :: seen.1, evm_addr :: seen.2)
  end.

Definition check_endorsements (tag what who : string) (members : list (bytes * string))
    (verify : string → bytes → outcome bool) (endorsements : list Endorsement) : outcome unit :=
  for_each (check_endorsement tag what who members verify) ([], []) endorsements;; Ok tt.

Definition validate_finalized_graph (graph : SimplifiedBitvmGcGraph)
    (endorse_sigs params_endorse_sigs : list Endorsement) : ST RoundNode unit :=
  let parameters := sg_parameters graph in
  if negb (sg_operator_pre_signed graph) || negb (sg_committee_pre_signed graph) then
    st_fail (InvalidGraph "finalized graph is missing operator or committee pre-signatures")
  else
    full_graph ← st_lift (invalid_graph (λ e, "invalid graph structure: " +:+ e) (from_simplified graph));
    st_lift (validate_graph_policy parameters);;
    st_lift (invalid_graph (λ e, "invalid operator pre-signatures: " +:+ e)
      (verify_graph_operator_pre_signatures full_graph));;
    st_lift (invalid_graph (λ e, "invalid committee pre-signatures: " +:+ e)
      (verify_graph_committee_pre_signatures full_graph));;
    validate_graph_instance_parameters (bp_instance_parameters parameters);;
    st_lift (require_graph (bp_challenge_amount parameters =? challenge_amount) "unexpected challenge amount");;
    validate_watchtowers graph full_graph;;
    pegin_data ← in_context "load the instance's peg-in data from GoatChain"
      (ask (λ k, gateway_get_pegin_data k (bi_instance_id (bp_instance_parameters parameters))));
    graph_digest ← in_context "load the graph digest from GoatChain" (get_graph_digest full_graph);
    let keys := pn_committee_pubkeys pegin_data in
    let members := zip keys (pn_committee_addresses pegin_data) in
    st_lift (require_graph (length keys =? length (pn_committee_addresses pegin_data))%nat
      "on-chain committee pubkey and address counts differ");;
    st_lift (require_graph (length endorse_sigs =? length keys)%nat
      ("endorsement count " +:+ pretty (length endorse_sigs) +:+
       " does not match instance committee count " +:+ pretty (length keys)));;
    st_lift (require_graph (length params_endorse_sigs =? length keys)%nat
      ("params endorsement count " +:+ pretty (length params_endorse_sigs) +:+
       " does not match instance committee count " +:+ pretty (length keys)));;
    st_lift (check_endorsements "" "endorsement" "endorser" members
      (λ evm_addr sig, verify_graph_endorsement_digest evm_addr graph_digest sig) endorse_sigs);;
    st_lift (check_endorsements " in params endorsements" "params endorsement" "params endorser" members
      (λ evm_addr sig, verify_graph_params_endorsement evm_addr full_graph sig) params_endorse_sigs).

(** ** Fees *)

Definition prekickoff_replenishment_amount : Z := 500000.
Definition min_prekickoff_input_amount : Z := 200000.

End Validate.
