(* ===== verification/GraphChainState.v ===== *)
(** * What both chains say about a graph

    The stage a graph reached, and in a challenge how far each branch got, is derived from the
    graph's transactions on Bitcoin and from the gateway on Goat; the row follows it.

    Source: node/src/utils/graph_chain_state.rs, node/src/utils/btc.rs,
    node/src/utils/graph_store.rs. *)

From stdpp Require Import base list strings pretty gmap.
From S2P Require Import Prelude Table Storage EngineEffects Executor NodeSchema LocalDb NodeApply.
From S2P Require Import InstanceAggregate KeyEnvelope Timelocks Committee RoundStore GraphDefs PeginRound.
From S2P Require Import GraphPegout GraphValidate.

Local Open Scope Z_scope.

Inductive VerifierChallengeStatus : Type := NoAssert | VerifierAsserted | ProverAnswered | Disproved.

Record ChallengeSubStatus := mkSubStatus {
  cs_watchtower_challenge_status : list bool;
  cs_verifier_challenge_status : list VerifierChallengeStatus;
  cs_disprove_type : option DisproveTxType;
  cs_disprove_index : Z;
}.
#[export] Instance eta_ChallengeSubStatus : Eta ChallengeSubStatus := λ s,
  mkSubStatus (cs_watchtower_challenge_status s) (cs_verifier_challenge_status s) (cs_disprove_type s)
    (cs_disprove_index s).

Record DetectedDisprove := mkDetected {
  dd_disprove_type : DisproveTxType;
  dd_index : nat;
  dd_challenge_finish_txid : Txid;
}.

Record GraphChainScan := mkGraphScan {
  sc_status : GraphStatus;
  sc_sub_status : ChallengeSubStatus;
  sc_challenge_txid : option Txid;
  sc_disprove : option DetectedDisprove;
}.

(** Outpoints and vouts of crate [goat]'s transactions, the graph data on Goat and the text of a
    sub-status. *)
Class ChainReads := {
  gateway_get_graph_data : nat → Uuid → outcome GraphData;
  connector_a_input : PreSigned → outcome Input;
  connector_d_input : PreSigned → outcome Input;
  kickoff_connector_vout : Z;
  watchtower_connector_vout : nat → Z;
  sub_status_to_string : ChallengeSubStatus → outcome string;
}.

Section ChainState.
Context `{UuidText} `{Others} `{Musig2} `{Goat} `{GraphBuilder} `{Outside} `{Registries} `{ChainReads}.

Definition signed_txid (tx : PreSigned) : Txid := compute_txid (ps_tx tx).

(** ** Bitcoin *)

Definition tx_confirmed (txid : Txid) : ST RoundNode bool :=
  status ← ask (λ k, get_tx_status k txid); mret (xs_confirmed status).

Definition outpoint_spent_txid (txid : Txid) (vout : Z) : ST RoundNode (option Txid) :=
  status ← ask (λ k, get_output_status k txid vout);
  mret (status ← status; os_txid status).

Definition outpoint_spent_confirmed (txid : Txid) (vout : Z) : ST RoundNode (option Txid) :=
  spent ← outpoint_spent_txid txid vout;
  match spent with
  | Some spent_txid =>
      status ← ask (λ k, get_tx_status k spent_txid);
      mret (if xs_confirmed status then Some spent_txid else None)
  | None => mret None
  end.

(** ** Disproves *)

Definition detect_guardian_disprove (graph : BitvmGcGraph) : ST RoundNode (option DetectedDisprove) :=
  let quick_challenge_txid := signed_txid (bg_quick_challenge graph) in
  quick ← tx_confirmed quick_challenge_txid;
  if quick : bool then mret (Some (mkDetected QuickChallenge 0 quick_challenge_txid))
  else
    let incomplete_txid := signed_txid (bg_challenge_incomplete_kickoff graph) in
    incomplete ← tx_confirmed incomplete_txid;
    mret (if incomplete : bool then Some (mkDetected ChallengeIncompleteKickoff 0 incomplete_txid) else None).

Definition detect_connector_d_disprove (graph : BitvmGcGraph) : ST RoundNode (option DetectedDisprove) :=
  connector_d ← st_lift (map_err (λ e, "failed to get connector-d input: " +:+ e)
                           (connector_d_input (bg_operator_assert graph)));
  spent ← outpoint_spent_confirmed (in_txid connector_d) (in_vout connector_d);
  mret (spent_txid ← spent;
        if bool_decide (spent_txid = signed_txid (bg_take2 graph)) then None
        else match list_find (λ tx, spent_txid = signed_txid tx) (bg_disproves graph) with
             | Some (i, _) => Some (mkDetected TxDisprove i spent_txid)
             | None => Some (mkDetected PubinDisprove 0 spent_txid)
             end).

Fixpoint confirmed_nack (nacks : list PreSigned) (i : nat) : ST RoundNode (option DetectedDisprove) :=
  match nacks with
  | [] => mret None
  | nack :: nacks =>
      let txid := signed_txid nack in
      confirmed ← tx_confirmed txid;
      if confirmed : bool then mret (Some (mkDetected OperatorChallengeNack i txid))
      else confirmed_nack nacks (S i)
  end.

Definition detect_watchtower_flow_disprove (graph : BitvmGcGraph) :
    ST RoundNode (option DetectedDisprove) :=
  nack ← confirmed_nack (bg_operator_challenge_nacks graph) 0;
  match nack with
  | Some found => mret (Some found)
  | None =>
      let txid := signed_txid (bg_operator_commit_timeout graph) in
      confirmed ← tx_confirmed txid;
      mret (if confirmed : bool then Some (mkDetected OperatorCommitTimeout 0 txid) else None)
  end.

(** ** The scan *)

Definition initial_challenge_sub_status (watchtower_num verifier_num : nat) : ChallengeSubStatus :=
  mkSubStatus (replicate watchtower_num false) (replicate verifier_num NoAssert) None 0.

(** [index as i32]. *)
Definition as_i32 (n : nat) : Z := let w := Z.of_nat n mod 2 ^ 32 in if w <? 2 ^ 31 then w else w - 2 ^ 32.

Definition disproved_scan (sub : ChallengeSubStatus) (challenge_txid : option Txid) (d : DetectedDisprove) :
    GraphChainScan :=
  mkGraphScan Disprove (sub <| cs_disprove_type := Some (dd_disprove_type d) |>
                       <| cs_disprove_index := as_i32 (dd_index d) |>) challenge_txid (Some d).

(** Which watchtower connectors of the challenge are spent. *)
Fixpoint watchtower_spends (init_txid : Txid) (n i : nat) : ST RoundNode (list bool) :=
  match n with
  | O => mret []
  | S n =>
      spent ← outpoint_spent_txid init_txid (watchtower_connector_vout i);
      rest ← watchtower_spends init_txid n (S i);
      mret (is_some spent :: rest)
  end.

(** The branch of every verifier, and the last disprove that is confirmed. *)
Fixpoint verifier_branches (graph : BitvmGcGraph) (asserts : list PreSigned) (i : nat)
    (found : option DetectedDisprove) :
    ST RoundNode (list VerifierChallengeStatus * option DetectedDisprove) :=
  match asserts with
  | [] => mret ([], found)
  | verifier_assert :: asserts =>
      let verifier_assert_txid := signed_txid verifier_assert in
      disprove ← st_lift (index (bg_disproves graph) i);
      visible ← tx_visible verifier_assert_txid;
      branch ← (if visible : bool then
                  spent ← outpoint_spent_confirmed verifier_assert_txid 0;
                  mret (match spent with
                        | Some spent_txid =>
                            if bool_decide (spent_txid = signed_txid disprove)
                            then (Disproved, Some (mkDetected TxDisprove i spent_txid))
                            else (ProverAnswered, found)
                        | None => (VerifierAsserted, found)
                        end)
                else mret (NoAssert, found));
      rest ← verifier_branches graph asserts (S i) branch.2;
      mret (branch.1 :: rest.1, rest.2)
  end.

(** From a confirmed challenge on. *)
Definition scan_challenge (graph : BitvmGcGraph) (sub : ChallengeSubStatus) (challenge_txid : option Txid) :
    ST RoundNode GraphChainScan :=
  let waiting sub := mkGraphScan Challenge sub challenge_txid None in
  guardian ← detect_guardian_disprove graph;
  match guardian with
  | Some d => mret (disproved_scan sub challenge_txid d)
  | None =>
      watchtower ← detect_watchtower_flow_disprove graph;
      match watchtower with
      | Some d => mret (disproved_scan sub challenge_txid d)
      | None =>
          let init_txid := signed_txid (bg_watchtower_challenge_init graph) in
          init_on_chain ← tx_visible init_txid;
          if negb init_on_chain then mret (waiting sub)
          else
            spends ← watchtower_spends init_txid
                       (length (bp_watchtower_pubkeys (bg_parameters graph))) 0;
            let sub := sub <| cs_watchtower_challenge_status := spends |> in
            assert_on_chain ← tx_visible (signed_txid (bg_operator_assert graph));
            if negb assert_on_chain then mret (waiting sub)
            else
              branches ← verifier_branches graph (bg_verifier_asserts graph) 0 None;
              let sub := sub <| cs_verifier_challenge_status := branches.1 |> in
              match branches.2 with
              | Some d => mret (disproved_scan sub challenge_txid d)
              | None =>
                  connector_d ← detect_connector_d_disprove graph;
                  match connector_d with
                  | Some d => mret (disproved_scan sub challenge_txid d)
                  | None =>
                      take2 ← tx_confirmed (signed_txid (bg_take2 graph));
                      mret (if take2 : bool then mkGraphScan OperatorTake2 sub challenge_txid None
                            else waiting sub)
                  end
              end
      end
  end.

(** From a confirmed kickoff on. *)
Definition scan_kickoff (graph : BitvmGcGraph) (sub : ChallengeSubStatus) : ST RoundNode GraphChainScan :=
  guardian ← detect_guardian_disprove graph;
  match guardian with
  | Some d => mret (disproved_scan sub None d)
  | None =>
      connector_a ← st_lift (map_err (λ e, "failed to get connector-a input: " +:+ e)
                               (connector_a_input (bg_kickoff graph)));
      spent ← outpoint_spent_confirmed (in_txid connector_a) (in_vout connector_a);
      match spent with
      | None => mret (mkGraphScan OperatorKickOff sub None None)
      | Some spent_txid =>
          if bool_decide (spent_txid = signed_txid (bg_take1 graph))
          then mret (mkGraphScan OperatorTake1 sub None None)
          else scan_challenge graph sub (Some spent_txid)
      end
  end.

Definition zero_key : bytes := be_bytes 32 0.

Definition scan_graph_chain_state (graph : BitvmGcGraph) : ST RoundNode GraphChainScan :=
  let graph_id := bp_graph_id (bg_parameters graph) in
  let sub := initial_challenge_sub_status (length (bp_watchtower_pubkeys (bg_parameters graph)))
               (length (bg_verifier_asserts graph)) in
  let prekickoff_txid := signed_txid (bg_cur_prekickoff graph) in
  graph_data_on_goat ← ask (λ k, gateway_get_graph_data k graph_id);
  let current_status :=
    if bool_decide (ga_operator_pubkey graph_data_on_goat = zero_key)
    then if bg_committee_pre_signed graph then CommitteePresigned else OperatorPresigned
    else OperatorDataPushed in
  confirmed ← tx_confirmed prekickoff_txid;
  if negb confirmed then mret (mkGraphScan current_status sub None None)
  else
    spent ← outpoint_spent_confirmed prekickoff_txid kickoff_connector_vout;
    match spent with
    | None => mret (mkGraphScan PreKickoff sub None None)
    | Some spent_txid =>
        if bool_decide (spent_txid = signed_txid (bg_kickoff graph)) then scan_kickoff graph sub
        else mret (mkGraphScan Skipped sub None None)
    end.

(** ** The row *)

Definition update_graph_status (instance_id graph_id : Uuid) (new_status : GraphStatus)
    (sub_status : option ChallengeSubStatus) : ST RoundNode GraphStatusTransitionOutcome :=
  acquire_local;;
  text ← match sub_status with
         | Some sub => t ← st_lift (sub_status_to_string sub); mret (Some t)
         | None => mret None
         end;
  on_rows (transition_graph_status instance_id graph_id new_status ChainReconcile text).

Definition update_graph_challenge_txid_if_needed (graph_id : Uuid) (challenge_txid : Txid) :
    ST RoundNode unit :=
  acquire_local;;
  row ← on_rows (find_graph graph_id);
  match row with
  | None => mret tt
  | Some graph =>
      if bool_decide (gr_challenge_txid graph = Some challenge_txid) then mret tt
      else on_rows (update_graph_runtime
             (mkRuntimeUpdate (gr_instance_id graph) graph_id (Some challenge_txid) None None None));; mret tt
  end.

Definition refresh_graph (instance_id graph_id : Uuid) (graph : BitvmGcGraph) : ST RoundNode unit :=
  let p := bg_parameters graph in
  if negb (bool_decide (bi_instance_id (bp_instance_parameters p) = instance_id)) ||
     negb (bool_decide (bp_graph_id p = graph_id)) then
    st_fail ["refuse to refresh graph " +:+ uuid_to_string instance_id +:+ ":" +:+ uuid_to_string graph_id +:+
             " with mismatched graph parameters " +:+
             uuid_to_string (bi_instance_id (bp_instance_parameters p)) +:+ ":" +:+
             uuid_to_string (bp_graph_id p)]
  else
    scan ← scan_graph_chain_state graph;
    outcome ← update_graph_status instance_id graph_id (sc_status scan) (Some (sc_sub_status scan));
    match outcome, sc_challenge_txid scan with
    | TransitionApplied, Some challenge_txid | AlreadyCurrent, Some challenge_txid =>
        update_graph_challenge_txid_if_needed graph_id challenge_txid
    | _, _ => mret tt
    end.

(** A failed refresh is only logged. *)
Definition try_refresh_graph (instance_id graph_id : Uuid) (graph : BitvmGcGraph) : ST RoundNode unit :=
  st_try (refresh_graph instance_id graph_id graph);; mret tt.

End ChainState.
