(* ===== verification/GraphRound.v ===== *)
(** * The jobs of a graph's signing round

    A committee member stores a proposed graph and the verifiers' endorsements, publishes its
    nonces, votes for the nonce transcript, pre-signs the graph and endorses it; its operator
    collects what the members send, finalizes the graph and everyone stores the result.

    Source: node/src/aggregates/graph_jobs.rs, node/src/utils/goat_chain.rs. *)

From stdpp Require Import base list strings pretty gmap.
From S2P Require Import Prelude Table Storage EngineSchema EngineEffects Executor NodeSchema LocalDb.
From S2P Require Import NodeApply InstanceAggregate GraphAggregate Admission Timelocks Committee.
From S2P Require Import RoundStore KeyEnvelope GraphDefs PeginRound GraphValidate GraphChainState.

Local Open Scope Z_scope.

(** ** Plans *)

#[export] Instance eta_GraphStateUpdate : Eta GraphStateUpdate := λ u,
  mkStateUpdate (su_instance_id u) (su_operator_pubkey u) (su_graph_nonce u) (su_finalized u).
#[export] Instance eta_GraphPlan : Eta GraphPlan := λ p,
  mkGraphPlan (gpl_messages p) (gpl_close_rows p) (gpl_next p) (gpl_state p) (gpl_delete_pending_session p)
    (gpl_notify_instance_endorsed p) (gpl_wake_refs p) (gpl_note p).

Definition default_graph_plan : GraphPlan := only_wakes [].
Definition graph_noted (note : string) : GraphPlan := default_graph_plan <| gpl_note := Some note |>.
Definition graph_ignore (note : string) : ST RoundNode (Step GraphPlan) := step_done (graph_noted note).

Definition graph_send (message : PlannedMessage) (plan : GraphPlan) : GraphPlan :=
  plan <| gpl_messages ::= λ ms, ms ++ [message] |>.
Definition graph_then (action : string) (plan : GraphPlan) : GraphPlan :=
  plan <| gpl_next ::= λ ns, ns ++ [mkNext action "" None] |>.

(** A plan that names the instance, with a next job under a condition. *)
Definition instance_plan (instance_id : Uuid) : GraphPlan :=
  default_graph_plan <| gpl_state ::= λ u, u <| su_instance_id := Some instance_id |> |>.
Definition then_if (b : bool) (action : string) (plan : GraphPlan) : GraphPlan :=
  if b then graph_then action plan else plan.

Definition invalid_job {A} (message : string) : ST RoundNode A := st_fail (InvalidGraph message).

(** ** The outside *)

(** The fields of a graph's messages; a peer's text; what the registry says now. *)
Class GraphMessages := {
  create_graph_fields : bytes → SimplifiedBitvmGcGraph;
  verifier_endorsement_fields : bytes → PublicKey * nat * bytes * SchnorrSignature;
  finalize_rest : list Endorsement * list Endorsement * SimplifiedBitvmGcGraph → bytes;
  finalize_fields : bytes → list Endorsement * list Endorsement * SimplifiedBitvmGcGraph;
  peer_to_string : bytes → string;
  get_peer_id : string;
  get_node_goat_address : option string;
  committee_ack_peers : nat → list string;
  registry_is_verifier : nat → bytes → bool;
  selected_verifier_peers : nat → Uuid → Uuid → outcome (list string);
  gateway_post_graph_data : nat → Uuid → Uuid → GraphData → list bytes → outcome unit;
  graph_plan_encode : GraphPlan → outcome bytes;
}.

Section GraphJobs.
Context `{UuidText} `{RoundCodec} `{ParametersCodec} `{Others} `{Sha256} `{Musig2} `{RoundJson}.
Context `{Taproot} `{Goat} `{GraphBuilder} `{Sealing} `{Outside} `{RoundMessages}.
Context `{InboundCodec} `{MessageCodec} `{Failures} `{Registries} `{ChainReads} `{GraphMessages}.
Context (deps : JobDeps).

Definition planned (graph_id : Uuid) (phase_ref : string) (actor : Actor) (content : GOATMessageContent)
    (ack_peers : list string) : outcome PlannedMessage :=
  let kind := event_type content in
  payload ← serialize_message (mkMessage actor content);
  let ack_set : option (gmap string string) :=
    match ack_peers with
    | [] => None
    | _ => Some (list_to_map ((λ peer, (peer, delivery_id get_peer_id peer payload)) <$>
             filter (λ peer, peer ≠ get_peer_id) ack_peers))
    end in
  Ok (mkPlanned (outbox_id graph_id kind None) phase_ref kind (actor_to_string actor) payload ack_set).

Definition graph_instance (graph_id : Uuid) : ST RoundNode (option Uuid) :=
  acquire_local;; row ← on_rows (find_graph graph_id); mret (gr_instance_id <$> row).

(** ** Collections *)

Record Collections := mkCollections {
  co_endorsements : nat; co_params_endorsements : nat; co_pub_nonces : nat; co_partial_sigs : nat;
}.

Definition collections (graph_id : Uuid) : ST RoundNode Collections :=
  endorsements ← get_committee_endorsements_for_graph graph_id;
  params_endorsements ← get_committee_params_endorsements_for_graph graph_id;
  pub_nonces ← get_committee_pub_nonces_for_graph graph_id;
  partial_sigs ← get_committee_partial_sigs_for_graph graph_id;
  mret (mkCollections (length endorsements) (length params_endorsements) (length pub_nonces)
          (length partial_sigs)).

Definition four_sets_complete (instance_id graph_id : Uuid) : ST RoundNode bool :=
  committee ← committee_pubkeys instance_id;
  let n := length committee in
  collected ← collections graph_id;
  mret ((co_endorsements collected =? n)%nat && (co_params_endorsements collected =? n)%nat &&
        (co_pub_nonces collected =? n)%nat && (co_partial_sigs collected =? n)%nat).

Definition after_committee_value (instance_id graph_id : Uuid) (graph : SimplifiedBitvmGcGraph) :
    ST RoundNode (Step GraphPlan) :=
  let plan := default_graph_plan <| gpl_state := mkStateUpdate (Some instance_id)
    (Some (bp_operator_pubkey (sg_parameters graph))) (Some (bp_graph_nonce (sg_parameters graph))) None |> in
  match jd_actor deps with
  | Operator =>
      complete ← four_sets_complete instance_id graph_id;
      step_done (then_if complete JOB_FINALIZE_GRAPH plan)
  | Committee =>
      committee ← committee_pubkeys instance_id;
      pub_nonces ← get_committee_pub_nonces_for_graph graph_id;
      step_done (then_if (length committee <=? length pub_nonces)%nat JOB_COMMITTEE_VOTE plan)
  | _ => step_done plan
  end.

(** A committee node outside the instance's committee ignores the message. *)
Definition foreign_committee (instance_id : Uuid) : ST RoundNode bool :=
  if bool_decide (jd_actor deps = Committee) then
    member ← local_member instance_id; mret (negb (is_some member))
  else mret false.

(** ** Proposals *)

Definition message_identity_matches (message_instance_id message_graph_id : Uuid) (message_graph_nonce : Z)
    (graph_instance_id graph_graph_id : Uuid) (graph_nonce : Z) : bool :=
  bool_decide (message_instance_id = graph_instance_id) &&
  bool_decide (message_graph_id = graph_graph_id) && bool_decide (message_graph_nonce = graph_nonce).

Definition names_graph (instance_id graph_id : Uuid) (graph_nonce : Z) (graph : SimplifiedBitvmGcGraph) : bool :=
  let p := sg_parameters graph in
  message_identity_matches instance_id graph_id graph_nonce (bi_instance_id (bp_instance_parameters p))
    (bp_graph_id p) (bp_graph_nonce p).

Definition committee_ingest_graph (graph_id : Uuid) (params : bytes) : ST RoundNode (Step GraphPlan) :=
  decoded ← decode_inbound params;
  let '(inbound, message) := decoded in
  match gm_content message with
  | CreateGraph instance_id message_graph_id graph_nonce _ rest =>
      let graph := create_graph_fields rest in
      if negb (bool_decide (message_graph_id = graph_id)) ||
         negb (bool_decide (instance_id = im_instance_id inbound)) then
        invalid_job "CreateGraph identity mismatch"
      else if negb (names_graph instance_id graph_id graph_nonce graph) then
        invalid_job "CreateGraph envelope and graph parameters name different graphs"
      else
        member ← local_member instance_id;
        if negb (is_some member) then graph_ignore "not in this instance's committee"
        else
          validate_init_graph_base graph;;
          store_operator_presigned_graph graph;;
          endorsements ← get_verifier_graph_params_endorsements_for_graph graph_id;
          let operator := bp_operator_pubkey (sg_parameters graph) in
          let plan := default_graph_plan
            <| gpl_state := mkStateUpdate (Some instance_id) (Some operator) (Some graph_nonce) None |>
            <| gpl_wake_refs := [slot_ref operator graph_nonce] |> in
          step_done (then_if (length (bp_gc_data (sg_parameters graph)) <=? length endorsements)%nat
                       JOB_COMMITTEE_NONCES plan)
  | _ => invalid_job "not a CreateGraph message"
  end.

Definition ingest_verifier_endorsement (graph_id : Uuid) (params : bytes) : ST RoundNode (Step GraphPlan) :=
  decoded ← decode_inbound params;
  let '(inbound, message) := decoded in
  match gm_content message with
  | VerifierGraphParamsEndorsement instance_id message_graph_id rest =>
      let '(verifier_pubkey, verifier_index, params_hash, signature) := verifier_endorsement_fields rest in
      if negb (bool_decide (message_graph_id = graph_id)) ||
         negb (bool_decide (instance_id = im_instance_id inbound)) then
        invalid_job "VerifierGraphParamsEndorsement identity mismatch"
      else
        member ← local_member instance_id;
        if negb (is_some member) then graph_ignore "not in this instance's committee"
        else
          verifier_peer ← st_lift (author_peer inbound);
          known ← ask (λ k, Ok (registry_is_verifier k verifier_peer));
          registered ← (if known : bool then mret true
                        else ask (λ k, committee_mana_is_verifier k verifier_peer));
          if negb registered then
            graph_ignore ("sender " +:+ peer_to_string verifier_peer +:+ " is not a registered verifier")
          else
            found ← get_graph instance_id graph_id;
            match found with
            | None => step_retry "graph definition not stored yet" 30
            | Some graph =>
                hash ← st_lift (parameters_hash_of graph);
                let slots := bp_gc_data (sg_parameters graph) in
                if negb (bool_decide (params_hash = hash)) then
                  invalid_job ("canonical graph params hash mismatch from " +:+ verifier_pubkey)
                else if (length slots <=? verifier_index)%nat then
                  invalid_job ("verifier index " +:+ pretty verifier_index +:+ " out of range")
                else
                  slot ← st_lift (index slots verifier_index);
                  if negb (bool_decide (cd_verifier_pubkey slot = verifier_pubkey)) then
                    invalid_job ("verifier pubkey does not own slot " +:+ pretty verifier_index)
                  else
                    ok ← st_lift (verify_verifier_graph_params_endorsement verifier_pubkey graph signature);
                    if negb ok then
                      invalid_job ("invalid verifier endorsement signature from " +:+ verifier_pubkey)
                    else
                      store_verifier_graph_params_endorsement instance_id graph_id verifier_pubkey
                        verifier_index (peer_to_string verifier_peer) signature;;
                      endorsements ← get_verifier_graph_params_endorsements_for_graph graph_id;
                      step_done (then_if (length slots <=? length endorsements)%nat JOB_COMMITTEE_NONCES
                                   (instance_plan instance_id))
            end
  | _ => invalid_job "not a VerifierGraphParamsEndorsement message"
  end.

(** ** Nonces *)

Definition signing_message (instance_id graph_id : Uuid) (actor : Actor) (content : GOATMessageContent) :
    ST RoundNode GraphPlan :=
  message ← st_lift (planned graph_id PHASE_SIGNING actor content []);
  mret (graph_send message (instance_plan instance_id)).

Definition committee_nonces (graph_id : Uuid) : ST RoundNode (Step GraphPlan) :=
  instance ← graph_instance graph_id;
  match instance with
  | None => graph_ignore "graph not stored locally"
  | Some instance_id =>
      found ← get_graph instance_id graph_id;
      match found with
      | None => graph_ignore "graph definition missing"
      | Some graph =>
          verifier_endorsements ← get_verifier_graph_params_endorsements_for_graph graph_id;
          let slots := length (bp_gc_data (sg_parameters graph)) in
          if (length verifier_endorsements <? slots)%nat then
            graph_ignore ("waiting for verifier graph params endorsements (" +:+
              pretty (length verifier_endorsements) +:+ "/" +:+ pretty slots +:+ ")")
          else
            validate_init_graph graph verifier_endorsements;;
            closed ← gate_closed deps instance_id;
            match closed with
            | Some reason => graph_ignore ("signing gate closed: " +:+ reason)
            | None =>
                member ← local_member instance_id;
                match member with
                | None => graph_ignore "not in this instance's committee"
                | Some keypair =>
                    let local_pubkey := public_key keypair in
                    signed ← get_committee_partial_sigs_for_graph_member graph_id local_pubkey;
                    if is_some signed then graph_ignore "local committee partial signatures already exist"
                    else
                      full_graph ← st_lift (from_simplified graph);
                      st_lift get_bitvm_key;;
                      derived ← st_lift (nonces_for_graph_job_with_keypair full_graph keypair);
                      let '(pub_nonces, _, nonce_sigs) := derived in
                      store_committee_pub_nonces_for_graph instance_id graph_id local_pubkey pub_nonces;;
                      plan ← signing_message instance_id graph_id All (NonceGeneration instance_id graph_id
                               (graph_nonces_rest (local_pubkey, pub_nonces, nonce_sigs)));
                      committee ← committee_pubkeys instance_id;
                      nonces ← get_committee_pub_nonces_for_graph graph_id;
                      step_done (then_if (length committee <=? length nonces)%nat JOB_COMMITTEE_VOTE plan)
                end
            end
      end
  end.

Definition ingest_nonces (graph_id : Uuid) (params : bytes) : ST RoundNode (Step GraphPlan) :=
  decoded ← decode_inbound params;
  let '(inbound, message) := decoded in
  match gm_content message with
  | NonceGeneration instance_id message_graph_id rest =>
      let '(committee_pubkey, pub_nonces, nonce_sigs) := graph_nonces_fields rest in
      if negb (bool_decide (message_graph_id = graph_id)) ||
         negb (bool_decide (instance_id = im_instance_id inbound)) then
        invalid_job "NonceGeneration identity mismatch"
      else
        ensure_committee_sender inbound committee_pubkey;;
        foreign ← foreign_committee instance_id;
        if foreign : bool then graph_ignore "not in this instance's committee"
        else
          found ← get_graph instance_id graph_id;
          match found with
          | None => step_retry "graph definition not stored yet" 30
          | Some graph =>
              let watchtower_num := length (bp_watchtower_pubkeys (sg_parameters graph)) in
              let verifier_num := length (bp_gc_data (sg_parameters graph)) in
              valid ← st_lift (verify_nonce_signatures (xonly committee_pubkey) pub_nonces nonce_sigs
                                 watchtower_num verifier_num);
              if negb valid then
                invalid_job ("invalid pub_nonces or nonce_sigs from " +:+ committee_pubkey)
              else
                st_lift (invalid_graph (λ e, "invalid pub_nonces length: " +:+ e)
                  (validate_length pub_nonces watchtower_num verifier_num));;
                store_committee_pub_nonces_for_graph instance_id graph_id committee_pubkey pub_nonces;;
                after_committee_value instance_id graph_id graph
          end
  | _ => invalid_job "not a NonceGeneration message"
  end.

(** ** The transcript *)

Record GraphConsensus := mkGraphConsensus {
  gc_full_graph : BitvmGcGraph;
  gc_committee : list PublicKey;
  gc_pub_nonces : list CommitteePubNonces;
  gc_agg_nonces : CommitteeAggNonces;
  gc_consensus_hash : bytes;
}.

Definition graph_nonce_consensus (instance_id graph_id : Uuid) (graph : SimplifiedBitvmGcGraph) :
    ST RoundNode (option GraphConsensus) :=
  committee ← committee_pubkeys instance_id;
  pub_nonces_unchecked ← get_committee_pub_nonces_for_graph graph_id;
  if (length pub_nonces_unchecked <? length committee)%nat then mret None
  else
    full_graph ← st_lift (from_simplified graph);
    st_lift (for_each (λ _ '(pubkey, pub_nonces),
        map_err (λ e, "committee public nonces from " +:+ pubkey +:+ " have invalid length: " +:+ e)
          (validate_length pub_nonces (watchtower_num full_graph) (verifier_num full_graph)))
      tt pub_nonces_unchecked);;
    ordered ← st_lift (order_committee_values committee pub_nonces_unchecked "graph committee pub nonces");
    agg_nonces ← st_lift (nonces_aggregation ordered);
    hash ← st_lift (committee_nonce_consensus_hash full_graph committee ordered);
    mret (Some (mkGraphConsensus full_graph committee ordered agg_nonces hash)).

Definition check_graph_vote (graph_id : Uuid) (hash : bytes) (committee_pubkey : PublicKey)
    (vote : bytes * SchnorrSignature) : outcome unit :=
  if negb (bool_decide (vote.1 = hash)) then
    Err (InvalidGraph ("committee agg nonce consensus differs for graph " +:+ uuid_to_string graph_id +:+
         " and committee " +:+ committee_pubkey))
  else invalid_graph (λ e, "invalid agg nonce consensus signature for graph " +:+ uuid_to_string graph_id +:+
         " and committee " +:+ committee_pubkey +:+ ": " +:+ e)
         (verify_schnorr vote.2 hash (xonly committee_pubkey)).

Definition checked_graph_votes (graph_id : Uuid) (consensus : GraphConsensus) :
    ST RoundNode (option (list (bytes * SchnorrSignature))) :=
  votes ← get_committee_agg_nonce_consensus_for_graph graph_id;
  if (length votes <? length (gc_committee consensus))%nat then mret None
  else
    ordered ← st_lift (order_committee_values (gc_committee consensus) votes
                         "graph committee agg nonce consensus");
    st_lift (for_each (λ _ '(committee_pubkey, vote),
        check_graph_vote graph_id (gc_consensus_hash consensus) committee_pubkey vote)
      tt (zip (gc_committee consensus) ordered));;
    mret (Some ordered).

Definition graph_votes_complete (graph_id : Uuid) (consensus : GraphConsensus) : ST RoundNode bool :=
  votes ← checked_graph_votes graph_id consensus; mret (is_some votes).

Definition committee_vote (graph_id : Uuid) : ST RoundNode (Step GraphPlan) :=
  instance ← graph_instance graph_id;
  match instance with
  | None => graph_ignore "graph not stored locally"
  | Some instance_id =>
      found ← get_graph instance_id graph_id;
      match found with
      | None => graph_ignore "graph definition missing"
      | Some graph =>
          found ← graph_nonce_consensus instance_id graph_id graph;
          match found with
          | None => graph_ignore "waiting for committee public nonces"
          | Some consensus =>
              member ← local_member instance_id;
              match member with
              | None => graph_ignore "not in this instance's committee"
              | Some keypair =>
                  let local_pubkey := public_key keypair in
                  let hash := gc_consensus_hash consensus in
                  votes ← get_committee_agg_nonce_consensus_for_graph graph_id;
                  voted ← match find (λ v, bool_decide (v.1 = local_pubkey)) votes with
                          | Some (_, (stored_hash, signature)) =>
                              if bool_decide (stored_hash = hash) then mret (inl signature)
                              else invalid_job ("local committee agg nonce consensus differs for graph " +:+
                                                uuid_to_string graph_id)
                          | None =>
                              closed ← gate_closed deps instance_id;
                              match closed with
                              | Some reason => mret (inr ("signing gate closed: " +:+ reason)%string)
                              | None =>
                                  let signature := sign_schnorr keypair hash in
                                  store_committee_agg_nonce_consensus_for_graph instance_id graph_id
                                    local_pubkey hash signature;;
                                  mret (inl signature)
                              end
                          end;
                  match voted with
                  | inr note => graph_ignore note
                  | inl signature =>
                      plan ← signing_message instance_id graph_id Committee (AggNonceConsensus instance_id
                               graph_id (graph_vote_rest (local_pubkey, hash, signature)));
                      complete ← graph_votes_complete graph_id consensus;
                      step_done (then_if complete JOB_COMMITTEE_PRESIGN plan)
                  end
              end
          end
      end
  end.

Definition ingest_vote (graph_id : Uuid) (params : bytes) : ST RoundNode (Step GraphPlan) :=
  decoded ← decode_inbound params;
  let '(inbound, message) := decoded in
  match gm_content message with
  | AggNonceConsensus instance_id message_graph_id rest =>
      let '(committee_pubkey, received_hash, signature) := graph_vote_fields rest in
      if negb (bool_decide (message_graph_id = graph_id)) ||
         negb (bool_decide (instance_id = im_instance_id inbound)) then
        invalid_job "AggNonceConsensus identity mismatch"
      else
        ensure_committee_sender inbound committee_pubkey;;
        foreign ← foreign_committee instance_id;
        if foreign : bool then graph_ignore "not in this instance's committee"
        else
          found ← get_graph instance_id graph_id;
          match found with
          | None => step_retry "graph definition not stored yet" 30
          | Some graph =>
              found ← graph_nonce_consensus instance_id graph_id graph;
              match found with
              | None =>
                  step_retry "waiting for committee public nonces before validating agg nonce consensus" 30
              | Some consensus =>
                  let hash := gc_consensus_hash consensus in
                  if negb (bool_decide (received_hash = hash)) then
                    invalid_job ("consensus hash mismatch from " +:+ committee_pubkey)
                  else if negb (is_ok (verify_schnorr signature hash (xonly committee_pubkey))) then
                    invalid_job ("invalid consensus signature from " +:+ committee_pubkey)
                  else
                    store_committee_agg_nonce_consensus_for_graph instance_id graph_id committee_pubkey
                      received_hash signature;;
                    complete ← graph_votes_complete graph_id consensus;
                    step_done (then_if complete JOB_COMMITTEE_PRESIGN (instance_plan instance_id))
              end
          end
  | _ => invalid_job "not an AggNonceConsensus message"
  end.

(** ** Pre-signatures *)

(** The partial signatures of the whole graph, once its nonces are bound to the transcript. *)
Definition presign_authorized (graph_id : Uuid) (consensus : GraphConsensus) (keypair : Keypair)
    (held : RoundEvidence CommitteePubNonces)
    (endorsements : list (PublicKey * (nat * string * SchnorrSignature))) :
    ST RoundNode CommitteePartialSignatures :=
  st_lift get_bitvm_key;;
  derived ← st_lift (nonces_for_graph_job_with_keypair (gc_full_graph consensus) keypair);
  let '(pub_nonces, sec_nonces, _) := derived in
  let transcript := hex_encode (gc_consensus_hash consensus) in
  encoded ← st_lift (pub_nonces_bincode pub_nonces);
  let nonce := signing_nonce_id "graph-presign" encoded in
  acquire_local;;
  now ← clock_now;
  authorization ← authorize_signing "graph" (uuid_to_string graph_id) nonce transcript now;
  match authorization with
  | Conflict existing_digest =>
      invalid_job ("graph presign nonce already authorized for transcript " +:+ existing_digest +:+
                   ", refusing " +:+ transcript)
  | _ =>
      record_signing (GraphSigning (gc_full_graph consensus) keypair sec_nonces (gc_agg_nonces consensus)
                        held endorsements);;
      st_lift (committee_pre_sign keypair sec_nonces (gc_agg_nonces consensus) (gc_full_graph consensus))
  end.

Definition committee_presign (graph_id : Uuid) : ST RoundNode (Step GraphPlan) :=
  instance ← graph_instance graph_id;
  match instance with
  | None => graph_ignore "graph not stored locally"
  | Some instance_id =>
      found ← get_graph instance_id graph_id;
      match found with
      | None => graph_ignore "graph definition missing"
      | Some graph =>
          found ← graph_nonce_consensus instance_id graph_id graph;
          match found with
          | None => graph_ignore "waiting for committee public nonces"
          | Some consensus =>
              checked ← checked_graph_votes graph_id consensus;
              match checked with
              | None => graph_ignore "waiting for agg nonce consensus"
              | Some votes =>
                member ← local_member instance_id;
                match member with
                | None => graph_ignore "not in this instance's committee"
                | Some keypair =>
                    let local_pubkey := public_key keypair in
                    stored ← get_committee_partial_sigs_for_graph_member graph_id local_pubkey;
                    signed ← match stored with
                             | Some stored => mret (inl stored)
                             | None =>
                                 verifier_endorsements ←
                                   get_verifier_graph_params_endorsements_for_graph graph_id;
                                 validate_verifier_graph_params_endorsements graph verifier_endorsements;;
                                 gate ← read_gate deps instance_id;
                                 match gate.2 with
                                 | Some reason => mret (inr ("signing gate closed: " +:+ reason)%string)
                                 | None =>
                                     partial_sigs ← presign_authorized graph_id consensus keypair
                                       (mkEvidence (gc_committee consensus) (gc_pub_nonces consensus) votes
                                          gate.1.1 gate.1.2) verifier_endorsements;
                                     store_committee_partial_sigs_for_graph instance_id graph_id local_pubkey
                                       partial_sigs;;
                                     mret (inl partial_sigs)
                                 end
                             end;
                    match signed with
                    | inr note => graph_ignore note
                    | inl partial_sigs =>
                        plan ← signing_message instance_id graph_id All (CommitteePresign instance_id graph_id
                                 (presign_rest (local_pubkey, partial_sigs, gc_agg_nonces consensus)));
                        partials ← get_committee_partial_sigs_for_graph graph_id;
                        step_done (then_if (length (gc_committee consensus) <=? length partials)%nat
                                     JOB_COMMITTEE_ENDORSE plan)
                    end
                end
              end
          end
      end
  end.

Definition ingest_presign (graph_id : Uuid) (params : bytes) : ST RoundNode (Step GraphPlan) :=
  decoded ← decode_inbound params;
  let '(inbound, message) := decoded in
  match gm_content message with
  | CommitteePresign instance_id message_graph_id rest =>
      let '(committee_pubkey, committee_partial_sigs, received_agg_nonces) := presign_fields rest in
      if negb (bool_decide (message_graph_id = graph_id)) ||
         negb (bool_decide (instance_id = im_instance_id inbound)) then
        invalid_job "CommitteePresign identity mismatch"
      else
        ensure_committee_sender inbound committee_pubkey;;
        foreign ← foreign_committee instance_id;
        if foreign : bool then graph_ignore "not in this instance's committee"
        else
          found ← get_graph instance_id graph_id;
          match found with
          | None => step_retry "graph definition not stored yet" 30
          | Some graph =>
              found ← graph_nonce_consensus instance_id graph_id graph;
              match found with
              | None => step_retry "waiting for committee public nonces" 30
              | Some consensus =>
                  let committee := gc_committee consensus in
                  match list_find (λ pubkey, pubkey = committee_pubkey) committee with
                  | None => invalid_job ("missing signer pub nonces for " +:+ committee_pubkey)
                  | Some (i, _) =>
                      received_pub_nonces ← st_lift (index (gc_pub_nonces consensus) i);
                      if negb (bool_decide (gc_agg_nonces consensus = received_agg_nonces)) then
                        invalid_job ("agg_nonces mismatch from " +:+ committee_pubkey)
                      else
                        match verify_graph_committee_partial_sigs committee committee_pubkey
                                (gc_full_graph consensus) received_pub_nonces (gc_agg_nonces consensus)
                                committee_partial_sigs with
                        | Err e => invalid_job ("invalid partial signatures from " +:+ committee_pubkey +:+
                                                ": " +:+ default ""%string (head e))
                        | Ok _ =>
                            store_committee_partial_sigs_for_graph instance_id graph_id committee_pubkey
                              committee_partial_sigs;;
                            if bool_decide (jd_actor deps = Committee) then
                              partials ← get_committee_partial_sigs_for_graph graph_id;
                              step_done (then_if (length committee <=? length partials)%nat
                                           JOB_COMMITTEE_ENDORSE (instance_plan instance_id))
                            else after_committee_value instance_id graph_id graph
                        end
                  end
              end
          end
  | _ => invalid_job "not a CommitteePresign message"
  end.

(** ** Endorsements *)

Definition committee_endorse (graph_id : Uuid) : ST RoundNode (Step GraphPlan) :=
  instance ← graph_instance graph_id;
  match instance with
  | None => graph_ignore "graph not stored locally"
  | Some instance_id =>
      found ← get_graph instance_id graph_id;
      match found with
      | None => graph_ignore "graph definition missing"
      | Some graph =>
          committee ← committee_pubkeys instance_id;
          partials ← get_committee_partial_sigs_for_graph graph_id;
          if negb (length partials =? length committee)%nat then
            graph_ignore "waiting for committee partial signatures"
          else
            closed ← gate_closed deps instance_id;
            match closed with
            | Some reason => graph_ignore ("signing gate closed: " +:+ reason)
            | None =>
                full_graph ← st_lift (from_simplified graph);
                committee_sig_for_graph ← endorse_graph full_graph;
                committee_sig_for_params ← endorse_graph_params full_graph;
                member ← local_member instance_id;
                match member with
                | None => graph_ignore "not in this instance's committee"
                | Some keypair =>
                    evm_address ← st_lift (expect get_node_goat_address "failed to get node goat address");
                    plan ← signing_message instance_id graph_id All (EndorseGraph instance_id graph_id
                             (endorse_rest (public_key keypair, committee_sig_for_graph,
                                            committee_sig_for_params, evm_address)));
                    step_done plan
                end
            end
      end
  end.

(** The address the message names belongs on Goat to the key and to the peer that sent it. *)
Fixpoint bound_address (peer_id : bytes) (committee_pubkey : PublicKey) (evm_address : string)
    (pubkeys : list bytes) (addresses : list string) (i : nat) : ST RoundNode unit :=
  match pubkeys with
  | [] => st_fail (InvalidCommittee "committee evm address not found in instance's committee addresses")
  | pk :: pubkeys =>
      pk ← st_lift (pubkey_from_slice pk);
      addr ← st_lift (index addresses i);
      if bool_decide (addr = evm_address) then
        if negb (bool_decide (pk = committee_pubkey)) then
          st_fail (InvalidCommittee "committee evm address & pubkey mismatch")
        else
          stored_peer_id ← ask (λ k, committee_mana_get_committee_peer_id k addr);
          if bool_decide (stored_peer_id = peer_id) then mret tt
          else st_fail (InvalidCommittee "committee evm address & peer id mismatch")
      else bound_address peer_id committee_pubkey evm_address pubkeys addresses (S i)
  end.

Definition validate_committee_with_evm_address (peer_id : bytes) (instance_id : Uuid)
    (committee_pubkey : PublicKey) (evm_address : string) : ST RoundNode unit :=
  pegin_data ← ask (λ k, gateway_get_pegin_data k instance_id);
  bound_address peer_id committee_pubkey evm_address (pn_committee_pubkeys pegin_data)
    (pn_committee_addresses pegin_data) 0.

Definition ingest_endorsement (graph_id : Uuid) (params : bytes) : ST RoundNode (Step GraphPlan) :=
  decoded ← decode_inbound params;
  let '(inbound, message) := decoded in
  match gm_content message with
  | EndorseGraph instance_id message_graph_id rest =>
      let '(committee_pubkey, sig_for_graph, sig_for_params, evm_address) := endorse_fields rest in
      if negb (bool_decide (message_graph_id = graph_id)) ||
         negb (bool_decide (instance_id = im_instance_id inbound)) then
        invalid_job "EndorseGraph identity mismatch"
      else
        peer ← st_lift (author_peer inbound);
        validate_committee_with_evm_address peer instance_id committee_pubkey evm_address;;
        found ← get_graph instance_id graph_id;
        match found with
        | None => graph_ignore "graph not found, maybe belongs to another operator"
        | Some graph =>
            full_graph ← st_lift (from_simplified graph);
            verified ← st_try (verify_graph_endorsement evm_address full_graph sig_for_graph);
            match verified with
            | Err error => invalid_job ("invalid endorsement signature from " +:+ committee_pubkey +:+ ": " +:+
                                        default ""%string (head error))
            | Ok _ =>
                match verify_graph_params_endorsement evm_address full_graph sig_for_params with
                | Ok true =>
                    store_committee_endorsement_for_graph instance_id graph_id committee_pubkey evm_address
                      sig_for_graph sig_for_params;;
                    after_committee_value instance_id graph_id graph
                | Ok false =>
                    invalid_job ("invalid params endorsement signature from " +:+ committee_pubkey)
                | Err error =>
                    invalid_job ("invalid params endorsement signature from " +:+ committee_pubkey +:+ ": " +:+
                                 default ""%string (head error))
                end
            end
        end
  | _ => invalid_job "not an EndorseGraph message"
  end.

(** ** Finalized graphs *)

Definition count_of (have total : nat) : string := pretty have +:+ "/" +:+ pretty total.

(** The committee's signatures in the graph, combined from the members' values unless they are
    already there. *)
Definition push_collected (committee : list PublicKey) (pub_nonces : list (PublicKey * CommitteePubNonces))
    (partial_sigs : list (PublicKey * CommitteePartialSignatures)) (graph : BitvmGcGraph) :
    outcome BitvmGcGraph :=
  if bg_committee_pre_signed graph then Ok graph
  else
    pub_nonces ← order_committee_values committee pub_nonces "graph committee pub nonces";
    agg_nonces ← nonces_aggregation pub_nonces;
    partial_sigs ← order_committee_values committee partial_sigs "graph committee partial sigs";
    signatures ← signature_aggregation partial_sigs agg_nonces graph;
    push_committee_pre_signatures graph signatures.

Definition finalize_graph (graph_id : Uuid) : ST RoundNode (Step GraphPlan) :=
  acquire_local;;
  row ← on_rows (find_graph graph_id);
  match row with
  | None => graph_ignore "graph not stored locally"
  | Some row =>
      if retired (graph_status_of (gr_status row)) then graph_ignore ("graph is " +:+ gr_status row)
      else
        let instance_id := gr_instance_id row in
        let both := uuid_to_string instance_id +:+ ":" +:+ uuid_to_string graph_id in
        endorsements ← get_committee_endorsements_for_graph graph_id;
        params_endorsements ← get_committee_params_endorsements_for_graph graph_id;
        pub_nonces ← get_committee_pub_nonces_for_graph graph_id;
        partial_sigs ← get_committee_partial_sigs_for_graph graph_id;
        committee ← committee_pubkeys instance_id;
        let n := length committee in
        if negb (length endorsements =? n)%nat || negb (length params_endorsements =? n)%nat ||
           negb (length pub_nonces =? n)%nat || negb (length partial_sigs =? n)%nat then
          graph_ignore ("collections incomplete: endorsements " +:+ count_of (length endorsements) n +:+
            " params " +:+ count_of (length params_endorsements) n +:+ " nonces " +:+
            count_of (length pub_nonces) n +:+ " partials " +:+ count_of (length partial_sigs) n)
        else
          stored ← get_graph instance_id graph_id;
          stored ← st_lift (expect stored ("Graph not found for " +:+ both));
          graph ← st_lift (from_simplified stored);
          if negb (bool_decide (bi_instance_id (bp_instance_parameters (bg_parameters graph)) = instance_id)) ||
             negb (bool_decide (bp_graph_id (bg_parameters graph) = graph_id)) then
            st_fail ["refuse to finalize graph " +:+ both +:+ " with mismatched graph parameters"]
          else
            graph ← st_lift (push_collected committee pub_nonces partial_sigs graph);
            simplified_graph ← st_lift (to_simplified graph);
            store_finalized_graph_if_needed simplified_graph;;
            mark_graph_as_endorsed instance_id graph_id;;
            let graph_nonce := bp_graph_nonce (bg_parameters graph) in
            let operator_pubkey := bp_operator_pubkey (bg_parameters graph) in
            try_refresh_graph instance_id graph_id graph;;
            ack_peers ← ask (λ k, Ok (committee_ack_peers k));
            verifiers ← ask (λ k, selected_verifier_peers k instance_id graph_id);
            let triple := λ '(pk, (address, signature)), (pk, address, signature) in
            message ← st_lift (planned graph_id PHASE_DELIVER All
              (GraphFinalize instance_id graph_id graph_nonce operator_pubkey
                 (finalize_rest (triple <$> endorsements, triple <$> params_endorsements, simplified_graph)))
              (ack_peers ++ verifiers));
            step_done (graph_send message default_graph_plan
              <| gpl_notify_instance_endorsed := true |>
              <| gpl_wake_refs := [slot_ref operator_pubkey graph_nonce] |>
              <| gpl_state := mkStateUpdate (Some instance_id) (Some operator_pubkey) (Some graph_nonce)
                                (Some true) |>)
  end.

Definition ingest_finalized (graph_id : Uuid) (params : bytes) : ST RoundNode (Step GraphPlan) :=
  decoded ← decode_inbound params;
  let '(inbound, message) := decoded in
  match gm_content message with
  | GraphFinalize instance_id message_graph_id graph_nonce _ rest =>
      let '(endorse_sigs, params_endorse_sigs, graph) := finalize_fields rest in
      if negb (bool_decide (message_graph_id = graph_id)) ||
         negb (bool_decide (instance_id = im_instance_id inbound)) then
        invalid_job "GraphFinalize identity mismatch"
      else if negb (names_graph instance_id graph_id graph_nonce graph) then
        invalid_job "GraphFinalize envelope and graph parameters name different graphs"
      else
        validate_finalized_graph graph endorse_sigs params_endorse_sigs;;
        store_finalized_graph_if_needed graph;;
        store_committee_endorsements_for_graph instance_id graph_id endorse_sigs params_endorse_sigs;;
        mark_graph_as_endorsed instance_id graph_id;;
        full_graph ← st_lift (from_simplified graph);
        try_refresh_graph instance_id graph_id full_graph;;
        let operator_pubkey := bp_operator_pubkey (sg_parameters graph) in
        let plan := default_graph_plan
          <| gpl_notify_instance_endorsed := true |>
          <| gpl_wake_refs := [slot_ref operator_pubkey graph_nonce] |>
          <| gpl_state := mkStateUpdate (Some instance_id) (Some operator_pubkey) (Some graph_nonce)
                            (Some true) |> in
        step_done (then_if (jd_relayer deps) JOB_POST_GRAPH_DATA plan)
  | _ => invalid_job "not a GraphFinalize message"
  end.

Definition post_graph_data (graph_id : Uuid) : ST RoundNode (Step GraphPlan) :=
  if negb (jd_relayer deps) then graph_ignore "not a relayer"
  else
    instance ← graph_instance graph_id;
    match instance with
    | None => graph_ignore "graph not stored locally"
    | Some instance_id =>
        status ← instance_status instance_id;
        if match status with Some s => is_failed s | None => false end then
          graph_ignore "instance failed; graph not posted"
        else
          graph_data ← ask (λ k, gateway_get_graph_data k graph_id);
          if negb (bool_decide (ga_operator_pubkey graph_data = zero_key)) then
            graph_ignore "graph data already posted"
          else
            pegin_data ← ask (λ k, gateway_get_pegin_data k instance_id);
            if negb (bool_decide (pn_status pegin_data = PeginWithdrawable)) then
              step_retry ("pegin data is " +:+ pegin_status_str (pn_status pegin_data) +:+
                          "; not withdrawable yet") (estimated_block_interval_secs get_network)
            else
              committee ← committee_pubkeys instance_id;
              endorsements ← get_committee_endorsements_for_graph graph_id;
              let endorsement_sigs := (λ e, e.2.2) <$> endorsements in
              if negb (length endorsement_sigs =? length committee)%nat then
                step_retry (pretty (length endorsement_sigs) +:+ " of " +:+ pretty (length committee) +:+
                            " committee endorsements for the graph") 60
              else
                found ← get_graph instance_id graph_id;
                graph ← st_lift (expect found ("Graph not found for " +:+ uuid_to_string instance_id +:+ ":" +:+
                                               uuid_to_string graph_id));
                graph ← st_lift (from_simplified graph);
                data ← st_lift (build_graph_data graph);
                ask (λ k, gateway_post_graph_data k instance_id graph_id data endorsement_sigs);;
                step_done default_graph_plan
    end.

(** ** Dispatch: the round's part of [run_step]. *)

Definition run_round_step (action : string) (graph_id : Uuid) (params : bytes) :
    option (ST RoundNode (Step GraphPlan)) :=
  if bool_decide (action = JOB_COMMITTEE_INGEST_GRAPH) then Some (committee_ingest_graph graph_id params)
  else if bool_decide (action = JOB_INGEST_VERIFIER_ENDORSEMENT) then
    Some (ingest_verifier_endorsement graph_id params)
  else if bool_decide (action = JOB_COMMITTEE_NONCES) then Some (committee_nonces graph_id)
  else if bool_decide (action = JOB_INGEST_NONCES) then Some (ingest_nonces graph_id params)
  else if bool_decide (action = JOB_COMMITTEE_VOTE) then Some (committee_vote graph_id)
  else if bool_decide (action = JOB_INGEST_VOTE) then Some (ingest_vote graph_id params)
  else if bool_decide (action = JOB_COMMITTEE_PRESIGN) then Some (committee_presign graph_id)
  else if bool_decide (action = JOB_INGEST_PRESIGN) then Some (ingest_presign graph_id params)
  else if bool_decide (action = JOB_COMMITTEE_ENDORSE) then Some (committee_endorse graph_id)
  else if bool_decide (action = JOB_INGEST_ENDORSEMENT) then Some (ingest_endorsement graph_id params)
  else if bool_decide (action = JOB_FINALIZE_GRAPH) then Some (finalize_graph graph_id)
  else if bool_decide (action = JOB_INGEST_FINALIZED) then Some (ingest_finalized graph_id params)
  else if bool_decide (action = JOB_POST_GRAPH_DATA) then Some (post_graph_data graph_id)
  else None.

Definition UNKNOWN_FAILURE_RETRIES : Z := 20.

(** [GraphJobRunner::run] of a round's job: an unrecognised failure is given up on. *)
Definition run_graph_job (step : ST RoundNode (Step GraphPlan)) (attempts : Z) : ST RoundNode JobOutcome :=
  stepped ← st_try step;
  mret (match stepped with
        | Ok (PlanStep plan) => plan_outcome (graph_plan_encode plan)
        | Ok (Retry reason after_secs) => OutcomeTransient reason (Some after_secs)
        | Err error =>
            match classify_failure error with
            | Permanent reason => plan_outcome (graph_plan_encode (graph_noted ("rejected: " +:+ reason)))
            | Transient => OutcomeTransient (full_text error) None
            | Unknown =>
                if UNKNOWN_FAILURE_RETRIES <=? attempts
                then OutcomeFailed ("gave up after " +:+ pretty attempts +:+ " attempts: " +:+ full_text error)
                else OutcomeTransient (full_text error) None
            end
        end).

End GraphJobs.
