(* ===== verification/RoundNext.v ===== *)
(** * What the jobs leave alone

    Every job of an instance or of a graph, run between arbitrary steps of the other tasks, keeps
    any relation that the other tasks keep and that only looks at the signing authorizations and the
    signing calls - except where it signs.  The two signing steps are left as premises. *)

From stdpp Require Import base list strings pretty gmap.
From S2P Require Import Prelude Table Storage EngineSchema EngineEffects Executor NodeSchema LocalDb.
From S2P Require Import NodeApply InstanceAggregate GraphAggregate Admission Timelocks Committee.
From S2P Require Import RoundStore KeyEnvelope GraphDefs PeginRound GraphValidate GraphChainState.
From S2P Require Import GraphRound.

Local Open Scope Z_scope.

(** The parts of the node the relation looks at. *)
Definition same_signer (s s' : RoundNode) : Prop :=
  rn_authorizations s' = rn_authorizations s ∧ rn_signed s' = rn_signed s.

Class RoundRel `{Others} (Rel : RoundNode → RoundNode → Prop) : Prop := {
  rr_preorder :: PreOrder Rel;
  rr_others k s : Rel s (others k s);
  rr_frame s s' : same_signer s s' → Rel s s';
}.

Section Frame.
Context `{Others} (Rel : RoundNode → RoundNode → Prop) `{!RoundRel Rel}.

Lemma interfered s : Rel s ((others (rn_asked s) s) <| rn_asked := S (rn_asked s) |>).
Proof. etrans; [apply rr_others|]. by apply rr_frame. Qed.

Lemma guarantee_frame {A} (m : ST RoundNode A) : guarantee same_signer m → guarantee Rel m.
Proof. intros Hm s e. apply rr_frame, Hm. Qed.

Lemma guarantee_interfere : guarantee Rel interfere.
Proof. intros s e. apply interfered. Qed.

Lemma guarantee_ask {A} (answer : nat → outcome A) : guarantee Rel (ask answer).
Proof. intros s e. apply interfered. Qed.

Lemma guarantee_acquire : guarantee Rel acquire_local.
Proof.
  apply guarantee_bind; [apply _|apply guarantee_interfere|intros _].
  apply guarantee_stmt; [apply _|]. by intros s; cbn.
Qed.

Lemma guarantee_on_rows {A} (m : ST NodeTables A) : guarantee Rel (on_rows m).
Proof.
  apply guarantee_bind; [apply _|apply guarantee_interfere|intros _ s e].
  unfold focus. destruct (m (rn_tables s) e) as [[o t] e']. by apply rr_frame.
Qed.

Lemma guarantee_in_context {A} c (m : ST RoundNode A) : guarantee Rel m → guarantee Rel (in_context c m).
Proof.
  intros Hm s e. specialize (Hm s e). unfold in_context, final in *. by destruct (m s e) as [[[] ?] ?].
Qed.

Lemma guarantee_io {A} (f : RoundNode → outcome A * RoundNode) :
  (∀ s, same_signer s (f s).2) → guarantee Rel (io f).
Proof.
  intros Hf. apply guarantee_frame. intros s e. unfold io.
  destruct (next_fault e) as [[] e']; [done|]. specialize (Hf s). by destruct (f s).
Qed.

Lemma guarantee_exists_file id : guarantee Rel (exists_file id).
Proof. apply guarantee_frame. intros s e. unfold exists_file. by destruct (next_fault e) as [[] e']. Qed.

Lemma guarantee_read_file id : guarantee Rel (read_file id).
Proof. by apply guarantee_io. Qed.
Lemma guarantee_write_file id content : guarantee Rel (write_file id content).
Proof. by apply guarantee_io. Qed.
Lemma guarantee_remove_file id : guarantee Rel (remove_file id).
Proof. apply guarantee_io. intros s. by destruct (rn_envelopes s !! id). Qed.
Lemma guarantee_no_io : guarantee Rel (io (λ s, (Ok tt, s))).
Proof. by apply guarantee_io. Qed.

End Frame.

#[export] Hint Resolve guarantee_interfere guarantee_ask guarantee_acquire guarantee_on_rows
  guarantee_exists_file guarantee_read_file guarantee_write_file guarantee_remove_file guarantee_no_io : guar.

(** [guar], through the wrappers of the jobs. *)
Ltac round_step :=
  match goal with
  | |- guarantee _ (st_try _) => apply guarantee_try
  | |- guarantee _ (in_context _ _) => apply guarantee_in_context
  | |- _ => guar_step
  end.
Ltac round := repeat round_step.

Section Material.
Context `{UuidText} `{RoundCodec} `{ParametersCodec} `{Others} `{Sha256} `{Musig2} `{RoundJson}.
Context (Rel : RoundNode → RoundNode → Prop) `{!RoundRel Rel}.

Lemma next_upsert_graph g i b m : guarantee Rel (upsert_graph_process_data g i b m).
Proof. unfold upsert_graph_process_data. round. Qed.
Lemma next_find_graph_process g : guarantee Rel (find_pegin_graph_process_data g).
Proof. unfold find_pegin_graph_process_data. round. Qed.
Lemma next_find_instance_process i : guarantee Rel (find_pegin_instance_process_data i).
Proof.
  intros s e. pose proof (guarantee_on_rows Rel (find_instance_process_row i) s e) as Hm.
  unfold find_pegin_instance_process_data, final in *.
  by destruct (on_rows _ s e) as [[[[]|] ?] ?].
Qed.
Lemma next_upsert_instance i m : guarantee Rel (upsert_instance_process_data i m).
Proof. unfold upsert_instance_process_data. round. Qed.

Hint Resolve next_upsert_graph next_find_graph_process next_find_instance_process next_upsert_instance : guar.

Lemma next_collect_graph {T} g (get : GraphProcessDataItem → option T) : guarantee Rel (collect_graph g get).
Proof. unfold collect_graph. round. Qed.
Lemma next_store_graph_item i g k f b m : guarantee Rel (store_graph_item i g k f b m).
Proof. unfold store_graph_item. round. Qed.
Lemma next_collect_instance {T} i (get : InstanceProcessDataItem → option T) :
  guarantee Rel (collect_instance i get).
Proof. unfold collect_instance. round. Qed.
Lemma next_member_instance {T} i (get : InstanceProcessDataItem → option T) k :
  guarantee Rel (member_instance i get k).
Proof. unfold member_instance. round. Qed.
Lemma next_store_instance_item i k f m : guarantee Rel (store_instance_item i k f m).
Proof. unfold store_instance_item. round. Qed.

Hint Resolve next_collect_graph next_store_graph_item next_collect_instance next_member_instance
  next_store_instance_item : guar.

Lemma next_store_pub_nonces i g k v : guarantee Rel (store_committee_pub_nonces_for_graph i g k v).
Proof. unfold store_committee_pub_nonces_for_graph. round. Qed.
Lemma next_store_graph_vote i g k h v : guarantee Rel (store_committee_agg_nonce_consensus_for_graph i g k h v).
Proof. unfold store_committee_agg_nonce_consensus_for_graph. round. Qed.
Lemma next_store_partial_sigs i g k v : guarantee Rel (store_committee_partial_sigs_for_graph i g k v).
Proof. unfold store_committee_partial_sigs_for_graph. round. Qed.
Lemma next_partial_sigs_member g k : guarantee Rel (get_committee_partial_sigs_for_graph_member g k).
Proof. unfold get_committee_partial_sigs_for_graph_member. round. Qed.
Lemma next_store_endorsement i g k a s p : guarantee Rel (store_committee_endorsement_for_graph i g k a s p).
Proof. unfold store_committee_endorsement_for_graph. round. Qed.
Lemma next_store_endorsements i g s p : guarantee Rel (store_committee_endorsements_for_graph i g s p).
Proof. unfold store_committee_endorsements_for_graph. round. Qed.
Lemma next_store_verifier i g k n p s : guarantee Rel (store_verifier_graph_params_endorsement i g k n p s).
Proof. unfold store_verifier_graph_params_endorsement. round. Qed.
Lemma next_mark i g : guarantee Rel (mark_graph_as_endorsed i g).
Proof. unfold mark_graph_as_endorsed. round. Qed.
Lemma next_enough i : guarantee Rel (has_required_presigned_graphs i).
Proof. unfold has_required_presigned_graphs, get_endorsed_graph_count. round. Qed.
Lemma next_store_pub_nonce i k v : guarantee Rel (store_committee_pub_nonce_for_instance i k v).
Proof. unfold store_committee_pub_nonce_for_instance. round. Qed.
Lemma next_store_vote i k h v : guarantee Rel (store_committee_agg_nonce_consensus_for_instance i k h v).
Proof. unfold store_committee_agg_nonce_consensus_for_instance. round. Qed.
Lemma next_store_partial i k v : guarantee Rel (store_committee_partial_sig_for_instance i k v).
Proof. unfold store_committee_partial_sig_for_instance. round. Qed.
Lemma next_store_endorse i k v : guarantee Rel (store_committee_endorse_sig_for_pegin i k v).
Proof. unfold store_committee_endorse_sig_for_pegin. round. Qed.
Lemma next_store_parameters p : guarantee Rel (store_instance_parameters p).
Proof. unfold store_instance_parameters. round. Qed.
Lemma next_get_parameters i : guarantee Rel (get_instance_parameters i).
Proof. unfold get_instance_parameters. round. Qed.

End Material.

#[export] Hint Resolve next_collect_graph next_store_graph_item next_collect_instance next_member_instance
  next_store_instance_item next_store_pub_nonces next_store_graph_vote next_store_partial_sigs
  next_partial_sigs_member next_store_endorsement next_store_endorsements next_store_verifier next_mark
  next_enough next_store_pub_nonce next_store_vote next_store_partial next_store_endorse
  next_store_parameters next_get_parameters : guar.

Section Jobs.
Context `{UuidText} `{RoundCodec} `{ParametersCodec} `{Others} `{Sha256} `{Musig2} `{RoundJson}.
Context `{Taproot} `{Goat} `{GraphBuilder} `{Sealing} `{Outside} `{RoundMessages}.
Context `{InboundCodec} `{MessageCodec} `{Failures} `{PlanCodec} `{Registries} `{ChainReads} `{GraphMessages}.
Context (deps : JobDeps) (Rel : RoundNode → RoundNode → Prop) `{!RoundRel Rel}.

(** ** Reads of the round *)

Lemma next_graph_nonces g : guarantee Rel (get_committee_pub_nonces_for_graph g).
Proof. unfold get_committee_pub_nonces_for_graph. round. Qed.
Lemma next_graph_votes g : guarantee Rel (get_committee_agg_nonce_consensus_for_graph g).
Proof. unfold get_committee_agg_nonce_consensus_for_graph. round. Qed.
Lemma next_graph_partials g : guarantee Rel (get_committee_partial_sigs_for_graph g).
Proof. unfold get_committee_partial_sigs_for_graph. round. Qed.
Lemma next_graph_endorsements g : guarantee Rel (get_committee_endorsements_for_graph g).
Proof. unfold get_committee_endorsements_for_graph. round. Qed.
Lemma next_graph_params_endorsements g : guarantee Rel (get_committee_params_endorsements_for_graph g).
Proof. unfold get_committee_params_endorsements_for_graph. round. Qed.
Lemma next_verifier_endorsements g : guarantee Rel (get_verifier_graph_params_endorsements_for_graph g).
Proof. unfold get_verifier_graph_params_endorsements_for_graph. round. Qed.
Lemma next_pegin_nonce i k : guarantee Rel (get_committee_pub_nonce_for_instance i k).
Proof. unfold get_committee_pub_nonce_for_instance. round. Qed.
Lemma next_pegin_nonces i : guarantee Rel (get_committee_pub_nonces_for_instance i).
Proof. unfold get_committee_pub_nonces_for_instance. round. Qed.
Lemma next_pegin_votes i : guarantee Rel (get_committee_agg_nonce_consensus_for_instance i).
Proof. unfold get_committee_agg_nonce_consensus_for_instance. round. Qed.
Lemma next_pegin_partials i : guarantee Rel (get_committee_partial_sigs_for_instance i).
Proof. unfold get_committee_partial_sigs_for_instance. round. Qed.
Lemma next_pegin_partial i k : guarantee Rel (get_committee_partial_sig_for_instance i k).
Proof. unfold get_committee_partial_sig_for_instance. round. Qed.
Lemma next_pegin_endorsements i : guarantee Rel (get_committee_endorse_sigs_for_pegin i).
Proof. unfold get_committee_endorse_sigs_for_pegin. round. Qed.

Hint Resolve next_graph_nonces next_graph_votes next_graph_partials next_graph_endorsements
  next_graph_params_endorsements next_verifier_endorsements next_pegin_nonce next_pegin_nonces
  next_pegin_votes next_pegin_partials next_pegin_partial next_pegin_endorsements : guar.

(** ** Keys *)

Lemma next_load_keypair mk i : guarantee Rel (load_instance_keypair mk i).
Proof. unfold load_instance_keypair. round. Qed.
Lemma next_create_envelope mk i : guarantee Rel (create_instance_keypair_envelope mk i).
Proof. unfold create_instance_keypair_envelope. round. Qed.
Lemma next_delete_envelope i : guarantee Rel (delete_instance_keypair_envelope i).
Proof. unfold delete_instance_keypair_envelope. round. Qed.

Hint Resolve next_load_keypair next_create_envelope next_delete_envelope : guar.

Lemma next_load_or_create mk i : guarantee Rel (load_or_create_committee_instance_keypair mk i).
Proof.
  intros s e. pose proof (next_load_keypair mk i s e) as Hm.
  unfold load_or_create_committee_instance_keypair, final in *.
  destruct (load_instance_keypair mk i s e) as [[[a|x] s'] e']; [done|]. destruct (negb _); [done|].
  etrans; [exact Hm|]. match goal with |- Rel _ (?m s' e').1.2 => cut (guarantee Rel m); [by intros G; apply G|] end.
  round.
Qed.

Lemma next_membership_of_key committee i mk : guarantee Rel (membership_of_key committee i mk).
Proof.
  intros s e. pose proof (next_load_keypair mk i s e) as Hm.
  unfold membership_of_key, in_context, final in *.
  destruct (load_instance_keypair mk i s e) as [[[a|x] s'] e']; [|by destruct (is_io_not_found_error _)].
  etrans; [exact Hm|]. match goal with |- Rel _ (?m s' e').1.2 => cut (guarantee Rel m); [by intros G; apply G|] end.
  round.
Qed.
Hint Resolve next_membership_of_key : guar.

Lemma next_membership key committee i : guarantee Rel (local_committee_membership key committee i).
Proof. unfold local_committee_membership. round. Qed.

Hint Resolve next_load_or_create next_membership : guar.

(** ** Lookups *)

Lemma next_decode_inbound params : guarantee Rel (decode_inbound params).
Proof. unfold decode_inbound. round. Qed.
Lemma next_instance_status i : guarantee Rel (instance_status i).
Proof. unfold instance_status. round. Qed.
Lemma next_local_member i : guarantee Rel (local_member i).
Proof. unfold local_member. round. Qed.
Lemma next_committee_pubkeys i : guarantee Rel (committee_pubkeys i).
Proof. unfold committee_pubkeys. round. Qed.
Lemma next_read_gate i : guarantee Rel (read_gate deps i).
Proof. unfold read_gate. round. Qed.
Hint Resolve next_read_gate : guar.
Lemma next_gate_closed i : guarantee Rel (gate_closed deps i).
Proof. unfold gate_closed. round. Qed.
Lemma next_bound_peer refused peer k pks addrs n :
  (∀ detail, guarantee Rel (refused detail)) → guarantee Rel (bound_peer refused peer k pks addrs n).
Proof. intros Hr. revert n. induction pks; intros n; cbn [bound_peer]; round. Qed.
Lemma next_validate_committee peer i k : guarantee Rel (validate_committee peer i k).
Proof. unfold validate_committee. round. apply next_bound_peer. round. Qed.
Lemma next_ensure_sender inbound k : guarantee Rel (ensure_committee_sender inbound k).
Proof. unfold ensure_committee_sender. pose proof next_validate_committee. round. Qed.
Lemma next_endorse_pegin i t : guarantee Rel (endorse_pegin i t).
Proof. unfold endorse_pegin. round. Qed.
Lemma next_verify_pegin i k t v : guarantee Rel (verify_pegin_endorsement i k t v).
Proof. unfold verify_pegin_endorsement. round. Qed.
Lemma next_inputs_available l : guarantee Rel (inputs_available l).
Proof. induction l; cbn [inputs_available]; [round|]. unfold outpoint_available. round. Qed.
Lemma next_pegin_request i : guarantee Rel (read_pegin_request i).
Proof. unfold read_pegin_request. pose proof next_inputs_available. round. Qed.
Lemma next_instance_info i : guarantee Rel (read_instance_info_from_goat i).
Proof. unfold read_instance_info_from_goat. round. Qed.
Lemma next_tx_visible t : guarantee Rel (tx_visible t).
Proof. unfold tx_visible. round. Qed.
Lemma next_start_blocked i : guarantee Rel (graph_start_blocked i).
Proof. unfold graph_start_blocked. round. Qed.
Lemma next_required_parameters i : guarantee Rel (required_parameters i).
Proof. unfold required_parameters. round. Qed.

Hint Resolve next_decode_inbound next_instance_status next_local_member next_committee_pubkeys
  next_gate_closed next_validate_committee next_ensure_sender next_endorse_pegin next_verify_pegin
  next_pegin_request next_instance_info next_tx_visible next_start_blocked next_required_parameters : guar.

(** ** Graph definitions and the chains *)

Lemma next_get_graph i g : guarantee Rel (get_graph i g).
Proof. unfold get_graph. round. Qed.
Lemma next_graph_of_operator i k : guarantee Rel (get_graph_by_instance_id_and_operator_pubkey i k).
Proof. unfold get_graph_by_instance_id_and_operator_pubkey. round. Qed.
Lemma next_store_presigned g : guarantee Rel (store_operator_presigned_graph g).
Proof. unfold store_operator_presigned_graph. round. Qed.
Lemma next_store_finalized g : guarantee Rel (store_finalized_graph_if_needed g).
Proof. unfold store_finalized_graph_if_needed. round. Qed.
Lemma next_tx_confirmed t : guarantee Rel (tx_confirmed t).
Proof. unfold tx_confirmed. round. Qed.
Lemma next_outpoint_spent t v : guarantee Rel (outpoint_spent_txid t v).
Proof. unfold outpoint_spent_txid. round. Qed.
Hint Resolve next_get_graph next_graph_of_operator next_store_presigned next_store_finalized
  next_tx_confirmed next_outpoint_spent : guar.
Lemma next_outpoint_confirmed t v : guarantee Rel (outpoint_spent_confirmed t v).
Proof. unfold outpoint_spent_confirmed. round. Qed.
Hint Resolve next_outpoint_confirmed : guar.
Lemma next_guardian g : guarantee Rel (detect_guardian_disprove g).
Proof. unfold detect_guardian_disprove. round. Qed.
Lemma next_connector_d g : guarantee Rel (detect_connector_d_disprove g).
Proof. unfold detect_connector_d_disprove. round. Qed.
Lemma next_nack l n : guarantee Rel (confirmed_nack l n).
Proof. revert n. induction l; intros n; cbn [confirmed_nack]; round. Qed.
Lemma next_watchtower_spends t n i : guarantee Rel (watchtower_spends t n i).
Proof. revert i. induction n; intros i; cbn [watchtower_spends]; round. Qed.
Lemma next_branches g l i d : guarantee Rel (verifier_branches g l i d).
Proof. revert i d. induction l; intros i d; cbn [verifier_branches]; round. Qed.
Hint Resolve next_guardian next_connector_d next_nack next_watchtower_spends next_branches : guar.
Lemma next_scan g : guarantee Rel (scan_graph_chain_state g).
Proof.
  unfold scan_graph_chain_state, scan_kickoff, scan_challenge, detect_watchtower_flow_disprove. round.
Qed.
Lemma next_refresh i g graph : guarantee Rel (try_refresh_graph i g graph).
Proof.
  unfold try_refresh_graph, refresh_graph, update_graph_status, update_graph_challenge_txid_if_needed.
  pose proof next_scan. round.
Qed.
Hint Resolve next_refresh : guar.

(** ** Validation *)

Lemma next_graph_digest g : guarantee Rel (get_graph_digest g).
Proof. unfold get_graph_digest. round. Qed.
Lemma next_endorse_graph g : guarantee Rel (endorse_graph g).
Proof. unfold endorse_graph. pose proof next_graph_digest. round. Qed.
Lemma next_endorse_params g : guarantee Rel (endorse_graph_params g).
Proof. unfold endorse_graph_params. round. Qed.
Lemma next_verify_graph a g v : guarantee Rel (verify_graph_endorsement a g v).
Proof. unfold verify_graph_endorsement. pose proof next_graph_digest. round. Qed.
Lemma next_watchtowers g full : guarantee Rel (validate_watchtowers g full).
Proof. unfold validate_watchtowers. round. Qed.
Lemma next_funding l : guarantee Rel (funding_matches l).
Proof. induction l; cbn [funding_matches]; round. Qed.
Lemma next_validate_parameters p : guarantee Rel (validate_graph_instance_parameters p).
Proof. unfold validate_graph_instance_parameters. pose proof next_funding. round. Qed.
Lemma next_continuity g : guarantee Rel (validate_prekickoff_continuity g).
Proof. unfold validate_prekickoff_continuity. round. Qed.
Lemma next_stake k : guarantee Rel (operator_stake_status k).
Proof. unfold operator_stake_status. round. Qed.
Hint Resolve next_graph_digest next_endorse_graph next_endorse_params next_verify_graph next_watchtowers
  next_validate_parameters next_continuity next_stake : guar.
Lemma next_init_base g : guarantee Rel (validate_init_graph_base g).
Proof. unfold validate_init_graph_base. round. Qed.
Lemma next_verifiers_registered l : guarantee Rel (verifiers_registered l).
Proof. induction l as [|[k [[i p] v]] l IH]; cbn [verifiers_registered]; round. Qed.
Lemma next_verifier_checks g l : guarantee Rel (validate_verifier_graph_params_endorsements g l).
Proof. unfold validate_verifier_graph_params_endorsements. pose proof next_verifiers_registered. round. Qed.
Hint Resolve next_init_base next_verifier_checks : guar.
Lemma next_validate_init g l : guarantee Rel (validate_init_graph g l).
Proof. unfold validate_init_graph. round. Qed.
Lemma next_validate_finalized g l l' : guarantee Rel (validate_finalized_graph g l l').
Proof. unfold validate_finalized_graph. round. Qed.
Hint Resolve next_validate_init next_validate_finalized : guar.

(** ** The jobs of an instance *)

Lemma next_nonce_consensus i : guarantee Rel (nonce_consensus i).
Proof. unfold nonce_consensus. round. Qed.
Lemma next_checked_votes i c : guarantee Rel (checked_votes i c).
Proof. unfold checked_votes. round. Qed.
Hint Resolve next_checked_votes : guar.
Lemma next_votes_complete i c : guarantee Rel (votes_complete i c).
Proof. unfold votes_complete. round. Qed.
Lemma next_nonces_complete i : guarantee Rel (nonces_complete i).
Proof. unfold nonces_complete. round. Qed.
Lemma next_partial_sigs_complete i : guarantee Rel (partial_sigs_complete i).
Proof. unfold partial_sigs_complete. round. Qed.
Lemma next_reuse_partial i t k v : guarantee Rel (reuse_partial i t k v).
Proof. unfold reuse_partial. round. Qed.
Hint Resolve next_nonce_consensus next_votes_complete next_nonces_complete next_partial_sigs_complete
  next_reuse_partial : guar.

Lemma next_answer i : guarantee Rel (answer_pegin_request deps i).
Proof. unfold answer_pegin_request. round. Qed.
Lemma next_confirm i : guarantee Rel (confirm_instance deps i).
Proof. unfold confirm_instance. round. Qed.
Lemma next_start i : guarantee Rel (start_pegin_confirm deps i).
Proof. unfold start_pegin_confirm. round. Qed.
Lemma next_ingest_nonce i b : guarantee Rel (ingest_pegin_confirm_nonce i b).
Proof. unfold ingest_pegin_confirm_nonce. round. Qed.
Lemma next_vote i : guarantee Rel (pegin_confirm_vote deps i).
Proof. unfold pegin_confirm_vote. round. Qed.
Lemma next_ingest_pegin_vote i b : guarantee Rel (ingest_pegin_confirm_vote i b).
Proof. unfold ingest_pegin_confirm_vote. round. Qed.
Lemma next_ingest_partial i b : guarantee Rel (ingest_pegin_confirm_partial_sig deps i b).
Proof. unfold ingest_pegin_confirm_partial_sig. round. Qed.
Lemma next_broadcast i b : guarantee Rel (broadcast_pegin_confirm deps i b).
Proof. unfold broadcast_pegin_confirm, pegin_confirm_broadcast_blocked. round. Qed.
Lemma next_post i : guarantee Rel (run_post_pegin_data deps i).
Proof. unfold run_post_pegin_data, post_pegin_data. round. Qed.
Lemma next_delete_key i : guarantee Rel (run_delete_instance_key i).
Proof. unfold run_delete_instance_key. round. Qed.

(** ** The jobs of a graph *)

Lemma next_graph_instance g : guarantee Rel (graph_instance g).
Proof. unfold graph_instance. round. Qed.
Lemma next_foreign i : guarantee Rel (foreign_committee deps i).
Proof. unfold foreign_committee. round. Qed.
Lemma next_after i g graph : guarantee Rel (after_committee_value deps i g graph).
Proof. unfold after_committee_value, four_sets_complete, collections. round. Qed.
Lemma next_signing_message i g a c : guarantee Rel (signing_message i g a c).
Proof. unfold signing_message. round. Qed.
Lemma next_graph_consensus i g graph : guarantee Rel (graph_nonce_consensus i g graph).
Proof. unfold graph_nonce_consensus. round. Qed.
Lemma next_checked_graph_votes g c : guarantee Rel (checked_graph_votes g c).
Proof. unfold checked_graph_votes. round. Qed.
Hint Resolve next_checked_graph_votes : guar.
Lemma next_graph_votes_complete g c : guarantee Rel (graph_votes_complete g c).
Proof. unfold graph_votes_complete. round. Qed.
Hint Resolve next_graph_instance next_foreign next_after next_signing_message next_graph_consensus
  next_graph_votes_complete : guar.

Lemma next_ingest_graph g b : guarantee Rel (committee_ingest_graph g b).
Proof. unfold committee_ingest_graph. round. Qed.
Lemma next_ingest_verifier g b : guarantee Rel (ingest_verifier_endorsement g b).
Proof. unfold ingest_verifier_endorsement. round. Qed.
Lemma next_nonces g : guarantee Rel (committee_nonces deps g).
Proof. unfold committee_nonces. round. Qed.
Lemma next_ingest_nonces g b : guarantee Rel (ingest_nonces deps g b).
Proof. unfold ingest_nonces. round. Qed.
Lemma next_committee_vote g : guarantee Rel (committee_vote deps g).
Proof. unfold committee_vote. round. Qed.
Lemma next_ingest_vote g b : guarantee Rel (ingest_vote deps g b).
Proof. unfold ingest_vote. round. Qed.
Lemma next_ingest_presign g b : guarantee Rel (ingest_presign deps g b).
Proof. unfold ingest_presign. round. Qed.
Lemma next_endorse g : guarantee Rel (committee_endorse deps g).
Proof. unfold committee_endorse. round. Qed.
Lemma next_bound_address peer k a pks addrs n : guarantee Rel (bound_address peer k a pks addrs n).
Proof. revert n. induction pks; intros n; cbn [bound_address]; round. Qed.
Lemma next_ingest_endorsement g b : guarantee Rel (ingest_endorsement deps g b).
Proof.
  unfold ingest_endorsement, validate_committee_with_evm_address. pose proof next_bound_address. round.
Qed.
Lemma next_finalize g : guarantee Rel (finalize_graph g).
Proof. unfold finalize_graph. round. Qed.
Lemma next_ingest_finalized g b : guarantee Rel (ingest_finalized deps g b).
Proof. unfold ingest_finalized. round. Qed.
Lemma next_post_graph g : guarantee Rel (post_graph_data deps g).
Proof. unfold post_graph_data. round. Qed.

End Jobs.

#[export] Hint Resolve next_read_gate next_checked_votes next_checked_graph_votes : guar.
#[export] Hint Resolve next_instance_status next_nonce_consensus next_votes_complete next_local_member
  next_pegin_partial next_reuse_partial next_gate_closed next_endorse_pegin next_partial_sigs_complete
  next_graph_instance next_get_graph next_graph_consensus next_graph_votes_complete
  next_verifier_endorsements next_verifier_checks next_signing_message next_graph_partials : guar.
#[export] Hint Resolve next_answer next_confirm next_start next_ingest_nonce next_vote
  next_ingest_pegin_vote next_ingest_partial next_broadcast next_post next_delete_key : guar.
#[export] Hint Resolve next_ingest_graph next_ingest_verifier next_nonces next_ingest_nonces
  next_committee_vote next_ingest_vote next_ingest_presign next_endorse next_ingest_endorsement
  next_finalize next_ingest_finalized next_post_graph : guar.
