(* ===== verification/RoundSafety.v ===== *)
(** * Signing safety

    A committee member's nonces are derived from the key and the job, so a member that signed twice
    with one nonce would give its key away.  Every signing call of a node, whatever the other tasks
    do in between, is justified: the nonce is bound to one transcript, the transcript is signed by
    every committee member, the signing gate was open and, for a graph, every verifier has endorsed
    the parameters.  Hence one nonce signs one message. *)

From stdpp Require Import base list strings pretty gmap.
From S2P Require Import Prelude Table Storage EngineSchema EngineEffects Executor NodeSchema LocalDb.
From S2P Require Import NodeApply InstanceDecide InstanceAggregate GraphAggregate Admission Timelocks.
From S2P Require Import Committee CommitteeProps RoundStore KeyEnvelope GraphDefs PeginRound.
From S2P Require Import GraphValidate GraphChainState GraphRound RoundNext.

Local Open Scope Z_scope.

(** ** What a program returns *)

Definition yields {S A} (m : ST S A) (Q : A → Prop) : Prop :=
  ∀ s e a s' e', m s e = (Ok a, s', e') → Q a.

Lemma yields_bind {S A B} (m : ST S A) (k : A → ST S B) P Q :
  yields m P → (∀ a, P a → yields (k a) Q) → yields (m ≫= k) Q.
Proof.
  intros Hm Hk s e b s' e' Heq. unfold mbind, st_bind in Heq.
  destruct (m s e) as [[[a|x] s1] e1] eqn:Ha; [|done]. eapply (Hk a); [by eapply Hm|exact Heq].
Qed.

Lemma yields_any {S A} (m : ST S A) : yields m (λ _, True).
Proof. by intros s e a s' e' _. Qed.

Lemma yields_skip {S A B} (m : ST S A) (k : A → ST S B) Q :
  (∀ a, yields (k a) Q) → yields (m ≫= k) Q.
Proof. intros Hk. eapply yields_bind; [apply yields_any|auto]. Qed.

Lemma yields_ret {S A} (a : A) (Q : A → Prop) : Q a → yields (S := S) (mret a) Q.
Proof. intros HQ s e b s' e' Heq. injection Heq as <- _ _. exact HQ. Qed.

Lemma yields_lift {S A} (o : outcome A) (Q : A → Prop) :
  (∀ a, o = Ok a → Q a) → yields (S := S) (st_lift o) Q.
Proof. intros HQ s e a s' e' Heq. injection Heq as Heq _ _. by apply HQ. Qed.

Lemma yields_fail {S A} x (Q : A → Prop) : yields (S := S) (st_fail x) Q.
Proof. by intros s e a s' e' Heq. Qed.

Lemma yields_ask `{Others} {A} (answer : nat → outcome A) (Q : A → Prop) :
  (∀ k a, answer k = Ok a → Q a) → yields (ask answer) Q.
Proof. intros HQ s e a s' e' Heq. injection Heq as Heq _ _. by eapply HQ. Qed.

Lemma guarantee_bind_yields {A B} (Rel : RoundNode → RoundNode → Prop) `{!PreOrder Rel}
    (m : ST RoundNode A) (k : A → ST RoundNode B) P :
  guarantee Rel m → yields m P → (∀ a, P a → guarantee Rel (k a)) → guarantee Rel (m ≫= k).
Proof.
  intros Hm Hr Hk s e. specialize (Hm s e). unfold mbind, st_bind, final in *.
  destruct (m s e) as [[[a|x] s'] e'] eqn:Heq; [|done]. etrans; [exact Hm|]. apply (Hk a). by eapply Hr.
Qed.

(** ** Ordered values *)

Lemma mapM_length {A B} (f : A → outcome B) l l' : mapM f l = Ok l' → length l' = length l.
Proof.
  revert l'. induction l as [|x l IH]; intros l' Heq; [by injection Heq as <-|]. cbn in Heq.
  apply outcome_bind_Ok in Heq as (y & _ & Heq). apply outcome_bind_Ok in Heq as (ys & Hys & Heq).
  injection Heq as <-. cbn. by rewrite (IH ys Hys).
Qed.

Lemma ordered_length {T} keys (values : list (string * T)) label l :
  order_committee_values keys values label = Ok l → length l = length keys.
Proof.
  unfold order_committee_values. intros Heq. apply outcome_bind_Ok in Heq as (u & _ & Heq).
  by eapply mapM_length.
Qed.

Lemma for_each_all {A} (f : A → outcome unit) l u :
  for_each (λ _ x, f x) tt l = Ok u → Forall (λ x, f x = Ok tt) l.
Proof.
  induction l as [|x l IH]; [constructor|]. cbn [for_each]. intros Heq.
  apply outcome_bind_Ok in Heq as ([] & Hx & Heq). constructor; [done|auto].
Qed.

(** ** Hexadecimal *)

Lemma hex_digit_inj a b : (a < 16)%nat → (b < 16)%nat → hex_digit a = hex_digit b → a = b.
Proof.
  intros Ha Hb Heq. unfold hex_digit in Heq. apply (f_equal Ascii.nat_of_ascii) in Heq.
  destruct (Nat.ltb_spec a 10), (Nat.ltb_spec b 10);
    rewrite 2 Ascii.nat_ascii_embedding in Heq by lia; lia.
Qed.

Lemma hex_encode_inj a b : hex_encode a = hex_encode b → a = b.
Proof.
  revert b. induction a as [|c a IH]; intros [|d b]; [done..|]. cbn [hex_encode]. intros Heq.
  assert (H1 : hex_digit (Ascii.nat_of_ascii c / 16) = hex_digit (Ascii.nat_of_ascii d / 16)) by congruence.
  assert (H2 : hex_digit (Ascii.nat_of_ascii c mod 16) = hex_digit (Ascii.nat_of_ascii d mod 16)) by congruence.
  f_equal; [|apply IH; congruence].
  assert (Hc := Ascii.nat_ascii_bounded c). assert (Hd := Ascii.nat_ascii_bounded d).
  apply hex_digit_inj in H1; [|apply Nat.Div0.div_lt_upper_bound; lia..].
  apply hex_digit_inj in H2; [|by apply Nat.mod_upper_bound..].
  rewrite <- (Ascii.ascii_nat_embedding c), <- (Ascii.ascii_nat_embedding d). f_equal.
  rewrite (Nat.div_mod_eq (Ascii.nat_of_ascii c) 16), (Nat.div_mod_eq (Ascii.nat_of_ascii d) 16). congruence.
Qed.

(** ** The invariant *)

Section Safety.
Context `{UuidText} `{RoundCodec} `{ParametersCodec} `{Others} `{Sha256} `{Musig2} `{RoundJson}.
Context `{Taproot} `{Goat} `{GraphBuilder} `{Sealing} `{Outside} `{RoundMessages}.
Context `{InboundCodec} `{MessageCodec} `{Failures} `{PlanCodec} `{Registries} `{ChainReads} `{GraphMessages}.
Context (deps : JobDeps).

(** A committee's size fits the transcript's [u32]. *)
Definition sized (committee : list string) : Prop := Z.of_nat (length committee) < 2 ^ 32.

(** Every member's vote is for the hash and signed by the member. *)
Definition voted (committee : list PublicKey) (votes : list (bytes * SchnorrSignature)) (hash : bytes) : Prop :=
  Forall2 (λ pk vote, vote.1 = hash ∧ verify_schnorr vote.2 hash (xonly pk) = Ok tt) committee votes.

(** The gate was open for the row; a tip it needed was the chain's. *)
Definition gate_open (row : option Instance_) (tip : Z) : Prop :=
  signing_gate row (Ok tip) (jd_deadlines deps) = Ok Open ∧
  (needs_tip row = true → ∃ k, get_height k = Ok tip).

(** Every slot's verifier signed the parameters. *)
Definition endorsed (p : BitvmGcGraphParameters)
    (endorsements : list (PublicKey * (nat * string * SchnorrSignature))) : Prop :=
  ∀ i gc, bp_gc_data p !! i = Some gc → ∃ peer sig h,
    (cd_verifier_pubkey gc, (i, peer, sig)) ∈ endorsements ∧ canonical_graph_params_hash p = Ok h ∧
    verify_schnorr sig h (xonly (cd_verifier_pubkey gc)) = Ok tt.

(** The row that binds a nonce to a transcript. *)
Definition binds (rows : list SigningRow) (nonce_id : string) (hash : bytes) : Prop :=
  ∃ row, row ∈ rows ∧ sr_nonce_id row = nonce_id ∧ sr_transcript_digest row = hex_encode hash.

(** The transcript of a round, and what it aggregates to. *)
Definition pegin_transcript (p : BitvmGcInstanceParameters) (agg : AggNonce) (held : RoundEvidence PubNonce)
    (hash : bytes) : Prop :=
  sized (ev_committee held) ∧ voted (ev_committee held) (ev_votes held) hash ∧
  pegin_confirm_nonce_consensus_hash p (ev_committee held) (ev_pub_nonces held) = Ok hash ∧
  agg = nonce_aggregation (ev_pub_nonces held).

Definition graph_transcript (g : BitvmGcGraph) (aggs : CommitteeAggNonces)
    (held : RoundEvidence CommitteePubNonces) (hash : bytes) : Prop :=
  sized (ev_committee held) ∧ voted (ev_committee held) (ev_votes held) hash ∧ graph_shape g ∧
  committee_nonce_consensus_hash g (ev_committee held) (ev_pub_nonces held) = Ok hash ∧
  nonces_aggregation (ev_pub_nonces held) = Ok aggs.

Definition signing_justified (rows : list SigningRow) (signing : Signing) : Prop :=
  match signing with
  | PeginSigning p keypair sec agg held =>
      gate_open (ev_instance held) (ev_tip held) ∧ ∃ hash, pegin_transcript p agg held hash ∧
        binds rows (signing_nonce_id "pegin-confirm" (pub_nonce_serialize (public_nonce sec))) hash
  | GraphSigning g keypair secs aggs held endorsements =>
      gate_open (ev_instance held) (ev_tip held) ∧ endorsed (bg_parameters g) endorsements ∧
      ∃ hash encoded, graph_transcript g aggs held hash ∧
        pub_nonces_bincode (data_map public_nonce secs) = Ok encoded ∧
        binds rows (signing_nonce_id "graph-presign" encoded) hash
  end.

Definition signer_ok (s : RoundNode) : Prop :=
  NoDup (sr_nonce_id <$> rn_authorizations s) ∧ Forall (signing_justified (rn_authorizations s)) (rn_signed s).

(** Nothing authorized or signed is taken back, and the invariant is kept. *)
Definition signer_next (s s' : RoundNode) : Prop :=
  rn_authorizations s `prefix_of` rn_authorizations s' ∧ rn_signed s `prefix_of` rn_signed s' ∧
  (signer_ok s → signer_ok s').

#[export] Instance signer_next_preorder : PreOrder signer_next.
Proof.
  split; [by intros s; split_and!|]. intros s1 s2 s3 (? & ? & ?) (? & ? & ?).
  split_and!; [by etrans|by etrans|auto].
Qed.

Context (others_sign : ∀ k s, signer_next s (others k s)).
Context (committee_sized : ∀ k i keys, gateway_get_committee_pubkeys k i = Ok keys → sized keys).
Context (generated : ∀ p g, generate_bitvm_graph p = Ok g → bg_parameters g = p ∧ graph_shape g).

#[local] Instance signer_rel : RoundRel signer_next.
Proof.
  split; [apply _|done|]. intros s s' [Ha Hs]. unfold signer_next, signer_ok. by rewrite Ha, Hs.
Qed.

Lemma binds_mono rows rows' n h : rows `prefix_of` rows' → binds rows n h → binds rows' n h.
Proof. intros [l ->] (row & Hrow & Hn & Hd). exists row. split_and!; [apply elem_of_app; by left|done..]. Qed.

Lemma justified_mono rows rows' signing :
  rows `prefix_of` rows' → signing_justified rows signing → signing_justified rows' signing.
Proof.
  intros Hp. destruct signing as [p k sec agg held|g k secs aggs held es]; cbn.
  - intros (Hg & h & Ht & Hb). split; [done|]. exists h. split; [done|by eapply binds_mono].
  - intros (Hg & He & h & enc & Ht & Henc & Hb). split_and!; [done..|]. exists h, enc.
    split_and!; [done..|by eapply binds_mono].
Qed.

Lemma binds_same rows n h h' :
  NoDup (sr_nonce_id <$> rows) → binds rows n h → binds rows n h' → h = h'.
Proof.
  intros Hnd (row & Hin & <- & Hd) (row' & Hin' & Hid & Hd'). apply hex_encode_inj.
  rewrite <- Hd, <- Hd'. f_equal. symmetry. by eapply (NoDup_map_inj sr_nonce_id rows).
Qed.

(** ** Authorization *)

Lemma next_authorize kind id nonce digest now : guarantee signer_next (authorize_signing kind id nonce digest now).
Proof.
  unfold authorize_signing. apply guarantee_bind; [apply _|round|intros _].
  apply guarantee_bind; [apply _| |round]. apply guarantee_stmt; [apply _|]. intros s.
  destruct (existsb (for_nonce nonce) (rn_authorizations s)) eqn:Hex; [done|]. cbn.
  split_and!; [by eexists|done|]. intros [Hnd Hj]. split; cbn.
  - rewrite fmap_app. apply NoDup_app. split_and!; [done| |apply NoDup_singleton].
    intros n (row & -> & Hrow)%list_elem_of_fmap Hn%list_elem_of_singleton. cbn in Hn.
    pose proof (proj1 (existsb_none _ _) Hex row Hrow) as Hf. unfold for_nonce in Hf.
    by rewrite bool_decide_true in Hf.
  - eapply Forall_impl; [exact Hj|]. intros x. apply justified_mono. by eexists.
Qed.

Definition bound_row (nonce digest : string) (s : RoundNode) : Prop :=
  ∃ row, row ∈ rn_authorizations s ∧ sr_nonce_id row = nonce ∧ sr_transcript_digest row = digest.

Lemma authorize_hoare kind id nonce digest now :
  hoare (λ _, True) (authorize_signing kind id nonce digest now)
    (on_ok (λ a s, (∀ d, a ≠ Conflict d) → bound_row nonce digest s) (λ _, True)).
Proof.
  unfold authorize_signing. apply (hoare_bind _ _ _ (λ _ _, True)); [by intros s e _|intros _].
  apply (hoare_bind _ _ _ (λ b s, b = true → bound_row nonce digest s)).
  { apply hoare_stmt. intros s _. split; [done|]. destruct (existsb _ _); [done|]. intros _. cbn.
    eexists. split_and!; [apply elem_of_app; right; by left|done..]. }
  intros []; [by apply hoare_ret; intros s Hs _; apply Hs|].
  apply (hoare_bind _ _ _ (λ _ _, True)); [by intros s e _|intros _].
  apply (hoare_bind _ _ _ (λ r s, ∀ row, r = Some row → row ∈ rn_authorizations s ∧ sr_nonce_id row = nonce)).
  { apply hoare_query. intros s _. split; [done|]. intros row [Hin Hn]%find_some_elem.
    split; [done|]. unfold for_nonce in Hn. by apply bool_decide_eq_true in Hn. }
  intros [row|]; [|by apply hoare_fail].
  destruct (bool_decide _) eqn:Hd; apply hoare_ret; intros s Hs; cbn; intros Hc; [|by destruct (Hc (sr_transcript_digest row))].
  apply bool_decide_eq_true in Hd. exists row. destruct (Hs row eq_refl). by split_and!.
Qed.

Lemma authorize_binds kind id nonce digest now s e a s' e' :
  authorize_signing kind id nonce digest now s e = (Ok a, s', e') → (∀ d, a ≠ Conflict d) →
  bound_row nonce digest s'.
Proof. intros Heq. exact (hoare_run _ _ _ _ _ _ _ _ (authorize_hoare kind id nonce digest now) I Heq). Qed.

(** The end of a signing step: the call is logged and made. *)
Lemma next_record {A} signing (o : outcome A) s e :
  signing_justified (rn_authorizations s) signing → signer_next s (final ((record_signing signing;; st_lift o) s e)).
Proof.
  intros Hj. cbn. split_and!; [done|by eexists|]. intros [Hnd Hf]. split; [done|].
  cbn. apply Forall_app. split; [done|]. by constructor.
Qed.

(** ** The Peg-In-Confirm *)

Definition consensus_ok (c : NonceConsensus) : Prop :=
  sized (nc_committee c) ∧
  pegin_confirm_nonce_consensus_hash (nc_parameters c) (nc_committee c) (nc_pub_nonces c) =
    Ok (nc_consensus_hash c) ∧
  nc_agg_nonce c = nonce_aggregation (nc_pub_nonces c).

Lemma consensus_returned i : yields (nonce_consensus i) (λ o, ∀ c, o = Some c → consensus_ok c).
Proof.
  unfold nonce_consensus. apply yields_skip. intros p.
  apply (yields_bind _ _ sized). { unfold committee_pubkeys. apply yields_ask. by intros k keys Hk; eapply committee_sized. }
  intros keys Hkeys. apply yields_skip. intros l. destruct (_ <? _)%nat; [by apply yields_ret|].
  apply yields_skip. intros ordered. apply (yields_bind _ _ (λ h, pegin_confirm_nonce_consensus_hash p keys ordered = Ok h)).
  { by apply yields_lift. }
  intros h Hh. apply yields_ret. by intros c [= <-].
Qed.

Lemma voted_zip committee (ordered : list (bytes * string)) (check : string → bytes * string → outcome unit) hash u :
  length ordered = length committee →
  (∀ pk v, check pk v = Ok tt → v.1 = hash ∧ verify_schnorr v.2 hash (xonly pk) = Ok tt) →
  for_each (λ _ '(pk, v), check pk v) tt (zip committee ordered) = Ok u → voted committee ordered hash.
Proof.
  intros Hlen Hcheck Hall. unfold voted. revert ordered Hlen Hall.
  induction committee as [|pk committee IH]; intros [|v ordered] Hlen Hall; try done.
  cbn [zip zip_with for_each] in Hall. apply outcome_bind_Ok in Hall as ([] & Hv & Hall).
  constructor; [by apply Hcheck|]. apply (IH ordered); [by injection Hlen|done].
Qed.

Lemma check_vote_Ok i hash pk v :
  check_vote i hash pk v = Ok tt → v.1 = hash ∧ verify_schnorr v.2 hash (xonly pk) = Ok tt.
Proof.
  unfold check_vote. case_bool_decide as Hv; cbn; [|done]. by destruct (verify_schnorr _ _ _) as [[]|].
Qed.

Lemma votes_returned i c :
  yields (checked_votes i c) (λ o, ∀ l, o = Some l → voted (nc_committee c) l (nc_consensus_hash c)).
Proof.
  unfold checked_votes. apply yields_skip. intros votes. destruct (_ <? _)%nat; [by apply yields_ret|].
  apply (yields_bind _ _ (λ l, length l = length (nc_committee c))).
  { apply yields_lift. intros l. apply ordered_length. }
  intros ordered Hlen. apply (yields_bind _ _ (λ _, voted (nc_committee c) ordered (nc_consensus_hash c))).
  { apply yields_lift. intros u. eapply voted_zip; [done|]. intros pk v. apply check_vote_Ok. }
  intros _ Hv. apply yields_ret. by intros l [= <-].
Qed.

Lemma gate_returned i : yields (read_gate deps i) (λ g, g.2 = None → gate_open g.1.1 g.1.2).
Proof.
  unfold read_gate. apply yields_skip. intros _. apply yields_skip. intros row.
  apply (yields_bind _ _ (λ tip, needs_tip row = true → ∃ k, get_height k = Ok tip)).
  { destruct (needs_tip row); [|by apply yields_ret]. apply yields_ask. intros k tip Hk _. by exists k. }
  intros tip Htip.
  apply (yields_bind _ _ (λ g, signing_gate row (Ok tip) (jd_deadlines deps) = Ok g)); [by apply yields_lift|].
  intros [|reason] Hg; apply yields_ret; [|done]. by intros _.
Qed.

Lemma derived_pegin_nonce p k : yields (S := RoundNode) (st_lift (nonce_for_instance_job_with_keypair p k))
  (λ d, d.1.2 = public_nonce d.1.1).
Proof.
  apply yields_lift. intros d. unfold nonce_for_instance_job_with_keypair. intros Heq.
  apply outcome_bind_Ok in Heq as (h & _ & Heq). apply outcome_bind_Ok in Heq as (sh & _ & Heq).
  by injection Heq as <-.
Qed.

(** An authorized program: nothing is signed unless the nonce is bound. *)
Lemma next_authorized {A} kind id nonce digest now (refuse : string → ST RoundNode A) (sign : ST RoundNode A) :
  (∀ d, guarantee signer_next (refuse d)) →
  (∀ s e, bound_row nonce digest s → signer_next s (final (sign s e))) →
  guarantee signer_next (authorization ← authorize_signing kind id nonce digest now;
    match authorization with Conflict d => refuse d | _ => sign end).
Proof.
  intros Hr Hs s e. pose proof (next_authorize kind id nonce digest now s e) as Ha.
  unfold mbind, st_bind, final in *. destruct (authorize_signing _ _ _ _ _ s e) as [[[a|x] s'] e'] eqn:Heq; [|done].
  etrans; [exact Ha|]. destruct a as [| |d]; [apply Hs..|apply Hr]; by eapply authorize_binds.
Qed.

Lemma next_sign_authorized i c keypair votes row tip :
  consensus_ok c → voted (nc_committee c) votes (nc_consensus_hash c) → gate_open row tip →
  guarantee signer_next (sign_authorized i c keypair
    (mkEvidence (nc_committee c) (nc_pub_nonces c) votes row tip)).
Proof.
  intros (Hsz & Hh & Hagg) Hv Hg. unfold sign_authorized. round_step; [round|].
  eapply guarantee_bind_yields; [apply _|round|apply derived_pegin_nonce|]. intros [[sec pub] sig] Hpub.
  cbn in Hpub. subst pub. round_step; [round|]. round_step; [round|].
  apply next_authorized; [round|]. intros s e (bound & Hin & Hid & Hd).
  destruct (build_pegin_tx (nc_parameters c)) as [txs|]; [|done].
  destruct (get_committee_context (nc_parameters c) keypair) as [ctx|]; [|done].
  apply next_record. cbn. split; [done|]. exists (nc_consensus_hash c). by split; [|exists bound].
Qed.

Lemma next_pegin_sign i : guarantee signer_next (pegin_confirm_sign deps i).
Proof.
  unfold pegin_confirm_sign. round_step; [round|]. destruct (round_over _); [round|].
  eapply guarantee_bind_yields; [apply _|round|apply consensus_returned|].
  intros [c|] Hc; [|round]. specialize (Hc c eq_refl).
  eapply guarantee_bind_yields; [apply _|round|apply votes_returned|].
  intros [votes|] Hv; [|round]. specialize (Hv votes eq_refl).
  apply guarantee_bind; [apply _|round|]. intros [k|]; [|round]. round_step; [round|].
  apply guarantee_bind; [apply _|round|]. intros [stored|]; [round|]. round_step; [|round].
  eapply guarantee_bind_yields; [apply _|round|apply gate_returned|].
  intros [[row tip] [reason|]] Hg; cbn [fst snd] in *; cbv iota; [round|]. specialize (Hg eq_refl).
  pose proof (next_sign_authorized i c k votes row tip Hc Hv Hg). round.
Qed.

(** ** Graphs *)

Lemma push_operator_kept g ws g' :
  push_operator_pre_signature g ws = Ok g' → bg_parameters g' = bg_parameters g ∧ (graph_shape g → graph_shape g').
Proof.
  unfold push_operator_pre_signature. intros Heq.
  apply outcome_bind_Ok in Heq as (? & _ & Heq). apply outcome_bind_Ok in Heq as (? & _ & Heq).
  apply outcome_bind_Ok in Heq as (? & _ & Heq). apply outcome_bind_Ok in Heq as (? & _ & Heq).
  apply outcome_bind_Ok in Heq as (? & _ & Heq). by injection Heq as <-.
Qed.

Lemma push_all_length kind n cs sigs txs txs' :
  push_all kind n cs sigs txs = Ok txs' → length txs' = length txs.
Proof.
  unfold push_all. intros Hl%mapM_length. rewrite Hl. unfold enumerate. rewrite length_zip, length_seq. lia.
Qed.

Lemma push_committee_kept g sigs g' :
  push_committee_pre_signatures g sigs = Ok g' →
  bg_parameters g' = bg_parameters g ∧ (graph_shape g → graph_shape g').
Proof.
  unfold push_committee_pre_signatures. intros Heq.
  apply outcome_bind_Ok in Heq as (? & _ & Heq). apply outcome_bind_Ok in Heq as (? & _ & Heq).
  apply outcome_bind_Ok in Heq as (ts & Hts%push_all_length & Heq).
  apply outcome_bind_Ok in Heq as (ns & Hns%push_all_length & Heq).
  apply outcome_bind_Ok in Heq as (ds & Hds%push_all_length & Heq). injection Heq as <-.
  split; [done|]. unfold graph_shape, watchtower_num, verifier_num. cbn. by rewrite Hts, Hns, Hds.
Qed.

Lemma from_simplified_kept g full :
  from_simplified g = Ok full → bg_parameters full = sg_parameters g ∧ graph_shape full.
Proof.
  unfold from_simplified. intros Heq. apply outcome_bind_Ok in Heq as (g1 & Hg1 & Heq).
  apply generated in Hg1 as [Hp1 Hs1]. apply outcome_bind_Ok in Heq as (g2 & Hg2 & Heq).
  assert (bg_parameters g2 = sg_parameters g ∧ graph_shape g2) as [Hp2 Hs2].
  { destruct (sg_operator_pre_signed g); [|by injection Hg2 as <-].
    apply outcome_bind_Ok in Hg2 as (ws & _ & Hg2). apply outcome_bind_Ok in Hg2 as (g3 & Hg3 & Hg2).
    apply push_operator_kept in Hg3 as [Hp3 Hs3]. injection Hg2 as <-. split; [by rewrite <- Hp1, <- Hp3|].
    by apply Hs3. }
  destruct (sg_committee_pre_signed g); [|by injection Heq as <-].
  apply outcome_bind_Ok in Heq as (ws & _ & Heq). apply outcome_bind_Ok in Heq as (g3 & Hg3 & Heq).
  apply push_committee_kept in Hg3 as [Hp3 Hs3]. injection Heq as <-. split; [by rewrite <- Hp2, <- Hp3|].
  by apply Hs3.
Qed.

Lemma require_graph_Ok b m u : require_graph b m = Ok u → b = true.
Proof. by destruct b. Qed.

(** The slot of an index is endorsed by its verifier. *)
Definition slot_endorsed (p : BitvmGcGraphParameters)
    (es : list (PublicKey * (nat * string * SchnorrSignature))) (i : nat) : Prop :=
  ∃ gc peer sig h, bp_gc_data p !! i = Some gc ∧ (cd_verifier_pubkey gc, (i, peer, sig)) ∈ es ∧
    canonical_graph_params_hash p = Ok h ∧ verify_schnorr sig h (xonly (cd_verifier_pubkey gc)) = Ok tt.

Lemma check_verifier_Ok graph seen x seen' es :
  x ∈ es → check_verifier_endorsement graph seen x = Ok seen' →
  ∃ i, sn_indices seen' = i :: sn_indices seen ∧ (i ∉ sn_indices seen) ∧ slot_endorsed (sg_parameters graph) es i.
Proof.
  destruct x as [pk [[i peer] sig]]. unfold check_verifier_endorsement. intros Hin Heq.
  apply outcome_bind_Ok in Heq as (? & _ & Heq). apply outcome_bind_Ok in Heq as (? & _ & Heq).
  apply outcome_bind_Ok in Heq as (? & _ & Heq). apply outcome_bind_Ok in Heq as (slot & Hslot & Heq).
  apply outcome_bind_Ok in Heq as (? & Hpk%require_graph_Ok & Heq).
  apply outcome_bind_Ok in Heq as (? & _ & Heq). apply outcome_bind_Ok in Heq as (? & Hnew%require_graph_Ok & Heq).
  apply outcome_bind_Ok in Heq as (ok & Hok & Heq). apply outcome_bind_Ok in Heq as (? & ->%require_graph_Ok & Heq).
  injection Heq as <-. exists i. split_and!; [done|by apply negb_true_iff, bool_decide_eq_false in Hnew|].
  apply bool_decide_eq_true in Hpk. subst pk. unfold verify_verifier_graph_params_endorsement in Hok.
  apply outcome_bind_Ok in Hok as (h & Hh & Hok). injection Hok as Hok. exists slot, peer, sig, h.
  split_and!; [by apply index_Ok|done|done|]. by destruct (verify_schnorr _ _ _) as [[]|].
Qed.

Lemma verifier_loop graph es seen l seen' :
  l ⊆ es → for_each (check_verifier_endorsement graph) seen l = Ok seen' →
  NoDup (sn_indices seen) → Forall (slot_endorsed (sg_parameters graph) es) (sn_indices seen) →
  NoDup (sn_indices seen') ∧ Forall (slot_endorsed (sg_parameters graph) es) (sn_indices seen') ∧
  length (sn_indices seen') = (length l + length (sn_indices seen))%nat.
Proof.
  revert seen. induction l as [|x l IH]; intros seen Hsub Heq Hnd Hall; [by injection Heq as <-|].
  cbn [for_each] in Heq. apply outcome_bind_Ok in Heq as (seen1 & Hx & Heq).
  apply (check_verifier_Ok _ _ _ _ es) in Hx as (i & Hi & Hnew & Hslot); [|set_solver].
  destruct (IH seen1) as (? & ? & Hlen); [set_solver|done|rewrite Hi; by constructor..|].
  split_and!; [done..|]. rewrite Hlen, Hi. cbn. lia.
Qed.

Lemma verifiers_returned graph l :
  yields (validate_verifier_graph_params_endorsements graph l) (λ _, endorsed (sg_parameters graph) l).
Proof.
  unfold validate_verifier_graph_params_endorsements.
  apply (yields_bind _ _ (λ _, length l = length (bp_gc_data (sg_parameters graph)))).
  { apply yields_lift. intros u Hu%require_graph_Ok. by apply Nat.eqb_eq. }
  intros _ Hlen. apply (yields_bind _ _ (λ _, endorsed (sg_parameters graph) l)).
  { apply yields_lift. intros seen Hseen. apply (verifier_loop _ l) in Hseen as (Hnd & Hall & Hl); [|done|constructor..].
    cbn in Hl. rewrite Nat.add_0_r in Hl. set (n := length (bp_gc_data (sg_parameters graph))) in *.
    assert (sn_indices seen ≡ₚ seq 0 n) as Hperm.
    { apply submseteq_length_Permutation; [|rewrite length_seq; lia]. apply NoDup_submseteq; [done|].
      intros i Hi. rewrite Forall_forall in Hall. destruct (Hall i Hi) as (gc & _ & _ & _ & Hgc & _).
      apply lookup_lt_Some in Hgc. apply elem_of_seq. lia. }
    intros i gc Hi. rewrite Forall_forall in Hall.
    destruct (Hall i) as (gc' & peer & sig & h & Hgc & Hin & Hh & Hsig).
    { rewrite Hperm. apply elem_of_seq. apply lookup_lt_Some in Hi. lia. }
    rewrite Hi in Hgc. injection Hgc as <-. by exists peer, sig, h. }
  intros _ He s e u s' e' _. exact He.
Qed.

Definition graph_consensus_ok (graph : SimplifiedBitvmGcGraph) (c : GraphConsensus) : Prop :=
  bg_parameters (gc_full_graph c) = sg_parameters graph ∧ graph_shape (gc_full_graph c) ∧
  sized (gc_committee c) ∧
  committee_nonce_consensus_hash (gc_full_graph c) (gc_committee c) (gc_pub_nonces c) = Ok (gc_consensus_hash c) ∧
  nonces_aggregation (gc_pub_nonces c) = Ok (gc_agg_nonces c).

Lemma graph_consensus_returned i g graph :
  yields (graph_nonce_consensus i g graph) (λ o, ∀ c, o = Some c → graph_consensus_ok graph c).
Proof.
  unfold graph_nonce_consensus. apply (yields_bind _ _ sized).
  { unfold committee_pubkeys. apply yields_ask. by intros k keys Hk; eapply committee_sized. }
  intros keys Hkeys. apply yields_skip. intros l. destruct (_ <? _)%nat; [by apply yields_ret|].
  apply (yields_bind _ _ (λ full, from_simplified graph = Ok full)); [by apply yields_lift|].
  intros full [Hp Hs]%from_simplified_kept. apply yields_skip. intros _. apply yields_skip. intros ordered.
  apply (yields_bind _ _ (λ a, nonces_aggregation ordered = Ok a)); [by apply yields_lift|]. intros aggs Ha.
  apply (yields_bind _ _ (λ h, committee_nonce_consensus_hash full keys ordered = Ok h)); [by apply yields_lift|].
  intros h Hh. apply yields_ret. by intros c [= <-].
Qed.

Lemma graph_votes_returned g c :
  yields (checked_graph_votes g c) (λ o, ∀ l, o = Some l → voted (gc_committee c) l (gc_consensus_hash c)).
Proof.
  unfold checked_graph_votes. apply yields_skip. intros votes. destruct (_ <? _)%nat; [by apply yields_ret|].
  apply (yields_bind _ _ (λ l, length l = length (gc_committee c))).
  { apply yields_lift. intros l. apply ordered_length. }
  intros ordered Hlen. apply (yields_bind _ _ (λ _, voted (gc_committee c) ordered (gc_consensus_hash c))).
  { apply yields_lift. intros u. eapply voted_zip; [done|]. intros pk v. unfold check_graph_vote.
    case_bool_decide as Hh; cbn; [|done]. by destruct (verify_schnorr _ _ _) as [[]|]. }
  intros _ Hv. apply yields_ret. by intros l [= <-].
Qed.

Lemma data_map_map {A B C} (f : A → B) (h : B → C) d : data_map h (data_map f d) = data_map (λ x, h (f x)) d.
Proof. unfold data_map. cbn. by rewrite <- !list_fmap_compose. Qed.

Lemma derived_graph_nonces g k : yields (S := RoundNode) (st_lift (nonces_for_graph_job_with_keypair g k))
  (λ d, d.1.1 = data_map public_nonce d.1.2).
Proof.
  apply yields_lift. intros d. unfold nonces_for_graph_job_with_keypair. intros Heq.
  apply outcome_bind_Ok in Heq as (h & _ & Heq). apply outcome_bind_Ok in Heq as (sh & _ & Heq).
  injection Heq as <-. unfold generate_nonce_from_seed. cbn [fst snd]. by rewrite !data_map_map.
Qed.

Lemma next_presign_authorized graph g c keypair votes row tip es :
  graph_consensus_ok graph c → voted (gc_committee c) votes (gc_consensus_hash c) → gate_open row tip →
  endorsed (sg_parameters graph) es → guarantee signer_next (presign_authorized g c keypair
    (mkEvidence (gc_committee c) (gc_pub_nonces c) votes row tip) es).
Proof.
  intros (Hp & Hs & Hsz & Hh & Hagg) Hv Hg He. unfold presign_authorized. round_step; [round|].
  eapply guarantee_bind_yields; [apply _|round|apply derived_graph_nonces|]. intros [[pubs secs] sigs] Hpub.
  cbn in Hpub. subst pubs.
  apply (guarantee_bind_yields _ _ _ (λ b, pub_nonces_bincode (data_map public_nonce secs) = Ok b));
    [round|by apply yields_lift|]. intros encoded Henc. round_step; [round|]. round_step; [round|].
  apply next_authorized; [round|]. intros s e (bound & Hin & Hid & Hd).
  apply next_record. cbn. rewrite Hp. split_and!; [done..|]. exists (gc_consensus_hash c), encoded.
  by split_and!; [..|exists bound].
Qed.

Lemma next_graph_presign g : guarantee signer_next (committee_presign deps g).
Proof.
  unfold committee_presign. apply guarantee_bind; [apply _|round|]. intros [i|]; [|round].
  apply guarantee_bind; [apply _|round|]. intros [graph|]; [|round].
  eapply guarantee_bind_yields; [apply _|round|apply graph_consensus_returned|].
  intros [c|] Hc; [|round]. specialize (Hc c eq_refl).
  eapply guarantee_bind_yields; [apply _|round|apply graph_votes_returned|].
  intros [votes|] Hv; [|round]. specialize (Hv votes eq_refl).
  apply guarantee_bind; [apply _|round|]. intros [k|]; [|round].
  apply guarantee_bind; [apply _|round|]. intros [stored|]; [round|]. round_step; [|round].
  apply guarantee_bind; [apply _|round|]. intros l.
  eapply guarantee_bind_yields; [apply _|round|apply verifiers_returned|]. intros u He.
  eapply guarantee_bind_yields; [apply _|round|apply gate_returned|].
  intros [[row tip] [reason|]] Hg; cbn [fst snd] in *; cbv iota; [round|]. specialize (Hg eq_refl).
  pose proof (next_presign_authorized graph g c k votes row tip l Hc Hv Hg He). round.
Qed.

(** ** Runs *)

Hint Resolve next_pegin_sign next_graph_presign : guar.

Lemma next_instance_job action i params : guarantee signer_next (run_instance_job deps action i params).
Proof.
  unfold run_instance_job, run_instance_step. round_step; [|round]. apply guarantee_try.
  repeat match goal with |- context [bool_decide ?P] => destruct (bool_decide P); [round|] end. round.
Qed.

Lemma next_round_step action g params step :
  run_round_step deps action g params = Some step → guarantee signer_next step.
Proof.
  unfold run_round_step.
  repeat match goal with
         | |- context [bool_decide ?P] => destruct (bool_decide P); [intros [= <-]; round|]
         end; done.
Qed.

(** A job of the node runs, or another task takes a step; a job may fail anywhere. *)
Inductive round_job_step (s : RoundNode) : RoundNode → Prop :=
| instance_job action i params e : round_job_step s (final (run_instance_job deps action i params s e))
| post_job i e : round_job_step s (final (run_post_pegin_data deps i s e))
| delete_job i e : round_job_step s (final (run_delete_instance_key i s e))
| graph_job action g params step attempts e :
    run_round_step deps action g params = Some step →
    round_job_step s (final (run_graph_job step attempts s e))
| other_task k : round_job_step s (others k s).

Lemma job_step_next s s' : round_job_step s s' → signer_next s s'.
Proof.
  destruct 1 as [| | |? ? ? ? ? ? Hstep|]; [apply next_instance_job|apply next_post, signer_rel|
    apply next_delete_key, signer_rel| |apply others_sign].
  apply next_round_step in Hstep. cut (guarantee signer_next (run_graph_job step attempts)); [auto|].
  unfold run_graph_job. round.
Qed.

Lemma run_ok s s' : rtc round_job_step s s' → signer_ok s → signer_ok s'.
Proof.
  induction 1 as [|s1 s2 s3 Hs _ IH]; [done|]. intros Hok. apply IH. by apply job_step_next in Hs as (_ & _ & Hs); apply Hs.
Qed.

(** A node that has not signed yet. *)
Definition fresh (s : RoundNode) : Prop := rn_authorizations s = [] ∧ rn_signed s = [].

Lemma fresh_ok s : fresh s → signer_ok s.
Proof. intros [Ha Hs]. unfold signer_ok. rewrite Ha, Hs. split; constructor. Qed.

Context `{!Musig2Laws} `{!RoundJsonLaws} `{!TaprootLaws} `{!Sha256Size}.

Lemma pegin_signings_agree s p p' k k' sec sec' agg agg' held held' :
  signer_ok s → PeginSigning p k sec agg held ∈ rn_signed s → PeginSigning p' k' sec' agg' held' ∈ rn_signed s →
  public_nonce sec = public_nonce sec' →
  (p = p' ∧ agg = agg' ∧ ev_committee held = ev_committee held' ∧ ev_pub_nonces held = ev_pub_nonces held') ∨
  pegin_clash p p' (ev_committee held) (ev_committee held') (ev_pub_nonces held) (ev_pub_nonces held').
Proof.
  intros [Hnd Hall] Hin Hin' Hpub. rewrite Forall_forall in Hall.
  destruct (Hall _ Hin) as (_ & h & (Hsz & _ & Hh & Ha) & Hb).
  destruct (Hall _ Hin') as (_ & h' & (Hsz' & _ & Hh' & Ha') & Hb'). rewrite <- Hpub in Hb'.
  assert (h = h') as <- by by eapply binds_same.
  destruct (pegin_consensus_same _ _ _ _ _ _ _ Hsz Hsz' Hh Hh') as [(-> & Hc & Hn)|Hc]; [left|by right].
  by rewrite Ha, Ha', Hn.
Qed.

Lemma graph_signings_agree s g g' k k' secs secs' aggs aggs' held held' es es' :
  signer_ok s → GraphSigning g k secs aggs held es ∈ rn_signed s →
  GraphSigning g' k' secs' aggs' held' es' ∈ rn_signed s →
  data_map public_nonce secs = data_map public_nonce secs' →
  (bg_parameters g = bg_parameters g' ∧ same_sighashes (graph_slots g) (graph_slots g') ∧ aggs = aggs' ∧
   ev_committee held = ev_committee held' ∧ ev_pub_nonces held = ev_pub_nonces held') ∨
  graph_clash g g' (ev_committee held) (ev_committee held') (ev_pub_nonces held) (ev_pub_nonces held').
Proof.
  intros [Hnd Hall] Hin Hin' Hpub. rewrite Forall_forall in Hall.
  destruct (Hall _ Hin) as (_ & _ & h & enc & (Hsz & _ & Hs & Hh & Ha) & He & Hb).
  destruct (Hall _ Hin') as (_ & _ & h' & enc' & (Hsz' & _ & Hs' & Hh' & Ha') & He' & Hb').
  rewrite <- Hpub, He in He'. injection He' as <-. assert (h = h') as <- by by eapply binds_same.
  destruct (graph_consensus_same _ _ _ _ _ _ _ Hsz Hsz' Hs Hs' Hh Hh') as [(Hp & Hc & Hn & Hsame)|Hc];
    [left|by right]. split_and!; [done..| |done|done]. congruence.
Qed.

(** C2: one nonce signs one message.  Along any run of a node's jobs and other tasks, two Peg-In-Confirm
    signatures made with one public nonce are for the same parameters, members and nonces, hence the
    same transaction and aggregate nonce; two pre-signings of graphs made with the same public nonces
    are for the same parameters, sighashes and aggregate nonces - or the two transcripts that every
    member signed are a SHA-256 collision. *)
Theorem one_nonce_one_message s0 s (Hfresh : fresh s0) (Hrun : rtc round_job_step s0 s) :
  (∀ p p' k k' sec sec' agg agg' held held',
     PeginSigning p k sec agg held ∈ rn_signed s → PeginSigning p' k' sec' agg' held' ∈ rn_signed s →
     public_nonce sec = public_nonce sec' →
     (p = p' ∧ agg = agg' ∧ ev_committee held = ev_committee held' ∧
      ev_pub_nonces held = ev_pub_nonces held') ∨
     pegin_clash p p' (ev_committee held) (ev_committee held') (ev_pub_nonces held) (ev_pub_nonces held')) ∧
  (∀ g g' k k' secs secs' aggs aggs' held held' es es',
     GraphSigning g k secs aggs held es ∈ rn_signed s → GraphSigning g' k' secs' aggs' held' es' ∈ rn_signed s →
     data_map public_nonce secs = data_map public_nonce secs' →
     (bg_parameters g = bg_parameters g' ∧ same_sighashes (graph_slots g) (graph_slots g') ∧ aggs = aggs' ∧
      ev_committee held = ev_committee held' ∧ ev_pub_nonces held = ev_pub_nonces held') ∨
     graph_clash g g' (ev_committee held) (ev_committee held') (ev_pub_nonces held) (ev_pub_nonces held')).
Proof.
  pose proof (run_ok _ _ Hrun (fresh_ok _ Hfresh)). split; intros.
  - by eapply pegin_signings_agree.
  - by eapply graph_signings_agree.
Qed.

(** C3: along any run of a node's jobs and other tasks, every use of a secret nonce was justified: the
    signing gate was open, the nonce was bound to the transcript in the authorization table, every
    committee member had signed the transcript's hash and, for a graph, every verifier slot's holder
    had signed the graph parameters. *)
Theorem every_signing_justified s0 s (Hfresh : fresh s0) (Hrun : rtc round_job_step s0 s) :
  Forall (signing_justified (rn_authorizations s)) (rn_signed s).
Proof. exact (proj2 (run_ok _ _ Hrun (fresh_ok _ Hfresh))). Qed.

End Safety.
