(* ===== verification/RoundSample.v ===== *)
(** * A committee of one

    Instances of the libraries and of the outside for a committee with one member, and a node that
    holds the member's key, so that the rounds run on concrete inputs.  The codecs and the
    cryptography are not the real ones: keys sign by naming themselves, and the digest of a message
    is its value modulo 2^256 - 189. *)

From Stdlib Require Import Ascii.
From stdpp Require Import base list strings pretty gmap countable.
From S2P Require Import Prelude Table Storage EngineSchema EngineEffects Executor Sample NodeSchema.
From S2P Require Import LocalDb NodeApply InstanceDecide InstanceAggregate GraphAggregate Admission.
From S2P Require Import Timelocks Committee CommitteeProps RoundStore KeyEnvelope GraphDefs PeginRound.
From S2P Require Import GraphValidate GraphChainState GraphRound RoundNext RoundSafety.

Local Open Scope Z_scope.

(** ** Hashes and texts *)

#[export] Instance round_hash : Sha256 := λ b, be_bytes 32 (le_bytes b mod (2 ^ 256 - 189)).
#[export] Instance round_hash_size : Sha256Size.
Proof. intros m. apply be_bytes_length. Qed.

#[export] Instance round_uuid : UuidText := {
  uuid_to_string u := bits (encode u);
  uuid_from_str s := match parse_bits s ≫= decode with Some u => Ok u | None => Err ["invalid UUID"%string] end;
}.

Definition text_of {A} `{Countable A} (a : A) : outcome string := Ok (bits (encode a)).
Definition value_of {A} `{Countable A} (s : string) : outcome A :=
  match parse_bits s ≫= decode with Some a => Ok a | None => Err ["expected value"%string] end.

Lemma value_of_text {A} `{Countable A} (a : A) s : text_of a = Ok s → value_of s = Ok a.
Proof.
  intros [= <-]. unfold value_of. rewrite <- (app_string_nil (bits _)), parse_bits_bits. cbn.
  by rewrite decode_encode.
Qed.

(** ** Round data *)

(** The values as trees of texts. *)
Abbreviation tree := (gen_tree string).

Definition tree_text (t : tree) : string := match t with GenLeaf s => s | GenNode _ _ => "" end.
Definition option_tree {A} (f : A → tree) (o : option A) : tree :=
  match o with Some a => GenNode 1 [f a] | None => GenNode 0 [] end.
Definition tree_option {A} (g : tree → A) (t : tree) : option A :=
  match t with GenNode _ [a] => Some (g a) | _ => None end.
Definition texts_tree (l : list string) : tree := GenNode 0 (GenLeaf <$> l).
Definition tree_texts (t : tree) : list string :=
  match t with GenNode _ l => tree_text <$> l | GenLeaf _ => [] end.
Definition child (i : nat) (t : tree) : tree :=
  match t with GenNode _ l => default (GenNode 0 []) (l !! i) | GenLeaf _ => GenNode 0 [] end.
Definition tree_index (t : tree) : nat := match t with GenNode n _ => n | GenLeaf _ => 0 end.

Lemma tree_option_tree {A} (f : A → tree) g o : (∀ a, g (f a) = a) → tree_option g (option_tree f o) = o.
Proof. intros Hg. destruct o as [a|]; cbn; [by rewrite Hg|done]. Qed.
Lemma tree_texts_tree l : tree_texts (texts_tree l) = l.
Proof. unfold tree_texts, texts_tree. rewrite <- list_fmap_compose. apply list_fmap_id. Qed.

Definition item_tree (i : InstanceProcessDataItem) : tree :=
  GenNode 0 [option_tree GenLeaf (pd_pub_nonce i); option_tree GenLeaf (pd_agg_nonce_consensus_hash i);
    option_tree GenLeaf (pd_agg_nonce_consensus_signature i); option_tree GenLeaf (pd_partial_sign i);
    GenLeaf (pd_endorse_signature i)].
Definition tree_item (t : tree) : InstanceProcessDataItem :=
  let o := λ i, tree_option tree_text (child i t) in
  mkProcessItem (o 0%nat) (o 1%nat) (o 2%nat) (o 3%nat) (tree_text (child 4 t)).

Definition data_tree (d : CommitteeMusig2Data string) : tree :=
  GenNode 0 [texts_tree (md_take1 d); texts_tree (md_take2 d); texts_tree (md_challenge d);
    texts_tree (md_watchtower_challenge_timeout d); texts_tree (md_operator_challenge_nack d);
    texts_tree (md_operator_commit_timeout d); texts_tree (md_disprove d)].
Definition tree_data (t : tree) : CommitteeMusig2Data string :=
  let l := λ i, tree_texts (child i t) in
  mkMusig2 (l 0%nat) (l 1%nat) (l 2%nat) (l 3%nat) (l 4%nat) (l 5%nat) (l 6%nat).

Lemma tree_data_tree d : tree_data (data_tree d) = d.
Proof.
  destruct d. unfold tree_data, data_tree. cbn -[tree_texts texts_tree].
  by rewrite !tree_texts_tree.
Qed.

Definition graph_item_tree (i : GraphProcessDataItem) : tree :=
  GenNode 0 [option_tree data_tree (gi_committee_pub_nonce i); option_tree GenLeaf (gi_agg_nonce_consensus_hash i);
    option_tree GenLeaf (gi_agg_nonce_consensus_signature i); option_tree data_tree (gi_partial_sigs i);
    option_tree GenLeaf (gi_committee_evm_address i); GenLeaf (gi_endorse_signature i);
    GenLeaf (gi_params_endorse_signature i); option_tree (λ n, GenNode n []) (gi_verifier_index i);
    option_tree GenLeaf (gi_verifier_peer_id i); option_tree GenLeaf (gi_verifier_params_signature i)].
Definition tree_graph_item (t : tree) : GraphProcessDataItem :=
  let o := λ i, tree_option tree_text (child i t) in
  mkGraphItem (tree_option tree_data (child 0 t)) (o 1%nat) (o 2%nat) (tree_option tree_data (child 3 t))
    (o 4%nat) (tree_text (child 5 t)) (tree_text (child 6 t)) (tree_option tree_index (child 7 t))
    (o 8%nat) (o 9%nat).

#[export] Instance data_countable : Countable (CommitteeMusig2Data string).
Proof. apply (inj_countable' data_tree tree_data), tree_data_tree. Defined.
#[export] Instance item_eq_dec : EqDecision InstanceProcessDataItem.
Proof. solve_decision. Defined.
#[export] Instance item_countable : Countable InstanceProcessDataItem.
Proof.
  apply (inj_countable' item_tree tree_item). intros []. unfold tree_item, item_tree. cbn -[tree_option option_tree].
  by rewrite !(tree_option_tree GenLeaf tree_text).
Defined.
#[export] Instance graph_item_eq_dec : EqDecision GraphProcessDataItem.
Proof. solve_decision. Defined.
#[export] Instance graph_item_countable : Countable GraphProcessDataItem.
Proof.
  apply (inj_countable' graph_item_tree tree_graph_item). intros []. unfold tree_graph_item, graph_item_tree.
  cbn -[tree_option option_tree].
  rewrite !(tree_option_tree GenLeaf tree_text) by done.
  rewrite !(tree_option_tree data_tree tree_data) by apply tree_data_tree.
  by rewrite (tree_option_tree (λ n, GenNode n []) tree_index).
Defined.

#[export] Instance round_instance_codec : InstanceCodec := {
  snapshot_from_slice _ := Err ["expected value"%string];
  window_from_slice _ := Err ["expected value"%string];
  minted_from_slice b := Ok b;
  request_from_slice b := Ok b;
  key_delete_params_to_vec reason := Ok reason;
  key_delete_result_from_slice b := Ok (true, b);
  instance_plan_decode _ := Err ["malformed"%string];
  process_data_from_str := value_of;
  graph_endorsed_to_vec id := Ok (uuid_to_string id);
}.
#[export] Instance round_codec : RoundCodec := {
  instance_process_to_string := text_of;
  graph_process_to_string := text_of;
  graph_process_from_str := value_of;
}.
#[export] Instance round_codec_laws : RoundCodecLaws.
Proof. split; intros m s; apply value_of_text. Qed.

(** ** Keys and signatures *)

(** A text in which every character is marked and the end is another mark. *)
Fixpoint delimited (s : string) : string :=
  match s with EmptyString => "." | String c s => String "+"%char (String c (delimited s)) end.

Lemma delimited_prefix_free a b s t : delimited a +:+ s = delimited b +:+ t → a = b ∧ s = t.
Proof.
  revert b. induction a as [|c a IH]; intros [|d b]; cbn [delimited]; rewrite !append_cons; intros Heq;
    try discriminate Heq.
  - injection Heq as Heq. by split.
  - injection Heq as -> Heq. by apply IH in Heq as [-> ->].
Qed.

#[export] Instance round_musig2 : Musig2 := {
  public_key k := k;
  secret_bytes k := k;
  pubkey_to_bytes := delimited;
  xonly pk := pk;
  sign_schnorr k m := k +:+ m;
  verify_schnorr sig m x := if bool_decide (sig = x +:+ m) then Ok tt else Err ["signature failed verification"%string];
  sec_nonce_build seed := seed;
  public_nonce sec := "R" +:+ sec;
  get_nonce_message n := n;
  verify_public_nonce sig n x := is_ok (if bool_decide (sig = x +:+ n) then Ok tt
    else Err (A := unit) ["signature failed verification"%string]);
  generate_aggregated_nonce ns := foldr (λ a b, a +:+ b) "" ns;
  pub_nonce_serialize n := n;
  generate_n_of_n_public_key ks := let key := foldr (λ a b, a +:+ b) "" ks in (key, key);
  key_agg_context_new ks := Ok (foldr (λ a b, a +:+ b) "" ks);
  verify_partial _ sig _ _ nonce _ :=
    if bool_decide (nonce = "R" +:+ sig) then Ok tt else Err ["verification failed"%string];
  hkdf_derive_bytes seed salt info n := sha256 (seed +:+ info);
}.
#[export] Instance round_musig2_laws : Musig2Laws.
Proof.
  split; [|done|apply delimited_prefix_free].
  intros k m. cbn. by rewrite bool_decide_true.
Qed.

(** ** Parameters *)

Definition member : string := "committee-member-0-secret-32byte".
Definition sample_parameters : BitvmGcInstanceParameters :=
  mkInstanceParameters NetRegtest 1%N (mkUserInfo "depositor" (1, 2, 3) [mkInput "funding" 0 50] "user" "change" "refund")
    40 [member] member.

(** Only the sample's own parameters are encoded. *)
Definition only {A} `{EqDecision A} (a b : A) (text : bytes) : outcome bytes :=
  if decide (a = b) then Ok text else Err ["not encoded"%string].

Lemma only_inj {A} `{EqDecision A} (a b c : A) t u : only a b t = Ok u → only a c t = Ok u → b = c.
Proof. unfold only. by repeat case_decide; subst. Qed.

(** A text that fits a [usize]. *)
Definition short (s : string) : outcome bytes :=
  if Z.of_nat (String.length s) <? u64_modulus then Ok s else Err ["capacity overflow"%string].

Lemma short_Ok s b : short s = Ok b → b = s ∧ Z.of_nat (String.length b) < u64_modulus.
Proof. unfold short. destruct (Z.ltb_spec (Z.of_nat (String.length s)) u64_modulus); [|done]. by intros [= <-]. Qed.

Definition filler : PreSigned := mkPreSigned "tx" (mkTransaction "body" [mkTxOut 50 "script"] [[]; []; []; []])
  (replicate 4 (mkTxOut 50 "script")) (replicate 4 "script"%string).

Definition operator : string := "operator-0-secret-of-32-bytes---".
Definition sample_graph_parameters : BitvmGcGraphParameters :=
  mkGraphParameters sample_parameters (mkPrekickoffParameters filler [] [] 0) NODE_REGTEST_TIMELOCK_CONFIG 7%N 0
    20000 operator [] [] "receive" ["watchtower"%string] ["lock"%string]
    (operator_constant (uuid_bytes 7%N) "genesis" "body" ["watchtower"%string])
    [mkCircuitData "verifier" (replicate 7 "lock"%string) []].

#[export] Instance round_json : RoundJson := {
  instance_parameters_to_vec p := only sample_parameters p "parameters";
  graph_parameters_to_vec p := only sample_graph_parameters p "graph parameters";
  pub_nonce_to_vec := short;
  agg_nonce_to_vec := short;
  pub_nonces_to_vec d := short (bits (encode d));
  agg_nonces_to_vec d := short (bits (encode d));
  pub_nonces_bincode d := Ok (bits (encode d));
}.

Lemma bits_inj p q : bits p = bits q → p = q.
Proof.
  intros Heq. apply (f_equal (λ s, parse_bits (s +:+ ""))) in Heq. rewrite !parse_bits_bits in Heq. by injection Heq.
Qed.

#[export] Instance round_json_laws : RoundJsonLaws.
Proof.
  split; cbn.
  - intros p q b. apply only_inj.
  - intros p q b. apply only_inj.
  - intros p b. unfold only. case_decide; [|done]. by intros [= <-].
  - intros m n b [-> _]%short_Ok [Heq _]%short_Ok. done.
  - by intros n b [_ Hb]%short_Ok.
  - intros m n b [-> _]%short_Ok [Heq _]%short_Ok. by apply bits_inj, encode_inj in Heq.
  - by intros n b [_ Hb]%short_Ok.
Qed.

(** ** Transactions *)

#[export] Instance round_taproot : Taproot := {
  tap_leaf_hash s := s;
  taproot_script_spend_signature_hash tx i ps leaf ty := Ok (sha256 (tx_body tx));
  is_p2tr _ := true;
  xonly_from_slice b := Ok b;
  ControlBlock := unit;
  control_block_decode _ := Ok tt;
  verify_taproot_commitment _ _ _ := true;
  taproot_signature_from_slice b := Ok (match b with
    | String "A"%char sig => mkTaprootSignature sig SighashAll
    | String "S"%char sig => mkTaprootSignature sig SinglePlusAnyoneCanPay
    | String _ sig => mkTaprootSignature sig SighashNone
    | EmptyString => mkTaprootSignature "" SighashDefault
    end);
}.
#[export] Instance round_taproot_laws : TaprootLaws.
Proof. intros tx i ps leaf ty h [= <-]. apply round_hash_size. Qed.

#[export] Instance round_goat : Goat := {
  ConnectorData := unit;
  ConnectorZ := unit;
  Connector0Type := unit;
  connector_0_new _ _ := tt;
  connector_z_new _ _ _ _ := tt;
  pegin_deposit_new_unsigned _ _ _ _ _ := Ok filler;
  connector_z_input _ := Ok (mkInput "body" 0 50);
  pegin_confirm_new_for_validation _ _ _ _ message :=
    Ok (filler <| ps_tx := mkTransaction ("confirm" +:+ message) [] [[]] |>);
  pegin_refund_new_for_validation _ _ _ _ := Ok filler;
  sign_input_0_musig2 tx _ sec agg := Ok ("partial:" +:+ sec +:+ agg);
  aggregate_input_0_musig2_signatures _ _ _ _ := Ok (mkTaprootSignature "aggregate" SighashAll);
  push_input_0_signature tx _ _ := tx;
  pre_sign _ _ _ secs _ := Ok secs;
  aggregate_pre_sigs _ _ _ sigs _ := Ok (replicate (length sigs) (mkTaprootSignature "aggregate" SighashAll));
  push_pre_sigs kind tx _ sigs :=
    let tag := match kind with
               | ChallengeTx => "S" | WatchtowerChallengeTimeoutTx | DisproveTx => "N" | _ => "A"
               end in
    let witness := [tag +:+ default "" (ts_signature <$> head sigs); "script"%string; "block"%string] in
    tx <| ps_tx ::= λ t, t <| tx_witness := replicate 4 witness |> |>;
  graph_connector _ _ := tt;
  ack_connectors g := replicate (watchtower_num g) tt;
  prover_connectors p := replicate (length (bp_gc_data p)) tt;
}.

Definition named (body : string) : PreSigned := filler <| ps_tx ::= λ t, t <| tx_body := body |> |>.

(** The graph as its operator pre-signed it. *)
Definition sample_simplified : SimplifiedBitvmGcGraph :=
  mkSimplified true false sample_graph_parameters
    (Some (replicate 6 ["N" +:+ operator +:+ sha256 "body"; "script"%string; "block"%string])) None.

(** The graph with the committee's signatures. *)
Definition sample_finalized : SimplifiedBitvmGcGraph :=
  let sigs := λ n, replicate n (mkTaprootSignature (member +:+ sha256 "body") SighashAll) in
  mkSimplified true true sample_graph_parameters (sg_operator_pre_sigs sample_simplified)
    (Some (mkMusig2 (sigs 2%nat) (sigs 1%nat) (sigs 1%nat) (sigs 1%nat) (sigs 2%nat) (sigs 2%nat) (sigs 2%nat))).

#[export] Instance round_builder : GraphBuilder := {
  generate_bitvm_graph p :=
    let per_watchtower := replicate (length (bp_watchtower_pubkeys p)) filler in
    let per_verifier := replicate (length (bp_gc_data p)) filler in
    Ok (mkBitvmGraph p false false (named "prekickoff") filler filler filler filler filler (named "kickoff") filler
          filler filler
          per_watchtower per_watchtower filler filler per_verifier per_verifier filler);
  compute_txid tx := tx_body tx;
  finalize tx := ps_tx tx;
  simplified_to_string g :=
    if bool_decide (g = sample_simplified) then Ok "graph"%string
    else if bool_decide (g = sample_finalized) then Ok "finalized"%string else Err ["not encoded"%string];
  simplified_from_str s :=
    if bool_decide (s = "graph"%string) then Ok sample_simplified
    else if bool_decide (s = "finalized"%string) then Ok sample_finalized else Err ["expected value"%string];
  node_p2wsh_address k := k;
  node_goat_addr _ := None;
}.

Lemma round_generated p g : generate_bitvm_graph p = Ok g → bg_parameters g = p ∧ graph_shape g.
Proof.
  intros [= <-]. split; [done|]. unfold graph_shape, watchtower_num, verifier_num. cbn.
  by rewrite !length_replicate.
Qed.

(** ** Envelopes *)

Definition nibble (c : ascii) : nat :=
  let n := nat_of_ascii c in if (n <? 58)%nat then (n - 48)%nat else (n - 87)%nat.
Fixpoint unhex (s : string) : bytes :=
  match s with
  | String a (String b s) => String (ascii_of_nat (nibble a * 16 + nibble b)) (unhex s)
  | _ => EmptyString
  end.

Lemma unhex_digits (c : ascii) :
  ascii_of_nat (nibble (hex_digit (nat_of_ascii c / 16)) * 16 + nibble (hex_digit (nat_of_ascii c mod 16))) = c.
Proof. by destruct c as [[] [] [] [] [] [] [] []]. Qed.

Lemma unhex_hex b : unhex (hex_encode b) = b.
Proof. induction b as [|c b IH]; [done|]. cbn [hex_encode unhex]. by rewrite unhex_digits, IH. Qed.

Definition envelope_tuple (v : CommitteeInstanceKeyEnvelope) :=
  (ke_version v, ke_instance_id v, ke_committee_pubkey_hex v, ke_kek_path v, ke_aead_nonce_hex v,
   ke_ciphertext_hex v, ke_created_at v).
#[export] Instance envelope_eq_dec : EqDecision CommitteeInstanceKeyEnvelope.
Proof. solve_decision. Defined.
#[export] Instance envelope_countable : Countable CommitteeInstanceKeyEnvelope.
Proof.
  apply (inj_countable' envelope_tuple (λ '(a, b, c, d, e, f, g), mkEnvelope a b c d e f g)). by intros [].
Defined.

#[export] Instance round_sealing : Sealing := {
  derive_priv k path := k;
  path_to_string path := bits (encode path);
  aead_encrypt key nonce msg aad := Ok msg;
  aead_decrypt key nonce c aad := Ok c;
  hex_decode s := Ok (unhex s);
  pubkey_parse := Ok;
  secret_key_from_slice := Ok;
  envelope_to_vec := text_of;
  envelope_from_slice := value_of;
  random_secret _ := member;
  random_aead_nonce _ := "twelve bytes";
  envelope_path id := bits (encode id);
}.
#[export] Instance round_sealing_laws : SealingLaws.
Proof.
  split; cbn; try done.
  - intros b. by rewrite unhex_hex.
  - intros v b. apply value_of_text.
Qed.

(** ** The outside *)

#[export] Instance round_parameters : ParametersCodec := {
  parameters_to_string _ := Ok "parameters"%string;
  parameters_from_str _ := Ok sample_parameters;
  gen_instance_parameters_local _ := Err ["no committee answers"%string];
}.

(** Nothing happens between the steps of a job. *)
#[export] Instance round_others : Others := λ _ s, s.

Definition sample_pegin : PeginData :=
  mkPeginData PeginPending 1%N "depositor" 40 (1, 2, 3) [mkInput "funding" 0 50] "user" "change" "refund"
    "body" 0 ["0xmember"%string] [member].

#[export] Instance round_outside : Outside := {
  get_bitvm_key := Ok "node master key"%string;
  get_node_goat_private_key := Ok "0xmember"%string;
  key_delete_enabled := true;
  default_signer_address := "0xmember";
  graph_start_cutoff_blocks := 0;
  gateway_get_committee_pubkeys _ _ := Ok [member];
  gateway_get_pegin_data _ _ := Ok sample_pegin;
  gateway_get_post_pegin_digest _ _ txid := Ok txid;
  gateway_answer_pegin_request _ _ _ := Ok tt;
  gateway_post_pegin_data _ _ _ _ := Ok tt;
  committee_mana_get_committee_peer_id _ address := Ok "peer"%string;
  btc_spv_latest_height _ := Ok 110;
  is_known_unregistered _ _ := false;
  is_committee_peer _ _ := true;
  get_height _ := Ok 105;
  get_tx _ _ := Ok (Some (ps_tx filler));
  get_tx_status _ txid :=
    Ok (mkTxStatus (bool_decide (txid ∈ ["prekickoff"; "kickoff"]%string)) None);
  get_tx_info _ _ := Ok None;
  get_output_status _ txid _ :=
    Ok (if bool_decide (txid = "prekickoff"%string) then Some (mkOutputStatus true (Some "kickoff"%string)) else None);
  broadcast_tx _ _ := Ok tt;
  new_uuid n := 5%N;
  peer_from_str := Ok;
  pubkey_from_slice := Ok;
  get_network := NetRegtest;
  address_from_str := Ok;
  require_network a _ := Ok a;
  sign_hash key digest := Ok (key +:+ digest);
  recover_address sig digest := Ok (String.substring 0 (String.length sig - String.length digest) sig);
}.

#[export] Instance round_failures : Failures := {
  classify_failure _ := Transient;
  is_contract_revert _ := false;
}.
#[export] Instance round_plans : PlanCodec := {
  instance_plan_encode _ := Ok "plan"%string;
  key_delete_result_to_vec _ reason := reason;
}.

#[export] Instance round_messages : RoundMessages := {
  pegin_nonce_rest _ := "nonce";
  pegin_nonce_fields b := (member, b, b);
  pegin_vote_rest _ := "vote";
  pegin_vote_fields b := (member, b, b);
  pegin_partial_rest _ := "partial";
  pegin_partial_fields b := (member, b, b);
  graph_nonces_rest _ := "nonces";
  graph_nonces_fields b := (member, mkMusig2 [] [] [] [] [] [] [], mkMusig2 [] [] [] [] [] [] []);
  graph_vote_rest _ := "vote";
  graph_vote_fields b := (member, b, b);
  presign_rest _ := "presign";
  presign_fields b := (member, mkMusig2 [] [] [] [] [] [] [], mkMusig2 [] [] [] [] [] [] []);
  endorse_rest _ := "endorse";
  endorse_fields b := (member, "forged", "0xmember" +:+ sha256 (graph_params_preimage "graph parameters"), "0xmember");
}.

#[export] Instance round_inbound : InboundCodec := {
  inbound_encode m := Ok (im_message m);
  inbound_decode b := Ok (mkInbound "peer" 1%N None None b);
}.
#[export] Instance round_message_codec : MessageCodec := {
  message_to_bincode _ := Err ["not encoded"%string];
  message_from_bincode _ := Err ["unexpected end of file"%string];
  message_to_json m := Ok (event_type (gm_content m));
  message_from_json b :=
    if bool_decide (b = "EndorseGraph"%string) then Ok (mkMessage All (EndorseGraph 1%N 7%N "endorse"))
    else Err ["expected value"%string];
}.

#[export] Instance round_registries : Registries := {
  committee_mana_get_watchtowers _ := Ok ["watchtower"%string];
  committee_mana_is_verifier _ _ := Ok true;
  stake_mana_pubkey_to_address _ k := Ok k;
  stake_mana_lock_stake_of _ _ := Ok 100;
  gateway_get_min_stake_amount _ := Ok 1;
  gateway_get_post_graph_digest _ _ _ d := Ok (sha256 (ga_operator_pubkey d));
  get_genesis_sequencer_commit_id := "genesis";
  get_min_required_verifier := Ok 1%nat;
  xonly_serialize k := k;
  txid_to_byte_array txid := txid;
}.
#[export] Instance round_chain : ChainReads := {
  gateway_get_graph_data _ _ := Ok (mkGraphData "" "" "" "" "" "" "" "" [] [] [] "");
  connector_a_input _ := Ok (mkInput "body" 0 50);
  connector_d_input _ := Ok (mkInput "body" 1 50);
  kickoff_connector_vout := 0;
  watchtower_connector_vout := Z.of_nat;
  sub_status_to_string _ := Ok "{}"%string;
}.
#[export] Instance round_graph_messages : GraphMessages := {
  create_graph_fields _ := sample_simplified;
  verifier_endorsement_fields b := ("verifier"%string, 0%nat, b, b);
  finalize_rest _ := "finalize";
  finalize_fields _ := ([], [], sample_finalized);
  peer_to_string p := p;
  get_peer_id := "me";
  get_node_goat_address := Some "0xmember"%string;
  committee_ack_peers _ := [];
  registry_is_verifier _ _ := true;
  selected_verifier_peers _ _ _ := Ok ["verifier peer"%string];
  gateway_post_graph_data _ _ _ _ _ := Ok tt;
  graph_plan_encode _ := Ok "plan"%string;
}.

(** ** A member about to vote

    The instance's row is [Presigned] with its Prepare confirmed at height 100, the member's key is
    in its envelope and the member's nonce is stored. *)

Definition round_deps : JobDeps := mkDeps Committee false (mkDeadlines 10 5 6).

Definition round_row : Instance_ :=
  mkInstance 1%N "" "" "" 0 [] "" (instance_status_str Presigned) "" 0 "" "" "" None 100 None None []
    "" (Some "parameters"%string) None false 0 0 0.

Definition envelope_text : bytes :=
  bits (encode (mkEnvelope COMMITTEE_ENVELOPE_VERSION 1%N member
    (path_to_string (committee_kek_derivation_path 1%N)) (hex_encode "twelve bytes") (hex_encode member) 90)).

Definition own_nonce : string :=
  match nonce_for_instance_job_with_keypair sample_parameters member with Ok d => d.1.2 | Err _ => "" end.

Definition round_data : string := bits (encode [(member, mkProcessItem (Some own_nonce) None None None "")]).

Definition no_graph : BitvmGcGraph :=
  mkBitvmGraph sample_graph_parameters false false filler filler filler filler filler filler filler filler
    filler filler [] [] filler filler [] [] filler.
Definition sample_full : BitvmGcGraph := unwrap_or (from_simplified sample_simplified) no_graph.
Definition sample_hash : bytes := sha256 (graph_params_preimage "graph parameters").
Definition round_graph_row : Graph := convert_graph sample_full 90 OperatorPresigned (hex_encode sample_hash).

(** The member's nonces and the verifier's endorsement of the graph. *)
Definition own_nonces : CommitteePubNonces :=
  match nonces_for_graph_job_with_keypair sample_full member with
  | Ok d => d.1.1
  | Err _ => mkMusig2 [] [] [] [] [] [] []
  end.
Definition round_graph_data : string := bits (encode
  [(member, default_graph_item <| gi_committee_pub_nonce := Some own_nonces |>);
   ("verifier"%string, default_graph_item <| gi_verifier_index := Some 0%nat |>
      <| gi_verifier_peer_id := Some "verifier peer"%string |>
      <| gi_verifier_params_signature := Some ("verifier" +:+ sample_hash) |>)]).

Definition round_node : RoundNode :=
  mkRoundNode
    (mkTables [round_row] [round_graph_row] [] [mkInstanceProcess 1%N round_data 90 90]
       [mkGraphProcess 7%N 1%N round_graph_data false 90 90]
       [mkRawData 7%N "graph" 90 90])
    [] {[1%N := envelope_text]} 0 [].

Definition after_vote : RoundNode :=
  final (run_instance_job round_deps JOB_PEGIN_CONFIRM_VOTE 1%N None round_node (quiet 100)).

(** The first signature is lost when the node fails to store it; it signs again. *)
Definition after_crash : RoundNode :=
  final (run_instance_job round_deps JOB_PEGIN_CONFIRM_SIGN 1%N None after_vote
           (mkEnv (replicate 16 false ++ [true]) 101 [])).
Definition after_sign : RoundNode :=
  final (run_instance_job round_deps JOB_PEGIN_CONFIRM_SIGN 1%N None after_crash (quiet 102)).

Definition graph_step (action : string) (s : RoundNode) : RoundNode :=
  match run_round_step round_deps action 7%N "" with
  | Some step => final (run_graph_job step 0 s (quiet 103))
  | None => s
  end.
Definition after_presign : RoundNode := graph_step JOB_COMMITTEE_PRESIGN (graph_step JOB_COMMITTEE_VOTE after_sign).

(** The member's endorsements of the finalized graph. *)
Definition sample_endorsements : list Endorsement :=
  [(member, "0xmember"%string, "0xmember" +:+ sha256 (String.substring 1 32 (pubkey_to_bytes operator)))].
Definition sample_params_endorsements : list Endorsement :=
  [(member, "0xmember"%string, "0xmember" +:+ sample_hash)].

(** ** The runs *)

Lemma round_others_sign k s : signer_next round_deps s (others k s).
Proof. by split_and!. Qed.

Lemma round_sized k i keys : gateway_get_committee_pubkeys k i = Ok keys → sized keys.
Proof. by intros [= <-]. Qed.

Lemma graph_step_runs action s : round_job_step round_deps s (graph_step action s).
Proof.
  unfold graph_step. destruct (run_round_step round_deps action 7%N "") as [step|] eqn:Hstep.
  - exact (graph_job _ _ _ _ _ _ 0 (quiet 103) Hstep).
  - exact (other_task _ s 0).
Qed.

Lemma signed_run : rtc (round_job_step round_deps) round_node after_sign.
Proof.
  apply (rtc_l _ _ after_vote); [exact (instance_job _ _ _ _ _ (quiet 100))|].
  apply (rtc_l _ _ after_crash); [exact (instance_job _ _ _ _ _ _)|].
  apply (rtc_once _ after_sign); exact (instance_job _ _ _ _ _ (quiet 102)).
Qed.

Lemma presigned_run : rtc (round_job_step round_deps) round_node after_presign.
Proof.
  transitivity after_sign; [exact signed_run|].
  apply (rtc_l _ _ (graph_step JOB_COMMITTEE_VOTE after_sign)); [exact (graph_step_runs _ _)|].
  apply rtc_once. exact (graph_step_runs _ _).
Qed.

(** The member signed twice with one nonce, after the crash and before; both times the same message. *)
Lemma one_nonce_one_message_witness :
  length (rn_signed after_sign) = 2%nat ∧
  ∀ p p' k k' sec sec' agg agg' held held',
    PeginSigning p k sec agg held ∈ rn_signed after_sign → PeginSigning p' k' sec' agg' held' ∈ rn_signed after_sign →
    public_nonce sec = public_nonce sec' →
    (p = p' ∧ agg = agg' ∧ ev_committee held = ev_committee held' ∧ ev_pub_nonces held = ev_pub_nonces held') ∨
    pegin_clash p p' (ev_committee held) (ev_committee held') (ev_pub_nonces held) (ev_pub_nonces held').
Proof.
  split; [vm_compute; reflexivity|].
  exact (proj1 (one_nonce_one_message round_deps round_others_sign round_sized round_generated round_node
    after_sign (conj eq_refl eq_refl) signed_run)).
Defined.

(** Two signatures of the Peg-In-Confirm and one of the graph. *)
Lemma every_signing_justified_witness :
  length (rn_signed after_presign) = 3%nat ∧
  Forall (signing_justified round_deps (rn_authorizations after_presign)) (rn_signed after_presign).
Proof.
  split; [vm_compute; reflexivity|].
  exact (every_signing_justified round_deps round_others_sign round_sized round_generated round_node
    after_presign (conj eq_refl eq_refl) presigned_run).
Defined.

(** ** Partial signatures and keys *)

Definition own_signing : outcome (CommitteePubNonces * CommitteeAggNonces * CommitteePartialSignatures) :=
  derived ← nonces_for_graph_job_with_keypair sample_full member;
  aggs ← nonces_aggregation [derived.1.1];
  sigs ← committee_pre_sign member derived.1.2 aggs sample_full;
  Ok (derived.1.1, aggs, sigs).
