(* ===== verification/RoundProps.v ===== *)
(** * What the committee's rounds keep and check

    The values of a round in committee order, the stored round material and what a failed read does
    to it, graph definitions in the tables, the committee behind a finalized graph, and the reading
    of a graph's status from the chain. *)

From stdpp Require Import base list strings pretty gmap.
From S2P Require Import Prelude Table Storage EngineSchema EngineEffects Executor NodeSchema LocalDb.
From S2P Require Import NodeApply InstanceDecide InstanceAggregate GraphAggregate Admission Timelocks.
From S2P Require Import Committee CommitteeProps RoundStore KeyEnvelope GraphDefs PeginRound.
From S2P Require Import GraphPegout GraphValidate GraphChainState GraphRound RoundNext RoundSafety RoundSample.

Local Open Scope Z_scope.

(** ** Values in committee order *)

Lemma for_each_check {A} (check : A → outcome unit) l :
  for_each (λ _, check) tt l = Ok tt ↔ Forall (λ x, check x = Ok tt) l.
Proof.
  induction l as [|x l IH]; cbn [for_each]; [by split|]. rewrite Forall_cons, <- IH.
  destruct (check x) as [[]|]; cbn; [by split; [|intros [_ ?]]|by split; [|intros [? _]]].
Qed.

Lemma mapM_Ok {A B} (f : A → outcome B) l l' : mapM f l = Ok l' ↔ Forall2 (λ x y, f x = Ok y) l l'.
Proof.
  revert l'. induction l as [|x l IH]; intros l'; cbn [mapM].
  - split; [by intros [= <-]|by intros ->%Forall2_nil_inv_l].
  - split.
    + intros Heq. apply outcome_bind_Ok in Heq as (y & Hy & Heq). apply outcome_bind_Ok in Heq as (ys & Hys & Heq).
      injection Heq as <-. by constructor; [|apply IH].
    + intros (y & ys & Hy & Hys & ->)%Forall2_cons_inv_l. apply IH in Hys. rewrite Hy. cbn. by rewrite Hys.
Qed.

Lemma distinct_keys {K V} (l : list (K * V)) :
  NoDup l.*1 ↔ ∀ i k x, l !! i = Some (k, x) → k ∉ (drop (S i) l).*1.
Proof.
  induction l as [|[k x] l IH]; [split; [done|constructor]|]. rewrite fmap_cons, NoDup_cons, IH. split.
  - intros [Hk Hl] [|i] k' x' Hi; cbn in *; [by injection Hi as -> ->|by eapply Hl].
  - intros Hall. split; [by apply (Hall 0%nat k x)|]. intros i. apply (Hall (S i)).
Qed.

Section Ordered.
Context {T : Type} (ks : list string) (label : string).
Implicit Types vs : list (string * T).

Lemma not_later k vs : negb (existsb (λ other, bool_decide (other.1 = k)) vs) = true ↔ k ∉ vs.*1.
Proof.
  rewrite negb_true_iff, existsb_none. split.
  - intros Hn ([k' x] & -> & Hin)%list_elem_of_fmap. specialize (Hn _ Hin). by rewrite bool_decide_true in Hn.
  - intros Hn [k' x] Hin. apply bool_decide_eq_false. intros <-. apply Hn. apply list_elem_of_fmap. by eexists.
Qed.

Lemma elem_of_enumerate {A} (l : list A) i x : (i, x) ∈ enumerate l ↔ l !! i = Some x.
Proof.
  unfold enumerate. rewrite list_elem_of_lookup. split.
  - intros [j Hj]. apply lookup_zip_Some in Hj as [Hi Hx]. by apply lookup_seq in Hi as [-> _].
  - intros Hx. exists i. apply lookup_zip_Some. split; [|done]. apply lookup_seq. by apply lookup_lt_Some in Hx.
Qed.

Lemma found_value vs k x :
  NoDup vs.*1 → (snd <$> find (λ v, bool_decide (v.1 = k)) vs) = Some x ↔ (k, x) ∈ vs.
Proof.
  intros Hnd. split.
  - intros ([k' x'] & Hf & ->)%fmap_Some. apply find_some_elem in Hf as [Hin Hk].
    apply bool_decide_eq_true in Hk. cbn in Hk. by subst k'.
  - intros Hin. destruct (find_is_some (λ v, bool_decide (v.1 = k)) vs (k, x) Hin) as [[k' x'] Hf].
    { by apply bool_decide_eq_true. }
    rewrite Hf. apply find_some_elem in Hf as [Hin' Hk]. apply bool_decide_eq_true in Hk. cbn in Hk. subst k'.
    pose proof (NoDup_map_inj fst vs _ _ Hnd Hin' Hin eq_refl) as Heq. by injection Heq as ->.
Qed.

(** Collected values are put in committee order exactly when every value is a member's, no member has
    two and every member has one; the result then holds each member's value at the member's place. *)
Theorem committee_values_ordered vs l :
  order_committee_values ks vs label = Ok l ↔
  NoDup vs.*1 ∧ (∀ k, k ∈ vs.*1 → k ∈ ks) ∧ Forall2 (λ k x, (k, x) ∈ vs) ks l.
Proof.
  unfold order_committee_values.
  match goal with |- (for_each ?f tt _;; _) = _ ↔ _ => set (check := f) end.
  assert (Hloop : for_each check tt (enumerate vs) = Ok tt ↔ NoDup vs.*1 ∧ ∀ k, k ∈ vs.*1 → k ∈ ks).
  { unfold check. rewrite for_each_check, Forall_forall, distinct_keys. split.
    - intros Hall.
      assert (Hx : ∀ i k x, vs !! i = Some (k, x) → k ∈ ks ∧ k ∉ (drop (S i) vs).*1).
      { intros i k x Hi. apply elem_of_enumerate, Hall in Hi. apply outcome_bind_Ok in Hi as (u & Hk & Hn).
        apply require_Ok in Hk, Hn. by apply bool_decide_eq_true in Hk; apply not_later in Hn. }
      split; [intros i k x Hi; by apply (Hx i k x)|].
      intros k ([k' x] & -> & [i Hi]%list_elem_of_lookup)%list_elem_of_fmap. by eapply Hx.
    - intros [Hnd Hk] [i [k x]] Hi. apply elem_of_enumerate in Hi. rewrite bool_decide_true; cbn.
      + rewrite (proj2 (not_later _ _)); [done|by eapply Hnd].
      + apply Hk. apply list_elem_of_fmap. exists (k, x). split; [done|]. by eapply list_elem_of_lookup_2. }
  assert (Hmap : NoDup vs.*1 → mapM (λ k, expect (snd <$> find (λ v, bool_decide (v.1 = k)) vs)
      (label +:+ " missing pubkey " +:+ k)) ks = Ok l ↔ Forall2 (λ k x, (k, x) ∈ vs) ks l).
  { intros Hnd. rewrite mapM_Ok. split; intros Hf; (eapply Forall2_impl; [exact Hf|]); intros k x;
      cbn; by rewrite expect_Ok, found_value. }
  split.
  - intros Heq. apply outcome_bind_Ok in Heq as ([] & Hl%Hloop & Hm). destruct Hl as [Hnd Hk].
    by apply Hmap in Hm.
  - intros (Hnd & Hk & Hf). rewrite (proj2 Hloop) by done. cbn. by apply Hmap.
Qed.

End Ordered.

(** ** A read that fails *)

Section Material.
Context `{UuidText} `{RoundCodec} `{Others}.

(** The text stored for an instance. *)
Definition stored_text (i : Uuid) (s : RoundNode) : option string :=
  ip_process_data <$> select_one (λ r, bool_decide (ip_instance_id r = i))
    (t_pegin_instance_process_data (rn_tables s)).

Lemma find_update_where {A} (p : A → bool) f (l : list A) :
  (∀ x, p (f x) = p x) → List.find p (update_where p f l) = f <$> List.find p l.
Proof.
  intros Hf. unfold update_where. induction l as [|x l IH]; [done|]. cbn [map List.find].
  destruct (p x) eqn:Hx; [by rewrite Hf, Hx|by rewrite Hx, IH].
Qed.

Lemma find_app_new {A} (p : A → bool) l x : existsb p l = false → p x = true → List.find p (l ++ [x]) = Some x.
Proof.
  intros Hl Hx. induction l as [|y l IH]; cbn in *; [by rewrite Hx|]. by destruct (p y); [|apply IH].
Qed.

Lemma upsert_stores d (s : RoundNode) e s' e' :
  on_rows (upsert_pegin_instance_process_data d) s e = (Ok true, s', e') →
  stored_text (ip_instance_id d) s' = Some (ip_process_data d).
Proof.
  unfold on_rows, interfere, focus, upsert_pegin_instance_process_data, stmt, mbind, st_bind.
  destruct (next_fault e) as [[] e1]; [done|]. intros [= <- _]. unfold stored_text, select_one. cbn.
  destruct (existsb _ _) eqn:Hex; cbn.
  - rewrite find_update_where by done. apply existsb_exists in Hex as (x & Hx%list_elem_of_In & Hp).
    destruct (find_is_some (λ r, bool_decide (ip_instance_id r = ip_instance_id d)) _ x Hx Hp) as [y Hy]. by rewrite Hy.
  - by rewrite (find_app_new _ _ d Hex); [|apply bool_decide_eq_true].
Qed.

Lemma upsert_runs d (s : RoundNode) e rest :
  faults e = false :: rest → ∃ s' e', on_rows (upsert_pegin_instance_process_data d) s e = (Ok true, s', e').
Proof.
  intros Hf. unfold on_rows, interfere, focus, upsert_pegin_instance_process_data, stmt, mbind, st_bind, next_fault.
  rewrite Hf. eauto.
Qed.

Lemma clock_faults (s : RoundNode) e : ∃ now e', clock_now s e = (Ok now, s, e') ∧ faults e' = faults e.
Proof. unfold clock_now. destruct (readings e); eauto. Qed.

(** C39: a read of the stored material that fails counts as an empty map: the next value of a round
    that is stored erases everything stored before - other members' nonces and votes, and this
    member's own - and the write-once check does not see them. *)
Theorem failed_read_erases_material `{!RoundCodecLaws} i pk v s e rest text
    (Hfaults : faults e = false :: true :: false :: rest)
    (Htext : instance_process_to_string [(pk, default_instance_item <| pd_partial_sign := Some v |>)] = Ok text) :
  ∃ s' e', store_committee_partial_sig_for_instance i pk v s e = (Ok tt, s', e') ∧
    (process_data_from_str <$> stored_text i s') =
      Some (Ok [(pk, default_instance_item <| pd_partial_sign := Some v |>)]).
Proof.
  destruct e as [f c r]. cbn in Hfaults. subst f.
  unfold store_committee_partial_sig_for_instance, store_instance_item, upsert_instance_process_data.
  unfold acquire_local, stmt, mbind, st_bind, interfere, find_pegin_instance_process_data.
  unfold on_rows at 1. unfold focus, find_instance_process_row, mbind, st_bind, interfere, query, stmt.
  cbn -[clock_now on_rows]. cbn in Htext. rewrite Htext. cbv iota.
  match goal with |- context [clock_now ?s1 ?e1] => destruct (clock_faults s1 e1) as (now & e2 & -> & Hf) end.
  match goal with |- context [on_rows (upsert_pegin_instance_process_data ?d) ?s1] =>
    destruct (upsert_runs d s1 e2 rest Hf) as (s2 & e3 & Hup) end.
  rewrite Hup. exists s2, e3. split; [done|]. apply upsert_stores in Hup. cbn in Hup. rewrite Hup. cbn.
  f_equal. by apply instance_process_roundtrip.
Qed.

End Material.

(** Another member's partial signature is stored; the read that precedes the next one fails. *)
Definition held_material : RoundNode :=
  final (store_committee_partial_sig_for_instance 1%N "other" "sig-0" round_node (quiet 100)).
Definition failed_read : Env := mkEnv [false; true; false] 100 [].

Lemma failed_read_erases_material_witness :
  match process_data_from_str <$> stored_text 1%N held_material with
  | Some (Ok m) => pd_partial_sign <$> im_get "other" m
  | _ => None
  end = Some (Some "sig-0"%string) ∧
  ∃ s' e', store_committee_partial_sig_for_instance 1%N "m" "sig-1" held_material failed_read = (Ok tt, s', e') ∧
    (process_data_from_str <$> stored_text 1%N s') =
      Some (Ok [("m"%string, default_instance_item <| pd_partial_sign := Some "sig-1"%string |>)]).
Proof.
  split; [vm_compute; reflexivity|].
  exact (failed_read_erases_material 1%N "m" "sig-1" held_material failed_read [] _ eq_refl eq_refl).
Defined.


(** ** The committee behind a finalized graph *)

Section Finalized.
Context `{UuidText} `{RoundCodec} `{ParametersCodec} `{Others} `{Sha256} `{Musig2} `{RoundJson}.
Context `{Taproot} `{Goat} `{GraphBuilder} `{Outside} `{Registries} `{Failures}.

(** A member's endorsement: the address is the member's on Goat and signed. *)
Definition endorses (members : list (bytes * string)) (verify : string → bytes → outcome bool)
    (e : Endorsement) : Prop :=
  on_chain_address e.1.1 members = Ok (Some e.1.2) ∧ verify e.1.2 e.2 = Ok true.

Lemma check_endorsement_Ok tag what who members verify seen e seen' :
  check_endorsement tag what who members verify seen e = Ok seen' →
  seen'.1 = e.1.1 :: seen.1 ∧ (e.1.1 ∉ seen.1) ∧ endorses members verify e.
Proof.
  destruct e as [[pk addr] sig]. unfold check_endorsement, endorses. cbn. intros Heq.
  apply outcome_bind_Ok in Heq as (? & Hpk%require_graph_Ok & Heq). apply outcome_bind_Ok in Heq as (? & _ & Heq).
  apply outcome_bind_Ok in Heq as ([expected|] & Hon & Heq); [|done].
  apply outcome_bind_Ok in Heq as (? & Ha%require_graph_Ok & Heq).
  apply outcome_bind_Ok in Heq as (ok & Hok & Heq). apply outcome_bind_Ok in Heq as (? & ->%require_graph_Ok & Heq).
  injection Heq as <-. apply bool_decide_eq_true in Ha. subst expected.
  split_and!; [done|by apply negb_true_iff, bool_decide_eq_false in Hpk|done|].
  unfold invalid_graph in Hok. by destruct (verify addr sig).
Qed.

Lemma check_endorsements_loop tag what who members verify seen es seen' :
  for_each (check_endorsement tag what who members verify) seen es = Ok seen' →
  NoDup seen.1 → NoDup (es.*1.*1 ++ seen.1) ∧ Forall (endorses members verify) es.
Proof.
  revert seen. induction es as [|e es IH]; intros seen Heq Hnd; [by split|].
  cbn [for_each] in Heq. apply outcome_bind_Ok in Heq as (seen1 & He & Heq).
  apply check_endorsement_Ok in He as (Hs & Hnew & He). destruct (IH seen1 Heq) as [Hes Hall].
  { rewrite Hs. by constructor. }
  split; [|by constructor]. rewrite Hs in Hes. cbn.
  by rewrite (Permutation_middle (es.*1.*1) seen.1 e.1.1).
Qed.

Definition parsed_key (key : bytes) : option PublicKey :=
  match pubkey_from_slice key with Ok pk => Some pk | Err _ => None end.

Lemma on_chain_member pk members addr :
  on_chain_address pk members = Ok (Some addr) → pk ∈ omap parsed_key members.*1.
Proof.
  induction members as [|[key a] members IH]; [done|]. cbn [on_chain_address fmap list_fmap fst]. intros Heq.
  apply outcome_bind_Ok in Heq as (pk' & Hpk & Heq). unfold invalid_graph in Hpk.
  assert (Hparsed : parsed_key key = Some pk').
  { unfold parsed_key. destruct (pubkey_from_slice key); [by injection Hpk as ->|done]. }
  apply list_elem_of_omap. case_bool_decide; [subst pk'; exists key; split; [by left|done]|].
  apply IH, list_elem_of_omap in Heq as (k & Hk & Hp). exists k. split; [by right|done].
Qed.

Lemma omap_all {A B} (f : A → option B) l : length (omap f l) = length l → mapM f l = Some (omap f l).
Proof.
  assert (Hle : ∀ l, (length (omap f l) ≤ length l)%nat).
  { intros l'. induction l' as [|x l' IH]; [done|]. cbn. destruct (f x); cbn; lia. }
  induction l as [|x l IH]; [done|]. cbn. destruct (f x) as [y|]; cbn; intros Hlen; [|specialize (Hle l); lia].
  injection Hlen as Hlen. by rewrite IH.
Qed.

(** Endorsements of as many distinct members as there are keys are those of all of them. *)
Lemma endorsers_are_members tag what who keys addresses verify es u :
  length keys = length addresses → length es = length keys →
  check_endorsements tag what who (zip keys addresses) verify es = Ok u →
  ∃ ks, mapM parsed_key keys = Some ks ∧ es.*1.*1 ≡ₚ ks ∧ Forall (endorses (zip keys addresses) verify) es.
Proof.
  intros Hka Hlen Heq. apply outcome_bind_Ok in Heq as (seen & Hseen & _).
  apply check_endorsements_loop in Hseen as [Hnd Hall]; [|constructor]. rewrite app_nil_r in Hnd.
  assert (Hperm : es.*1.*1 ≡ₚ omap parsed_key keys).
  { assert (Hle : (length (omap parsed_key keys) ≤ length (es.*1.*1))%nat).
    { rewrite !length_fmap, Hlen. clear. induction keys as [|key keys IH]; [done|]. cbn.
      destruct (parsed_key key); cbn; lia. }
    apply submseteq_length_Permutation; [|done]. apply NoDup_submseteq; [done|].
    intros pk ([? ?] & -> & (e & -> & He)%list_elem_of_fmap)%list_elem_of_fmap.
    rewrite Forall_forall in Hall. destruct (Hall e He) as [Hon _]. apply on_chain_member in Hon.
    by rewrite fst_zip in Hon by lia. }
  exists (omap parsed_key keys). split_and!; [|done|done]. apply omap_all.
  by rewrite <- Hperm, !length_fmap.
Qed.

Lemma yields_in_context {A} c (m : ST RoundNode A) Q : yields m Q → yields (in_context c m) Q.
Proof.
  intros Hm s e a s' e' Heq. unfold in_context in Heq. destruct (m s e) as [[[b|x] t] e1] eqn:Hb; [|done].
  injection Heq as -> -> ->. by eapply Hm.
Qed.

(** The digest Goat gives for a graph. *)
Definition goat_digest (full : BitvmGcGraph) (digest : bytes) : Prop :=
  ∃ data k, build_graph_data full = Ok data ∧
    gateway_get_post_graph_digest k (bi_instance_id (bp_instance_parameters (bg_parameters full)))
      (bp_graph_id (bg_parameters full)) data = Ok digest.

Lemma digest_returned full : yields (get_graph_digest full) (goat_digest full).
Proof.
  unfold get_graph_digest. apply (yields_bind _ _ (λ data, build_graph_data full = Ok data)).
  { by apply yields_lift. }
  intros data Hd. apply yields_ask. intros k digest Hk. by exists data, k.
Qed.

Lemma required_count (a b : nat) message : yields (S := RoundNode) (st_lift (require_graph (a =? b)%nat message)) (λ _, a = b).
Proof. apply yields_lift. intros u Hu%require_graph_Ok. by apply Nat.eqb_eq. Qed.

(** C9: a finalized graph is accepted only with the signatures of its operator and of the committee on
    every pre-signed input, and with endorsements of the graph and of its parameters by exactly the
    committee that Goat names for the instance: each member once, with the member's address, and
    each signature recovering to that address. *)
Theorem finalized_by_whole_committee graph es ps s e s' e'
    (Hok : validate_finalized_graph graph es ps s e = (Ok tt, s', e')) :
  ∃ full data digest members ks,
    from_simplified graph = Ok full ∧
    verify_graph_operator_pre_signatures full = Ok tt ∧ verify_graph_committee_pre_signatures full = Ok tt ∧
    (∃ k, gateway_get_pegin_data k (bi_instance_id (bp_instance_parameters (sg_parameters graph))) = Ok data) ∧
    mapM parsed_key (pn_committee_pubkeys data) = Some ks ∧ es.*1.*1 ≡ₚ ks ∧ ps.*1.*1 ≡ₚ ks ∧
    members = zip (pn_committee_pubkeys data) (pn_committee_addresses data) ∧ goat_digest full digest ∧
    Forall (λ '(pk, address, sig), on_chain_address pk members = Ok (Some address) ∧
              recover_address sig digest = Ok address) es ∧
    Forall (λ '(pk, address, sig), on_chain_address pk members = Ok (Some address) ∧
              ∃ h, canonical_graph_params_hash (bg_parameters full) = Ok h ∧
                   recover_address sig h = Ok address) ps.
Proof.
  revert s e s' e' Hok.
  match goal with |- ∀ s e s' e', _ → ?Q => cut (yields (validate_finalized_graph graph es ps) (λ _, Q));
    [by intros Hr s e s' e' Hok; eapply Hr|] end.
  unfold validate_finalized_graph. destruct (_ || _); [apply yields_fail|].
  apply (yields_bind _ _ (λ full, from_simplified graph = Ok full)).
  { apply yields_lift. intros full. unfold invalid_graph. by destruct (from_simplified graph). }
  intros full Hfull. apply yields_skip. intros _.
  apply (yields_bind _ _ (λ _, verify_graph_operator_pre_signatures full = Ok tt)).
  { apply yields_lift. intros []. unfold invalid_graph. by destruct (verify_graph_operator_pre_signatures full). }
  intros _ Hop. apply (yields_bind _ _ (λ _, verify_graph_committee_pre_signatures full = Ok tt)).
  { apply yields_lift. intros []. unfold invalid_graph. by destruct (verify_graph_committee_pre_signatures full). }
  intros _ Hco. do 3 (apply yields_skip; intros _).
  apply (yields_bind _ _ (λ data, ∃ k, gateway_get_pegin_data k
    (bi_instance_id (bp_instance_parameters (sg_parameters graph))) = Ok data)).
  { apply yields_in_context, yields_ask. by intros k data Hk; exists k. }
  intros data Hdata. eapply yields_bind; [apply yields_in_context, digest_returned|]. intros digest Hdigest.
  eapply yields_bind; [apply required_count|]. intros [] Hka. eapply yields_bind; [apply required_count|].
  intros [] Hes. eapply yields_bind; [apply required_count|]. intros [] Hps.
  eapply yields_bind; [apply yields_lift; intros u; apply endorsers_are_members; done|].
  intros [] (ks & Hks & Hperm & Hall). apply yields_lift. intros u Hu.
  apply endorsers_are_members in Hu as (ks' & Hks' & Hperm' & Hall'); [|done..].
  rewrite Hks in Hks'. injection Hks' as <-. 
  exists full, data, digest, (zip (pn_committee_pubkeys data) (pn_committee_addresses data)), ks.
  split_and!; [done..| |]; (eapply Forall_impl; [eassumption|]); intros [[pk address] sig] [Hon Hv];
    (split; [done|]); cbn in *.
  - unfold verify_graph_endorsement_digest in Hv. apply outcome_bind_Ok in Hv as (a & Ha & Hv).
    injection Hv as Hv%bool_decide_eq_true. by subst.
  - unfold verify_graph_params_endorsement in Hv. apply outcome_bind_Ok in Hv as (h & Hh & Hv).
    apply outcome_bind_Ok in Hv as (a & Ha & Hv). injection Hv as Hv%bool_decide_eq_true. exists h. by subst.
Qed.

End Finalized.

(** The sample's finalized graph, which its one member endorsed. *)
Lemma finalized_by_whole_committee_witness : ∃ full ks,
  from_simplified sample_finalized = Ok full ∧ verify_graph_committee_pre_signatures full = Ok tt ∧
  sample_endorsements.*1.*1 ≡ₚ ks ∧ sample_params_endorsements.*1.*1 ≡ₚ ks.
Proof.
  pose (run := validate_finalized_graph sample_finalized sample_endorsements sample_params_endorsements round_node
    (quiet 5)).
  assert (Hok : run.1.1 = Ok tt) by (vm_compute; reflexivity).
  destruct (finalized_by_whole_committee sample_finalized sample_endorsements sample_params_endorsements round_node
    (quiet 5) run.1.2 run.2) as (full & data & digest & members & ks & Hf & _ & Hc & _ & _ & He & Hp & _).
  { fold run. rewrite <- Hok. by destruct run as [[? ?] ?]. }
  exists full, ks. exact (conj Hf (conj Hc (conj He Hp))).
Defined.

(** ** The chain behind a status *)

Section Scan.
Context `{UuidText} `{Others} `{Musig2} `{Goat} `{GraphBuilder} `{Outside} `{Registries} `{ChainReads}.
Context (g : BitvmGcGraph).

Definition confirmed_tx (txid : Txid) : Prop :=
  ∃ k status, get_tx_status k txid = Ok status ∧ xs_confirmed status = true.
(** A confirmed transaction spends the output. *)
Definition spent_by (txid : Txid) (vout : Z) (spender : Txid) : Prop :=
  (∃ k output, get_output_status k txid vout = Ok (Some output) ∧ os_txid output = Some spender) ∧
  confirmed_tx spender.

Definition kicked_off : Prop :=
  confirmed_tx (signed_txid (bg_cur_prekickoff g)) ∧
  spent_by (signed_txid (bg_cur_prekickoff g)) kickoff_connector_vout (signed_txid (bg_kickoff g)).
Definition kickoff_spent (spender : Txid) : Prop :=
  kicked_off ∧ ∃ a, connector_a_input (bg_kickoff g) = Ok a ∧ spent_by (in_txid a) (in_vout a) spender.
(** The challenge is the spender of connector A that is not Take-1. *)
Definition challenged (scan : GraphChainScan) : Prop :=
  ∃ t, sc_challenge_txid scan = Some t ∧ kickoff_spent t ∧ t ≠ signed_txid (bg_take1 g).

Definition disprove_seen (d : DetectedDisprove) : Prop :=
  let txid := dd_challenge_finish_txid d in
  confirmed_tx txid ∧
  match dd_disprove_type d with
  | QuickChallenge => txid = signed_txid (bg_quick_challenge g)
  | ChallengeIncompleteKickoff => txid = signed_txid (bg_challenge_incomplete_kickoff g)
  | OperatorChallengeNack => signed_txid <$> bg_operator_challenge_nacks g !! dd_index d = Some txid
  | OperatorCommitTimeout => txid = signed_txid (bg_operator_commit_timeout g)
  | TxDisprove => signed_txid <$> bg_disproves g !! dd_index d = Some txid
  | PubinDisprove => ∃ c, connector_d_input (bg_operator_assert g) = Ok c ∧
      spent_by (in_txid c) (in_vout c) txid ∧ txid ≠ signed_txid (bg_take2 g) ∧
      txid ∉ signed_txid <$> bg_disproves g
  end.

Definition status_on_chain (scan : GraphChainScan) : Prop :=
  match sc_status scan with
  | OperatorPresigned | CommitteePresigned | OperatorDataPushed =>
      ∃ k data, gateway_get_graph_data k (bp_graph_id (bg_parameters g)) = Ok data ∧
        (sc_status scan = OperatorDataPushed ↔ ga_operator_pubkey data ≠ zero_key)
  | PreKickoff => confirmed_tx (signed_txid (bg_cur_prekickoff g))
  | Skipped => confirmed_tx (signed_txid (bg_cur_prekickoff g)) ∧
      ∃ t, spent_by (signed_txid (bg_cur_prekickoff g)) kickoff_connector_vout t ∧ t ≠ signed_txid (bg_kickoff g)
  | OperatorKickOff => kicked_off
  | OperatorTake1 => kickoff_spent (signed_txid (bg_take1 g))
  | Challenge => challenged scan
  | OperatorTake2 => challenged scan ∧ confirmed_tx (signed_txid (bg_take2 g))
  | Disprove => kicked_off ∧ ∃ d, sc_disprove scan = Some d ∧ disprove_seen d
  | _ => False
  end.

Definition seen (o : option DetectedDisprove) : Prop := ∀ d, o = Some d → disprove_seen d.

Lemma confirmed_returned txid : yields (tx_confirmed txid) (λ b, b = true → confirmed_tx txid).
Proof.
  apply (yields_bind _ _ (λ st, ∃ k, get_tx_status k txid = Ok st)).
  { apply yields_ask. by intros k st Hk; exists k. }
  intros st [k Hk]. apply yields_ret. intros Hc. by exists k, st.
Qed.

Lemma spent_returned txid vout :
  yields (outpoint_spent_confirmed txid vout) (λ o, ∀ t, o = Some t → spent_by txid vout t).
Proof.
  apply (yields_bind _ _ (λ o, ∀ t, o = Some t →
    ∃ k output, get_output_status k txid vout = Ok (Some output) ∧ os_txid output = Some t)).
  { apply (yields_bind _ _ (λ o, ∃ k, get_output_status k txid vout = Ok o)).
    { apply yields_ask. by intros k o Hk; exists k. }
    intros [output|] [k Hk]; apply yields_ret; [|done]. intros t Ht. by exists k, output. }
  intros [t|] Ht; [|by apply yields_ret]. apply (yields_bind _ _ (λ st, ∃ k, get_tx_status k t = Ok st)).
  { apply yields_ask. by intros k st Hk; exists k. }
  intros st [k Hk]. apply yields_ret. destruct (xs_confirmed st) eqn:Hc; [|done]. intros t' [= <-].
  split; [by apply Ht|by exists k, st].
Qed.

Lemma guardian_returned : yields (detect_guardian_disprove g) seen.
Proof.
  eapply yields_bind; [apply confirmed_returned|]. intros [] Hq.
  { apply yields_ret. intros d [= <-]. by split; [apply Hq|]. }
  eapply yields_bind; [apply confirmed_returned|]. intros [] Hi; apply yields_ret; [|done].
  intros d [= <-]. by split; [apply Hi|].
Qed.

Lemma nack_returned pre nacks :
  bg_operator_challenge_nacks g = pre ++ nacks → yields (confirmed_nack nacks (length pre)) seen.
Proof.
  revert pre. induction nacks as [|nack nacks IH]; intros pre Hg; cbn [confirmed_nack]; [by apply yields_ret|].
  eapply yields_bind; [apply confirmed_returned|]. intros [] Hc.
  - apply yields_ret. intros d [= <-]. split; [by apply Hc|]. cbn. by rewrite Hg, list_lookup_middle.
  - specialize (IH (pre ++ [nack])). rewrite length_app, Nat.add_1_r in IH. apply IH. by rewrite <- app_assoc.
Qed.

Lemma watchtower_returned : yields (detect_watchtower_flow_disprove g) seen.
Proof.
  eapply yields_bind; [by apply (nack_returned [])|]. intros [d|] Hd; [by apply yields_ret|].
  eapply yields_bind; [apply confirmed_returned|]. intros [] Hc; apply yields_ret; [|done].
  intros d [= <-]. by split; [apply Hc|].
Qed.

Lemma connector_d_returned : yields (detect_connector_d_disprove g) seen.
Proof.
  apply (yields_bind _ _ (λ c, connector_d_input (bg_operator_assert g) = Ok c)).
  { apply yields_lift. intros c. unfold map_err. by destruct (connector_d_input _). }
  intros c Hc. eapply yields_bind; [apply spent_returned|]. intros [t|] Ht; apply yields_ret; [|done].
  specialize (Ht t eq_refl). cbn. case_bool_decide as Htake; [done|].
  destruct (list_find _ _) as [[i tx]|] eqn:Hf; intros d [= <-]; split; [apply Ht| |apply Ht|].
  - apply list_find_Some in Hf as (Hi & -> & _). cbn. by rewrite Hi.
  - exists c. split_and!; [done..|]. intros (tx & Heq & Hin)%list_elem_of_fmap. apply list_find_None in Hf.
    rewrite Forall_forall in Hf. by apply (Hf tx Hin).
Qed.

Lemma branches_returned asserts i found : seen found →
  yields (verifier_branches g asserts i found) (λ r, seen r.2).
Proof.
  revert i found. induction asserts as [|a asserts IH]; intros i found Hfound; cbn [verifier_branches];
    [by apply yields_ret|].
  apply (yields_bind _ _ (λ tx, bg_disproves g !! i = Some tx)).
  { apply yields_lift. intros tx. apply index_Ok. }
  intros tx Htx. apply yields_skip. intros visible. apply (yields_bind _ _ (λ b, seen b.2)).
  { destruct visible; [|by apply yields_ret]. eapply yields_bind; [apply spent_returned|].
    intros [t|] Ht; apply yields_ret; [|done]. case_bool_decide as Heq; [|done]. intros d [= <-].
    split; [by apply Ht|]. cbn. by rewrite Htx, Heq. }
  intros branch Hb. eapply yields_bind; [by apply IH|]. intros rest Hr. by apply yields_ret.
Qed.

Lemma challenge_returned sub t :
  kickoff_spent t → t ≠ signed_txid (bg_take1 g) → yields (scan_challenge g sub (Some t)) status_on_chain.
Proof.
  intros Ht Hne. assert (Hch : ∀ scan, sc_challenge_txid scan = Some t → challenged scan) by by exists t.
  assert (Hdis : ∀ sub d, disprove_seen d → status_on_chain (disproved_scan sub (Some t) d)).
  { intros sub' d Hd. split; [apply Ht|by exists d]. }
  unfold scan_challenge. eapply yields_bind; [apply guardian_returned|].
  intros [d|] Hd; [by apply yields_ret, Hdis, Hd|]. eapply yields_bind; [apply watchtower_returned|].
  clear Hd. intros [d|] Hd; [by apply yields_ret, Hdis, Hd|]. apply yields_skip. intros init.
  destruct (negb init); [by apply yields_ret, Hch|]. apply yields_skip. intros spends. apply yields_skip.
  intros asserted. destruct (negb asserted); [by apply yields_ret, Hch|].
  eapply yields_bind; [by apply branches_returned|]. clear Hd. intros [sts [d|]] Hd; [by apply yields_ret, Hdis, Hd|].
  eapply yields_bind; [apply connector_d_returned|]. clear Hd. intros [d|] Hd; [by apply yields_ret, Hdis, Hd|].
  eapply yields_bind; [apply confirmed_returned|]. intros [] Hc; apply yields_ret; [|by apply Hch].
  split; [by apply Hch|by apply Hc].
Qed.

Lemma kickoff_returned sub : kicked_off → yields (scan_kickoff g sub) status_on_chain.
Proof.
  intros Hk. unfold scan_kickoff. eapply yields_bind; [apply guardian_returned|].
  intros [d|] Hd; [apply yields_ret; split; [done|by exists d; split; [|apply Hd]]|].
  apply (yields_bind _ _ (λ a, connector_a_input (bg_kickoff g) = Ok a)).
  { apply yields_lift. intros a. unfold map_err. by destruct (connector_a_input _). }
  intros a Ha. eapply yields_bind; [apply spent_returned|]. intros [t|] Ht; [|by apply yields_ret].
  specialize (Ht t eq_refl). case_bool_decide as Htake.
  - subst t. apply yields_ret. split; [done|by exists a].
  - apply challenge_returned; [|done]. split; [done|by exists a].
Qed.

(** C12: the status a node reads from the chains for a graph is what the chains show: a status after the
    kickoff only once the confirmed kickoff spends the confirmed pre-kickoff, Take-1 and a challenge
    only by the confirmed spender of connector A, Take-2 only when it is confirmed after a challenge,
    a disprove only by a confirmed transaction of the kind it is recorded as, and a skip only when
    another confirmed transaction took the pre-kickoff's output. *)
Theorem scanned_status_on_chain scan s e s' e' (Hscan : scan_graph_chain_state g s e = (Ok scan, s', e')) :
  status_on_chain scan.
Proof.
  revert Hscan. cut (yields (scan_graph_chain_state g) status_on_chain); [by intros Hr Hscan; eapply Hr|].
  unfold scan_graph_chain_state.
  apply (yields_bind _ _ (λ data, ∃ k, gateway_get_graph_data k (bp_graph_id (bg_parameters g)) = Ok data)).
  { apply yields_ask. by intros k data Hk; exists k. }
  intros data [k Hdata]. eapply yields_bind; [apply confirmed_returned|]. intros [] Hc; cbn [negb]; cbv iota.
  - specialize (Hc eq_refl). eapply yields_bind; [apply spent_returned|]. intros [t|] Ht; [|by apply yields_ret].
    specialize (Ht t eq_refl). case_bool_decide as Hk; [subst t; by apply kickoff_returned|].
    apply yields_ret. split; [done|by exists t].
  - apply yields_ret. unfold status_on_chain. cbn [sc_status].
    case_bool_decide as Hz; [destruct (bg_committee_pre_signed g)|]; exists k, data; by split.
Qed.

End Scan.

(** The sample's kickoff is confirmed. *)
Lemma scanned_status_on_chain_witness : kicked_off sample_full.
Proof.
  pose (run := scan_graph_chain_state sample_full round_node (quiet 5)).
  assert (Hstatus : match run.1.1 with Ok scan => sc_status scan = OperatorKickOff | Err _ => False end)
    by (vm_compute; reflexivity).
  destruct run as [[[scan|] s'] e'] eqn:Hrun; [|done]. cbn in Hstatus.
  pose proof (scanned_status_on_chain sample_full scan round_node (quiet 5) s' e' Hrun) as Hscan.
  unfold status_on_chain in Hscan. by rewrite Hstatus in Hscan.
Defined.

(** ** Keys and partial signatures of the sample *)

Lemma accepted_slots_checked_witness : ∃ pubs aggs sigs,
  own_signing = Ok (pubs, aggs, sigs) ∧
  Forall2 (slot_checked [member] member) (graph_slots sample_full)
    (zip3 (slot_values pubs) (slot_values aggs) (slot_values sigs)).
Proof.
  assert (Hv : match own_signing with
    | Ok (p, a, s) => verify_graph_committee_partial_sigs [member] member sample_full p a s
    | Err x => Err x end = Ok tt) by (vm_compute; reflexivity).
  assert (Hshape : graph_shape sample_full) by (vm_compute; repeat split).
  destruct own_signing as [[[pubs aggs] sigs]|]; [|discriminate Hv]. exists pubs, aggs, sigs. split; [reflexivity|].
  exact (proj2 (accepted_slots_checked [member] member sample_full pubs aggs sigs Hshape Hv)).
Defined.

(** The member's key is made for an instance that has none. *)
Lemma created_key_loads_witness :
  let s' := final (create_instance_keypair_envelope "node master key" 2%N round_node (quiet 100)) in
  ∃ k, load_instance_keypair "node master key" 2%N s' (quiet 200) = (Ok k, s', quiet 200) ∧ public_key k = member.
Proof.
  pose (run := create_instance_keypair_envelope "node master key" 2%N round_node (quiet 100)).
  assert (Hok : run.1.1 = Ok member) by (vm_compute; reflexivity).
  apply (created_key_loads "node master key" 2%N round_node (quiet 100) member run.1.2 run.2 200).
  fold run. rewrite <- Hok. by destruct run as [[? ?] ?].
Defined.

(** The same node after the instance's key was deleted. *)
Definition key_deleted_node : RoundNode :=
  round_node <| rn_envelopes := ∅ |>
    <| rn_tables ::= λ t, t <| t_instance := [round_row <| it_key_deleted := true |>] |> |>.


(** * Graph definitions in the tables

    A finalized definition is never replaced, and a definition that was stored is the one that is
    loaded, with its signatures checked again. *)

Local Open Scope Z_scope.

Section Definitions.
Context `{UuidText} `{Sha256} `{Musig2} `{RoundJson} `{Taproot} `{Goat} `{GraphBuilder}.

(** ** Finalized definitions *)

Section Fixed.
Context (id : Uuid) (raw : GraphRawData) (stored : SimplifiedBitvmGcGraph).
Context (parsed : simplified_from_str (rd_raw_data raw) = Ok stored).
Context (final_ : sg_committee_pre_signed stored = true).

Definition holds_raw (t : NodeTables) : Prop := select_one (raw_is id) (t_graph_raw_data t) = Some raw.

Lemma find_keep {A} (p q : A → bool) f l :
  (∀ x, p x = true → q x = false) → (∀ x, q x = true → p (f x) = false) →
  List.find p (update_where q f l) = List.find p l.
Proof.
  intros Hpq Hf. unfold update_where. induction l as [|x l IH]; [done|]. cbn [map List.find].
  destruct (q x) eqn:Hq; [|by rewrite IH]. rewrite Hf by done.
  destruct (p x) eqn:Hp; [|done]. by rewrite Hpq in Hq.
Qed.

Lemma find_app_old {A} (p : A → bool) l x y : List.find p l = Some y → List.find p (l ++ [x]) = Some y.
Proof. induction l as [|z l IH]; cbn; [done|]. by destruct (p z). Qed.

Lemma fixed_find_graph g : guarantee (keeps holds_raw) (find_graph g).
Proof. unfold find_graph. guar. Qed.
Lemma fixed_find_raw g : guarantee (keeps holds_raw) (find_graph_raw_data g).
Proof. unfold find_graph_raw_data. guar. Qed.
Hint Resolve fixed_find_graph fixed_find_raw : guar.

(** Statements on the graphs leave the definitions' texts alone. *)
Lemma fixed_stmt {A} (f : NodeTables → A * NodeTables) :
  (∀ t, t_graph_raw_data (f t).2 = t_graph_raw_data t) → guarantee (keeps holds_raw) (stmt f).
Proof. intros Hf. apply guarantee_stmt; [apply _|]. intros t. unfold keeps, holds_raw. by rewrite Hf. Qed.

Lemma fixed_transition i g target source sub :
  guarantee (keeps holds_raw) (transition_graph_status i g target source sub).
Proof.
  unfold transition_graph_status, graph_status_transition_outcome.
  repeat first [apply fixed_stmt; by intros|guar_step].
Qed.
Hint Resolve fixed_transition : guar.

Lemma fixed_upsert_definition g : guarantee (keeps holds_raw) (upsert_graph_definition g).
Proof.
  unfold upsert_graph_definition. guar.
  intros t e. unfold stmt_constrained, insert_definition. destruct (next_fault e) as [[] e1]; [by intros Ht|].
  by destruct (existsb _ _); [|destruct (existsb _ _)]; intros Ht.
Qed.
Hint Resolve fixed_upsert_definition : guar.

Lemma fixed_store_raw i g s now h : g ≠ id → guarantee (keeps holds_raw) (store_raw i g s now h).
Proof.
  intros Hne. unfold store_raw, upsert_graph_raw_data. guar.
  apply guarantee_stmt; [apply _|]. intros t Ht. unfold holds_raw, select_one, raw_is in *. cbn.
  destruct (existsb _ _); cbn; [|by apply find_app_old]. rewrite find_keep; [done|..].
  - intros x Hx%bool_decide_eq_true. apply bool_decide_eq_false. congruence.
  - intros x Hx%bool_decide_eq_true. apply bool_decide_eq_false. cbn. congruence.
Qed.

Lemma hoare_yields {S A} (m : ST S A) Q P : yields m Q → hoare P m (on_ok (λ a _, Q a) (λ _, True)).
Proof.
  intros Hr s e _. destruct (m s e) as [[[a|x] s'] e'] eqn:Heq; cbn; [by eapply Hr|done].
Qed.

Lemma existing_found h :
  hoare holds_raw (existing_definition id h) (on_ok (λ o _, o = Some stored) (λ _, True)).
Proof.
  unfold existing_definition. apply (hoare_bind _ _ _ (λ _, holds_raw)).
  { apply hoare_query. intros t Ht. by split. }
  intros row. apply (hoare_bind _ _ _ (λ r _, r = Some raw)).
  { apply hoare_query. intros t Ht. split; [done|]. exact Ht. }
  intros r s e ->. refine (hoare_yields _ (λ o, o = Some stored) (λ _, True) _ s e I).
  destruct row as [row|]; [|apply yields_fail]. destruct (bool_decide _); [apply yields_fail|].
  destruct (negb _); [apply yields_fail|]. rewrite parsed.
  apply (yields_bind _ _ (λ g, g = stored)); [by apply yields_lift; intros g [= <-]|]. intros g ->.
  apply yields_skip. intros hash. destruct (negb _); [apply yields_fail|].
  do 3 (apply yields_skip; intros ?). by apply yields_ret.
Qed.

Lemma keeps_bind_found {A B} (I : NodeTables → Prop) (m : ST NodeTables A) (k : A → ST NodeTables B) Q :
  guarantee (keeps I) m → hoare I m (on_ok (λ a _, Q a) (λ _, True)) →
  (∀ a, Q a → guarantee (keeps I) (k a)) → guarantee (keeps I) (m ≫= k).
Proof.
  intros Hm Hq Hk s e Hs. specialize (Hm s e Hs). specialize (Hq s e Hs). unfold mbind, st_bind, final in *.
  destruct (m s e) as [[[a|x] s'] e']; [|done]. by apply (Hk a Hq).
Qed.

Lemma fixed_existing g h : guarantee (keeps holds_raw) (existing_definition g h).
Proof. unfold existing_definition. guar. Qed.

Lemma fixed_confirm i g : guarantee (keeps holds_raw) (confirm_finalized_graph_definition i g).
Proof. unfold confirm_finalized_graph_definition. guar. Qed.

Hint Resolve fixed_existing fixed_confirm : guar.

Lemma fixed_ingest g kind : guarantee (keeps holds_raw) (ingest_graph_definition g kind).
Proof.
  unfold ingest_graph_definition. do 5 (apply guarantee_bind; [apply _|guar|intros ?]).
  destruct (decide (bp_graph_id (sg_parameters g) = id)) as [Hid|Hne].
  - rewrite Hid. eapply keeps_bind_found; [guar|apply existing_found|]. intros o ->. rewrite final_. guar.
  - pose proof (λ i s now h, fixed_store_raw i _ s now h Hne). unfold find_graph_by_operator_slot. guar.
Qed.

(** C17: a graph's finalized definition is never replaced: whatever definition a node is given, for this
    graph or another, and however the call ends, the stored text stays. *)
Theorem finalized_definition_fixed g kind t e (Hraw : holds_raw t) :
  holds_raw (final (ingest_committed g kind t e)).
Proof.
  unfold ingest_committed. destruct (transaction _ t e) as [[o t'] e'] eqn:Heq.
  apply transaction_whole in Heq as [[-> _]|(r & e1 & e2 & _ & Hrun)]; [done|].
  pose proof (fixed_ingest g kind t e1 Hraw) as Hk. by rewrite Hrun in Hk.
Qed.

End Fixed.

(** ** Stored definitions *)

Section Stored.
Context (g : SimplifiedBitvmGcGraph) (i : Uuid) (h : string) (text : string).
Let id := bp_graph_id (sg_parameters g).

Definition has_row (t : NodeTables) : Prop := ∃ row,
  select_one (graph_is id) (t_graph t) = Some row ∧ gr_instance_id row = i ∧ gr_definition_hash row = h.
Definition has_text (t : NodeTables) : Prop := ∃ raw,
  select_one (raw_is id) (t_graph_raw_data t) = Some raw ∧ rd_raw_data raw = text.
Definition holds_definition (t : NodeTables) : Prop := (h ≠ "")%string ∧ has_row t ∧ has_text t.

Lemma store_raw_holds now :
  simplified_to_string g = Ok text →
  hoare (λ _, True) (store_raw i id g now h) (on_ok (λ _, holds_definition) (λ _, True)).
Proof.
  intros Htext. unfold store_raw. rewrite Htext. apply (hoare_bind _ _ _ (λ x _, x = text)).
  { by apply hoare_lift. }
  intros x. apply (hoare_bind _ _ _ (λ _, holds_definition)); [|intros n; by apply hoare_ret].
  unfold upsert_graph_raw_data. case_bool_decide as Hne; [by apply hoare_fail|].
  apply (hoare_bind _ _ _ (λ found t, x = text ∧ found = select_one (graph_is id) (t_graph t))).
  { apply hoare_query. by intros t ->. }
  intros [row|]; [|by apply hoare_fail]. cbn [rd_graph_id]. case_bool_decide as Hi; cbn; [|by apply hoare_fail].
  case_bool_decide as Hh; cbn; [|by apply hoare_fail]. apply hoare_stmt. intros t [-> Hrow]. split; [done|]. split_and!; [done|..].
  - exists row. split_and!; [|done..]. by destruct (existsb _ _).
  - unfold has_text, select_one, raw_is. cbn. destruct (existsb _ _) eqn:Hex; cbn.
    + apply existsb_exists in Hex as (y & Hy%list_elem_of_In & Hp).
      destruct (find_is_some (λ r, bool_decide (rd_graph_id r = id)) _ y Hy Hp) as [z Hz]. rewrite find_update_where by done. rewrite Hz. by eexists.
    + rewrite find_app_new; [by eexists|done|]. by apply bool_decide_eq_true.
Qed.

Lemma find_update_same {A} (p q : A → bool) f l x :
  (∀ y, p (f y) = p y) → List.find p l = Some x →
  List.find p (update_where q f l) = Some (if q x then f x else x).
Proof.
  intros Hf. unfold update_where. induction l as [|y l IH]; [done|]. cbn [map List.find].
  destruct (p y) eqn:Hy.
  - intros [= <-]. destruct (q y); [by rewrite Hf, Hy|by rewrite Hy].
  - intros Hl. destruct (q y); [rewrite Hf|]; rewrite Hy; by apply IH.
Qed.

Lemma row_kept_stmt {A} (f : NodeTables → A * NodeTables) q u :
  (∀ t, (f t).2 = t <| t_graph ::= update_where q u |>) →
  (∀ r, gr_graph_id (u r) = gr_graph_id r ∧ gr_instance_id (u r) = gr_instance_id r ∧
        gr_definition_hash (u r) = gr_definition_hash r) →
  guarantee (keeps holds_definition) (stmt f).
Proof.
  intros Hf Hu. apply guarantee_stmt; [apply _|]. intros t (Hne & (row & Hrow & Hi & Hh) & Ht). rewrite Hf. split_and!; [done| |done].
  exists (if q row then u row else row). split.
  - apply find_update_same; [|done]. intros y. unfold graph_is. by rewrite (proj1 (Hu y)).
  - destruct (Hu row) as (_ & Hui & Huh). destruct (q row); by rewrite ?Hui, ?Huh.
Qed.

Lemma confirm_keeps j k : guarantee (keeps holds_definition) (confirm_finalized_graph_definition j k).
Proof.
  unfold confirm_finalized_graph_definition, transition_graph_status, graph_status_transition_outcome, find_graph.
  repeat first [by eapply row_kept_stmt|guar_step].
Qed.

Lemma bind_lift_Ok {S A B} (a : A) (k : A → ST S B) : (st_lift (Ok a) ≫= k) = k a.
Proof. reflexivity. Qed.

Lemma hoare_skip {S A B} (m : ST S A) (k : A → ST S B) Q :
  (∀ a, hoare (λ _, True) (k a) (on_ok Q (λ _, True))) → hoare (λ _, True) (m ≫= k) (on_ok Q (λ _, True)).
Proof.
  intros Hk. apply (hoare_bind _ _ _ (λ _ _, True)); [|done]. intros s e _. by destruct (m s e) as [[[]] ?].
Qed.

(** A new text is stored. *)
Definition stored_anew (out : GraphDefinitionIngestOutcome) : Prop := out = Inserted ∨ out = FinalizedUpgrade.

Lemma ingest_holds kind full hash :
  simplified_to_string g = Ok text → from_simplified g = Ok full → parameters_hash_of g = Ok hash →
  h = hex_encode hash → i = bi_instance_id (bp_instance_parameters (bg_parameters full)) →
  hoare (λ _, True) (ingest_graph_definition g kind)
    (on_ok (λ out t, stored_anew out → holds_definition t) (λ _, True)).
Proof.
  intros Htext Hfull Hhash Hh Hi. unfold ingest_graph_definition. rewrite Hfull, bind_lift_Ok.
  apply hoare_skip. intros _. apply hoare_skip. intros _. apply hoare_skip. intros now.
  rewrite Hhash, bind_lift_Ok, <- Hh, <- Hi. apply hoare_skip. intros existing.
  assert (Hother : ∀ (m : ST NodeTables unit) out, out = AlreadyFinalized ∨ out = Replay →
    hoare (λ _, True) (m;; mret out) (on_ok (λ out t, stored_anew out → holds_definition t) (λ _, True))).
  { intros m out Hout. apply hoare_skip. intros _. apply hoare_ret. intros t _ [->| ->]; by destruct Hout. }
  assert (Hnew : ∀ (m : ST NodeTables unit) out, guarantee (keeps holds_definition) m →
    hoare (λ _, True) (store_raw i id g now h;; m;; mret out)
      (on_ok (λ out t, stored_anew out → holds_definition t) (λ _, True))).
  { intros m out Hm. apply (hoare_bind _ _ _ (λ _, holds_definition)); [by apply store_raw_holds|]. intros _.
    apply (hoare_bind _ _ _ (λ _, holds_definition)); [|intros _; by apply hoare_ret; intros t Ht _].
    intros s e Hs. specialize (Hm s e Hs). unfold final in Hm. by destruct (m s e) as [[[] ?] ?]. }
  destruct (match existing with Some _ => _ | None => _ end).
  { destruct (_ && _); [by apply hoare_fail|]. apply Hother. by left. }
  destruct (_ && _); [by apply hoare_fail|]. destruct (_ && _); [by apply hoare_fail|].
  apply hoare_skip. intros _. apply hoare_skip. intros address. apply hoare_skip. intros _.
  pose proof confirm_keeps as Hc. destruct (negb _); [apply Hnew; by destruct (is_finalized_kind kind); [|guar]|].
  destruct (is_finalized_kind kind); [by apply Hnew|]. apply hoare_ret. by intros t _ [|].
Qed.

Lemma ingest_checked kind : yields (ingest_graph_definition g kind) (λ _, ∃ full hash,
  from_simplified g = Ok full ∧ verify_graph_operator_pre_signatures full = Ok tt ∧
  (kind = FinalizedKind → verify_graph_committee_pre_signatures full = Ok tt) ∧ parameters_hash_of g = Ok hash).
Proof.
  unfold ingest_graph_definition. apply (yields_bind _ _ (λ full, from_simplified g = Ok full)).
  { by apply yields_lift. }
  intros full Hfull. apply (yields_bind _ _ (λ _, verify_graph_operator_pre_signatures full = Ok tt)).
  { apply yields_lift. intros []. unfold invalid_graph. by destruct (verify_graph_operator_pre_signatures full). }
  intros _ Hop.
  apply (yields_bind _ _ (λ _, kind = FinalizedKind → verify_graph_committee_pre_signatures full = Ok tt)).
  { destruct kind; [by apply yields_ret|]. apply yields_lift. intros []. unfold invalid_graph.
    by destruct (verify_graph_committee_pre_signatures full). }
  intros _ Hco. apply yields_skip. intros now. apply (yields_bind _ _ (λ hash, parameters_hash_of g = Ok hash)).
  { by apply yields_lift. }
  intros hash Hhash s e out s' e' _. by exists full, hash.
Qed.

(** What the tables hold is loaded. *)
Lemma held_loads full hash now t :
  holds_definition t → simplified_from_str text = Ok g → parameters_hash_of g = Ok hash → h = hex_encode hash →
  bi_instance_id (bp_instance_parameters (sg_parameters g)) = i →
  from_simplified g = Ok full → verify_graph_operator_pre_signatures full = Ok tt →
  (bg_committee_pre_signed full = true → verify_graph_committee_pre_signatures full = Ok tt) →
  load_validated_graph_definition i id t (quiet now) = (Ok (Some g), t, quiet now).
Proof.
  intros (Hne & (row & Hrow & Hri & Hrh) & (raw & Hraw & Htext)) Hparse Hhash Hh Hi Hfull Hop Hco.
  unfold load_validated_graph_definition, find_graph, find_graph_raw_data.
  unfold mbind, st_bind, query, stmt. cbn [next_fault quiet faults]. rewrite Hrow. cbv iota beta.
  rewrite Hri, bool_decide_true by done. cbn [negb]. rewrite Hrh, bool_decide_false by done. cbn -[hex_encode].
  rewrite Hraw. cbn -[hex_encode]. rewrite Htext, Hparse. cbn -[hex_encode]. fold id. rewrite !bool_decide_true by done.
  cbn -[hex_encode]. rewrite Hhash. cbn -[hex_encode]. rewrite bool_decide_true by done. cbn. rewrite Hfull. cbn.
  rewrite Hop. cbn. destruct (bg_committee_pre_signed full); [|done]. cbn. by rewrite Hco.
Qed.

End Stored.


End Definitions.

(** ** The sample's graph *)

#[local] Instance round_builder_laws : GraphBuilderLaws.
Proof. intros g s. cbn. do 2 (case_bool_decide; [by intros [= <-]; subst|]). done. Qed.

Definition finalized_tables : NodeTables :=
  (rn_tables round_node) <| t_graph_raw_data := [mkRawData 7%N "finalized" 90 90] |>.

(** The operator's version arrives again after the graph is finalized. *)
Lemma finalized_definition_fixed_witness :
  (ingest_committed sample_simplified OperatorPresignedKind finalized_tables (quiet 100)).1.1 = Ok AlreadyFinalized ∧
  holds_raw 7%N (mkRawData 7%N "finalized" 90 90)
    (final (ingest_committed sample_simplified OperatorPresignedKind finalized_tables (quiet 100))).
Proof.
  split; [vm_compute; reflexivity|].
  exact (finalized_definition_fixed 7%N (mkRawData 7%N "finalized" 90 90) sample_finalized eq_refl eq_refl
    sample_simplified OperatorPresignedKind finalized_tables (quiet 100) eq_refl).
Defined.

